(* ===== verification/_CoqProject ===== *)
-Q . S2P
Prelude.v
GoStrings.v
Decimal.v
GoText.v
Sha256.v
PackFormat.v
BlobStore.v
Manifest.v
ChunkedRead.v
SnapStore.v
LocalStore.v
CacheStore.v
CompressStore.v
DedupIndex.v
PackAssoc.v
Reclaim.v
ChunkedWrite.v
StreamCopy.v
PutSpec.v
PutGet.v
BatchSpec.v
BatchGet.v
ManifestStore.v
BatchGetSpec.v
GC.v
GCSpec.v
MetaOps.v
Lifecycle.v
Compact.v
CompactSpec.v
Backfill.v
Scenarios.v
CompactRun.v
Wal.v
WalSpec.v
Overlay.v
MetaDb.v
Leases.v
Locks.v
FileMeta.v
FileIO.v
FileSpec.v
FileRefine.v
DiskCache.v
CacheSpec.v
CacheLru.v
CasStore.v
SliceGC.v
WalReplay.v
FileScenarios.v
MetaTree.v
TreeSpec.v
TreeOps.v
TreeScenarios.v
RefStore.v
Gateway.v
GatewaySpec.v
GatewayWithin.v
GatewayPrefix.v
GatewayScenarios.v
S3Crypto.v
S3Auth.v
S3Sig.v
S3Stream.v
S3Objects.v
S3Range.v
S3List.v
S3Multi.v
S3Spec.v
S3Vectors.v
S3Scenarios.v
EdgeCap.v
Edge.v
EdgeSpec.v
EdgeScenarios.v
