(* ===== verification/Prelude.v ===== *)
(** * A verification of memorylayer-storage

    The repository stores snapshots, objects and file systems in
    content-addressed packs.  casstore (src/casstore) cuts data into chunks,
    deduplicates them, packs them into blobs and collects garbage.  Two systems
    stand on it: blobgw (src/blobgw), an object gateway with an S3 front end
    (src/blobgw-s3) and a capability-checking edge (src/blobgw-edge), and mlfs
    (src/mlfs), a file system whose metadata is in SQL tables and whose data is
    in slices kept by casstore behind a disk cache and a write-ahead log.
    src/manifeststore keeps casstore's manifests in Postgres.  The development
    models these parts, each operation a Rocq function that runs, and proves
    what they guarantee.

    ** How code is modelled

    State is passed explicitly; a Go [(value, error)] is [result] or an option
    of an error; integers are [Z], reduced where the source's width matters
    (uint32 chunk indices, uint64 offsets, the int(uint64) conversion, int64
    quota counters and durations).  What the environment decides is an argument
    of the operation that meets it: the outcome of a file system call, whether a
    transaction commits and whether its reply arrives, clocks and random bytes,
    the order of a map iteration, what other clients do between two steps.  A
    theorem that quantifies over these arguments holds whatever fails.

    Code outside the repository is a class with its documented contract, never
    a definition: object storage ([BlobStore.Storage]), the compressors
    ([PackFormat.CodecLib]), encoding/json on the various records
    ([Manifest.ManifestCodec], [EdgeCap.ClaimsCodec], [Edge.EdgeJSON],
    [LocalStore.MetaCodec]), XML ([S3Multi.CompleteXML]), the content-defined splitter
    ([ChunkedWrite.Splitter]), the text form of times ([RefStore.TimeText]), signatures
    ([EdgeCap.Ed25519]), the Postgres server ([ManifestStore.PgServer]).
    Interfaces of the repository are classes too ([SnapStore.SnapshotStore],
    [DedupIndex.DedupStore], [RefStore.RefStore], [RefStore.StagingStore],
    [FileIO.SliceStore], [DiskCache.ChunkStore], [Edge.RateLimiter]); clients are
    proved against the class, and each class has an instance, so the theorems
    can be applied.  SHA-256, MD5, HMAC and CRC-32 are implemented; no theorem
    assumes they are injective: where a collision matters, it is in the
    conclusion or its absence among the bytes at hand is a stated condition.

    ** casstore (src/casstore/snapshot)

    - [PackFormat] is store_compress.go's pack framing: whole-pack and per-chunk
      packs decode to what was packed, and a ranged read through the chunk
      index gives the same bytes as decoding the whole pack.
    - [BlobStore] is blobstore/cas.go on kopia's storage interface; [Manifest]
      is store.go's keys, manifests and blob names; [SnapStore] the snapshot
      store interface and version.go.
    - [LocalStore] is store_local.go, [CacheStore] store_cache.go: snapshots in
      a directory, with every system call of a put and its clean-up allowed to
      fail, and the cache in front of another store.  [CompressStore] is the
      compressing store of store_compress.go and compress_policy.go.
    - [ManifestStore] is manifeststore/store.go: the table refines a map of
      snapshots, the batched lookup equals single lookups, and the store
      discharges the interfaces of the chunked store, of its batched reads and
      of its collector.
    - [ChunkedRead] is the stream reader of store_chunked.go: complete on
      backed manifests for every sequence of buffer sizes, and never delivering
      a byte that does not hash to its reference; [StreamCopy] drains it.
    - [BatchGet], [BatchGetSpec] are batchget.go: a batched read agrees with
      single reads and, with the backends up, is complete.
    - [DedupIndex], [PackAssoc] and [Reclaim] are dedupindex.go and
      packassoc.go: the index and its sessions, the pack/context associations,
      and mark-based reclamation, safe under interleaving with other clients.
    - [ChunkedWrite], [PutSpec], [PutGet], [BatchSpec] are Put, PutBatch and
      what they guarantee: a put that returns reads back exactly; any put
      preserves the invariant of the store, that every snapshot is backed and
      every index entry names stored bytes.
    - [GC], [GCSpec] are chunked_gc.go: a pass never removes what is live or
      young and, with the backends up, removes exactly the rest.
    - [MetaOps], [Lifecycle]: metadata updates and registration; and the
      history theorem [snapshot_survives], over every sequence of operations.
    - [Compact], [CompactSpec], [CompactRun] are compact.go; [Backfill] is
      packassoc_backfill.go; [Scenarios] and [CompactRun] hold the runs in
      which the code departs from its documentation.

    ** blobgw, its S3 front end and its edge

    - [GoText] is what the front ends use of Go's strings, strconv and base64.
    - [RefStore] is gateway/memory.go, the ref and staging stores; [Gateway] is
      gateway.go, register.go and classify.go.  [GatewaySpec] shows that the
      gateways of all domains refine a map from (domain, ref) to objects and
      serve it; [GatewayPrefix] is what deleting a prefix does; [GatewayWithin]
      that an operation touches one ref only; [GatewayScenarios] has the runs.
    - [S3Crypto], [S3Auth] are sigv4.go and the credential checks, [S3Sig] that
      a signature binds the request, [S3Stream] streaming.go, the signed
      chunked body, [S3Vectors] the published examples.
    - [S3Objects], [S3Range], [S3List], [S3Multi] are the handlers of
      handler.go, range.go, list.go, mpuops.go, multipart.go and bucketops.go;
      [S3Spec] what they guarantee together: a put is read back with its ETag,
      a rejected body changes nothing, multipart uploads assemble, a request
      stays within its domain; [S3Scenarios] has the runs.
    - [EdgeCap] is capability.go, [Edge] edge.go and policy.go; [EdgeSpec] shows
      that object requests are authorized and confined, that minted tokens open
      what they were minted for, what a GET serves and that uploads keep the
      quota; [EdgeScenarios] has the runs in which the edge departs from it.

    ** mlfs (src/mlfs/internal)

    - [Wal], [WalSpec] are wal/wal.go: the segmented log refines a list of
      records through crashes at any point.
    - [MetaDb], [Leases], [Locks] are the metadata engine's tables,
      transactions, inode and slice allocation (meta/schema.go, engine.go,
      scope.go, fence.go), ownership leases (ownership.go, sqlowner.go) and
      file locks (locks.go): fenced writes have one writer per generation,
      a lapsed scope can be taken over, and no two holders have conflicting
      locks when the lock transactions do not interleave.
    - [Overlay] is fileio.go's slice overlay, equal to last-writer-wins;
      [FileMeta], [FileIO], [FileSpec], [FileRefine] are the data operations of
      meta/slices.go and ops.go and fileio/fileio.go, which together refine a
      file system of byte sequences over any slice store; [WalReplay] is
      fileio/replay.go; [FileScenarios] the runs that lose bytes.
    - [DiskCache], [CacheSpec], [CacheLru] are cache/cache.go: a write that
      returned survives failed uploads, crashes and restarts, the clean cache
      keeps its limits, and the cache satisfies the slice store contract, so
      [FileRefine] applies to files on top of it.
    - [CasStore] is chunkstore/chunkstore.go, the slice store on casstore, and
      [SliceGC] gc/gc.go, the collector of slices no file refers to.
    - [MetaTree], [TreeSpec], [TreeOps], [TreeScenarios] are the namespace
      (meta/ops.go, rename.go, open.go, perms.go, xattr.go, gc.go): the tree
      invariant over every history, the scope walk's termination, and what
      renames break.

    ** Fuel and bounds

    Loops whose length is data are structural in that data.  These run on fuel:
    draining a reader, whose bound is the number of bytes plus chunks
    ([chunked_read_complete], [StreamCopy]); reading the input of a put, bounded
    by its length ([Put_completes]); the decoder of signed bodies, each step of
    which consumes input ([decode_fuel]); deleting a prefix page by page, bounded
    by the number of refs ([GatewayPrefix]); the scope walk, for which
    [scope_walk_ends] gives a number of steps that is enough and after which
    more change nothing.  Base64 and the reference codecs are structural.

    ** Not modelled

    Command-line tools, configuration, metrics and tracing, the Kubernetes
    driver and the FUSE glue are input and output around the parts above; the
    router of net/http is given by its routes, and XML and JSON texts by the
    values they encode.  The SQL text is modelled by its effect on the tables.
    In casstore: the S3 snapshot store, which calls the AWS SDK, and checkpoints of
    outside runtimes.
    In blobgw: the Postgres index (its contract is the class [DedupStore]), the
    tenant router and the control plane, the schedule of the collectors; in the
    front ends: the JetStream and Postgres variants of their stores, and the
    token bucket, which computes on floats.  In mlfs: ACLs, the change-log
    reader, readahead and the bridge that assembles the parts.  Goroutines are
    modelled where they share state that a property is about (the collectors,
    the reclaimer, leases, locks); parallel uploads of distinct packs or slices
    are taken one after the other.

    ** This file

    Go's byte slices, machine integers and error results.

    - [bytes] is a Go [[]byte]; [len], [slice] and [splice] are [len(b)],
      [b[i:j]] and [copy(dst[i:], src)].
    - [be_append]/[be_uint] are [encoding/binary]'s big-endian writer and
      reader; [int_of_uint64] is the conversion [int(uint64)], which wraps.
    - [err] is an error value up to [errors.Is]: wrapping with [%w] keeps the
      constructor, an error with no sentinel is [EOther].
    - [result] is a Go [(value, error)] pair; [stdpp]'s do-notation is the
      [if err != nil { return err }] idiom.
    - The [store] hint database and the [go_cases] / [slice_solve] tactics carry
      the routine cases of the proofs. *)

From Stdlib Require Export ZArith Lia.
From Stdlib Require Import Strings.Byte.
From stdpp Require Export base tactics option list strings gmap fin_maps.

#[global] Open Scope Z_scope.

(** ** Errors and results *)

(** The sentinels the code tests with [errors.Is]. *)
Inductive err : Type :=
| ErrBlobNotFound      (* kopia blob.ErrBlobNotFound *)
| ErrBlobAlreadyExists (* kopia blob.ErrBlobAlreadyExists *)
| ErrUnsupportedPutBlobOption
| ErrMissingBlob       (* snapshot.ErrMissingBlob *)
| ErrCorrupt           (* snapshot.ErrCorrupt *)
| ErrNoSnapshot        (* snapshot.ErrNoSnapshot *)
| ErrPackObliterating  (* snapshot.ErrPackObliterating *)
| ErrPackChunkedShortPrefix
| ErrNotFound          (* gateway.ErrNotFound *)
| ErrInvalidRef        (* gateway.ErrInvalidRef *)
| ErrNotStaged         (* gateway.ErrNotStaged *)
| ErrIntegrity         (* gateway.ErrIntegrity *)
| ErrChunkNotInDomain  (* gateway.ErrChunkNotInDomain *)
| ErrChunkPackMismatch (* gateway.ErrChunkPackMismatch *)
| ApiError (code : string) (status : Z) (* s3.apiError, found by errors.As *)
| EOther (msg : string).

#[global] Instance err_eq_dec : EqDecision err.
Proof. solve_decision. Defined.

Inductive result (A : Type) : Type :=
| Ok (a : A)
| Err (e : err).
Arguments Ok {A} a.
Arguments Err {A} e.

#[global] Instance result_ret : MRet result := fun A a => Ok a.
#[global] Instance result_bind : MBind result :=
  fun A B f r => match r with Ok a => f a | Err e => Err e end.
#[global] Instance result_fmap : FMap result :=
  fun A B f r => match r with Ok a => Ok (f a) | Err e => Err e end.

Definition is_ok {A} (r : result A) : bool :=
  match r with Ok _ => true | Err _ => false end.

Definition ok_or {A} (d : A) (r : result A) : A := match r with Ok a => a | Err _ => d end.

Lemma ok_pair {S A} (p : S * result A) d : is_ok p.2 = true -> p = (p.1, Ok (ok_or d p.2)).
Proof. by destruct p as [s [a|]]. Qed.

Lemma is_ok_or {A} d (r : result A) : is_ok r = true -> r = Ok (ok_or d r).
Proof. by destruct r. Qed.

Lemma ok_pair_pair {S A B} (p : S * result (A * B)) d : is_ok p.2 = true -> p = (p.1, Ok ((ok_or d p.2).1, (ok_or d p.2).2)).
Proof. by destruct p as [s [[a b]|]]. Qed.

Lemma triple_eta {A B C} (p : A * B * C) c : p.2 = c -> p = (p.1.1, p.1.2, c).
Proof. destruct p as [[a b] c']. by intros <-. Qed.

Lemma bind_ok {A B} (f : A -> result B) (r : result A) (b : B) :
  (a ← r; f a) = Ok b <-> exists a, r = Ok a /\ f a = Ok b.
Proof. destruct r; cbn; naive_solver. Qed.

Lemma fmap_ok {A B} (f : A -> B) (r : result A) (b : B) :
  f <$> r = Ok b <-> exists a, r = Ok a /\ b = f a.
Proof. destruct r; cbn; naive_solver. Qed.

(** [for _, x := range l { ...; if err != nil { return err } }] collecting. *)
Fixpoint mapR {A B} (f : A -> result B) (l : list A) : result (list B) :=
  match l with
  | [] => Ok []
  | x :: l => y ← f x; ys ← mapR f l; Ok (y :: ys)
  end.

Lemma mapR_ok {A B} (f : A -> result B) l ys :
  mapR f l = Ok ys <-> Forall2 (fun x y => f x = Ok y) l ys.
Proof.
  revert ys; induction l as [|x l IH]; intros ys; cbn.
  - split; [intros [= <-]; constructor | inversion 1; done].
  - rewrite bind_ok. setoid_rewrite bind_ok. split.
    + intros (y & Hy & zs & Hzs & [= <-]). constructor; [done|]. by apply IH.
    + inversion 1; subst. eexists; split; [done|]. eexists; split; [|done]. by apply IH.
Qed.

Lemma Forall2_impl_l {A B} (R Q : A -> B -> Prop) l k :
  Forall2 R l k -> (forall x y, x ∈ l -> R x y -> Q x y) -> Forall2 Q l k.
Proof.
  induction 1 as [|x y l k Hxy H IH]; intros HQ; constructor.
  - apply HQ; [by left|done].
  - apply IH. intros ? ? ? ?. apply HQ; [by right|done].
Qed.

Lemma sublist_Forall {A} (P : A -> Prop) l k : Forall P k -> l `sublist_of` k -> Forall P l.
Proof. rewrite !Forall_forall. intros H Hs x Hx. by eapply H, elem_of_sublist. Qed.

Lemma choose_all {A B} (Q : A -> B -> Prop) l : (forall x, x ∈ l -> exists y, Q x y) -> exists k, Forall2 Q l k.
Proof.
  induction l as [|x l IH]; intros H; [by exists []|]. destruct (H x) as [y Hy]; [by left|]. destruct IH as [k Hk]; [intros; apply H; by right|].
  exists (y :: k). by constructor.
Qed.

Lemma filter_keeps {A} (P : A -> Prop) `{!forall x, Decision (P x)} (l : list A) : Forall P l -> filter P l = l.
Proof. induction 1 as [|x l Hx _ IH]; [done|]. rewrite filter_cons_True by done. by rewrite IH. Qed.

Lemma NoDup_fmap_filter {A B} (f : A -> B) (P : A -> Prop) `{!forall x, Decision (P x)} l : NoDup (f <$> l) -> NoDup (f <$> filter P l).
Proof. intros HN. eapply sublist_NoDup; [done|]. apply fmap_sublist, sublist_filter. Qed.

Lemma NoDup_fmap_inj {A B} (f : A -> B) l x y : NoDup (f <$> l) -> x ∈ l -> y ∈ l -> f x = f y -> x = y.
Proof.
  intros HN [i Hi]%list_elem_of_lookup [j Hj]%list_elem_of_lookup He.
  assert (i = j); [|by simplify_eq]. eapply (NoDup_lookup (f <$> l)); [done|by rewrite list_lookup_fmap, Hi|].
  by rewrite list_lookup_fmap, Hj, He.
Qed.

Lemma mapR_app {A B} (f : A -> result B) l k zs :
  mapR f (l ++ k) = Ok zs <->
  exists xs ys, mapR f l = Ok xs /\ mapR f k = Ok ys /\ zs = xs ++ ys.
Proof.
  rewrite mapR_ok. split.
  - intros H. apply Forall2_app_inv_l in H as (xs & ys & ? & ? & ->).
    exists xs, ys. by rewrite !mapR_ok.
  - intros (xs & ys & H1 & H2 & ->). apply mapR_ok in H1, H2. by apply Forall2_app.
Qed.

(** ** Bytes *)

Abbreviation byte := Byte.byte.
Abbreviation bytes := (list Byte.byte).
Abbreviation concat := (@List.concat Byte.byte).

#[global] Instance byte_eq_dec : EqDecision byte := Byte.byte_eq_dec.

Definition byte_Z (b : byte) : Z := Z.of_N (Byte.to_N b).
Definition Z_byte (z : Z) : byte :=
  match Byte.of_N (Z.to_N (z mod 256)) with Some b => b | None => Byte.x00 end.

Lemma byte_Z_range b : 0 <= byte_Z b < 256.
Proof. unfold byte_Z. pose proof (Byte.to_N_bounded b). lia. Qed.

Lemma byte_Z_of z : byte_Z (Z_byte z) = z mod 256.
Proof.
  unfold byte_Z, Z_byte. pose proof (Z.mod_pos_bound z 256 ltac:(lia)).
  destruct (Byte.of_N _) eqn:E.
  - apply Byte.to_of_N in E. rewrite E. lia.
  - apply Byte.of_N_None_iff in E. lia.
Qed.

Lemma Z_byte_of b : Z_byte (byte_Z b) = b.
Proof.
  unfold Z_byte. rewrite Z.mod_small by apply byte_Z_range.
  unfold byte_Z. rewrite N2Z.id, Byte.of_to_N. done.
Qed.

Definition len {A} (l : list A) : Z := Z.of_nat (length l).

Lemma len_nonneg {A} (l : list A) : 0 <= len l.
Proof. unfold len. lia. Qed.
Lemma len_nil {A} : len (@nil A) = 0.
Proof. done. Qed.
Lemma len_cons {A} (x : A) l : len (x :: l) = 1 + len l.
Proof. unfold len. rewrite length_cons. lia. Qed.
Lemma len_app {A} (l k : list A) : len (l ++ k) = len l + len k.
Proof. unfold len. rewrite length_app. lia. Qed.
Lemma len_0 {A} (l : list A) : len l = 0 -> l = [].
Proof. unfold len. destruct l; cbn; [done|lia]. Qed.
Lemma len_fmap {A B} (f : A -> B) l : len (f <$> l) = len l.
Proof. unfold len. by rewrite length_fmap. Qed.

(** ** Slicing *)

(** [b[i:j]] for [0 <= i <= j <= len(b)]. *)
Definition slice {A} (b : list A) (i j : Z) : list A :=
  take (Z.to_nat (j - i)) (drop (Z.to_nat i) b).

(** [copy(dst[i:], src)] for [i + len(src) <= len(dst)]. *)
Definition splice {A} (dst : list A) (i : Z) (src : list A) : list A :=
  take (Z.to_nat i) dst ++ src ++ drop (Z.to_nat (i + len src)) dst.

Lemma slice_len {A} (b : list A) i j :
  0 <= i -> i <= j -> j <= len b -> len (slice b i j) = j - i.
Proof. unfold slice, len. intros. rewrite length_take, length_drop. lia. Qed.

Lemma slice_all {A} (b : list A) : slice b 0 (len b) = b.
Proof. unfold slice, len. rewrite drop_0, take_ge; [done|lia]. Qed.

Lemma slice_nil {A} (b : list A) i : slice b i i = [].
Proof. unfold slice. by replace (Z.to_nat (i - i)) with 0%nat by lia. Qed.

Lemma slice_past {A} (l : list A) i j : len l <= i -> slice l i j = [].
Proof. intros H. unfold slice. rewrite drop_ge, take_nil; [done|]. unfold len in H. lia. Qed.

Lemma slice_cap {A} (l : list A) i j : 0 <= i -> slice l i j = slice l i (Z.min j (len l)).
Proof.
  intros Hi. unfold slice, len. destruct (Z.le_gt_cases j (Z.of_nat (length l))) as [H|H]; [by rewrite Z.min_l by lia|].
  rewrite Z.min_r by lia. rewrite !take_ge; [done|rewrite length_drop; lia|rewrite length_drop; lia].
Qed.

Lemma slice_rev {A} (l : list A) i j : j <= i -> slice l i j = [].
Proof. intros H. unfold slice. by replace (Z.to_nat (j - i)) with 0%nat by lia. Qed.

Lemma slice_app_l {A} (b c : list A) i j :
  0 <= i -> j <= len b -> slice (b ++ c) i j = slice b i j.
Proof.
  unfold slice, len. intros ? ?.
  destruct (decide (Z.to_nat i <= length b)%nat).
  - rewrite drop_app_le by lia. rewrite take_app_le; [done|]. rewrite length_drop. lia.
  - replace (Z.to_nat (j - i)) with 0%nat by lia. done.
Qed.

Lemma slice_app_r {A} (b c : list A) i j :
  len b <= i -> slice (b ++ c) i j = slice c (i - len b) (j - len b).
Proof.
  unfold slice, len. intros ?. rewrite drop_app_ge by lia. f_equal; [lia|f_equal; lia].
Qed.

Lemma slice_slice {A} (b : list A) i j k l :
  0 <= i -> 0 <= k -> k <= l -> i + l <= j ->
  slice (slice b i j) k l = slice b (i + k) (i + l).
Proof.
  unfold slice. intros ? ? ? ?.
  rewrite skipn_firstn_comm, take_take, drop_drop. f_equal; [lia|f_equal; lia].
Qed.

Lemma slice_split {A} (b : list A) i j k :
  0 <= i -> i <= j -> j <= k -> slice b i j ++ slice b j k = slice b i k.
Proof.
  unfold slice. intros.
  replace (Z.to_nat j) with (Z.to_nat i + Z.to_nat (j - i))%nat by lia.
  rewrite <- drop_drop, take_take_drop. f_equal. lia.
Qed.

Lemma slice_prefix {A} (b c : list A) : slice (b ++ c) 0 (len b) = b.
Proof. rewrite slice_app_l by (unfold len; lia). apply slice_all. Qed.

Lemma slice_suffix {A} (b c : list A) n : n = len b -> slice (b ++ c) n (len (b ++ c)) = c.
Proof.
  intros ->. rewrite slice_app_r by lia. rewrite len_app, Z.sub_diag.
  replace (len b + len c - len b) with (len c) by lia. apply slice_all.
Qed.

(** The part of [l] between [a] and [c], addressed by offsets. *)
Lemma slice_mid {A} (l a b c : list A) i j :
  l = a ++ b ++ c -> i = len a -> j = i + len b -> slice l i j = b.
Proof.
  intros -> -> ->. rewrite slice_app_r by lia.
  replace (len a - len a) with 0 by lia. replace (len a + len b - len a) with (len b) by lia.
  apply slice_prefix.
Qed.

Lemma len_splice {A} (dst src : list A) i :
  0 <= i -> i + len src <= len dst -> len (splice dst i src) = len dst.
Proof. unfold splice, len. intros. rewrite !length_app, length_take, length_drop. unfold len in *. lia. Qed.

(** ** Big-endian integers ([encoding/binary]) *)

(** [binary.BigEndian.AppendUint{32,64}]: the low [n] bytes of [z]. *)
Fixpoint be_append (n : nat) (z : Z) : bytes :=
  match n with
  | O => []
  | S k => Z_byte (Z.shiftr z (8 * Z.of_nat k)) :: be_append k z
  end.

(** [binary.BigEndian.Uint{32,64}] of the whole slice. *)
Fixpoint be_uint (b : bytes) : Z :=
  match b with
  | [] => 0
  | x :: b => byte_Z x * 2 ^ (8 * len b) + be_uint b
  end.

Lemma be_append_len n z : len (be_append n z) = Z.of_nat n.
Proof. induction n; cbn [be_append]; [done|]. rewrite len_cons, IHn. lia. Qed.

Lemma be_uint_range b : 0 <= be_uint b < 2 ^ (8 * len b).
Proof.
  induction b as [|x b IH]; [done|]. cbn [be_uint]. rewrite len_cons.
  pose proof (byte_Z_range x). pose proof (len_nonneg b).
  replace (8 * (1 + len b)) with (8 + 8 * len b) by lia.
  rewrite Z.pow_add_r by lia. nia.
Qed.

Lemma be_uint_append n z : be_uint (be_append n z) = z mod 2 ^ (8 * Z.of_nat n).
Proof.
  induction n as [|n IH]; cbn [be_append be_uint]; [by rewrite Z.mod_1_r|].
  rewrite be_append_len, IH, byte_Z_of, Z.shiftr_div_pow2 by lia.
  replace (8 * Z.of_nat (S n)) with (8 * Z.of_nat n + 8) by lia.
  set (k := 8 * Z.of_nat n) in *.
  rewrite Z.pow_add_r by lia. change (2 ^ 8) with 256.
  rewrite Z.rem_mul_r by lia. lia.
Qed.

Lemma be_uint_append_small n z :
  0 <= z < 2 ^ (8 * Z.of_nat n) -> be_uint (be_append n z) = z.
Proof. intros. rewrite be_uint_append. by apply Z.mod_small. Qed.

(** Go's [int] is 64-bit: [int(u)] of a [uint64] reinterprets the top bit. *)
Definition int_of_uint64 (u : Z) : Z := if u <? 2 ^ 63 then u else u - 2 ^ 64.

Lemma int_of_uint64_small u : 0 <= u < 2 ^ 63 -> int_of_uint64 u = u.
Proof. unfold int_of_uint64. intros. destruct (Z.ltb_spec u (2 ^ 63)); lia. Qed.

(** ** Automation *)

Create HintDb store discriminated.
Create Rewrite HintDb store.
#[export] Hint Resolve len_nonneg byte_Z_range : store.
#[export] Hint Rewrite @len_nil @len_cons @len_app @len_fmap be_append_len : store.

(** Arithmetic over lengths: normalise [len], recall non-negativity, [lia]. *)
Ltac len_solve :=
  autorewrite with store in *;
  repeat match goal with
  | |- context [len ?l] => lazymatch goal with
      | _ : 0 <= len l |- _ => fail
      | _ => pose proof (len_nonneg l) end
  | _ : context [len ?l] |- _ => lazymatch goal with
      | _ : 0 <= len l |- _ => fail
      | _ => pose proof (len_nonneg l) end
  end; try lia.

(** Destruct the matches and conditionals of a hypothesis that equates a
    [result] with [Ok _], discarding the branches that return an error. *)
Ltac go_inv H :=
  repeat (
    cbn in H;
    match type of H with
    | Err _ = Ok _ => discriminate H
    | Ok _ = Ok _ => injection H as H; subst
    | Ok _ = Err _ => discriminate H
    | mbind _ _ = Ok _ => apply bind_ok in H; destruct H as (? & ? & H)
    | (if ?c then _ else _) = _ => destruct c eqn:?
    | (match ?c with _ => _ end) = _ => destruct c eqn:?
    end).
