(* ===== verification/GoStrings.v ===== *)
(** Go strings: byte arrays with their length, slicing and order, decimal
    printing at a fixed width, and [sort.Strings].

    A Go string is a list of bytes; [chars] and [of_chars] convert.  [str_ltb]
    is Go's [<], the bytewise lexicographic order, shown to be a strict total
    order; [digits n] prints at width [n] ([%0nd]), and printing at a fixed
    width preserves order, which version strings and log file names rely on. *)

From stdpp Require Import sorting.
From S2P Require Import Prelude.
From Stdlib Require Import Ascii.

(** Go strings are byte arrays: indexing and slicing through the byte list. *)
Definition chars (s : string) : list ascii := String.list_ascii_of_string s.
Definition of_chars (l : list ascii) : string := String.string_of_list_ascii l.
Definition strlen (s : string) : Z := len (chars s).
Definition str_slice (s : string) (i j : Z) : string := of_chars (slice (chars s) i j).

(** Go's [<] on strings. *)
Fixpoint str_ltb (a b : string) : bool :=
  match a, b with
  | String.EmptyString, String.EmptyString => false
  | String.EmptyString, String.String _ _ => true
  | String.String _ _, String.EmptyString => false
  | String.String x a, String.String y b =>
      if (N_of_ascii x <? N_of_ascii y)%N then true
      else if (N_of_ascii y <? N_of_ascii x)%N then false
      else str_ltb a b
  end.

(** The last [n] decimal digits of [z]. *)
Fixpoint digits (n : nat) (z : Z) : string :=
  match n with
  | O => ""
  | S n => digits n (z / 10) +:+ String.String (ascii_of_N (Z.to_N (48 + z mod 10))) ""
  end.

(** [sort.Strings]. *)
#[global] Instance str_le_dec : RelDecision (fun a b : string => str_ltb b a = false).
Proof. intros a b. apply _. Defined.

Definition sortStrings (l : list string) : list string := merge_sort (fun a b => str_ltb b a = false) l.

(** ** Conversions *)

Lemma chars_of l : chars (of_chars l) = l.
Proof. apply String.list_ascii_of_string_of_list_ascii. Qed.
Lemma of_chars_of s : of_chars (chars s) = s.
Proof. apply String.string_of_list_ascii_of_string. Qed.
Lemma chars_app s t : chars (s +:+ t) = chars s ++ chars t.
Proof.
  unfold chars. induction s as [|c s IH]; [done|].
  change (String.String c s +:+ t) with (String.String c (s +:+ t)). cbn. by rewrite IH.
Qed.
Lemma chars_inj s t : chars s = chars t -> s = t.
Proof. intros H. by rewrite <- (of_chars_of s), H, of_chars_of. Qed.
Lemma strlen_app s t : strlen (s +:+ t) = strlen s + strlen t.
Proof. unfold strlen. by rewrite chars_app, len_app. Qed.
Lemma chars_length s : length (chars s) = String.length s.
Proof. unfold chars. induction s as [|c s IH]; [done|]. cbn. by f_equal. Qed.

Lemma prefix_chars p s :
  String.prefix p s = true <-> chars p `prefix_of` chars s.
Proof.
  revert s; induction p as [|c p IH]; intros s.
  - cbn. split; [intros _; apply prefix_nil|]. by destruct s.
  - destruct s as [|d s]; cbn.
    + split; [done|]. intros [k Hk]. done.
    + destruct (ascii_dec c d) as [->|Hne].
      * rewrite IH. split; [apply prefix_cons|apply prefix_cons_inv_2].
      * split; [done|]. intros H. by apply prefix_cons_inv_1 in H.
Qed.

Lemma length_of_chars l : String.length (of_chars l) = length l.
Proof. induction l as [|c l IH]; cbn; [done|]. by f_equal. Qed.

Lemma of_chars_app l k : of_chars (l ++ k) = of_chars l +:+ of_chars k.
Proof.
  induction l as [|c l IH]; [done|]. cbn [app].
  change (of_chars (c :: l ++ k)) with (String.String c (of_chars (l ++ k))). by rewrite IH.
Qed.

(** ** Order *)

Lemma str_ltb_irrefl a : str_ltb a a = false.
Proof. induction a as [|x a IH]; cbn; [done|]. by rewrite !N.ltb_irrefl. Qed.

Lemma str_ltb_asym a b : str_ltb a b = true -> str_ltb b a = false.
Proof.
  revert b; induction a as [|x a IH]; intros [|y b]; cbn; try done.
  destruct (N.ltb_spec (N_of_ascii x) (N_of_ascii y)); destruct (N.ltb_spec (N_of_ascii y) (N_of_ascii x));
    try done; try lia. apply IH.
Qed.

Lemma str_ltb_trans a b c : str_ltb a b = true -> str_ltb b c = true -> str_ltb a c = true.
Proof.
  revert b c; induction a as [|x a IH]; intros [|y b] [|z c]; cbn; try done.
  destruct (N.ltb_spec (N_of_ascii x) (N_of_ascii y)), (N.ltb_spec (N_of_ascii y) (N_of_ascii x)),
    (N.ltb_spec (N_of_ascii y) (N_of_ascii z)), (N.ltb_spec (N_of_ascii z) (N_of_ascii y)),
    (N.ltb_spec (N_of_ascii x) (N_of_ascii z)), (N.ltb_spec (N_of_ascii z) (N_of_ascii x)); try done; try lia.
  apply IH.
Qed.

Lemma str_ltb_total a b : str_ltb a b = false -> str_ltb b a = false -> a = b.
Proof.
  revert b; induction a as [|x a IH]; intros [|y b]; cbn; try done.
  destruct (N.ltb_spec (N_of_ascii x) (N_of_ascii y)), (N.ltb_spec (N_of_ascii y) (N_of_ascii x)); try done; try lia.
  intros H1 H2. f_equal; [|by apply IH]. rewrite <- (ascii_N_embedding x), <- (ascii_N_embedding y). f_equal. lia.
Qed.

Lemma str_app_cons c s t : String.String c s +:+ t = String.String c (s +:+ t).
Proof. done. Qed.

Lemma str_ltb_app_same a c d : str_ltb (a +:+ c) (a +:+ d) = str_ltb c d.
Proof. induction a as [|x a IH]; [done|]. rewrite !str_app_cons. cbn. by rewrite !N.ltb_irrefl. Qed.

Lemma str_ltb_app a b c d :
  String.length a = String.length b -> str_ltb a b = true -> str_ltb (a +:+ c) (b +:+ d) = true.
Proof.
  revert b; induction a as [|x a IH]; intros [|y b]; try done. intros [= Hl]. rewrite !str_app_cons. cbn.
  destruct (_ <? _)%N; [done|]. destruct (_ <? _)%N; [done|]. by apply IH.
Qed.

Lemma length_sapp a b : String.length (a +:+ b) = (String.length a + String.length b)%nat.
Proof. induction a as [|x a IH]; [done|]. rewrite str_app_cons. cbn. by rewrite IH. Qed.

Lemma digits_length n z : String.length (digits n z) = n.
Proof. revert z; induction n as [|n IH]; intros z; [done|]. cbn. rewrite length_sapp, IH. cbn. lia. Qed.

Lemma digits_ltb n x y : 0 <= x -> x < y -> y < 10 ^ Z.of_nat n -> str_ltb (digits n x) (digits n y) = true.
Proof.
  revert x y; induction n as [|n IH]; intros x y Hx Hxy Hy; [cbn in Hy; lia|]. cbn [digits].
  rewrite Nat2Z.inj_succ, Z.pow_succ_r in Hy by lia.
  pose proof (Z.div_le_mono x y 10 ltac:(lia) ltac:(lia)) as Hd.
  destruct (Z.eq_dec (x / 10) (y / 10)) as [E|E].
  - rewrite E, str_ltb_app_same. cbn.
    assert (x mod 10 < y mod 10) by (rewrite !Z.mod_eq by lia; lia).
    pose proof (Z.mod_pos_bound x 10 ltac:(lia)). pose proof (Z.mod_pos_bound y 10 ltac:(lia)).
    rewrite !N_ascii_embedding by lia. destruct (N.ltb_spec (Z.to_N (48 + x mod 10)) (Z.to_N (48 + y mod 10))); [done|lia].
  - apply str_ltb_app; [by rewrite !digits_length|]. apply IH; [apply Z.div_pos; lia|lia|].
    apply Z.div_lt_upper_bound; lia.
Qed.

(** ** [sort.Strings] *)

#[global] Instance str_le_total : Total (fun a b : string => str_ltb b a = false).
Proof.
  intros a b. destruct (str_ltb b a) eqn:E; [right|by left]. by apply str_ltb_asym.
Qed.

#[global] Instance str_le_trans : Transitive (fun a b : string => str_ltb b a = false).
Proof.
  intros a b c Hab Hbc. destruct (str_ltb c a) eqn:E; [|done].
  destruct (str_ltb a b) eqn:E2; [by rewrite (str_ltb_trans c a b) in Hbc|].
  rewrite (str_ltb_total a b) in E by done. congruence.
Qed.

#[global] Instance str_le_antisymm : AntiSymm (=) (fun a b : string => str_ltb b a = false).
Proof. intros a b H1 H2. by apply str_ltb_total. Qed.

(** A sorted list is what sorting any permutation of it returns. *)
Lemma sortStrings_sorted l k :
  l ≡ₚ k -> StronglySorted (fun a b => str_ltb a b = true) k -> sortStrings l = k.
Proof.
  intros Hp Hs. apply (Sorted_unique (fun a b => str_ltb b a = false)).
  - apply Sorted_merge_sort, _.
  - apply StronglySorted_Sorted. clear Hp. induction Hs as [|a k Hk IH HF]; constructor; [done|].
    eapply Forall_impl; [done|]. intros x Hx. by apply str_ltb_asym.
  - unfold sortStrings. by rewrite merge_sort_Permutation.
Qed.
