(* ===== verification/Decimal.v ===== *)
(** Decimal numerals: [strconv.FormatUint] and [strconv.ParseUint] in base 10,
    and the digits a fixed-width numeral is made of.

    Log segments, slice keys and cache files are named by numerals and found
    again by parsing them; [ParseUint_format] is the round trip. *)

From S2P Require Import Prelude GoStrings.
From Stdlib Require Import Ascii.

Definition isDigit (c : ascii) : bool :=
  let n := Z.of_N (N_of_ascii c) in (48 <=? n) && (n <=? 57).

Definition decimal (l : list ascii) : Z :=
  foldl (fun acc c => 10 * acc + (Z.of_N (N_of_ascii c) - 48)) 0 l.

(** [strconv.FormatUint(_, 10)]; 20 digits hold a uint64. *)
Fixpoint formatUint (fuel : nat) (z : Z) : string :=
  match fuel with
  | O => ""
  | S fuel => if z <? 10 then digits 1 z else formatUint fuel (z / 10) +:+ digits 1 (z mod 10)
  end.

Definition FormatUint (z : Z) : string := formatUint 20 z.

(** [strconv.ParseUint(s, 10, 64)]. *)
Definition ParseUint (s : string) : option Z :=
  match chars s with
  | [] => None
  | l => if forallb isDigit l then if 2 ^ 64 <=? decimal l then None else Some (decimal l) else None
  end.

Lemma isDigit_last z : isDigit (ascii_of_N (Z.to_N (48 + z mod 10))) = true.
Proof.
  pose proof (Z.mod_pos_bound z 10 ltac:(lia)). unfold isDigit. rewrite N_ascii_embedding by lia.
  rewrite Z2N.id by lia. apply andb_true_intro. split; apply Z.leb_le; lia.
Qed.

Lemma digits_chars n z : Forall (fun c => isDigit c = true) (chars (digits n z)).
Proof.
  revert z; induction n as [|n IH]; intros z; [constructor|]. cbn [digits]. rewrite chars_app.
  apply Forall_app. split; [apply IH|]. constructor; [apply isDigit_last|constructor].
Qed.

Lemma decimal_snoc l z : 0 <= z < 10 -> decimal (l ++ chars (digits 1 z)) = 10 * decimal l + z.
Proof.
  intros Hz. unfold decimal. rewrite foldl_app. cbn [digits]. rewrite chars_app, foldl_app. cbn [chars foldl String.list_ascii_of_string].
  rewrite Z.mod_small, N_ascii_embedding, Z2N.id by lia. cbn. lia.
Qed.

Lemma decimal_digits n z : 0 <= z < 10 ^ Z.of_nat n -> decimal (chars (digits n z)) = z.
Proof.
  revert z; induction n as [|n IH]; intros z Hz; [cbn in Hz; change (10 ^ 0) with 1 in Hz; cbn; lia|].
  rewrite Nat2Z.inj_succ, Z.pow_succ_r in Hz by lia. cbn [digits]. rewrite chars_app.
  pose proof (Z.mod_pos_bound z 10 ltac:(lia)). pose proof (Z.div_mod z 10 ltac:(lia)).
  replace (chars (String.String _ "")) with (chars (digits 1 (z mod 10))) by (cbn; by rewrite Zmod_mod).
  rewrite decimal_snoc, IH by (lia || (split; [apply Z.div_pos; lia|apply Z.div_lt_upper_bound; lia])). lia.
Qed.

Lemma formatUint_spec fuel z :
  0 <= z < 10 ^ Z.of_nat fuel ->
  decimal (chars (formatUint fuel z)) = z /\ Forall (fun c => isDigit c = true) (chars (formatUint fuel z)) /\
  (fuel <> 0%nat -> chars (formatUint fuel z) <> []).
Proof.
  revert z. induction fuel as [|fuel IH]; intros z Hz; [change (10 ^ Z.of_nat 0) with 1 in Hz; split_and!; [cbn; lia|constructor|done]|].
  rewrite Nat2Z.inj_succ, Z.pow_succ_r in Hz by lia. cbn [formatUint]. pose proof (Z.mod_pos_bound z 10 ltac:(lia)). pose proof (Z.div_mod z 10 ltac:(lia)).
  destruct (Z.ltb_spec z 10).
  - split_and!; [apply decimal_digits; cbn; lia|apply digits_chars|done].
  - destruct (IH (z / 10)) as (Hd & Hf & _); [split; [apply Z.div_pos; lia|apply Z.div_lt_upper_bound; lia]|].
    rewrite chars_app. split_and!.
    + rewrite decimal_snoc, Hd by lia. lia.
    + apply Forall_app. split; [done|apply digits_chars].
    + intros _ E. apply app_eq_nil in E as [_ E]. done.
Qed.

Lemma ParseUint_format z : 0 <= z < 2 ^ 64 -> ParseUint (FormatUint z) = Some z.
Proof.
  intros Hz. destruct (formatUint_spec 20 z) as (H1 & H2 & H3); [cbn; lia|]. unfold ParseUint, FormatUint.
  destruct (chars (formatUint 20 z)) as [|c l] eqn:E; [by destruct (H3 ltac:(done))|].
  replace (forallb isDigit (c :: l)) with true by (symmetry; apply forallb_forall; intros x Hx; rewrite Forall_forall in H2; by apply H2, list_elem_of_In).
  rewrite H1. by destruct (Z.leb_spec (2 ^ 64) z); [lia|].
Qed.

Lemma FormatUint_inj x y : 0 <= x < 2 ^ 64 -> 0 <= y < 2 ^ 64 -> FormatUint x = FormatUint y -> x = y.
Proof. intros Hx Hy E. apply (f_equal ParseUint) in E. rewrite !ParseUint_format in E by done. by injection E. Qed.

(** Numerals start with a digit. *)
Lemma ParseUint_digit s z : ParseUint s = Some z -> exists c l, chars s = c :: l /\ isDigit c = true /\ 0 <= z < 2 ^ 64.
Proof.
  unfold ParseUint. destruct (chars s) as [|c l] eqn:E; [done|]. destruct (forallb isDigit (c :: l)) eqn:Ef; [|done].
  destruct (Z.leb_spec (2 ^ 64) (decimal (c :: l))) as [|Hlt]; [done|]. intros [= <-]. exists c, l. split; [done|]. cbn in Ef.
  apply andb_true_iff in Ef as [H1 H2]. split; [done|]. split; [|done].
  assert (Hm : forall k acc, 0 <= acc -> forallb isDigit k = true -> 0 <= foldl (fun acc c => 10 * acc + (Z.of_N (N_of_ascii c) - 48)) acc k).
  { induction k as [|x k IH]; intros acc Ha Hk; [done|]. cbn in Hk |- *. apply andb_true_iff in Hk as [Hx Hk]. apply IH; [|done].
    unfold isDigit in Hx. apply andb_true_iff in Hx as [Hx%Z.leb_le _]. lia. }
  apply Hm; [done|]. cbn. by rewrite H1, H2.
Qed.
