(* ===== verification/GoText.v ===== *)
(** Go's [strings], [strconv] and [encoding/base64] as the HTTP front ends use
    them.

    Searching, cutting, splitting, trimming (with the Unicode white space
    [strings.TrimSpace] knows, as UTF-8 sequences), case folding, integers in
    base 10 and 16, and base64 with and without padding.  [base64_round] is the
    round trip that list cursors and continuation tokens rely on; [cut_spec] and
    [index_spec] say what the searches find. *)

From S2P Require Import Prelude GoStrings Decimal.
From Stdlib Require Import Ascii.

(** ** Searching and cutting *)

Definition HasPrefix (s p : string) : bool := String.prefix p s.

(** [strings.CutPrefix]: what follows the prefix, if it is there. *)
Definition CutPrefix (s p : string) : option string :=
  if HasPrefix s p then Some (str_slice s (strlen p) (strlen s)) else None.

Definition TrimPrefix (s p : string) : string := default s (CutPrefix s p).

(** [strings.Index]: the first position where [sub] occurs. *)
Fixpoint indexAt (l sub : list ascii) : option nat :=
  if decide (sub `prefix_of` l) then Some O
  else match l with
       | [] => None
       | _ :: l => S <$> indexAt l sub
       end.

Definition Index (s sub : string) : option Z := Z.of_nat <$> indexAt (chars s) (chars sub).

Definition Contains (s sub : string) : bool := bool_decide (is_Some (Index s sub)).

(** [strings.Cut]: around the first separator. *)
Definition Cut (s sep : string) : option (string * string) :=
  match Index s sep with
  | None => None
  | Some i => Some (str_slice s 0 i, str_slice s (i + strlen sep) (strlen s))
  end.

(** [strings.Split] at a one-character separator. *)
Fixpoint splitAt (l : list ascii) (c : ascii) : list (list ascii) :=
  match l with
  | [] => [[]]
  | x :: l => if decide (x = c) then [] :: splitAt l c
              else match splitAt l c with [] => [[x]] | y :: ys => (x :: y) :: ys end
  end.

Definition Split (s : string) (c : ascii) : list string := of_chars <$> splitAt (chars s) c.

(** [strings.Join]. *)
Fixpoint Join (l : list string) (sep : string) : string :=
  match l with
  | [] => ""
  | [x] => x
  | x :: l => x +:+ sep +:+ Join l sep
  end.

(** ** White space *)

Definition ascii_of (z : Z) : ascii := ascii_of_N (Z.to_N z).

(** The UTF-8 sequences of the runes [unicode.IsSpace] accepts. *)
Definition spaceBytes : list (list Z) :=
  [[9]; [10]; [11]; [12]; [13]; [32]; [194; 133]; [194; 160]; [225; 154; 128]] ++
  List.map (fun x => [226; 128; x]) [128; 129; 130; 131; 132; 133; 134; 135; 136; 137; 138; 168; 169; 175] ++
  [[226; 129; 159]; [227; 128; 128]].

Definition spaces : list (list ascii) := List.map (List.map ascii_of) spaceBytes.

(** The bytes of a leading white-space rune. *)
Definition leadingSpace (l : list ascii) : option (list ascii) :=
  match filter (fun sp => sp `prefix_of` l) spaces with [] => None | sp :: _ => Some sp end.

Fixpoint trimLeft (fuel : nat) (l : list ascii) : list ascii :=
  match fuel with
  | O => l
  | S fuel => match leadingSpace l with None => l | Some sp => trimLeft fuel (drop (length sp) l) end
  end.

Definition trailingSpace (l : list ascii) : option (list ascii) :=
  match filter (fun sp => sp `suffix_of` l) spaces with [] => None | sp :: _ => Some sp end.

Fixpoint trimRight (fuel : nat) (l : list ascii) : list ascii :=
  match fuel with
  | O => l
  | S fuel => match trailingSpace l with None => l | Some sp => trimRight fuel (take (length l - length sp) l) end
  end.

(** [strings.TrimSpace]; every step removes a byte, so the length is fuel
    enough. *)
Definition TrimSpace (s : string) : string :=
  let l := trimLeft (String.length s) (chars s) in of_chars (trimRight (length l) l).

(** [strings.TrimRight(s, "\r\n")]. *)
Definition isCRLF (c : ascii) : bool := bool_decide (c = ascii_of 13 \/ c = ascii_of 10).

Fixpoint dropCRLF (l : list ascii) : list ascii :=
  match l with
  | c :: l => if isCRLF c then dropCRLF l else c :: l
  | [] => []
  end.

Definition TrimRightCRLF (l : list ascii) : list ascii := reverse (dropCRLF (reverse l)).

(** [strings.Fields]: the words between runs of white space. *)
Fixpoint fieldsFrom (fuel : nat) (l word : list ascii) : list (list ascii) :=
  let close := match word with [] => [] | _ => [word] end in
  match fuel with
  | O => close
  | S fuel =>
      match leadingSpace l with
      | Some sp => close ++ fieldsFrom fuel (drop (length sp) l) []
      | None => match l with
                | [] => close
                | c :: l => fieldsFrom fuel l (word ++ [c])
                end
      end
  end.

Definition Fields (s : string) : list string := of_chars <$> fieldsFrom (S (String.length s)) (chars s) [].

(** ** Case *)

(** [strings.ToLower] on ASCII letters; header names are ASCII tokens. *)
Definition lowerChar (c : ascii) : ascii :=
  let n := N_of_ascii c in if ((65 <=? n) && (n <=? 90))%N then ascii_of_N (n + 32) else c.

Definition ToLower (s : string) : string := of_chars (lowerChar <$> chars s).

(** [strings.EqualFold] against strings of hex digits or the word "url", whose
    letters have no non-ASCII case variants. *)
Definition EqualFold (a b : string) : bool := bool_decide (ToLower a = ToLower b).

(** ** Integers *)

Definition digitVal (c : ascii) : option Z :=
  let n := Z.of_N (N_of_ascii c) in
  if (48 <=? n) && (n <=? 57) then Some (n - 48)
  else if (97 <=? n) && (n <=? 122) then Some (n - 87)
  else if (65 <=? n) && (n <=? 90) then Some (n - 55)
  else None.

Fixpoint digitsVal (base acc : Z) (l : list ascii) : option Z :=
  match l with
  | [] => Some acc
  | c :: l => match digitVal c with
              | Some d => if d <? base then digitsVal base (base * acc + d) l else None
              | None => None
              end
  end.

(** [strconv.ParseInt(s, base, 64)]: an optional sign and at least one digit;
    out of range is an error. *)
Definition ParseInt (base : Z) (s : string) : option Z :=
  let parse (neg : bool) (l : list ascii) : option Z :=
    match l with
    | [] => None
    | _ => match digitsVal base 0 l with
           | None => None
           | Some n => if neg then if n <=? 2 ^ 63 then Some (- n) else None
                       else if n <? 2 ^ 63 then Some n else None
           end
    end in
  match chars s with
  | "+"%char :: l => parse false l
  | "-"%char :: l => parse true l
  | l => parse false l
  end.

Definition Atoi (s : string) : option Z := ParseInt 10 s.

(** [strconv.FormatInt(_, 10)]. *)
Definition FormatInt (z : Z) : string := if z <? 0 then "-" +:+ FormatUint (- z) else FormatUint z.

(** Lower-case hexadecimal without leading zeros, [fmt]'s [%x] on sizes. *)
Definition hexChar (z : Z) : ascii := ascii_of (if z <? 10 then 48 + z else 87 + z).

Fixpoint formatHex (fuel : nat) (z : Z) : list ascii :=
  match fuel with
  | O => []
  | S fuel => if z <? 16 then [hexChar z] else formatHex fuel (z / 16) ++ [hexChar (z mod 16)]
  end.

(** ** Base 64 *)

(** [base64.StdEncoding] pads and uses the standard alphabet,
    [base64.RawURLEncoding] does neither. *)
Record encoding := MkEncoding { alphabet : list ascii; padded : bool }.

Definition alphanumerics : list ascii :=
  chars "ABCDEFGHIJKLMNOPQRSTUVWXYZabcdefghijklmnopqrstuvwxyz0123456789".

Definition StdEncoding : encoding := MkEncoding (alphanumerics ++ chars "+/") true.
Definition RawURLEncoding : encoding := MkEncoding (alphanumerics ++ chars "-_") false.

Definition padChar : ascii := "="%char.

Definition enc64 (e : encoding) (v : Z) : ascii := default padChar (alphabet e !! Z.to_nat v).
Definition dec64 (e : encoding) (c : ascii) : option Z := (fun x => Z.of_nat x.1) <$> list_find (eq c) (alphabet e).

Definition octet (c : ascii) : Z := Z.of_N (N_of_ascii c).

Fixpoint EncodeToString (e : encoding) (l : list ascii) : list ascii :=
  let pad (l : list ascii) := if padded e then l else [] in
  match l with
  | [] => []
  | [a] => [enc64 e (octet a / 4); enc64 e (octet a mod 4 * 16)] ++ pad [padChar; padChar]
  | [a; b] => [enc64 e (octet a / 4); enc64 e (octet a mod 4 * 16 + octet b / 16);
               enc64 e (octet b mod 16 * 4)] ++ pad [padChar]
  | a :: b :: c :: l =>
      enc64 e (octet a / 4) :: enc64 e (octet a mod 4 * 16 + octet b / 16) ::
      enc64 e (octet b mod 16 * 4 + octet c / 64) :: enc64 e (octet c mod 64) :: EncodeToString e l
  end.

(** Unused low bits of the last digit are ignored, as in the non-strict
    decoder. *)
Fixpoint decodeQuanta (e : encoding) (l : list ascii) : option (list ascii) :=
  let first a b := ascii_of (a * 4 + b / 16) in
  let second b c := ascii_of (b mod 16 * 16 + c / 4) in
  let third c d := ascii_of (c mod 4 * 64 + d) in
  match l with
  | [] => Some []
  | [a] => None
  | [a; b] => if padded e then None else a ← dec64 e a; b ← dec64 e b; Some [first a b]
  | [a; b; c] => if padded e then None
                 else a ← dec64 e a; b ← dec64 e b; c ← dec64 e c; Some [first a b; second b c]
  | a :: b :: c :: d :: r =>
      a ← dec64 e a; b ← dec64 e b;
      if padded e && bool_decide (c = padChar) then
        if bool_decide (d = padChar /\ r = []) then Some [first a b] else None
      else
        c ← dec64 e c;
        if padded e && bool_decide (d = padChar) then
          if bool_decide (r = []) then Some [first a b; second b c] else None
        else d ← dec64 e d; r ← decodeQuanta e r; Some (first a b :: second b c :: third c d :: r)
  end.

(** Line breaks are skipped wherever they stand. *)
Definition DecodeString (e : encoding) (l : list ascii) : option (list ascii) :=
  decodeQuanta e (filter (fun c => isCRLF c = false) l).

(** ** What the searches find *)

Lemma splitAt_plain l c : c ∉ l -> splitAt l c = [l].
Proof.
  induction l as [|x l IH]; [done|]. rewrite not_elem_of_cons. intros [Hx Hl]. cbn. rewrite decide_False by done. by rewrite IH.
Qed.

Lemma HasPrefix_spec s p : HasPrefix s p = true <-> exists t, s = p +:+ t.
Proof.
  unfold HasPrefix. rewrite prefix_chars. split.
  - intros [k Hk]. exists (of_chars k). apply chars_inj. by rewrite chars_app, chars_of.
  - intros [t ->]. rewrite chars_app. by exists (chars t).
Qed.

Lemma CutPrefix_spec s p t : CutPrefix s p = Some t <-> s = p +:+ t.
Proof.
  unfold CutPrefix. destruct (HasPrefix s p) eqn:E.
  - apply HasPrefix_spec in E as [k ->].
    assert (Hs : str_slice (p +:+ k) (strlen p) (strlen (p +:+ k)) = k).
    { apply chars_inj. unfold str_slice, strlen. rewrite chars_of, chars_app. by apply slice_suffix. }
    rewrite Hs. split; [by intros [= ->]|]. intros E. f_equal. apply chars_inj. apply (f_equal chars) in E.
    rewrite !chars_app in E. by apply app_inv_head in E.
  - split; [done|]. intros ->. assert (HasPrefix (p +:+ t) p = true); [apply HasPrefix_spec; eauto|congruence].
Qed.

Lemma indexAt_Some l sub i :
  indexAt l sub = Some i -> exists k, l = take i l ++ sub ++ k /\ (i <= length l)%nat /\
    forall j, (j < i)%nat -> ~ sub `prefix_of` drop j l.
Proof.
  revert i; induction l as [|c l IH]; intros i; cbn [indexAt].
  - case_decide as Hd; [|done]. intros [= <-]. destruct Hd as [k Hk]. exists k. split; [done|]. split; [done|]. lia.
  - case_decide as Hd.
    + intros [= <-]. destruct Hd as [k Hk]. exists k. split; [done|]. split; [lia|]. lia.
    + destruct (indexAt l sub) as [j|]; [|done]. intros [= <-]. destruct (IH j eq_refl) as (k & Hk & Hle & Hn).
      exists k. cbn. split; [by f_equal|]. split; [lia|]. intros [|j'] Hj; [done|]. cbn. apply Hn. lia.
Qed.

Lemma indexAt_None l sub : indexAt l sub = None -> forall j, ~ sub `prefix_of` drop j l.
Proof.
  induction l as [|c l IH]; cbn [indexAt]; (case_decide as Hd; [done|]).
  - intros _ j. by rewrite drop_nil.
  - destruct (indexAt l sub); [done|]. intros _ [|j]; [done|]. cbn. by apply IH.
Qed.

Lemma cut_spec s sep a b : Cut s sep = Some (a, b) -> s = a +:+ sep +:+ b.
Proof.
  unfold Cut, Index. destruct (indexAt (chars s) (chars sep)) as [i|] eqn:E; [|done]. cbn. intros [= <- <-].
  apply indexAt_Some in E as (k & Hk & Hle & _). apply chars_inj. unfold str_slice, strlen. rewrite !chars_app, !chars_of.
  set (l := chars s) in *. assert (Hl : len (take i l) = Z.of_nat i) by (unfold len; rewrite length_take; lia).
  rewrite Hk at 1. f_equal; [|f_equal].
  - unfold slice. rewrite Z.sub_0_r, Nat2Z.id. done.
  - symmetry. rewrite Hk at 1 2. rewrite app_assoc. apply slice_suffix. rewrite len_app, Hl. done.
Qed.

(** A separator of one character that the first part lacks is found there. *)
Lemma cut_first (a b : string) (c : ascii) :
  c ∉ chars a -> Cut (a +:+ String.String c "" +:+ b) (String.String c "") = Some (a, b).
Proof.
  intros Hn. unfold Cut, Index, str_slice, strlen. rewrite !chars_app. cbn [chars String.list_ascii_of_string].
  change (String.list_ascii_of_string b) with (chars b).
  assert (Hi : indexAt (chars a ++ [c] ++ chars b) [c] = Some (length (chars a))).
  { induction (chars a) as [|x l IH]; cbn [app indexAt length].
    - rewrite decide_True; [done|]. by exists (chars b).
    - rewrite not_elem_of_cons in Hn. destruct Hn as [Hx Hn]. rewrite decide_False; [|by intros [k [= ]]]. change (l ++ c :: chars b) with (l ++ [c] ++ chars b). by rewrite IH. }
  rewrite Hi. cbn [fmap option_fmap option_map]. f_equal. f_equal.
  - change (Z.of_nat (length (chars a))) with (len (chars a)). rewrite slice_prefix. apply of_chars_of.
  - rewrite app_assoc. rewrite slice_suffix; [apply of_chars_of|]. rewrite len_app. done.
Qed.

(** ** Base 64 round trip *)

Definition alphabet_ok (e : encoding) : bool :=
  forallb (fun v => bool_decide (dec64 e (enc64 e v) = Some v) && negb (isCRLF (enc64 e v)) &&
                    negb (bool_decide (enc64 e v = padChar))) (seqZ 0 64).

Lemma std_alphabet : alphabet_ok StdEncoding = true.
Proof. vm_compute. reflexivity. Qed.
Lemma url_alphabet : alphabet_ok RawURLEncoding = true.
Proof. vm_compute. reflexivity. Qed.

Lemma digit_ok e v : alphabet_ok e = true -> 0 <= v < 64 ->
  dec64 e (enc64 e v) = Some v /\ isCRLF (enc64 e v) = false /\ enc64 e v <> padChar.
Proof.
  intros Ha Hv. unfold alphabet_ok in Ha. rewrite forallb_forall in Ha.
  specialize (Ha v ltac:(apply list_elem_of_In, elem_of_seqZ; lia)).
  rewrite !andb_true_iff, !negb_true_iff, bool_decide_eq_true, bool_decide_eq_false in Ha. tauto.
Qed.

Lemma octet_range c : 0 <= octet c < 256.
Proof. unfold octet. pose proof (N_ascii_bounded c). lia. Qed.
Lemma ascii_octet c : ascii_of (octet c) = c.
Proof. unfold ascii_of, octet. rewrite N2Z.id. apply ascii_N_embedding. Qed.

Ltac div_solve := Z.to_euclidean_division_equations; lia.

Lemma first_octet a b : 0 <= b < 16 -> ascii_of (octet a / 4 * 4 + (octet a mod 4 * 16 + b) / 16) = a.
Proof. intros. rewrite <- (ascii_octet a) at 3. f_equal. div_solve. Qed.
Lemma second_octet a b c : 0 <= c < 4 ->
  ascii_of ((octet a mod 4 * 16 + octet b / 16) mod 16 * 16 + (octet b mod 16 * 4 + c) / 4) = b.
Proof. intros. pose proof (octet_range b). rewrite <- (ascii_octet b) at 3. f_equal. div_solve. Qed.
Lemma first_last a : ascii_of (octet a / 4 * 4 + octet a mod 4 * 16 / 16) = a.
Proof. rewrite <- (first_octet a 0) at 3 by lia. by rewrite Z.add_0_r. Qed.
Lemma second_last a b :
  ascii_of ((octet a mod 4 * 16 + octet b / 16) mod 16 * 16 + octet b mod 16 * 4 / 4) = b.
Proof. rewrite <- (second_octet a b 0) at 3 by lia. by rewrite Z.add_0_r. Qed.
Lemma third_octet b c : ascii_of ((octet b mod 16 * 4 + octet c / 64) mod 4 * 64 + octet c mod 64) = c.
Proof. pose proof (octet_range c). rewrite <- (ascii_octet c) at 3. f_equal. div_solve. Qed.

(** Every digit of an encoding is a digit or a pad, none a line break. *)
Lemma encode_clean e l : alphabet_ok e = true -> Forall (fun c => isCRLF c = false) (EncodeToString e l).
Proof.
  intros Ha. assert (Hd : forall v, 0 <= v < 64 -> isCRLF (enc64 e v) = false) by (intros; by apply digit_ok).
  assert (Hp : isCRLF padChar = false) by reflexivity.
  induction l as [l IH] using (induction_ltof1 _ (@length ascii)); unfold ltof in IH.
  destruct l as [|a [|b [|c l]]]; cbn [EncodeToString]; [constructor|..]; pose proof (octet_range a);
    try pose proof (octet_range b); try pose proof (octet_range c).
  1,2: destruct (padded e); repeat constructor; try done; apply Hd; div_solve.
  do 4 (constructor; [apply Hd; div_solve|]). apply IH. cbn. lia.
Qed.

Lemma decode_encode e l : alphabet_ok e = true -> decodeQuanta e (EncodeToString e l) = Some l.
Proof.
  intros Ha. assert (Hd : forall v, 0 <= v < 64 -> dec64 e (enc64 e v) = Some v) by (intros; by apply digit_ok).
  assert (Hn : forall v, 0 <= v < 64 -> enc64 e v <> padChar) by (intros; by apply digit_ok).
  induction l as [l IH] using (induction_ltof1 _ (@length ascii)); unfold ltof in IH.
  destruct l as [|a [|b [|c l]]]; cbn [EncodeToString]; [done|..]; pose proof (octet_range a);
    try pose proof (octet_range b); try pose proof (octet_range c).
  - destruct (padded e) eqn:Ep; cbn [app decodeQuanta]; rewrite Ep, !Hd by div_solve; cbn [mbind option_bind andb].
    + rewrite !bool_decide_true by done. by rewrite first_last.
    + by rewrite first_last.
  - destruct (padded e) eqn:Ep; cbn [app decodeQuanta]; rewrite Ep, !Hd by div_solve; cbn [mbind option_bind andb].
    + rewrite bool_decide_false by (apply Hn; div_solve). rewrite !bool_decide_true by done.
      by rewrite first_octet, second_last by div_solve.
    + by rewrite first_octet, second_last by div_solve.
  - cbn [decodeQuanta]. rewrite !Hd by div_solve. cbn [mbind option_bind].
    rewrite !(bool_decide_false (enc64 _ _ = _)) by (apply Hn; div_solve). rewrite !andb_false_r, IH by (cbn; lia). cbn.
    by rewrite first_octet, second_octet, third_octet by div_solve.
Qed.

(** What was encoded is decoded, under both encodings and for every input. *)
Lemma base64_round e l : alphabet_ok e = true -> DecodeString e (EncodeToString e l) = Some l.
Proof.
  intros Ha. unfold DecodeString. rewrite filter_keeps; [by apply decode_encode|].
  by apply encode_clean.
Qed.
