(* ===== verification/Sha256.v ===== *)
(** SHA-256 and lower-case hex, as [crypto/sha256] and [encoding/hex] provide
    them to casstore: [sha256_hex b] is the Go expression
    [sum := sha256.Sum256(b); hex.EncodeToString(sum[:])].

    The function is executable (FIPS 180-4 on 32-bit words kept as [Z] below
    2^32).  Nothing in the development assumes it injective, which no function
    into 256 bits is: theorems that need distinct contents to have distinct
    names say so for the contents at hand. *)

From S2P Require Import Prelude.
From Stdlib Require Import Ascii.

Definition w32 (z : Z) : Z := z mod 2 ^ 32.
Definition rotr (n x : Z) : Z := Z.lor (Z.shiftr x n) (w32 (Z.shiftl x (32 - n))).

Definition Sigma0 x := Z.lxor (Z.lxor (rotr 2 x) (rotr 13 x)) (rotr 22 x).
Definition Sigma1 x := Z.lxor (Z.lxor (rotr 6 x) (rotr 11 x)) (rotr 25 x).
Definition sigma0 x := Z.lxor (Z.lxor (rotr 7 x) (rotr 18 x)) (Z.shiftr x 3).
Definition sigma1 x := Z.lxor (Z.lxor (rotr 17 x) (rotr 19 x)) (Z.shiftr x 10).
Definition Ch x y z := Z.lxor (Z.land x y) (Z.land (Z.lxor x (2 ^ 32 - 1)) z).
Definition Maj x y z := Z.lxor (Z.lxor (Z.land x y) (Z.land x z)) (Z.land y z).

(** The constants are fractional parts of roots of the first primes. *)
Definition is_prime (n : Z) : bool :=
  forallb (fun d => negb (n mod d =? 0)) (seqZ 2 (n - 2)).

Definition small_primes : list Z := List.filter is_prime (seqZ 2 310).

Fixpoint cube_root_bits (n : nat) (acc z : Z) : Z :=
  match n with
  | O => acc
  | S n => let t := acc + 2 ^ Z.of_nat n in cube_root_bits n (if t ^ 3 <=? z then t else acc) z
  end.

(** 32 fractional bits of a cube root below 8, and of a square root. *)
Definition cbrt_frac (p : Z) : Z := w32 (cube_root_bits 36 0 (p * 2 ^ 96)).
Definition sqrt_frac (p : Z) : Z := w32 (Z.sqrt (p * 2 ^ 64)).

Definition round_constants : list Z := Eval vm_compute in cbrt_frac <$> small_primes.

(** The eight working words. *)
Record hstate := HS { ha : Z; hb : Z; hc : Z; hd : Z; he : Z; hf : Z; hg : Z; hh : Z }.

Definition h_init : hstate := Eval vm_compute in
  match sqrt_frac <$> take 8 small_primes with
  | [a; b; c; d; e; f; g; h] => HS a b c d e f g h
  | _ => HS 0 0 0 0 0 0 0 0
  end.

Definition h_round (s : hstate) (k w : Z) : hstate :=
  let t1 := w32 (hh s + Sigma1 (he s) + Ch (he s) (hf s) (hg s) + k + w) in
  let t2 := w32 (Sigma0 (ha s) + Maj (ha s) (hb s) (hc s)) in
  HS (w32 (t1 + t2)) (ha s) (hb s) (hc s) (w32 (hd s + t1)) (he s) (hf s) (hg s).

Definition h_add (s t : hstate) : hstate :=
  HS (w32 (ha s + ha t)) (w32 (hb s + hb t)) (w32 (hc s + hc t)) (w32 (hd s + hd t))
     (w32 (he s + he t)) (w32 (hf s + hf t)) (w32 (hg s + hg t)) (w32 (hh s + hh t)).

(** One block: [win] holds the sixteen latest schedule words, oldest first. *)
Fixpoint rounds (ks : list Z) (win : list Z) (s : hstate) : hstate :=
  match ks, win with
  | k :: ks, w :: rest =>
      let nxt := w32 (sigma1 (nth 13 rest 0) + nth 8 rest 0 + sigma0 (nth 0 rest 0) + w) in
      rounds ks (rest ++ [nxt]) (h_round s k w)
  | _, _ => s
  end.

Fixpoint words (n : nat) (b : bytes) : list Z :=
  match n with
  | O => []
  | S n => be_uint (take 4 b) :: words n (drop 4 b)
  end.

Definition compress_block (s : hstate) (block : bytes) : hstate :=
  h_add s (rounds round_constants (words 16 block) s).

Fixpoint blocks (n : nat) (b : bytes) (s : hstate) : hstate :=
  match n with
  | O => s
  | S n => blocks n (drop 64 b) (compress_block s (take 64 b))
  end.

Definition sha_pad (b : bytes) : bytes :=
  let zeros := Z.to_nat ((55 - len b) mod 64) in
  b ++ Byte.x80 :: replicate zeros Byte.x00 ++ be_append 8 (8 * len b).

(** [sha256.Sum256]. *)
Definition sha256 (b : bytes) : bytes :=
  let p := sha_pad b in
  let s := blocks (Z.to_nat (len p / 64)) p h_init in
  mjoin (be_append 4 <$> [ha s; hb s; hc s; hd s; he s; hf s; hg s; hh s]).

(** [hex.EncodeToString]. *)
Definition hex_digit (n : Z) : ascii :=
  ascii_of_N (Z.to_N (if n <? 10 then 48 + n else 87 + n)).

Fixpoint hex_encode (b : bytes) : string :=
  match b with
  | [] => String.EmptyString
  | x :: b => String.String (hex_digit (byte_Z x / 16)) (String.String (hex_digit (byte_Z x mod 16)) (hex_encode b))
  end.

Definition sha256_hex (b : bytes) : string := hex_encode (sha256 b).

(** The digest is 32 bytes, so its hex name has 64 characters. *)
Lemma sha256_len b : len (sha256 b) = 32.
Proof. unfold sha256. cbn [fmap list_fmap mjoin list_join]. autorewrite with store. lia. Qed.

Lemma hex_encode_length b : String.length (hex_encode b) = (2 * length b)%nat.
Proof. induction b as [|x b IH]; cbn; [done|]. rewrite IH. lia. Qed.

Lemma sha256_hex_length b : String.length (sha256_hex b) = 64%nat.
Proof.
  unfold sha256_hex. rewrite hex_encode_length.
  pose proof (sha256_len b). unfold len in *. lia.
Qed.

Lemma sha256_hex_nonempty b : sha256_hex b <> String.EmptyString.
Proof. intros E. pose proof (sha256_hex_length b) as H. by rewrite E in H. Qed.

Lemma sha256_hex_eq b : sha256_hex b = hex_encode (sha256 b).
Proof. done. Qed.

(** FIPS 180-4 test vectors. *)
Example sha256_abc :
  sha256_hex [Byte.x61; Byte.x62; Byte.x63]
  = "ba7816bf8f01cfea414140de5dae2223b00361a396177a9cb410ff61f20015ad"%string.
Proof. vm_compute. reflexivity. Qed.

Example sha256_empty :
  sha256_hex [] = "e3b0c44298fc1c149afbf4c8996fb92427ae41e4649b934ca495991b7852b855"%string.
Proof. vm_compute. reflexivity. Qed.

#[global] Opaque sha256 sha256_hex.
