(* ===== verification/PackFormat.v ===== *)
(** The physical format of a pack blob (casstore/snapshot/store_compress.go):
    the self-describing header, whole-pack compression, and per-chunk framing
    with its index.

    The codecs themselves (gzip, zstd) are library code: [CodecLib] is the
    interface the sources use and [CodecLaws] its documented contract, that a
    decoder returns what the encoder was given.  Everything else is the code:
    [compressPackBlob], [decompressPackBlob], [detectPackFraming],
    [compressPackBlobChunked], [parsePackChunkIndex], [inflateChunkEntry],
    [chunkedStoredSpan] and [materializeChunkedWindow].

    The theorems show that decoding inverts encoding for both framings, that
    the header probe and the whole-pack decoder agree on every blob, that a
    ranged read of a per-chunk pack returns exactly the bytes the whole-pack
    decoder would, and that per-chunk framing costs at most its index. *)

From S2P Require Import Prelude.

(** ** Compression algorithms *)

Abbreviation CompressionAlgo := string.

Definition CompressNone : CompressionAlgo := "none".
Definition CompressGzip : CompressionAlgo := "gzip".
Definition CompressZstd : CompressionAlgo := "zstd".
Definition packAlgoChunked : CompressionAlgo := "__per_chunk__".
Definition forceWholePack : CompressionAlgo := "__force_whole_pack__".

Definition ParseCompressionAlgo (s : string) : result CompressionAlgo :=
  if decide (s = "") then Ok CompressZstd
  else if decide (s = "none" \/ s = "off" \/ s = "disabled") then Ok CompressNone
  else if decide (s = "gzip") then Ok CompressGzip
  else if decide (s = "zstd") then Ok CompressZstd
  else Err (EOther "snapshot: unknown compression algorithm").

(** A decoded stream: the bytes it yields, then EOF or an error. *)
Definition stream : Type := bytes * option err.

(** compress/gzip and klauspost/compress/zstd. *)
Class CodecLib := {
  gzip_encode : bytes -> result bytes;
  zstd_encode : bytes -> result bytes;
  gzip_decode : bytes -> result stream;
  zstd_decode : bytes -> result stream;
}.

Class CodecLaws `{!CodecLib} : Prop := {
  gzip_round : forall b c, gzip_encode b = Ok c -> gzip_decode c = Ok (b, None);
  zstd_round : forall b c, zstd_encode b = Ok c -> zstd_decode c = Ok (b, None);
  gzip_nil : forall s, gzip_decode [] = Ok s -> s.1 = [];
  zstd_nil : forall s, zstd_decode [] = Ok s -> s.1 = [];
}.

(** Encoders that never fail, which writing to a [bytes.Buffer] guarantees. *)
Class CodecTotal `{!CodecLib} : Prop := {
  gzip_total : forall b, exists c, gzip_encode b = Ok c;
  zstd_total : forall b, exists c, zstd_encode b = Ok c;
}.

(** ** Header constants *)

Definition packMagic : bytes := [Byte.x43; Byte.x50; Byte.x4b; Byte.x01].
Definition packHeaderLen : Z := 5.
Definition packChunkedHeaderLen : Z := packHeaderLen + 1 + 4.
Definition packChunkEntryLen : Z := 8 + 4 + 8 + 4 + 1.

Definition packCodecNone : byte := Byte.x00.
Definition packCodecZstd : byte := Byte.x01.
Definition packCodecGzip : byte := Byte.x02.
Definition packCodecChunked : byte := Byte.x03.

Definition packCodecByte (algo : CompressionAlgo) : byte :=
  if decide (algo = CompressGzip) then packCodecGzip
  else if decide (algo = CompressZstd) then packCodecZstd
  else packCodecNone.

Definition packAlgoFromByte (b : byte) : option CompressionAlgo :=
  if decide (b = packCodecNone) then Some CompressNone
  else if decide (b = packCodecZstd) then Some CompressZstd
  else if decide (b = packCodecGzip) then Some CompressGzip
  else None.

(** The test both readers open with: long enough, and starting with the magic. *)
Definition hasMagic (b : bytes) : bool :=
  negb (len b <? packHeaderLen) && bool_decide (slice b 0 4 = packMagic).

(** [b[i]]. *)
Definition at_ (b : bytes) (i : Z) : byte := default Byte.x00 (b !! Z.to_nat i).

Record packSpan := PackSpan { span_offset : Z; span_size : Z }.

Record packChunkEntry := PackChunkEntry {
  uncOffset : Z;
  uncSize : Z;
  stoOffset : Z;
  stoSize : Z;
  codec : byte;
}.

Record packFraming := PackFraming {
  algo : CompressionAlgo;
  contentBase : Z;
  chunkedCodec : CompressionAlgo;
  indexLen : Z;
  bodyBase : Z;
  chunked : list packChunkEntry;
}.

(** Lengths of byte strings built from the header constants. *)
Ltac header_len :=
  repeat (rewrite len_app || rewrite len_cons || rewrite len_nil || rewrite be_append_len);
  change (len packMagic) with 4;
  unfold packChunkedHeaderLen, packHeaderLen in *; lia.

Section Format.
  Context `{Clib : !CodecLib}.

(** [newCompressor] followed by Write and Close. *)
Definition newCompressor (algo : CompressionAlgo) (raw : bytes) : result bytes :=
  if decide (algo = CompressGzip) then gzip_encode raw
  else if decide (algo = CompressZstd) then zstd_encode raw
  else Err (EOther "snapshot/compress: no compressor").

Definition newDecompressor (algo : CompressionAlgo) (src : bytes) : result stream :=
  if decide (algo = CompressGzip) then gzip_decode src
  else if decide (algo = CompressZstd) then zstd_decode src
  else Err (EOther "snapshot/compress: no decompressor").

(** [io.ReadAll] and [io.ReadFull] on a decoded stream. *)
Definition readAll (s : stream) : result bytes :=
  match s with (b, None) => Ok b | (_, Some e) => Err e end.

Definition readFull (s : stream) (n : Z) : result bytes :=
  if n <=? len s.1 then Ok (slice s.1 0 n)
  else Err (default (EOther "unexpected EOF") s.2).

Definition compressPackBlob (raw : bytes) (algo : CompressionAlgo) : result bytes :=
  let header := packMagic ++ [packCodecByte algo] in
  if decide (algo = CompressNone) then Ok (header ++ raw)
  else body ← newCompressor algo raw; Ok (header ++ body).

Definition detectPackFraming (prefix : bytes) : result packFraming :=
  if negb (hasMagic prefix) then Ok (PackFraming CompressNone 0 "" 0 0 [])
  else if decide (at_ prefix 4 = packCodecChunked) then
    if len prefix <? packChunkedHeaderLen then Err ErrPackChunkedShortPrefix
    else match packAlgoFromByte (at_ prefix packHeaderLen) with
    | None => Err (EOther "unknown per-chunk pack logical codec byte")
    | Some logical =>
        let il := be_uint (slice prefix (packHeaderLen + 1) packChunkedHeaderLen) in
        if (il <? 0) || negb (il mod packChunkEntryLen =? 0)
        then Err (EOther "per-chunk pack index length is not a multiple")
        else Ok (PackFraming packAlgoChunked 0 logical il (packChunkedHeaderLen + il) [])
    end
  else match packAlgoFromByte (at_ prefix 4) with
  | None => Err (EOther "unknown pack codec byte")
  | Some a => Ok (PackFraming a packHeaderLen "" 0 0 [])
  end.

Definition logicalCodec (f : packFraming) : CompressionAlgo :=
  if decide (algo f = packAlgoChunked) then chunkedCodec f else algo f.

(** The exact-tiling contract: spans ascend from 0 with no gap and end at
    [len(raw)].  [tile_end] is the running [next] of the loop. *)
Fixpoint tile_end (spans : list packSpan) (next : Z) : option Z :=
  match spans with
  | [] => Some next
  | sp :: spans =>
      if (span_size sp <? 0) || negb (span_offset sp =? next) then None
      else tile_end spans (next + span_size sp)
  end.

Definition validatePackSpans (raw : bytes) (spans : list packSpan) : result unit :=
  match spans with
  | [] => if len raw =? 0 then Ok tt else Err (EOther "per-chunk pack has bytes but no spans")
  | _ => match tile_end spans 0 with
         | None => Err (EOther "per-chunk pack span does not tile")
         | Some next => if next =? len raw then Ok tt
                        else Err (EOther "per-chunk pack spans do not cover the pack")
         end
  end.

Definition compressChunkBody (chunk : bytes) (algo : CompressionAlgo) : result (bytes * byte) :=
  body ← newCompressor algo chunk;
  if len chunk <=? len body then Ok (chunk, packCodecNone)
  else Ok (body, packCodecByte algo).

(** The span loop of [compressPackBlobChunked]: entries and bodies in order. *)
Fixpoint compressSpans (raw : bytes) (spans : list packSpan) (algo : CompressionAlgo) (stoOff : Z)
  : result (list packChunkEntry * list bytes) :=
  match spans with
  | [] => Ok ([], [])
  | sp :: spans =>
      let chunk := slice raw (span_offset sp) (span_offset sp + span_size sp) in
      bc ← compressChunkBody chunk algo;
      rest ← compressSpans raw spans algo (stoOff + len bc.1);
      Ok (PackChunkEntry (span_offset sp) (span_size sp) stoOff (len bc.1) bc.2 :: rest.1,
          bc.1 :: rest.2)
  end.

Definition appendEntry (e : packChunkEntry) : bytes :=
  be_append 8 (uncOffset e) ++ be_append 4 (uncSize e)
  ++ be_append 8 (stoOffset e) ++ be_append 4 (stoSize e) ++ [codec e].

Definition compressPackBlobChunked (raw : bytes) (spans : list packSpan) (algo : CompressionAlgo)
  : result bytes :=
  if decide (algo = CompressNone) then compressPackBlob raw algo
  else
    validatePackSpans raw spans ;;
    eb ← compressSpans raw spans algo 0;
    let il := len eb.1 * packChunkEntryLen in
    Ok (packMagic ++ [packCodecChunked; packCodecByte algo] ++ be_append 4 il
        ++ concat (appendEntry <$> eb.1) ++ concat eb.2).

(** The entry loop of [parsePackChunkIndex], from index [i] on. *)
Fixpoint parseEntries (b : bytes) (k : nat) (i nextUnc nextSto : Z) : result (list packChunkEntry) :=
  match k with
  | O => Ok []
  | S k =>
      let off := i * packChunkEntryLen in
      let e := PackChunkEntry
                 (int_of_uint64 (be_uint (slice b off (off + 8))))
                 (be_uint (slice b (off + 8) (off + 12)))
                 (int_of_uint64 (be_uint (slice b (off + 12) (off + 20))))
                 (be_uint (slice b (off + 20) (off + 24)))
                 (at_ b (off + 24)) in
      if negb (uncOffset e =? nextUnc) || (uncSize e <? 0) then Err ErrCorrupt
      else if negb (stoOffset e =? nextSto) || (stoSize e <? 0) then Err ErrCorrupt
      else match packAlgoFromByte (codec e) with
      | None => Err ErrCorrupt
      | Some _ =>
          rest ← parseEntries b k (i + 1) (nextUnc + uncSize e) (nextSto + stoSize e);
          Ok (e :: rest)
      end
  end.

Definition parsePackChunkIndex (b : bytes) : result (list packChunkEntry) :=
  if negb (len b mod packChunkEntryLen =? 0)
  then Err (EOther "per-chunk index length is not a multiple")
  else parseEntries b (Z.to_nat (len b / packChunkEntryLen)) 0 0 0.

(** [inflateChunkEntry] returns the [uncSize] bytes it would copy into [dst]. *)
Definition inflateChunkEntry (e : packChunkEntry) (body : bytes) (dst : Z) : result bytes :=
  let end_ := stoOffset e + stoSize e in
  if (stoOffset e <? 0) || (len body <? end_) then Err ErrCorrupt
  else
    let src := slice body (stoOffset e) end_ in
    match packAlgoFromByte (codec e) with
    | None => Err ErrCorrupt
    | Some a =>
        if decide (a = CompressNone) then
          if negb (len src =? dst) then Err ErrCorrupt else Ok src
        else
          s ← newDecompressor a src;
          out ← readFull s dst;
          if negb (len s.1 <=? dst) then Err ErrCorrupt else Ok out
    end.

(** The decode loops: each entry inflates into its own window of [out].
    [base] rebases the uncompressed offsets and [stoBase] the stored ones. *)
Fixpoint inflateEntries (es : list packChunkEntry) (body : bytes) (base stoBase : Z) (out : bytes)
  : result bytes :=
  match es with
  | [] => Ok out
  | e :: es =>
      let shifted := PackChunkEntry (uncOffset e) (uncSize e) (stoOffset e - stoBase)
                                    (stoSize e) (codec e) in
      d ← inflateChunkEntry shifted body (uncSize e);
      inflateEntries es body base stoBase (splice out (uncOffset e - base) d)
  end.

Definition entries_end (es : list packChunkEntry) : Z :=
  match last es with Some e => uncOffset e + uncSize e | None => 0 end.

Definition zeros (n : Z) : bytes := replicate (Z.to_nat n) Byte.x00.

Definition decompressChunkedPackBlob (stored : bytes) : result bytes :=
  framing ← detectPackFraming stored;
  if len stored <? bodyBase framing then Err ErrCorrupt
  else
    entries ← parsePackChunkIndex (slice stored packChunkedHeaderLen (bodyBase framing));
    match entries with
    | [] => Ok []
    | _ =>
        let body := slice stored (bodyBase framing) (len stored) in
        inflateEntries entries body 0 0 (zeros (entries_end entries))
    end.

Definition decompressPackBlob (stored : bytes) : result bytes :=
  if negb (hasMagic stored) then Ok stored
  else if decide (at_ stored 4 = packCodecChunked) then decompressChunkedPackBlob stored
  else match packAlgoFromByte (at_ stored 4) with
  | None => Err (EOther "unknown pack codec byte")
  | Some a =>
      let body := slice stored packHeaderLen (len stored) in
      if decide (a = CompressNone) then Ok body
      else s ← newDecompressor a body; readAll s
  end.

(** First index [>= i] whose entry starts at [minOff]. *)
Fixpoint findFirst (es : list packChunkEntry) (minOff : Z) (i : nat) : option nat :=
  match es with
  | [] => None
  | e :: es => if uncOffset e =? minOff then Some i else findFirst es minOff (S i)
  end.

(** How many leading entries start before [maxEnd] (the [last++] loop). *)
Fixpoint countBefore (es : list packChunkEntry) (maxEnd : Z) : nat :=
  match es with
  | [] => 0
  | e :: es => if uncOffset e <? maxEnd then S (countBefore es maxEnd) else 0
  end.

(** Returns [(storedOff, storedLen, first, last)]. *)
Definition chunkedStoredSpan (f : packFraming) (minOff maxEnd : Z) : result (Z * Z * nat * nat) :=
  match findFirst (chunked f) minOff 0 with
  | None => Err ErrCorrupt
  | Some first =>
      let last := (first + countBefore (drop first (chunked f)) maxEnd)%nat in
      if decide (last = first) then Ok (0, 0, first, first)
      else match chunked f !! (last - 1)%nat, chunked f !! first with
      | Some endE, Some firstE =>
          if negb (uncOffset endE + uncSize endE =? maxEnd) then Err ErrCorrupt
          else Ok (stoOffset firstE, stoOffset endE + stoSize endE - stoOffset firstE, first, last)
      | _, _ => Err ErrCorrupt (* unreachable: both indices are in range *)
      end
  end.

Definition materializeChunkedWindow (entries : list packChunkEntry) (first last : nat)
  (storedWindow : bytes) (storedBase : Z) : result bytes :=
  if decide (last <= first)%nat then Ok []
  else match entries !! first with
  | None => Ok [] (* unreachable: [first < last <= len entries] *)
  | Some e0 =>
      let run := take (last - first) (drop first entries) in
      let base := uncOffset e0 in
      inflateEntries run storedWindow base storedBase (zeros (entries_end run - base))
  end.

(** ** Entry tiling *)

(** Entries cover the uncompressed content from [u] and the stored bodies from
    [s] without gaps, each under a known codec. *)
Fixpoint tiled (es : list packChunkEntry) (u s : Z) : Prop :=
  match es with
  | [] => True
  | e :: es =>
      uncOffset e = u /\ stoOffset e = s /\ 0 <= uncSize e /\ 0 <= stoSize e /\
      is_Some (packAlgoFromByte (codec e)) /\ tiled es (u + uncSize e) (s + stoSize e)
  end.

Fixpoint unc_total (es : list packChunkEntry) : Z :=
  match es with [] => 0 | e :: es => uncSize e + unc_total es end.

Fixpoint sto_total (es : list packChunkEntry) : Z :=
  match es with [] => 0 | e :: es => stoSize e + sto_total es end.

Definition shiftEntry (sb : Z) (e : packChunkEntry) : packChunkEntry :=
  PackChunkEntry (uncOffset e) (uncSize e) (stoOffset e - sb) (stoSize e) (codec e).

Lemma shiftEntry_0 e : shiftEntry 0 e = e.
Proof. destruct e. unfold shiftEntry. cbn. by rewrite Z.sub_0_r. Qed.

(** Decoding a run of entries one by one, before placing them in a buffer. *)
Definition inflateList (es : list packChunkEntry) (body : bytes) (sb : Z) : result (list bytes) :=
  mapR (fun e => inflateChunkEntry (shiftEntry sb e) body (uncSize e)) es.

Lemma tiled_app es1 es2 u s :
  tiled (es1 ++ es2) u s <-> tiled es1 u s /\ tiled es2 (u + unc_total es1) (s + sto_total es1).
Proof.
  revert u s; induction es1 as [|e es1 IH]; intros u s; cbn.
  - rewrite !Z.add_0_r. naive_solver.
  - rewrite IH, !Z.add_assoc. naive_solver.
Qed.

Lemma tiled_totals es u s : tiled es u s -> 0 <= unc_total es /\ 0 <= sto_total es.
Proof.
  revert u s; induction es as [|e es IH]; intros u s; cbn; [lia|].
  intros (? & ? & ? & ? & ? & ?%IH). lia.
Qed.

Lemma unc_total_app es1 es2 : unc_total (es1 ++ es2) = unc_total es1 + unc_total es2.
Proof. induction es1; cbn; lia. Qed.
Lemma sto_total_app es1 es2 : sto_total (es1 ++ es2) = sto_total es1 + sto_total es2.
Proof. induction es1; cbn; lia. Qed.

Lemma tiled_entries_end es e u s :
  tiled (es ++ [e]) u s -> entries_end (es ++ [e]) = u + unc_total (es ++ [e]).
Proof.
  intros [H1 H2]%tiled_app. unfold entries_end. rewrite last_snoc, unc_total_app.
  cbn in *. lia.
Qed.

Lemma tiled_end es u s : es <> [] -> tiled es u s -> entries_end es = u + unc_total es.
Proof.
  intros Hne Ht. destruct es as [|e es] using rev_ind; [done|]. by eapply tiled_entries_end.
Qed.

Lemma parseEntries_tiled b k i u s es : parseEntries b k i u s = Ok es -> tiled es u s.
Proof.
  revert i u s es; induction k as [|k IH]; intros i u s es H; cbn in H.
  - by injection H as <-.
  - go_inv H. apply IH in H0. cbn.
    repeat match goal with
    | H : orb _ _ = false |- _ => apply orb_false_iff in H as [? ?]
    | H : negb _ = false |- _ => apply negb_false_iff in H
    end.
    repeat split; try lia; eauto.
Qed.

Lemma parsePackChunkIndex_tiled b es : parsePackChunkIndex b = Ok es -> tiled es 0 0.
Proof. unfold parsePackChunkIndex. intros H. go_inv H. by eapply parseEntries_tiled. Qed.

Lemma inflate_len e body n d : 0 <= n -> inflateChunkEntry e body n = Ok d -> len d = n.
Proof.
  unfold inflateChunkEntry, readFull. intros Hn H. go_inv H.
  - apply negb_false_iff in Heqb0. lia.
  - go_inv H1. rewrite slice_len; lia.
Qed.

Lemma splice_next (pre d rest : bytes) :
  len d <= len rest -> splice (pre ++ rest) (len pre) d = (pre ++ d) ++ drop (length d) rest.
Proof.
  intros. unfold splice. rewrite take_app_le by (unfold len; lia).
  rewrite take_ge by (unfold len; lia). rewrite drop_app_ge by (unfold len in *; lia).
  rewrite <- app_assoc. do 3 f_equal. unfold len in *. lia.
Qed.

(** The in-place decode loop writes the entries' bodies one after the other. *)
Lemma inflateEntries_list es body base sb u s pre rest :
  tiled es u s -> len pre = u - base -> len rest = unc_total es ->
  inflateEntries es body base sb (pre ++ rest)
  = (fun ds => pre ++ concat ds) <$> inflateList es body sb.
Proof.
  revert u s pre rest; induction es as [|e es IH]; intros u s pre rest Ht Hpre Hrest.
  - cbn in *. apply len_0 in Hrest as ->. done.
  - cbn in Ht, Hrest. destruct Ht as (Hu & Hs & Hus & Hss & Hc & Ht).
    pose proof (tiled_totals _ _ _ Ht) as [Hnn _].
    cbn. fold (shiftEntry sb e).
    destruct (inflateChunkEntry (shiftEntry sb e) body (uncSize e)) as [d|x] eqn:E; cbn; [|done].
    apply inflate_len in E as Hd; [|done].
    replace (uncOffset e - base) with (len pre) by lia.
    rewrite splice_next by lia.
    erewrite IH; [|exact Ht|len_solve|unfold len in *; rewrite length_drop; lia].
    unfold inflateList. destruct (mapR _ es); cbn; [|done]. by rewrite <- app_assoc.
Qed.

Lemma inflateEntries_zeros es body base sb u s :
  tiled es u s -> u = base -> es <> [] ->
  inflateEntries es body base sb (zeros (entries_end es - base))
  = concat <$> inflateList es body sb.
Proof.
  intros Ht -> Hne. pose proof (tiled_totals _ _ _ Ht) as [Hnn _].
  rewrite (tiled_end es base s Hne Ht).
  apply (inflateEntries_list es body base sb base s []); [done|by rewrite len_nil, Z.sub_diag|].
  unfold zeros, len. rewrite length_replicate. lia.
Qed.

Lemma inflateList_lens es body sb ds :
  inflateList es body sb = Ok ds -> Forall (fun e => 0 <= uncSize e) es ->
  Forall2 (fun e d => len d = uncSize e) es ds.
Proof.
  intros H%mapR_ok Hnn. apply Forall2_same_length_lookup_2; [by eapply Forall2_length|].
  intros i e d He Hd. eapply Forall2_lookup_lr in H; [|done..].
  eapply Forall_lookup_1 in Hnn; [|done]. eapply inflate_len; eauto.
Qed.

Lemma concat_lens es ds :
  Forall2 (fun e d => len d = uncSize e) es ds -> len (concat ds) = unc_total es.
Proof. induction 1; cbn; [done|]. len_solve. Qed.

Lemma tiled_nonneg es u s : tiled es u s -> Forall (fun e => 0 <= uncSize e) es.
Proof.
  revert u s; induction es as [|e es IH]; intros u s; cbn; [constructor|].
  intros (? & ? & ? & ? & ? & ?%IH). by constructor.
Qed.

Lemma inflateList_concat_len es body sb ds u s :
  tiled es u s -> inflateList es body sb = Ok ds -> len (concat ds) = unc_total es.
Proof. intros Ht H. eapply concat_lens, inflateList_lens; eauto using tiled_nonneg. Qed.

(** Decoding an entry needs only the stored bytes it names. *)
Lemma inflate_window e body sb se n :
  0 <= sb -> sb <= stoOffset e -> 0 <= stoSize e -> stoOffset e + stoSize e <= se -> se <= len body ->
  inflateChunkEntry (shiftEntry sb e) (slice body sb se) n = inflateChunkEntry (shiftEntry 0 e) body n.
Proof.
  intros. unfold inflateChunkEntry, shiftEntry. cbn [stoOffset stoSize codec].
  rewrite slice_len by lia. rewrite Z.sub_0_r.
  repeat match goal with |- context [?a <? ?b] => destruct (Z.ltb_spec a b); try lia end.
  cbn. rewrite slice_slice by lia.
  replace (sb + (stoOffset e - sb)) with (stoOffset e) by lia.
  replace (sb + (stoOffset e - sb + stoSize e)) with (stoOffset e + stoSize e) by lia. done.
Qed.

Lemma inflateList_stored_end es body ds u s :
  tiled es u s -> 0 <= s -> inflateList es body 0 = Ok ds -> es <> [] ->
  s + sto_total es <= len body.
Proof.
  revert u s ds; induction es as [|e es IH]; intros u s ds Ht Hs H Hne; [done|].
  cbn in Ht. destruct Ht as (? & ? & ? & ? & ? & Ht).
  apply bind_ok in H as (d & Hd & H). apply bind_ok in H as (ds' & Hds & _). cbn.
  destruct es as [|e' es].
  - cbn. unfold inflateChunkEntry in Hd. cbn in Hd.
    destruct (Z.ltb_spec (len body) (stoOffset e - 0 + stoSize e)); [|lia].
    by rewrite orb_true_r in Hd.
  - rewrite Z.add_assoc. eapply IH; [done|lia|done|done].
Qed.

(** Decoding a tiled run out of the exact stored range it occupies. *)
Lemma inflateList_window es body u s sb se :
  tiled es u s -> 0 <= sb -> sb <= s -> s + sto_total es <= se -> se <= len body ->
  inflateList es (slice body sb se) sb = inflateList es body 0.
Proof.
  revert u s; induction es as [|e es IH]; intros u s Ht ? ? Hse ?; [done|].
  cbn in Ht, Hse. destruct Ht as (? & ? & ? & ? & ? & Ht).
  pose proof (tiled_totals _ _ _ Ht) as [? ?].
  unfold inflateList in *. cbn. rewrite inflate_window by lia.
  rewrite (IH _ _ Ht) by lia. done.
Qed.

Lemma findFirst_spec es m i j :
  findFirst es m i = Some j -> exists pre e post,
    es = pre ++ e :: post /\ uncOffset e = m /\ j = (i + length pre)%nat.
Proof.
  revert i; induction es as [|e es IH]; intros i H; cbn in H; [done|].
  destruct (Z.eqb_spec (uncOffset e) m).
  - injection H as <-. exists [], e, es. cbn. auto with lia.
  - apply IH in H as (pre & e' & post & -> & ? & ->).
    exists (e :: pre), e', post. cbn. auto with lia.
Qed.

Lemma countBefore_le es m : (countBefore es m <= length es)%nat.
Proof. induction es as [|e es IH]; cbn; [done|]. destruct (_ <? _); lia. Qed.

(** ** Ranged reads of a per-chunk pack

    The window [chunkedStoredSpan] selects, decoded by
    [materializeChunkedWindow], is the same slice of the content that decoding
    the whole pack gives. *)
Lemma chunkedStoredSpan_run f minOff maxEnd so sl first lst u :
  tiled (chunked f) u 0 -> minOff < maxEnd ->
  chunkedStoredSpan f minOff maxEnd = Ok (so, sl, first, lst) ->
  exists pre run post,
    chunked f = pre ++ run ++ post /\ run <> [] /\ first = length pre /\
    lst = (first + length run)%nat /\ so = sto_total pre /\ sl = sto_total run /\
    minOff = u + unc_total pre /\ maxEnd = u + unc_total pre + unc_total run.
Proof.
  unfold chunkedStoredSpan. intros Ht Hlt H.
  destruct (findFirst _ _ _) as [j|] eqn:Hf; [|done].
  apply findFirst_spec in Hf as (pre & e & post & Hes & Hoff & ->). rewrite Hes in *.
  cbn [Nat.add] in H. rewrite drop_app_length in H. cbn [countBefore] in H.
  destruct (Z.ltb_spec (uncOffset e) maxEnd); [|lia].
  set (n := countBefore post maxEnd) in *.
  pose proof (countBefore_le post maxEnd) as Hn. fold n in Hn.
  case_decide; [lia|].
  assert (Hrun : exists run ee post', e :: post = run ++ ee :: post' /\ length run = n).
  { destruct (lookup_lt_is_Some_2 (e :: post) n) as [ee Hee]; [cbn; lia|].
    exists (take n (e :: post)), ee, (drop (S n) (e :: post)).
    split; [by rewrite take_drop_middle|]. rewrite length_take. cbn. lia. }
  destruct Hrun as (run & ee & post' & Hrun & Hlen). rewrite Hrun in H, Ht |- *.
  replace (length pre + S n - 1)%nat with (length pre + n)%nat in H by lia.
  rewrite lookup_app_r in H by lia.
  replace (length pre + n - length pre)%nat with (length run) in H by lia.
  rewrite list_lookup_middle in H by done.
  rewrite <- Hrun, list_lookup_middle in H by done.
  destruct (Z.eqb_spec (uncOffset ee + uncSize ee) maxEnd) as [Hend|]; cbn in H; [|done].
  injection H as <- <- <- <-.
  exists pre, (run ++ [ee]), post'.
  replace (run ++ ee :: post') with ((run ++ [ee]) ++ post') in Ht by (by rewrite <- app_assoc).
  apply tiled_app in Ht as [_ Ht]. apply tiled_app in Ht as [Ht _].
  assert (He : uncOffset e = u + unc_total pre /\ stoOffset e = sto_total pre).
  { assert (Hhd : exists tl, run ++ [ee] = e :: tl).
    { destruct run as [|r run]; cbn in Hrun; injection Hrun as -> _; eauto. }
    destruct Hhd as [tl Hhd]. rewrite Hhd in Ht. cbn in Ht. naive_solver. }
  apply tiled_app in Ht as [_ Hee]. cbn in Hee.
  rewrite unc_total_app, sto_total_app, length_app. cbn.
  split_and!; try lia; [by rewrite <- app_assoc | by destruct run].
Qed.

Lemma materialize_run pre run post body ds :
  tiled (pre ++ run ++ post) 0 0 -> inflateList (pre ++ run ++ post) body 0 = Ok ds -> run <> [] ->
  sto_total pre + sto_total run <= len body /\
  materializeChunkedWindow (pre ++ run ++ post) (length pre) (length pre + length run)
    (slice body (sto_total pre) (sto_total pre + sto_total run)) (sto_total pre)
  = Ok (slice (concat ds) (unc_total pre) (unc_total pre + unc_total run)).
Proof.
  intros Ht H Hne. pose proof Ht as Ht0.
  apply tiled_app in Ht as [Htp Ht]. apply tiled_app in Ht as [Htr _].
  rewrite !Z.add_0_l in Htr.
  apply mapR_app in H as (d1 & d23 & H1 & H23 & ->). apply mapR_app in H23 as (d2 & d3 & H2 & H3 & ->).
  fold (inflateList pre body 0) in H1. fold (inflateList run body 0) in H2.
  pose proof (tiled_totals _ _ _ Htp) as [Hp1 Hp2]. pose proof (tiled_totals _ _ _ Htr) as [Hr1 Hr2].
  pose proof (inflateList_stored_end _ _ _ _ _ Htr Hp2 H2 Hne) as Hend. split; [done|].
  unfold materializeChunkedWindow.
  assert (length run <> 0%nat) by (by destruct run). case_decide; [lia|].
  rewrite drop_app_length, lookup_app_r, Nat.sub_diag by lia.
  replace (length pre + length run - length pre)%nat with (length run) by lia.
  rewrite take_app_length.
  destruct run as [|e0 run']; [done|]. cbn [app lookup list_lookup].
  assert (uncOffset e0 = unc_total pre) as -> by (cbn in Htr; tauto).
  erewrite inflateEntries_zeros; [|exact Htr|done|done].
  erewrite inflateList_window; [|exact Htr|lia..]. rewrite H2. cbn.
  apply inflateList_concat_len with (u := 0) (s := 0) in H1 as L1; [|done].
  eapply inflateList_concat_len in H2 as L2; [|exact Htr].
  change (uncSize e0 + unc_total run') with (unc_total (e0 :: run')).
  rewrite !concat_app, slice_app_r, slice_app_l by lia.
  f_equal. rewrite <- (slice_all (concat d2)) at 1. f_equal; lia.
Qed.

(** ** Windows on entry boundaries always map *)

Lemma tiled_elem es u s e :
  tiled es u s -> e ∈ es -> u <= uncOffset e /\ uncOffset e + uncSize e <= u + unc_total es.
Proof.
  revert u s; induction es as [|x es IH]; intros u s Ht Hin; [by apply not_elem_of_nil in Hin|].
  cbn in Ht. destruct Ht as (? & ? & ? & ? & ? & Ht). pose proof (tiled_totals _ _ _ Ht). cbn.
  apply elem_of_cons in Hin as [->|Hin]; [lia|]. destruct (IH _ _ Ht Hin). lia.
Qed.

Lemma countBefore_split es m :
  exists run post, es = run ++ post /\ length run = countBefore es m /\
    Forall (fun e => uncOffset e < m) run /\ (forall e post', post = e :: post' -> m <= uncOffset e).
Proof.
  induction es as [|e es (run & post & -> & Hl & Hr & Hp)]; [exists [], []; split_and!; done|].
  cbn. destruct (Z.ltb_spec (uncOffset e) m).
  - exists (e :: run), post. split_and!; [done|cbn; lia|by constructor|done].
  - exists [], (e :: run ++ post). split_and!; try done. by intros ? ? [= <- _].
Qed.

Lemma findFirst_complete es m i : (exists e, e ∈ es /\ uncOffset e = m) -> is_Some (findFirst es m i).
Proof.
  revert i; induction es as [|x es IH]; intros i (e & Hin & He); [by apply not_elem_of_nil in Hin|].
  cbn. destruct (Z.eqb_spec (uncOffset x) m); [eauto|].
  apply IH. apply elem_of_cons in Hin as [->|Hin]; [done|eauto].
Qed.

Lemma chunkedStoredSpan_complete f minOff maxEnd :
  tiled (chunked f) 0 0 -> minOff < maxEnd ->
  (exists e, e ∈ chunked f /\ uncOffset e = minOff) ->
  (exists e, e ∈ chunked f /\ uncOffset e + uncSize e = maxEnd) ->
  exists r, chunkedStoredSpan f minOff maxEnd = Ok r.
Proof.
  intros Ht Hlt Hmin (x & Hx & Hxe). unfold chunkedStoredSpan.
  destruct (findFirst_complete (chunked f) minOff 0 Hmin) as [j Hj]. rewrite Hj.
  apply findFirst_spec in Hj as (pre & e & post & Hes & Hoff & ->). cbn [Nat.add].
  rewrite Hes in *. rewrite drop_app_length.
  destruct (countBefore_split (e :: post) maxEnd) as (run & post' & Hsplit & Hlen & Hbefore & Hafter).
  rewrite <- Hlen. destruct run as [|ee run _] using rev_ind.
  { cbn in Hsplit. specialize (Hafter _ _ (eq_sym Hsplit)). lia. }
  rewrite length_app. cbn [length]. case_decide; [lia|].
  replace (length pre + (length run + 1) - 1)%nat with (length pre + length run)%nat by lia.
  rewrite (list_lookup_middle pre post e (length pre) eq_refl), Hsplit.
  rewrite Hsplit in Ht, Hx.
  rewrite lookup_app_r by lia.
  replace (length pre + length run - length pre)%nat with (length run) by lia.
  replace ((run ++ [ee]) ++ post') with (run ++ ee :: post') in * by (by rewrite <- app_assoc).
  rewrite list_lookup_middle by done.
  apply Forall_app in Hbefore as [_ [Hee _]%Forall_cons].
  apply tiled_app in Ht as [Htp Ht]. apply tiled_app in Ht as [Htr Ht].
  cbn in Ht. destruct Ht as (Ho & Hs & Hsz & _ & _ & Htq).
  assert (Hend : uncOffset ee + uncSize ee = maxEnd).
  { apply elem_of_app in Hx as [Hx|Hx]; [destruct (tiled_elem _ _ _ _ Htp Hx); pose proof (tiled_totals _ _ _ Htr); lia|].
    apply elem_of_app in Hx as [Hx|Hx]; [destruct (tiled_elem _ _ _ _ Htr Hx); lia|].
    apply elem_of_cons in Hx as [->|Hx]; [done|].
    destruct (tiled_elem _ _ _ _ Htq Hx). pose proof (proj1 (Forall_forall _ _) (tiled_nonneg _ _ _ Htq) _ Hx).
    destruct post' as [|y post']; [by apply not_elem_of_nil in Hx|].
    specialize (Hafter _ _ eq_refl). cbn in Htq. destruct Htq as (Hy & _). cbn beta in *. lia. }
  rewrite Hend, Z.eqb_refl. cbn. eauto.
Qed.

(** ** Headers *)

Lemma at_mid a x c n : n = len a -> at_ (a ++ x :: c) n = x.
Proof. intros ->. unfold at_, len. by rewrite Nat2Z.id, list_lookup_middle. Qed.

Lemma hasMagic_header c rest : hasMagic (packMagic ++ c :: rest) = true.
Proof.
  unfold hasMagic. rewrite (slice_mid _ [] packMagic (c :: rest)) by done.
  rewrite bool_decide_true, len_app, len_cons by done.
  change (len packMagic) with 4. unfold packHeaderLen. pose proof (len_nonneg rest).
  destruct (Z.ltb_spec (4 + (1 + len rest)) 5); [lia|done].
Qed.

Lemma header_byte c rest : at_ (packMagic ++ c :: rest) 4 = c.
Proof. by apply at_mid. Qed.

Lemma header_body c rest :
  slice (packMagic ++ c :: rest) packHeaderLen (len (packMagic ++ c :: rest)) = rest.
Proof.
  apply (slice_mid _ (packMagic ++ [c]) rest []); [by rewrite app_nil_r| done |].
  rewrite len_app, len_cons. change (len packMagic) with 4. unfold packHeaderLen. lia.
Qed.

(** An algorithm the encoder accepts is the one its header byte names. *)
Lemma newCompressor_codec algo raw body :
  newCompressor algo raw = Ok body ->
  packAlgoFromByte (packCodecByte algo) = Some algo /\ algo <> CompressNone /\
  packCodecByte algo <> packCodecChunked.
Proof.
  unfold newCompressor, packCodecByte. intros H.
  repeat case_decide; subst; done.
Qed.

Section Laws.
  Context `{Claws : !CodecLaws}.

Lemma codec_round algo raw body :
  newCompressor algo raw = Ok body -> newDecompressor algo body = Ok (raw, None).
Proof.
  unfold newCompressor, newDecompressor. intros H.
  repeat case_decide; [by apply gzip_round|by apply zstd_round|done].
Qed.

Lemma compressChunkBody_round chunk algo body c pre post n :
  compressChunkBody chunk algo = Ok (body, c) -> n = len chunk ->
  is_Some (packAlgoFromByte c) /\ len body <= len chunk /\
  forall uo us, inflateChunkEntry (PackChunkEntry uo us (len pre) (len body) c)
                  (pre ++ body ++ post) n = Ok chunk.
Proof.
  unfold compressChunkBody. intros H ->. apply bind_ok in H as (z & Hz & H).
  pose proof (newCompressor_codec _ _ _ Hz) as (Hc & Hn & _).
  assert (Hs : forall x, slice (pre ++ x ++ post) (len pre) (len pre + len x) = x).
  { intros x. by apply (slice_mid _ pre x post). }
  assert (Hb : forall x, (len pre <? 0) || (len (pre ++ x ++ post) <? len pre + len x) = false).
  { intros x. len_solve. }
  destruct (Z.leb_spec (len chunk) (len z)); injection H as <- <-.
  - split_and!; [by exists CompressNone|lia|]. intros uo us. unfold inflateChunkEntry.
    cbn [stoOffset stoSize codec]. rewrite Hb, Hs, Z.eqb_refl. done.
  - rewrite Hc. split_and!; [done|lia|]. intros uo us. unfold inflateChunkEntry.
    cbn [stoOffset stoSize codec]. rewrite Hb, Hs, Hc. case_decide; [done|].
    rewrite (codec_round _ _ _ Hz). cbn. unfold readFull. cbn [fst snd].
    rewrite Z.leb_refl. cbn. by rewrite slice_all.
Qed.

(** The encoder's entries tile, sit at the spans' offsets, and decode back to
    the spans' bytes. *)
Lemma compressSpans_round raw spans a so u u' es bodies pre post :
  compressSpans raw spans a so = Ok (es, bodies) -> tile_end spans u = Some u' ->
  0 <= u -> u' <= len raw -> len pre = so ->
  tiled es u so /\ u <= u' /\ len (concat bodies) <= u' - u /\ sto_total es = len (concat bodies) /\
  unc_total es = u' - u /\
  ((fun e => PackSpan (uncOffset e) (uncSize e)) <$> es) = spans /\
  exists ds, inflateList es (pre ++ concat bodies ++ post) 0 = Ok ds /\ concat ds = slice raw u u'.
Proof.
  revert so u es bodies pre; induction spans as [|[off sz] spans IH];
    intros so u es bodies pre H Ht Hu Hu' Hpre; cbn in H, Ht.
  - injection H as <- <-. injection Ht as <-. cbn. rewrite slice_nil.
    split_and!; try done; try (rewrite ?len_nil; lia). by exists [].
  - destruct ((sz <? 0) || negb (off =? u)) eqn:Hg; [done|].
    apply orb_false_iff in Hg as [Hsz Hoff]. apply negb_false_iff in Hoff.
    assert (off = u) as -> by lia.
    apply bind_ok in H as ([body c] & Hb & H). apply bind_ok in H as ([es' bodies'] & Hr & H).
    cbn in Hr, H. injection H as <- <-.
    specialize (IH _ _ _ _ (pre ++ body) Hr Ht ltac:(lia) Hu' ltac:(len_solve)).
    destruct IH as (Ht' & Hle & Hlb & Hst & Hut & Hsp & ds & Hds & Hcat).
    assert (Hlen : len (slice raw u (u + sz)) = sz) by (rewrite slice_len; lia).
    destruct (compressChunkBody_round _ _ _ _ pre (concat bodies' ++ post) sz Hb ltac:(lia))
      as (Hc & Hbl & Hinf).
    pose proof (len_nonneg body). cbn.
    split_and!; try done; try lia.
    + len_solve.
    + len_solve.
    + by rewrite Hsp.
    + exists (slice raw u (u + sz) :: ds). split; [|cbn; rewrite Hcat; apply slice_split; lia].
      unfold inflateList. cbn. rewrite shiftEntry_0, <- Hpre.
      rewrite <- (app_assoc body), Hinf. cbn.
      rewrite <- (app_assoc pre) in Hds. unfold inflateList in Hds. rewrite Hds. done.
Qed.

End Laws.

(** ** The index on the wire *)

Definition entry_fits (e : packChunkEntry) : Prop :=
  0 <= uncOffset e < 2 ^ 63 /\ 0 <= uncSize e < 2 ^ 32 /\
  0 <= stoOffset e < 2 ^ 63 /\ 0 <= stoSize e < 2 ^ 32.

Lemma appendEntry_len e : len (appendEntry e) = packChunkEntryLen.
Proof. unfold appendEntry. autorewrite with store. done. Qed.

Lemma concat_entries_len es : len (concat (appendEntry <$> es)) = len es * packChunkEntryLen.
Proof.
  induction es as [|e es IH]; [done|]. cbn [fmap list_fmap List.concat].
  rewrite len_app, len_cons, IH, appendEntry_len. lia.
Qed.

Lemma parseEntries_append es pre u s i :
  tiled es u s -> Forall entry_fits es -> len pre = i * packChunkEntryLen ->
  parseEntries (pre ++ concat (appendEntry <$> es)) (length es) i u s = Ok es.
Proof.
  revert pre u s i; induction es as [|e es IH]; intros pre u s i Ht Hf Hpre; [done|].
  apply Forall_cons in Hf as [(Hu & Hus & Hs & Hss) Hf].
  pose proof Ht as Ht'. cbn in Ht. destruct Ht as (E1 & E2 & _ & _ & [a Ha] & Ht).
  cbn [length parseEntries fmap list_fmap List.concat]. rewrite <- Hpre.
  set (rest := concat _). unfold appendEntry.
  assert (Hfield : forall x y z j k, appendEntry e = x ++ y ++ z ->
    j = len pre + len x -> k = j + len y -> slice (pre ++ appendEntry e ++ rest) j k = y).
  { intros x y z j k -> -> ->. apply (slice_mid _ (pre ++ x) y (z ++ rest)).
    - by rewrite <- !app_assoc.
    - len_solve.
    - len_solve. }
  fold (appendEntry e).
  rewrite (Hfield [] (be_append 8 (uncOffset e)) _) by (try reflexivity; len_solve).
  rewrite (Hfield (be_append 8 (uncOffset e)) (be_append 4 (uncSize e)) _) by (try reflexivity; len_solve).
  rewrite (Hfield (be_append 8 (uncOffset e) ++ be_append 4 (uncSize e)) (be_append 8 (stoOffset e))
             (be_append 4 (stoSize e) ++ [codec e])) by (unfold appendEntry; rewrite <- ?app_assoc; len_solve; done).
  rewrite (Hfield (be_append 8 (uncOffset e) ++ be_append 4 (uncSize e) ++ be_append 8 (stoOffset e))
             (be_append 4 (stoSize e)) [codec e]) by (unfold appendEntry; rewrite <- ?app_assoc; len_solve; done).
  replace (at_ _ (len pre + 24)) with (codec e).
  2:{ symmetry. unfold appendEntry. rewrite !app_assoc.
      rewrite <- (app_assoc _ [codec e] rest). cbn [app]. apply at_mid. len_solve. }
  rewrite !be_uint_append_small, !int_of_uint64_small by (cbn; lia). cbn [uncOffset uncSize stoOffset stoSize codec].
  rewrite E1, E2, !Z.eqb_refl, Ha. cbn [negb orb].
  destruct (Z.ltb_spec (uncSize e) 0); [lia|]. destruct (Z.ltb_spec (stoSize e) 0); [lia|].
  rewrite app_assoc. unfold rest. rewrite IH; [|done|done|rewrite len_app, appendEntry_len; lia].
  cbn. f_equal. f_equal. destruct e; cbn in *. by subst.
Qed.

Lemma parsePackChunkIndex_append es :
  tiled es 0 0 -> Forall entry_fits es ->
  parsePackChunkIndex (concat (appendEntry <$> es)) = Ok es.
Proof.
  intros Ht Hf. unfold parsePackChunkIndex. rewrite concat_entries_len.
  rewrite Z.mod_mul, Z.div_mul by (unfold packChunkEntryLen; lia). cbn.
  unfold len. rewrite Nat2Z.id. by apply (parseEntries_append es []).
Qed.

Lemma tiled_fits es u s :
  tiled es u s -> 0 <= u -> 0 <= s -> u + unc_total es < 2 ^ 32 -> s + sto_total es < 2 ^ 32 ->
  Forall entry_fits es.
Proof.
  revert u s; induction es as [|e es IH]; intros u s; cbn; [constructor|].
  intros (? & ? & ? & ? & ? & Ht) ? ? ? ?. pose proof (tiled_totals _ _ _ Ht).
  constructor; [unfold entry_fits; lia|]. eapply IH; [done|lia..].
Qed.

Lemma tile_end_ge spans u u' : tile_end spans u = Some u' -> u <= u'.
Proof.
  revert u; induction spans as [|sp spans IH]; cbn; intros u H; [injection H; lia|].
  destruct (Z.ltb_spec (span_size sp) 0); [done|].
  destruct (Z.eqb_spec (span_offset sp) u); [|done]. apply IH in H. lia.
Qed.

Lemma validatePackSpans_tile raw spans :
  validatePackSpans raw spans = Ok tt <-> tile_end spans 0 = Some (len raw).
Proof.
  unfold validatePackSpans. destruct spans as [|sp spans].
  - cbn. destruct (Z.eqb_spec (len raw) 0); split; congruence.
  - destruct (tile_end (sp :: spans) 0) as [n|]; [|split; congruence].
    destruct (Z.eqb_spec n (len raw)); split; congruence.
Qed.

(** ** What the header probe says about a blob *)

Lemma take_hasMagic stored n :
  packHeaderLen <= n -> hasMagic (slice stored 0 n) = hasMagic stored.
Proof.
  unfold packHeaderLen. intros Hn. unfold hasMagic, packHeaderLen.
  destruct (Z.leb_spec n (len stored)).
  - rewrite slice_len by lia. rewrite slice_slice, !Z.add_0_l by lia.
    destruct (Z.ltb_spec (n - 0) 5), (Z.ltb_spec (len stored) 5); try lia; done.
  - replace (slice stored 0 n) with stored; [done|].
    unfold slice, len in *. rewrite drop_0, take_ge; [done|lia].
Qed.

Lemma at_slice (stored : bytes) n i : 0 <= i < n -> at_ (slice stored 0 n) i = at_ stored i.
Proof.
  intros. unfold at_, slice. rewrite drop_0, lookup_take_lt by lia. done.
Qed.

(** Reading more header than the codec needs never changes the verdict. *)
Lemma detectPackFraming_prefix stored n :
  packChunkedHeaderLen <= n -> detectPackFraming (slice stored 0 n) = detectPackFraming stored.
Proof.
  unfold packChunkedHeaderLen, packHeaderLen. intros Hn.
  destruct (Z.leb_spec n (len stored)) as [Hl|Hl].
  2:{ f_equal. unfold slice, len in *. rewrite drop_0, take_ge; [done|lia]. }
  unfold detectPackFraming. rewrite take_hasMagic by (unfold packHeaderLen; lia).
  unfold packChunkedHeaderLen, packHeaderLen.
  rewrite !at_slice by lia. rewrite slice_len, slice_slice by lia. rewrite !Z.add_0_l.
  destruct (Z.ltb_spec (n - 0) (5 + 1 + 4)), (Z.ltb_spec (len stored) (5 + 1 + 4)); try lia; done.
Qed.

(** The short probe is enough for every blob that is not per-chunk framed. *)
Lemma detectPackFraming_short stored n f :
  packHeaderLen <= n -> detectPackFraming stored = Ok f ->
  algo f <> packAlgoChunked -> detectPackFraming (slice stored 0 n) = Ok f.
Proof.
  intros Hn H Hf. unfold packHeaderLen in Hn. revert H. unfold detectPackFraming.
  rewrite take_hasMagic by (unfold packHeaderLen; lia).
  destruct (hasMagic stored) eqn:Hm; cbn; [|done].
  rewrite (at_slice _ _ 4) by lia. case_decide; [|done].
  destruct (_ <? _); [done|]. destruct (packAlgoFromByte _); [|done].
  destruct (_ || _); [done|]. intros [= <-]. done.
Qed.

Lemma packAlgoFromByte_range b a :
  packAlgoFromByte b = Some a -> a = CompressNone \/ a = CompressZstd \/ a = CompressGzip.
Proof. unfold packAlgoFromByte. repeat case_decide; naive_solver. Qed.

Lemma detect_chunked_inv stored f :
  detectPackFraming stored = Ok f -> algo f = packAlgoChunked ->
  hasMagic stored = true /\ at_ stored 4 = packCodecChunked /\
  bodyBase f = packChunkedHeaderLen + indexLen f /\ 0 <= indexLen f /\
  indexLen f mod packChunkEntryLen = 0.
Proof.
  unfold detectPackFraming. intros H Hf.
  destruct (hasMagic stored); cbn in H; [|by injection H as <-].
  case_decide.
  - destruct (_ <? _); [done|]. destruct (packAlgoFromByte _); [|done].
    destruct (_ || _) eqn:E; [done|]. injection H as <-. cbn.
    apply orb_false_iff in E as [? ?%negb_false_iff]. split_and!; try done; lia.
  - destruct (packAlgoFromByte _) as [a|] eqn:E; [|done]. injection H as <-. cbn in Hf. subst.
    apply packAlgoFromByte_range in E. naive_solver.
Qed.

(** A per-chunk blob that decodes has a tiled index whose entries decode. *)
Lemma decompress_chunked_inv stored content f :
  decompressPackBlob stored = Ok content -> detectPackFraming stored = Ok f ->
  algo f = packAlgoChunked ->
  bodyBase f <= len stored /\ exists es ds,
    parsePackChunkIndex (slice stored packChunkedHeaderLen (bodyBase f)) = Ok es /\
    tiled es 0 0 /\
    inflateList es (slice stored (bodyBase f) (len stored)) 0 = Ok ds /\ content = concat ds.
Proof.
  intros Hd Hf Ha. destruct (detect_chunked_inv _ _ Hf Ha) as (Hm & Hc & _).
  unfold decompressPackBlob in Hd. rewrite Hm, Hc in Hd. cbn in Hd.
  unfold decompressChunkedPackBlob in Hd. rewrite Hf in Hd. cbn in Hd.
  destruct (Z.ltb_spec (len stored) (bodyBase f)); [done|]. split; [done|].
  apply bind_ok in Hd as (es & Hes & Hd). pose proof (parsePackChunkIndex_tiled _ _ Hes) as Ht.
  exists es. destruct es as [|e es].
  - exists []. injection Hd as <-. done.
  - replace (entries_end (e :: es)) with (entries_end (e :: es) - 0) in Hd by lia.
    erewrite inflateEntries_zeros in Hd; [|exact Ht|done|done].
    apply fmap_ok in Hd as (ds & Hds & ->). eauto.
Qed.

Lemma newCompressor_total `{Ctot : !CodecTotal} a b :
  a = CompressGzip \/ a = CompressZstd -> exists c, newCompressor a b = Ok c.
Proof.
  intros Ha. unfold newCompressor. repeat case_decide;
    [apply gzip_total|apply zstd_total|naive_solver].
Qed.

Lemma compressSpans_total `{Ctot : !CodecTotal} raw spans a so :
  a = CompressGzip \/ a = CompressZstd -> exists eb, compressSpans raw spans a so = Ok eb.
Proof.
  intros Ha. revert so. induction spans as [|sp spans IH]; intros so; cbn; [eauto|].
  set (chunk := slice _ _ _).
  assert (exists bc, compressChunkBody chunk a = Ok bc) as [bc Hbc].
  { unfold compressChunkBody. destruct (newCompressor_total a chunk Ha) as [c ->]. cbn.
    destruct (_ <=? _); eauto. }
  rewrite Hbc. cbn. destruct (IH (so + len bc.1)) as [eb ->]. cbn. eauto.
Qed.

(** The shape [compressPackBlobChunked] writes, with its index already parsed. *)
Lemma compressChunked_shape `{Claws : !CodecLaws} raw spans a s :
  compressPackBlobChunked raw spans a = Ok s -> a = CompressGzip \/ a = CompressZstd ->
  len raw < 2 ^ 32 -> len spans * packChunkEntryLen < 2 ^ 32 ->
  exists es bodies f ds,
    s = packMagic ++ packCodecChunked :: packCodecByte a :: be_append 4 (len es * packChunkEntryLen)
        ++ concat (appendEntry <$> es) ++ concat bodies /\
    detectPackFraming s = Ok f /\ algo f = packAlgoChunked /\ chunkedCodec f = a /\
    indexLen f = len es * packChunkEntryLen /\ bodyBase f = packChunkedHeaderLen + indexLen f /\
    slice s packChunkedHeaderLen (bodyBase f) = concat (appendEntry <$> es) /\
    slice s (bodyBase f) (len s) = concat bodies /\
    parsePackChunkIndex (concat (appendEntry <$> es)) = Ok es /\ tiled es 0 0 /\
    ((fun e => PackSpan (uncOffset e) (uncSize e)) <$> es) = spans /\
    inflateList es (concat bodies) 0 = Ok ds /\ concat ds = raw /\ len (concat bodies) <= len raw.
Proof.
  unfold compressPackBlobChunked. intros H Ha Hraw Hsp. rewrite decide_False in H by (by destruct Ha as [-> | ->]).
  apply bind_ok in H as ([] & Hv & H). apply bind_ok in H as ([es bodies] & Hc & H).
  apply validatePackSpans_tile in Hv. cbn [fst snd] in H. injection H as <-.
  destruct (compressSpans_round raw spans a 0 0 (len raw) es bodies [] [] Hc Hv) as
    (Ht & _ & Hb & Hst & Hu & Hspans & ds & Hds & Hcat); [lia..|done|].
  rewrite app_nil_r in Hds. cbn [app] in Hds. rewrite slice_all in Hcat.
  assert (Hlen : len spans = len es) by (rewrite <- Hspans; apply len_fmap).
  assert (Hcodec : packAlgoFromByte (packCodecByte a) = Some a) by (by destruct Ha as [-> | ->]).
  assert (Hcb : packCodecByte a <> packCodecChunked) by (by destruct Ha as [-> | ->]).
  set (idx := concat (appendEntry <$> es)). set (il := len es * packChunkEntryLen).
  assert (Hil : 0 <= il < 2 ^ 32) by (unfold il, packChunkEntryLen in *; len_solve).
  assert (Hidx : len idx = il) by apply concat_entries_len.
  set (s := packMagic ++ [packCodecChunked; packCodecByte a] ++ be_append 4 il ++ idx ++ concat bodies).
  assert (Hslen : len s = packChunkedHeaderLen + il + len (concat bodies)).
  { unfold s. rewrite <- Hidx. header_len. }
  assert (Hdet : detectPackFraming s
                 = Ok (PackFraming packAlgoChunked 0 a il (packChunkedHeaderLen + il) [])).
  { unfold detectPackFraming, s. cbn [app]. rewrite hasMagic_header, header_byte. cbn [negb].
    rewrite decide_True by done.
    change (packMagic ++ packCodecChunked :: packCodecByte a :: be_append 4 il ++ idx ++ concat bodies) with s.
    unfold packChunkedHeaderLen, packHeaderLen in Hslen |- *. pose proof (len_nonneg (concat bodies)).
    destruct (Z.ltb_spec (len s) (5 + 1 + 4)); [lia|].
    replace (at_ s 5) with (packCodecByte a)
      by (symmetry; by apply (at_mid (packMagic ++ [packCodecChunked]))).
    rewrite Hcodec.
    rewrite (slice_mid s (packMagic ++ [packCodecChunked; packCodecByte a]) (be_append 4 il) (idx ++ concat bodies))
      by (try done; header_len).
    rewrite be_uint_append_small by (cbn; lia).
    replace (il mod packChunkEntryLen) with 0 by (unfold il; symmetry; by apply Z.mod_mul).
    destruct (Z.ltb_spec il 0); [lia|]. done. }
  exists es, bodies, (PackFraming packAlgoChunked 0 a il (packChunkedHeaderLen + il) []), ds.
  cbn [algo chunkedCodec indexLen bodyBase]. split_and!; try done.
  - apply (slice_mid s (packMagic ++ [packCodecChunked; packCodecByte a] ++ be_append 4 il) idx (concat bodies)).
    + unfold s. by rewrite <- !app_assoc.
    + header_len.
    + lia.
  - apply (slice_mid s (packMagic ++ [packCodecChunked; packCodecByte a] ++ be_append 4 il ++ idx) (concat bodies) []).
    + unfold s. by rewrite <- !app_assoc, app_nil_r.
    + rewrite <- Hidx. header_len.
    + exact Hslen.
  - apply parsePackChunkIndex_append; [done|]. pose proof (tiled_totals _ _ _ Ht).
    apply (tiled_fits es 0 0); try done; lia.
  - lia.
Qed.

Lemma ranged_window stored content f es minOff maxEnd so sl first lst :
  decompressPackBlob stored = Ok content -> detectPackFraming stored = Ok f ->
  algo f = packAlgoChunked ->
  parsePackChunkIndex (slice stored packChunkedHeaderLen (bodyBase f)) = Ok es ->
  minOff < maxEnd ->
  chunkedStoredSpan (PackFraming (algo f) 0 (chunkedCodec f) (indexLen f) (bodyBase f) es) minOff maxEnd
    = Ok (so, sl, first, lst) ->
  bodyBase f + so + sl <= len stored /\
  materializeChunkedWindow es first lst
    (slice stored (bodyBase f + so) (bodyBase f + so + sl)) so
  = Ok (slice content minOff maxEnd).
Proof.
  intros Hd Hf Ha Hp Hlt Hspan.
  destruct (decompress_chunked_inv _ _ _ Hd Hf Ha) as (Hbb & es' & ds & Hp' & Ht & Hinf & ->).
  rewrite Hp in Hp'. injection Hp' as <-.
  destruct (detect_chunked_inv _ _ Hf Ha) as (_ & _ & HB & HI & _).
  unfold packChunkedHeaderLen, packHeaderLen in HB.
  eapply chunkedStoredSpan_run in Hspan as
    (pre & run & post & Hes & Hne & -> & -> & -> & -> & -> & ->); [|exact Ht|exact Hlt]. cbn in Hes.
  rewrite Hes in Hinf, Ht |- *.
  destruct (materialize_run _ _ _ _ _ Ht Hinf Hne) as [Hle Hm].
  pose proof Ht as Htp. apply tiled_app in Htp as [Htp Htr]. apply tiled_app in Htr as [Htr _].
  pose proof (tiled_totals _ _ _ Htp) as [? ?]. pose proof (tiled_totals _ _ _ Htr) as [? ?].
  rewrite slice_len in Hle by lia. split; [lia|].
  rewrite slice_slice in Hm by lia. rewrite !Z.add_0_l. by rewrite <- Z.add_assoc.
Qed.

Lemma decompress_detect stored content :
  decompressPackBlob stored = Ok content -> exists f, detectPackFraming stored = Ok f.
Proof.
  intros H. unfold decompressPackBlob in H. unfold detectPackFraming.
  destruct (hasMagic stored) eqn:Hm; cbn in H |- *; [|eauto].
  case_decide as Hc.
  - unfold decompressChunkedPackBlob in H. apply bind_ok in H as (f & Hf & _).
    unfold detectPackFraming in Hf. rewrite Hm in Hf. cbn in Hf. rewrite decide_True in Hf by done. eauto.
  - destruct (packAlgoFromByte _); [eauto|done].
Qed.

(** No stored bytes decode to no content. *)
Lemma inflateList_nil `{Claws : !CodecLaws} es sb ds : inflateList es [] sb = Ok ds -> concat ds = [].
Proof.
  intros H%mapR_ok. induction H as [|e d es ds He _ IH]; [done|]. cbn. rewrite IH, app_nil_r.
  unfold inflateChunkEntry in He. destruct (_ || _); [done|].
  assert (Hs : forall i j, slice (@nil byte) i j = []) by (intros; unfold slice; by rewrite drop_nil, take_nil).
  rewrite Hs in He. destruct (packAlgoFromByte _) as [a|] eqn:Ea; [|done].
  apply packAlgoFromByte_range in Ea. case_decide.
  - destruct (negb _); [done|]. by injection He as <-.
  - apply bind_ok in He as (st & Hst & He). apply bind_ok in He as (o & Ho & He).
    destruct (negb _); [done|]. injection He as <-.
    assert (st.1 = []) as Hnil.
    { unfold newDecompressor in Hst. destruct Ea as [-> |[-> | ->]]; cbn in Hst; try done;
        [by apply zstd_nil|by apply gzip_nil]. }
    unfold readFull in Ho. rewrite Hnil, Hs in Ho. destruct (_ <=? _); [|done]. by injection Ho as <-.
Qed.

(** A per-chunk pack with content has an index and a body. *)
Lemma chunked_body_nonempty `{Claws : !CodecLaws} stored content f :
  decompressPackBlob stored = Ok content -> detectPackFraming stored = Ok f ->
  algo f = packAlgoChunked -> content <> [] -> 0 < indexLen f /\ bodyBase f < len stored.
Proof.
  intros Hd Hf Ha Hne.
  destruct (decompress_chunked_inv _ _ _ Hd Hf Ha) as (Hbb & es & ds & Hp & Ht & Hinf & ->).
  destruct (detect_chunked_inv _ _ Hf Ha) as (_ & _ & HB & HI & _).
  split.
  - destruct (decide (indexLen f = 0)) as [E|]; [|lia].
    rewrite HB, E, Z.add_0_r, slice_nil in Hp. injection Hp as <-. by injection Hinf as <-.
  - destruct (decide (bodyBase f = len stored)) as [E|]; [|lia].
    rewrite E, slice_nil in Hinf. by apply inflateList_nil in Hinf.
Qed.

Lemma materialize_nil `{Claws : !CodecLaws} es first lst sb out u s :
  tiled (take (lst - first) (drop first es)) u s ->
  materializeChunkedWindow es first lst [] sb = Ok out -> out = [].
Proof.
  unfold materializeChunkedWindow. intros Ht H. case_decide; [by injection H as <-|].
  destruct (es !! first) as [e0|] eqn:E; [|by injection H as <-].
  rewrite (drop_S _ _ _ E) in Ht, H. destruct (lst - first)%nat as [|n] eqn:En; [lia|].
  cbn [take] in Ht, H.
  erewrite inflateEntries_zeros in H; [|exact Ht|cbn in Ht; by destruct Ht as (-> & _)|done].
  apply fmap_ok in H as (ds & Hds & ->). by eapply inflateList_nil.
Qed.

(** ** Round trips *)

Lemma compressPackBlob_round `{Claws : !CodecLaws} raw a s :
  compressPackBlob raw a = Ok s -> decompressPackBlob s = Ok raw.
Proof.
  unfold compressPackBlob. intros H.
  assert (Hd : forall body, decompressPackBlob ((packMagic ++ [packCodecByte a]) ++ body)
    = match packAlgoFromByte (packCodecByte a) with
      | Some b => if decide (b = CompressNone) then Ok body else s ← newDecompressor b body; readAll s
      | None => Err (EOther "unknown pack codec byte") end).
  { intros body. unfold decompressPackBlob. rewrite <- app_assoc. cbn [app].
    rewrite hasMagic_header, header_byte, header_body. cbn [negb].
    rewrite decide_False; [done|]. unfold packCodecByte. repeat case_decide; done. }
  case_decide as Ha.
  - assert (s = (packMagic ++ [packCodecByte a]) ++ raw) as -> by congruence.
    rewrite Hd, Ha. done.
  - apply bind_ok in H as (body & Hb & H).
    assert (s = (packMagic ++ [packCodecByte a]) ++ body) as -> by congruence. rewrite Hd.
    destruct (newCompressor_codec _ _ _ Hb) as (-> & Hn & _).
    rewrite decide_False by done. by rewrite (codec_round _ _ _ Hb).
Qed.

(** Whole-pack blobs are never taken for per-chunk ones. *)
Lemma compressPackBlob_framing raw a s f :
  compressPackBlob raw a = Ok s -> detectPackFraming s = Ok f -> algo f <> packAlgoChunked.
Proof.
  unfold compressPackBlob. intros H Hf.
  assert (exists body, s = packMagic ++ packCodecByte a :: body) as [body ->].
  { assert (Happ : forall body, Ok ((packMagic ++ [packCodecByte a]) ++ body) = Ok s ->
      exists body, s = packMagic ++ packCodecByte a :: body).
    { intros body E. exists body. assert (s = (packMagic ++ [packCodecByte a]) ++ body) as -> by congruence.
      by rewrite <- app_assoc. }
    case_decide; [|apply bind_ok in H as (body & _ & H)]; by eapply Happ. }
  unfold detectPackFraming in Hf. rewrite hasMagic_header, header_byte in Hf. cbn [negb] in Hf.
  rewrite decide_False in Hf by (unfold packCodecByte; repeat case_decide; done).
  unfold packCodecByte in Hf. repeat case_decide; cbn in Hf; injection Hf as <-; done.
Qed.

Lemma compressPackBlobChunked_round `{Claws : !CodecLaws} raw spans a s :
  compressPackBlobChunked raw spans a = Ok s -> a = CompressGzip \/ a = CompressZstd ->
  len raw < 2 ^ 32 -> len spans * packChunkEntryLen < 2 ^ 32 ->
  decompressPackBlob s = Ok raw /\
  exists f es, detectPackFraming s = Ok f /\ algo f = packAlgoChunked /\ logicalCodec f = a /\
    parsePackChunkIndex (slice s packChunkedHeaderLen (bodyBase f)) = Ok es /\
    ((fun e => PackSpan (uncOffset e) (uncSize e)) <$> es) = spans.
Proof.
  intros H Ha Hraw Hsp.
  destruct (compressChunked_shape _ _ _ _ H Ha Hraw Hsp) as
    (es & bodies & f & ds & Hs & Hf & Hfa & Hfc & Hil & Hbb & Hidx & Hbody & Hparse & Ht & Hspans & Hinf & Hcat & _).
  split.
  - destruct (detect_chunked_inv _ _ Hf Hfa) as (Hm & Hc & _).
    unfold decompressPackBlob. rewrite Hm, Hc. cbn. unfold decompressChunkedPackBlob.
    rewrite Hf. cbn. rewrite Hidx, Hbody, Hparse. cbn.
    assert (Hlen : bodyBase f <= len s).
    { rewrite Hbb, Hil, Hs. cbn [app]. rewrite <- concat_entries_len.
      pose proof (len_nonneg (concat bodies)). header_len. }
    destruct (Z.ltb_spec (len s) (bodyBase f)); [lia|].
    destruct es as [|e es]; [injection Hinf as <-; by rewrite <- Hcat|].
    replace (entries_end (e :: es)) with (entries_end (e :: es) - 0) by lia.
    erewrite inflateEntries_zeros; [|exact Ht|done|done]. rewrite Hinf. cbn. by rewrite Hcat.
  - exists f, es. rewrite Hidx. split_and!; try done.
    unfold logicalCodec. by rewrite Hfa, decide_True.
Qed.

(** ** Properties *)

(** A pack blob written by [compressPackBlob] under any codec decodes,
    through [decompressPackBlob], to exactly the bytes that were packed. *)
Theorem compressPackBlob_roundtrip `{Claws : !CodecLaws} raw a s :
  compressPackBlob raw a = Ok s -> decompressPackBlob s = Ok raw.
Proof. apply compressPackBlob_round. Qed.

(** Per-chunk framing is lossless and self-describing: the blob
    [compressPackBlobChunked] writes decodes to the packed bytes, its header is
    recognised as per-chunk with the codec it was written under, and its parsed
    index holds one entry per span, at the span's offset and size. *)
Theorem compressPackBlobChunked_roundtrip `{Claws : !CodecLaws} raw spans a s :
  compressPackBlobChunked raw spans a = Ok s -> a = CompressGzip \/ a = CompressZstd ->
  len raw < 2 ^ 32 -> len spans * packChunkEntryLen < 2 ^ 32 ->
  decompressPackBlob s = Ok raw /\
  exists f es, detectPackFraming s = Ok f /\ algo f = packAlgoChunked /\ logicalCodec f = a /\
    parsePackChunkIndex (slice s packChunkedHeaderLen (bodyBase f)) = Ok es /\
    ((fun e => PackSpan (uncOffset e) (uncSize e)) <$> es) = spans.
Proof. apply compressPackBlobChunked_round. Qed.

(** On every blob, the header probe ([detectPackFraming] on any prefix of at
    least [packHeaderLen] bytes) and the whole-pack decoder agree: an
    uncompressed verdict means the content is the blob from [contentBase] on, a
    codec verdict means the body decodes under that codec, and a per-chunk
    verdict means the per-chunk decoder applies. *)
Theorem framing_mirrors_decoder stored n f :
  packHeaderLen <= n -> detectPackFraming (slice stored 0 n) = Ok f ->
  decompressPackBlob stored =
    if decide (algo f = packAlgoChunked) then decompressChunkedPackBlob stored
    else if decide (algo f = CompressNone) then Ok (slice stored (contentBase f) (len stored))
    else s ← newDecompressor (algo f) (slice stored packHeaderLen (len stored)); readAll s.
Proof.
  intros Hn. unfold detectPackFraming, decompressPackBlob.
  rewrite take_hasMagic, (at_slice _ _ 4) by (unfold packHeaderLen in *; lia).
  destruct (hasMagic stored); cbn [negb].
  2:{ intros [= <-]. cbn. by rewrite slice_all. }
  case_decide.
  - destruct (_ <? _); [done|]. destruct (packAlgoFromByte _); [|done].
    destruct (_ || _); [done|]. intros [= <-]. done.
  - destruct (packAlgoFromByte _) as [a|] eqn:E; [|done]. intros [= <-]. cbn [algo contentBase].
    apply packAlgoFromByte_range in E as [-> | [-> | ->]]; done.
Qed.

(** A ranged read of a per-chunk pack is exact: whatever window
    [chunkedStoredSpan] selects, decoding just those stored bytes yields the same
    slice of the content as decoding the whole pack. *)
Theorem ranged_window_matches_whole stored content f es minOff maxEnd so sl first lst :
  decompressPackBlob stored = Ok content -> detectPackFraming stored = Ok f ->
  algo f = packAlgoChunked ->
  parsePackChunkIndex (slice stored packChunkedHeaderLen (bodyBase f)) = Ok es ->
  minOff < maxEnd ->
  chunkedStoredSpan (PackFraming (algo f) 0 (chunkedCodec f) (indexLen f) (bodyBase f) es) minOff maxEnd
    = Ok (so, sl, first, lst) ->
  bodyBase f + so + sl <= len stored /\
  materializeChunkedWindow es first lst
    (slice stored (bodyBase f + so) (bodyBase f + so + sl)) so
  = Ok (slice content minOff maxEnd).
Proof. apply ranged_window. Qed.

(** Per-chunk framing never expands a pack beyond its header and index: an
    incompressible chunk is stored raw. *)
Theorem compressPackBlobChunked_bound `{Claws : !CodecLaws} raw spans a s :
  compressPackBlobChunked raw spans a = Ok s -> a = CompressGzip \/ a = CompressZstd ->
  len raw < 2 ^ 32 -> len spans * packChunkEntryLen < 2 ^ 32 ->
  len s <= packChunkedHeaderLen + len spans * packChunkEntryLen + len raw.
Proof.
  intros H Ha Hraw Hsp.
  destruct (compressChunked_shape _ _ _ _ H Ha Hraw Hsp) as
    (es & bodies & f & ds & Hs & _ & _ & _ & _ & _ & _ & _ & _ & _ & Hspans & _ & _ & Hb).
  rewrite <- Hspans, len_fmap, Hs. cbn [app]. rewrite <- concat_entries_len.
  header_len.
Qed.

Lemma compressPackBlobChunked_tiles `{Ctot : !CodecTotal} raw spans a :
  a = CompressGzip \/ a = CompressZstd ->
  (exists s, compressPackBlobChunked raw spans a = Ok s) <-> tile_end spans 0 = Some (len raw).
Proof.
  intros Ha. rewrite <- validatePackSpans_tile. unfold compressPackBlobChunked.
  rewrite decide_False by (by destruct Ha as [-> | ->]). split.
  - intros [s H]. apply bind_ok in H as ([] & H & _). done.
  - intros ->. cbn. destruct (compressSpans_total raw spans a 0 Ha) as [eb ->]. cbn. eauto.
Qed.

(** [compressPackBlobChunked] fails exactly on span lists that do not tile
    the pack (gap, overlap, negative size, wrong end); on every tiling list it
    produces a blob. *)
Theorem compressPackBlobChunked_total `{Ctot : !CodecTotal} raw spans a :
  a = CompressGzip \/ a = CompressZstd ->
  (exists s, compressPackBlobChunked raw spans a = Ok s) <-> tile_end spans 0 = Some (len raw).
Proof. apply compressPackBlobChunked_tiles. Qed.

End Format.

(** ** A concrete codec

    Run-length coding under both codec names: an instance of the interface on
    which the theorems are evaluated. *)

Definition rle_encode (b : bytes) : bytes :=
  match b with
  | [] => [Byte.x00]
  | x :: rest => if forallb (Byte.eqb x) rest && (len b <? 2 ^ 64)
                 then Byte.x01 :: x :: be_append 8 (len b)
                 else Byte.x00 :: b
  end.

Definition rle_decode (c : bytes) : result stream :=
  match c with
  | Byte.x00 :: b => Ok (b, None)
  | Byte.x01 :: x :: n => Ok (replicate (Z.to_nat (be_uint n)) x, None)
  | _ => Err (EOther "rle: bad header")
  end.

Lemma rle_round b : rle_decode (rle_encode b) = Ok (b, None).
Proof.
  destruct b as [|x rest]; [done|]. unfold rle_encode.
  destruct (_ && _) eqn:E; [|done]. apply andb_true_iff in E as [Ha Hl].
  cbn [rle_decode]. rewrite be_uint_append_small by (cbn; pose proof (len_nonneg (x :: rest)); lia).
  unfold len. rewrite Nat2Z.id. repeat f_equal. cbn. f_equal.
  clear Hl. induction rest as [|y rest IH]; cbn in *; [done|].
  apply andb_true_iff in Ha as [->%Byte.byte_dec_bl Ha]. by rewrite <- IH at 2.
Qed.

#[global] Instance ref_codec : CodecLib := {|
  gzip_encode b := Ok (rle_encode b);
  zstd_encode b := Ok (rle_encode b);
  gzip_decode := rle_decode;
  zstd_decode := rle_decode;
|}.

#[global] Instance ref_codec_laws : @CodecLaws ref_codec.
Proof. split; [intros b c [= <-]; apply rle_round..|done|done]. Qed.

#[global] Instance ref_codec_total : @CodecTotal ref_codec.
Proof. split; intros b; eexists; reflexivity. Qed.

(** ** The properties on a concrete pack: two chunks, one compressible. *)

Definition ex_raw : bytes := replicate 20 Byte.x61 ++ [Byte.x62; Byte.x63].
Definition ex_spans : list packSpan := [PackSpan 0 20; PackSpan 20 2].
Definition ex_blob : bytes :=
  match compressPackBlobChunked ex_raw ex_spans CompressZstd with Ok s => s | Err _ => [] end.
Definition ex_framing : packFraming :=
  PackFraming packAlgoChunked 0 CompressZstd 50 60 [].
Definition ex_entries : list packChunkEntry :=
  [PackChunkEntry 0 20 0 10 Byte.x01; PackChunkEntry 20 2 10 2 Byte.x00].

Lemma compressPackBlob_roundtrip_witness :
  exists s, compressPackBlob ex_raw CompressGzip = Ok s /\ decompressPackBlob s = Ok ex_raw.
Proof.
  eexists. split; [vm_compute; reflexivity|].
  apply (compressPackBlob_roundtrip ex_raw CompressGzip). vm_compute. reflexivity.
Defined.

Lemma compressPackBlobChunked_roundtrip_witness : decompressPackBlob ex_blob = Ok ex_raw.
Proof.
  apply (compressPackBlobChunked_roundtrip ex_raw ex_spans CompressZstd);
    [vm_compute; reflexivity | right; reflexivity | vm_compute; reflexivity | vm_compute; reflexivity].
Defined.

Lemma framing_mirrors_decoder_witness :
  decompressPackBlob ex_blob = decompressChunkedPackBlob ex_blob.
Proof.
  rewrite (framing_mirrors_decoder ex_blob 10 ex_framing);
    [reflexivity | vm_compute; discriminate | vm_compute; reflexivity].
Defined.

Lemma ranged_window_matches_whole_witness :
  materializeChunkedWindow ex_entries 1 2 (slice ex_blob 70 72) 10 = Ok [Byte.x62; Byte.x63].
Proof.
  apply (ranged_window_matches_whole ex_blob ex_raw ex_framing ex_entries 20 22 10 2 1 2);
    vm_compute; reflexivity.
Defined.

Lemma compressPackBlobChunked_bound_witness : len ex_blob <= 10 + 2 * 25 + 22.
Proof.
  apply (compressPackBlobChunked_bound ex_raw ex_spans CompressZstd);
    [vm_compute; reflexivity | right; reflexivity | vm_compute; reflexivity | vm_compute; reflexivity].
Defined.

Lemma compressPackBlobChunked_total_witness :
  exists s, compressPackBlobChunked ex_raw ex_spans CompressZstd = Ok s.
Proof.
  apply (compressPackBlobChunked_total ex_raw ex_spans CompressZstd); [right; reflexivity|].
  vm_compute. reflexivity.
Defined.
