(* ===== verification/BlobStore.v ===== *)
(** The blob storage interface casstore is written against
    (casstore/blobstore/blobstore.go aliases kopia's [blob.Storage]) and the
    content-addressed put on top of it (casstore/blobstore/cas.go).

    [Storage] is the set of operations the sources call, with the backend's
    state passed explicitly.  [StorageLaws] states what every backend promises
    about a call that returns: reads return stored bytes, writes are atomic,
    and a not-found error is truthful; any call may still fail, a listing after
    any number of entries, a delete before or after taking effect.
    [StorageReliable] adds that the backend is up.  It keeps the hazard
    store_chunked.go documents: a ranged read whose window reaches the end of
    the blob may be refused. *)

From S2P Require Import Prelude.

Record Metadata := Meta { BlobID : string; Length : Z; Timestamp : Z }.

Class Storage := {
  storage : Type;
  GetBlob : storage -> string -> Z -> Z -> result bytes;
  GetMetadata : storage -> string -> result Metadata;
  PutBlob : storage -> string -> bytes -> bool -> storage * result unit;
  DeleteBlob : storage -> string -> storage * result unit;
  ListBlobs : storage -> string -> list Metadata * option err;
}.

(** Blobs held by a backend: content and timestamp. *)
Class StorageLaws (S : Storage) := {
  blobs : storage -> gmap string (bytes * Z);
  get_sound : forall s id off n b, GetBlob s id off n = Ok b ->
    exists c ts, blobs s !! id = Some (c, ts) /\
      ((n < 0 /\ b = slice c off (len c)) \/
       (0 <= n /\ 0 <= off /\ off + n <= len c /\ b = slice c off (off + n)));
  get_err_sound : forall s id off n e, GetBlob s id off n = Err e ->
    (e = ErrBlobNotFound -> blobs s !! id = None) /\ e <> ErrMissingBlob /\ e <> ErrCorrupt;
  meta_sound : forall s id m, GetMetadata s id = Ok m ->
    exists c, blobs s !! id = Some (c, Timestamp m) /\ Length m = len c /\ BlobID m = id;
  meta_err_sound : forall s id, GetMetadata s id = Err ErrBlobNotFound -> blobs s !! id = None;
  put_ok : forall s id b dnr s', PutBlob s id b dnr = (s', Ok tt) ->
    (dnr = true -> blobs s !! id = None) /\
    exists ts, blobs s' = <[id := (b, ts)]> (blobs s);
  put_err : forall s id b dnr s' e, PutBlob s id b dnr = (s', Err e) ->
    blobs s' = blobs s /\ (e = ErrBlobAlreadyExists -> is_Some (blobs s !! id));
  del_ok : forall s id s', DeleteBlob s id = (s', Ok tt) -> blobs s' = delete id (blobs s);
  del_err : forall s id s' e, DeleteBlob s id = (s', Err e) ->
    (blobs s' = blobs s \/ blobs s' = delete id (blobs s)) /\ (e = ErrBlobNotFound -> blobs s !! id = None);
  list_sound : forall s p l oe, ListBlobs s p = (l, oe) ->
    NoDup (BlobID <$> l) /\
    (forall m, m ∈ l -> String.prefix p (BlobID m) = true /\
      exists c, blobs s !! BlobID m = Some (c, Timestamp m) /\ Length m = len c) /\
    (oe = None -> forall id c ts, String.prefix p id = true -> blobs s !! id = Some (c, ts) ->
      Meta id (len c) ts ∈ l);
}.

Class StorageReliable (S : Storage) `{!StorageLaws S} : Prop := {
  get_whole : forall s id c ts, blobs s !! id = Some (c, ts) -> GetBlob s id 0 (-1) = Ok c;
  get_inside : forall s id c ts off n, blobs s !! id = Some (c, ts) ->
    0 <= off -> 0 < n -> off + n < len c -> GetBlob s id off n = Ok (slice c off (off + n));
  get_missing : forall s id off n, blobs s !! id = None -> GetBlob s id off n = Err ErrBlobNotFound;
  put_fresh : forall s id b, blobs s !! id = None ->
    (PutBlob s id b true).2 = Ok tt \/
    ((PutBlob s id b true).2 = Err ErrUnsupportedPutBlobOption);
  put_exists : forall s id b, is_Some (blobs s !! id) ->
    (PutBlob s id b true).2 = Err ErrBlobAlreadyExists \/
    (PutBlob s id b true).2 = Err ErrUnsupportedPutBlobOption;
  put_plain : forall s id b, (PutBlob s id b false).2 = Ok tt;
  meta_whole : forall s id, is_Some (blobs s !! id) -> is_ok (GetMetadata s id) = true;
  meta_missing : forall s id, blobs s !! id = None -> GetMetadata s id = Err ErrBlobNotFound;
  del_total : forall s id, is_Some (blobs s !! id) -> (DeleteBlob s id).2 = Ok tt;
  list_total : forall s p, (ListBlobs s p).2 = None;
}.

(** A delete, whatever it returned, touches at most its blob. *)
Lemma DeleteBlob_blobs {S : Storage} {L : StorageLaws S} s id s' r :
  DeleteBlob s id = (s', r) -> blobs s' = blobs s \/ blobs s' = delete id (blobs s).
Proof. destruct r as [[]|e]; intros H; [right; by apply del_ok|]. by apply del_err in H as [H _]. Qed.

Section PutIfAbsent.
  Context {S : Storage}.

(** [strings.Contains]. *)
Definition contains (sub s : string) : bool :=
  match String.index 0 sub s with Some _ => true | None => false end.

Definition isUnsupportedDoNotRecreate (e : err) : bool :=
  match e with
  | ErrUnsupportedPutBlobOption => true
  | EOther msg => contains "do-not-recreate" msg && contains "unsupported put-blob option" msg
  | _ => false
  end.

Definition PutIfAbsent (s : storage) (id : string) (data : bytes) : storage * result unit :=
  match PutBlob s id data true with
  | (s1, Ok _) => (s1, Ok tt)
  | (s1, Err e) =>
      if decide (e = ErrBlobAlreadyExists) then (s1, Ok tt)
      else if negb (isUnsupportedDoNotRecreate e) then (s1, Err e)
      else match GetMetadata s1 id with
      | Ok _ => (s1, Ok tt)
      | Err e' => if negb (bool_decide (e' = ErrBlobNotFound)) then (s1, Err e')
                  else PutBlob s1 id data false
      end
  end.

(** What a put leaves behind, whatever it returned: nothing but [id] changes,
    and an existing blob is never overwritten. *)
Lemma PutIfAbsent_blobs `{L : !StorageLaws S} s id data s' r :
  PutIfAbsent s id data = (s', r) ->
  blobs s' = blobs s \/ (blobs s !! id = None /\ r = Ok tt /\ exists ts, blobs s' = <[id := (data, ts)]> (blobs s)).
Proof.
  unfold PutIfAbsent. destruct (PutBlob s id data true) as [s1 [[]|e]] eqn:E.
  - intros [= <- <-]. apply put_ok in E as [H1 H2]. auto.
  - apply put_err in E as [E _]. case_decide; [intros [= <- <-]; auto|].
    destruct (isUnsupportedDoNotRecreate e); [|intros [= <- <-]; auto]. cbn.
    destruct (GetMetadata s1 id) as [m|e'] eqn:M; [intros [= <- <-]; auto|].
    case_bool_decide; [|intros [= <- <-]; auto]. subst e'. cbn. intros P.
    apply meta_err_sound in M. rewrite E in M.
    destruct r as [[]|e']; [apply put_ok in P as [_ P]; rewrite E in P; eauto|].
    apply put_err in P as [P _]. rewrite P. auto.
Qed.

(** A successful put leaves the blob present: the data if it was absent, the
    old content otherwise. *)
Lemma PutIfAbsent_ok `{L : !StorageLaws S} s id data s' :
  PutIfAbsent s id data = (s', Ok tt) ->
  (exists x, blobs s !! id = Some x /\ blobs s' = blobs s) \/
  (blobs s !! id = None /\ exists ts, blobs s' = <[id := (data, ts)]> (blobs s)).
Proof.
  intros H. destruct (PutIfAbsent_blobs _ _ _ _ _ H) as [Hs|(? & _ & ?)]; [|auto].
  left. revert H. unfold PutIfAbsent. destruct (PutBlob s id data true) as [s1 [[]|e]] eqn:E.
  - intros [= <-]. apply put_ok in E as (_ & ts & E). exists (data, ts). split; [|done].
    by rewrite <- Hs, E, lookup_insert_eq.
  - apply put_err in E as [E Ex]. case_decide as He; [intros [= <-]; destruct (Ex He) as [x Hx]; eauto|].
    destruct (isUnsupportedDoNotRecreate e); [|done]. cbn.
    destruct (GetMetadata s1 id) as [m|e'] eqn:M.
    + intros [= <-]. apply meta_sound in M as (c & M & _). rewrite <- E. eauto.
    + case_bool_decide; [|done]. cbn. intros P. apply put_ok in P as (_ & ts & P).
      exists (data, ts). split; [|done]. by rewrite <- Hs, P, lookup_insert_eq.
Qed.

Lemma PutIfAbsent_reliable `{R : !StorageLaws S} `{!StorageReliable S} s id data :
  exists s', PutIfAbsent s id data = (s', Ok tt).
Proof.
  unfold PutIfAbsent. destruct (PutBlob s id data true) as [s1 [[]|e]] eqn:E; [eauto|].
  case_decide; [eauto|].
  assert (e = ErrUnsupportedPutBlobOption) as ->.
  { destruct (blobs s !! id) as [x|] eqn:Hb.
    - destruct (put_exists s id data) as [H1|H1]; [by rewrite Hb|rewrite E in H1; cbn in H1; congruence..].
    - destruct (put_fresh s id data Hb) as [H1|H1]; rewrite E in H1; cbn in H1; congruence. }
  cbn. destruct (GetMetadata s1 id) as [m|e'] eqn:M; [eauto|].
  destruct (blobs s1 !! id) as [x|] eqn:Hb.
  - pose proof (meta_whole s1 id) as Hm. rewrite Hb, M in Hm. cbn in Hm. naive_solver.
  - rewrite meta_missing in M by done. injection M as <-. rewrite bool_decide_true by done. cbn.
    pose proof (put_plain s1 id data) as Hp. destruct (PutBlob s1 id data false) as [s2 ?].
    cbn in Hp. subst. eauto.
Qed.

End PutIfAbsent.

(** ** A backend in memory, for evaluation *)

Record memStore := Mem { memBlobs : gmap string (bytes * Z); memClock : Z }.

Definition memGet (s : memStore) (id : string) (off n : Z) : result bytes :=
  match memBlobs s !! id with
  | None => Err ErrBlobNotFound
  | Some (c, _) =>
      if n <? 0 then Ok (slice c off (len c))
      else if (off <? 0) || (len c <? off + n) then Err (EOther "invalid range")
      else Ok (slice c off (off + n))
  end.

Definition memPut (s : memStore) (id : string) (b : bytes) (doNotRecreate : bool) : memStore * result unit :=
  if doNotRecreate && bool_decide (is_Some (memBlobs s !! id)) then (s, Err ErrBlobAlreadyExists)
  else (Mem (<[id := (b, memClock s)]> (memBlobs s)) (memClock s + 1), Ok tt).

Definition memList (s : memStore) (p : string) : list Metadata :=
  (fun x => Meta x.1 (len x.2.1) x.2.2) <$> filter (fun x => String.prefix p x.1 = true) (map_to_list (memBlobs s)).

#[export] Instance mem_storage : Storage := {|
  storage := memStore;
  GetBlob := memGet;
  GetMetadata := fun s id => match memBlobs s !! id with
                             | None => Err ErrBlobNotFound
                             | Some (c, ts) => Ok (Meta id (len c) ts)
                             end;
  PutBlob := memPut;
  DeleteBlob := fun s id => (Mem (delete id (memBlobs s)) (memClock s), Ok tt);
  ListBlobs := fun s p => (memList s p, None);
|}.

Lemma memList_sound s p :
  NoDup (BlobID <$> memList s p) /\
  forall m, m ∈ memList s p <-> String.prefix p (BlobID m) = true /\
    exists c, memBlobs s !! BlobID m = Some (c, Timestamp m) /\ Length m = len c.
Proof.
  unfold memList. split.
  - rewrite <- list_fmap_compose. change (BlobID ∘ _) with (@fst string (bytes * Z)).
    eapply sublist_NoDup; [apply (NoDup_fst_map_to_list (memBlobs s))|].
    apply fmap_sublist, sublist_filter.
  - intros [id n ts]. cbn. rewrite list_elem_of_fmap. split.
    + intros ([id' [c ts']] & [= -> -> ->] & H). apply list_elem_of_filter in H as [? H]. cbn in *.
      apply elem_of_map_to_list in H. split; [done|]. by exists c.
    + intros (? & c & H & ->). exists (id, (c, ts)). split; [done|]. apply list_elem_of_filter.
      split; [done|]. by apply elem_of_map_to_list.
Qed.

#[export] Instance mem_laws : StorageLaws mem_storage.
Proof.
  refine {| blobs := memBlobs : @storage mem_storage -> _ |}; cbn.
  - intros s id off n b. unfold memGet. destruct (memBlobs s !! id) as [[c ts]|]; [|done]. intros H.
    exists c, ts. split; [done|]. destruct (Z.ltb_spec n 0); [left|right].
    + by injection H as <-.
    + destruct (Z.ltb_spec off 0); [done|]. destruct (Z.ltb_spec (len c) (off + n)); [done|].
      by injection H as <-.
  - intros s id off n e. unfold memGet. destruct (memBlobs s !! id) as [[c ts]|]; [|by intros [= <-]].
    destruct (n <? 0); [done|]. destruct (_ || _); by intros [= <-].
  - intros s id m. destruct (memBlobs s !! id) as [[c ts]|] eqn:E; [|done]. intros [= <-]. by exists c.
  - intros s id. by destruct (memBlobs s !! id) as [[c ts]|].
  - intros s id b dnr s'. unfold memPut. destruct (dnr && _) eqn:E; [done|]. intros [= <-]. split; [|by eexists].
    intros ->. apply bool_decide_eq_false in E. by apply eq_None_not_Some.
  - intros s id b dnr s' e. unfold memPut. destruct (dnr && _) eqn:E; [|done]. intros [= <- <-]. split; [done|].
    intros _. apply andb_true_iff in E as [_ E]. by apply bool_decide_eq_true in E.
  - by intros s id s' [= <-].
  - done.
  - intros s p l oe [= <- <-]. destruct (memList_sound s p) as [Hn Hl]. split_and!; [done|intros m; by apply Hl|].
    intros _ id c ts Hp Hb. apply Hl. cbn. split; [done|]. by exists c.
Defined.

#[export] Instance mem_reliable : StorageReliable mem_storage.
Proof.
  split; cbn.
  - intros s id c ts. unfold memGet. intros ->. cbn. by rewrite slice_all.
  - intros s id c ts off n. unfold memGet. intros -> ? ? ?. destruct (Z.ltb_spec n 0); [lia|].
    destruct (Z.ltb_spec off 0); [lia|]. by destruct (Z.ltb_spec (len c) (off + n)); [lia|].
  - intros s id off n. unfold memGet. by intros ->.
  - intros s id b H. left. unfold memPut. rewrite H. by rewrite bool_decide_false by (intros [? ?]; done).
  - intros s id b H. left. unfold memPut. by rewrite bool_decide_true.
  - done.
  - by intros s id [[c ts] ->].
  - by intros s id ->.
  - done.
  - done.
Qed.
