(* ===== verification/Manifest.v ===== *)
(** Snapshot keys, chunk manifests and blob identifiers
    (casstore/snapshot/store.go, store_chunked.go and chunked_gc.go).

    A manifest lists chunk references in stream order; a blob identifier is
    [pack-<domain>-<sha256 hex>] or [chunk-<domain>-<sha256 hex>].  Because
    garbage collection finds a domain's blobs by string prefix and recovers
    domain and hash from the identifier alone, the encoding is what isolation
    rests on: the lemmas here say exactly which identifiers a prefix matches
    and that [parsePackID] inverts [packBlobID].

    [ManifestCodec] is encoding/json on the manifest struct: [Marshal] is total
    and [Unmarshal] inverts it when the strings survive JSON (encoding/json
    replaces bytes that are not valid UTF-8; ASCII always survives). *)

From S2P Require Import Prelude GoStrings Sha256.
From Stdlib Require Import Ascii.

(** ** Keys and metadata *)

Record SnapshotKey := MkKey {
  Tenant : string; Workspace : string; User : string; OwnerKey : string }.

#[global] Instance SnapshotKey_eq_dec : EqDecision SnapshotKey.
Proof. solve_decision. Defined.

#[global] Program Instance SnapshotKey_countable : Countable SnapshotKey :=
  inj_countable' (fun k => (Tenant k, Workspace k, User k, OwnerKey k))
                 (fun '(t, w, u, o) => MkKey t w u o) _.
Next Obligation. by intros []. Qed.

Record SnapshotMetadata := MkMeta {
  mKey : SnapshotKey; Version : string; CreatedAt : Z; SizeBytes : Z;
  Runtime : string; mFormat : string; Tags : gmap string string }.

(** ** Manifests *)

Definition manifestFormatV1 : string := "sandbox-chunked-v1".
Definition manifestFormatV2 : string := "sandbox-chunked-v2".

Record chunkRef := MkRef { Hash : string; PackHash : string; Offset : Z; Size : Z }.

#[global] Instance chunkRef_eq_dec : EqDecision chunkRef.
Proof. solve_decision. Defined.

Record chunkManifest := MkManifest {
  Format : string; TotalSize : Z; mTenant : string; Chunks : list chunkRef }.

#[global] Instance chunkManifest_eq_dec : EqDecision chunkManifest.
Proof. solve_decision. Defined.

(** encoding/json on [chunkManifest]. *)
Class ManifestCodec := {
  json_Marshal : chunkManifest -> bytes;
  json_Unmarshal : bytes -> option chunkManifest;
}.

Definition ascii_only (s : string) : bool :=
  forallb (fun c => (N_of_ascii c <? 128)%N) (String.list_ascii_of_string s).

Class ManifestCodecLaws `{!ManifestCodec} := {
  json_safe : string -> Prop;
  json_safe_ascii : forall s, ascii_only s = true -> json_safe s;
  json_round : forall m, json_safe (Format m) -> json_safe (mTenant m) ->
    Forall (fun ref => json_safe (Hash ref) /\ json_safe (PackHash ref)) (Chunks m) ->
    json_Unmarshal (json_Marshal m) = Some m;
}.

(** ** Blob identifiers *)

Definition tenantSegment (tenant : string) : string :=
  if decide (tenant = "") then "_" else tenant.

Definition packBlobID (tenant hash : string) : string :=
  "pack-" +:+ tenantSegment tenant +:+ "-" +:+ hash.

Definition packTenantPrefix (tenant : string) : string :=
  "pack-" +:+ tenantSegment tenant +:+ "-".

Definition chunkBlobID (tenant hash : string) : string :=
  "chunk-" +:+ tenantSegment tenant +:+ "-" +:+ hash.

Definition chunkTenantPrefix (tenant : string) : string :=
  "chunk-" +:+ tenantSegment tenant +:+ "-".

Definition sha256HexLen : Z := 64.

Definition isHexChar (c : ascii) : bool :=
  let n := Z.of_N (N_of_ascii c) in
  ((48 <=? n) && (n <=? 57)) || ((97 <=? n) && (n <=? 102)) || ((65 <=? n) && (n <=? 70)).

Definition isHex (s : string) : bool :=
  negb (bool_decide (s = "")) && forallb isHexChar (chars s).

Definition parsePackID (id : string) : option (string * string) :=
  if negb (String.prefix "pack-" id) then None
  else
    let rest := str_slice id 5 (strlen id) in
    if strlen rest <? sha256HexLen + 1 then None
    else
      let sep := strlen rest - sha256HexLen - 1 in
      if negb (bool_decide (slice (chars rest) sep (sep + 1) = ["-"%char])) then None
      else
        let domain := str_slice rest 0 sep in
        let hash := str_slice rest (sep + 1) (strlen rest) in
        if negb (isHex hash) then None else Some (domain, hash).

Lemma sha256_hex_strlen b : strlen (sha256_hex b) = sha256HexLen.
Proof. unfold strlen, len. by rewrite chars_length, sha256_hex_length. Qed.

Lemma hex_digit_hex n : 0 <= n < 16 -> isHexChar (hex_digit n) = true.
Proof.
  intros H. assert (Hall : forallb (fun n => isHexChar (hex_digit n)) (seqZ 0 16) = true) by (vm_compute; reflexivity).
  rewrite forallb_forall in Hall. apply Hall, list_elem_of_In, elem_of_seqZ. lia.
Qed.

Lemma hex_encode_hex b : forallb isHexChar (chars (hex_encode b)) = true.
Proof.
  induction b as [|x b IH]; [done|]. unfold chars in *. cbn.
  pose proof (byte_Z_range x).
  rewrite !hex_digit_hex, IH; [done|apply Z.mod_pos_bound; lia|].
  split; [apply Z.div_pos; lia|apply Z.div_lt_upper_bound; lia].
Qed.

(** A string that can stand where a sha256 digest does. *)
Definition is_digest (h : string) : Prop := strlen h = sha256HexLen /\ isHex h = true.

Lemma sha256_is_digest b : is_digest (sha256_hex b).
Proof.
  split; [apply sha256_hex_strlen|]. unfold isHex.
  rewrite bool_decide_false by apply sha256_hex_nonempty.
  by rewrite sha256_hex_eq, hex_encode_hex.
Qed.
#[export] Hint Resolve sha256_is_digest : store.

Lemma digest_nonempty h : is_digest h -> h <> "".
Proof. intros [H _] ->. done. Qed.

Lemma isHexChar_ascii c : isHexChar c = true -> (N_of_ascii c <? 128)%N = true.
Proof. destruct c as [[] [] [] [] [] [] [] []]; vm_compute; done. Qed.

Lemma digest_ascii h : is_digest h -> ascii_only h = true.
Proof.
  intros [_ H]. unfold isHex in H. apply andb_true_iff in H as [_ H]. unfold ascii_only.
  apply forallb_forall. intros c Hc. rewrite forallb_forall in H. by apply isHexChar_ascii, H.
Qed.
#[export] Hint Resolve digest_nonempty digest_ascii : store.

Lemma digest_no_dash h : isHex h = true -> "-"%char ∉ chars h.
Proof.
  intros [_ H]%andb_true_iff Hin. rewrite forallb_forall in H.
  apply list_elem_of_In, H in Hin. by vm_compute in Hin.
Qed.

Lemma str_slice_app s t i j :
  i = strlen s -> j = strlen s + strlen t -> str_slice (s +:+ t) i j = t.
Proof.
  intros -> ->. apply chars_inj. unfold str_slice. rewrite chars_of, chars_app.
  apply (slice_mid _ (chars s) (chars t) []); [by rewrite app_nil_r|done|done].
Qed.

(** What the write path puts in a manifest: v1 references name standalone chunk
    blobs, v2 references name packs. *)
Definition formed (m : chunkManifest) : Prop :=
  (Format m = manifestFormatV1 /\ Forall (fun ref => is_digest (Hash ref) /\ PackHash ref = "") (Chunks m)) \/
  (Format m = manifestFormatV2 /\ Forall (fun ref => is_digest (Hash ref) /\ is_digest (PackHash ref)) (Chunks m)).

Lemma formed_format m : formed m -> Format m = manifestFormatV1 \/ Format m = manifestFormatV2.
Proof. intros [[-> _]|[-> _]]; auto. Qed.

Lemma formed_digests m : formed m ->
  Forall (fun ref => is_digest (Hash ref) /\ (PackHash ref = "" \/ is_digest (PackHash ref))) (Chunks m).
Proof. intros [[_ H]|[_ H]]; eapply Forall_impl; [exact H|naive_solver|exact H|naive_solver]. Qed.

(** The dash that ends [a] is the first dash after it, or lies inside [b]. *)
Lemma dash_prefix (a b x : list ascii) :
  "-"%char ∉ x ->
  (a ++ ["-"%char]) `prefix_of` (b ++ "-"%char :: x) <->
  a = b \/ (a ++ ["-"%char]) `prefix_of` b.
Proof.
  intros Hx. split.
  - intros [k Hk]. symmetry in Hk. apply app_eq_app in Hk as [l [[Ha Hl]|[Hb Hl]]].
    + destruct l as [|z l _] using rev_ind.
      { right. rewrite app_nil_r in Ha. exists []. by rewrite app_nil_r. }
      rewrite app_assoc in Ha. apply app_inj_2 in Ha as [-> [= Hz]]; [|done]. subst z.
      destruct l as [|y l]; [left; by rewrite app_nil_r|].
      cbn in Hl. injection Hl as <- ->. exfalso. apply Hx.
      rewrite !elem_of_app. left. right. constructor.
    + right. exists l. done.
  - intros [->|[k ->]].
    + exists x. by rewrite <- app_assoc.
    + exists (k ++ "-"%char :: x). by rewrite <- !app_assoc.
Qed.

(** ** Properties *)

Lemma parsePackID_pack domain hash :
  is_digest hash -> parsePackID (packBlobID domain hash) = Some (tenantSegment domain, hash).
Proof.
  intros [Hl Hh]. unfold parsePackID, packBlobID. set (d := tenantSegment domain).
  assert (Hp : String.prefix "pack-" ("pack-" +:+ d +:+ "-" +:+ hash) = true).
  { apply prefix_chars. rewrite chars_app. by apply prefix_app_r. }
  rewrite Hp. cbn [negb].
  rewrite (str_slice_app "pack-" (d +:+ "-" +:+ hash)) by (rewrite ?strlen_app; done).
  assert (Hr : strlen (d +:+ "-" +:+ hash) = strlen d + 1 + sha256HexLen)
    by (rewrite !strlen_app, Hl; change (strlen "-") with 1; lia).
  rewrite Hr. unfold sha256HexLen in *. pose proof (len_nonneg (chars d)) as Hd. fold (strlen d) in Hd.
  destruct (Z.ltb_spec (strlen d + 1 + 64) (64 + 1)); [lia|].
  replace (strlen d + 1 + 64 - 64 - 1) with (strlen d) by lia.
  rewrite (slice_mid _ (chars d) ["-"%char] (chars hash)) by (rewrite ?chars_app; done).
  rewrite bool_decide_true by done. cbn [negb].
  assert (Hs : str_slice (d +:+ "-" +:+ hash) (strlen d + 1) (strlen d + 1 + 64) = hash).
  { apply chars_inj. unfold str_slice. rewrite chars_of, !chars_app.
    apply (slice_mid _ (chars d ++ ["-"%char]) (chars hash) []);
      [by rewrite <- app_assoc, app_nil_r|by rewrite len_app|unfold strlen in Hl; lia]. }
  rewrite Hs, Hh. cbn [negb]. do 2 f_equal.
  apply chars_inj. unfold str_slice. rewrite chars_of, chars_app.
  by apply (slice_mid _ [] (chars d) (chars ("-" +:+ hash))).
Qed.

(** [parsePackID] recovers domain and hash from the identifier
    [packBlobID] builds, for every domain (hyphens included) and digest. *)
Theorem parsePackID_packBlobID domain hash :
  is_digest hash -> parsePackID (packBlobID domain hash) = Some (tenantSegment domain, hash).
Proof. apply parsePackID_pack. Qed.

(** Both kinds of identifier are built the same way. *)
Lemma tenantPrefix_iff kind domain other hash :
  is_digest hash ->
  String.prefix (kind +:+ tenantSegment domain +:+ "-") (kind +:+ tenantSegment other +:+ "-" +:+ hash) = true <->
  tenantSegment domain = tenantSegment other \/
  String.prefix (tenantSegment domain +:+ "-") (tenantSegment other) = true.
Proof.
  intros [_ Hh]. rewrite !prefix_chars. rewrite !chars_app. change (chars "-") with ["-"%char].
  assert (Hcut : forall p a b : list ascii, (p ++ a) `prefix_of` (p ++ b) <-> a `prefix_of` b).
  { intros p a b. split; [apply prefix_app_inv|apply prefix_app]. }
  rewrite Hcut. change (["-"%char] ++ chars hash) with ("-"%char :: chars hash).
  rewrite dash_prefix by (by apply digest_no_dash).
  split; intros [H|H]; auto; left; [by apply chars_inj|by rewrite H].
Qed.

(** Exactly which packs a domain-scoped listing sees: those of the domain
    itself, and also those of every domain whose name continues it with a
    hyphen. *)
Theorem packTenantPrefix_matches domain other hash :
  is_digest hash ->
  String.prefix (packTenantPrefix domain) (packBlobID other hash) = true <->
  tenantSegment domain = tenantSegment other \/
  String.prefix (tenantSegment domain +:+ "-") (tenantSegment other) = true.
Proof. apply (tenantPrefix_iff "pack-"). Qed.

Lemma parsePackID_packBlobID_witness :
  parsePackID (packBlobID "acme-prod" (sha256_hex [])) = Some ("acme-prod", sha256_hex []).
Proof. apply (parsePackID_packBlobID "acme-prod" (sha256_hex [])). vm_compute. split; reflexivity. Defined.

Lemma packTenantPrefix_matches_witness :
  String.prefix (packTenantPrefix "acme") (packBlobID "acme-prod" (sha256_hex [])) = true.
Proof.
  apply (packTenantPrefix_matches "acme" "acme-prod" (sha256_hex []));
    [vm_compute; split; reflexivity | right; vm_compute; reflexivity].
Defined.
