(* ===== verification/ChunkedRead.v ===== *)
(** The read path of the chunked store (casstore/snapshot/store_chunked.go,
    [chunkStreamReader] and its helpers).

    A reader walks a manifest's chunk references in order.  Consecutive
    references into one pack are fetched as a single run: by an exact ranged
    read when the pack is uncompressed, through the per-chunk index when it is
    per-chunk framed, and by a whole-pack fetch otherwise or when a ranged read
    is refused.  Every chunk is checked against the hash the manifest promises.

    The theorems show that a manifest whose references are backed by stored
    packs reads back completely whatever buffer sizes the caller uses, that
    bytes are never delivered unverified, and how a missing blob is reported. *)

From S2P Require Import Prelude GoStrings Sha256 PackFormat BlobStore Manifest.

Record chunkStreamReader := Reader {
  rManifest : chunkManifest;
  cursorIdx : nat;
  current : bytes;
  cachedPackID : string;
  cachedPack : option bytes;
  framingByPack : gmap string packFraming;
  queued : list bytes;
}.

Definition newChunkStreamReader (m : chunkManifest) (framingCache : gmap string packFraming)
  : chunkStreamReader := Reader m 0 [] "" None framingCache [].

Definition IntegrityKind (e : err) : string :=
  match e with
  | ErrCorrupt => "corrupt"
  | ErrMissingBlob => "not_found"
  | _ => ""
  end.

Section Reader.
  Context {Sto : Storage} {Clib : CodecLib}.

(** [fmt.Errorf("...: %w", ErrMissingBlob)] on a not-found error; other
    errors keep their identity. *)
Definition missing (e : err) : err :=
  if decide (e = ErrBlobNotFound) then ErrMissingBlob else e.

Definition loadStandaloneChunk (s : storage) (tenant : string) (ref : chunkRef) : result bytes :=
  match GetBlob s (chunkBlobID tenant (Hash ref)) 0 (-1) with
  | Err e => Err (missing e)
  | Ok buf =>
      got ← decompressPackBlob buf;
      if negb (len got =? Size ref) then Err ErrCorrupt else Ok got
  end.

(** One reference of [sliceRunFromContent]'s loop. *)
Definition sliceRef (content : bytes) (ref : chunkRef) : result bytes :=
  let end_ := Offset ref + Size ref in
  if (Offset ref <? 0) || (len content <? end_) then Err ErrCorrupt
  else if Size ref <? 0 then Err (EOther "panic: slice bounds out of range")
  else
    let chunk := slice content (Offset ref) end_ in
    if negb (bool_decide (sha256_hex chunk = Hash ref)) then Err ErrCorrupt else Ok chunk.

Definition sliceRunFromContent (content : bytes) (run : list chunkRef) : result (list bytes) :=
  mapR (sliceRef content) run.

Definition shiftRun (run : list chunkRef) (base : Z) : list chunkRef :=
  if base =? 0 then run
  else (fun ref => MkRef (Hash ref) (PackHash ref) (Offset ref - base) (Size ref)) <$> run.

Definition probePackFraming (s : storage) (pid : string) : result packFraming :=
  head ← match GetBlob s pid 0 packChunkedHeaderLen with
         | Ok b => Ok (Some b)
         | Err e =>
             if decide (e = ErrBlobNotFound) then Err ErrMissingBlob
             else match GetBlob s pid 0 packHeaderLen with
                  | Ok b => Ok (Some b)
                  | Err e => if decide (e = ErrBlobNotFound) then Err ErrMissingBlob else Ok None
                  end
         end;
  match head with
  | None => Ok (PackFraming forceWholePack 0 "" 0 0 [])
  | Some head =>
      framing ← detectPackFraming head;
      if negb (bool_decide (algo framing = packAlgoChunked)) then Ok framing
      else if indexLen framing =? 0 then Ok framing
      else match GetBlob s pid packChunkedHeaderLen (indexLen framing) with
      | Err e => Err (missing e)
      | Ok idx =>
          entries ← parsePackChunkIndex idx;
          Ok (PackFraming (algo framing) (contentBase framing) (chunkedCodec framing)
                (indexLen framing) (bodyBase framing) entries)
      end
  end.

Definition framingFor (s : storage) (r : chunkStreamReader) (pid : string)
  : chunkStreamReader * result packFraming :=
  match framingByPack r !! pid with
  | Some f => (r, Ok f)
  | None =>
      match probePackFraming s pid with
      | Err e => (r, Err e)
      | Ok f => (Reader (rManifest r) (cursorIdx r) (current r) (cachedPackID r) (cachedPack r)
                   (<[pid := f]> (framingByPack r)) (queued r), Ok f)
      end
  end.

Definition loadCompressedPackRun (s : storage) (r : chunkStreamReader) (pid : string)
  (run : list chunkRef) : chunkStreamReader * result (list bytes) :=
  match GetBlob s pid 0 (-1) with
  | Err e => (r, Err (missing e))
  | Ok buf =>
      match decompressPackBlob buf with
      | Err e => (r, Err e)
      | Ok raw =>
          (Reader (rManifest r) (cursorIdx r) (current r) pid (Some raw) (framingByPack r) (queued r),
           sliceRunFromContent raw run)
      end
  end.

Definition loadChunkedPackRun (s : storage) (pid : string) (framing : packFraming)
  (run : list chunkRef) (minOff maxEnd : Z) : result (list bytes) :=
  span ← chunkedStoredSpan framing minOff maxEnd;
  let '(storedOff, storedLen, first, lst) := span in
  if storedLen =? 0 then sliceRunFromContent [] (shiftRun run minOff)
  else match GetBlob s pid (bodyBase framing + storedOff) storedLen with
  | Err e => Err (missing e)
  | Ok buf =>
      content ← materializeChunkedWindow (chunked framing) first lst buf storedOff;
      sliceRunFromContent content (shiftRun run minOff)
  end.

Fixpoint minOffset (run : list chunkRef) (m : Z) : Z :=
  match run with
  | [] => m
  | ref :: run => minOffset run (if Offset ref <? m then Offset ref else m)
  end.

Fixpoint maxEndOf (run : list chunkRef) (m : Z) : Z :=
  match run with
  | [] => m
  | ref :: run =>
      let e := Offset ref + Size ref in maxEndOf run (if m <? e then e else m)
  end.

Definition loadPackRun (s : storage) (r : chunkStreamReader) (packHash : string)
  (run : list chunkRef) : chunkStreamReader * result (list bytes) :=
  let pid := packBlobID (mTenant (rManifest r)) packHash in
  match (if decide (cachedPackID r = pid) then cachedPack r else None) with
  | Some content => (r, sliceRunFromContent content run)
  | None =>
      let minOff := minOffset run (match run with [] => 0 | ref :: _ => Offset ref end) in
      let maxEnd := maxEndOf run 0 in
      if (minOff <? 0) || (maxEnd <? minOff) then (r, Err (EOther "invalid run window"))
      else if maxEnd - minOff <=? 0 then (r, sliceRunFromContent [] (shiftRun run minOff))
      else
        match framingFor s r pid with
        | (r, Err e) => (r, Err e)
        | (r, Ok framing) =>
            if decide (algo framing = packAlgoChunked) then
              match loadChunkedPackRun s pid framing run minOff maxEnd with
              | Ok chunks => (r, Ok chunks)
              | Err e => if decide (e = ErrMissingBlob \/ e = ErrCorrupt) then (r, Err e)
                         else loadCompressedPackRun s r pid run
              end
            else if negb (bool_decide (algo framing = CompressNone)) then
              loadCompressedPackRun s r pid run
            else
              match GetBlob s pid (contentBase framing + minOff) (maxEnd - minOff) with
              | Err e => if decide (e = ErrBlobNotFound) then (r, Err ErrMissingBlob)
                         else loadCompressedPackRun s r pid run
              | Ok buf => (r, sliceRunFromContent buf (shiftRun run minOff))
              end
        end
  end.

(** The [end++] loop: how many references after [start] share the pack. *)
Fixpoint runLength (refs : list chunkRef) (packHash : string) : nat :=
  match refs with
  | [] => 0
  | ref :: refs => if decide (PackHash ref = packHash) then S (runLength refs packHash) else 0
  end.

Definition set_cursor (r : chunkStreamReader) (i : nat) : chunkStreamReader :=
  Reader (rManifest r) i (current r) (cachedPackID r) (cachedPack r) (framingByPack r) (queued r).

Definition set_queued (r : chunkStreamReader) (q : list bytes) : chunkStreamReader :=
  Reader (rManifest r) (cursorIdx r) (current r) (cachedPackID r) (cachedPack r) (framingByPack r) q.

Definition set_current (r : chunkStreamReader) (c : bytes) (q : list bytes) : chunkStreamReader :=
  Reader (rManifest r) (cursorIdx r) c (cachedPackID r) (cachedPack r) (framingByPack r) q.

(** Called with [cursorIdx < len(manifest.Chunks)]. *)
Definition loadNextRun (s : storage) (r : chunkStreamReader) : chunkStreamReader * result unit :=
  match drop (cursorIdx r) (Chunks (rManifest r)) with
  | [] => (r, Err (EOther "panic: index out of range"))
  | ref :: rest =>
      if decide (PackHash ref = "") then
        let r := set_cursor r (S (cursorIdx r)) in
        match loadStandaloneChunk s (mTenant (rManifest r)) ref with
        | Err e => (r, Err e)
        | Ok chunk => (set_queued r [chunk], Ok tt)
        end
      else
        let n := runLength rest (PackHash ref) in
        let r := set_cursor r (cursorIdx r + S n) in
        match loadPackRun s r (PackHash ref) (ref :: take n rest) with
        | (r, Err e) => (r, Err e)
        | (r, Ok chunks) => (set_queued r chunks, Ok tt)
        end
  end.

(** Outcome of one [Read]: bytes delivered, end of stream, or an error. *)
Inductive readOut := RData (b : bytes) | REOF | RFail (e : err).

(** [Read(p)] with [len(p) = n]. *)
Definition Read (s : storage) (r : chunkStreamReader) (n : nat) : chunkStreamReader * readOut :=
  let deliver r := (set_current r (drop n (current r)) (queued r), RData (take n (current r))) in
  let nextChunk r := match queued r with
                     | [] => (r, RFail (EOther "panic: index out of range"))
                     | c :: q => deliver (set_current r c q)
                     end in
  match current r with
  | _ :: _ => deliver r
  | [] =>
      match queued r with
      | _ :: _ => nextChunk r
      | [] =>
          if decide (length (Chunks (rManifest r)) <= cursorIdx r)%nat then (r, REOF)
          else match loadNextRun s r with
               | (r, Err e) => (r, RFail e)
               | (r, Ok _) => nextChunk r
               end
      end
  end.

(** [io.ReadAll] over the reader; [sz i] is the room offered to the i-th read. *)
Fixpoint readAllFrom (fuel : nat) (s : storage) (r : chunkStreamReader) (sz : nat -> nat) (i : nat)
  : chunkStreamReader * option (result bytes) :=
  match fuel with
  | O => (r, None)
  | S fuel =>
      match Read s r (sz i) with
      | (r, REOF) => (r, Some (Ok []))
      | (r, RFail e) => (r, Some (Err e))
      | (r, RData b) =>
          match readAllFrom fuel s r sz (S i) with
          | (r, Some (Ok rest)) => (r, Some (Ok (b ++ rest)))
          | (r, o) => (r, o)
          end
      end
  end.

Definition Close (r : chunkStreamReader) : chunkStreamReader :=
  Reader (rManifest r) (length (Chunks (rManifest r))) [] (cachedPackID r) None (framingByPack r) [].

(** ** Slicing *)

Definition shiftRef (base : Z) (ref : chunkRef) : chunkRef :=
  MkRef (Hash ref) (PackHash ref) (Offset ref - base) (Size ref).

Lemma shiftRun_map run base : shiftRun run base = shiftRef base <$> run.
Proof.
  unfold shiftRun. destruct (Z.eqb_spec base 0) as [->|]; [|done].
  induction run as [|[h p o z] run IH]; [done|]. cbn. rewrite <- IH.
  unfold shiftRef. cbn. by rewrite Z.sub_0_r.
Qed.

(** [chunk] is what [ref] names inside [content]. *)
Definition ref_in (content : bytes) (ref : chunkRef) (chunk : bytes) : Prop :=
  0 <= Offset ref /\ 0 <= Size ref /\ Offset ref + Size ref <= len content /\
  chunk = slice content (Offset ref) (Offset ref + Size ref) /\ sha256_hex chunk = Hash ref.

Lemma sliceRef_ok content ref chunk : sliceRef content ref = Ok chunk <-> ref_in content ref chunk.
Proof.
  unfold sliceRef, ref_in. split.
  - intros H. destruct (_ || _) eqn:E; [done|]. apply orb_false_iff in E as [? ?].
    destruct (Z.ltb_spec (Size ref) 0); [done|]. case_bool_decide; [|done].
    injection H as <-. split_and!; try done; lia.
  - intros (? & ? & ? & -> & Hh).
    destruct (Z.ltb_spec (Offset ref) 0); [lia|].
    destruct (Z.ltb_spec (len content) (Offset ref + Size ref)); [lia|].
    destruct (Z.ltb_spec (Size ref) 0); [lia|]. cbn. by rewrite bool_decide_true.
Qed.

(** A window of the content, addressed relative to its start. *)
Lemma ref_in_window content ref chunk lo hi :
  ref_in content ref chunk -> 0 <= lo -> lo <= Offset ref -> Offset ref + Size ref <= hi ->
  hi <= len content -> ref_in (slice content lo hi) (shiftRef lo ref) chunk.
Proof.
  intros (? & ? & ? & -> & ?) ? ? ? ?. unfold ref_in, shiftRef. cbn.
  rewrite slice_len, slice_slice by lia.
  replace (lo + (Offset ref - lo)) with (Offset ref) by lia.
  replace (lo + (Offset ref - lo + Size ref)) with (Offset ref + Size ref) by lia.
  split_and!; try done; lia.
Qed.

Lemma sliceRun_ok content run chunks :
  Forall2 (ref_in content) run chunks -> sliceRunFromContent content run = Ok chunks.
Proof.
  intros H. apply mapR_ok. eapply Forall2_impl; [done|]. intros ? ? ?. by apply sliceRef_ok.
Qed.

Lemma sliceRun_window content run chunks lo hi :
  Forall2 (ref_in content) run chunks -> 0 <= lo -> hi <= len content ->
  Forall (fun ref => lo <= Offset ref /\ Offset ref + Size ref <= hi) run ->
  sliceRunFromContent (slice content lo hi) (shiftRun run lo) = Ok chunks.
Proof.
  intros H ? ? Hb. apply sliceRun_ok. rewrite shiftRun_map.
  induction H as [|ref chunk run chunks Hr H IH]; cbn; constructor.
  - apply Forall_cons in Hb as [[? ?] _]. by eapply ref_in_window.
  - apply Forall_cons in Hb as [_ ?]. by apply IH.
Qed.

(** ** The run window *)

Lemma minOffset_spec run m :
  minOffset run m <= m /\ Forall (fun ref => minOffset run m <= Offset ref) run /\
  (minOffset run m = m \/ exists ref, ref ∈ run /\ Offset ref = minOffset run m).
Proof.
  revert m; induction run as [|ref run IH]; intros m; cbn; [split_and!; auto; lia|].
  destruct (IH (if Offset ref <? m then Offset ref else m)) as (H1 & H2 & H3).
  destruct (Z.ltb_spec (Offset ref) m); split_and!; try lia; try (constructor; [lia|done]).
  - right. destruct H3 as [H3|(r & ? & ?)]; [exists ref; split; [left|lia] | exists r; split; [by right|done]].
  - destruct H3 as [H3|(r & ? & ?)]; [by left | right; exists r; split; [by right|done]].
Qed.

Lemma maxEndOf_spec run m :
  m <= maxEndOf run m /\ Forall (fun ref => Offset ref + Size ref <= maxEndOf run m) run /\
  (maxEndOf run m = m \/ exists ref, ref ∈ run /\ Offset ref + Size ref = maxEndOf run m).
Proof.
  revert m; induction run as [|ref run IH]; intros m; cbn; [split_and!; auto; lia|].
  destruct (IH (if m <? Offset ref + Size ref then Offset ref + Size ref else m)) as (H1 & H2 & H3).
  destruct (Z.ltb_spec m (Offset ref + Size ref)); split_and!; try lia; try (constructor; [lia|done]).
  - right. destruct H3 as [H3|(r & ? & ?)]; [exists ref; split; [left|lia] | exists r; split; [by right|done]].
  - destruct H3 as [H3|(r & ? & ?)]; [by left | right; exists r; split; [by right|done]].
Qed.

(** ** Integrity: what may be delivered at all *)

(** Same manifest, cursor and undelivered bytes: only caches may differ. *)
Definition same_position (r r' : chunkStreamReader) : Prop :=
  rManifest r' = rManifest r /\ cursorIdx r' = cursorIdx r /\
  current r' = current r /\ queued r' = queued r.

Lemma same_position_trans r1 r2 r3 : same_position r1 r2 -> same_position r2 r3 -> same_position r1 r3.
Proof. unfold same_position. intuition congruence. Qed.

(** The checks a delivered chunk has passed. *)
Definition verified (ref : chunkRef) (chunk : bytes) : Prop :=
  len chunk = Size ref /\ (PackHash ref <> "" -> sha256_hex chunk = Hash ref).

(** What a reader serves for a reference: the check it passed, or for a
    standalone chunk what its blob holds. *)
Definition served (s : storage) (tenant : string) (ref : chunkRef) (chunk : bytes) : Prop :=
  verified ref chunk /\ (PackHash ref = "" -> loadStandaloneChunk s tenant ref = Ok chunk).

Lemma served_standalone s tenant ref chunk :
  loadStandaloneChunk s tenant ref = Ok chunk -> PackHash ref = "" -> served s tenant ref chunk.
Proof.
  intros E Hp. split; [|done]. unfold loadStandaloneChunk in E. destruct (GetBlob _ _ _ _); [|done].
  apply bind_ok in E as (got & _ & E). destruct (Z.eqb_spec (len got) (Size ref)); [|done].
  injection E as <-. split; [done|congruence].
Qed.

(** Two reads of one reference agree, or show a collision. *)
Lemma served_agree s tenant ref x y :
  served s tenant ref x -> served s tenant ref y -> x = y \/ (x <> y /\ sha256_hex x = sha256_hex y).
Proof.
  intros [[_ Hx] Hx1] [[_ Hy] Hy1]. destruct (decide (PackHash ref = "")) as [E|E].
  - left. specialize (Hx1 E). specialize (Hy1 E). congruence.
  - destruct (decide (x = y)); [by left|right]. split; [done|]. by rewrite (Hx E), (Hy E).
Qed.

Lemma sliceRun_verified content run base chunks :
  sliceRunFromContent content (shiftRun run base) = Ok chunks -> Forall2 verified run chunks.
Proof.
  rewrite shiftRun_map. intros H. apply mapR_ok in H. apply Forall2_fmap_l in H.
  eapply Forall2_impl; [exact H|]. intros ref chunk Hc. apply sliceRef_ok in Hc as (? & ? & ? & -> & ?).
  unfold verified. cbn in *. split; [rewrite slice_len; lia|done].
Qed.

Lemma sliceRun_verified_0 content run chunks :
  sliceRunFromContent content run = Ok chunks -> Forall2 verified run chunks.
Proof. apply (sliceRun_verified content run 0). Qed.

Lemma loadCompressed_verified s r pid run r' chunks :
  loadCompressedPackRun s r pid run = (r', Ok chunks) -> Forall2 verified run chunks /\ same_position r r'.
Proof.
  unfold loadCompressedPackRun. destruct (GetBlob s pid 0 (-1)); [|done].
  destruct (decompressPackBlob _); [|done]. intros [= <- H].
  split; [by eapply sliceRun_verified_0|done].
Qed.

Lemma loadChunked_verified s pid f run lo hi chunks :
  loadChunkedPackRun s pid f run lo hi = Ok chunks -> Forall2 verified run chunks.
Proof.
  unfold loadChunkedPackRun. intros H. apply bind_ok in H as ([[[so sl] i] j] & _ & H).
  destruct (sl =? 0); [by eapply sliceRun_verified|]. destruct (GetBlob _ _ _ _); [|done].
  apply bind_ok in H as (content & _ & H). by eapply sliceRun_verified.
Qed.

Lemma framingFor_position s r pid r' o : framingFor s r pid = (r', o) -> same_position r r'.
Proof.
  unfold framingFor. destruct (_ !! _); [by intros [= <- _]|].
  destruct (probePackFraming s pid); by intros [= <- _].
Qed.

Lemma loadPackRun_verified s r ph run r' chunks :
  loadPackRun s r ph run = (r', Ok chunks) -> Forall2 verified run chunks /\ same_position r r'.
Proof.
  unfold loadPackRun. intros H. destruct (if decide _ then _ else _) as [c|].
  { injection H as <- H. split; [by eapply sliceRun_verified_0|done]. }
  destruct (_ || _); [done|]. destruct (_ <=? 0).
  { injection H as <- H. split; [by eapply sliceRun_verified|done]. }
  destruct (framingFor _ _ _) as [r1 [f|]] eqn:Hf; [|done]. apply framingFor_position in Hf.
  assert (Hwhole : forall pid, loadCompressedPackRun s r1 pid run = (r', Ok chunks) ->
    Forall2 verified run chunks /\ same_position r r').
  { intros pid Hl. apply loadCompressed_verified in Hl as [? Hp]. split; [done|by eapply same_position_trans]. }
  case_decide.
  { destruct (loadChunkedPackRun _ _ _ _ _ _) eqn:E.
    - injection H as <- <-. split; [by eapply loadChunked_verified|done].
    - case_decide; [done|eauto]. }
  case_bool_decide; cbn [negb] in H; [|eauto].
  destruct (GetBlob _ _ _ _).
  - injection H as <- H. split; [by eapply sliceRun_verified|done].
  - case_decide; [done|eauto].
Qed.

Lemma runLength_same refs ph :
  Forall (fun ref => PackHash ref = ph) (take (runLength refs ph) refs) /\ (runLength refs ph <= length refs)%nat.
Proof.
  induction refs as [|ref refs [IH1 IH2]]; cbn; [split; [constructor|lia]|].
  case_decide; cbn; split; [by constructor|lia|constructor|lia].
Qed.

Lemma loadNextRun_verified s r r' :
  loadNextRun s r = (r', Ok tt) ->
  exists k, rManifest r' = rManifest r /\ cursorIdx r' = (cursorIdx r + S k)%nat /\ current r' = current r /\
    queued r' <> [] /\ Forall2 (served s (mTenant (rManifest r))) (take (S k) (drop (cursorIdx r) (Chunks (rManifest r)))) (queued r').
Proof.
  unfold loadNextRun. destruct (drop _ _) as [|ref rest]; [done|]. case_decide as Hv1.
  - cbn [set_cursor rManifest]. destruct (loadStandaloneChunk _ _ _) as [c|] eqn:E; [|done]. intros [= <-].
    exists 0%nat. split_and!; try done; [cbn; lia|].
    constructor; [|constructor]. by apply served_standalone.
  - destruct (loadPackRun _ _ _ _) as [r1 [cs|]] eqn:E; [|done]. intros [= <-].
    apply loadPackRun_verified in E as [Hv (H1 & H2 & H3 & H4)]. cbn in *.
    exists (runLength rest (PackHash ref)). split_and!; try done; [intros ->; inversion Hv|].
    eapply Forall2_impl_l; [exact Hv|]. intros x y Hx Hxy. split; [done|]. intros Hnil.
    apply elem_of_cons in Hx as [->|Hx]; [done|]. pose proof (runLength_same rest (PackHash ref)) as [Hs _].
    rewrite Forall_forall in Hs. by rewrite <- (Hs _ Hx), Hnil in Hv1.
Qed.

Lemma readAllFrom_verified fuel s r sz i r' data :
  readAllFrom fuel s r sz i = (r', Some (Ok data)) ->
  exists chunks, Forall2 (served s (mTenant (rManifest r))) (drop (cursorIdx r) (Chunks (rManifest r))) chunks /\
    data = current r ++ concat (queued r) ++ concat chunks.
Proof.
  revert r i r' data; induction fuel as [|fuel IH]; intros r i r' data; [done|]. cbn.
  assert (Hstep : forall r1 c q, forall r' data,
    (let '(r2, o) := readAllFrom fuel s (set_current r1 (drop (sz i) c) q) sz (S i) in
     match o with
     | Some (Ok rest) => (r2, Some (Ok (take (sz i) c ++ rest)))
     | _ => (r2, o)
     end) = (r', Some (Ok data)) ->
    exists chunks, Forall2 (served s (mTenant (rManifest r1))) (drop (cursorIdx r1) (Chunks (rManifest r1))) chunks /\
      data = c ++ concat q ++ concat chunks).
  { clear r' data. intros r1 c q r' data H.
    destruct (readAllFrom fuel s _ sz (S i)) as [r2 [[rest|]|]] eqn:E; try done. injection H as <- <-.
    apply IH in E as (cs & Hv & ->). exists cs. split; [done|]. cbn. by rewrite !app_assoc, take_drop. }
  unfold Read. destruct (current r) as [|b cur] eqn:Hcur.
  2:{ rewrite <- Hcur. apply (Hstep r). }
  destruct (queued r) as [|c q] eqn:Hq; [|].
  2:{ intros H. apply (Hstep (set_current r c q)) in H as (cs & ? & ->). exists cs. split; [done|].
      cbn. by rewrite !app_assoc. }
  case_decide as Hend.
  { intros [= <- <-]. exists []. rewrite drop_ge by done. by split. }
  destruct (loadNextRun s r) as [r1 [[]|]] eqn:E; [|done].
  apply loadNextRun_verified in E as (k & Hm & Hcu & Hc1 & Hne & Hv).
  destruct (queued r1) as [|c q] eqn:Hq1; [done|]. cbn [current queued set_current]. intros H.
  apply (Hstep (set_current r1 c q)) in H as (cs & Hcs & ->). cbn in Hcs. rewrite Hm, Hcu in Hcs.
  exists ((c :: q) ++ cs). split.
  - rewrite <- (take_drop (S k) (drop _ _)), drop_drop. by apply Forall2_app.
  - cbn. by rewrite concat_app.
Qed.

(** ** Backed references *)

(** [off, off+size) starts and ends on entry boundaries of a per-chunk pack;
    no condition on other packs. *)
Definition pack_aligned (stored : bytes) (off size : Z) : Prop :=
  forall f es, detectPackFraming stored = Ok f -> algo f = packAlgoChunked ->
    parsePackChunkIndex (slice stored packChunkedHeaderLen (bodyBase f)) = Ok es ->
    (exists e, e ∈ es /\ uncOffset e = off) /\ (exists e, e ∈ es /\ uncOffset e + uncSize e = off + size).

Context {L : StorageLaws Sto}.

Definition pack_backed (s : storage) (pid : string) (ref : chunkRef) (chunk : bytes) : Prop :=
  exists stored ts content, blobs s !! pid = Some (stored, ts) /\
    decompressPackBlob stored = Ok content /\ ref_in content ref chunk /\
    pack_aligned stored (Offset ref) (Size ref).

Definition standalone_backed (s : storage) (tenant : string) (ref : chunkRef) (chunk : bytes) : Prop :=
  exists stored ts, blobs s !! chunkBlobID tenant (Hash ref) = Some (stored, ts) /\
    decompressPackBlob stored = Ok chunk /\ len chunk = Size ref.

Definition ref_backed (s : storage) (tenant : string) (ref : chunkRef) (chunk : bytes) : Prop :=
  if decide (PackHash ref = "") then standalone_backed s tenant ref chunk
  else pack_backed s (packBlobID tenant (PackHash ref)) ref chunk.

(** What a cached framing may say about the pack it was probed from. *)
Definition framing_of (stored : bytes) (f : packFraming) : Prop :=
  algo f = forceWholePack \/
  exists f0, detectPackFraming stored = Ok f0 /\
    if decide (algo f0 = packAlgoChunked)
    then exists es, parsePackChunkIndex (slice stored packChunkedHeaderLen (bodyBase f0)) = Ok es /\
         f = PackFraming (algo f0) (contentBase f0) (chunkedCodec f0) (indexLen f0) (bodyBase f0) es
    else f = f0.

Definition cache_ok (s : storage) (fc : gmap string packFraming) : Prop :=
  forall pid f, fc !! pid = Some f -> forall stored ts, blobs s !! pid = Some (stored, ts) -> framing_of stored f.

Lemma cache_ok_empty s : cache_ok s ∅.
Proof. intros pid f H. rewrite lookup_empty in H. discriminate H. Qed.

Definition slot_ok (s : storage) (r : chunkStreamReader) : Prop :=
  forall content, cachedPack r = Some content ->
    exists stored ts, blobs s !! cachedPackID r = Some (stored, ts) /\ decompressPackBlob stored = Ok content.

Definition reader_ok (s : storage) (r : chunkStreamReader) : Prop :=
  cache_ok s (framingByPack r) /\ slot_ok s r.

Section Reliable.
  Context {Claws : CodecLaws} {R : StorageReliable Sto}.

(** A ranged read of an existing blob returns the exact window or is refused
    with an error that says nothing about the blob. *)
Lemma get_window s pid c ts off n :
  blobs s !! pid = Some (c, ts) -> 0 <= n ->
  GetBlob s pid off n = Ok (slice c off (off + n)) \/
  exists e, GetBlob s pid off n = Err e /\ e <> ErrBlobNotFound /\ e <> ErrMissingBlob /\ e <> ErrCorrupt /\
    (0 <= off -> 0 < n -> len c <= off + n).
Proof.
  intros Hb Hn. destruct (GetBlob s pid off n) as [b|e] eqn:G.
  - left. apply get_sound in G as (c' & ts' & Hb' & Hc). rewrite Hb in Hb'. injection Hb' as <- <-.
    destruct Hc as [[? ?]|(? & ? & ? & ->)]; [lia|done].
  - right. exists e. pose proof G as G'. apply get_err_sound in G as (H1 & H2 & H3). split_and!; try done.
    + intros ->. rewrite H1 in Hb; done.
    + intros ? ?. destruct (Z.leb_spec (len c) (off + n)) as [|Hin]; [done|].
      erewrite get_inside in G' by done. done.
Qed.

Lemma probe_ok s pid stored ts content :
  blobs s !! pid = Some (stored, ts) -> decompressPackBlob stored = Ok content -> content <> [] ->
  exists f, probePackFraming s pid = Ok f /\ framing_of stored f.
Proof.
  intros Hb Hd Hne. destruct (decompress_detect _ _ Hd) as [f0 Hf0].
  assert (Hlong : forall head, detectPackFraming head = Ok f0 ->
    exists f, (framing ← detectPackFraming head;
      if negb (bool_decide (algo framing = packAlgoChunked)) then Ok framing
      else if indexLen framing =? 0 then Ok framing
      else match GetBlob s pid packChunkedHeaderLen (indexLen framing) with
      | Err e => Err (missing e)
      | Ok idx => entries ← parsePackChunkIndex idx;
          Ok (PackFraming (algo framing) (contentBase framing) (chunkedCodec framing)
                (indexLen framing) (bodyBase framing) entries)
      end) = Ok f /\ framing_of stored f).
  { intros head ->. cbn. case_bool_decide as Ha; cbn.
    - destruct (chunked_body_nonempty _ _ _ Hd Hf0 Ha Hne) as [Hi Hbb].
      destruct (decompress_chunked_inv _ _ _ Hd Hf0 Ha) as (_ & es & ds & Hp & _ & _ & _).
      destruct (detect_chunked_inv _ _ Hf0 Ha) as (_ & _ & HB & _).
      destruct (Z.eqb_spec (indexLen f0) 0); [lia|].
      erewrite get_inside; [|done|unfold packChunkedHeaderLen, packHeaderLen; lia|lia|lia].
      rewrite <- HB, Hp. cbn. eexists. split; [done|]. right. exists f0. split; [done|].
      rewrite decide_True by done. eauto.
    - exists f0. split; [done|]. right. exists f0. split; [done|]. by rewrite decide_False. }
  unfold probePackFraming.
  destruct (get_window s pid stored ts 0 packChunkedHeaderLen Hb) as [->|(e & -> & He & _ & _ & Hl)];
    [unfold packChunkedHeaderLen, packHeaderLen; lia| |].
  { cbn. rewrite Z.add_0_l. apply Hlong. by rewrite detectPackFraming_prefix. }
  cbn. rewrite decide_False by done.
  destruct (get_window s pid stored ts 0 packHeaderLen Hb) as [->|(e' & -> & He' & _)];
    [unfold packHeaderLen; lia| |].
  - cbn. rewrite Z.add_0_l. apply Hlong. apply detectPackFraming_short; [done|done|].
    intros Ha. destruct (chunked_body_nonempty _ _ _ Hd Hf0 Ha Hne) as [Hi Hbb].
    destruct (detect_chunked_inv _ _ Hf0 Ha) as (_ & _ & HB & _).
    unfold packChunkedHeaderLen, packHeaderLen in *. lia.
  - rewrite decide_False by done. cbn. eexists. split; [done|]. by left.
Qed.

Lemma loadCompressed_ok s r pid stored ts content run chunks :
  reader_ok s r -> blobs s !! pid = Some (stored, ts) -> decompressPackBlob stored = Ok content ->
  Forall2 (ref_in content) run chunks ->
  exists r', loadCompressedPackRun s r pid run = (r', Ok chunks) /\ reader_ok s r' /\ same_position r r'.
Proof.
  intros [Hc Hs] Hb Hd Hr. unfold loadCompressedPackRun.
  erewrite get_whole by done. rewrite Hd, (sliceRun_ok _ _ _ Hr).
  eexists. split; [done|]. split; [|done]. split; [done|].
  intros c [= <-]. cbn. eauto.
Qed.

(** The span of a window on entry boundaries, and what its bytes decode to. *)
Lemma chunked_span_ok stored content f0 es lo hi :
  decompressPackBlob stored = Ok content -> detectPackFraming stored = Ok f0 -> algo f0 = packAlgoChunked ->
  parsePackChunkIndex (slice stored packChunkedHeaderLen (bodyBase f0)) = Ok es ->
  lo < hi -> 0 <= lo -> hi <= len content ->
  (exists e, e ∈ es /\ uncOffset e = lo) -> (exists e, e ∈ es /\ uncOffset e + uncSize e = hi) ->
  let f := PackFraming (algo f0) (contentBase f0) (chunkedCodec f0) (indexLen f0) (bodyBase f0) es in
  exists so sl first lst, chunkedStoredSpan f lo hi = Ok (so, sl, first, lst) /\ 0 < sl /\
    materializeChunkedWindow es first lst (slice stored (bodyBase f0 + so) (bodyBase f0 + so + sl)) so = Ok (slice content lo hi).
Proof.
  intros Hd Hf Ha Hp Hlt Hlo Hhi Hmin Hmax f. pose proof (parsePackChunkIndex_tiled _ _ Hp) as Ht.
  destruct (chunkedStoredSpan_complete f lo hi Ht Hlt Hmin Hmax) as [[[[so sl] first] lst] Hspan].
  destruct (ranged_window stored content f0 es lo hi so sl first lst Hd Hf Ha Hp Hlt Hspan) as [Hle Hm].
  exists so, sl, first, lst. split; [done|]. split; [|done].
  assert (sl <> 0).
  { intros ->. rewrite Z.add_0_r, slice_nil in Hm.
    eapply chunkedStoredSpan_run in Hspan as (pre & rn & post & Hes & Hne & -> & -> & _); [|exact Ht|done].
    cbn in Hes. assert (slice content lo hi = []) as Hnil.
    { eapply materialize_nil; [|exact Hm]. rewrite Hes, drop_app_length.
      replace (length pre + length rn - length pre)%nat with (length rn) by lia.
      rewrite take_app_length. rewrite Hes in Ht. apply tiled_app in Ht as [_ Ht].
      by apply tiled_app in Ht as [Ht _]. }
    apply (f_equal len) in Hnil. rewrite slice_len in Hnil by lia. rewrite len_nil in Hnil. lia. }
  eapply chunkedStoredSpan_run in Hspan as (pre & rn & post & Hes & Hne & Hfst & Hlst & Hso & Hsl & _ & _);
    [|exact Ht|done].
  cbn in Hes. rewrite Hes in Ht. apply tiled_app in Ht as [_ Ht]. apply tiled_app in Ht as [Ht _].
  pose proof (tiled_totals _ _ _ Ht). lia.
Qed.

Lemma loadChunked_ok s pid stored ts content f0 es run chunks lo hi :
  blobs s !! pid = Some (stored, ts) -> decompressPackBlob stored = Ok content ->
  detectPackFraming stored = Ok f0 -> algo f0 = packAlgoChunked ->
  parsePackChunkIndex (slice stored packChunkedHeaderLen (bodyBase f0)) = Ok es ->
  Forall2 (ref_in content) run chunks -> 0 <= lo -> lo < hi -> hi <= len content ->
  Forall (fun ref => lo <= Offset ref /\ Offset ref + Size ref <= hi) run ->
  (exists e, e ∈ es /\ uncOffset e = lo) -> (exists e, e ∈ es /\ uncOffset e + uncSize e = hi) ->
  let f := PackFraming (algo f0) (contentBase f0) (chunkedCodec f0) (indexLen f0) (bodyBase f0) es in
  loadChunkedPackRun s pid f run lo hi = Ok chunks \/
  exists e, loadChunkedPackRun s pid f run lo hi = Err e /\ e <> ErrMissingBlob /\ e <> ErrCorrupt.
Proof.
  intros Hb Hd Hf Ha Hp Hr Hlo Hlt Hhi Hbnd Hmin Hmax f.
  destruct (chunked_span_ok stored content f0 es lo hi) as (so & sl & first & lst & Hspan & Hsl & Hm); [done..|].
  unfold loadChunkedPackRun. fold f in Hspan. rewrite Hspan. cbn. destruct (Z.eqb_spec sl 0); [lia|].
  destruct (get_window s pid stored ts (bodyBase f0 + so) sl Hb) as [->|(e & -> & He & ? & ? & _)]; [lia| |].
  - left. rewrite Hm. cbn. by apply sliceRun_window.
  - right. exists e. unfold missing. rewrite decide_False by done. done.
Qed.

(** The window [loadPackRun] computes, for references that lie in [content]. *)
Lemma run_window content run chunks :
  run <> [] -> Forall2 (ref_in content) run chunks ->
  exists lo hi, minOffset run (match run with [] => 0 | ref :: _ => Offset ref end) = lo /\
    maxEndOf run 0 = hi /\ 0 <= lo /\ lo <= hi /\ hi <= len content /\
    Forall (fun ref => lo <= Offset ref /\ Offset ref + Size ref <= hi) run /\
    (exists ref, ref ∈ run /\ Offset ref = lo) /\
    (0 < hi -> exists ref, ref ∈ run /\ Offset ref + Size ref = hi).
Proof.
  intros Hne Hr. eexists _, _. split; [done|]. split; [done|].
  assert (Hin : Forall (fun ref => 0 <= Offset ref /\ 0 <= Size ref /\ Offset ref + Size ref <= len content) run).
  { apply Forall_forall. intros ref Hx. apply list_elem_of_lookup in Hx as [i Hi].
    destruct (Forall2_lookup_l _ _ _ _ _ Hr Hi) as (c & _ & Hc). destruct Hc as (? & ? & ? & _). auto. }
  destruct run as [|r0 run]; [done|].
  destruct (minOffset_spec (r0 :: run) (Offset r0)) as (M1 & M2 & M3).
  destruct (maxEndOf_spec (r0 :: run) 0) as (X1 & X2 & X3).
  set (lo := minOffset _ _) in *. set (hi := maxEndOf _ _) in *.
  assert (Hmin : exists ref, ref ∈ r0 :: run /\ Offset ref = lo).
  { destruct M3 as [M3|M3]; [exists r0; split; [by left|done]|done]. }
  pose proof Hin as Hin'. apply Forall_cons in Hin' as [H0 _].
  pose proof X2 as X2'. apply Forall_cons in X2' as [Hr0 _].
  rewrite Forall_forall in Hin. rewrite Forall_forall in M2. rewrite Forall_forall in X2.
  split_and!.
  - destruct Hmin as (ref & Hx & <-). by apply Hin.
  - lia.
  - destruct X3 as [->|(ref & Hx & <-)]; [apply len_nonneg|by apply Hin].
  - apply Forall_forall. intros ref Hx. auto.
  - done.
  - intros Hpos. destruct X3 as [X3|X3]; [lia|done].
Qed.

Lemma framingFor_ok s r pid stored ts content :
  reader_ok s r -> blobs s !! pid = Some (stored, ts) -> decompressPackBlob stored = Ok content ->
  content <> [] ->
  exists r' f, framingFor s r pid = (r', Ok f) /\ framing_of stored f /\ reader_ok s r' /\ same_position r r'.
Proof.
  intros [Hc Hs] Hb Hd Hne. unfold framingFor. destruct (framingByPack r !! pid) as [f|] eqn:E.
  - exists r, f. repeat split; eauto.
  - destruct (probe_ok _ _ _ _ _ Hb Hd Hne) as (f & -> & Hf). eexists _, f. split; [done|].
    split; [done|]. split; [|done]. split; [|done]. cbn. intros pid' f' H' st' ts' Hb'.
    apply lookup_insert_Some in H' as [[<- <-]|[? H']]; [|eauto].
    rewrite Hb in Hb'. by injection Hb' as <- <-.
Qed.

(** An uncompressed verdict places the content inside the blob. *)
Lemma framing_none stored content f :
  decompressPackBlob stored = Ok content -> detectPackFraming stored = Ok f -> algo f = CompressNone ->
  content = slice stored (contentBase f) (len stored) /\ 0 <= contentBase f /\ contentBase f <= len stored.
Proof.
  unfold detectPackFraming, decompressPackBlob. intros Hd Hf Ha.
  destruct (hasMagic stored) eqn:Hm; cbn [negb] in *.
  2:{ injection Hf as <-. injection Hd as <-. cbn. rewrite slice_all. pose proof (len_nonneg stored). split_and!; [done|lia|done]. }
  case_decide.
  - destruct (_ <? _); [done|]. destruct (packAlgoFromByte _); [|done].
    destruct (_ || _); [done|]. injection Hf as <-. done.
  - destruct (packAlgoFromByte _) as [a|]; [|done]. injection Hf as <-. cbn in Ha. subst a.
    rewrite decide_True in Hd by done. injection Hd as <-. cbn.
    unfold hasMagic in Hm. apply andb_true_iff in Hm as [Hm _]. apply negb_true_iff, Z.ltb_ge in Hm.
    unfold packHeaderLen in *. split; [done|lia].
Qed.

Lemma loadPackRun_ok s r ph run chunks :
  reader_ok s r -> run <> [] ->
  Forall2 (pack_backed s (packBlobID (mTenant (rManifest r)) ph)) run chunks ->
  exists r', loadPackRun s r ph run = (r', Ok chunks) /\ reader_ok s r' /\ same_position r r'.
Proof.
  intros Hok Hne Hall. set (pid := packBlobID _ ph) in *.
  assert (exists stored ts content, blobs s !! pid = Some (stored, ts) /\ decompressPackBlob stored = Ok content /\
     Forall2 (ref_in content) run chunks /\ Forall (fun ref => pack_aligned stored (Offset ref) (Size ref)) run)
    as (stored & ts & content & Hb & Hd & Hr & Hal).
  { destruct Hall as [|ref c run chunks (stored & ts & content & Hb & Hd & Hr & Ha) Hall]; [done|].
    exists stored, ts, content. split_and!; try done; constructor; try done;
      clear - Hb Hd Hall; induction Hall as [|x y l k (st & t & co & Hb' & Hd' & ? & ?) _ IH];
      constructor; try done; rewrite Hb in Hb'; injection Hb' as <- <-; rewrite Hd in Hd'; by injection Hd' as <-. }
  unfold loadPackRun. fold pid.
  destruct (if decide (cachedPackID r = pid) then cachedPack r else None) as [c|] eqn:Hslot.
  { case_decide as Hpid; [|done]. destruct Hok as [Hc Hs]. destruct (Hs _ Hslot) as (st' & ts' & Hb' & Hd').
    rewrite Hpid, Hb in Hb'. injection Hb' as <- <-. rewrite Hd in Hd'. injection Hd' as <-.
    rewrite (sliceRun_ok _ _ _ Hr). exists r. repeat split; auto. }
  clear Hslot.
  destruct (run_window content run chunks Hne Hr) as (lo & hi & Elo & Ehi & Hlo & Hle & Hhi & Hbnd & Hmin & Hmax).
  rewrite Elo, Ehi. destruct (Z.ltb_spec lo 0); [lia|]. destruct (Z.ltb_spec hi lo); [lia|]. cbn [orb].
  destruct (Z.leb_spec (hi - lo) 0).
  { assert (hi = lo) as -> by lia. rewrite <- (slice_nil content lo).
    rewrite (sliceRun_window content run chunks lo lo) by done. exists r. repeat split; auto; apply Hok. }
  assert (content <> []) by (intros ->; rewrite len_nil in Hhi; lia).
  destruct (framingFor_ok s r pid stored ts content Hok Hb Hd ltac:(done)) as (r1 & f & -> & Hf & Hok1 & Hpos1).
  destruct (loadCompressed_ok s r1 pid stored ts content run chunks Hok1 Hb Hd Hr) as (r2 & Hlc & Hok2 & Hpos2).
  assert (Hpos : same_position r r2) by eauto using same_position_trans.
  destruct Hf as [Hf|(f0 & Hf0 & Hf)]; [rewrite Hf, Hlc; eauto|].
  case_decide as Ha0.
  - destruct Hf as (es & Hp & ->). cbn [algo]. rewrite decide_True by done.
    destruct (loadChunked_ok s pid stored ts content f0 es run chunks lo hi) as [->|(e & -> & ? & ?)]; eauto; try lia.
    + destruct Hmin as (ref & Hin & <-). eapply Forall_forall in Hal; [|done].
      by destruct (Hal _ _ Hf0 Ha0 Hp).
    + destruct (Hmax ltac:(lia)) as (ref & Hin & <-). eapply Forall_forall in Hal; [|done].
      by destruct (Hal _ _ Hf0 Ha0 Hp).
    + rewrite decide_False by naive_solver. rewrite Hlc. eauto.
  - subst f. rewrite decide_False by done. case_bool_decide as Hn; cbn [negb]; [|rewrite Hlc; eauto].
    pose proof (framing_none stored content f0 Hd Hf0 Hn) as Hcontent.
    destruct (get_window s pid stored ts (contentBase f0 + lo) (hi - lo) Hb) as [->|(e & -> & He & _)]; [lia| |].
    + exists r1. split; [|done]. f_equal.
      replace (slice stored (contentBase f0 + lo) (contentBase f0 + lo + (hi - lo))) with (slice content lo hi);
        [by apply sliceRun_window|].
      destruct Hcontent as (-> & ? & ?). rewrite slice_slice; [f_equal; lia|lia..|].
      rewrite slice_len in Hhi; lia.
    + rewrite decide_False by done. rewrite Hlc. eauto.
Qed.

(** ** Completeness *)

(** What the caller is still to receive. *)
Definition pending (s : storage) (r : chunkStreamReader) (data : bytes) : Prop :=
  reader_ok s r /\ exists chunks,
    Forall2 (ref_backed s (mTenant (rManifest r))) (drop (cursorIdx r) (Chunks (rManifest r))) chunks /\
    data = current r ++ concat (queued r) ++ concat chunks.

(** Reads left at most: bytes, plus one per chunk not yet handed out. *)
Definition readsLeft (r : chunkStreamReader) (data : bytes) : nat :=
  length data + length (queued r) + (length (Chunks (rManifest r)) - cursorIdx r).

Lemma loadNextRun_ok s r data :
  pending s r data -> current r = [] -> queued r = [] ->
  (cursorIdx r < length (Chunks (rManifest r)))%nat ->
  exists r', loadNextRun s r = (r', Ok tt) /\ pending s r' data /\ current r' = [] /\ queued r' <> [] /\
    readsLeft r' data = readsLeft r data.
Proof.
  intros [[Hc Hs] (chunks & Hb & ->)] Hcur Hq Hlt. unfold loadNextRun. rewrite Hcur, Hq. cbn [app concat].
  destruct (drop (cursorIdx r) _) as [|ref rest] eqn:Hd.
  { apply (f_equal length) in Hd. rewrite length_drop in Hd. cbn in Hd. lia. }
  assert (Hrest : (length (Chunks (rManifest r)) - cursorIdx r = S (length rest))%nat).
  { apply (f_equal length) in Hd. by rewrite length_drop in Hd. }
  assert (Hadv : forall k r1 q, same_position (set_cursor r (cursorIdx r + S k)) r1 -> reader_ok s r1 ->
    q = take (S k) chunks -> (k <= length rest)%nat ->
    pending s (set_queued r1 q) (concat chunks) /\ current (set_queued r1 q) = [] /\ q <> [] /\
    readsLeft (set_queued r1 q) (concat chunks) = readsLeft r (concat chunks)).
  { intros k r1 q (E1 & E2 & E3 & E4) Hok -> Hk. pose proof (Forall2_length _ _ _ Hb) as Hlen. cbn in Hlen.
    unfold pending, readsLeft. cbn in *. rewrite E1, E2, E3, Hcur, Hq, length_take. cbn [app concat length]. split_and!; try done.
    - exists (drop (S k) chunks). rewrite <- drop_drop, Hd. split; [by apply Forall2_drop|].
      by rewrite <- concat_app, take_drop.
    - by destruct chunks.
    - lia. }
  case_decide as Hv1.
  - inversion Hb as [|? c ? cs Hr Hcs]; subst. unfold ref_backed in Hr. rewrite decide_True in Hr by done.
    destruct Hr as (stored & ts & Hbl & Hde & Hsz). cbn [set_cursor rManifest].
    unfold loadStandaloneChunk. erewrite get_whole by done. rewrite Hde. cbn. rewrite Hsz, Z.eqb_refl. cbn.
    eexists. split; [done|]. apply (Hadv 0%nat); try done; [|cbn; lia].
    by rewrite Nat.add_1_r.
  - destruct (runLength_same rest (PackHash ref)) as [Hrun Hle]. set (n := runLength _ _) in *.
    destruct (loadPackRun_ok s (set_cursor r (cursorIdx r + S n)) (PackHash ref) (ref :: take n rest)
      (take (S n) chunks)) as (r1 & -> & Hok1 & Hp1); [done|done| |].
    { apply (Forall2_take _ _ _ (S n)) in Hb. cbn [take] in Hb. cbn [set_cursor rManifest].
      eapply Forall2_impl_l; [exact Hb|]. intros x y Hx Hxy. unfold ref_backed in Hxy.
      assert (PackHash x = PackHash ref) as Hx'.
      { apply elem_of_cons in Hx as [->|Hx]; [done|]. by eapply Forall_forall in Hrun. }
      rewrite Hx' in Hxy. by rewrite decide_False in Hxy. }
    eexists. split; [done|]. by apply (Hadv n).
Qed.

Lemma Read_ok s r n data :
  pending s r data -> (0 < n)%nat ->
  (exists r', Read s r n = (r', REOF) /\ data = []) \/
  (exists r' b rest, Read s r n = (r', RData b) /\ data = b ++ rest /\ pending s r' rest /\
     (readsLeft r' rest < readsLeft r data)%nat).
Proof.
  intros Hp Hn. unfold Read.
  assert (Hnext : forall r1 c q, pending s r1 data -> current r1 = [] -> queued r1 = c :: q ->
    (readsLeft r1 data <= readsLeft r data)%nat ->
    exists r' b rest, (set_current (set_current r1 c q) (drop n c) q, RData (take n c)) = (r', RData b) /\
      data = b ++ rest /\ pending s r' rest /\ (readsLeft r' rest < readsLeft r data)%nat).
  { intros r1 c q [Hok (cs & Hb & Hdata)] Hc Hq Hle. rewrite Hc, Hq in Hdata. cbn in Hdata.
    eexists _, _, (drop n c ++ concat q ++ concat cs). split; [done|]. split_and!.
    - by rewrite Hdata, !app_assoc, take_drop.
    - split; [done|]. by exists cs.
    - assert (length data = length (take n c) + length (drop n c ++ concat q ++ concat cs))%nat.
      { rewrite Hdata, <- length_app, !app_assoc, take_drop. done. }
      unfold readsLeft in *. cbn in *. rewrite Hq in Hle. cbn in Hle. lia. }
  destruct (current r) as [|b cur] eqn:Hcur.
  2:{ right. destruct Hp as [Hok (cs & Hb & Hdata)]. rewrite Hcur in Hdata.
      eexists _, _, (drop n (b :: cur) ++ concat (queued r) ++ concat cs). split; [done|]. split_and!.
      - by rewrite Hdata, !app_assoc, take_drop.
      - split; [done|]. by exists cs.
      - unfold readsLeft. cbn [set_current queued rManifest cursorIdx].
        rewrite Hdata, !length_app, length_drop. cbn. lia. }
  destruct (queued r) as [|c q] eqn:Hq; [|right; by apply (Hnext r)].
  case_decide as Hend.
  { left. eexists. split; [done|]. destruct Hp as [_ (cs & Hb & ->)]. rewrite drop_ge in Hb by done.
    inversion Hb. by rewrite Hcur, Hq. }
  right. destruct (loadNextRun_ok s r data) as (r1 & -> & Hp1 & Hc1 & Hq1 & Hl); try done; [lia|].
  destruct (queued r1) as [|c q] eqn:Hqq; [done|]. apply (Hnext r1); try done. lia.
Qed.

Lemma readAllFrom_complete fuel s r sz i data :
  pending s r data -> (forall i, 0 < sz i)%nat -> (readsLeft r data < fuel)%nat ->
  exists r', readAllFrom fuel s r sz i = (r', Some (Ok data)).
Proof.
  revert r i data; induction fuel as [|fuel IH]; intros r i data Hp Hsz Hf; [lia|]. cbn.
  destruct (Read_ok s r (sz i) data) as [(r' & -> & ->)|(r' & b & rest & -> & -> & Hp' & Hl)]; eauto.
  destruct (IH r' (S i) rest) as [r2 ->]; [done|done|lia|]. eauto.
Qed.

Lemma newReader_pending s m fc chunks :
  cache_ok s fc -> Forall2 (ref_backed s (mTenant m)) (Chunks m) chunks ->
  pending s (newChunkStreamReader m fc) (concat chunks).
Proof. intros Hc Hb. split; [by split|]. exists chunks. done. Qed.

(** ** A missing blob *)

Definition refBlobID (tenant : string) (ref : chunkRef) : string :=
  if decide (PackHash ref = "") then chunkBlobID tenant (Hash ref) else packBlobID tenant (PackHash ref).

Lemma probe_missing s pid : blobs s !! pid = None -> probePackFraming s pid = Err ErrMissingBlob.
Proof. intros H. unfold probePackFraming. by rewrite get_missing. Qed.

(** A run of non-negative references whose first one is not empty has a
    non-empty window. *)
Lemma run_window_pos ref run :
  Forall (fun ref => 0 <= Offset ref /\ 0 <= Size ref) (ref :: run) -> 0 < Size ref ->
  0 <= minOffset (ref :: run) (Offset ref) < maxEndOf (ref :: run) 0.
Proof.
  intros Hall Hpos. destruct (minOffset_spec (ref :: run) (Offset ref)) as (M1 & M2 & M3).
  destruct (maxEndOf_spec (ref :: run) 0) as (X1 & X2 & X3).
  apply Forall_cons in X2 as [X2 _]. pose proof Hall as Hall'. apply Forall_cons in Hall' as [[H0 _] _].
  rewrite Forall_forall in Hall. set (lo := minOffset _ _) in *. set (hi := maxEndOf _ _) in *.
  split; [|lia]. destruct M3 as [M3|(x & Hx & M3)]; [lia|]. destruct (Hall _ Hx). lia.
Qed.

Lemma loadNextRun_missing s m fc ref rest :
  Chunks m = ref :: rest -> Forall (fun ref => 0 <= Offset ref /\ 0 <= Size ref) (ref :: rest) ->
  0 < Size ref -> fc !! refBlobID (mTenant m) ref = None -> blobs s !! refBlobID (mTenant m) ref = None ->
  (loadNextRun s (newChunkStreamReader m fc)).2 = Err ErrMissingBlob.
Proof.
  intros Hm Hall Hsz Hfc Hb. unfold loadNextRun. cbn. rewrite Hm. cbn. unfold refBlobID in *. case_decide.
  { unfold loadStandaloneChunk. by rewrite get_missing. }
  unfold loadPackRun. cbn [set_cursor rManifest cachedPackID cachedPack newChunkStreamReader].
  replace (if decide _ then None else None) with (@None bytes) by by case_decide.
  destruct (run_window_pos ref (take (runLength rest (PackHash ref)) rest)) as [Hlo Hlt].
  { apply Forall_cons in Hall as [? Hall]. constructor; [done|]. by apply Forall_take. }
  { done. }
  set (lo := minOffset _ _) in *. set (hi := maxEndOf _ _) in *.
  destruct (Z.ltb_spec lo 0); [lia|]. destruct (Z.ltb_spec hi lo); [lia|]. cbn [orb].
  destruct (Z.leb_spec (hi - lo) 0); [lia|].
  unfold framingFor. cbn. by rewrite Hfc, probe_missing.
Qed.

(** Reading is complete.  If every reference of a manifest is backed by a
    stored pack (or v1 chunk blob) that decodes to the promised bytes, then on
    a backend that is up, draining the reader yields exactly the chunks'
    concatenation, whatever positive buffer sizes the caller reads with, and
    even though ranged reads touching the end of a blob may be refused; bytes
    plus chunks bound the number of reads. *)
Theorem chunked_read_complete s m fc chunks sz fuel :
  cache_ok s fc -> Forall2 (ref_backed s (mTenant m)) (Chunks m) chunks ->
  (forall i, 0 < sz i)%nat -> (length (concat chunks) + length (Chunks m) < fuel)%nat ->
  exists r', readAllFrom fuel s (newChunkStreamReader m fc) sz 0 = (r', Some (Ok (concat chunks))).
Proof.
  intros Hc Hb Hsz Hf. eapply readAllFrom_complete; [by apply newReader_pending|done|].
  unfold readsLeft. cbn. lia.
Qed.

(** A manifest whose first blob is gone is reported as
    [ErrMissingBlob] (integrity kind "not_found"), never as corruption and
    never as silently short data. *)
Theorem chunked_read_missing s m fc ref rest n :
  Chunks m = ref :: rest -> Forall (fun ref => 0 <= Offset ref /\ 0 <= Size ref) (Chunks m) ->
  0 < Size ref -> fc !! refBlobID (mTenant m) ref = None -> blobs s !! refBlobID (mTenant m) ref = None ->
  exists r' e, Read s (newChunkStreamReader m fc) n = (r', RFail e) /\ e = ErrMissingBlob /\
    IntegrityKind e = "not_found".
Proof.
  intros Hm Hall ? ? ?. rewrite Hm in Hall. unfold Read. cbn.
  rewrite decide_False by (rewrite Hm; cbn; lia).
  pose proof (loadNextRun_missing s m fc ref rest) as Hmiss.
  destruct (loadNextRun s _) as [r1 o]. cbn in Hmiss. rewrite Hmiss by done. eauto.
Qed.

End Reliable.

(** Integrity of what is delivered, with no assumption on the backend
    (it may return anything): if draining a reader succeeds, the data is the
    concatenation of one chunk per reference, each of the manifest's size, and
    each pack chunk hashing to the manifest's content hash. *)
Theorem chunked_read_verified fuel s m fc sz r' data :
  readAllFrom fuel s (newChunkStreamReader m fc) sz 0 = (r', Some (Ok data)) ->
  exists chunks, Forall2 verified (Chunks m) chunks /\ data = concat chunks.
Proof.
  intros H. apply readAllFrom_verified in H as (cs & Hv & ->). exists cs. split; [|done].
  eapply Forall2_impl; [exact Hv|]. by intros ? ? [? _].
Qed.

End Reader.

(** ** Witnesses *)

(** A per-chunk pack with two chunks, and a v1 chunk blob. *)
Definition ex_c1 : bytes := replicate 20 Byte.x61.
Definition ex_c2 : bytes := [Byte.x62; Byte.x63].
Definition ex_c3 : bytes := [Byte.x64].
Definition ex_packHash : string := sha256_hex ex_raw.
Definition ex_refs : list chunkRef :=
  [MkRef (sha256_hex ex_c1) ex_packHash 0 20; MkRef (sha256_hex ex_c2) ex_packHash 20 2;
   MkRef (sha256_hex ex_c3) "" 0 1].
Definition ex_manifest : chunkManifest := MkManifest manifestFormatV2 23 "t" ex_refs.
Definition ex_store : @storage mem_storage :=
  Mem (<[packBlobID "t" ex_packHash := (ex_blob, 1)]>
       (<[chunkBlobID "t" (sha256_hex ex_c3) := (ex_c3, 2)]> ∅)) 3.

Lemma ex_aligned : pack_aligned ex_blob 0 20 /\ pack_aligned ex_blob 20 2.
Proof.
  assert (H : forall f es, detectPackFraming ex_blob = Ok f ->
    parsePackChunkIndex (slice ex_blob packChunkedHeaderLen (bodyBase f)) = Ok es -> es = ex_entries).
  { intros f es Hf. assert (f = ex_framing) as -> by (vm_compute in Hf; by injection Hf). vm_compute. congruence. }
  split; intros f es Hf _ Hp; rewrite (H f es Hf Hp); split; eexists; vm_compute.
  all: try (split; [left|reflexivity]). all: split; [right; left|reflexivity].
Qed.

Lemma ex_backed : Forall2 (ref_backed ex_store "t") ex_refs [ex_c1; ex_c2; ex_c3].
Proof.
  pose proof ex_aligned as [A1 A2].
  assert (Hb : blobs ex_store !! packBlobID "t" ex_packHash = Some (ex_blob, 1)) by (vm_compute; reflexivity).
  assert (Hd : decompressPackBlob ex_blob = Ok ex_raw) by (vm_compute; reflexivity).
  assert (Hph : ex_packHash <> "") by (intros E; vm_compute in E; discriminate).
  constructor; [|constructor; [|constructor; [|constructor]]]; unfold ref_backed; cbn [PackHash].
  1,2: rewrite decide_False by exact Hph; exists ex_blob, 1, ex_raw; split; [exact Hb|]; split; [exact Hd|].
  1,2: split; [split_and!; vm_compute; solve [reflexivity|discriminate]|assumption].
  exists ex_c3, 2. split_and!; vm_compute; reflexivity.
Qed.

Lemma chunked_read_complete_witness :
  exists r', readAllFrom 27 ex_store (newChunkStreamReader ex_manifest ∅) (fun i => S i) 0
    = (r', Some (Ok (concat [ex_c1; ex_c2; ex_c3]))).
Proof.
  apply (chunked_read_complete ex_store ex_manifest ∅ [ex_c1; ex_c2; ex_c3]).
  - apply cache_ok_empty.
  - apply ex_backed.
  - intros; lia.
  - vm_compute; lia.
Defined.

Lemma chunked_read_missing_witness :
  exists r' e, Read (Sto := mem_storage) (Mem ∅ 0) (newChunkStreamReader ex_manifest ∅) 5 = (r', RFail e) /\ e = ErrMissingBlob /\
    IntegrityKind e = "not_found".
Proof.
  eapply (chunked_read_missing (Sto := mem_storage) (Mem ∅ 0) ex_manifest ∅); [reflexivity| |vm_compute; reflexivity..].
  repeat constructor; vm_compute; discriminate.
Defined.

Lemma chunked_read_verified_witness :
  exists chunks, Forall2 verified ex_refs chunks /\ ex_c1 ++ ex_c2 ++ ex_c3 = concat chunks.
Proof.
  eapply (chunked_read_verified 27 ex_store ex_manifest ∅ (fun i => S i)). vm_compute. reflexivity.
Defined.
