(* ===== verification/SnapStore.v ===== *)
(** The snapshot store interface (casstore/snapshot/store.go) and version
    strings (casstore/snapshot/version.go).

    [SnapshotStore] is where manifests live.  A stored payload is read through
    an [io.ReadCloser], so [Get] and [GetLatest] return the outcome of draining
    it.  [SnapshotStoreLaws] states the interface's contract about calls that
    return; any call may fail.  "Latest" is the greatest version string.

    [NewVersion] generates those strings.  Its comment claims lexicographic
    order equals time order; that holds for equally long fractions of a second
    and fails otherwise, because the RFC 3339 layout it uses drops trailing
    zeros. *)

From S2P Require Import Prelude GoStrings Sha256 Manifest.
From Stdlib Require Import Ascii.

Class SnapshotStore := {
  sstore : Type;
  sPut : sstore -> SnapshotKey -> SnapshotMetadata -> bytes -> sstore * result SnapshotMetadata;
  sGet : sstore -> SnapshotKey -> string -> result (result bytes * SnapshotMetadata);
  sGetLatest : sstore -> SnapshotKey -> result (result bytes * SnapshotMetadata);
  sGetLatestMetadata : sstore -> SnapshotKey -> result SnapshotMetadata;
  sList : sstore -> SnapshotKey -> result (list SnapshotMetadata);
  sDelete : sstore -> SnapshotKey -> string -> sstore * result unit;
  sWalk : sstore -> list (SnapshotKey * string * SnapshotMetadata) * option err;
}.

Class SnapshotStoreLaws (U : SnapshotStore) := {
  snaps : sstore -> gmap (SnapshotKey * string) (bytes * SnapshotMetadata);
  sput_ok : forall u k md b u' md', sPut u k md b = (u', Ok md') ->
    snaps u !! (k, Version md') = None /\ snaps u' = <[(k, Version md') := (b, md')]> (snaps u) /\
    mKey md' = k /\ mFormat md' = mFormat md /\ Tags md' = Tags md;
  sput_err : forall u k md b u' e, sPut u k md b = (u', Err e) -> snaps u' = snaps u;
  sget_sound : forall u k v rb md, sGet u k v = Ok (rb, md) ->
    exists b, snaps u !! (k, v) = Some (b, md) /\ (rb = Ok b \/ exists e, rb = Err e);
  slatest_sound : forall u k rb md, sGetLatest u k = Ok (rb, md) ->
    exists b, snaps u !! (k, Version md) = Some (b, md) /\ (rb = Ok b \/ exists e, rb = Err e) /\
      forall v, is_Some (snaps u !! (k, v)) -> str_ltb (Version md) v = false;
  slatestmd_sound : forall u k md, sGetLatestMetadata u k = Ok md ->
    exists b, snaps u !! (k, Version md) = Some (b, md) /\
      forall v, is_Some (snaps u !! (k, v)) -> str_ltb (Version md) v = false;
  sdelete_ok : forall u k v u', sDelete u k v = (u', Ok tt) -> snaps u' = delete (k, v) (snaps u);
  sdelete_err : forall u k v u' e, sDelete u k v = (u', Err e) ->
    snaps u' = snaps u \/ snaps u' = delete (k, v) (snaps u);
  swalk_sound : forall u l, sWalk u = (l, None) ->
    forall k v md, (k, v, md) ∈ l <-> exists b, snaps u !! (k, v) = Some (b, md);
  slist_sound : forall u k l, sList u k = Ok l ->
    forall v, v ∈ (Version <$> l) <-> is_Some (snaps u !! (k, v));
}.

(** What is stored can be read. *)
Class SnapshotStoreReadable (U : SnapshotStore) `{!SnapshotStoreLaws U} : Prop := {
  sget_total : forall u k v b md, snaps u !! (k, v) = Some (b, md) -> sGet u k v = Ok (Ok b, md);
  slatest_total : forall u k v, is_Some (snaps u !! (k, v)) -> exists b md, sGetLatest u k = Ok (Ok b, md);
  slatest_none : forall u k, (forall v, snaps u !! (k, v) = None) -> sGetLatest u k = Err ErrNoSnapshot;
  slatestmd_none : forall u k, (forall v, snaps u !! (k, v) = None) -> sGetLatestMetadata u k = Err ErrNoSnapshot;
  slatestmd_total : forall u k v, is_Some (snaps u !! (k, v)) -> is_ok (sGetLatestMetadata u k) = true;
}.

(** The store is up. *)
Class SnapshotStoreReliable (U : SnapshotStore) `{!SnapshotStoreLaws U} : Prop := {
  reliable_readable :: SnapshotStoreReadable U;
  sput_total : forall u k md b, is_ok (sPut u k md b).2 = true;
}.

(** A version above every version the key has. *)
Definition newest {U : SnapshotStore} {SL : SnapshotStoreLaws U} (u : sstore) (k : SnapshotKey) (v : string) : Prop :=
  forall v', is_Some (snaps u !! (k, v')) -> str_ltb v' v = true.

(** The latest snapshot after a put whose version is the newest. *)
Lemma latest_after_put {U : SnapshotStore} {SL : SnapshotStoreLaws U} {SR : SnapshotStoreReadable U} u k md b u' md' :
  sPut u k md b = (u', Ok md') -> newest u k (Version md') -> sGetLatest u' k = Ok (Ok b, md').
Proof.
  intros Hp Hn. apply sput_ok in Hp as (Hnone & Hs & Hk & _).
  assert (Hin : snaps u' !! (k, Version md') = Some (b, md')) by (by rewrite Hs, lookup_insert_eq).
  destruct (slatest_total u' k (Version md')) as (b2 & md2 & Hl); [by rewrite Hin|].
  rewrite Hl. apply slatest_sound in Hl as (b3 & Hb3 & [[= <-]|[e ?]] & Hmax); [|done].
  specialize (Hmax (Version md')). rewrite Hin in Hmax. specialize (Hmax ltac:(done)).
  rewrite Hs in Hb3. apply lookup_insert_Some in Hb3 as [[[= Hv] [= -> <-]]|[_ Hb3]]; [done|].
  rewrite (Hn (Version md2)) in Hmax; [done|by rewrite Hb3].
Qed.

(** ** Version strings *)

(** Broken-down UTC time, as [time.Now().UTC()] formats it. *)
Record utcTime := UTC { tYear : Z; tMonth : Z; tDay : Z; tHour : Z; tMin : Z; tSec : Z; tNano : Z }.

Definition zeroChar : ascii := "0"%char.

(** Fractional seconds under the layout ".999999999": trailing zeros dropped,
    nothing at all when zero. *)
Fixpoint trimZeros (l : list ascii) : list ascii :=
  match l with
  | [] => []
  | c :: l => match trimZeros l with
              | [] => if decide (c = zeroChar) then [] else [c]
              | l' => c :: l'
              end
  end.

Definition fraction (nano : Z) : string :=
  match trimZeros (chars (digits 9 nano)) with
  | [] => ""
  | l => "." +:+ of_chars l
  end.

(** [t.Format(time.RFC3339Nano)] for UTC times with a four-digit year. *)
Definition rfc3339Nano (t : utcTime) : string :=
  digits 4 (tYear t) +:+ "-" +:+ digits 2 (tMonth t) +:+ "-" +:+ digits 2 (tDay t) +:+ "T" +:+
  digits 2 (tHour t) +:+ ":" +:+ digits 2 (tMin t) +:+ ":" +:+ digits 2 (tSec t) +:+
  fraction (tNano t) +:+ "Z".

(** The clock and the random suffix are inputs. *)
Definition NewVersion (t : utcTime) (buf : bytes) : string :=
  rfc3339Nano t +:+ "-" +:+ hex_encode buf.

Definition time_ltb (a b : utcTime) : bool :=
  let go := fix go (l k : list Z) := match l, k with
    | x :: l, y :: k => if x <? y then true else if y <? x then false else go l k
    | _, _ => false
    end in
  go [tYear a; tMonth a; tDay a; tHour a; tMin a; tSec a; tNano a]
     [tYear b; tMonth b; tDay b; tHour b; tMin b; tSec b; tNano b].

(** ** A store in memory, for evaluation *)

Record memSnaps := MkSnaps { snapMap : gmap (SnapshotKey * string) (bytes * SnapshotMetadata) }.

Definition stamp (k : SnapshotKey) (v : string) (md : SnapshotMetadata) : SnapshotMetadata :=
  MkMeta k v (CreatedAt md) (SizeBytes md) (Runtime md) (mFormat md) (Tags md).

Definition stampEntry (kv : SnapshotKey * string) (x : bytes * SnapshotMetadata)
  : option (bytes * SnapshotMetadata) := Some (x.1, stamp kv.1 kv.2 x.2).

Definition memSnapsView (u : memSnaps) : gmap (SnapshotKey * string) (bytes * SnapshotMetadata) :=
  map_imap stampEntry (snapMap u).

(** A version longer than every version present. *)
Definition freshVersion (u : memSnaps) : string :=
  of_chars (replicate (S (foldr Nat.max 0%nat ((fun x => String.length x.1.2) <$> map_to_list (snapMap u)))) "v"%char).

Definition versionsOf (u : memSnaps) (k : SnapshotKey) : list string :=
  snd <$> (fst <$> filter (fun x => x.1.1 = k) (map_to_list (snapMap u))).

Definition strMax (a b : string) : string := if str_ltb a b then b else a.

Definition memSnapGet (u : memSnaps) (k : SnapshotKey) (v : string) : result (result bytes * SnapshotMetadata) :=
  match memSnapsView u !! (k, v) with
  | None => Err ErrNoSnapshot
  | Some (b, md) => Ok (Ok b, md)
  end.

Definition memSnapLatest (u : memSnaps) (k : SnapshotKey) : result (result bytes * SnapshotMetadata) :=
  match versionsOf u k with
  | [] => Err ErrNoSnapshot
  | v :: vs => memSnapGet u k (foldl strMax v vs)
  end.

#[export] Instance mem_snaps : SnapshotStore := {|
  sstore := memSnaps;
  sPut := fun u k md b =>
    let v := freshVersion u in
    let md' := MkMeta k v (CreatedAt md) (len b) (Runtime md) (mFormat md) (Tags md) in
    (MkSnaps (<[(k, v) := (b, md')]> (snapMap u)), Ok md');
  sGet := memSnapGet;
  sGetLatest := memSnapLatest;
  sGetLatestMetadata := fun u k => x ← memSnapLatest u k; Ok x.2;
  sList := fun u k => Ok (omap (fun v => snd <$> memSnapsView u !! (k, v)) (versionsOf u k));
  sDelete := fun u k v => (MkSnaps (delete (k, v) (snapMap u)), Ok tt);
  sWalk := fun u => ((fun x => (x.1.1, x.1.2, x.2.2)) <$> map_to_list (memSnapsView u), None);
|}.

Lemma memSnapsView_lookup u k v :
  memSnapsView u !! (k, v) = (fun x => (x.1, stamp k v x.2)) <$> snapMap u !! (k, v).
Proof. unfold memSnapsView. rewrite map_lookup_imap. by destruct (snapMap u !! (k, v)). Qed.

Lemma memSnaps_empty kv : memSnapsView (MkSnaps ∅) !! kv = None.
Proof. destruct kv. rewrite memSnapsView_lookup. cbn. by rewrite lookup_empty. Qed.

Lemma foldr_max_le (l : list nat) x : x ∈ l -> (x <= foldr Nat.max 0 l)%nat.
Proof. induction l as [|y l IH]; [set_solver|]. intros [->|Hx]%elem_of_cons; cbn; [lia|]. specialize (IH Hx). lia. Qed.

Lemma freshVersion_fresh u k : snapMap u !! (k, freshVersion u) = None.
Proof.
  destruct (snapMap u !! (k, freshVersion u)) as [x|] eqn:E; [|done].
  apply elem_of_map_to_list in E.
  assert (Hin : String.length (freshVersion u) ∈ (fun x : SnapshotKey * string * (bytes * SnapshotMetadata) => String.length x.1.2) <$> map_to_list (snapMap u)).
  { apply list_elem_of_fmap. by exists (k, freshVersion u, x). }
  apply foldr_max_le in Hin. unfold freshVersion in Hin at 1. rewrite length_of_chars, length_replicate in Hin. lia.
Qed.

Lemma versionsOf_in u k v : v ∈ versionsOf u k <-> is_Some (snapMap u !! (k, v)).
Proof.
  unfold versionsOf. rewrite list_elem_of_fmap. split.
  - intros ([k' v'] & -> & H). apply list_elem_of_fmap in H as ([[k2 v2] x] & [= -> ->] & H).
    apply list_elem_of_filter in H as [Hk H]. cbn in *. subst. apply elem_of_map_to_list in H. by rewrite H.
  - intros [x Hx]. exists (k, v). split; [done|]. apply list_elem_of_fmap. exists (k, v, x). split; [done|].
    apply list_elem_of_filter. split; [done|]. by apply elem_of_map_to_list.
Qed.

Lemma foldl_strMax v vs :
  foldl strMax v vs ∈ v :: vs /\ forall w, w ∈ v :: vs -> str_ltb (foldl strMax v vs) w = false.
Proof.
  revert v; induction vs as [|x vs IH]; intros v; cbn [foldl].
  - split; [by left|]. intros w Hw. apply list_elem_of_singleton in Hw as ->. apply str_ltb_irrefl.
  - destruct (IH (strMax v x)) as [H1 H2]. split.
    + apply elem_of_cons in H1 as [H1|H1]; [|by right; right]. rewrite H1. unfold strMax. destruct (str_ltb v x); [by right; left|by left].
    + set (m := foldl strMax (strMax v x) vs) in *.
      assert (Hm : forall w, w = v \/ w = x -> str_ltb m w = false).
      { intros w Hw. pose proof (H2 (strMax v x) ltac:(by left)) as Hs. unfold strMax in Hs.
        destruct (str_ltb v x) eqn:E; destruct Hw as [->| ->]; try done.
        - destruct (str_ltb m v) eqn:E2; [|done]. by rewrite (str_ltb_trans m v x) in Hs.
        - destruct (str_ltb m x) eqn:E2; [|done]. destruct (str_ltb x v) eqn:E3; [by rewrite (str_ltb_trans m x v) in Hs|].
          rewrite (str_ltb_total v x E E3) in Hs. congruence. }
      intros w Hw. apply elem_of_cons in Hw as [->|Hw]; [by apply Hm; left|].
      apply elem_of_cons in Hw as [->|Hw]; [by apply Hm; right|]. apply H2. by right.
Qed.

Lemma memSnapLatest_spec u k :
  (versionsOf u k = [] /\ memSnapLatest u k = Err ErrNoSnapshot) \/
  exists v x, snapMap u !! (k, v) = Some x /\ memSnapLatest u k = Ok (Ok x.1, stamp k v x.2) /\
    forall w, is_Some (snapMap u !! (k, w)) -> str_ltb v w = false.
Proof.
  unfold memSnapLatest. destruct (versionsOf u k) as [|v vs] eqn:E; [by left|]. right.
  destruct (foldl_strMax v vs) as [H1 H2]. rewrite <- E in H1, H2. apply versionsOf_in in H1 as [x Hx].
  exists (foldl strMax v vs), x. split; [done|]. unfold memSnapGet. rewrite memSnapsView_lookup, Hx. cbn.
  split; [done|]. intros w Hw. by apply H2, versionsOf_in.
Qed.

#[export] Instance mem_snaps_laws : SnapshotStoreLaws mem_snaps.
Proof.
  refine {| snaps := memSnapsView : @sstore mem_snaps -> _ |}; cbn -[freshVersion].
  - intros u k md b u' md' [= <- <-]. cbn -[freshVersion]. split_and!; try done.
    + by rewrite memSnapsView_lookup, freshVersion_fresh.
    + apply map_eq. intros [k' v']. rewrite memSnapsView_lookup. cbn -[freshVersion].
      destruct (decide ((k', v') = (k, freshVersion u))) as [[= -> ->]|]; [by rewrite !lookup_insert_eq|].
      by rewrite !lookup_insert_ne, memSnapsView_lookup by done.
  - done.
  - intros u k v rb md. unfold memSnapGet. destruct (memSnapsView u !! (k, v)) as [[b md']|]; [|done].
    intros [= <- <-]. eauto.
  - intros u k rb md H. destruct (memSnapLatest_spec u k) as [[_ H']|(v & x & Hx & H' & Hmax)]; rewrite H' in H; [done|].
    injection H as <- <-. exists x.1. rewrite memSnapsView_lookup. cbn. rewrite Hx. split_and!; [done|by left|].
    intros w [y Hw]. rewrite memSnapsView_lookup in Hw. apply Hmax. destruct (snapMap u !! (k, w)); [done|done].
  - intros u k md H. destruct (memSnapLatest_spec u k) as [[_ H']|(v & x & Hx & H' & Hmax)]; rewrite H' in H; [done|].
    injection H as <-. exists x.1. rewrite memSnapsView_lookup. cbn. rewrite Hx. split; [done|].
    intros w [y Hw]. rewrite memSnapsView_lookup in Hw. apply Hmax. destruct (snapMap u !! (k, w)); [done|done].
  - intros u k v u' [= <-]. apply map_eq. intros [k' v']. rewrite memSnapsView_lookup. cbn.
    destruct (decide ((k', v') = (k, v))) as [[= -> ->]|]; [by rewrite !lookup_delete_eq|].
    by rewrite !lookup_delete_ne, memSnapsView_lookup by done.
  - done.
  - intros u l [= <-] k v md. rewrite list_elem_of_fmap. split.
    + intros ([[k' v'] [b md']] & [= -> -> ->] & H). apply elem_of_map_to_list in H. eauto.
    + intros [b H]. exists (k, v, (b, md)). split; [done|]. by apply elem_of_map_to_list.
  - intros u k l [= <-] v. rewrite list_elem_of_fmap. split.
    + intros (md & -> & H). apply list_elem_of_omap in H as (w & _ & H). rewrite memSnapsView_lookup in *.
      destruct (snapMap u !! (k, w)) as [x|] eqn:E; [|done]. injection H as <-. cbn. by rewrite E.
    + intros [[b md] H]. pose proof H as H'. rewrite memSnapsView_lookup in H'.
      destruct (snapMap u !! (k, v)) as [x|] eqn:E; [|done]. injection H' as <- <-. eexists. split; [|apply list_elem_of_omap].
      2:{ exists v. split; [by apply versionsOf_in; rewrite E|]. by rewrite H. }
      done.
Defined.

#[export] Instance mem_snaps_readable : SnapshotStoreReadable mem_snaps.
Proof.
  split; cbn -[freshVersion].
  - intros u k v b md H. unfold memSnapGet. by rewrite H.
  - intros u k v [y Hy]. rewrite memSnapsView_lookup in Hy. destruct (snapMap u !! (k, v)) eqn:E; [|done].
    destruct (memSnapLatest_spec u k) as [[Hn _]|(w & x & _ & H & _)]; [|eauto].
    assert (v ∈ versionsOf u k) as Hv by (apply versionsOf_in; by rewrite E). rewrite Hn in Hv. by apply elem_of_nil in Hv.
  - intros u k H. destruct (memSnapLatest_spec u k) as [[_ ?]|(w & x & Hx & _)]; [done|].
    specialize (H w). rewrite memSnapsView_lookup, Hx in H. done.
  - intros u k H. destruct (memSnapLatest_spec u k) as [[_ ->]|(w & x & Hx & _)]; [done|].
    specialize (H w). rewrite memSnapsView_lookup, Hx in H. done.
  - intros u k v [y Hy]. rewrite memSnapsView_lookup in Hy. destruct (snapMap u !! (k, v)) eqn:E; [|done].
    destruct (memSnapLatest_spec u k) as [[Hn _]|(w & x & _ & H & _)]; [|by rewrite H].
    assert (v ∈ versionsOf u k) as Hv by (apply versionsOf_in; by rewrite E). rewrite Hn in Hv. by apply elem_of_nil in Hv.
Qed.

#[export] Instance mem_snaps_reliable : SnapshotStoreReliable mem_snaps.
Proof. split; [apply _|done]. Qed.

(** *** A manifest codec that inverts, for evaluation *)

Definition char_byte (c : ascii) : byte := Z_byte (Z.of_N (N_of_ascii c)).
Definition byte_char (b : byte) : ascii := ascii_of_N (Z.to_N (byte_Z b)).

Fixpoint enc_str (s : string) : bytes :=
  match s with
  | String.EmptyString => [Byte.x00]
  | String.String c s => Byte.x01 :: char_byte c :: enc_str s
  end.
Fixpoint dec_str (b : bytes) : option (string * bytes) :=
  match b with
  | Byte.x00 :: b => Some ("", b)
  | Byte.x01 :: c :: b => '(s, r) ← dec_str b; Some (String.String (byte_char c) s, r)
  | _ => None
  end.

Fixpoint enc_pos (p : positive) : bytes :=
  match p with xH => [Byte.x02] | xO p => Byte.x00 :: enc_pos p | xI p => Byte.x01 :: enc_pos p end.
Fixpoint dec_pos (b : bytes) : option (positive * bytes) :=
  match b with
  | Byte.x02 :: b => Some (xH, b)
  | Byte.x00 :: b => '(p, r) ← dec_pos b; Some (xO p, r)
  | Byte.x01 :: b => '(p, r) ← dec_pos b; Some (xI p, r)
  | _ => None
  end.

Definition enc_Z (z : Z) : bytes :=
  match z with Z0 => [Byte.x00] | Zpos p => Byte.x01 :: enc_pos p | Zneg p => Byte.x02 :: enc_pos p end.
Definition dec_Z (b : bytes) : option (Z * bytes) :=
  match b with
  | Byte.x00 :: b => Some (0, b)
  | Byte.x01 :: b => '(p, r) ← dec_pos b; Some (Zpos p, r)
  | Byte.x02 :: b => '(p, r) ← dec_pos b; Some (Zneg p, r)
  | _ => None
  end.

Definition enc_ref (r : chunkRef) : bytes :=
  enc_str (Hash r) ++ enc_str (PackHash r) ++ enc_Z (Offset r) ++ enc_Z (Size r).
Definition dec_ref (b : bytes) : option (chunkRef * bytes) :=
  '(h, b) ← dec_str b; '(p, b) ← dec_str b; '(o, b) ← dec_Z b; '(z, b) ← dec_Z b; Some (MkRef h p o z, b).

Fixpoint dec_refs (fuel : nat) (b : bytes) : option (list chunkRef) :=
  match fuel with
  | O => None
  | S fuel => match b with
              | [] => Some []
              | _ => '(r, b) ← dec_ref b; rs ← dec_refs fuel b; Some (r :: rs)
              end
  end.

(** Pairs of strings, for the tags of metadata. *)
Definition enc_pair (x : string * string) : bytes := enc_str x.1 ++ enc_str x.2.

Fixpoint dec_pairs (fuel : nat) (b : bytes) : option (list (string * string)) :=
  match fuel with
  | O => None
  | S fuel => match b with
              | [] => Some []
              | _ => '(k, b) ← dec_str b; '(v, b) ← dec_str b; l ← dec_pairs fuel b; Some ((k, v) :: l)
              end
  end.

#[export] Instance ref_json : ManifestCodec := {|
  json_Marshal := fun m =>
    enc_str (Format m) ++ enc_Z (TotalSize m) ++ enc_str (mTenant m) ++ concat (enc_ref <$> Chunks m);
  json_Unmarshal := fun b =>
    '(f, b) ← dec_str b; '(t, b) ← dec_Z b; '(d, b) ← dec_str b;
    rs ← dec_refs (S (length b)) b; Some (MkManifest f t d rs);
|}.

Lemma byte_char_of c : byte_char (char_byte c) = c.
Proof. destruct c as [[] [] [] [] [] [] [] []]; vm_compute; reflexivity. Qed.

Lemma dec_str_enc s r : dec_str (enc_str s ++ r) = Some (s, r).
Proof. induction s as [|c s IH]; cbn -[byte_char char_byte]; [done|]. by rewrite IH, byte_char_of. Qed.

Lemma dec_pos_enc p r : dec_pos (enc_pos p ++ r) = Some (p, r).
Proof. induction p as [p IH|p IH|]; cbn; by rewrite ?IH. Qed.

Lemma dec_Z_enc z r : dec_Z (enc_Z z ++ r) = Some (z, r).
Proof. destruct z; cbn; by rewrite ?dec_pos_enc. Qed.

Lemma dec_ref_enc x r : dec_ref (enc_ref x ++ r) = Some (x, r).
Proof.
  unfold dec_ref, enc_ref. rewrite <- !app_assoc. do 2 (rewrite dec_str_enc; cbn). do 2 (rewrite dec_Z_enc; cbn).
  by destruct x.
Qed.

Lemma enc_ref_cons x : exists b l, enc_ref x = b :: l.
Proof. unfold enc_ref. destruct (Hash x); cbn; eauto. Qed.

Lemma dec_refs_enc l fuel : (length (concat (enc_ref <$> l)) < fuel)%nat -> dec_refs fuel (concat (enc_ref <$> l)) = Some l.
Proof.
  revert l; induction fuel as [|fuel IH]; intros [|x l] Hf; [cbn in Hf; lia|lia|done|].
  change (concat (enc_ref <$> x :: l)) with (enc_ref x ++ concat (enc_ref <$> l)) in *.
  destruct (enc_ref_cons x) as (b & t & E). rewrite length_app, E in Hf. cbn [length] in Hf.
  pose proof (dec_ref_enc x (concat (enc_ref <$> l))) as Hd. rewrite E in *. cbn [app dec_refs] in *. rewrite Hd.
  cbn [mbind option_bind]. rewrite IH; [done|]. lia.
Qed.

Lemma enc_pair_cons x : exists b l, enc_pair x = b :: l.
Proof. unfold enc_pair. destruct x as [[|c k] v]; cbn; eauto. Qed.

Lemma dec_pairs_enc l fuel : (length (concat (enc_pair <$> l)) < fuel)%nat -> dec_pairs fuel (concat (enc_pair <$> l)) = Some l.
Proof.
  revert l; induction fuel as [|fuel IH]; intros [|[k v] l] Hf; [cbn in Hf; lia|lia|done|].
  change (concat (enc_pair <$> (k, v) :: l)) with (enc_pair (k, v) ++ concat (enc_pair <$> l)) in *.
  destruct (enc_pair_cons (k, v)) as (b & t & E). rewrite length_app, E in Hf. cbn [length] in Hf.
  assert (Hd : dec_str (enc_pair (k, v) ++ concat (enc_pair <$> l)) = Some (k, enc_str v ++ concat (enc_pair <$> l))).
  { unfold enc_pair at 1. cbn [fst snd]. by rewrite <- app_assoc, dec_str_enc. }
  rewrite E in *. cbn [app dec_pairs] in *. rewrite Hd. cbn [mbind option_bind]. rewrite dec_str_enc. cbn [mbind option_bind].
  rewrite IH; [done|]. lia.
Qed.

#[export] Instance ref_json_laws : ManifestCodecLaws.
Proof.
  refine {| json_safe := fun _ => True |}; [done|]. intros m _ _ _. cbn -[dec_str dec_Z dec_refs].
  rewrite dec_str_enc. cbn -[dec_str dec_Z dec_refs]. rewrite dec_Z_enc. cbn -[dec_str dec_Z dec_refs].
  rewrite dec_str_enc. cbn -[dec_str dec_Z dec_refs]. rewrite dec_refs_enc by lia. by destruct m.
Defined.

(** ** Order of version strings *)

Lemma trimZeros_app l : exists k, l = trimZeros l ++ replicate k zeroChar.
Proof.
  induction l as [|c l [k IH]]; [by exists 0%nat|]. cbn. destruct (trimZeros l) as [|d t] eqn:E.
  - case_decide; [exists (S k); cbn in *; by rewrite IH at 1; subst|exists k; cbn in *; by rewrite IH at 1].
  - exists k. by rewrite IH at 1.
Qed.

Lemma trimmed_ltb l k :
  length l = length k -> length (trimZeros l) = length (trimZeros k) ->
  str_ltb (of_chars l) (of_chars k) = true -> str_ltb (of_chars (trimZeros l)) (of_chars (trimZeros k)) = true.
Proof.
  intros Hl Ht Hlt. destruct (trimZeros_app l) as [n Hn], (trimZeros_app k) as [m Hm].
  assert (n = m) as ->.
  { apply (f_equal length) in Hn, Hm. rewrite length_app, length_replicate in Hn, Hm. lia. }
  rewrite Hn, Hm, !of_chars_app in Hlt. set (a := trimZeros l) in *. set (b := trimZeros k) in *.
  destruct (str_ltb (of_chars a) (of_chars b)) eqn:E; [done|].
  destruct (str_ltb (of_chars b) (of_chars a)) eqn:E2.
  - assert (Hba := str_ltb_app (of_chars b) (of_chars a) (of_chars (replicate m zeroChar))
      (of_chars (replicate m zeroChar)) ltac:(by rewrite !length_of_chars) E2).
    apply str_ltb_asym in Hba. congruence.
  - rewrite (str_ltb_total _ _ E E2), str_ltb_irrefl in Hlt. done.
Qed.

Lemma fraction_ltb x y :
  0 <= x -> x < y -> y < 10 ^ 9 -> String.length (fraction x) = String.length (fraction y) ->
  str_ltb (fraction x) (fraction y) = true.
Proof.
  intros Hx Hxy Hy Hlen. pose proof (digits_ltb 9 x y Hx Hxy Hy) as Hd. unfold fraction in *.
  pose proof (trimmed_ltb (chars (digits 9 x)) (chars (digits 9 y))) as Ht.
  rewrite !of_chars_of, !chars_length, !digits_length in Ht.
  destruct (trimZeros (chars (digits 9 x))) as [|a s], (trimZeros (chars (digits 9 y))) as [|b t]; try done.
  - by apply Ht.
  - rewrite str_ltb_app_same. apply Ht; [done| |done].
    rewrite !length_sapp, !length_of_chars in Hlen. lia.
Qed.

(** A difference before the end of both strings decides. *)
Fixpoint differ_ltb (a b : string) : bool :=
  match a, b with
  | String.String x a, String.String y b =>
      if (N_of_ascii x <? N_of_ascii y)%N then true
      else if (N_of_ascii y <? N_of_ascii x)%N then false
      else differ_ltb a b
  | _, _ => false
  end.

Lemma differ_ltb_app a b c d : differ_ltb a b = true -> str_ltb (a +:+ c) (b +:+ d) = true.
Proof.
  revert b; induction a as [|x a IH]; intros [|y b]; try done. rewrite !str_app_cons. cbn.
  destruct (_ <? _)%N; [done|]. destruct (_ <? _)%N; [done|]. apply IH.
Qed.

Definition time_ok (t : utcTime) : Prop :=
  (0 <= tYear t < 10000) /\ (0 <= tMonth t < 100) /\ (0 <= tDay t < 100) /\ (0 <= tHour t < 100) /\
  (0 <= tMin t < 100) /\ (0 <= tSec t < 100) /\ (0 <= tNano t < 10 ^ 9).

(** One fixed-width field of a timestamp. *)
Lemma field_ltb n x y sep c d :
  0 <= x < 10 ^ Z.of_nat n -> 0 <= y < 10 ^ Z.of_nat n ->
  (if x <? y then true else if y <? x then false else str_ltb c d) = true ->
  str_ltb (digits n x +:+ sep +:+ c) (digits n y +:+ sep +:+ d) = true.
Proof.
  intros Hx Hy. destruct (Z.ltb_spec x y).
  - intros _. apply str_ltb_app; [by rewrite !digits_length|]. apply digits_ltb; lia.
  - destruct (Z.ltb_spec y x); [done|]. assert (x = y) as -> by lia. by rewrite !str_ltb_app_same.
Qed.

Lemma sapp_assoc a b c : (a +:+ b) +:+ c = a +:+ (b +:+ c).
Proof. induction a as [|x a IH]; [done|]. rewrite !str_app_cons. by rewrite IH. Qed.

(** Where version order is time order: two versions whose fractions of a
    second print with the same number of digits sort as their times do,
    whatever the random suffixes. *)
Theorem NewVersion_sorted t1 t2 b1 b2 :
  time_ok t1 -> time_ok t2 -> String.length (fraction (tNano t1)) = String.length (fraction (tNano t2)) ->
  time_ltb t1 t2 = true -> str_ltb (NewVersion t1 b1) (NewVersion t2 b2) = true.
Proof.
  intros (? & ? & ? & ? & ? & ? & ?) (? & ? & ? & ? & ? & ? & ?) Hlen Hlt.
  unfold NewVersion, rfc3339Nano. rewrite !sapp_assoc. unfold time_ltb in Hlt.
  change (10 ^ 9) with (10 ^ Z.of_nat 9) in *.
  apply field_ltb with (n := 4%nat); [done..|].
  destruct (tYear t1 <? tYear t2); [done|]. destruct (tYear t2 <? tYear t1); [done|].
  apply field_ltb with (n := 2%nat); [done..|].
  destruct (tMonth t1 <? tMonth t2); [done|]. destruct (tMonth t2 <? tMonth t1); [done|].
  apply field_ltb with (n := 2%nat); [done..|].
  destruct (tDay t1 <? tDay t2); [done|]. destruct (tDay t2 <? tDay t1); [done|].
  apply field_ltb with (n := 2%nat); [done..|].
  destruct (tHour t1 <? tHour t2); [done|]. destruct (tHour t2 <? tHour t1); [done|].
  apply field_ltb with (n := 2%nat); [done..|].
  destruct (tMin t1 <? tMin t2); [done|]. destruct (tMin t2 <? tMin t1); [done|].
  apply (field_ltb 2 _ _ ""); [done..|].
  destruct (tSec t1 <? tSec t2); [done|]. destruct (tSec t2 <? tSec t1); [done|].
  destruct (Z.ltb_spec (tNano t1) (tNano t2)); [|by destruct (tNano t2 <? tNano t1)].
  apply str_ltb_app; [done|]. apply fraction_ltb; [lia|lia|apply H12|done].
Qed.

(** Where it is not: a snapshot written a tenth of a second into a second
    gets a version above one written later in the same second, so the latest
    version is not the newest snapshot. *)
Theorem NewVersion_misordered :
  exists t1 t2, time_ok t1 /\ time_ok t2 /\ time_ltb t1 t2 = true /\
    forall b1 b2, str_ltb (NewVersion t2 b2) (NewVersion t1 b1) = true.
Proof.
  exists (UTC 2026 1 2 3 4 5 100000000), (UTC 2026 1 2 3 4 5 120000000).
  split; [repeat split; cbn; lia|]. split; [repeat split; cbn; lia|]. split; [reflexivity|]. intros b1 b2.
  unfold NewVersion. apply differ_ltb_app. vm_compute. reflexivity.
Qed.

Lemma NewVersion_sorted_witness :
  str_ltb (NewVersion (UTC 2026 1 2 3 4 5 123456781) []) (NewVersion (UTC 2026 1 2 3 4 5 123456782) []) = true.
Proof. apply NewVersion_sorted; [repeat split; cbn; lia..|reflexivity|reflexivity]. Defined.
