(* ===== verification/LocalStore.v ===== *)
(** The snapshot store in a directory (casstore/snapshot/store_local.go).

    The file system is a map from cleaned absolute paths, as lists of names, to
    directories and files.  A put is a sequence of system calls, each of which
    may fail ([putIO]), and so may every best-effort removal after a failure;
    what a put that does not come to its end leaves behind is in the model.
    Encoding/json on the metadata is the class [MetaCodec].

    A key's four fields become directory names through [sanitize], which is
    undone by [unsanitize] for the [plain] ones; fields like "_", ".." or a
    string that happens to be the encoding of another are not plain, and
    [alias_reads], [dotdot_escapes] show what happens then.  For plain keys
    [local_put_survives] says that a snapshot stays through whatever other
    operations do, [local_latest] when the latest one is found, and
    [walk_complete] that a walk over readable directories misses none.  [interrupted_put_hides] and [walk_skips]
    are the runs in which the store departs from its interface. *)

From stdpp Require Import sorting.
From S2P Require Import Prelude GoStrings Decimal GoText Sha256 Manifest SnapStore.
From Stdlib Require Import Ascii.

(** ** Names and paths *)

Definition unsafeChars : list ascii := chars "/\:*?<>|" ++ [ascii_of 34; ascii_of 0].

Definition unsafe (l : list ascii) : bool := existsb (fun c => bool_decide (c ∈ unsafeChars)) l.

Definition sanitize (s : string) : string :=
  if decide (s = "") then "_"
  else if unsafe (chars s) then of_chars (EncodeToString RawURLEncoding (chars s))
  else s.

Definition unsanitize (s : string) : string :=
  if decide (s = "_") then ""
  else match DecodeString RawURLEncoding (chars s) with
       | Some decoded => if unsafe decoded then of_chars decoded else s
       | None => s
       end.

Abbreviation path := (list string).

(** One name of a path, as [filepath.Clean] treats it. *)
Definition pushName (p : path) (name : string) : path :=
  if decide (name = "" \/ name = ".") then p
  else if decide (name = "..") then take (length p - 1) p
  else p ++ [name].

(** [filepath.Join] below a clean absolute path. *)
Definition joinPath (root : path) (elems : list string) : path :=
  foldl pushName root (elems ≫= fun e => Split e "/"%char).

Definition keyNames (key : SnapshotKey) : list string :=
  [sanitize (Tenant key); sanitize (Workspace key); sanitize (User key); sanitize (OwnerKey key)].

Definition keyPath (root : path) (key : SnapshotKey) (version : string) : path :=
  joinPath root (keyNames key ++ if decide (version = "") then [] else [version]).

Definition blobPath (dir : path) : path := dir ++ ["blob"].
Definition metaPath (dir : path) : path := dir ++ ["metadata.json"].

(** ** The file system *)

Inductive node := NDir | NFile (content : bytes).

#[export] Instance node_eq_dec : EqDecision node.
Proof. solve_decision. Defined.

Abbreviation fsys := (gmap (list string) node).

Definition errNotExist : err := EOther "file does not exist".
Definition errNotDir : err := EOther "not a directory".

Definition isFile (fs : fsys) (p : path) : bool := match fs !! p with Some (NFile _) => true | _ => false end.

(** What opening an absent path answers. *)
Definition absent (fs : fsys) (p : path) : err :=
  if existsb (fun i => isFile fs (take i p)) (seq 0 (length p)) then errNotDir else errNotExist.

Definition readFile (fs : fsys) (p : path) : result bytes :=
  match fs !! p with
  | Some (NFile b) => Ok b
  | Some NDir => Err (EOther "is a directory")
  | None => Err (absent fs p)
  end.

(** [os.MkdirAll]: the missing directories on the way, from the top. *)
Fixpoint mkdirAll (fs : fsys) (prefixes : list path) : fsys * option err :=
  match prefixes with
  | [] => (fs, None)
  | p :: ps => match fs !! p with
               | Some NDir => mkdirAll fs ps
               | Some (NFile _) => (fs, Some errNotDir)
               | None => mkdirAll (<[p := NDir]> fs) ps
               end
  end.

Definition prefixesOf (p : path) : list path := (fun i => take i p) <$> seq 1 (length p).

(** The names in a directory. *)
Definition entries (fs : fsys) (p : path) : list (string * node) :=
  omap (fun x => match last x.1 with
                 | Some name => if decide (x.1 = p ++ [name]) then Some (name, x.2) else None
                 | None => None
                 end) (map_to_list fs).

(** [os.Remove]: a file, or an empty directory. *)
Definition osRemove (fs : fsys) (p : path) : fsys :=
  match fs !! p with
  | Some (NFile _) => delete p fs
  | Some NDir => if decide (entries fs p = []) then delete p fs else fs
  | None => fs
  end.

Definition osRemoveAll (fs : fsys) (p : path) : fsys := filter (fun x => ~ (p `prefix_of` x.1)) fs.

(** ** The store *)

Class MetaCodec := {
  meta_Marshal : SnapshotMetadata -> bytes;
  meta_Unmarshal : bytes -> option SnapshotMetadata;
}.

(** Metadata whose strings are valid UTF-8 survive; a document that was cut
    short does not decode. *)
Class MetaCodecLaws (M : MetaCodec) := {
  meta_safe : SnapshotMetadata -> Prop;
  meta_round : forall md, meta_safe md -> meta_Unmarshal (meta_Marshal md) = Some md;
  meta_cut : forall md n, (n < length (meta_Marshal md))%nat -> meta_Unmarshal (take n (meta_Marshal md)) = None;
}.

(** How the calls of a put end: how many directories are made before an error,
    the error and the random part of the temporary file, the errors of the
    copy, close and rename, how much of the metadata is written before an error
    ([None] when not even the file is made), and whether the removals after a failure work. *)
Record putIO := MkPutIO {
  ioMkdir : option (nat * err); ioTemp : option err; ioRandom : string; ioCopy : option err; ioClose : option err; ioRename : option err;
  ioMeta : option (option nat * err); ioClean : nat -> bool }.

(** ** Names that come back *)

Definition name_ok (n : string) : Prop := n <> "" /\ n <> "." /\ n <> ".." /\ ("/"%char ∉ chars n).

(** A field that its directory name stands for alone. *)
Definition plain (s : string) : Prop := unsanitize (sanitize s) = s /\ sanitize s <> "." /\ sanitize s <> "..".

#[export] Instance plain_dec s : Decision (plain s).
Proof. unfold plain. apply _. Defined.

Definition plain_key (k : SnapshotKey) : Prop := plain (Tenant k) /\ plain (Workspace k) /\ plain (User k) /\ plain (OwnerKey k).

Lemma unsafe_spec l : unsafe l = false <-> forall c, c ∈ unsafeChars -> c ∉ l.
Proof.
  unfold unsafe. rewrite <- not_true_iff_false, existsb_exists. setoid_rewrite <- list_elem_of_In. split.
  - intros H c Hc Hl. apply H. exists c. split; [done|]. by apply bool_decide_eq_true_2.
  - intros H (c & Hl & Hc%bool_decide_eq_true_1). by apply (H c).
Qed.

Lemma url_char c l : c ∈ EncodeToString RawURLEncoding l -> c ∈ alphabet RawURLEncoding.
Proof.
  assert (He : forall v, 0 <= v < 64 -> enc64 RawURLEncoding v ∈ alphabet RawURLEncoding).
  { intros v Hv. unfold enc64. destruct (alphabet RawURLEncoding !! Z.to_nat v) as [x|] eqn:E; [by eapply list_elem_of_lookup_2|].
    apply lookup_ge_None in E. change (length (alphabet RawURLEncoding)) with 64%nat in E. lia. }
  assert (Ho : forall a, 0 <= octet a < 256).
  { intros a. unfold octet. pose proof (N_ascii_bounded a). lia. }
  assert (forall n l, (length l <= n)%nat -> c ∈ EncodeToString RawURLEncoding l -> c ∈ alphabet RawURLEncoding) as H; [|by eapply (H (length l))].
  intros n. induction n as [|n IH]; intros [|a [|b [|d r]]] Hn; cbn [EncodeToString padded RawURLEncoding app length] in *; try lia; try by intros []%elem_of_nil.
  all: rewrite ?elem_of_cons, ?elem_of_nil; pose proof (Ho a); try pose proof (Ho b); try pose proof (Ho d).
  - intros [->|[->|[]]]; apply He; Z.to_euclidean_division_equations; lia.
  - intros [->|[->|[->|[]]]]; apply He; Z.to_euclidean_division_equations; lia.
  - intros [->|[->|[->|[->|H']]]]; [apply He; Z.to_euclidean_division_equations; lia..|]. apply (IH r); [lia|done].
Qed.

Lemma encode_nonempty l : l <> [] -> (2 <= length (EncodeToString RawURLEncoding l))%nat.
Proof. destruct l as [|a [|b [|d r]]]; cbn; [done|lia..]. Qed.

(** Every field but these exceptions is plain. *)
Lemma sanitize_name s : ("/"%char ∉ chars (sanitize s)) /\ sanitize s <> "".
Proof.
  unfold sanitize. case_decide as Hs; [split; [by apply (bool_decide_eq_true_1 _); vm_compute|done]|]. destruct (unsafe (chars s)) eqn:E.
  - assert (Hc : chars s <> []) by (intros H; by destruct Hs; apply chars_inj). split.
    + rewrite chars_of. intros H%url_char. revert H. apply (bool_decide_eq_true_1 _). vm_compute. done.
    + intros H. apply (f_equal chars) in H. rewrite chars_of in H. pose proof (encode_nonempty _ Hc) as Hl. by rewrite H in Hl; cbn in Hl; lia.
  - split; [|done]. eapply unsafe_spec; [exact E|]. by apply (bool_decide_eq_true_1 _); vm_compute.
Qed.

Lemma plain_name s : plain s -> name_ok (sanitize s).
Proof. intros (_ & H1 & H2). destruct (sanitize_name s) as [H3 H4]. done. Qed.

(** Fields with a path separator or another unsafe character are plain, and so
    is the empty field. *)
Lemma unsafe_plain s : unsafe (chars s) = true -> plain s.
Proof.
  intros E. assert (Hs : s <> "") by (by intros ->). assert (Hc : chars s <> []) by (intros H; by destruct Hs; apply chars_inj).
  assert (Hz : sanitize s = of_chars (EncodeToString RawURLEncoding (chars s))) by (unfold sanitize; rewrite decide_False by done; by rewrite E).
  pose proof (encode_nonempty _ Hc) as Hl. assert (Hdot : "."%char ∉ EncodeToString RawURLEncoding (chars s)).
  { intros H%url_char. revert H. apply (bool_decide_eq_true_1 _). vm_compute. done. }
  unfold plain. rewrite Hz. split_and!.
  - unfold unsanitize. rewrite decide_False, chars_of, base64_round, E, of_chars_of; [done|by vm_compute|].
    intros H. apply (f_equal chars) in H. rewrite chars_of in H. rewrite H in Hl. cbn in Hl. lia.
  - intros H. apply (f_equal chars) in H. rewrite chars_of in H. rewrite H in Hdot. apply Hdot. by left.
  - intros H. apply (f_equal chars) in H. rewrite chars_of in H. rewrite H in Hdot. apply Hdot. by left.
Qed.

Lemma Split_one s c : c ∉ chars s -> Split s c = [s].
Proof. intros H. unfold Split. rewrite splitAt_plain by done. cbn. by rewrite of_chars_of. Qed.

Lemma joinPath_ok root l : Forall name_ok l -> joinPath root l = root ++ l.
Proof.
  unfold joinPath. revert root; induction l as [|n l IH]; intros root H; cbn; [by rewrite app_nil_r|].
  inversion H as [|? ? (H1 & H2 & H3 & H4) Hl]; subst. rewrite Split_one by done. cbn. unfold pushName at 2.
  rewrite decide_False by naive_solver. rewrite decide_False by done. rewrite IH by done. by rewrite <- app_assoc.
Qed.

Lemma keyNames_ok k : plain_key k -> Forall name_ok (keyNames k).
Proof. intros (? & ? & ? & ?). repeat constructor; by apply plain_name. Qed.

Lemma keyPath_ok root k v : plain_key k -> name_ok v -> keyPath root k v = root ++ keyNames k ++ [v].
Proof.
  intros Hk Hv. unfold keyPath. rewrite decide_False by apply Hv. apply joinPath_ok. apply Forall_app. split; [by apply keyNames_ok|by constructor].
Qed.

Lemma ownerPath_ok root k : plain_key k -> keyPath root k "" = root ++ keyNames k.
Proof. intros Hk. unfold keyPath. rewrite decide_True, app_nil_r by done. by apply joinPath_ok, keyNames_ok. Qed.

Lemma keyNames_inj k k' : plain_key k -> plain_key k' -> keyNames k = keyNames k' -> k = k'.
Proof.
  intros ([H1 _] & [H2 _] & [H3 _] & [H4 _]) ([H5 _] & [H6 _] & [H7 _] & [H8 _]) [= E1 E2 E3 E4].
  destruct k, k'. cbn in *. f_equal; congruence.
Qed.

Lemma versionDir_inj root k v k' v' :
  plain_key k -> name_ok v -> plain_key k' -> name_ok v' -> keyPath root k v = keyPath root k' v' -> (k, v) = (k', v').
Proof.
  intros Hk Hv Hk' Hv'. rewrite !keyPath_ok by done. intros E%app_inv_head. apply app_inj_2 in E as [E [= ->]]; [|done].
  by rewrite (keyNames_inj k k').
Qed.

(** *** Version strings are names *)

Lemma digits_noslash n z : "/"%char ∉ chars (digits n z).
Proof.
  revert z; induction n as [|n IH]; intros z; cbn; [by intros []%elem_of_nil|]. rewrite chars_app. intros [H|H]%elem_of_app; [by eapply IH|].
  apply list_elem_of_singleton in H. apply (f_equal N_of_ascii) in H. pose proof (Z.mod_pos_bound z 10 ltac:(lia)).
  rewrite N_ascii_embedding in H by lia. change (N_of_ascii "/"%char) with 47%N in H. lia.
Qed.

Lemma trimZeros_in c l : c ∈ trimZeros l -> c ∈ l.
Proof. destruct (trimZeros_app l) as [k E]. intros H. rewrite E. apply elem_of_app. by left. Qed.

Lemma fraction_noslash z : "/"%char ∉ chars (fraction z).
Proof.
  unfold fraction. pose proof (trimZeros_in "/"%char (chars (digits 9 z))) as Ht. destruct (trimZeros _) as [|c l]; [by intros []%elem_of_nil|].
  rewrite chars_app, chars_of. intros [H|H]%elem_of_app; [by apply list_elem_of_singleton in H|]. by apply (digits_noslash 9 z), Ht.
Qed.

Lemma NewVersion_name t buf : name_ok (NewVersion t buf).
Proof.
  assert (Hy : exists c r, digits 4 (tYear t) = String.String c r /\ c <> "."%char).
  { cbn. eexists _, _. split; [reflexivity|]. intros H. apply (f_equal N_of_ascii) in H.
    pose proof (Z.mod_pos_bound (tYear t / 10 / 10 / 10) 10 ltac:(lia)). rewrite N_ascii_embedding in H by lia. change (N_of_ascii "."%char) with 46%N in H. lia. }
  destruct Hy as (c & r & Hy & Hc). unfold name_ok, NewVersion, rfc3339Nano. split_and!; [rewrite Hy; by intros [= ?]..|].
  rewrite !chars_app, !elem_of_app. pose proof digits_noslash as Hd. pose proof (fraction_noslash (tNano t)) as Hf.
  assert (Hx : "/"%char ∉ chars (hex_encode buf)).
  { intros H. pose proof (hex_encode_hex buf) as Hh. rewrite forallb_forall in Hh. apply list_elem_of_In in H. by apply Hh in H. }
  intros H. repeat match goal with H : _ \/ _ |- _ => destruct H as [H|H] end;
    first [by apply Hd in H|by apply Hf in H|by apply Hx in H|by apply list_elem_of_singleton in H].
Qed.

(** [fails] is where creating the directories stops, and with what. *)
Definition NewLocalStore (root : path) (fails : option (nat * err)) (fs : fsys) : fsys * option err :=
  match fails with
  | Some (n, e) => ((mkdirAll fs (take n (prefixesOf root))).1, Some e)
  | None => mkdirAll fs (prefixesOf root)
  end.

Section Local.
  Context {M : MetaCodec}.

Definition readMetadata (fs : fsys) (p : path) : result SnapshotMetadata :=
  b ← readFile fs p;
  match meta_Unmarshal b with Some md => Ok md | None => Err (EOther "unmarshal metadata") end.

Definition tryRemove (ok : bool) (fs : fsys) (p : path) : fsys := if ok then osRemove fs p else fs.

(** The deferred clean-up: the temporary file, then the directory. *)
Definition cleanUp (io : putIO) (fs : fsys) (tmp dir : path) : fsys :=
  tryRemove (ioClean io 1) (tryRemove (ioClean io 0) fs tmp) dir.

(** The metadata could not be written: blob and directory go. *)
Definition dropBlob (io : putIO) (fs : fsys) (dir : path) : fsys :=
  tryRemove (ioClean io 3) (tryRemove (ioClean io 2) fs (blobPath dir)) dir.

Definition stampLocal (key : SnapshotKey) (version : string) (now : Z) (n : Z) (meta : SnapshotMetadata) : SnapshotMetadata :=
  MkMeta key version (if decide (CreatedAt meta = 0) then now else CreatedAt meta) n (Runtime meta) (mFormat meta) (Tags meta).

(** [Put] and [putWithMeta] after the version is known; [data] is what the
    stream delivers and [rerr] the error it ends with. *)
Definition writeVersion (io : putIO) (root : path) (now : Z) (fs : fsys) (key : SnapshotKey) (version : string) (meta : SnapshotMetadata)
  (data : bytes) (rerr : option err) : fsys * result SnapshotMetadata :=
  let dir := keyPath root key version in
  let '(fs, oe) := match ioMkdir io with
                   | Some (n, e) => ((mkdirAll fs (take n (prefixesOf dir))).1, Some e)
                   | None => mkdirAll fs (prefixesOf dir)
                   end in
  match oe with
  | Some e => (fs, Err e)
  | None =>
      let tmp := dir ++ ["blob-" +:+ ioRandom io +:+ ".tmp"] in
      match ioTemp io, fs !! tmp with
      | Some e, _ => (fs, Err e)
      | None, Some _ => (fs, Err (EOther "file exists"))
      | None, None =>
          let fs := <[tmp := NFile data]> fs in
          let fail fs e := (cleanUp io fs tmp dir, Err e) in
          match rerr, ioCopy io, ioClose io, ioRename io with
          | Some e, _, _, _ | None, Some e, _, _ | None, None, Some e, _ | None, None, None, Some e => fail fs e
          | None, None, None, None =>
              if decide (fs !! blobPath dir = Some NDir) then fail fs (EOther "file exists")
              else
                let fs := <[blobPath dir := NFile data]> (delete tmp fs) in
                let meta := stampLocal key version now (len data) meta in
                if decide (fs !! metaPath dir = Some NDir) then fail (dropBlob io fs dir) (EOther "is a directory")
                else match ioMeta io with
                     | Some (written, e) =>
                         let fs := match written with Some n => <[metaPath dir := NFile (take n (meta_Marshal meta))]> fs | None => fs end in
                         fail (dropBlob io fs dir) e
                     | None => (<[metaPath dir := NFile (meta_Marshal meta)]> fs, Ok meta)
                     end
          end
      end
  end.

Definition localPut (io : putIO) (root : path) (clock : utcTime) (buf : bytes) (now : Z) (fs : fsys) (key : SnapshotKey) (meta : SnapshotMetadata)
  (data : bytes) (rerr : option err) : fsys * result SnapshotMetadata :=
  writeVersion io root now fs key (NewVersion clock buf) meta data rerr.

Definition putWithMeta (io : putIO) (root : path) (now : Z) (fs : fsys) (meta : SnapshotMetadata) (data : bytes) (rerr : option err)
  : fsys * result SnapshotMetadata :=
  writeVersion io root now fs (mKey meta) (Version meta) meta data rerr.

(** An absent file is an absent snapshot. *)
Definition orNoSnapshot {A} (r : result A) : result A :=
  match r with
  | Err e => Err (if decide (e = errNotExist) then ErrNoSnapshot else e)
  | Ok a => Ok a
  end.

Definition localGet (root : path) (fs : fsys) (key : SnapshotKey) (version : string) : result (bytes * SnapshotMetadata) :=
  let dir := keyPath root key version in
  meta ← orNoSnapshot (readMetadata fs (metaPath dir));
  b ← orNoSnapshot (readFile fs (blobPath dir));
  Ok (b, meta).

Definition newerName : relation string := fun a b => str_ltb a b = false.

#[export] Instance newerName_dec a b : Decision (newerName a b).
Proof. unfold newerName. apply _. Defined.

(** The directories under the owner's, greatest name first. *)
Definition listVersionDirs (root : path) (fs : fsys) (key : SnapshotKey) : list string :=
  merge_sort newerName (omap (fun x => if decide (x.2 = NDir) then Some x.1 else None) (entries fs (keyPath root key ""))).

Definition localGetLatest (root : path) (fs : fsys) (key : SnapshotKey) : result (bytes * SnapshotMetadata) :=
  match listVersionDirs root fs key with
  | [] => Err ErrNoSnapshot
  | v :: _ => localGet root fs key v
  end.

Definition localGetLatestMetadata (root : path) (fs : fsys) (key : SnapshotKey) : result SnapshotMetadata :=
  match listVersionDirs root fs key with
  | [] => Err ErrNoSnapshot
  | v :: _ => orNoSnapshot (readMetadata fs (metaPath (keyPath root key v)))
  end.

Definition localList (root : path) (fs : fsys) (key : SnapshotKey) : list SnapshotMetadata :=
  omap (fun v => match readMetadata fs (metaPath (keyPath root key v)) with Ok md => Some md | Err _ => None end) (listVersionDirs root fs key).

(** A directory stays as long as something below it does. *)
Definition holdsOn (fs : fsys) (remains : path -> bool) (p : path) : bool :=
  existsb (fun x => bool_decide (p `prefix_of` x.1) && remains x.1) (map_to_list fs).

(** [fails] is an error of [RemoveAll] and what it could not remove. *)
Definition localDelete (root : path) (fails : option (err * (path -> bool))) (fs : fsys) (key : SnapshotKey) (version : string) : fsys * result unit :=
  let dir := keyPath root key version in
  match fails with
  | None => (osRemoveAll fs dir, Ok tt)
  | Some (e, remains) => (filter (fun x => ~ (dir `prefix_of` x.1) \/ holdsOn fs remains x.1 = true) fs, Err e)
  end.

Definition keyOfNames (l : list string) : option (SnapshotKey * string) :=
  match l with
  | [t; w; u; o; v] => Some (MkKey (unsanitize t) (unsanitize w) (unsanitize u) (unsanitize o), v)
  | _ => None
  end.

(** The directory walk, with the directories whose reading fails; an entry
    below one of them is not visited and the walk goes on. *)
Definition visited (root : path) (unreadable : path -> bool) (p : path) : bool :=
  forallb (fun i => negb (unreadable (take i p))) (seq (length root) (length p - length root)).

Definition walkEntry (root : path) (unreadable : path -> bool) (fs : fsys) (x : path * node) : option (SnapshotKey * string * SnapshotMetadata) :=
  if decide (x.2 = NDir /\ root `prefix_of` x.1) then
    if visited root unreadable x.1 then
      '(key, version) ← keyOfNames (drop (length root) x.1);
      match readMetadata fs (metaPath x.1) with
      | Ok md => Some (key, version, md)
      | Err _ => None
      end
    else None
  else None.

Definition localWalk (root : path) (unreadable : path -> bool) (fs : fsys) : list (SnapshotKey * string * SnapshotMetadata) * option err :=
  (omap (walkEntry root unreadable fs) (map_to_list fs), None).


(** ** What the store holds *)

(** The snapshot that reading a version gives. *)
Definition snapAt (root : path) (fs : fsys) (k : SnapshotKey) (v : string) : option (bytes * SnapshotMetadata) :=
  match localGet root fs k v with Ok x => Some x | Err _ => None end.

Definition snapIn (fs : fsys) (dir : path) : option (bytes * SnapshotMetadata) :=
  match fs !! metaPath dir, fs !! blobPath dir with
  | Some (NFile j), Some (NFile b) => (fun md => (b, md)) <$> meta_Unmarshal j
  | _, _ => None
  end.

Lemma snapAt_in root fs k v : snapAt root fs k v = snapIn fs (keyPath root k v).
Proof.
  unfold snapAt, localGet, snapIn, readMetadata, readFile. set (dir := keyPath root k v).
  destruct (fs !! metaPath dir) as [[|j]|], (fs !! blobPath dir) as [[|b]|]; cbn; try done; by destruct (meta_Unmarshal j).
Qed.

(** Nothing changed at the depth of files but in one version's directory. *)
Definition only_in (root dir : path) (fs fs' : fsys) : Prop :=
  forall p, length p = (length root + 6)%nat -> ~ (dir `prefix_of` p) -> fs' !! p = fs !! p.

#[local] Instance only_in_refl root dir : Reflexive (only_in root dir).
Proof. by intros fs p. Qed.

#[local] Instance only_in_trans root dir : Transitive (only_in root dir).
Proof. intros a b c H1 H2 p Hp Hn. by rewrite H2, H1. Qed.

Lemma only_in_insert root dir fs p n : (dir `prefix_of` p \/ length p <> (length root + 6)%nat) -> only_in root dir fs (<[p := n]> fs).
Proof. intros H q Hq Hn. apply lookup_insert_ne. intros ->. by destruct H. Qed.

Lemma only_in_delete root dir fs p : (dir `prefix_of` p \/ length p <> (length root + 6)%nat) -> only_in root dir fs (delete p fs).
Proof. intros H q Hq Hn. apply lookup_delete_ne. intros ->. by destruct H. Qed.

Lemma only_in_remove root dir ok fs p : (dir `prefix_of` p \/ length p <> (length root + 6)%nat) -> only_in root dir fs (tryRemove ok fs p).
Proof.
  intros H. unfold tryRemove, osRemove. destruct ok; [|done]. destruct (fs !! p) as [[|b]|]; [case_decide; [|done]| |done]; by apply only_in_delete.
Qed.

Lemma only_in_mkdirs root dir ps : forall fs, Forall (fun p => (length p < length root + 6)%nat) ps -> only_in root dir fs (mkdirAll fs ps).1.
Proof.
  induction ps as [|p ps IH]; intros fs H; cbn; [done|]. inversion H; subst. destruct (fs !! p) as [[|b]|]; [by apply IH|done|].
  etrans; [|by apply IH]. apply only_in_insert. right. lia.
Qed.

Lemma prefixesOf_short p : Forall (fun q => (length q <= length p)%nat) (prefixesOf p).
Proof. apply Forall_forall. intros q (i & -> & _)%list_elem_of_fmap. rewrite length_take. lia. Qed.

Lemma dir_file (dir : path) x : dir `prefix_of` dir ++ [x].
Proof. by exists [x]. Qed.

#[local] Hint Resolve dir_file : core.

Lemma writeVersion_only io root now fs k v meta data rerr fs' res :
  plain_key k -> name_ok v -> writeVersion io root now fs k v meta data rerr = (fs', res) -> only_in root (keyPath root k v) fs fs'.
Proof.
  intros Hk Hv. unfold writeVersion. set (dir := keyPath root k v).
  assert (Hlen : length dir = (length root + 5)%nat) by (unfold dir; rewrite keyPath_ok, !length_app by done; done).
  assert (Hps : Forall (fun p => (length p < length root + 6)%nat) (prefixesOf dir)).
  { eapply Forall_impl; [apply prefixesOf_short|]. intros q Hq; cbv beta in *; rewrite Hlen in Hq; lia. }
  destruct (match ioMkdir io with Some _ => _ | None => _ end) as [fs1 oe] eqn:E1.
  assert (H1 : only_in root dir fs fs1).
  { destruct (ioMkdir io) as [[n e]|]; [injection E1 as <- _|replace fs1 with (mkdirAll fs (prefixesOf dir)).1 by by rewrite E1].
    - apply only_in_mkdirs. by apply Forall_take.
    - by apply only_in_mkdirs. }
  destruct oe; [intros [= <- _]; done|]. set (tmp := dir ++ [_]). destruct (ioTemp io); [intros [= <- _]; done|]. destruct (fs1 !! tmp); [intros [= <- _]; done|].
  assert (H2 : only_in root dir fs (<[tmp := NFile data]> fs1)) by (etrans; [done|apply only_in_insert; left; unfold tmp; auto]).
  assert (Hclean : forall fs2, only_in root dir fs fs2 -> only_in root dir fs (cleanUp io fs2 tmp dir)).
  { intros fs2 H. unfold cleanUp. etrans; [exact H|]. etrans; [apply (only_in_remove _ _ (ioClean io 0) _ tmp); left; unfold tmp; auto|].
    apply only_in_remove. right. lia. }
  assert (Hdrop : forall fs2, only_in root dir fs fs2 -> only_in root dir fs (dropBlob io fs2 dir)).
  { intros fs2 H. unfold dropBlob. etrans; [exact H|]. etrans; [apply (only_in_remove _ _ (ioClean io 2) _ (blobPath dir)); left; apply dir_file|].
    apply only_in_remove. right. lia. }
  destruct rerr, (ioCopy io), (ioClose io), (ioRename io); try (intros [= <- _]; by apply Hclean).
  case_decide; [intros [= <- _]; by apply Hclean|].
  set (fs3 := <[blobPath dir := NFile data]> _).
  assert (H3 : only_in root dir fs fs3).
  { unfold fs3. etrans; [exact H2|]. etrans; [apply only_in_delete; left; unfold tmp; auto|]. apply only_in_insert. left. apply dir_file. }
  assert (H4 : forall b, only_in root dir fs (<[metaPath dir := NFile b]> fs3)) by (intros b; etrans; [exact H3|]; apply only_in_insert; left; apply dir_file).
  case_decide; [intros [= <- _]; by apply Hclean, Hdrop|].
  destruct (ioMeta io) as [[w e]|]; [intros [= <- _]; apply Hclean, Hdrop; by destruct w|]. by intros [= <- _].
Qed.

(** A file of another version's directory is as before. *)
Lemma other_file root fs fs' k v k' v' :
  plain_key k -> name_ok v -> plain_key k' -> name_ok v' -> (k', v') <> (k, v) -> only_in root (keyPath root k v) fs fs' ->
  forall x, fs' !! (keyPath root k' v' ++ [x]) = fs !! (keyPath root k' v' ++ [x]).
Proof.
  intros Hk Hv Hk' Hv' Hne H x. apply H; [rewrite keyPath_ok, !length_app by done; cbn; lia|]. intros Hp.
  assert (keyPath root k v = keyPath root k' v') as E.
  { destruct Hp as [y Hy]. rewrite !keyPath_ok in * by done. rewrite <- !app_assoc in Hy. apply app_inv_head in Hy.
    apply app_inj_1 in Hy as [E1 E2]; [|done]. cbn in E2. injection E2 as <- _. by rewrite E1. }
  by apply versionDir_inj in E.
Qed.

(** Another version of a plain key reads as before. *)
Lemma only_in_snap root fs fs' k v k' v' :
  plain_key k -> name_ok v -> plain_key k' -> name_ok v' -> (k', v') <> (k, v) ->
  only_in root (keyPath root k v) fs fs' -> snapAt root fs' k' v' = snapAt root fs k' v'.
Proof.
  intros Hk Hv Hk' Hv' Hne H. rewrite !snapAt_in. unfold snapIn, metaPath, blobPath. by rewrite !(other_file root fs fs' k v).
Qed.


Lemma localDelete_only root fails fs k v : only_in root (keyPath root k v) fs (localDelete root fails fs k v).1.
Proof.
  intros p _ Hn. unfold localDelete. destruct fails as [[e remains]|]; cbn.
  - destruct (fs !! p) as [n|] eqn:E; [apply map_lookup_filter_Some_2; [done|by left]|by apply map_lookup_filter_None; left].
  - unfold osRemoveAll. destruct (fs !! p) as [n|] eqn:E; [by apply map_lookup_filter_Some_2|by apply map_lookup_filter_None; left].
Qed.

Lemma localDelete_gone root fs k v : snapAt root (localDelete root None fs k v).1 k v = None.
Proof.
  rewrite snapAt_in. unfold snapIn. cbn. unfold osRemoveAll. rewrite (proj2 (map_lookup_filter_None _ fs (metaPath (keyPath root k v)))); [done|].
  right. intros n _ Hn. apply Hn. by exists ["metadata.json"].
Qed.

Context {ML : MetaCodecLaws M}.

(** A put that returns can be read. *)
Lemma writeVersion_ok io root now fs k v meta data rerr fs' md :
  writeVersion io root now fs k v meta data rerr = (fs', Ok md) ->
  rerr = None /\ md = stampLocal k v now (len data) meta /\ (meta_safe md -> snapAt root fs' k v = Some (data, md)).
Proof.
  unfold writeVersion. set (dir := keyPath root k v). destruct (match ioMkdir io with Some _ => _ | None => _ end) as [fs1 oe].
  destruct oe; [done|]. destruct (ioTemp io); [done|]. destruct (fs1 !! _); [done|]. destruct rerr, (ioCopy io), (ioClose io), (ioRename io); try done.
  case_decide; [done|]. case_decide; [done|]. destruct (ioMeta io) as [[w e]|]; [done|]. intros [= <- <-].
  split_and!; [done..|]. intros Hs. rewrite snapAt_in. fold dir. unfold snapIn. rewrite lookup_insert_eq.
  rewrite lookup_insert_ne by (unfold metaPath, blobPath; by intros [= ?]%app_inv_head). rewrite lookup_insert_eq. by rewrite meta_round.
Qed.

(** ** Histories *)

Inductive localOp :=
| LPut (io : putIO) (clock : utcTime) (buf : bytes) (now : Z) (key : SnapshotKey) (meta : SnapshotMetadata) (data : bytes) (rerr : option err)
| LDelete (fails : option (err * (path -> bool))) (key : SnapshotKey) (version : string).

Definition localStep (root : path) (fs : fsys) (op : localOp) : fsys :=
  match op with
  | LPut io clock buf now key meta data rerr => (localPut io root clock buf now fs key meta data rerr).1
  | LDelete fails key version => (localDelete root fails fs key version).1
  end.

Definition opTarget (op : localOp) : SnapshotKey * string :=
  match op with
  | LPut _ clock buf _ key _ _ _ => (key, NewVersion clock buf)
  | LDelete _ key version => (key, version)
  end.

(** The operation is on a plain key, and not on this snapshot. *)
Definition elsewhere (kv : SnapshotKey * string) (op : localOp) : Prop :=
  plain_key (opTarget op).1 /\ name_ok (opTarget op).2 /\ opTarget op <> kv.

Lemma localStep_other root fs op k v :
  plain_key k -> name_ok v -> elsewhere (k, v) op -> snapAt root (localStep root fs op) k v = snapAt root fs k v.
Proof.
  intros Hk Hv (H1 & H2 & H3). eapply (only_in_snap root fs _ (opTarget op).1 (opTarget op).2); try done.
  - intros E. apply H3. by destruct (opTarget op).
  - destruct op; cbn in *; [|apply localDelete_only]. destruct (localPut _ _ _ _ _ _ _ _ _ _) as [fs' r] eqn:E.
    by eapply writeVersion_only in E.
Qed.

(** C32: A snapshot put into a directory stays.  After a put that returned, and
    through any later sequence of puts and deletes of other snapshots under
    plain keys, whichever of their system calls and clean-ups fail, reading
    the version gives exactly the bytes put and the metadata the put returned;
    deleting it makes it unreadable. *)
Theorem local_put_survives io root clock buf now fs k meta data rerr fs1 md ops :
  plain_key k -> localPut io root clock buf now fs k meta data rerr = (fs1, Ok md) -> meta_safe md ->
  Forall (elsewhere (k, Version md)) ops ->
  localGet root (foldl (localStep root) fs1 ops) k (Version md) = Ok (data, md) /\
  is_ok (localGet root (localDelete root None (foldl (localStep root) fs1 ops) k (Version md)).1 k (Version md)) = false.
Proof.
  intros Hk Hp Hs Hops. apply writeVersion_ok in Hp as (_ & Hmd & Hget). specialize (Hget Hs).
  assert (Hver : Version md = NewVersion clock buf) by by rewrite Hmd. rewrite Hver in *.
  assert (Hv : name_ok (NewVersion clock buf)) by apply NewVersion_name.
  assert (Hsn : forall fs, snapAt root fs k (NewVersion clock buf) = Some (data, md) ->
    snapAt root (foldl (localStep root) fs ops) k (NewVersion clock buf) = Some (data, md)).
  { clear Hget. induction Hops as [|op ops Hop _ IH]; intros fs0 H0; cbn; [done|]. apply IH. by rewrite localStep_other. }
  split.
  - specialize (Hsn _ Hget). unfold snapAt in Hsn. by destruct (localGet _ _ _ _); [injection Hsn as ->|].
  - pose proof (localDelete_gone root (foldl (localStep root) fs1 ops) k (NewVersion clock buf)) as Hd. unfold snapAt in Hd.
    by destruct (localGet _ _ _ _).
Qed.


(** ** The directory tree *)

Definition tree (fs : fsys) : Prop := forall p x n, fs !! (p ++ [x]) = Some n -> p = [] \/ fs !! p = Some NDir.

Lemma entries_in fs p name n : (name, n) ∈ entries fs p <-> fs !! (p ++ [name]) = Some n.
Proof.
  unfold entries. rewrite list_elem_of_omap. split.
  - intros ([q m] & Hin%elem_of_map_to_list & H). cbn in H. destruct (last q) as [x|]; [|done]. case_decide; [|done].
    injection H as -> ->. by subst q.
  - intros H. exists (p ++ [name], n). split; [by apply elem_of_map_to_list|]. cbn. rewrite last_snoc. by rewrite decide_True.
Qed.

Lemma tree_insert fs p x n :
  tree fs -> p = [] \/ fs !! p = Some NDir -> n = NDir \/ fs !! (p ++ [x]) <> Some NDir -> tree (<[p ++ [x] := n]> fs).
Proof.
  intros Ht Hp Hn q y m H. apply lookup_insert_Some in H as [[E _]|[_ H]].
  - apply app_inj_2 in E as [<- _]; [|done]. destruct Hp as [?|Hp]; [by left|right]. by rewrite lookup_insert_ne by (intros E%(f_equal length); rewrite length_app in E; cbn in E; lia).
  - destruct (Ht q y m H) as [?|Hq]; [by left|right]. destruct (decide (p ++ [x] = q)) as [E|E]; [|by rewrite lookup_insert_ne].
    rewrite <- E, lookup_insert_eq. destruct Hn as [->|Hn]; [done|]. by rewrite E in Hn.
Qed.

Lemma tree_delete fs p : tree fs -> (forall x, fs !! (p ++ [x]) = None) -> tree (delete p fs).
Proof.
  intros Ht Hno q y m H. apply lookup_delete_Some in H as [_ H]. destruct (Ht q y m H) as [?|Hq]; [by left|right].
  rewrite lookup_delete_ne; [done|]. intros ->. by rewrite Hno in H.
Qed.

Lemma tree_file_leaf fs p b : tree fs -> p <> [] -> fs !! p = Some (NFile b) -> forall x, fs !! (p ++ [x]) = None.
Proof. intros Ht Hne Hp x. destruct (fs !! (p ++ [x])) eqn:E; [|done]. destruct (Ht _ _ _ E); [done|congruence]. Qed.

Lemma tree_remove ok fs p : tree fs -> p <> [] -> tree (tryRemove ok fs p).
Proof.
  intros Ht Hne. unfold tryRemove, osRemove. destruct ok; [|done]. destruct (fs !! p) as [[|b]|] eqn:E; [|by eapply tree_delete, tree_file_leaf|done].
  case_decide as He; [|done]. apply tree_delete; [done|]. intros x. destruct (fs !! (p ++ [x])) eqn:Ex; [|done].
  apply entries_in in Ex. rewrite He in Ex. by apply elem_of_nil in Ex.
Qed.

Lemma tree_mkdirs p : forall n k fs fs' oe, tree fs -> (k + n <= length p)%nat -> k = 0%nat \/ fs !! take k p = Some NDir ->
  mkdirAll fs ((fun i => take i p) <$> seq (S k) n) = (fs', oe) -> tree fs' /\ (oe = None -> (k + n)%nat = 0%nat \/ fs' !! take (k + n) p = Some NDir).
Proof.
  induction n as [|n IH]; intros k fs fs' oe Ht Hl Hk; cbn [seq fmap list_fmap mkdirAll]; [intros [= <- <-]; by rewrite Nat.add_0_r|].
  destruct (lookup_lt_is_Some_2 p k ltac:(lia)) as [x Hx]. pose proof (take_S_r p k x Hx) as Et.
  assert (Hp : take k p = [] \/ fs !! take k p = Some NDir) by (destruct Hk as [->|?]; [by left|by right]).
  replace (k + S n)%nat with (S k + n)%nat by lia. destruct (fs !! take (S k) p) as [[|b]|] eqn:E.
  - intros H. eapply IH; [done|lia|by right|done].
  - intros [= <- <-]. done.
  - intros H. eapply IH; [..|exact H]; [|lia|right; by rewrite lookup_insert_eq]. rewrite Et. apply tree_insert; [done|done|by left].
Qed.

Lemma take_prefixes (dir : path) n : take n (prefixesOf dir) = (fun i => take i dir) <$> seq 1 (Nat.min n (length dir)).
Proof. unfold prefixesOf. rewrite <- fmap_take. f_equal. apply take_seq. Qed.

Lemma tree_mkdirAll fs fs' oe io dir :
  tree fs -> match ioMkdir io with
             | Some (n, e) => ((mkdirAll fs (take n (prefixesOf dir))).1, Some e)
             | None => mkdirAll fs (prefixesOf dir)
             end = (fs', oe) -> tree fs' /\ (oe = None -> dir = [] \/ fs' !! dir = Some NDir).
Proof.
  intros Ht. destruct (ioMkdir io) as [[n e]|].
  - intros [= <- <-]. split; [|done]. rewrite take_prefixes. destruct (mkdirAll fs _) as [fs1 o1] eqn:E. cbn.
    eapply (tree_mkdirs dir _ 0) in E; [apply E|done|lia|by left].
  - intros E. eapply (tree_mkdirs dir (length dir) 0) in E; [|done|lia|by left]. destruct E as [H1 H2]. split; [done|]. intros Ho.
    destruct (H2 Ho) as [H|H]; [left; by apply nil_length_inv|right]. cbn in H. by rewrite firstn_all in H.
Qed.


Lemma tree_in_dir fs dir x b :
  tree fs -> fs !! dir = Some NDir -> fs !! (dir ++ [x]) <> Some NDir -> tree (<[dir ++ [x] := NFile b]> fs) /\ <[dir ++ [x] := NFile b]> fs !! dir = Some NDir.
Proof.
  intros Ht Hd Hx. split; [apply tree_insert; [done|by right|by right]|].
  rewrite lookup_insert_ne; [done|]. intros E%(f_equal length). rewrite length_app in E. cbn in E. lia.
Qed.

Lemma writeVersion_tree io root now fs k v meta data rerr :
  plain_key k -> name_ok v -> tree fs -> tree (writeVersion io root now fs k v meta data rerr).1.
Proof.
  intros Hk Hv Ht. unfold writeVersion. set (dir := keyPath root k v).
  assert (Hne : dir <> []) by (unfold dir; rewrite keyPath_ok by done; by intros [_ ?]%app_eq_nil).
  assert (Hcons : forall x, dir ++ [x] <> []) by (intros x [_ ?]%app_eq_nil; done).
  destruct (match ioMkdir io with Some _ => _ | None => _ end) as [fs1 oe] eqn:E1. apply tree_mkdirAll in E1 as [H1 Hd]; [|done].
  destruct oe; [done|]. destruct (Hd eq_refl) as [?|Hd1]; [done|]. set (tmp := dir ++ [_]). destruct (ioTemp io); [done|].
  destruct (fs1 !! tmp) eqn:Etmp; [done|]. set (fs2 := <[tmp := NFile data]> fs1).
  destruct (tree_in_dir fs1 dir ("blob-" +:+ ioRandom io +:+ ".tmp") data H1 Hd1 ltac:(by fold tmp; rewrite Etmp)) as [H2 Hd2]. fold tmp fs2 in H2, Hd2.
  assert (Hclean : forall f, tree f -> tree (cleanUp io f tmp dir)) by (intros f H; unfold cleanUp; apply tree_remove, Hne; apply tree_remove; [done|apply Hcons]).
  assert (Hdrop : forall f, tree f -> tree (dropBlob io f dir)) by (intros f H; unfold dropBlob; apply tree_remove, Hne; apply tree_remove; [done|apply Hcons]).
  destruct rerr, (ioCopy io), (ioClose io), (ioRename io); try (by apply Hclean). case_decide as Hb; [by apply Hclean|].
  assert (H3 : tree (delete tmp fs2)) by (apply tree_delete; [done|]; eapply tree_file_leaf; [done|apply Hcons|apply lookup_insert_eq]).
  assert (Hd3 : delete tmp fs2 !! dir = Some NDir).
  { rewrite lookup_delete_ne; [done|]. intros E%(f_equal length). unfold tmp in E. rewrite length_app in E. cbn in E. lia. }
  destruct (tree_in_dir (delete tmp fs2) dir "blob" data H3 Hd3) as [H4 Hd4].
  { intros E%lookup_delete_Some. by destruct E as [_ E]. }
  fold (blobPath dir) in H4, Hd4. case_decide as Hm; [by apply Hclean, Hdrop|].
  assert (H5 : forall b, tree (<[metaPath dir := NFile b]> (<[blobPath dir := NFile data]> (delete tmp fs2)))) by (intros b; by apply tree_in_dir).
  destruct (ioMeta io) as [[[n|] e]|]; [by apply Hclean, Hdrop|by apply Hclean, Hdrop|apply H5].
Qed.

Lemma holdsOn_up fs remains p x : holdsOn fs remains (p ++ [x]) = true -> holdsOn fs remains p = true.
Proof.
  unfold holdsOn. rewrite !existsb_exists. intros (y & Hy & [H1%bool_decide_eq_true_1 H2]%andb_true_iff). exists y. split; [done|].
  apply andb_true_iff. split; [|done]. apply bool_decide_eq_true_2. etrans; [|exact H1]. by exists [x].
Qed.

Lemma localDelete_tree root fails fs k v : tree fs -> tree (localDelete root fails fs k v).1.
Proof.
  intros Ht p x n H. unfold localDelete in *. set (dir := keyPath root k v) in *.
  assert (Hup : forall q, dir `prefix_of` p -> dir `prefix_of` p ++ [q]) by (intros q [y ->]; exists (y ++ [q]); by rewrite app_assoc).
  destruct fails as [[e remains]|]; cbn in H |- *.
  - apply map_lookup_filter_Some in H as [H Hk]. cbn in Hk. destruct (Ht p x n H) as [?|Hp]; [by left|right]. apply map_lookup_filter_Some.
    split; [done|]. cbn. destruct Hk as [Hk|Hk]; [left; naive_solver|right; by eapply holdsOn_up].
  - unfold osRemoveAll in *. apply map_lookup_filter_Some in H as [H Hk]. cbn in Hk. destruct (Ht p x n H) as [?|Hp]; [by left|right].
    apply map_lookup_filter_Some. split; [done|]. cbn. naive_solver.
Qed.

(** ** The latest snapshot *)

#[local] Instance newerName_total : Total newerName.
Proof. intros a b. unfold newerName. destruct (str_ltb a b) eqn:E; [right; by apply str_ltb_asym|by left]. Qed.

#[local] Instance newerName_trans : Transitive newerName.
Proof.
  intros a b c. unfold newerName. intros H1 H2. destruct (str_ltb a c) eqn:E; [|done]. destruct (str_ltb b a) eqn:E2.
  - by rewrite (str_ltb_trans b a c) in H2.
  - by rewrite (str_ltb_total a b) in E by done; congruence.
Qed.

Lemma listVersionDirs_in root fs k v : plain_key k -> v ∈ listVersionDirs root fs k <-> fs !! (root ++ keyNames k ++ [v]) = Some NDir.
Proof.
  intros Hk. unfold listVersionDirs. rewrite merge_sort_Permutation, list_elem_of_omap, ownerPath_ok by done. rewrite app_assoc. split.
  - intros ([w n] & Hin%entries_in & H). cbn in H. case_decide; [|done]. by injection H as ->; subst.
  - intros H. exists (v, NDir). split; [by apply entries_in|done].
Qed.

(** Each version directory of the key holds a snapshot. *)
Definition versions_complete (root : path) (fs : fsys) (k : SnapshotKey) : Prop :=
  forall v, fs !! (root ++ keyNames k ++ [v]) = Some NDir -> name_ok v /\ is_Some (snapAt root fs k v).

(** C33: The latest snapshot.  In a directory tree, when every version directory
    of a plain key holds a complete snapshot, the latest is the one with the
    greatest version string, and there is none exactly when the key has no
    snapshot. *)
Theorem local_latest root fs k :
  plain_key k -> tree fs -> versions_complete root fs k ->
  match localGetLatest root fs k with
  | Ok x => exists v, snapAt root fs k v = Some x /\ forall w, name_ok w -> is_Some (snapAt root fs k w) -> str_ltb v w = false
  | Err e => e = ErrNoSnapshot /\ forall v, name_ok v -> snapAt root fs k v = None
  end.
Proof.
  intros Hk Ht Hc. pose proof (listVersionDirs_in root fs k) as Hin.
  assert (Hdir : forall v, name_ok v -> is_Some (snapAt root fs k v) -> v ∈ listVersionDirs root fs k).
  { intros v Hv [x Hx]. apply Hin; [done|]. rewrite snapAt_in, keyPath_ok in Hx by done. unfold snapIn in Hx.
    destruct (fs !! metaPath _) as [n|] eqn:E; [|done]. destruct (Ht _ _ _ E) as [E0|E0]; [|done].
    apply app_eq_nil in E0 as [_ E0]. done. }
  assert (Hs : StronglySorted newerName (listVersionDirs root fs k)) by apply (StronglySorted_merge_sort _).
  unfold localGetLatest. destruct (listVersionDirs root fs k) as [|v l] eqn:E.
  - split; [done|]. intros v Hv. destruct (snapAt root fs k v) eqn:Es; [|done].
    assert (Hi : v ∈ @nil string) by (apply Hdir; [done|by rewrite Es]). by apply elem_of_nil in Hi.
  - assert (Hv : fs !! (root ++ keyNames k ++ [v]) = Some NDir) by (apply Hin; [done|by left]).
    destruct (Hc v Hv) as [Hok [x Hx]]. pose proof Hx as Hg. unfold snapAt in Hg. destruct (localGet root fs k v); [|done]. injection Hg as ->.
    exists v. split; [done|]. intros w Hw Hsw. apply Hdir in Hsw; [|done]. apply elem_of_cons in Hsw as [->|Hsw]; [apply str_ltb_irrefl|].
    inversion Hs as [|? ? _ Hall]; subst. rewrite Forall_forall in Hall. by apply Hall.
Qed.


(** A walk over readable directories yields every snapshot of a plain key. *)
Lemma walk_complete root unreadable fs k v b md :
  plain_key k -> name_ok v -> tree fs -> (forall p, unreadable p = false) ->
  snapAt root fs k v = Some (b, md) -> (k, v, md) ∈ (localWalk root unreadable fs).1.
Proof.
  intros Hk Hv Ht Hr Hs. rewrite snapAt_in, keyPath_ok in Hs by done. set (dir := root ++ keyNames k ++ [v]) in *. unfold snapIn in Hs.
  destruct (fs !! metaPath dir) as [[|j]|] eqn:E; [done| |done].
  assert (Hd : fs !! dir = Some NDir) by (destruct (Ht _ _ _ E) as [[_ [_ E0]%app_eq_nil]%app_eq_nil|?]; done).
  cbn. apply list_elem_of_omap. exists (dir, NDir). split; [by apply elem_of_map_to_list|]. unfold walkEntry. cbn [fst snd].
  rewrite decide_True by (split; [done|by exists (keyNames k ++ [v])]).
  assert (visited root unreadable dir = true) as ->.
  { apply forallb_forall. intros i _. by rewrite Hr. }
  assert (drop (length root) dir = keyNames k ++ [v]) as -> by (unfold dir; apply drop_app_length). cbn. unfold readMetadata, readFile. rewrite E. cbn.
  destruct (fs !! blobPath dir) as [[|b0]|]; [done| |done]. destruct (meta_Unmarshal j) as [md0|]; [|done]. injection Hs as -> ->.
  destruct Hk as ([-> _] & [-> _] & [-> _] & [-> _]). by destruct k.
Qed.

End Local.

(** ** Runs *)

(** Metadata as a sequence of its fields and an end mark. *)
Definition enc_md (md : SnapshotMetadata) : bytes :=
  enc_str (Tenant (mKey md)) ++ enc_str (Workspace (mKey md)) ++ enc_str (User (mKey md)) ++ enc_str (OwnerKey (mKey md)) ++
  enc_str (Version md) ++ enc_Z (CreatedAt md) ++ enc_Z (SizeBytes md) ++ enc_str (Runtime md) ++ enc_str (mFormat md) ++
  concat (enc_pair <$> map_to_list (Tags md)) ++ [Byte.x02].

Definition dec_entry (f : bytes -> option (list (string * string) * bytes)) (b : bytes) : option (list (string * string) * bytes) :=
  '(k, b) ← dec_str b; '(v, b) ← dec_str b; '(l, b) ← f b; Some ((k, v) :: l, b).

Fixpoint dec_tags (fuel : nat) (b : bytes) : option (list (string * string) * bytes) :=
  match fuel with
  | O => None
  | S fuel => match b with
              | Byte.x02 :: b => Some ([], b)
              | _ => dec_entry (dec_tags fuel) b
              end
  end.

Definition dec_rest (fuel : nat) (b : bytes) : option (SnapshotMetadata * bytes) :=
  '(t, b) ← dec_str b; '(w, b) ← dec_str b; '(u, b) ← dec_str b; '(o, b) ← dec_str b; '(v, b) ← dec_str b;
  '(c, b) ← dec_Z b; '(z, b) ← dec_Z b; '(r, b) ← dec_str b; '(f, b) ← dec_str b;
  '(l, b) ← dec_tags fuel b; Some (MkMeta (MkKey t w u o) v c z r f (list_to_map l), b).

Definition dec_md (b : bytes) : option SnapshotMetadata :=
  match dec_rest (length b) b with Some (md, []) => Some md | _ => None end.

#[export] Instance ref_meta : MetaCodec := {| meta_Marshal := enc_md; meta_Unmarshal := dec_md |}.

Lemma enc_str_head s : exists b l, enc_str s = b :: l /\ b <> Byte.x02.
Proof. destruct s; cbn; eauto. Qed.

Lemma dec_tags_enc l r : forall fuel, (length l < fuel)%nat -> dec_tags fuel (concat (enc_pair <$> l) ++ Byte.x02 :: r) = Some (l, r).
Proof.
  induction l as [|[k v] l IH]; intros [|fuel] Hf; try (cbn in Hf; lia); [done|].
  change (concat (enc_pair <$> (k, v) :: l)) with (enc_pair (k, v) ++ concat (enc_pair <$> l)). unfold enc_pair at 1. cbn [fst snd].
  rewrite <- !app_assoc. set (e := enc_str k ++ _). assert (He : dec_entry (dec_tags fuel) e = Some ((k, v) :: l, r)).
  { unfold dec_entry, e. rewrite dec_str_enc. cbn. rewrite dec_str_enc. cbn. rewrite IH; [done|]. cbn in Hf. lia. }
  destruct (enc_str_head k) as (b & t & Ek & Hb). unfold e in *. rewrite Ek in *. cbn [app dec_tags]. by destruct b.
Qed.

Lemma dec_rest_enc md r fuel : (length (map_to_list (Tags md)) < fuel)%nat -> dec_rest fuel (enc_md md ++ r) = Some (md, r).
Proof.
  intros Hf. unfold dec_rest, enc_md. rewrite <- !app_assoc. do 5 (rewrite dec_str_enc; cbn -[dec_str dec_Z dec_tags enc_str enc_Z]).
  do 2 (rewrite dec_Z_enc; cbn -[dec_str dec_Z dec_tags enc_str enc_Z]). do 2 (rewrite dec_str_enc; cbn -[dec_str dec_tags enc_str]).
  rewrite dec_tags_enc by done. cbn. rewrite list_to_map_to_list. by destruct md as [[]].
Qed.

Lemma dec_str_more b : forall s r c, dec_str b = Some (s, r) -> dec_str (b ++ c) = Some (s, r ++ c).
Proof.
  assert (forall n b, (length b <= n)%nat -> forall s r c, dec_str b = Some (s, r) -> dec_str (b ++ c) = Some (s, r ++ c)) as H; [|by eapply H].
  clear b. intros n. induction n as [|n IH]; intros [|x b] Hn s r c; cbn in Hn; try done; try lia. cbn [app dec_str].
  destruct x; try done; [by intros [= <- <-]|]. destruct b as [|y b]; [done|]. cbn [app]. intros ([s' r'] & Hd & [= <- <-])%bind_Some.
  cbn in Hn. by rewrite (IH b ltac:(lia) _ _ c Hd).
Qed.

Lemma dec_pos_more b : forall p r c, dec_pos b = Some (p, r) -> dec_pos (b ++ c) = Some (p, r ++ c).
Proof.
  induction b as [|x b IH]; intros p r c; [done|]. cbn [app dec_pos]. destruct x; try done; [..|by intros [= <- <-]];
    intros ([q r'] & Hd & [= <- <-])%bind_Some; by rewrite (IH _ _ c Hd).
Qed.

Lemma dec_Z_more b z r c : dec_Z b = Some (z, r) -> dec_Z (b ++ c) = Some (z, r ++ c).
Proof.
  destruct b as [|x b]; [done|]. cbn. destruct x; try done; [by intros [= <- <-]|..];
    intros ([q r'] & Hd & [= <- <-])%bind_Some; by rewrite (dec_pos_more _ _ _ c Hd).
Qed.

Lemma dec_tags_more fuel : forall b l r c k, dec_tags fuel b = Some (l, r) -> dec_tags (fuel + k) (b ++ c) = Some (l, r ++ c).
Proof.
  induction fuel as [|fuel IH]; intros b l r c k; [done|]. cbn [dec_tags Nat.add].
  assert (Hp : dec_entry (dec_tags fuel) b = Some (l, r) -> dec_entry (dec_tags (fuel + k)) (b ++ c) = Some (l, r ++ c)).
  { unfold dec_entry. intros ([s1 r1] & H1 & ([s2 r2] & H2 & ([l3 r3] & H3 & [= <- <-])%bind_Some)%bind_Some)%bind_Some.
    rewrite (dec_str_more _ _ _ c H1). cbn. rewrite (dec_str_more _ _ _ c H2). cbn. by rewrite (IH _ _ _ c k H3). }
  destruct b as [|x b]; [done|]. destruct x; first [exact Hp|by intros [= <- <-]].
Qed.

Lemma dec_rest_more fuel b md r c k : dec_rest fuel b = Some (md, r) -> dec_rest (fuel + k) (b ++ c) = Some (md, r ++ c).
Proof.
  unfold dec_rest. intros H. repeat (apply bind_Some in H as ([? ?] & ?H & H)).
  injection H as <- <-.
  repeat match goal with
  | H : dec_str _ = Some _ |- _ => rewrite (dec_str_more _ _ _ c H); clear H; cbn -[dec_str dec_Z dec_tags]
  | H : dec_Z _ = Some _ |- _ => rewrite (dec_Z_more _ _ _ c H); clear H; cbn -[dec_str dec_Z dec_tags]
  end.
  by erewrite dec_tags_more.
Qed.

Lemma concat_pairs_len l : (length l <= length (concat (enc_pair <$> l)))%nat.
Proof.
  induction l as [|x l IH]; [done|]. change (concat (enc_pair <$> x :: l)) with (enc_pair x ++ concat (enc_pair <$> l)).
  destruct (enc_pair_cons x) as (b & t & ->). rewrite length_app. cbn. lia.
Qed.

Lemma enc_md_fuel md : (length (map_to_list (Tags md)) < length (enc_md md))%nat.
Proof. unfold enc_md. rewrite !length_app. pose proof (concat_pairs_len (map_to_list (Tags md))). cbn [length]. lia. Qed.

#[export] Instance ref_meta_laws : MetaCodecLaws ref_meta.
Proof.
  refine {| meta_safe := (fun _ => True) : SnapshotMetadata -> Prop |}; cbn; unfold dec_md.
  - intros md _. pose proof (dec_rest_enc md [] _ (enc_md_fuel md)) as H. rewrite app_nil_r in H. by rewrite H.
  - intros md n Hn. destruct (dec_rest _ (take n (enc_md md))) as [[md' [|x r]]|] eqn:E; [|done|done]. exfalso.
    apply (dec_rest_more _ _ _ _ (drop n (enc_md md)) (length (enc_md md))) in E. rewrite take_drop in E. cbn in E.
    pose proof (dec_rest_enc md [] (length (take n (enc_md md)) + length (enc_md md))) as H. rewrite app_nil_r in H.
    rewrite H in E by (pose proof (enc_md_fuel md); lia). injection E as _ E. apply (f_equal length) in E. rewrite length_drop in E. cbn in E. lia.
Defined.

Definition io_ok : putIO := MkPutIO None None "1" None None None None (fun _ => true).
Definition lroot : path := ["data"].
Definition lkey : SnapshotKey := MkKey "acme" "" "" "sandbox/1".
Definition lmeta : SnapshotMetadata := MkMeta lkey "" 0 0 "docker" "tar" ∅.
Definition at_sec (s : Z) : utcTime := UTC 2026 1 2 3 4 s 123456789.

Definition lput (io : putIO) (fs : fsys) (sec : Z) (k : SnapshotKey) (data : bytes) : fsys * result SnapshotMetadata :=
  localPut io lroot (at_sec sec) [Byte.x01] 7 fs k lmeta data None.

Definition lfs1 : fsys := (lput io_ok ∅ 5 lkey [Byte.x61]).1.

(** A put whose temporary file could not be made leaves an empty version
    directory; it is the newest, and from then on the key has no latest
    snapshot, although the complete one is still listed. *)
Lemma interrupted_put_hides :
  let fs2 := (lput (MkPutIO None (Some (EOther "no space left on device")) "1" None None None None (fun _ => true)) lfs1 6 lkey [Byte.x62]).1 in
  fst <$> localGetLatest lroot lfs1 lkey = Ok [Byte.x61] /\
  localGetLatest lroot fs2 lkey = Err ErrNoSnapshot /\ localGetLatestMetadata lroot fs2 lkey = Err ErrNoSnapshot /\
  Version <$> localList lroot fs2 lkey = [NewVersion (at_sec 5) [Byte.x01]].
Proof. vm_compute. done. Qed.

(** A walk that cannot read a directory, or the metadata of a snapshot, leaves
    it out and reports success. *)
Lemma walk_skips :
  let dir := keyPath lroot lkey (NewVersion (at_sec 5) [Byte.x01]) in
  length (localWalk lroot (fun _ => false) lfs1).1 = 1%nat /\
  localWalk lroot (fun p => bool_decide (p = ["data"; "acme"])) lfs1 = ([], None) /\
  localWalk lroot (fun _ => false) (<[metaPath dir := NFile []]> lfs1) = ([], None).
Proof. vm_compute. done. Qed.

(** The tenant "_" reads the snapshots of the empty tenant, and a tenant whose
    name is an encoding reads those of the tenant it encodes. *)
Lemma alias_reads :
  let k0 := MkKey "" "" "" "x" in let k1 := MkKey "_" "" "" "x" in
  let a := MkKey "a/b" "" "" "x" in let b := MkKey "YS9i" "" "" "x" in
  fst <$> localGetLatest lroot (lput io_ok ∅ 5 k0 [Byte.x61]).1 k1 = Ok [Byte.x61] /\
  fst <$> localGetLatest lroot (lput io_ok ∅ 5 a [Byte.x62]).1 b = Ok [Byte.x62] /\
  ~ plain "_" /\ ~ plain "YS9i" /\ plain "a/b".
Proof.
  split; [vm_compute; done|]. split; [vm_compute; done|].
  split; [by apply (bool_decide_eq_false_1 _); vm_compute|]. split; [by apply (bool_decide_eq_false_1 _); vm_compute|by apply (bool_decide_eq_true_1 _); vm_compute].
Qed.

(** A tenant named ".." leaves the root directory, and the version "" names all
    versions of a key. *)
Lemma dotdot_escapes :
  keyPath lroot (MkKey ".." "" "" "x") "v" = ["_"; "_"; "x"; "v"] /\
  localGetLatest lroot (localDelete lroot None lfs1 lkey "").1 lkey = Err ErrNoSnapshot.
Proof. vm_compute. done. Qed.

Lemma lkey_plain : plain_key lkey.
Proof. repeat split; by apply (bool_decide_eq_true_1 _); vm_compute. Qed.

Definition lops : list localOp :=
  [ LPut (MkPutIO None None "2" None None None (Some (Some 3%nat, EOther "no space left on device")) (fun _ => false))
      (at_sec 6) [Byte.x02] 8 lkey lmeta [Byte.x62] None;
    LPut io_ok (at_sec 7) [Byte.x03] 9 (MkKey "" "" "" "y") lmeta [Byte.x63] None;
    LDelete (Some (EOther "busy", fun _ => true)) (MkKey "" "" "" "y") (NewVersion (at_sec 7) [Byte.x03]) ].

Lemma local_put_survives_witness :
  exists md, (lput io_ok ∅ 5 lkey [Byte.x61]).2 = Ok md /\
    localGet lroot (foldl (localStep lroot) lfs1 lops) lkey (Version md) = Ok ([Byte.x61], md).
Proof.
  assert (Hok : is_ok (lput io_ok ∅ 5 lkey [Byte.x61]).2 = true) by (vm_compute; reflexivity). unfold lfs1.
  destruct (lput io_ok ∅ 5 lkey [Byte.x61]) as [fs1 [md|e]] eqn:E; [|discriminate Hok]. exists md. split; [reflexivity|]. cbn [fst].
  assert (Hv : Version md = NewVersion (at_sec 5) [Byte.x01]) by (apply writeVersion_ok in E as (_ & -> & _); reflexivity).
  apply (local_put_survives (ML := ref_meta_laws) io_ok lroot (at_sec 5) [Byte.x01] 7 ∅ lkey lmeta [Byte.x61] None fs1 md lops lkey_plain E I).
  rewrite Hv. assert (Hy : plain_key (MkKey "" "" "" "y")) by (repeat split; by apply (bool_decide_eq_true_1 _); vm_compute).
  repeat constructor; try (apply lkey_plain || apply Hy || apply NewVersion_name); by apply (bool_decide_eq_true_1 _); vm_compute.
Defined.

Lemma local_latest_witness :
  exists x v, localGetLatest lroot lfs1 lkey = Ok x /\ snapAt lroot lfs1 lkey v = Some x.
Proof.
  assert (Ht : tree lfs1).
  { apply writeVersion_tree; [apply lkey_plain|apply NewVersion_name|]. intros p x n H. by rewrite lookup_empty in H. }
  assert (Hc : versions_complete lroot lfs1 lkey).
  { intros v Hv. apply listVersionDirs_in in Hv; [|apply lkey_plain].
    assert (El : listVersionDirs lroot lfs1 lkey = [NewVersion (at_sec 5) [Byte.x01]]) by (vm_compute; reflexivity).
    rewrite El in Hv. apply list_elem_of_singleton in Hv as ->. split; [apply NewVersion_name|]. vm_compute. eauto. }
  pose proof (local_latest lroot lfs1 lkey lkey_plain Ht Hc) as H.
  assert (Hok : is_ok (localGetLatest lroot lfs1 lkey) = true) by (vm_compute; reflexivity).
  destruct (localGetLatest lroot lfs1 lkey) as [x|e] eqn:E; [|discriminate Hok].
  destruct H as (v & Hv & _). exists x, v. split; [reflexivity|exact Hv].
Defined.
