(* ===== verification/CacheStore.v ===== *)
(** The snapshot cache (casstore/snapshot/store_cache.go).

    A [SnapshotStore] upstream and a [LocalStore] directory that holds copies of
    some of its snapshots, with an index of what was copied and how large it is.
    System calls of the copies and of the evictions fail as they like.

    [step_coherent]: through any history of operations, with other clients at
    the upstream, a copy has the bytes and the metadata of the snapshot it was
    made of, as long as the upstream has it, and the index counts what its
    entries add up to; [cacheEvict_spec]: after an eviction that is no more than
    the limit.  [cached_latest]: the latest snapshot read through the cache is
    the upstream's latest.  [stale_copy] and [hits_not_counted] are the runs in
    which a deleted snapshot is still read, and a copy that was just used is
    evicted before one that was not. *)

From stdpp Require Import sorting.
From S2P Require Import Prelude GoStrings Decimal GoText Sha256 Manifest SnapStore LocalStore.
From Stdlib Require Import Ascii.

(** ** Names in the index *)

Definition cacheKeyFor (key : SnapshotKey) (version : string) : string :=
  sanitize (Tenant key) +:+ "/" +:+ sanitize (Workspace key) +:+ "/" +:+ sanitize (User key) +:+ "/" +:+ sanitize (OwnerKey key) +:+ "/" +:+ version.

Definition unSanitize (s : string) : string := if decide (s = "_") then "" else s.

Definition splitSlash (s : string) : list string := Split s "/"%char.

Definition splitSegs (p : string) : list string := filter (fun seg => seg <> "") (splitSlash p).

Definition parseCacheKey (ck : string) : option (SnapshotKey * string) :=
  match splitSegs ck with
  | [t; w; u; o; v] => Some (MkKey (unSanitize t) (unSanitize w) (unSanitize u) (unSanitize o), v)
  | _ => None
  end.

(** ** Eviction *)

Definition cacheEntry : Type := string * Z.

(** Victims from the front until the total is within the limit. *)
Fixpoint collectEvictions (maxBytes : Z) (entries : list cacheEntry) (total : Z) : list cacheEntry * list cacheEntry * Z :=
  match entries with
  | [] => ([], [], total)
  | v :: rest => if maxBytes <? total then let '(victims, rest, total) := collectEvictions maxBytes rest (total - v.2) in (v :: victims, rest, total)
                 else ([], entries, total)
  end.

Fixpoint removeEntry (ck : string) (entries : list cacheEntry) (total : Z) : list cacheEntry * Z :=
  match entries with
  | [] => ([], total)
  | e :: rest => if decide (e.1 = ck) then (rest, total - e.2)
                 else let '(rest, total) := removeEntry ck rest total in (e :: rest, total)
  end.

Section Cache.
  Context {M : MetaCodec} {U : SnapshotStore} (root : path) (maxBytes : Z).

Record CacheStore := MkCache { csUp : sstore; csFs : fsys; csEntries : list cacheEntry; csTotal : Z }.

(** What the calls of one operation do: those of the copy, and for each
    eviction the error of the removal and what it leaves. *)
Record cacheIO := MkCIO { cioPut : putIO; cioNow : Z; cioEvict : nat -> option (err * (path -> bool)); cioDelete : option (err * (path -> bool)) }.

Fixpoint evictAll (fails : nat -> option (err * (path -> bool))) (n : nat) (fs : fsys) (victims : list cacheEntry) : fsys :=
  match victims with
  | [] => fs
  | e :: victims =>
      let fs := match parseCacheKey e.1 with
                | Some (key, version) => (localDelete root (fails n) fs key version).1
                | None => fs
                end in
      evictAll fails (S n) fs victims
  end.

Definition cacheEvict (io : cacheIO) (c : CacheStore) : CacheStore :=
  let '(victims, entries, total) := collectEvictions maxBytes (csEntries c) (csTotal c) in
  MkCache (csUp c) (evictAll (cioEvict io) 0 (csFs c) victims) entries total.

(** The copy, its index entry and the evictions it causes. *)
Definition addCopy (io : cacheIO) (c : CacheStore) (key : SnapshotKey) (meta : SnapshotMetadata) (data : bytes) : CacheStore :=
  let '(fs, res) := putWithMeta (cioPut io) root (cioNow io) (csFs c) meta data None in
  match res with
  | Err _ => MkCache (csUp c) fs (csEntries c) (csTotal c)
  | Ok _ => cacheEvict io (MkCache (csUp c) fs (csEntries c ++ [(cacheKeyFor key (Version meta), SizeBytes meta)]) (csTotal c + SizeBytes meta))
  end.

(** ** Operations *)

Definition cachePut (io : cacheIO) (c : CacheStore) (key : SnapshotKey) (meta : SnapshotMetadata) (r : result bytes)
  : CacheStore * result SnapshotMetadata :=
  match r with
  | Err e => (c, Err e)
  | Ok buf =>
      let '(u, res) := sPut (csUp c) key meta buf in
      let c := MkCache u (csFs c) (csEntries c) (csTotal c) in
      match res with
      | Err e => (c, Err e)
      | Ok stored => (addCopy io c key stored buf, Ok stored)
      end
  end.

Definition cacheGet (io : cacheIO) (c : CacheStore) (key : SnapshotKey) (version : string) : CacheStore * result (bytes * SnapshotMetadata) :=
  match localGet root (csFs c) key version with
  | Ok x => (c, Ok x)
  | Err _ =>
      match sGet (csUp c) key version with
      | Err e | Ok (Err e, _) => (c, Err e)
      | Ok (Ok data, upMeta) => (addCopy io c key upMeta data, Ok (data, upMeta))
      end
  end.

Definition cacheGetLatest (io : cacheIO) (c : CacheStore) (key : SnapshotKey) : CacheStore * result (bytes * SnapshotMetadata) :=
  match sGetLatest (csUp c) key with
  | Err e => (c, Err e)
  | Ok (_, upMeta) => cacheGet io c key (Version upMeta)
  end.

Definition cacheGetLatestMetadata (c : CacheStore) (key : SnapshotKey) : result SnapshotMetadata :=
  upMeta ← sGetLatestMetadata (csUp c) key;
  match localGetLatestMetadata root (csFs c) key with
  | Ok localMeta => if decide (Version localMeta = Version upMeta) then Ok localMeta else Ok upMeta
  | Err _ => Ok upMeta
  end.

Definition cacheList (c : CacheStore) (key : SnapshotKey) : result (list SnapshotMetadata) := sList (csUp c) key.

Definition cacheWalk (c : CacheStore) : list (SnapshotKey * string * SnapshotMetadata) * option err := sWalk (csUp c).

Definition cacheDelete (io : cacheIO) (c : CacheStore) (key : SnapshotKey) (version : string) : CacheStore * result unit :=
  let '(u, res) := sDelete (csUp c) key version in
  match res with
  | Err e => (MkCache u (csFs c) (csEntries c) (csTotal c), Err e)
  | Ok _ =>
      let fs := (localDelete root (cioDelete io) (csFs c) key version).1 in
      let '(entries, total) := removeEntry (cacheKeyFor key version) (csEntries c) (csTotal c) in
      (MkCache u fs entries total, Ok tt)
  end.

(** ** Start-up *)

(** A version directory found by the scan: its index name, its size and the
    modification time of its blob; times and the size of a directory are
    given. *)
Definition seedEntry (mtime : path -> Z) (dirSize : Z) (fs : fsys) (x : path * node) : option (cacheEntry * Z) :=
  match x.2, fs !! blobPath x.1 with
  | NDir, Some n =>
      if decide (root `prefix_of` x.1) then
        match drop (length root) x.1 with
        | [t; w; u; o; v] =>
            Some ((cacheKeyFor (MkKey (unSanitize t) (unSanitize w) (unSanitize u) (unSanitize o)) v,
                   match n with NFile b => len b | NDir => dirSize end), mtime (blobPath x.1))
        | _ => None
        end
      else None
  | _, _ => None
  end.

Definition by_mtime : relation (cacheEntry * Z) := fun a b => a.2 <= b.2.

#[export] Instance by_mtime_dec a b : Decision (by_mtime a b).
Proof. unfold by_mtime. apply _. Defined.

Definition sumSizes (entries : list cacheEntry) : Z := foldr (fun e n => e.2 + n) 0 entries.

(** [scan] is the order of the directory walk. *)
Definition seedIndex (scan : list (path * node) -> list (path * node)) (mtime : path -> Z) (dirSize : Z) (u : sstore) (fs : fsys) : CacheStore :=
  let entries := fst <$> merge_sort by_mtime (omap (seedEntry mtime dirSize fs) (scan (map_to_list fs))) in
  MkCache u fs entries (sumSizes entries).

Definition NewCacheStore (scan : list (path * node) -> list (path * node)) (mtime : path -> Z) (dirSize : Z) (fails : option (nat * err)) (u : sstore) (fs : fsys)
  : result CacheStore :=
  let '(fs, oe) := NewLocalStore root fails fs in
  match oe with Some e => Err e | None => Ok (seedIndex scan mtime dirSize u fs) end.


(** ** Copies and originals *)

Context {ML : MetaCodecLaws M} {SL : SnapshotStoreLaws U}.

Definition blobOf (fs : fsys) (dir : path) : option bytes := match fs !! blobPath dir with Some (NFile b) => Some b | _ => None end.
Definition metaOf (fs : fsys) (dir : path) : option SnapshotMetadata :=
  match fs !! metaPath dir with Some (NFile j) => meta_Unmarshal j | _ => None end.

(** The metadata of a copy: the size is that of the bytes, a zero time is
    replaced. *)
Record same_meta (b : bytes) (md md' : SnapshotMetadata) : Prop := {
  sm_key : mKey md = mKey md'; sm_version : Version md = Version md'; sm_runtime : Runtime md = Runtime md';
  sm_format : mFormat md = mFormat md'; sm_tags : Tags md = Tags md'; sm_created : CreatedAt md' <> 0 -> CreatedAt md = CreatedAt md';
  sm_size : SizeBytes md = len b \/ SizeBytes md = SizeBytes md' }.

(** A snapshot the cache can copy under its own name. *)
Definition original_ok (kv : SnapshotKey * string) (x : bytes * SnapshotMetadata) : Prop :=
  mKey x.2 = kv.1 /\ Version x.2 = kv.2 /\ plain_key kv.1 /\ name_ok kv.2 /\
  forall now, meta_safe (stampLocal kv.1 kv.2 now (len x.1) x.2).

Definition copy_ok (fs : fsys) (kv : SnapshotKey * string) (x : bytes * SnapshotMetadata) : Prop :=
  let dir := keyPath root kv.1 kv.2 in
  (forall b, blobOf fs dir = Some b -> b = x.1) /\ (forall md, metaOf fs dir = Some md -> same_meta x.1 md x.2).

(** Nothing of this version is in the directory. *)
Definition uncached (fs : fsys) (kv : SnapshotKey * string) : Prop :=
  let dir := keyPath root kv.1 kv.2 in blobOf fs dir = None /\ metaOf fs dir = None.

Record coherent (c : CacheStore) : Prop := {
  co_up : map_Forall original_ok (snaps (csUp c));
  co_copies : map_Forall (copy_ok (csFs c)) (snaps (csUp c));
  co_total : csTotal c = sumSizes (csEntries c) }.

Lemma snapIn_parts fs dir b md : snapIn fs dir = Some (b, md) <-> blobOf fs dir = Some b /\ metaOf fs dir = Some md.
Proof.
  unfold snapIn, blobOf, metaOf. destruct (fs !! metaPath dir) as [[|j]|], (fs !! blobPath dir) as [[|b0]|]; try naive_solver.
  destruct (meta_Unmarshal j); cbn; naive_solver.
Qed.

(** Only removals. *)
Definition shrinks (fs fs' : fsys) : Prop := forall p, fs' !! p = fs !! p \/ fs' !! p = None.

Lemma shrinks_copy fs fs' kv x : shrinks fs fs' -> copy_ok fs kv x -> copy_ok fs' kv x.
Proof.
  intros H [H1 H2]. split; unfold blobOf, metaOf in *.
  - intros b Hb. apply H1. destruct (H (blobPath (keyPath root kv.1 kv.2))) as [E|E]; rewrite E in Hb; done.
  - intros md Hm. apply H2. destruct (H (metaPath (keyPath root kv.1 kv.2))) as [E|E]; rewrite E in Hm; done.
Qed.

Lemma localDelete_shrinks fails fs k v : shrinks fs (localDelete root fails fs k v).1.
Proof.
  intros p. unfold localDelete, osRemoveAll. destruct fails as [[e remains]|]; cbn; destruct (filter _ fs !! p) as [n|] eqn:E; [|by right| |by right];
    apply map_lookup_filter_Some in E as [E _]; by left.
Qed.

Lemma evictAll_shrinks fails victims : forall n fs, shrinks fs (evictAll fails n fs victims).
Proof.
  induction victims as [|e victims IH]; intros n fs; cbn; [by left|]. intros p.
  set (fs1 := match parseCacheKey e.1 with Some _ => _ | None => _ end). assert (Hs : shrinks fs fs1).
  { unfold fs1. destruct (parseCacheKey e.1) as [[k v]|]; [apply localDelete_shrinks|by left]. }
  destruct (IH (S n) fs1 p) as [->| ->]; [apply Hs|by right].
Qed.

Lemma sumSizes_cons e l : sumSizes (e :: l) = e.2 + sumSizes l.
Proof. done. Qed.

Lemma collect_sum entries : forall total victims rest total', collectEvictions maxBytes entries total = (victims, rest, total') ->
  entries = victims ++ rest /\ total' = total - sumSizes victims /\ (rest = [] \/ total' <= maxBytes).
Proof.
  induction entries as [|e entries IH]; intros total victims rest total'; cbn; [intros [= <- <- <-]; cbn; split_and!; [done|lia|by left]|].
  destruct (Z.ltb_spec maxBytes total).
  - destruct (collectEvictions maxBytes entries (total - e.2)) as [[vs rs] t] eqn:E. intros [= <- <- <-]. destruct (IH _ _ _ _ E) as (-> & -> & Hr).
    rewrite sumSizes_cons. split_and!; [done|lia|done].
  - intros [= <- <- <-]. cbn. split_and!; [done|lia|by right].
Qed.

Lemma sumSizes_app l k : sumSizes (l ++ k) = sumSizes l + sumSizes k.
Proof. induction l as [|e l IH]; [done|]. cbn [app]. rewrite !sumSizes_cons. lia. Qed.

Lemma cacheEvict_spec io c c' : cacheEvict io c = c' ->
  csUp c' = csUp c /\ shrinks (csFs c) (csFs c') /\ (csTotal c = sumSizes (csEntries c) -> csTotal c' = sumSizes (csEntries c') /\ (0 <= maxBytes -> csTotal c' <= maxBytes)).
Proof.
  unfold cacheEvict. destruct (collectEvictions _ _ _) as [[vs rs] t] eqn:E. intros <-. cbn [csUp csFs csTotal csEntries]. apply collect_sum in E as (He & Ht & Hr).
  split_and!; [done|apply evictAll_shrinks|]. intros Hs. rewrite Hs, He, sumSizes_app in Ht. split; [lia|]. intros Hm.
  destruct Hr as [->|?]; [|done]. cbn in Ht. lia.
Qed.

Lemma removeEntry_sum ck entries : forall total es t, removeEntry ck entries total = (es, t) -> total - sumSizes entries = t - sumSizes es.
Proof.
  induction entries as [|e entries IH]; intros total es t; cbn [removeEntry]; [intros [= <- <-]; done|]. rewrite sumSizes_cons. case_decide; [intros [= <- <-]; lia|].
  destruct (removeEntry ck entries total) as [es' t'] eqn:E. intros [= <- <-]. apply IH in E. rewrite sumSizes_cons. lia.
Qed.


(** What a write that ends anywhere leaves in its version's directory: the new
    bytes and metadata, or what was there. *)
Section Write.
  Context (fs0 : fsys) (dir : path) (data : bytes) (stamp : SnapshotMetadata) (Hsafe : meta_safe stamp).

Definition mixed (fs : fsys) : Prop :=
  (forall b, blobOf fs dir = Some b -> b = data \/ blobOf fs0 dir = Some b) /\
  (forall md, metaOf fs dir = Some md -> md = stamp \/ metaOf fs0 dir = Some md).

Lemma mixed_shrinks fs fs' : mixed fs -> shrinks fs fs' -> mixed fs'.
Proof.
  intros [H1 H2] H. split; unfold blobOf, metaOf in *.
  - intros b Hb. apply H1. destruct (H (blobPath dir)) as [E|E]; rewrite E in Hb; done.
  - intros md Hm. apply H2. destruct (H (metaPath dir)) as [E|E]; rewrite E in Hm; done.
Qed.

Lemma mixed_same fs fs' : mixed fs -> fs' !! blobPath dir = fs !! blobPath dir -> fs' !! metaPath dir = fs !! metaPath dir -> mixed fs'.
Proof. intros H E1 E2. unfold mixed, blobOf, metaOf in *. by rewrite E1, E2. Qed.

Lemma blob_not_meta : blobPath dir <> metaPath dir.
Proof. unfold blobPath, metaPath. by intros [= ?]%app_inv_head. Qed.

Lemma mixed_blob fs : mixed fs -> mixed (<[blobPath dir := NFile data]> fs).
Proof.
  intros [H1 H2]. split; unfold blobOf, metaOf in *; [rewrite lookup_insert_eq; intros b [= <-]; by left|].
  by rewrite lookup_insert_ne by apply blob_not_meta.
Qed.

Lemma mixed_meta fs n : mixed fs -> mixed (<[metaPath dir := NFile (take n (meta_Marshal stamp))]> fs).
Proof.
  intros [H1 H2]. split; unfold blobOf, metaOf in *; [rewrite lookup_insert_ne by (intros E; by apply blob_not_meta); done|].
  rewrite lookup_insert_eq. intros md Hm. destruct (Nat.lt_ge_cases n (length (meta_Marshal stamp))); [by rewrite meta_cut in Hm|].
  rewrite take_ge, meta_round in Hm by done. injection Hm as <-. by left.
Qed.

Lemma mkdirAll_other ps : forall fs p, p ∉ ps -> (mkdirAll fs ps).1 !! p = fs !! p.
Proof.
  induction ps as [|q ps IH]; intros fs p Hp; cbn; [done|]. apply not_elem_of_cons in Hp as [Hq Hp]. destruct (fs !! q) as [[|b]|]; [by apply IH|done|].
  rewrite IH by done. by apply lookup_insert_ne.
Qed.

Lemma file_not_prefix x n : dir ++ [x] ∉ take n (prefixesOf dir).
Proof.
  intros H. apply elem_of_take in H as (i & H & _). apply list_elem_of_lookup_2 in H.
  pose proof (prefixesOf_short dir) as Hs. rewrite Forall_forall in Hs. apply Hs in H. rewrite length_app in H. cbn in H. lia.
Qed.

Lemma tryRemove_shrinks ok fs p : shrinks fs (tryRemove ok fs p).
Proof.
  intros q. unfold tryRemove, osRemove. destruct ok; [|by left]. destruct (fs !! p) as [[|b]|]; [case_decide| |by left]; try (by left);
    (destruct (decide (p = q)) as [->|?]; [right; apply lookup_delete_eq|left; by apply lookup_delete_ne]).
Qed.

Lemma mixed_tmp fs r n : mixed fs -> mixed (<[dir ++ ["blob-" +:+ r +:+ ".tmp"] := n]> fs).
Proof.
  intros H. eapply mixed_same; [exact H|apply lookup_insert_ne..]; unfold blobPath, metaPath; intros [= E]%app_inv_head; done.
Qed.

End Write.

Lemma writeVersion_mixed io now fs k v meta data rerr :
  let stamp := stampLocal k v now (len data) meta in
  meta_safe stamp -> mixed fs (keyPath root k v) data stamp (writeVersion io root now fs k v meta data rerr).1.
Proof.
  intros stamp Hs. unfold writeVersion. fold stamp. set (dir := keyPath root k v). set (Mx := mixed fs dir data stamp).
  assert (H0 : forall n, Mx (mkdirAll fs (take n (prefixesOf dir))).1).
  { intros n. apply (mixed_same _ _ _ _ fs); [split; by right|apply mkdirAll_other, file_not_prefix..]. }
  destruct (match ioMkdir io with Some _ => _ | None => _ end) as [fs1 oe] eqn:E1.
  assert (H1 : Mx fs1).
  { destruct (ioMkdir io) as [[n e]|]; [injection E1 as <- _; apply H0|].
    specialize (H0 (length (prefixesOf dir))). rewrite take_ge in H0 by done. by rewrite E1 in H0. }
  destruct oe; [done|]. destruct (ioTemp io); [done|]. set (tmp := dir ++ [_]). destruct (fs1 !! tmp); [done|].
  assert (H2 : Mx (<[tmp := NFile data]> fs1)) by by apply mixed_tmp.
  assert (Hrm : forall ok f p, Mx f -> Mx (tryRemove ok f p)) by (intros ok f p Hf; eapply mixed_shrinks; [exact Hf|apply tryRemove_shrinks]).
  assert (Hcl : forall f, Mx f -> Mx (cleanUp io f tmp dir)) by (intros f Hf; unfold cleanUp; by apply Hrm, Hrm).
  assert (Hdr : forall f, Mx f -> Mx (dropBlob io f dir)) by (intros f Hf; unfold dropBlob; by apply Hrm, Hrm).
  destruct rerr, (ioCopy io), (ioClose io), (ioRename io); try (by apply Hcl). case_decide; [by apply Hcl|].
  assert (H3 : Mx (<[blobPath dir := NFile data]> (delete tmp (<[tmp := NFile data]> fs1)))).
  { apply mixed_blob. eapply mixed_shrinks; [exact H2|]. intros q. destruct (decide (tmp = q)) as [->|?]; [right; apply lookup_delete_eq|left; by apply lookup_delete_ne]. }
  case_decide; [by apply Hcl, Hdr|]. destruct (ioMeta io) as [[[n|] e]|]; [by apply Hcl, Hdr, mixed_meta|by apply Hcl, Hdr|].
  pose proof (mixed_meta fs dir data stamp Hs _ (length (meta_Marshal stamp)) H3) as Hm. by rewrite take_ge in Hm.
Qed.


(** A file of one version's directory is none of another's. *)
Lemma other_parts fs fs' k v k' v' :
  plain_key k -> name_ok v -> plain_key k' -> name_ok v' -> (k', v') <> (k, v) -> only_in root (keyPath root k v) fs fs' ->
  blobOf fs' (keyPath root k' v') = blobOf fs (keyPath root k' v') /\ metaOf fs' (keyPath root k' v') = metaOf fs (keyPath root k' v').
Proof.
  intros Hk Hv Hk' Hv' Hne H. pose proof (other_file root fs fs' k v k' v' Hk Hv Hk' Hv' Hne H) as Hx.
  unfold blobOf, metaOf, blobPath, metaPath. by rewrite !Hx.
Qed.

Lemma stamp_same k v now b md : mKey md = k -> Version md = v -> same_meta b (stampLocal k v now (len b) md) md.
Proof. intros <- <-. split; try done; [|by left]. intros H. cbn. by rewrite decide_False. Qed.

(** Copying a snapshot of the upstream keeps the copies right. *)
Lemma addCopy_coherent io c k v b md :
  coherent c -> snaps (csUp c) !! (k, v) = Some (b, md) -> coherent (addCopy io c k md b).
Proof.
  intros [Hu Hc Ht] Hs. destruct (Hu (k, v) (b, md) Hs) as (Ek & Ev & Hk & Hv & Hsafe). cbn in Ek, Ev, Hk, Hv, Hsafe.
  unfold addCopy. destruct (putWithMeta _ _ _ _ _ _ _) as [fs res] eqn:E. unfold putWithMeta in E. rewrite Ek, Ev in E.
  pose proof (writeVersion_mixed (cioPut io) (cioNow io) (csFs c) k v md b None (Hsafe _)) as [Mb Mm]. rewrite E in Mb, Mm. cbn [fst] in Mb, Mm.
  pose proof (writeVersion_only _ _ _ _ _ _ _ _ _ _ _ Hk Hv E) as Ho.
  assert (Hfs : map_Forall (copy_ok fs) (snaps (csUp c))).
  { intros [k' v'] x Hx. destruct (Hu _ _ Hx) as (_ & _ & Hk' & Hv' & _). cbn in Hk', Hv'. destruct (Hc _ _ Hx) as [Cb Cm]. cbn in Cb, Cm.
    destruct (decide ((k', v') = (k, v))) as [[= -> ->]|Hne].
    - rewrite Hs in Hx. injection Hx as <-. split; cbn.
      + intros b' [->|H]%Mb; [done|by apply Cb].
      + intros md' [->|H]%Mm; [by apply stamp_same|by apply Cm].
    - destruct (other_parts _ _ k v k' v' Hk Hv Hk' Hv' Hne Ho) as [Eb Em]. split; cbn [fst snd]; intros y; [rewrite Eb; apply Cb|rewrite Em; apply Cm]. }
  destruct res as [md1|e]; [|by split].
  destruct (cacheEvict io _) as [u2 fs2 es2 t2] eqn:E2. apply cacheEvict_spec in E2 as (E3 & Hsh & E4). cbn in E3, Hsh, E4. subst u2.
  split; cbn; [done| |].
  - intros kv x Hx. eapply shrinks_copy; [exact Hsh|by apply Hfs].
  - apply E4. rewrite sumSizes_app, Ht. cbn. lia.
Qed.

Lemma cacheGet_coherent io c k v c' res : coherent c -> cacheGet io c k v = (c', res) -> coherent c'.
Proof.
  intros Hc. unfold cacheGet. destruct (localGet _ _ _ _) as [x|e0]; [by intros [= <- _]|].
  destruct (sGet (csUp c) k v) as [[[b|e] md]|e] eqn:E; try by intros [= <- _]. apply sget_sound in E as (b' & Hb & [[= <-]|[? ?]]); [|done].
  intros [= <- _]. by eapply addCopy_coherent.
Qed.

(** ** Histories *)

(** Operations on plain keys; a version that comes new to the upstream, by a
    put or by another client, is one the directory has nothing of. *)
Inductive cacheStep : CacheStore -> CacheStore -> Prop :=
| step_put io c key meta r c' res :
    cachePut io c key meta r = (c', res) ->
    (forall md b, res = Ok md -> r = Ok b -> original_ok (key, Version md) (b, md) /\ uncached (csFs c) (key, Version md)) -> cacheStep c c'
| step_get io c key v c' res : cacheGet io c key v = (c', res) -> cacheStep c c'
| step_latest io c key c' res : cacheGetLatest io c key = (c', res) -> cacheStep c c'
| step_delete io c key v c' res : cacheDelete io c key v = (c', res) -> cacheStep c c'
| step_other c u : (forall kv x, snaps u !! kv = Some x -> snaps (csUp c) !! kv = Some x \/ (original_ok kv x /\ uncached (csFs c) kv)) ->
    cacheStep c (MkCache u (csFs c) (csEntries c) (csTotal c)).

Lemma uncached_copy fs kv x : uncached fs kv -> copy_ok fs kv x.
Proof. intros [H1 H2]. split; intros ?; [by rewrite H1|by rewrite H2]. Qed.

Lemma subset_coherent c u fs es t :
  coherent c -> snaps u ⊆ snaps (csUp c) -> shrinks (csFs c) fs -> t = sumSizes es -> coherent (MkCache u fs es t).
Proof.
  intros [Hu Hc _] Hsub Hsh Ht. split; cbn; [intros kv x Hx; apply Hu; by eapply lookup_weaken|..|done].
  intros kv x Hx. eapply shrinks_copy; [exact Hsh|]. apply Hc. by eapply lookup_weaken.
Qed.

Lemma cacheDelete_coherent io c k v c' res : coherent c -> cacheDelete io c k v = (c', res) -> coherent c'.
Proof.
  intros Hc. pose proof (co_total _ Hc) as Ht. unfold cacheDelete. destruct (sDelete _ _ _) as [u [[]|e]] eqn:E.
  - destruct (removeEntry _ _ _) as [es t] eqn:Er. intros [= <- _]. apply sdelete_ok in E. apply removeEntry_sum in Er.
    eapply subset_coherent; [exact Hc|rewrite E; apply delete_subseteq|apply localDelete_shrinks|lia].
  - intros [= <- _]. eapply subset_coherent; [exact Hc| |by left|done].
    apply sdelete_err in E as [->| ->]; [done|apply delete_subseteq].
Qed.

Lemma cachePut_coherent io c key meta r c' res : coherent c -> cachePut io c key meta r = (c', res) ->
  (forall md b, res = Ok md -> r = Ok b -> original_ok (key, Version md) (b, md) /\ uncached (csFs c) (key, Version md)) -> coherent c'.
Proof.
  intros Hc. unfold cachePut. destruct r as [b|e]; [|by intros [= <- _]]. destruct (sPut _ _ _ _) as [u [md|e]] eqn:E; intros [= <- <-] Hnew.
  - apply sput_ok in E as (_ & Hs & _). destruct (Hnew md b eq_refl eq_refl) as [Ho Hun]. destruct Hc as [H1 H2 H3].
    eapply addCopy_coherent; cbn; [|by rewrite Hs, lookup_insert_eq]. split; cbn; [..|done]; rewrite Hs.
    + by apply map_Forall_insert_2.
    + apply map_Forall_insert_2; [by apply uncached_copy|done].
  - apply sput_err in E. pose proof (co_total _ Hc) as Ht. eapply subset_coherent; [exact Hc|by rewrite E|by left|done].
Qed.

Lemma step_coherent c c' : coherent c -> cacheStep c c' -> coherent c'.
Proof.
  intros Hc Hst. destruct Hst as [io c key meta r c' res H Hnew|io c key v c' res H|io c key c' res H|io c key v c' res H|c u H].
  - by eapply cachePut_coherent.
  - by eapply cacheGet_coherent.
  - unfold cacheGetLatest in H. destruct (sGetLatest _ _) as [[rb md]|e]; [by eapply cacheGet_coherent|by injection H as <- _].
  - by eapply cacheDelete_coherent.
  - destruct Hc as [H1 H2 H3]. split; cbn; [..|done]; intros kv x Hx; destruct (H kv x Hx) as [Hold|[Ho Hun]];
      [by apply H1|done|by apply H2|by apply uncached_copy].
Qed.

(** What is read of a version the upstream has is the upstream's. *)
Lemma cacheGet_exact io c k v c' b md x :
  coherent c -> snaps (csUp c) !! (k, v) = Some x -> cacheGet io c k v = (c', Ok (b, md)) -> b = x.1 /\ same_meta x.1 md x.2.
Proof.
  intros Hc Hx. unfold cacheGet. destruct (localGet root (csFs c) k v) as [[b0 md0]|e0] eqn:El.
  - intros [= _ <- <-]. destruct (co_copies _ Hc _ _ Hx) as [Cb Cm]. cbn in Cb, Cm.
    assert (Hs : snapAt root (csFs c) k v = Some (b0, md0)) by (unfold snapAt; by rewrite El). rewrite snapAt_in in Hs.
    apply snapIn_parts in Hs as [H1 H2]. split; [by apply Cb|by apply Cm].
  - destruct (sGet _ _ _) as [[[d|e] um]|e] eqn:E; try done. intros [= _ <- <-]. apply sget_sound in E as (b' & Hb & [[= <-]|[? ?]]); [|done].
    rewrite Hx in Hb. injection Hb as ->. split; [done|]. split; try done. by right.
Qed.

(** C34: Reading through the cache is reading the upstream.  After any history
    of puts, reads and deletes through the cache, with copies and evictions
    that fail in any way and other clients at the upstream, the latest snapshot
    read through the cache is the upstream's greatest version, with its bytes
    and its metadata; and the index counts what its entries add up to. *)
Theorem cached_latest c0 c io key c' b md :
  coherent c0 -> rtc cacheStep c0 c -> cacheGetLatest io c key = (c', Ok (b, md)) ->
  csTotal c' = sumSizes (csEntries c') /\
  exists md', snaps (csUp c) !! (key, Version md') = Some (b, md') /\ same_meta b md md' /\
    forall v, is_Some (snaps (csUp c) !! (key, v)) -> str_ltb (Version md') v = false.
Proof.
  intros H0 Hr H. assert (Hc : coherent c) by (induction Hr as [|x y z Hxy _ IH]; [done|]; apply IH; [by eapply step_coherent|done]).
  split; [apply co_total; eapply step_coherent; [exact Hc|by eapply step_latest]|].
  unfold cacheGetLatest in H. destruct (sGetLatest (csUp c) key) as [[rb um]|e] eqn:E; [|done]. apply slatest_sound in E as (b' & Hb & _ & Hmax).
  destruct (cacheGet_exact _ _ _ _ _ _ _ _ Hc Hb H) as [-> Hsm]. by exists um.
Qed.

End Cache.

(** ** Runs *)

Definition cio_ok : cacheIO := MkCIO io_ok 7 (fun _ => None) None.
Definition c_empty : CacheStore := MkCache (U := mem_snaps) (MkSnaps ∅) ∅ [] 0.

Definition ckey (o : string) : SnapshotKey := MkKey "acme" "" "" o.

(** One after the other, versions v, vv and vvv of the three keys. *)
Definition cput (c : CacheStore) (o : string) (data : bytes) : CacheStore :=
  (cachePut lroot 2 cio_ok c (ckey o) (MkMeta (ckey o) "" 9 0 "docker" "tar" ∅) (Ok data)).1.

Definition c_ab : CacheStore := cput (cput c_empty "a" [Byte.x61]) "b" [Byte.x62].

(** A deletion whose copy could not be removed: the snapshot is gone from the
    upstream and still read. *)
Lemma stale_copy :
  let c := (cacheDelete lroot (MkCIO io_ok 7 (fun _ => None) (Some (EOther "busy", fun _ => true))) c_ab (ckey "a") "v").1 in
  sGet (csUp c) (ckey "a") "v" = Err ErrNoSnapshot /\ fst <$> (cacheGet lroot 2 cio_ok c (ckey "a") "v").2 = Ok [Byte.x61].
Proof. vm_compute. done. Qed.

(** With room for two, the copy that was just read goes and the one that was
    not stays: the index is ordered by arrival. *)
Lemma hits_not_counted :
  let c := (cacheGet lroot 2 cio_ok c_ab (ckey "a") "v").1 in let c3 := cput c "c" [Byte.x63] in
  is_ok (localGet lroot (csFs c) (ckey "a") "v") = true /\
  is_ok (localGet lroot (csFs c3) (ckey "a") "v") = false /\ is_ok (localGet lroot (csFs c3) (ckey "b") "vv") = true /\
  csTotal c3 = 2 /\ csEntries c3 = [("acme/_/_/b/vv", 1); ("acme/_/_/c/vvv", 1)].
Proof. vm_compute. done. Qed.

Lemma c_empty_coherent : coherent lroot c_empty.
Proof. split; cbn; [..|done]; intros kv x Hx; by rewrite memSnaps_empty in Hx. Qed.

Lemma cached_latest_witness :
  exists c c' b md md', rtc (cacheStep lroot 2) c_empty c /\ cacheGetLatest lroot 2 cio_ok c (ckey "a") = (c', Ok (b, md)) /\
    snaps (csUp c) !! (ckey "a", Version md') = Some (b, md') /\ same_meta b md md'.
Proof.
  set (meta := MkMeta (ckey "a") "" 9 0 "docker" "tar" ∅).
  destruct (cachePut lroot 2 cio_ok c_empty (ckey "a") meta (Ok [Byte.x61])) as [c res] eqn:E.
  assert (Hstep : cacheStep lroot 2 c_empty c).
  { eapply step_put; [exact E|]. intros md b -> [= <-].
    assert (Hmd : md = MkMeta (ckey "a") "v" 9 1 "docker" "tar" ∅).
    { assert (Hr : (cachePut lroot 2 cio_ok c_empty (ckey "a") meta (Ok [Byte.x61])).2 = Ok (MkMeta (ckey "a") "v" 9 1 "docker" "tar" ∅)) by reflexivity.
      rewrite E in Hr. by injection Hr. }
    rewrite Hmd. split; [|by split; vm_compute]. split_and!; [done|done| |by apply (bool_decide_eq_true_1 _); vm_compute|done].
    repeat split; by apply (bool_decide_eq_true_1 _); vm_compute. }
  assert (Hget : is_ok (cacheGetLatest lroot 2 cio_ok c (ckey "a")).2 = true).
  { replace c with (cachePut lroot 2 cio_ok c_empty (ckey "a") meta (Ok [Byte.x61])).1 by (rewrite E; reflexivity). vm_compute. reflexivity. }
  destruct (cacheGetLatest lroot 2 cio_ok c (ckey "a")) as [c' [[b md]|e]] eqn:Eg; [|discriminate Hget].
  destruct (cached_latest lroot 2 c_empty c cio_ok (ckey "a") c' b md c_empty_coherent (rtc_once _ _ Hstep) Eg) as (_ & md' & H1 & H2 & _).
  exists c, c', b, md, md'. split; [exact (rtc_once _ _ Hstep)|]. split; [exact Eg|]. split; [exact H1|exact H2].
Defined.
