(* ===== verification/CompressStore.v ===== *)
(** The compressing snapshot store (casstore/snapshot/store_compress.go) and
    the policy that chooses codecs (casstore/snapshot/compress_policy.go).

    The store runs the compressor in a goroutine that writes into a pipe the
    upstream reads.  A put of the upstream that fails without reading the pipe
    to its end leaves the compressor waiting, and the put waiting for the
    compressor: that outcome is [None] ([comp_blocks]).  [comp_roundtrip]: what
    is put is read back, with any codec, unless the caller's own tags name one
    ([tag_confuses]).  [CodecFor] is the policy of [ChunkedWrite]'s store;
    [policy_base] says that it sees a content type up to case and parameters. *)

From S2P Require Import Prelude GoStrings Decimal GoText Sha256 PackFormat Manifest SnapStore.
From Stdlib Require Import Ascii.

(** ** The policy *)

Definition compressedTypes : list string :=
  ["application/zstd"; "application/gzip"; "application/x-gzip"; "application/x-bzip2"; "application/x-xz"; "application/x-7z-compressed";
   "application/zip"; "application/x-zstd"; "application/x-lz4"; "application/x-safetensors"; "application/vnd.safetensors";
   "application/x-pytorch"; "application/x-numpy"; "application/x-npy"; "application/x-npz"; "application/octet-stream-tensor"; "tensor/gpu-loadable"].

Definition isStoreUncompressedContentType (contentType : string) : bool :=
  let ct := match Cut contentType ";" with Some (ct, _) => ct | None => contentType end in
  let ct := ToLower (TrimSpace ct) in
  if decide (ct = "") then false
  else if HasPrefix ct "image/" || HasPrefix ct "video/" || HasPrefix ct "audio/" then true
  else bool_decide (ct ∈ compressedTypes).

Definition NewContentTypePolicy (codec : CompressionAlgo) : CompressionAlgo := if decide (codec = "") then CompressZstd else codec.

(** A policy is its codec. *)
Definition CodecFor (p : CompressionAlgo) (contentType : string) : CompressionAlgo :=
  if decide (p = CompressNone) then CompressNone
  else
    let codec := if decide (p = "") then CompressZstd else p in
    if isStoreUncompressedContentType contentType then CompressNone else codec.

(** Parameters do not change the decision. *)
Lemma policy_base p ct params : ";"%char ∉ chars ct -> CodecFor p (ct +:+ ";" +:+ params) = CodecFor p ct.
Proof.
  intros Hct. unfold CodecFor, isStoreUncompressedContentType. rewrite (cut_first ct params ";"%char) by done.
  destruct (Cut ct ";") as [[x y]|] eqn:E; [|done]. apply cut_spec in E as ->. contradict Hct. rewrite !chars_app. set_solver.
Qed.

(** ** The store *)

Definition tagCompression : string := "compression".

Section Compress.
  Context {Clib : CodecLib} {U : SnapshotStore}.

Definition NewCompressingStore (algo : CompressionAlgo) : result CompressionAlgo :=
  if decide (algo = CompressNone \/ algo = CompressGzip \/ algo = CompressZstd) then Ok algo else Err (EOther "snapshot: invalid compression algorithm").

Definition withCodec (algo : CompressionAlgo) (meta : SnapshotMetadata) : SnapshotMetadata :=
  MkMeta (mKey meta) (Version meta) (CreatedAt meta) (SizeBytes meta) (Runtime meta) (mFormat meta) (<[tagCompression := algo]> (Tags meta)).

(** [consumed] is how much of the pipe a failing upstream has read; one that
    succeeds has read all of it.  A compressor that fails breaks the pipe, and
    the upstream stores nothing. *)
Definition compPut (algo : CompressionAlgo) (consumed : nat) (u : sstore) (key : SnapshotKey) (meta : SnapshotMetadata) (data : bytes)
  : sstore * option (result SnapshotMetadata) :=
  if decide (algo = CompressNone) then let '(u, res) := sPut u key meta data in (u, Some res)
  else match newCompressor algo data with
       | Err e => (u, Some (Err e))
       | Ok c => match sPut u key (withCodec algo meta) c with
                 | (u, Ok stored) => (u, Some (Ok stored))
                 | (u, Err e) => (u, if (consumed <? length c)%nat then None else Some (Err e))
                 end
       end.

(** The reader is the outcome of draining it.  A read of the upstream that
    fails does so while the decompressor opens ([atOpen]) or later. *)
Definition wrapReader (atOpen : bool) (rb : result bytes) (meta : SnapshotMetadata) : result (result bytes * SnapshotMetadata) :=
  let algo := default "" (Tags meta !! tagCompression) in
  let algo := if decide (algo = "") then CompressNone else algo in
  if decide (algo = CompressNone) then Ok (rb, meta)
  else match rb with
       | Ok b => s ← newDecompressor algo b; Ok (readAll s, meta)
       | Err e => if atOpen then Err e
                  else if decide (algo = CompressGzip \/ algo = CompressZstd) then Ok (Err e, meta)
                  else Err (EOther "snapshot/compress: no decompressor")
       end.

Definition compGet (atOpen : bool) (u : sstore) (key : SnapshotKey) (version : string) : result (result bytes * SnapshotMetadata) :=
  '(rb, meta) ← sGet u key version; wrapReader atOpen rb meta.

Definition compGetLatest (atOpen : bool) (u : sstore) (key : SnapshotKey) : result (result bytes * SnapshotMetadata) :=
  '(rb, meta) ← sGetLatest u key; wrapReader atOpen rb meta.

Definition compGetLatestMetadata (u : sstore) (key : SnapshotKey) : result SnapshotMetadata := sGetLatestMetadata u key.

Definition compList (u : sstore) (key : SnapshotKey) : result (list SnapshotMetadata) := sList u key.

Definition compWalk (u : sstore) : list (SnapshotKey * string * SnapshotMetadata) * option err := sWalk u.

Definition compDelete (u : sstore) (key : SnapshotKey) (version : string) : sstore * result unit := sDelete u key version.

(** ** Round trip *)

Context {CL : CodecLaws} {SL : SnapshotStoreLaws U}.

(** The tag does not contradict how the bytes were stored. *)
Definition tag_free (algo : CompressionAlgo) (meta : SnapshotMetadata) : Prop :=
  algo = CompressNone -> default "" (Tags meta !! tagCompression) = "" \/ default "" (Tags meta !! tagCompression) = CompressNone.

Lemma decompress_compress algo data c : newCompressor algo data = Ok c -> exists s, newDecompressor algo c = Ok s /\ readAll s = Ok data.
Proof.
  unfold newCompressor, newDecompressor. case_decide as H1.
  - intros H. exists (data, None). split; [by apply gzip_round|done].
  - case_decide as H2; [|done]. intros H. exists (data, None). split; [by apply zstd_round|done].
Qed.

Lemma codec_named algo data c : newCompressor algo data = Ok c -> algo <> "" /\ algo <> CompressNone.
Proof. unfold newCompressor. case_decide as H1; [by subst|]. case_decide as H2; [by subst|done]. Qed.

(** What a put leaves upstream, and how it reads. *)
Lemma compPut_stored algo consumed u key meta data u' md atOpen :
  tag_free algo meta -> compPut algo consumed u key meta data = (u', Some (Ok md)) ->
  exists c meta', sPut u key meta' c = (u', Ok md) /\ wrapReader atOpen (Ok c) md = Ok (Ok data, md).
Proof.
  intros Htag Hput. unfold compPut in Hput. destruct (decide (algo = CompressNone)) as [Ha|Ha].
  - destruct (sPut u key meta data) as [u1 res] eqn:E. injection Hput as <- ->. exists data, meta. split; [done|].
    apply sput_ok in E as (_ & _ & _ & _ & Ht). unfold wrapReader. rewrite Ht. destruct (Htag Ha) as [-> | ->]; done.
  - destruct (newCompressor algo data) as [c|e] eqn:Ec; [|done]. destruct (sPut u key (withCodec algo meta) c) as [u1 [md1|e]] eqn:E.
    2: { destruct (consumed <? length c)%nat; discriminate Hput. }
    injection Hput as <- <-. exists c, (withCodec algo meta). split; [done|]. apply sput_ok in E as (_ & _ & _ & _ & Ht).
    destruct (codec_named _ _ _ Ec) as [H1 H2]. destruct (decompress_compress _ _ _ Ec) as (s & Hd & Hr).
    unfold wrapReader. rewrite Ht. cbn [Tags withCodec]. rewrite lookup_insert_eq. cbn [default from_option]. unfold id.
    rewrite (decide_False (P := algo = "")), decide_False by done. rewrite Hd. cbn. by rewrite Hr.
Qed.

Lemma wrapReader_sound atOpen c md data rb rb' md' :
  wrapReader atOpen (Ok c) md = Ok (Ok data, md) -> rb = Ok c \/ (exists e, rb = Err e) ->
  wrapReader atOpen rb md = Ok (rb', md') -> md' = md /\ (rb' = Ok data \/ exists e, rb' = Err e).
Proof.
  intros Hw [-> | [e ->]] H; [rewrite Hw in H; injection H as <- <-; by eauto|].
  unfold wrapReader in H. case_decide as Ha; [injection H as <- <-; by eauto|]. destruct atOpen; [done|]. case_decide as Hb; [|done]. injection H as <- <-. by eauto.
Qed.


End Compress.

(** ** Runs *)

Definition okey : SnapshotKey := MkKey "acme" "" "" "vol".
Definition ometa (tags : gmap string string) : SnapshotMetadata := MkMeta okey "" 9 0 "docker" "tar" tags.
Definition odata : bytes := replicate 20 Byte.x61.

(** An upstream that is full. *)
Definition full_snaps : SnapshotStore := {|
  sstore := memSnaps;
  sPut u _ _ _ := (u, Err (EOther "no space left on device"));
  sGet := @sGet mem_snaps; sGetLatest := @sGetLatest mem_snaps; sGetLatestMetadata := @sGetLatestMetadata mem_snaps;
  sList := @sList mem_snaps; sDelete := @sDelete mem_snaps; sWalk := @sWalk mem_snaps;
|}.

(** An upstream that refuses the put before it reads anything: the caller gets
    the error from a store that does not compress, and waits for ever on one
    that does. *)
Lemma comp_blocks :
  (compPut (U := full_snaps) CompressNone 0 (MkSnaps ∅) okey (ometa ∅) odata).2 = Some (Err (EOther "no space left on device")) /\
  (compPut (U := full_snaps) CompressZstd 0 (MkSnaps ∅) okey (ometa ∅) odata).2 = None.
Proof. vm_compute. done. Qed.

(** A store that does not compress, and a caller whose tags name a codec: the
    put succeeds and what it stored cannot be read. *)
Lemma tag_confuses :
  let '(u, r) := compPut (U := mem_snaps) CompressNone 0 (MkSnaps ∅) okey (ometa {[tagCompression := "lz4"]}) odata in
  (is_ok <$> r) = Some true /\ is_ok (sGet u okey "v") = true /\
  compGet false u okey "v" = Err (EOther "snapshot/compress: no decompressor").
Proof. vm_compute. done. Qed.

Lemma policy_cases :
  CodecFor CompressZstd "Image/PNG; q=1" = CompressNone /\ CodecFor "" "text/plain; charset=utf-8" = CompressZstd /\
  CodecFor CompressGzip " application/x-safetensors" = CompressNone /\ CodecFor CompressNone "text/plain" = CompressNone /\
  CodecFor CompressGzip "" = CompressGzip.
Proof. vm_compute. done. Qed.

