(* ===== verification/DedupIndex.v ===== *)
(** The dedup index and its reference store
    (casstore/snapshot/dedupindex.go, and the association half of
    MemoryDedupStore in packassoc.go).

    [DedupStore] is the durable store a [GlobalIndex] persists chunk locations
    to, as an interface: the operations with the store's state passed
    explicitly, optional capabilities (Go's type assertions) as [option]
    fields.  [DedupStoreLaws] is the contract the write path relies on: a store
    hands out only locations that were recorded, under their own domain and
    hash.  [MemoryDedupStore] is the in-memory implementation, with its
    per-domain associations and pack lifecycle; the instance at the end
    discharges the contract. *)

From S2P Require Import Prelude GoStrings Manifest.

Record PackRef := MkPackRef { rPackHash : string; rOffset : Z; rSize : Z }.

#[global] Instance PackRef_eq_dec : EqDecision PackRef.
Proof. solve_decision. Defined.

Record ChunkLocation := MkLoc { ChunkHash : string; locRef : PackRef }.

Record PackAssociation := MkAssoc { aPackHash : string; aContext : string }.

(** Association writes and pack-size accounting are optional capabilities. *)
Class DedupStore := {
  dstore : Type;
  dLookup : dstore -> string -> string -> result (option PackRef);
  dLookupBatch : dstore -> string -> list string -> result (gmap string PackRef);
  dRecord : dstore -> string -> list ChunkLocation -> dstore * result unit;
  dPurgePacks : dstore -> string -> list string -> dstore * result unit;
  dAssociate : option (dstore -> string -> list PackAssociation -> dstore * result unit);
  dRecordPackSizes : option (dstore -> string -> list (string * Z) -> dstore * result unit);
}.

Class DedupStoreLaws (D : DedupStore) := {
  entries : dstore -> string -> gmap string PackRef;
  lookup_sound : forall d dom h ref, dLookup d dom h = Ok (Some ref) -> entries d dom !! h = Some ref;
  lookupBatch_sound : forall d dom hs res h ref, dLookupBatch d dom hs = Ok res -> res !! h = Some ref ->
    h ∈ hs /\ entries d dom !! h = Some ref;
  record_sound : forall d dom locs d' r, dRecord d dom locs = (d', r) ->
    forall dom' h ref, entries d' dom' !! h = Some ref ->
      entries d dom' !! h = Some ref \/ (dom' = dom /\ MkLoc h ref ∈ locs);
  purge_sound : forall d dom phs d' r, dPurgePacks d dom phs = (d', r) ->
    (forall dom' h ref, entries d' dom' !! h = Some ref -> entries d dom' !! h = Some ref) /\
    (r = Ok tt -> forall h ref, entries d' dom !! h = Some ref -> rPackHash ref ∉ phs);
  associate_entries : forall f d dom l d' r, dAssociate = Some f -> f d dom l = (d', r) -> entries d' = entries d;
  sizes_entries : forall f d dom l d' r, dRecordPackSizes = Some f -> f d dom l = (d', r) -> entries d' = entries d;
}.

(** The store is up: only an association may be refused, for a pack that is
    being reclaimed. *)
Class DedupStoreReliable (D : DedupStore) : Prop := {
  record_total : forall d dom locs, (dRecord d dom locs).2 = Ok tt;
  associate_total : forall f d dom l, dAssociate = Some f ->
    (f d dom l).2 = Ok tt \/ (f d dom l).2 = Err ErrPackObliterating;
  purge_total : forall d dom phs, (dPurgePacks d dom phs).2 = Ok tt;
}.

(** ** MemoryDedupStore *)

Inductive PackState := PackStored | PackObliterating | PackObliterated.

#[global] Instance PackState_eq_dec : EqDecision PackState.
Proof. solve_decision. Defined.

Record memAssoc := MkMemAssoc {
  byPack : gmap string (gset string);
  byContext : gmap string (gset string);
  state : gmap string PackState;
  backfilled : bool;
}.

Record MemoryDedupStore := MkMD {
  byDom : gmap string (gmap string PackRef);
  assoc : gmap string memAssoc;
}.

Definition NewMemoryDedupStore : MemoryDedupStore := MkMD ∅ ∅.

(** [m[k]] on a Go map of maps: a missing inner map reads as empty. *)
Definition inner `{Countable K} {V} (m : gmap string (gmap K V)) (k : string) : gmap K V := default ∅ (m !! k).
Definition innerSet (m : gmap string (gset string)) (k : string) : gset string := default ∅ (m !! k).

(** [assocFor] without storing the fresh value: reading through it and
    creating it are the same for every caller, which all write back. *)
Definition assocFor (m : MemoryDedupStore) (domain : string) : memAssoc :=
  default (MkMemAssoc ∅ ∅ ∅ false) (assoc m !! domain).

Definition putAssoc (m : MemoryDedupStore) (domain : string) (a : memAssoc) : MemoryDedupStore :=
  MkMD (byDom m) (<[domain := a]> (assoc m)).

Definition stateOf (a : memAssoc) (packHash : string) : PackState :=
  default PackStored (state a !! packHash).

Definition packUnavailable (m : MemoryDedupStore) (domain packHash : string) : bool :=
  match assoc m !! domain with
  | None => false
  | Some a => negb (bool_decide (stateOf a packHash = PackStored))
  end.

Definition Lookup (m : MemoryDedupStore) (domain chunkHash : string) : option PackRef :=
  match inner (byDom m) domain !! chunkHash with
  | None => None
  | Some ref => if packUnavailable m domain (rPackHash ref) then None else Some ref
  end.

Definition LookupBatch (m : MemoryDedupStore) (domain : string) (chunkHashes : list string)
  : gmap string PackRef :=
  let dom := inner (byDom m) domain in
  let out := foldl (fun out h => match dom !! h with Some ref => <[h := ref]> out | None => out end)
               ∅ chunkHashes in
  filter (fun x => packUnavailable m domain (rPackHash x.2) = false) out.

(** First writer wins. *)
Definition recordLoc (dom : gmap string PackRef) (loc : ChunkLocation) : gmap string PackRef :=
  match dom !! ChunkHash loc with
  | Some _ => dom
  | None => <[ChunkHash loc := locRef loc]> dom
  end.

Definition Record_ (m : MemoryDedupStore) (domain : string) (locs : list ChunkLocation) : MemoryDedupStore :=
  MkMD (<[domain := foldl recordLoc (inner (byDom m) domain) locs]> (byDom m)) (assoc m).

Definition PurgePacks (m : MemoryDedupStore) (domain : string) (packHashes : list string) : MemoryDedupStore :=
  match packHashes with
  | [] => m
  | _ => match byDom m !! domain with
         | None => m
         | Some dom =>
             MkMD (<[domain := filter (fun x => rPackHash x.2 ∉ packHashes) dom]> (byDom m)) (assoc m)
         end
  end.

Definition Len (m : MemoryDedupStore) (domain : string) : Z := Z.of_nat (size (inner (byDom m) domain)).

Definition addAssoc (a : memAssoc) (x : PackAssociation) : memAssoc :=
  MkMemAssoc
    (<[aPackHash x := {[aContext x]} ∪ innerSet (byPack a) (aPackHash x)]> (byPack a))
    (<[aContext x := {[aPackHash x]} ∪ innerSet (byContext a) (aContext x)]> (byContext a))
    (state a) (backfilled a).

(** The whole batch is validated before anything is recorded. *)
Definition Associate (m : MemoryDedupStore) (domain : string) (assocs : list PackAssociation)
  : MemoryDedupStore * result unit :=
  match assocs with
  | [] => (m, Ok tt)
  | _ =>
      let a := assocFor m domain in
      if forallb (fun x => bool_decide (stateOf a (aPackHash x) = PackStored)) assocs
      then (putAssoc m domain (foldl addAssoc a assocs), Ok tt)
      else (putAssoc m domain a, Err ErrPackObliterating)
  end.

(** One iteration of [DropContext]'s loop over the context's packs. *)
Definition dropOne (packContext : string) (bp : gmap string (gset string)) (packHash : string)
  : gmap string (gset string) :=
  match bp !! packHash with
  | None => bp
  | Some ctxs =>
      let ctxs := ctxs ∖ {[packContext]} in
      if decide (ctxs = ∅) then delete packHash bp else <[packHash := ctxs]> bp
  end.

Definition DropContext (m : MemoryDedupStore) (domain packContext : string)
  : MemoryDedupStore * list string :=
  let a := assocFor m domain in
  let packs := elements (innerSet (byContext a) packContext) in
  match packs with
  | [] => (putAssoc m domain a, [])
  | _ =>
      (putAssoc m domain
         (MkMemAssoc (foldl (dropOne packContext) (byPack a) packs)
            (delete packContext (byContext a)) (state a) (backfilled a)), packs)
  end.

Definition hasAssoc (a : memAssoc) (packHash : string) : bool :=
  negb (bool_decide (innerSet (byPack a) packHash = ∅)).

Definition HasAssociations (m : MemoryDedupStore) (domain : string) (packHashes : list string)
  : gmap string bool :=
  foldl (fun out p => <[p := hasAssoc (assocFor m domain) p]> out) ∅ packHashes.

Definition WalkLivePacks (m : MemoryDedupStore) (domain : string) : list string :=
  (filter (fun x : string * gset string => x.2 <> ∅) (map_to_list (byPack (assocFor m domain)))).*1.

Definition setState (a : memAssoc) (packHash : string) (st : PackState) : memAssoc :=
  MkMemAssoc (byPack a) (byContext a) (<[packHash := st]> (state a)) (backfilled a).

Definition MarkObliterating (m : MemoryDedupStore) (domain packHash : string) : MemoryDedupStore * bool :=
  let a := assocFor m domain in
  if decide (stateOf a packHash = PackStored)
  then (putAssoc m domain (setState a packHash PackObliterating), true)
  else (putAssoc m domain a, false).

Definition ReleaseMark (m : MemoryDedupStore) (domain packHash : string) : MemoryDedupStore :=
  let a := assocFor m domain in
  putAssoc m domain
    (if decide (stateOf a packHash = PackObliterating) then setState a packHash PackStored else a).

Definition CommitObliterated (m : MemoryDedupStore) (domain packHash : string) : MemoryDedupStore * bool :=
  let a := assocFor m domain in
  if negb (bool_decide (stateOf a packHash = PackObliterating)) then (putAssoc m domain a, false)
  else if hasAssoc a packHash then (putAssoc m domain a, false)
  else (putAssoc m domain (setState a packHash PackObliterated), true).

Definition MarkBackfilled (m : MemoryDedupStore) (domain : string) : MemoryDedupStore :=
  let a := assocFor m domain in
  putAssoc m domain (MkMemAssoc (byPack a) (byContext a) (state a) true).

Definition IsBackfilled (m : MemoryDedupStore) (domain : string) : bool :=
  backfilled (assocFor m domain).

#[export] Instance mem_dedup : DedupStore := {|
  dstore := MemoryDedupStore;
  dLookup := fun m dom h => Ok (Lookup m dom h);
  dLookupBatch := fun m dom hs => Ok (LookupBatch m dom hs);
  dRecord := fun m dom locs => (Record_ m dom locs, Ok tt);
  dPurgePacks := fun m dom phs => (PurgePacks m dom phs, Ok tt);
  dAssociate := Some Associate;
  dRecordPackSizes := None;
|}.

(** ** Lookups return what was recorded *)

Lemma Lookup_sound m dom h ref : Lookup m dom h = Some ref -> inner (byDom m) dom !! h = Some ref.
Proof. unfold Lookup. destruct (inner _ _ !! h); [|done]. by destruct (packUnavailable _ _ _); intros [= ->]. Qed.

Lemma Lookup_available m dom h ref :
  Lookup m dom h = Some ref -> stateOf (assocFor m dom) (rPackHash ref) = PackStored.
Proof.
  unfold Lookup. destruct (inner _ _ !! h) as [ref'|]; [|done].
  unfold packUnavailable, assocFor. destruct (assoc m !! dom) as [a|]; cbn; [|done].
  case_bool_decide; cbn; [|done]. by intros [= ->].
Qed.

Lemma collect_sound (dom acc : gmap string PackRef) hs h ref :
  foldl (fun out h => match dom !! h with Some ref => <[h := ref]> out | None => out end) acc hs !! h = Some ref ->
  acc !! h = Some ref \/ (h ∈ hs /\ dom !! h = Some ref).
Proof.
  revert acc; induction hs as [|k hs IH]; intros acc; cbn; [by left|]. intros H.
  apply IH in H as [H|[? ?]]; [|right; split; [by right|done]].
  destruct (dom !! k) as [r|] eqn:E; [|by left].
  apply lookup_insert_Some in H as [[<- <-]|[_ H]]; [|by left]. right. split; [by left|done].
Qed.

Lemma foldl_recordLoc_sound locs (dom : gmap string PackRef) h ref :
  foldl recordLoc dom locs !! h = Some ref -> dom !! h = Some ref \/ MkLoc h ref ∈ locs.
Proof.
  revert dom; induction locs as [|[h' ref'] locs IH]; intros dom; cbn; [by left|]. intros H.
  apply IH in H as [H|H]; [|right; by right]. unfold recordLoc in H. cbn in H.
  destruct (dom !! h') eqn:E; [by left|].
  apply lookup_insert_Some in H as [[<- <-]|[_ H]]; [right; left|by left].
Qed.

(** Recording never moves an entry that is there. *)
Lemma foldl_recordLoc_keeps locs (dom : gmap string PackRef) h ref :
  dom !! h = Some ref -> foldl recordLoc dom locs !! h = Some ref.
Proof.
  revert dom; induction locs as [|[h' ref'] locs IH]; intros dom H; cbn; [done|]. apply IH.
  unfold recordLoc. cbn. destruct (dom !! h') eqn:E; [done|]. rewrite lookup_insert_ne; [done|congruence].
Qed.

Lemma inner_insert `{Countable K} {V} (m : gmap string (gmap K V)) k k' v :
  inner (<[k := v]> m) k' = if decide (k' = k) then v else inner m k'.
Proof. unfold inner. case_decide; [subst; by rewrite lookup_insert_eq|by rewrite lookup_insert_ne]. Qed.

Lemma innerSet_insert (m : gmap string (gset string)) k k' v :
  innerSet (<[k := v]> m) k' = if decide (k' = k) then v else innerSet m k'.
Proof. unfold innerSet. case_decide; [subst; by rewrite lookup_insert_eq|by rewrite lookup_insert_ne]. Qed.

Lemma innerSet_delete (m : gmap string (gset string)) k k' :
  innerSet (delete k m) k' = if decide (k' = k) then ∅ else innerSet m k'.
Proof. unfold innerSet. case_decide; [subst; by rewrite lookup_delete_eq|by rewrite lookup_delete_ne]. Qed.

Lemma PurgePacks_sound m dom phs :
  (forall dom' h ref, inner (byDom (PurgePacks m dom phs)) dom' !! h = Some ref ->
    inner (byDom m) dom' !! h = Some ref) /\
  (forall h ref, inner (byDom (PurgePacks m dom phs)) dom !! h = Some ref -> rPackHash ref ∉ phs).
Proof.
  unfold PurgePacks. destruct phs as [|p phs]; [split; [done|]; intros; apply not_elem_of_nil|].
  destruct (byDom m !! dom) as [d|] eqn:E.
  2:{ split; [done|]. intros h ref. unfold inner. rewrite E. done. }
  cbn [byDom]. split.
  - intros dom' h ref. rewrite inner_insert. case_decide; [|done]. subst.
    intros H. apply map_lookup_filter_Some in H as [H _]. unfold inner. by rewrite E.
  - intros h ref. rewrite inner_insert, decide_True by done. intros H.
    by apply map_lookup_filter_Some in H as [_ H].
Qed.

#[export] Instance mem_dedup_laws : DedupStoreLaws mem_dedup.
Proof.
  refine {| entries := fun (m : @dstore mem_dedup) dom => inner (byDom m) dom |}; cbn.
  - intros d dom h ref [= H]. by apply Lookup_sound.
  - intros d dom hs res h ref [= <-] H. apply map_lookup_filter_Some in H as [H _].
    apply collect_sound in H as [H|H]; [|done]. by rewrite lookup_empty in H.
  - intros d dom locs d' r [= <- <-] dom' h ref. cbn. rewrite inner_insert. case_decide; [subst|by left].
    intros H. apply foldl_recordLoc_sound in H as [H|H]; auto.
  - intros d dom phs d' r [= <- <-]. destruct (PurgePacks_sound d dom phs). auto.
  - intros f d dom l d' r [= <-]. unfold Associate. destruct l; [by intros [= <- _]|].
    destruct (forallb _ _); by intros [= <- _].
  - done.
Defined.

#[export] Instance mem_dedup_reliable : DedupStoreReliable mem_dedup.
Proof.
  split; cbn; [done| |done]. intros f d dom l [= <-]. unfold Associate. destruct l; [by left|].
  destruct (forallb _ _); [by left|by right].
Qed.
