(* ===== verification/PackAssoc.v ===== *)
(** Pack associations and mark-based reclamation
    (casstore/snapshot/packassoc.go).

    A context (an owner) is associated with every pack it references; a pack is
    deleted only when no association is left, decided in one atomic step after
    its [obliterating] mark was published.  The store's operations are atomic
    (one mutex), so concurrency is interleaving of whole operations: [mdOp] is
    one operation by any client, [exec] performs it, and the theorems quantify
    over arbitrary operation sequences.

    [ObliterateContext] is the reclaimer.  Its drain wait is a parameter, the
    operations other clients perform meanwhile. *)

From S2P Require Import Prelude GoStrings BlobStore Manifest DedupIndex.

(** ** Interleavings of store operations *)

Inductive mdOp :=
| OpRecord (domain : string) (locs : list ChunkLocation)
| OpPurge (domain : string) (phs : list string)
| OpAssociate (domain : string) (l : list PackAssociation)
| OpDrop (domain packContext : string)
| OpMark (domain packHash : string)
| OpRelease (domain packHash : string)
| OpCommit (domain packHash : string)
| OpBackfilled (domain : string).

Definition exec (m : MemoryDedupStore) (op : mdOp) : MemoryDedupStore :=
  match op with
  | OpRecord d locs => Record_ m d locs
  | OpPurge d phs => PurgePacks m d phs
  | OpAssociate d l => (Associate m d l).1
  | OpDrop d c => (DropContext m d c).1
  | OpMark d p => (MarkObliterating m d p).1
  | OpRelease d p => ReleaseMark m d p
  | OpCommit d p => (CommitObliterated m d p).1
  | OpBackfilled d => MarkBackfilled m d
  end.

Definition execs (m : MemoryDedupStore) (ops : list mdOp) : MemoryDedupStore := foldl exec m ops.

(** ** Well-formedness of a domain's associations *)

Definition associated (a : memAssoc) (p c : string) : Prop := c ∈ innerSet (byPack a) p.

#[global] Instance associated_dec a p c : Decision (associated a p c).
Proof. unfold associated. apply _. Defined.

Record assoc_wf (a : memAssoc) : Prop := {
  wf_inverse : forall p c, c ∈ innerSet (byPack a) p <-> p ∈ innerSet (byContext a) c;
  wf_nonempty : forall p cs, byPack a !! p = Some cs -> cs <> ∅;
  wf_obliterated : forall p, stateOf a p = PackObliterated -> innerSet (byPack a) p = ∅;
}.

Definition md_wf (m : MemoryDedupStore) : Prop := forall dom, assoc_wf (assocFor m dom).

Lemma assoc_wf_empty b : assoc_wf (MkMemAssoc ∅ ∅ ∅ b).
Proof.
  split; unfold innerSet, stateOf; cbn.
  - intros p c. rewrite !lookup_empty. done.
  - intros p cs. by rewrite lookup_empty.
  - intros p _. by rewrite lookup_empty.
Qed.

Lemma md_wf_new : md_wf NewMemoryDedupStore.
Proof. intros dom. unfold assocFor. cbn. rewrite lookup_empty. apply assoc_wf_empty. Qed.

Lemma assocFor_put m dom a dom' :
  assocFor (putAssoc m dom a) dom' = if decide (dom' = dom) then a else assocFor m dom'.
Proof.
  unfold assocFor, putAssoc. cbn. case_decide; [subst; by rewrite lookup_insert_eq|by rewrite lookup_insert_ne].
Qed.

Lemma md_wf_put m dom a : md_wf m -> assoc_wf a -> md_wf (putAssoc m dom a).
Proof. intros Hm Ha dom'. rewrite assocFor_put. by case_decide. Qed.

(** *** Associate *)

Lemma innerSet_byPack_add a x p :
  innerSet (byPack (addAssoc a x)) p =
    if decide (p = aPackHash x) then {[aContext x]} ∪ innerSet (byPack a) p else innerSet (byPack a) p.
Proof. cbn. rewrite innerSet_insert. case_decide; [by subst|done]. Qed.

Lemma innerSet_byContext_add a x c :
  innerSet (byContext (addAssoc a x)) c =
    if decide (c = aContext x) then {[aPackHash x]} ∪ innerSet (byContext a) c else innerSet (byContext a) c.
Proof. cbn. rewrite innerSet_insert. case_decide; [by subst|done]. Qed.

Lemma addAssoc_wf a x : assoc_wf a -> stateOf a (aPackHash x) = PackStored -> assoc_wf (addAssoc a x).
Proof.
  intros [H1 H2 H3] Hst. split.
  - intros p c. rewrite innerSet_byPack_add, innerSet_byContext_add.
    specialize (H1 p c). repeat case_decide; subst; set_solver.
  - intros p cs. cbn. intros H. apply lookup_insert_Some in H as [[<- <-]|[_ H]]; [set_solver|eauto].
  - intros p Hp. change (stateOf (addAssoc a x) p) with (stateOf a p) in Hp.
    rewrite innerSet_byPack_add. rewrite decide_False by congruence. auto.
Qed.

Lemma foldl_addAssoc_state l a p : stateOf (foldl addAssoc a l) p = stateOf a p.
Proof. revert a; induction l as [|x l IH]; intros a; cbn; [done|]. by rewrite IH. Qed.

Lemma foldl_addAssoc_wf l a :
  assoc_wf a -> Forall (fun x => stateOf a (aPackHash x) = PackStored) l -> assoc_wf (foldl addAssoc a l).
Proof.
  revert a; induction l as [|x l IH]; intros a Ha Hl; cbn; [done|].
  apply Forall_cons in Hl as [Hx Hl]. apply IH; [by apply addAssoc_wf|]. exact Hl.
Qed.

Lemma foldl_addAssoc_in l a p c :
  associated (foldl addAssoc a l) p c <-> associated a p c \/ MkAssoc p c ∈ l.
Proof.
  unfold associated. revert a; induction l as [|[p' c'] l IH]; intros a; cbn [foldl]; [set_solver|].
  rewrite IH, innerSet_byPack_add. cbn. rewrite elem_of_cons. case_decide as E.
  - rewrite elem_of_union, elem_of_singleton, E. intuition (subst; auto); try congruence.
  - intuition auto. match goal with H : MkAssoc _ _ = _ |- _ => injection H as -> -> end. done.
Qed.

Lemma forallb_stored a l :
  forallb (fun x => bool_decide (stateOf a (aPackHash x) = PackStored)) l = true <->
  Forall (fun x => stateOf a (aPackHash x) = PackStored) l.
Proof.
  induction l as [|x l IH]; cbn; [split; [constructor|done]|].
  rewrite andb_true_iff, bool_decide_eq_true, Forall_cons, IH. done.
Qed.

Lemma Associate_wf m dom l : md_wf m -> md_wf (Associate m dom l).1.
Proof.
  intros Hm. unfold Associate. destruct l as [|x l]; [done|].
  destruct (forallb _ _) eqn:E; cbn; apply md_wf_put; auto. change (foldl addAssoc (addAssoc _ x) l) with
    (foldl addAssoc (assocFor m dom) (x :: l)). apply foldl_addAssoc_wf; [done|]. by apply forallb_stored.
Qed.

(** *** DropContext *)

Lemma dropOne_lookup c bp q p :
  innerSet (dropOne c bp q) p = if decide (p = q) then innerSet bp p ∖ {[c]} else innerSet bp p.
Proof.
  unfold dropOne. destruct (bp !! q) as [cs|] eqn:E.
  - case_decide as Hc.
    + rewrite innerSet_delete. case_decide; [subst|done]. unfold innerSet. by rewrite E.
    + rewrite innerSet_insert. case_decide; [subst|done]. unfold innerSet. by rewrite E.
  - case_decide; [subst|done]. unfold innerSet. rewrite E. cbn. set_solver.
Qed.

Lemma foldl_dropOne_lookup c packs bp p :
  innerSet (foldl (dropOne c) bp packs) p =
    if decide (p ∈ packs) then innerSet bp p ∖ {[c]} else innerSet bp p.
Proof.
  revert bp; induction packs as [|q packs IH]; intros bp; cbn [foldl]; [by rewrite decide_False by set_solver|].
  rewrite IH, dropOne_lookup. repeat case_decide; set_solver.
Qed.

Lemma foldl_dropOne_nonempty c packs bp :
  (forall p cs, bp !! p = Some cs -> cs <> ∅) ->
  forall p cs, foldl (dropOne c) bp packs !! p = Some cs -> cs <> ∅.
Proof.
  revert bp; induction packs as [|q packs IH]; intros bp Hb; cbn; [done|]. apply IH.
  intros p cs. unfold dropOne. destruct (bp !! q) as [x|] eqn:E; [|eauto]. case_decide as Hx.
  - intros H. apply lookup_delete_Some in H as [_ H]. eauto.
  - intros H. apply lookup_insert_Some in H as [[<- <-]|[_ H]]; eauto.
Qed.

(** Dropping a context removes its associations and no others. *)
Lemma DropContext_exact m dom c :
  md_wf m ->
  forall p c', associated (assocFor (DropContext m dom c).1 dom) p c' <->
               associated (assocFor m dom) p c' /\ c' <> c.
Proof.
  intros Hm p c'. destruct (Hm dom) as [H1 H2 H3]. unfold DropContext, associated.
  destruct (elements _) as [|q packs] eqn:E; cbn [fst].
  - rewrite assocFor_put, decide_True by done. apply elements_empty_inv in E.
    assert (p ∉ innerSet (byContext (assocFor m dom)) c) as Hp by set_solver.
    rewrite <- H1 in Hp. split; [|by intros [? _]]. intros H. split; [done|]. by intros ->.
  - rewrite assocFor_put, decide_True by done. cbn [byPack]. rewrite <- E, foldl_dropOne_lookup.
    case_decide as Hp; [set_solver|]. rewrite elem_of_elements, <- H1 in Hp.
    split; [|by intros [? _]]. intros H. split; [done|]. by intros ->.
Qed.

Lemma DropContext_list m dom c p :
  md_wf m -> p ∈ (DropContext m dom c).2 <-> associated (assocFor m dom) p c.
Proof.
  intros Hm. destruct (Hm dom) as [H1 _ _]. unfold associated. rewrite H1. unfold DropContext.
  destruct (elements _) eqn:E; cbn; [apply elements_empty_inv in E; set_solver|].
  rewrite <- E. apply elem_of_elements.
Qed.

Lemma DropContext_state m dom c dom' p :
  stateOf (assocFor (DropContext m dom c).1 dom') p = stateOf (assocFor m dom') p.
Proof. unfold DropContext. destruct (elements _); cbn; rewrite assocFor_put; by case_decide; subst. Qed.

Lemma DropContext_wf m dom c : md_wf m -> md_wf (DropContext m dom c).1.
Proof.
  intros Hm. pose proof (DropContext_exact m dom c Hm) as Hex. unfold associated in Hex. revert Hex.
  unfold DropContext. destruct (elements _) as [|q packs] eqn:E; cbn [fst]; intros Hex;
    (apply md_wf_put; [done|]); [apply Hm|]. destruct (Hm dom) as [H1 H2 H3].
  rewrite assocFor_put, decide_True in Hex by done. cbn [byPack] in Hex. split; cbn [byPack byContext].
  - intros p c'. rewrite Hex, innerSet_delete, H1. case_decide; set_solver.
  - by apply foldl_dropOne_nonempty.
  - intros p Hp. change (stateOf _ p) with (stateOf (assocFor m dom) p) in Hp. apply H3 in Hp.
    rewrite foldl_dropOne_lookup, Hp. case_decide; set_solver.
Qed.

(** *** All operations *)

Lemma assocFor_Record m d locs dom : assocFor (Record_ m d locs) dom = assocFor m dom.
Proof. done. Qed.

Lemma assocFor_Purge m d phs dom : assocFor (PurgePacks m d phs) dom = assocFor m dom.
Proof. unfold PurgePacks. destruct phs; [done|]. by destruct (byDom m !! d). Qed.

Lemma setState_stateOf a p st q : stateOf (setState a p st) q = if decide (q = p) then st else stateOf a q.
Proof.
  unfold stateOf, setState. cbn. case_decide; [subst; by rewrite lookup_insert_eq|by rewrite lookup_insert_ne].
Qed.

Lemma setState_wf a p st :
  assoc_wf a -> (st = PackObliterated -> innerSet (byPack a) p = ∅) -> assoc_wf (setState a p st).
Proof.
  intros [H1 H2 H3] Hst. split; [done..|]. intros q Hq. rewrite setState_stateOf in Hq. cbn.
  case_decide; [subst; auto|auto].
Qed.

Lemma hasAssoc_false a p : hasAssoc a p = false <-> innerSet (byPack a) p = ∅.
Proof. unfold hasAssoc. rewrite negb_false_iff. apply bool_decide_eq_true. Qed.

#[export] Hint Resolve md_wf_put Associate_wf DropContext_wf : store.

Lemma exec_wf m op : md_wf m -> md_wf (exec m op).
Proof.
  intros Hm. destruct op as [d locs|d phs|d l|d c|d p|d p|d p|d]; cbn [exec]; auto with store.
  - intros dom. rewrite assocFor_Purge. apply Hm.
  - unfold MarkObliterating. case_decide; cbn; apply md_wf_put; auto. by apply setState_wf.
  - unfold ReleaseMark. apply md_wf_put; auto. case_decide; auto. by apply setState_wf.
  - unfold CommitObliterated. case_bool_decide; cbn; [|by apply md_wf_put].
    destruct (hasAssoc _ _) eqn:E; cbn; apply md_wf_put; auto. apply setState_wf; auto.
    intros _. by apply hasAssoc_false.
  - unfold MarkBackfilled. apply md_wf_put; auto. destruct (Hm d) as [H1 H2 H3]. by split.
Qed.

Lemma execs_wf ops m : md_wf m -> md_wf (execs m ops).
Proof. unfold execs. revert m; induction ops as [|op ops IH]; intros m Hm; cbn; [done|]. by apply IH, exec_wf. Qed.

(** An obliterated pack stays obliterated. *)
Lemma exec_obliterated m op dom p :
  stateOf (assocFor m dom) p = PackObliterated -> stateOf (assocFor (exec m op) dom) p = PackObliterated.
Proof.
  intros Hp. destruct op as [d locs|d phs|d l|d c|d q|d q|d q|d]; cbn [exec].
  - done.
  - by rewrite assocFor_Purge.
  - unfold Associate. destruct l as [|x l]; [done|]. destruct (forallb _ _); cbn [fst]; rewrite assocFor_put;
      case_decide; subst; try done. by rewrite foldl_addAssoc_state.
  - by rewrite DropContext_state.
  - unfold MarkObliterating. case_decide as E; cbn [fst]; rewrite assocFor_put; case_decide; subst; try done.
    rewrite setState_stateOf. case_decide; [congruence|done].
  - unfold ReleaseMark. rewrite assocFor_put. case_decide; [subst|done]. case_decide as E; [|done].
    rewrite setState_stateOf. case_decide; [congruence|done].
  - unfold CommitObliterated. case_bool_decide as E; cbn [negb].
    2:{ cbn. rewrite assocFor_put. by case_decide; subst. }
    destruct (hasAssoc _ _); cbn; rewrite assocFor_put; case_decide; subst; try done.
    rewrite setState_stateOf. by case_decide.
  - unfold MarkBackfilled. rewrite assocFor_put. by case_decide; subst.
Qed.

Lemma execs_obliterated ops m dom p :
  stateOf (assocFor m dom) p = PackObliterated -> stateOf (assocFor (execs m ops) dom) p = PackObliterated.
Proof.
  unfold execs. revert m; induction ops as [|op ops IH]; intros m Hm; cbn; [done|]. by apply IH, exec_obliterated.
Qed.

(** An association survives every operation but dropping its context. *)
Lemma exec_associated m op dom p c :
  md_wf m -> associated (assocFor m dom) p c -> op <> OpDrop dom c -> associated (assocFor (exec m op) dom) p c.
Proof.
  intros Hm Hp Hop. destruct op as [d locs|d phs|d l|d c'|d q|d q|d q|d]; cbn [exec].
  - done.
  - by rewrite assocFor_Purge.
  - unfold Associate. destruct l as [|x l]; [done|]. destruct (forallb _ _); cbn [fst]; rewrite assocFor_put;
      case_decide; subst; try done. apply (foldl_addAssoc_in (x :: l)). by left.
  - destruct (decide (d = dom)) as [->|].
    + apply DropContext_exact; [done|]. split; [done|]. congruence.
    + unfold DropContext. destruct (elements _); cbn [fst]; by rewrite assocFor_put, decide_False by done.
  - unfold MarkObliterating. case_decide; cbn [fst]; rewrite assocFor_put; by case_decide; subst.
  - unfold ReleaseMark. rewrite assocFor_put. case_decide; [subst|done]. by case_decide.
  - unfold CommitObliterated. case_bool_decide; cbn [negb].
    2:{ cbn. rewrite assocFor_put. by case_decide; subst. }
    destruct (hasAssoc _ _); cbn; rewrite assocFor_put; by case_decide; subst.
  - unfold MarkBackfilled. rewrite assocFor_put. by case_decide; subst.
Qed.

Lemma execs_associated ops m dom p c :
  md_wf m -> associated (assocFor m dom) p c -> OpDrop dom c ∉ ops -> associated (assocFor (execs m ops) dom) p c.
Proof.
  unfold execs. revert m; induction ops as [|op ops IH]; intros m Hm Hp Hop; cbn; [done|].
  apply IH; [by apply exec_wf| |set_solver]. apply exec_associated; [done..|]. set_solver.
Qed.

Lemma wf_associated_live m dom p c :
  md_wf m -> associated (assocFor m dom) p c -> stateOf (assocFor m dom) p <> PackObliterated.
Proof. intros Hm Hp Hst. destruct (Hm dom) as [_ _ H]. apply H in Hst. unfold associated in Hp. set_solver. Qed.

(** Associating an unavailable pack is refused and records nothing. *)
Lemma Associate_refuses m dom l p :
  p ∈ (aPackHash <$> l) -> stateOf (assocFor m dom) p <> PackStored ->
  (Associate m dom l).2 = Err ErrPackObliterating /\
  forall dom' q c, associated (assocFor (Associate m dom l).1 dom') q c <-> associated (assocFor m dom') q c.
Proof.
  intros Hp Hst. destruct l as [|x l]; [by apply elem_of_nil in Hp|]. unfold Associate.
  destruct (forallb _ _) eqn:E.
  - apply forallb_stored in E. apply list_elem_of_fmap in Hp as (y & -> & Hy).
    rewrite Forall_forall in E. by apply E in Hy.
  - split; [done|]. intros dom' q c. cbn [fst]. rewrite assocFor_put. by case_decide; subst.
Qed.

Lemma Associate_ok m dom l m' :
  Associate m dom l = (m', Ok tt) ->
  forall p c, associated (assocFor m' dom) p c <-> associated (assocFor m dom) p c \/ MkAssoc p c ∈ l.
Proof.
  unfold Associate. destruct l as [|x l]; [intros [= <-]; set_solver|].
  destruct (forallb _ _); [|done]. intros [= <-] p c. rewrite assocFor_put, decide_True by done.
  apply (foldl_addAssoc_in (x :: l)).
Qed.


(** Obliteration is final.  Once a pack is obliterated, after any further
    operations by any client it is still obliterated and unassociated, no
    lookup hands out a location in it, and associating it is refused with
    nothing recorded. *)
Theorem obliterated_final m ops dom p :
  md_wf m -> stateOf (assocFor m dom) p = PackObliterated ->
  let m' := execs m ops in
  stateOf (assocFor m' dom) p = PackObliterated /\
  (forall c, ~ associated (assocFor m' dom) p c) /\
  (forall h ref, Lookup m' dom h = Some ref -> rPackHash ref <> p) /\
  (forall l, p ∈ (aPackHash <$> l) -> (Associate m' dom l).2 = Err ErrPackObliterating).
Proof.
  intros Hm Hp m'. pose proof (execs_obliterated ops m dom p Hp) as Hp'. pose proof (execs_wf ops m Hm) as Hm'.
  split_and!; [done| | |].
  - intros c Hc. by apply (wf_associated_live m' dom p c).
  - intros h ref Hl E. apply Lookup_available in Hl. rewrite E in Hl. unfold m' in *. congruence.
  - intros l Hl. apply (Associate_refuses m' dom l p Hl). unfold m'. by rewrite Hp'.
Qed.

(** A live owner protects its packs.  While a context's association with a
    pack exists and nobody drops that context, no sequence of operations,
    marks and commits by concurrent reclaimers included, can obliterate the
    pack. *)
Theorem associated_survives m ops dom p c :
  md_wf m -> associated (assocFor m dom) p c -> OpDrop dom c ∉ ops ->
  associated (assocFor (execs m ops) dom) p c /\
  stateOf (assocFor (execs m ops) dom) p <> PackObliterated.
Proof.
  intros Hm Hp Hops. pose proof (execs_associated ops m dom p c Hm Hp Hops) as H. split; [done|].
  by apply (wf_associated_live _ dom p c); [apply execs_wf|].
Qed.

(** Dropping a context returns exactly the packs it referenced and removes
    exactly its associations; other contexts' claims on the same packs stay. *)
Theorem DropContext_spec m dom c :
  md_wf m ->
  (forall p, p ∈ (DropContext m dom c).2 <-> associated (assocFor m dom) p c) /\
  (forall p c', associated (assocFor (DropContext m dom c).1 dom) p c' <->
                associated (assocFor m dom) p c' /\ c' <> c) /\
  md_wf (DropContext m dom c).1.
Proof.
  intros Hm. split_and!; [|by apply DropContext_exact|by apply DropContext_wf].
  intros p. by apply DropContext_list.
Qed.

(** ** Witnesses *)

Definition ex_ops : list mdOp :=
  [OpAssociate "d" [MkAssoc "p" "a"; MkAssoc "q" "a"; MkAssoc "q" "b"]; OpDrop "d" "a"; OpMark "d" "p"; OpCommit "d" "p"].

Definition ex_md : MemoryDedupStore := execs NewMemoryDedupStore ex_ops.

Lemma ex_md_wf : md_wf ex_md.
Proof. apply execs_wf, md_wf_new. Qed.

Lemma obliterated_final_witness :
  (Associate (execs ex_md [OpRelease "d" "p"]) "d" [MkAssoc "p" "c"]).2 = Err ErrPackObliterating.
Proof.
  apply (obliterated_final ex_md [OpRelease "d" "p"] "d" "p");
    [apply ex_md_wf | vm_compute; reflexivity | left].
Defined.

Lemma associated_survives_witness :
  stateOf (assocFor (execs ex_md [OpMark "d" "q"; OpCommit "d" "q"; OpDrop "d" "a"]) "d") "q" <> PackObliterated.
Proof.
  apply (associated_survives ex_md [OpMark "d" "q"; OpCommit "d" "q"; OpDrop "d" "a"] "d" "q" "b").
  - apply ex_md_wf.
  - apply (bool_decide_unpack _). vm_compute. exact I.
  - rewrite !not_elem_of_cons. split_and!; [discriminate..|]. apply not_elem_of_nil.
Defined.

Lemma DropContext_spec_witness : "q" ∈ (DropContext ex_md "d" "b").2.
Proof.
  apply (DropContext_spec ex_md "d" "b"); [apply ex_md_wf|].
  apply (bool_decide_unpack _). vm_compute. exact I.
Defined.
