(* ===== verification/Reclaim.v ===== *)
(** Context-scoped reclamation
    (casstore/snapshot/packassoc.go, [PackReclaimer]).

    [ObliterateContext] drops an owner's associations, marks the candidate
    packs, drops again, waits, and then decides each marked pack in [finish]:
    commit and delete, or release.  The wait is where other clients run, so the
    model takes it as a function on the shared state; [interference] says it is
    some sequence of store operations and deletes no blob.

    The main theorem is the safety of the delete: whatever other clients did
    during the wait and whatever calls failed, every blob the call removed
    belongs to a pack that is obliterated and unassociated. *)

From S2P Require Import Prelude GoStrings BlobStore Manifest DedupIndex PackAssoc.

(** The reclamation half of the store ([PackAssocStore] beyond [Associate]). *)
Class PackAssocStore (D : DedupStore) := {
  aDropContext : dstore -> string -> string -> dstore * result (list string);
  aWalkLivePacks : dstore -> string -> result (list string);
  aMarkObliterating : dstore -> string -> string -> dstore * result bool;
  aReleaseMark : dstore -> string -> string -> dstore * result unit;
  aCommitObliterated : dstore -> string -> string -> dstore * result bool;
  aMarkBackfilled : dstore -> string -> dstore * result unit;
  aIsBackfilled : dstore -> string -> result bool;
}.

#[export] Instance mem_assoc_store : PackAssocStore mem_dedup := {|
  aDropContext := fun (d : @dstore mem_dedup) dom c => let '(d, l) := DropContext d dom c in (d, Ok l);
  aWalkLivePacks := fun (d : @dstore mem_dedup) dom => Ok (WalkLivePacks d dom);
  aMarkObliterating := fun (d : @dstore mem_dedup) dom p => let '(d, b) := MarkObliterating d dom p in (d, Ok b);
  aReleaseMark := fun (d : @dstore mem_dedup) dom p => (ReleaseMark d dom p, Ok tt);
  aCommitObliterated := fun (d : @dstore mem_dedup) dom p => let '(d, b) := CommitObliterated d dom p in (d, Ok b);
  aMarkBackfilled := fun (d : @dstore mem_dedup) dom => (MarkBackfilled d dom, Ok tt);
  aIsBackfilled := fun (d : @dstore mem_dedup) dom => Ok (IsBackfilled d dom);
|}.

Record ReclaimResult := MkReclaim {
  PacksConsidered : Z; PacksReclaimed : Z; PacksStillReferenced : Z;
  PacksHeldByOther : Z; PacksSkippedError : Z; BytesReclaimed : Z }.

Definition skipError (r : ReclaimResult) : ReclaimResult :=
  MkReclaim (PacksConsidered r) (PacksReclaimed r) (PacksStillReferenced r)
    (PacksHeldByOther r) (PacksSkippedError r + 1) (BytesReclaimed r).
Definition stillReferenced (r : ReclaimResult) : ReclaimResult :=
  MkReclaim (PacksConsidered r) (PacksReclaimed r) (PacksStillReferenced r + 1)
    (PacksHeldByOther r) (PacksSkippedError r) (BytesReclaimed r).
Definition heldByOther (r : ReclaimResult) : ReclaimResult :=
  MkReclaim (PacksConsidered r) (PacksReclaimed r) (PacksStillReferenced r)
    (PacksHeldByOther r + 1) (PacksSkippedError r) (BytesReclaimed r).
Definition reclaimed (size : Z) (r : ReclaimResult) : ReclaimResult :=
  MkReclaim (PacksConsidered r) (PacksReclaimed r + 1) (PacksStillReferenced r)
    (PacksHeldByOther r) (PacksSkippedError r) (BytesReclaimed r + size).

Section Reclaimer.
  Context {Sto : Storage} {D : DedupStore} {A : PackAssocStore D}.
  (** [r.index != nil]; the wait; [ctx.Err()] at the i-th check. *)
  Context (hasIndex : bool) (sleep : dstore * storage -> dstore * storage) (DrainInterval : Z)
          (ctxErr : nat -> option err).

Definition finish (domain packHash : string) (w : dstore * storage * ReclaimResult)
  : dstore * storage * ReclaimResult :=
  let '(d, s, res) := w in
  match aCommitObliterated d domain packHash with
  | (d, Err _) => (d, s, skipError res)
  | (d, Ok false) =>
      match aReleaseMark d domain packHash with
      | (d, Err _) => (d, s, skipError res)
      | (d, Ok _) => (d, s, stillReferenced res)
      end
  | (d, Ok true) =>
      let id := packBlobID domain packHash in
      let size := match GetMetadata s id with Ok md => Length md | Err _ => 0 end in
      let '(d, purged) := if hasIndex then dPurgePacks d domain [packHash] else (d, Ok tt) in
      match purged with
      | Err _ => (d, s, skipError res)
      | Ok _ =>
          match DeleteBlob s id with
          | (s, Err e) => if decide (e = ErrBlobNotFound) then (d, s, reclaimed size res)
                          else (d, s, skipError res)
          | (s, Ok _) => (d, s, reclaimed size res)
          end
      end
  end.

Fixpoint markAll (domain : string) (i : nat) (candidates : list string) (d : dstore) (res : ReclaimResult)
  : dstore * ReclaimResult * result (list string) :=
  match candidates with
  | [] => (d, res, Ok [])
  | p :: candidates =>
      match ctxErr i with
      | Some e => (d, res, Err e)
      | None =>
          match aMarkObliterating d domain p with
          | (d, Err _) => markAll domain (S i) candidates d (skipError res)
          | (d, Ok false) => markAll domain (S i) candidates d (heldByOther res)
          | (d, Ok true) =>
              match markAll domain (S i) candidates d res with
              | (d, res, Ok marked) => (d, res, Ok (p :: marked))
              | other => other
              end
          end
      end
  end.

Fixpoint finishAll (domain : string) (i : nat) (marked : list string) (w : dstore * storage * ReclaimResult)
  : dstore * storage * ReclaimResult * option err :=
  match marked with
  | [] => (w, None)
  | p :: marked =>
      match ctxErr i with
      | Some e => (w, Some e)
      | None => finishAll domain (S i) marked (finish domain p w)
      end
  end.

(** The wait between the mark and the re-check. *)
Definition drain (marked : list string) (w : dstore * storage) : dstore * storage :=
  match marked with
  | [] => w
  | _ => if 0 <? DrainInterval then sleep w else w
  end.

Definition ObliterateContext (d : dstore) (s : storage) (domain packContext : string)
  : dstore * storage * ReclaimResult * option err :=
  let res := MkReclaim 0 0 0 0 0 0 in
  match aDropContext d domain packContext with
  | (d, Err e) => (d, s, res, Some e)
  | (d, Ok candidates) =>
      let res := MkReclaim (len candidates) 0 0 0 0 0 in
      match candidates with
      | [] => (d, s, res, None)
      | _ =>
          match markAll domain 0 candidates d res with
          | (d, res, Err e) => (d, s, res, Some e)
          | (d, res, Ok marked) =>
              let d := (aDropContext d domain packContext).1 in
              let '(d, s) := drain marked (d, s) in
              finishAll domain (length candidates) marked (d, s, res)
          end
      end
  end.
End Reclaimer.

(** ** Safety of the delete, for the reference store *)

Section Safety.
  Context {Sto : Storage} {L : StorageLaws Sto}.
  Context (hasIndex : bool) (sleep : @dstore mem_dedup * storage -> @dstore mem_dedup * storage)
          (DrainInterval : Z) (ctxErr : nat -> option err).

(** Other clients run store operations and may add blobs. *)
Definition interference : Prop :=
  forall d s, (exists ops, (sleep (d, s)).1 = execs d ops) /\ blobs s ⊆ blobs (sleep (d, s)).2.

(** Only deletions happened, and only of packs that [m'] has obliterated. *)
Definition only_obliterated (dom : string) (s s' : storage) (m' : MemoryDedupStore) : Prop :=
  blobs s' ⊆ blobs s /\
  forall id, is_Some (blobs s !! id) -> blobs s' !! id = None ->
    exists p, id = packBlobID dom p /\ stateOf (assocFor m' dom) p = PackObliterated.

Lemma only_obliterated_refl dom s s' m : blobs s' = blobs s -> only_obliterated dom s s' m.
Proof. intros E. split; [by rewrite E|]. intros id [x Hx] Hn. congruence. Qed.

Lemma only_obliterated_delete dom s s' p m :
  blobs s' = delete (packBlobID dom p) (blobs s) -> stateOf (assocFor m dom) p = PackObliterated ->
  only_obliterated dom s s' m.
Proof.
  intros E Hp. split; rewrite E; [apply delete_subseteq|]. intros id [x Hx] Hn.
  destruct (decide (id = packBlobID dom p)) as [->|]; [eauto|]. rewrite lookup_delete_ne in Hn by done. congruence.
Qed.

Lemma finish_execs dom p (d : @dstore mem_dedup) (s : storage) res :
  exists ops, (finish hasIndex dom p (d, s, res)).1.1 = execs d ops.
Proof.
  unfold finish. cbn. destruct (CommitObliterated d dom p) as [d1 b] eqn:E.
  assert (d1 = execs d [OpCommit dom p]) as -> by (cbn; by rewrite E).
  destruct b; [|exists [OpCommit dom p; OpRelease dom p]; done].
  destruct hasIndex; cbn; destruct (DeleteBlob s _) as [s1 [[]|e]]; try case_decide;
    solve [exists [OpCommit dom p]; done | exists [OpCommit dom p; OpPurge dom [p]]; done].
Qed.

Lemma finish_only dom p (d : @dstore mem_dedup) (s : storage) res :
  let w := finish hasIndex dom p (d, s, res) in only_obliterated dom s w.1.2 w.1.1.
Proof.
  unfold finish. cbn [aCommitObliterated mem_assoc_store].
  destruct (CommitObliterated d dom p) as [d1 b] eqn:E.
  destruct b; [|by apply only_obliterated_refl].
  assert (Hst : stateOf (assocFor d1 dom) p = PackObliterated).
  { revert E. unfold CommitObliterated. case_bool_decide; [|done]. cbn [negb]. destruct (hasAssoc _ _); [done|].
    intros [= <-]. rewrite assocFor_put, decide_True, setState_stateOf by done. by rewrite decide_True. }
  cbn [dPurgePacks mem_dedup].
  assert (Hst2 : stateOf (assocFor (if hasIndex then (PurgePacks d1 dom [p], Ok tt) else (d1, @Ok unit tt)).1 dom) p
                 = PackObliterated) by (destruct hasIndex; cbn [fst]; by rewrite ?assocFor_Purge).
  destruct (if hasIndex then _ else _) as [d2 [[]|e]]; cbn [fst] in Hst2; [|by apply only_obliterated_refl].
  destruct (DeleteBlob s (packBlobID dom p)) as [s1 r] eqn:Ed. apply DeleteBlob_blobs in Ed.
  assert (Ho : only_obliterated dom s s1 d2) by (destruct Ed; [by apply only_obliterated_refl|by eapply only_obliterated_delete]).
  destruct r as [[]|e]; [done|]. by case_decide.
Qed.

Lemma only_obliterated_trans dom s1 s2 s3 m2 m3 :
  only_obliterated dom s1 s2 m2 -> only_obliterated dom s2 s3 m3 -> (exists ops, m3 = execs m2 ops) ->
  only_obliterated dom s1 s3 m3.
Proof.
  intros [S1 H1] [S2 H2] [ops ->]. split; [by transitivity (blobs s2)|]. intros id Hx Hn.
  destruct (blobs s2 !! id) as [y|] eqn:Hy; [by apply H2; [rewrite Hy|]|].
  destruct (H1 id Hx Hy) as (p & -> & Hp). exists p. split; [done|]. by apply execs_obliterated.
Qed.

Lemma finishAll_only dom marked i (d : @dstore mem_dedup) (s : storage) res :
  let w := (finishAll hasIndex ctxErr dom i marked (d, s, res)).1 in
  only_obliterated dom s w.1.2 w.1.1 /\ exists ops, w.1.1 = execs d ops.
Proof.
  revert i d s res; induction marked as [|p marked IH]; intros i d s res; cbn [finishAll].
  - split; [by apply only_obliterated_refl|by exists []].
  - destruct (ctxErr i); [split; [by apply only_obliterated_refl|by exists []]|].
    pose proof (finish_only dom p d s res) as H1. destruct (finish_execs dom p d s res) as [ops1 Hops1].
    destruct (finish hasIndex dom p (d, s, res)) as [[d1 s1] res1]. cbn in H1, Hops1.
    destruct (IH (S i) d1 s1 res1) as [H2 [ops2 Hops2]]. split.
    + by eapply only_obliterated_trans; [..|eauto].
    + exists (ops1 ++ ops2). rewrite Hops2, Hops1. unfold execs. by rewrite foldl_app.
Qed.

Lemma markAll_execs dom candidates i (d : @dstore mem_dedup) res :
  exists ops, (markAll ctxErr dom i candidates d res).1.1 = execs d ops.
Proof.
  revert i d res; induction candidates as [|p candidates IH]; intros i d res; cbn [markAll]; [by exists []|].
  destruct (ctxErr i); [by exists []|]. cbn [aMarkObliterating mem_assoc_store].
  destruct (MarkObliterating d dom p) as [d1 b] eqn:E.
  assert (Hd1 : d1 = execs d [OpMark dom p]) by (unfold execs; cbn [foldl exec]; by rewrite E).
  assert (Hcons : forall d2, (exists ops, d2 = execs d1 ops) -> exists ops, d2 = execs d ops).
  { intros d2 [ops ->]. exists (OpMark dom p :: ops). by rewrite Hd1. }
  destruct b; [|apply Hcons, IH]. destruct (IH (S i) d1 res) as [ops Hops].
  destruct (markAll _ _ (S i) _ _ _) as [[d2 res2] [marked|e]]; apply Hcons; eauto.
Qed.

Lemma drain_execs marked (d : @dstore mem_dedup) (s : storage) :
  interference ->
  (exists ops, (drain sleep DrainInterval marked (d, s)).1 = execs d ops) /\
  blobs s ⊆ blobs (drain sleep DrainInterval marked (d, s)).2.
Proof.
  intros Hint. unfold drain. destruct marked; [split; [by exists []|done]|].
  destruct (0 <? DrainInterval); [apply Hint|split; [by exists []|done]].
Qed.

Lemma obliterate_only (d : @dstore mem_dedup) (s : storage) dom c :
  interference ->
  let w := (ObliterateContext hasIndex sleep DrainInterval ctxErr d s dom c).1 in
  (exists ops, w.1.1 = execs d ops) /\
  forall id x, blobs s !! id = Some x -> blobs w.1.2 !! id = Some x \/
    (blobs w.1.2 !! id = None /\
     exists p, id = packBlobID dom p /\ stateOf (assocFor w.1.1 dom) p = PackObliterated).
Proof.
  intros Hint. unfold ObliterateContext. cbn [aDropContext mem_assoc_store].
  destruct (DropContext d dom c) as [d1 candidates] eqn:E.
  assert (Hd1 : d1 = execs d [OpDrop dom c]) by (unfold execs; cbn [foldl exec]; by rewrite E).
  destruct candidates as [|p candidates]; [split; [by exists [OpDrop dom c]|auto]|].
  destruct (markAll_execs dom (p :: candidates) 0 d1 (MkReclaim (len (p :: candidates)) 0 0 0 0 0)) as [ops2 Hops2].
  destruct (markAll _ _ _ _ _ _) as [[d2 res] [marked|e]]; cbn [fst] in Hops2.
  2:{ split; [|auto]. exists (OpDrop dom c :: ops2). by rewrite Hops2, Hd1. }
  destruct (DropContext d2 dom c) as [d3 l3] eqn:E3. cbn [fst].
  assert (Hd3 : d3 = execs d2 [OpDrop dom c]) by (unfold execs; cbn [foldl exec]; by rewrite E3).
  destruct (drain_execs marked d3 s Hint) as [[ops4 H4] Hs].
  destruct (drain _ _ _ _) as [d4 s4]. cbn [fst snd] in H4, Hs.
  destruct (finishAll_only dom marked (length (p :: candidates)) d4 s4 res) as [[Hsub Hobl] [ops5 H5]].
  destruct (finishAll _ _ _ _ _ _) as [[[d5 s5] res5] oe]. cbn in *. split.
  - exists (OpDrop dom c :: ops2 ++ OpDrop dom c :: ops4 ++ ops5).
    rewrite H5, H4, Hd3, Hops2, Hd1. unfold execs. cbn. rewrite !foldl_app. cbn. by rewrite foldl_app.
  - intros id x Hx. pose proof (lookup_weaken _ _ _ _ Hx Hs) as Hx4.
    destruct (blobs s5 !! id) as [y|] eqn:Hy; [left|right; split; [done|by apply Hobl; [rewrite Hx4|]]].
    pose proof (lookup_weaken _ _ _ _ Hy Hsub). congruence.
Qed.

(** C39: Reclamation is safe under concurrency.  Whatever store operations other
    clients perform while the reclaimer waits, whichever blob-store calls fail
    and wherever the call is cancelled, every blob [ObliterateContext] removes
    is the blob of a pack that is then obliterated and held by no context, and
    every other blob is left as it was. *)
Theorem ObliterateContext_safe (d : @dstore mem_dedup) (s : storage) dom c :
  md_wf d -> interference ->
  let '(d', s', res, oe) := ObliterateContext hasIndex sleep DrainInterval ctxErr d s dom c in
  forall id x, blobs s !! id = Some x ->
    blobs s' !! id = Some x \/
    (blobs s' !! id = None /\ exists p, id = packBlobID dom p /\
       stateOf (assocFor d' dom) p = PackObliterated /\ forall c', ~ associated (assocFor d' dom) p c').
Proof.
  intros Hd Hint. destruct (obliterate_only d s dom c Hint) as [[ops Hops] H].
  destruct (ObliterateContext _ _ _ _ _ _ _ _) as [[[d' s'] res] oe]. cbn in *.
  intros id x Hx. destruct (H id x Hx) as [|(? & p & ? & Hp)]; [by left|right].
  split; [done|]. exists p. split_and!; [done|done|]. intros c' Hc'.
  apply (wf_associated_live d' dom p c'); try done. rewrite Hops. by apply execs_wf.
Qed.

End Safety.

(** ** Witness: a second owner appears during the wait *)

Definition ex_assoc : MemoryDedupStore :=
  execs NewMemoryDedupStore [OpAssociate "d" [MkAssoc "p" "a"; MkAssoc "q" "a"; MkAssoc "q" "b"]].
Definition ex_blobs : @storage mem_storage :=
  Mem (<[packBlobID "d" "p" := ([Byte.x01], 0)]> (<[packBlobID "d" "q" := ([Byte.x02], 0)]> ∅)) 1.
Definition ex_sleep (w : @dstore mem_dedup * @storage mem_storage) : @dstore mem_dedup * @storage mem_storage :=
  (execs w.1 [OpAssociate "d" [MkAssoc "r" "a"]; OpMark "d" "q"], w.2).

Lemma ObliterateContext_safe_witness :
  let '(d', s', res, oe) :=
    ObliterateContext true ex_sleep 5 (fun _ => None) (ex_assoc : @dstore mem_dedup) ex_blobs "d" "a" in
  (exists p, packBlobID "d" "p" = packBlobID "d" p /\ stateOf (assocFor d' "d") p = PackObliterated) /\
  blobs s' !! packBlobID "d" "q" = Some ([Byte.x02], 0) /\
  (PacksReclaimed res, PacksStillReferenced res) = (1, 1).
Proof.
  pose proof (ObliterateContext_safe true ex_sleep 5 (fun _ => None) (ex_assoc : @dstore mem_dedup) ex_blobs "d" "a")
    as H.
  assert (Hwf : md_wf ex_assoc) by apply execs_wf, md_wf_new.
  assert (Hint : interference (L := mem_laws) ex_sleep) by (intros d s; split; [eexists; reflexivity|done]).
  specialize (H Hwf Hint).
  destruct (ObliterateContext _ _ _ _ _ _ _ _) as [[[d' s'] res] oe] eqn:E.
  assert (Hp := H (packBlobID "d" "p") ([Byte.x01], 0) ltac:(vm_compute; reflexivity)). clear H.
  vm_compute in E. injection E as <- <- <- <-. split; [|vm_compute; split; reflexivity].
  destruct Hp as [Hp|(_ & p & Hid & Hst & _)]; [vm_compute in Hp; discriminate|]. by exists p.
Defined.
