(* ===== verification/ChunkedWrite.v ===== *)
(** The write path of the chunked store
    (casstore/snapshot/store_chunked.go; sessions from dedupindex.go;
    [associatePacks] from packassoc.go; store_register.go).

    A put streams its input through a content-defined splitter, looks each
    chunk up in a dedup session, buffers new chunks into packs, uploads packs
    under the hash of their uncompressed bytes, and finally writes a manifest
    to the upstream snapshot store.

    The splitter and the upstream, blob and dedup stores are interfaces; [world]
    holds their states.  The read loop is written once, over the [emit] closure
    it drives, and shown to deliver exactly the chunks of [chunksOf]. *)

From S2P Require Import Prelude GoStrings Sha256 PackFormat BlobStore Manifest SnapStore DedupIndex ChunkedRead.

(** ** Configuration *)

Inductive PackCompressionMode := PackCompressPerChunk | PackCompressWholePack.

#[global] Instance PackCompressionMode_eq_dec : EqDecision PackCompressionMode.
Proof. solve_decision. Defined.

Definition ParsePackCompressionMode (s : string) : result PackCompressionMode :=
  if bool_decide (s ∈ ["" ; "per-chunk"; "perchunk"; "chunk"]) then Ok PackCompressPerChunk
  else if bool_decide (s ∈ ["whole-pack"; "wholepack"; "whole"; "pack"]) then Ok PackCompressWholePack
  else Err (EOther "unknown pack compression mode").

Inductive IndexKind := PriorManifestIndex | GlobalIndex.

Definition packingDisabled : Z := -1.
Definition defaultPackTargetBytes : Z := 16 * 1024 * 1024.
Definition TagStoreUncompressed : string := "store_uncompressed".
Definition TagOwnerContext : string := "owner_context".

Record ChunkedStore := MkStore {
  packTargetBytes : Z;
  dedupDomain : string;
  index : IndexKind;
  policy : string -> CompressionAlgo;
  packCompression : PackCompressionMode;
}.

(** [NewChunkedStore] on its defaults: zero values of the config. *)
Definition NewChunkedStore (cfgTarget : Z) (cfgDomain : string) (cfgIndex : option IndexKind)
  (cfgPolicy : option (string -> CompressionAlgo)) (mode : PackCompressionMode) : ChunkedStore :=
  MkStore (if cfgTarget =? 0 then defaultPackTargetBytes else cfgTarget) cfgDomain
    (default PriorManifestIndex cfgIndex) (default (fun _ => CompressNone) cfgPolicy) mode.

(** [m[k]] on a Go [map[string]string]. *)
Definition tag (md : SnapshotMetadata) (k : string) : string := default "" (Tags md !! k).

Definition codecFor (c : ChunkedStore) (md : SnapshotMetadata) : CompressionAlgo :=
  if negb (bool_decide (tag md TagStoreUncompressed = "")) then CompressNone else policy c (mFormat md).

Definition domainFor (c : ChunkedStore) (key : SnapshotKey) : string :=
  if decide (dedupDomain c = "") then Tenant key else dedupDomain c.

Definition contextFor (key : SnapshotKey) (md : SnapshotMetadata) : string :=
  if decide (tag md TagOwnerContext = "") then OwnerKey key else tag md TagOwnerContext.

(** ** Input and splitter *)

(** One [Read]: the bytes and the error it came with. *)
Inductive rdStatus := RdMore | RdEOF | RdErr (e : err).
Definition rdStream : Type := list (bytes * rdStatus).

(** kopia's splitter: stateful; a split point counts bytes from the start of
    the slice, a negative one asks for more. *)
Class Splitter := {
  spState : Type;
  newSplitter : spState;
  NextSplitPoint : spState -> bytes -> spState * Z;
}.

Class SplitterLaws (Sp : Splitter) : Prop := {
  cut_bounds : forall sp data sp' cut, NextSplitPoint sp data = (sp', cut) -> data <> [] ->
    cut < 0 \/ 0 < cut <= len data;
}.

Section Loop.
  Context {Sp : Splitter} {St : Type} (emit : St -> bytes -> St * result unit).

(** The inner loop over one buffer: split points found in [data]. *)
Fixpoint splitData (fuel : nat) (sp : spState) (current data : bytes) (st : St)
  : spState * bytes * St * result unit :=
  match data with
  | [] => (sp, current, st, Ok tt)
  | _ =>
      match fuel with
      | O => (sp, current, st, Err (EOther "splitter made no progress"))
      | S fuel =>
          let '(sp, cut) := NextSplitPoint sp data in
          if cut <? 0 then (sp, current ++ data, st, Ok tt)
          else if len data <? cut then (sp, current, st, Err (EOther "panic: slice bounds out of range"))
          else match emit st (current ++ slice data 0 cut) with
               | (st, Err e) => (sp, [], st, Err e)
               | (st, Ok _) => splitData fuel sp [] (slice data cut (len data)) st
               end
      end
  end.

(** The read loop; the final partial chunk is returned to the caller. *)
Fixpoint readLoop (r : rdStream) (sp : spState) (current : bytes) (st : St) : St * result bytes :=
  match r with
  | [] => (st, Ok current)
  | (data, status) :: r =>
      match splitData (length data) sp current data st with
      | (_, _, st, Err e) => (st, Err e)
      | (sp, current, st, Ok _) =>
          match status with
          | RdEOF => (st, Ok current)
          | RdErr e => (st, Err e)
          | RdMore => readLoop r sp current st
          end
      end
  end.

(** Read everything, then emit the tail. *)
Definition streamIn (r : rdStream) (st : St) : St * result unit :=
  match readLoop r newSplitter [] st with
  | (st, Err e) => (st, Err e)
  | (st, Ok current) => emit st current
  end.

Fixpoint emitAll (st : St) (chunks : list bytes) : St * result unit :=
  match chunks with
  | [] => (st, Ok tt)
  | c :: chunks => match emit st c with
                   | (st, Ok _) => emitAll st chunks
                   | (st, Err e) => (st, Err e)
                   end
  end.
End Loop.

(** What the splitter makes of a stream: chunks in order, the last possibly
    empty, or the read error. *)
Section Cut.
  Context {Sp : Splitter}.

Fixpoint cutData (fuel : nat) (sp : spState) (current data : bytes)
  : spState * bytes * list bytes * result unit :=
  match data with
  | [] => (sp, current, [], Ok tt)
  | _ =>
      match fuel with
      | O => (sp, current, [], Err (EOther "splitter made no progress"))
      | S fuel =>
          let '(sp, cut) := NextSplitPoint sp data in
          if cut <? 0 then (sp, current ++ data, [], Ok tt)
          else if len data <? cut then (sp, current, [], Err (EOther "panic: slice bounds out of range"))
          else let '(sp, cur, cs, res) := cutData fuel sp [] (slice data cut (len data)) in
               (sp, cur, (current ++ slice data 0 cut) :: cs, res)
      end
  end.

Fixpoint cutStream (r : rdStream) (sp : spState) (current : bytes) : list bytes * result unit :=
  match r with
  | [] => ([current], Ok tt)
  | (data, status) :: r =>
      match cutData (length data) sp current data with
      | (_, _, cs, Err e) => (cs, Err e)
      | (sp, current, cs, Ok _) =>
          match status with
          | RdEOF => (cs ++ [current], Ok tt)
          | RdErr e => (cs, Err e)
          | RdMore => let '(cs', res) := cutStream r sp current in (cs ++ cs', res)
          end
      end
  end.

(** The chunks a put emits: the non-empty ones. *)
Definition chunksOf (r : rdStream) : list bytes :=
  filter (fun c => c <> []) (cutStream r newSplitter []).1.
End Cut.

(** The bytes a stream carries up to its end. *)
Fixpoint inputOf (r : rdStream) : result bytes :=
  match r with
  | [] => Ok []
  | (data, RdEOF) :: _ => Ok data
  | (_, RdErr e) :: _ => Err e
  | (data, RdMore) :: r => rest ← inputOf r; Ok (data ++ rest)
  end.

(** [bytes.NewReader]: one read of up to the buffer size at a time. *)
Definition readBufSize : Z := 256 * 1024.

Fixpoint bytesReader (fuel : nat) (data : bytes) : rdStream :=
  match fuel with
  | O => []
  | S fuel => match data with
              | [] => []
              | _ => (slice data 0 (Z.min readBufSize (len data)), RdMore)
                     :: bytesReader fuel (slice data (Z.min readBufSize (len data)) (len data))
              end
  end.

(** ** Dedup sessions *)

Inductive DedupSession :=
| priorManifestSession (idx : gmap string PackRef)
| globalSession (domain : string) (pending : list ChunkLocation).

Section Write.
  Context {Clib : CodecLib} {Sto : Storage} {U : SnapshotStore} {D : DedupStore} {Sp : Splitter}
          {J : ManifestCodec}.

Record world := W { wBlobs : storage; wUps : sstore; wDedup : dstore }.

Definition addPrior (idx : gmap string PackRef) (ref : chunkRef) : gmap string PackRef :=
  if decide (PackHash ref = "" \/ PackHash ref = Hash ref) then idx
  else <[Hash ref := MkPackRef (PackHash ref) (Offset ref) (Size ref)]> idx.

Definition loadPriorIndex (u : sstore) (key : SnapshotKey) : gmap string PackRef :=
  match sGetLatest u key with
  | Err _ => ∅
  | Ok (Err _, _) => ∅
  | Ok (Ok data, _) =>
      match json_Unmarshal data with
      | None => ∅
      | Some m => if decide (Format m = manifestFormatV2) then foldl addPrior ∅ (Chunks m) else ∅
      end
  end.

Definition NewSession (c : ChunkedStore) (u : sstore) (domain : string) (key : SnapshotKey) : DedupSession :=
  match index c with
  | PriorManifestIndex => priorManifestSession (loadPriorIndex u key)
  | GlobalIndex => globalSession domain []
  end.

(** A backend error is a miss. *)
Definition sessLookup (d : dstore) (sess : DedupSession) (h : string) : option PackRef :=
  match sess with
  | priorManifestSession idx => idx !! h
  | globalSession domain _ => match dLookup d domain h with Ok o => o | Err _ => None end
  end.

Definition sessRecord (sess : DedupSession) (loc : ChunkLocation) : DedupSession :=
  match sess with
  | priorManifestSession _ => sess
  | globalSession domain pending => globalSession domain (pending ++ [loc])
  end.

Definition sessCommit (d : dstore) (sess : DedupSession) : dstore * result unit :=
  match sess with
  | priorManifestSession _ => (d, Ok tt)
  | globalSession _ [] => (d, Ok tt)
  | globalSession domain pending => dRecord d domain pending
  end.

(** Optional capabilities are reachable through a global index only. *)
Definition packSizeRecorder (c : ChunkedStore) :=
  match index c with PriorManifestIndex => None | GlobalIndex => dRecordPackSizes end.
Definition packAssociator (c : ChunkedStore) :=
  match index c with PriorManifestIndex => None | GlobalIndex => dAssociate end.

(** Best effort: an error is dropped. *)
Definition recordPackSize (c : ChunkedStore) (d : dstore) (domain ph : string) (n : Z) : dstore :=
  match packSizeRecorder c with
  | None => d
  | Some rec => (rec d domain [(ph, n)]).1
  end.

Fixpoint packsOf (seen : gset string) (ctx : string) (chunks : list chunkRef) : list PackAssociation :=
  match chunks with
  | [] => []
  | ref :: chunks =>
      if decide (PackHash ref = "" \/ PackHash ref ∈ seen) then packsOf seen ctx chunks
      else MkAssoc (PackHash ref) ctx :: packsOf ({[PackHash ref]} ∪ seen) ctx chunks
  end.

Definition associatePacks (c : ChunkedStore) (d : dstore) (domain ctx : string) (chunks : list chunkRef)
  : dstore * result unit :=
  match packAssociator c with
  | None => (d, Ok tt)
  | Some associate =>
      if decide (ctx = "") then (d, Ok tt)
      else match packsOf ∅ ctx chunks with
           | [] => (d, Ok tt)
           | assocs => associate d domain assocs
           end
  end.

Definition storePackBlob (c : ChunkedStore) (raw : bytes) (spans : list packSpan) (codec : CompressionAlgo)
  : result bytes :=
  if decide (codec = CompressNone \/ packCompression c = PackCompressWholePack) then compressPackBlob raw codec
  else compressPackBlobChunked raw spans codec.

(** ** Writing a manifest *)

Definition writeManifest (u : sstore) (key : SnapshotKey) (md : SnapshotMetadata) (m : chunkManifest)
  (formatTag : string) : sstore * result SnapshotMetadata :=
  sPut u key (MkMeta (mKey md) (Version md) (CreatedAt md) (SizeBytes md) (Runtime md) (mFormat md)
                (<["chunked_format" := formatTag]> (Tags md))) (json_Marshal m).

(** ** putV1: one blob per chunk *)

Record v1State := V1 { v1Blobs : storage; v1Chunks : list chunkRef; v1Total : Z }.

Definition emitV1 (domain : string) (codec : CompressionAlgo) (st : v1State) (current : bytes)
  : v1State * result unit :=
  match current with
  | [] => (st, Ok tt)
  | _ =>
      let hash := sha256_hex current in
      match compressPackBlob current codec with
      | Err e => (st, Err e)
      | Ok stored =>
          match PutIfAbsent (v1Blobs st) (chunkBlobID domain hash) stored with
          | (b, Err e) => (V1 b (v1Chunks st) (v1Total st), Err e)
          | (b, Ok _) => (V1 b (v1Chunks st ++ [MkRef hash "" 0 (len current)]) (v1Total st + len current), Ok tt)
          end
      end
  end.

Definition putV1 (c : ChunkedStore) (w : world) (key : SnapshotKey) (md : SnapshotMetadata) (r : rdStream)
  : world * result SnapshotMetadata :=
  let domain := domainFor c key in
  match streamIn (emitV1 domain (codecFor c md)) r (V1 (wBlobs w) [] 0) with
  | (st, Err e) => (W (v1Blobs st) (wUps w) (wDedup w), Err e)
  | (st, Ok _) =>
      let '(u, res) := writeManifest (wUps w) key md
                         (MkManifest manifestFormatV1 (v1Total st) domain (v1Chunks st)) manifestFormatV1 in
      (W (v1Blobs st) u (wDedup w), res)
  end.

(** ** putV2: packs *)

Record packEntry := MkEntry { manifestIdx : nat; peOffset : Z; peSize : Z }.

Record putState := PS {
  psBlobs : storage;
  psDedup : dstore;
  psSess : DedupSession;
  psChunks : list chunkRef;   (* m.Chunks *)
  psTotal : Z;                (* m.TotalSize *)
  packBuf : bytes;
  packEntries : list packEntry;
}.

Definition setPackHash (ph : string) (ref : chunkRef) : chunkRef :=
  MkRef (Hash ref) ph (Offset ref) (Size ref).

(** One iteration of [flushPack]'s loop over the buffered entries. *)
Definition backfill (ph : string) (x : list chunkRef * DedupSession) (e : packEntry)
  : list chunkRef * DedupSession :=
  let chunks := alter (setPackHash ph) (manifestIdx e) x.1 in
  let h := match chunks !! manifestIdx e with Some ref => Hash ref | None => "" end in
  (chunks, sessRecord x.2 (MkLoc h (MkPackRef ph (peOffset e) (peSize e)))).

Definition flushPack (c : ChunkedStore) (domain : string) (codec : CompressionAlgo) (st : putState)
  : putState * result unit :=
  match packBuf st with
  | [] => (st, Ok tt)
  | _ =>
      let ph := sha256_hex (packBuf st) in
      match storePackBlob c (packBuf st) ((fun e => PackSpan (peOffset e) (peSize e)) <$> packEntries st) codec with
      | Err e => (st, Err e)
      | Ok stored =>
          match PutIfAbsent (psBlobs st) (packBlobID domain ph) stored with
          | (b, Err e) =>
              (PS b (psDedup st) (psSess st) (psChunks st) (psTotal st) (packBuf st) (packEntries st), Err e)
          | (b, Ok _) =>
              let d := recordPackSize c (psDedup st) domain ph (len stored) in
              let '(chunks, sess) := foldl (backfill ph) (psChunks st, psSess st) (packEntries st) in
              (PS b d sess chunks (psTotal st) [] [], Ok tt)
          end
      end
  end.

Definition emitChunk (c : ChunkedStore) (domain : string) (codec : CompressionAlgo) (st : putState)
  (current : bytes) : putState * result unit :=
  match current with
  | [] => (st, Ok tt)
  | _ =>
      let hash := sha256_hex current in
      let hit := match sessLookup (psDedup st) (psSess st) hash with
                 | Some ref => if decide (rPackHash ref <> "" /\ rPackHash ref <> hash) then Some ref else None
                 | None => None
                 end in
      match hit with
      | Some ref =>
          (PS (psBlobs st) (psDedup st) (psSess st)
             (psChunks st ++ [MkRef hash (rPackHash ref) (rOffset ref) (rSize ref)])
             (psTotal st + rSize ref) (packBuf st) (packEntries st), Ok tt)
      | None =>
          let offset := len (packBuf st) in
          let st' := PS (psBlobs st) (psDedup st) (psSess st)
                       (psChunks st ++ [MkRef hash "" offset (len current)])
                       (psTotal st + len current) (packBuf st ++ current)
                       (packEntries st ++ [MkEntry (length (psChunks st)) offset (len current)]) in
          if packTargetBytes c <=? len (packBuf st') then flushPack c domain codec st' else (st', Ok tt)
      end
  end.

Definition putV2 (c : ChunkedStore) (w : world) (key : SnapshotKey) (md : SnapshotMetadata) (r : rdStream)
  : world * result SnapshotMetadata :=
  let domain := domainFor c key in
  let codec := codecFor c md in
  let sess := NewSession c (wUps w) domain key in
  match streamIn (emitChunk c domain codec) r (PS (wBlobs w) (wDedup w) sess [] 0 [] []) with
  | (st, Err e) => (W (psBlobs st) (wUps w) (psDedup st), Err e)
  | (st, Ok _) =>
      match flushPack c domain codec st with
      | (st, Err e) => (W (psBlobs st) (wUps w) (psDedup st), Err e)
      | (st, Ok _) =>
          match sessCommit (psDedup st) (psSess st) with
          | (d, Err e) => (W (psBlobs st) (wUps w) d, Err e)
          | (d, Ok _) =>
              match associatePacks c d domain (contextFor key md) (psChunks st) with
              | (d, Err e) => (W (psBlobs st) (wUps w) d, Err e)
              | (d, Ok _) =>
                  let '(u, res) := writeManifest (wUps w) key md
                    (MkManifest manifestFormatV2 (psTotal st) domain (psChunks st)) manifestFormatV2 in
                  (W (psBlobs st) u d, res)
              end
          end
      end
  end.

Definition Put (c : ChunkedStore) (w : world) (key : SnapshotKey) (md : SnapshotMetadata) (r : rdStream)
  : world * result SnapshotMetadata :=
  if packTargetBytes c =? packingDisabled then putV1 c w key md r else putV2 c w key md r.

(** ** Reading back *)

Definition openManifest (fc : gmap string packFraming) (x : result bytes * SnapshotMetadata)
  : result (chunkStreamReader * SnapshotMetadata) :=
  match x with
  | (Err e, _) => Err e
  | (Ok data, md) =>
      match json_Unmarshal data with
      | None => Err (EOther "parse manifest")
      | Some m =>
          if decide (Format m = manifestFormatV1) then
            Ok (newChunkStreamReader (MkManifest manifestFormatV2 (TotalSize m) (mTenant m) (Chunks m)) fc, md)
          else if decide (Format m = manifestFormatV2) then Ok (newChunkStreamReader m fc, md)
          else Err (EOther "not a chunked manifest")
      end
  end.

Definition Get (fc : gmap string packFraming) (w : world) (key : SnapshotKey) (version : string)
  : result (chunkStreamReader * SnapshotMetadata) :=
  x ← sGet (wUps w) key version; openManifest fc x.

Definition GetLatest (fc : gmap string packFraming) (w : world) (key : SnapshotKey)
  : result (chunkStreamReader * SnapshotMetadata) :=
  x ← sGetLatest (wUps w) key; openManifest fc x.

(** ** Metadata-only updates *)

Definition overlay (merged : gmap string string) (kv : string * string) : gmap string string :=
  if decide (kv.2 = "") then delete kv.1 merged else <[kv.1 := kv.2]> merged.

Definition mergeTags (old tags : gmap string string) : gmap string string :=
  foldl overlay old (map_to_list tags).

Definition UpdateLatestMeta (u : sstore) (key : SnapshotKey) (tags : gmap string string)
  : sstore * result SnapshotMetadata :=
  match sGetLatest u key with
  | Err e => (u, Err e)
  | Ok (Err e, _) => (u, Err e)
  | Ok (Ok data, md) =>
      match json_Unmarshal data with
      | None => (u, Err (EOther "parse manifest"))
      | Some m =>
          if decide (Format m = manifestFormatV1 \/ Format m = manifestFormatV2) then
            sPut u key (MkMeta (mKey md) (Version md) (CreatedAt md) (SizeBytes md) (Runtime md) (mFormat md)
                          (mergeTags (Tags md) tags)) data
          else (u, Err (EOther "not a chunked manifest"))
      end
  end.

(** ** Registering existing chunks under a new key *)

Definition registerRef (loc : ChunkLocation) : result chunkRef :=
  if decide (rPackHash (locRef loc) = "") then Err (EOther "empty pack hash")
  else if (rSize (locRef loc) <=? 0) || (rOffset (locRef loc) <? 0) then Err (EOther "invalid offset/size")
  else Ok (MkRef (ChunkHash loc) (rPackHash (locRef loc)) (rOffset (locRef loc)) (rSize (locRef loc))).

Definition sumSizes (refs : list chunkRef) : Z := foldl (fun n ref => n + Size ref) 0 refs.

Definition RegisterManifest (c : ChunkedStore) (u : sstore) (key : SnapshotKey) (md : SnapshotMetadata)
  (chunks : list ChunkLocation) : sstore * result SnapshotMetadata :=
  match mapR registerRef chunks with
  | Err e => (u, Err e)
  | Ok refs => writeManifest u key md
                 (MkManifest manifestFormatV2 (sumSizes refs) (domainFor c key) refs) manifestFormatV2
  end.

Definition refLocation (ref : chunkRef) : result ChunkLocation :=
  if decide (PackHash ref = "") then Err (EOther "empty pack hash")
  else Ok (MkLoc (Hash ref) (MkPackRef (PackHash ref) (Offset ref) (Size ref))).

Definition ManifestChunks (u : sstore) (key : SnapshotKey) : result (list ChunkLocation) :=
  x ← sGetLatest u key;
  match x with
  | (Err e, _) => Err e
  | (Ok data, _) =>
      match json_Unmarshal data with
      | None => Err (EOther "parse manifest")
      | Some m => if decide (Format m = manifestFormatV2) then mapR refLocation (Chunks m)
                  else Err (EOther "not a v2 manifest")
      end
  end.

(** ** Batches: chunks of many objects share packs *)

Record BatchPutItem := MkItem { biKey : SnapshotKey; biMeta : SnapshotMetadata; biData : bytes }.

Record itemState := MkItemState {
  isManifest : chunkManifest; isSess : DedupSession; isDomain : string; isCodec : CompressionAlgo }.

Record batchEntry := MkBEntry { beItem : nat; beIdx : nat; beOffset : Z; beSize : Z }.

Record batchState := BS {
  bsBlobs : storage; bsDedup : dstore; bsStates : list itemState;
  bsBuf : bytes; bsEntries : list batchEntry; packDomain : string; packCodec : CompressionAlgo }.

Definition newItemState (c : ChunkedStore) (u : sstore) (it : BatchPutItem) : itemState :=
  let domain := domainFor c (biKey it) in
  MkItemState (MkManifest manifestFormatV2 0 domain []) (NewSession c u domain (biKey it)) domain
    (codecFor c (biMeta it)).

Definition setChunks (m : chunkManifest) (total : Z) (chunks : list chunkRef) : chunkManifest :=
  MkManifest (Format m) total (mTenant m) chunks.

(** Back-fill one entry: the item's reference and its session. *)
Definition backfillItem (ph : string) (e : batchEntry) (st : itemState) : itemState :=
  let '(chunks, sess) := backfill ph (Chunks (isManifest st), isSess st) (MkEntry (beIdx e) (beOffset e) (beSize e)) in
  MkItemState (setChunks (isManifest st) (TotalSize (isManifest st)) chunks) sess (isDomain st) (isCodec st).

Definition flushBatch (c : ChunkedStore) (st : batchState) : batchState * result unit :=
  match bsBuf st with
  | [] => (st, Ok tt)
  | _ =>
      let ph := sha256_hex (bsBuf st) in
      match storePackBlob c (bsBuf st) ((fun e => PackSpan (beOffset e) (beSize e)) <$> bsEntries st) (packCodec st) with
      | Err e => (st, Err e)
      | Ok stored =>
          match PutIfAbsent (bsBlobs st) (packBlobID (packDomain st) ph) stored with
          | (b, Err e) =>
              (BS b (bsDedup st) (bsStates st) (bsBuf st) (bsEntries st) (packDomain st) (packCodec st), Err e)
          | (b, Ok _) =>
              let d := recordPackSize c (bsDedup st) (packDomain st) ph (len stored) in
              let states := foldl (fun sts e => alter (backfillItem ph e) (beItem e) sts) (bsStates st) (bsEntries st) in
              (BS b d states [] [] (packDomain st) (packCodec st), Ok tt)
          end
      end
  end.

(** The closure of item [i]; [ist] is [states[i]]. *)
Definition emitBatch (c : ChunkedStore) (i : nat) (st : batchState) (current : bytes)
  : batchState * result unit :=
  match current, bsStates st !! i with
  | [], _ => (st, Ok tt)
  | _, None => (st, Err (EOther "panic: index out of range"))
  | _, Some ist =>
      let hash := sha256_hex current in
      let hit := match sessLookup (bsDedup st) (isSess ist) hash with
                 | Some ref => if decide (rPackHash ref <> "" /\ rPackHash ref <> hash) then Some ref else None
                 | None => None
                 end in
      match hit with
      | Some ref =>
          let m := isManifest ist in
          let ist' := MkItemState (setChunks m (TotalSize m + rSize ref)
                       (Chunks m ++ [MkRef hash (rPackHash ref) (rOffset ref) (rSize ref)]))
                       (isSess ist) (isDomain ist) (isCodec ist) in
          (BS (bsBlobs st) (bsDedup st) (<[i := ist']> (bsStates st)) (bsBuf st) (bsEntries st)
             (packDomain st) (packCodec st), Ok tt)
      | None =>
          let '(st, r) :=
            if negb (bool_decide (bsBuf st = [])) &&
               negb (bool_decide (isDomain ist = packDomain st /\ isCodec ist = packCodec st))
            then flushBatch c st else (st, Ok tt) in
          match r with
          | Err e => (st, Err e)
          | Ok _ =>
              let '(pd, pc) := if decide (bsBuf st = []) then (isDomain ist, isCodec ist)
                               else (packDomain st, packCodec st) in
              let offset := len (bsBuf st) in
              match bsStates st !! i with
              | None => (st, Err (EOther "panic: index out of range"))
              | Some ist =>
                  let m := isManifest ist in
                  let ist' := MkItemState (setChunks m (TotalSize m + len current)
                               (Chunks m ++ [MkRef hash "" offset (len current)]))
                               (isSess ist) (isDomain ist) (isCodec ist) in
                  let st' := BS (bsBlobs st) (bsDedup st) (<[i := ist']> (bsStates st)) (bsBuf st ++ current)
                               (bsEntries st ++ [MkBEntry i (length (Chunks m)) offset (len current)]) pd pc in
                  if packTargetBytes c <=? len (bsBuf st') then flushBatch c st' else (st', Ok tt)
              end
          end
      end
  end.

Fixpoint processItems (c : ChunkedStore) (i : nat) (items : list BatchPutItem) (st : batchState)
  : batchState * result unit :=
  match items with
  | [] => (st, Ok tt)
  | it :: items =>
      match streamIn (emitBatch c i) (bytesReader (length (biData it)) (biData it)) st with
      | (st, Err e) => (st, Err e)
      | (st, Ok _) => processItems c (S i) items st
      end
  end.

(** The final loop: commit, associate and write each item's manifest. *)
Fixpoint finishItems (c : ChunkedStore) (its : list (BatchPutItem * itemState)) (u : sstore) (d : dstore)
  : sstore * dstore * result (list SnapshotMetadata) :=
  match its with
  | [] => (u, d, Ok [])
  | (it, ist) :: its =>
      match sessCommit d (isSess ist) with
      | (d, Err e) => (u, d, Err e)
      | (d, Ok _) =>
          match associatePacks c d (isDomain ist) (contextFor (biKey it) (biMeta it)) (Chunks (isManifest ist)) with
          | (d, Err e) => (u, d, Err e)
          | (d, Ok _) =>
              match writeManifest u (biKey it) (biMeta it) (isManifest ist) manifestFormatV2 with
              | (u, Err e) => (u, d, Err e)
              | (u, Ok md) =>
                  match finishItems c its u d with
                  | (u, d, Ok mds) => (u, d, Ok (md :: mds))
                  | other => other
                  end
              end
          end
      end
  end.

Definition putBatchV2 (c : ChunkedStore) (w : world) (items : list BatchPutItem)
  : world * result (list SnapshotMetadata) :=
  let states := newItemState c (wUps w) <$> items in
  match processItems c 0 items (BS (wBlobs w) (wDedup w) states [] [] "" "") with
  | (st, Err e) => (W (bsBlobs st) (wUps w) (bsDedup st), Err e)
  | (st, Ok _) =>
      match flushBatch c st with
      | (st, Err e) => (W (bsBlobs st) (wUps w) (bsDedup st), Err e)
      | (st, Ok _) =>
          let '(u, d, res) := finishItems c (zip items (bsStates st)) (wUps w) (bsDedup st) in
          (W (bsBlobs st) u d, res)
      end
  end.

Fixpoint putV1Each (c : ChunkedStore) (w : world) (items : list BatchPutItem)
  : world * result (list SnapshotMetadata) :=
  match items with
  | [] => (w, Ok [])
  | it :: items =>
      match putV1 c w (biKey it) (biMeta it) (bytesReader (length (biData it)) (biData it)) with
      | (w, Err e) => (w, Err e)
      | (w, Ok md) => match putV1Each c w items with
                      | (w, Ok mds) => (w, Ok (md :: mds))
                      | other => other
                      end
      end
  end.

Definition PutBatch (c : ChunkedStore) (w : world) (items : list BatchPutItem)
  : world * result (list SnapshotMetadata) :=
  match items with
  | [] => (w, Ok [])
  | _ => if packTargetBytes c =? packingDisabled then putV1Each c w items else putBatchV2 c w items
  end.

End Write.

(** ** The read loop delivers the chunks *)

Section LoopProofs.
  Context {Sp : Splitter} {St : Type} (emit : St -> bytes -> St * result unit).

Lemma emitAll_app st cs cs' :
  emitAll emit st (cs ++ cs') = match emitAll emit st cs with
                                | (st, Ok _) => emitAll emit st cs'
                                | (st, Err e) => (st, Err e)
                                end.
Proof.
  revert st; induction cs as [|c cs IH]; intros st; cbn; [done|]. destruct (emit st c) as [st1 [[]|e]]; [apply IH|done].
Qed.

Lemma splitData_cut fuel sp cur data st :
  let '(sp', cur', cs, res) := cutData fuel sp cur data in
  match emitAll emit st cs with
  | (st', Ok _) => splitData emit fuel sp cur data st = (sp', cur', st', res)
  | (st', Err e) => exists spx cx, splitData emit fuel sp cur data st = (spx, cx, st', Err e)
  end.
Proof.
  revert sp cur data st; induction fuel as [|fuel IH]; intros sp cur data st.
  { by destruct data. }
  destruct data as [|b data]; [done|]. cbn [cutData splitData].
  destruct (NextSplitPoint sp (b :: data)) as [sp1 cut]. destruct (cut <? 0); [done|].
  destruct (len (b :: data) <? cut); [done|].
  destruct (cutData fuel sp1 [] _) as [[[sp2 cur2] cs] res] eqn:E. cbn [emitAll].
  destruct (emit st _) as [st1 [[]|e]]; [|eauto].
  specialize (IH sp1 [] (slice (b :: data) cut (len (b :: data))) st1). by rewrite E in IH.
Qed.

Lemma readLoop_cut r sp cur st :
  let '(cs, res) := cutStream r sp cur in
  (match readLoop emit r sp cur st with
   | (st', Ok tail) => emit st' tail
   | (st', Err e) => (st', Err e)
   end) = match emitAll emit st cs with
          | (st', Ok _) => (st', res)
          | (st', Err e) => (st', Err e)
          end.
Proof.
  revert sp cur st; induction r as [|[data status] r IH]; intros sp cur st; cbn.
  { by destruct (emit st cur) as [? [[]|]]. }
  pose proof (splitData_cut (length data) sp cur data st) as Hs.
  destruct (cutData (length data) sp cur data) as [[[sp1 cur1] cs] [[]|e1]].
  2:{ destruct (emitAll emit st cs) as [st1 [[]|e]]; [by rewrite Hs|]. by destruct Hs as (? & ? & ->). }
  destruct status as [| |e2].
  - specialize (IH sp1 cur1). destruct (cutStream r sp1 cur1) as [cs2 res2]. rewrite emitAll_app.
    destruct (emitAll emit st cs) as [st1 [[]|e]]; [rewrite Hs; apply IH|]. by destruct Hs as (? & ? & ->).
  - rewrite emitAll_app. destruct (emitAll emit st cs) as [st1 [[]|e]]; [|by destruct Hs as (? & ? & ->)].
    rewrite Hs. cbn. by destruct (emit st1 cur1) as [? [[]|]].
  - destruct (emitAll emit st cs) as [st1 [[]|e]]; [by rewrite Hs|]. by destruct Hs as (? & ? & ->).
Qed.

Lemma emitAll_filter st cs :
  (forall st, emit st [] = (st, Ok tt)) -> emitAll emit st (filter (fun c => c <> []) cs) = emitAll emit st cs.
Proof.
  intros Hnil. revert st; induction cs as [|c cs IH]; intros st; [done|]. rewrite filter_cons. destruct c as [|b c].
  - rewrite decide_False by (intros H; by apply H). cbn. rewrite Hnil. apply IH.
  - rewrite decide_True by done. cbn. destruct (emit st _) as [st1 [[]|]]; [apply IH|done].
Qed.

(** The loop is emitting [chunksOf] in order. *)
Lemma streamIn_chunks r st :
  (forall st, emit st [] = (st, Ok tt)) ->
  streamIn emit r st = match emitAll emit st (chunksOf r) with
                       | (st', Ok _) => (st', (cutStream r newSplitter []).2)
                       | (st', Err e) => (st', Err e)
                       end.
Proof.
  intros Hnil. unfold chunksOf. rewrite emitAll_filter by done.
  pose proof (readLoop_cut r newSplitter [] st) as H. unfold streamIn.
  by destruct (cutStream r newSplitter []) as [cs res].
Qed.
End LoopProofs.

Section CutProofs.
  Context {Sp : Splitter} {Spl : SplitterLaws Sp}.

Lemma cutData_ok fuel sp cur data :
  (length data <= fuel)%nat ->
  exists sp' cur' cs, cutData fuel sp cur data = (sp', cur', cs, Ok tt) /\ concat cs ++ cur' = cur ++ data.
Proof.
  revert sp cur data; induction fuel as [|fuel IH]; intros sp cur [|b data] Hf; cbn [cutData]; cbn in Hf; try lia.
  1,2: eexists _, _, _; split; [done|]; cbn; by rewrite app_nil_r.
  destruct (NextSplitPoint sp (b :: data)) as [sp1 cut] eqn:E. apply cut_bounds in E; [|done].
  destruct (Z.ltb_spec cut 0); [eexists _, _, _; split; done|].
  destruct (Z.ltb_spec (len (b :: data)) cut); [lia|].
  destruct (IH sp1 [] (slice (b :: data) cut (len (b :: data)))) as (sp2 & cur2 & cs & -> & Hcs).
  { assert (len (slice (b :: data) cut (len (b :: data))) = len (b :: data) - cut) as Hl by (apply slice_len; lia).
    unfold len in *. cbn in *. lia. }
  eexists _, _, _. split; [done|]. cbn [concat List.concat]. rewrite <- app_assoc. rewrite Hcs. cbn [app].
  rewrite <- app_assoc. f_equal. rewrite slice_split by lia. apply slice_all.
Qed.

Lemma cutStream_ok r sp cur :
  match inputOf r with
  | Ok data => exists cs, cutStream r sp cur = (cs, Ok tt) /\ concat cs = cur ++ data
  | Err e => exists cs, cutStream r sp cur = (cs, Err e)
  end.
Proof.
  revert sp cur; induction r as [|[data status] r IH]; intros sp cur; cbn.
  { eexists. split; [done|]. cbn. by rewrite !app_nil_r. }
  destruct (cutData_ok (length data) sp cur data) as (sp1 & cur1 & cs & -> & Hcs); [done|].
  destruct status; [|eexists; split; [done|]|eauto].
  - specialize (IH sp1 cur1). destruct (inputOf r) as [rest|e]; cbn.
    + destruct IH as (cs2 & -> & Hcs2). eexists. split; [done|]. by rewrite concat_app, Hcs2, app_assoc, Hcs, app_assoc.
    + destruct IH as (cs2 & ->). eauto.
  - rewrite concat_app. cbn. by rewrite app_nil_r.
Qed.

Lemma concat_filter (cs : list bytes) : concat (filter (fun c => c <> []) cs) = concat cs.
Proof.
  induction cs as [|c cs IH]; [done|]. rewrite filter_cons. destruct c as [|b c].
  - by rewrite decide_False by (intros H; by apply H).
  - rewrite decide_True by done. cbn. by rewrite IH.
Qed.

Lemma chunksOf_concat r data : inputOf r = Ok data -> concat (chunksOf r) = data.
Proof.
  intros H. unfold chunksOf. rewrite concat_filter. pose proof (cutStream_ok r newSplitter []) as Hc.
  rewrite H in Hc. by destruct Hc as (cs & -> & Hcs).
Qed.

Lemma chunksOf_nonempty r : Forall (fun c => c <> []) (chunksOf r).
Proof. apply Forall_forall. intros c Hc. by apply list_elem_of_filter in Hc as [? _]. Qed.

Lemma cutStream_result r : (cutStream r newSplitter []).2 = (_ ← inputOf r; Ok tt).
Proof.
  pose proof (cutStream_ok r newSplitter []) as Hc. destruct (inputOf r); cbn.
  - by destruct Hc as (cs & -> & _).
  - by destruct Hc as (cs & ->).
Qed.
End CutProofs.

Lemma bytesReader_input fuel data : (length data <= fuel)%nat -> inputOf (bytesReader fuel data) = Ok data.
Proof.
  revert data; induction fuel as [|fuel IH]; intros [|b data] Hf; cbn [bytesReader]; cbn in Hf; try lia; try done.
  set (n := Z.min readBufSize (len (b :: data))).
  assert (0 < n <= len (b :: data)).
  { unfold n, readBufSize. pose proof (len_nonneg data). rewrite len_cons. lia. }
  cbn [inputOf]. rewrite IH.
  - cbn [mbind result_bind]. rewrite slice_split by lia. by rewrite slice_all.
  - assert (len (slice (b :: data) n (len (b :: data))) = len (b :: data) - n) as Hl by (apply slice_len; lia).
    unfold len in *. cbn in *. lia.
Qed.

(** ** A fixed-size splitter, for evaluation (kopia's FIXED family) *)

#[export] Instance fixed_splitter (n : positive) : Splitter := {|
  spState := Z;
  newSplitter := 0;
  NextSplitPoint := fun cur data =>
    let left_ := Zpos n - cur in
    if (0 <? left_) && (left_ <=? len data) then (0, left_) else (cur + len data, -1);
|}.

#[export] Instance fixed_splitter_laws n : SplitterLaws (fixed_splitter n).
Proof.
  split. cbn. intros sp data sp' cut H _.
  destruct (Z.ltb_spec 0 (Zpos n - sp)), (Z.leb_spec (Zpos n - sp) (len data)); cbn in H; injection H as <- <-; lia.
Qed.
