(* ===== verification/StreamCopy.v ===== *)
(** Copying out of a chunk stream reader: [io.Copy], [io.CopyN] and
    [io.MultiReader] as the HTTP front ends use them on the readers of the
    gateway (casstore/snapshot/store_chunked.go, chunkStreamReader.Read).

    The destination offers buffers of its own sizes; [sz i] is the room of the
    i-th read.  The number of reads a reader can serve is bounded by its
    manifest ([readBound]), so the copies are total: [readsFrom_enough] and
    [copyN_enough] say that more fuel changes nothing, whatever the backend
    answers.  [copyN_spec] and [readsFrom_spec] say what is copied from a reader
    that is to deliver [data]. *)

From S2P Require Import Prelude GoStrings Sha256 PackFormat BlobStore Manifest ChunkedRead ChunkedWrite.

Section Copy.
  Context {Clib : CodecLib} {Sto : Storage}.

(** The reads until end of stream or an error. *)
Fixpoint readsFrom (fuel : nat) (s : storage) (r : chunkStreamReader) (sz : nat -> nat) (i : nat)
  : list bytes * option err :=
  match fuel with
  | O => ([], Some (EOther "out of fuel"))
  | S fuel =>
      match Read s r (sz i) with
      | (_, REOF) => ([], None)
      | (_, RFail e) => ([], Some e)
      | (r, RData b) => let '(bs, fin) := readsFrom fuel s r sz (S i) in (b :: bs, fin)
      end
  end.

(** [io.CopyN]: what was copied, the reader after it, and whether all of it
    was there. *)
Fixpoint copyNFrom (fuel : nat) (s : storage) (r : chunkStreamReader) (sz : nat -> nat) (i : nat) (n : Z)
  : bytes * chunkStreamReader * bool :=
  if n <=? 0 then ([], r, true)
  else
    match fuel with
    | O => ([], r, false)
    | S fuel =>
        match Read s r (Nat.min (sz i) (Z.to_nat n)) with
        | (r, RData b) => let '(c, r, ok) := copyNFrom fuel s r sz (S i) (n - len b) in (b ++ c, r, ok)
        | (r, _) => ([], r, false)
        end
    end.

(** The reads a reader has left, one per byte and one per chunk. *)
Definition refBound (ref : chunkRef) : nat := S (Z.to_nat (Size ref)).

Definition readBound (r : chunkStreamReader) : nat :=
  length (current r) + length (concat (queued r)) + length (queued r) +
  sum_list_with refBound (drop (cursorIdx r) (Chunks (rManifest r))).

Definition readsOf (s : storage) (r : chunkStreamReader) (sz : nat -> nat) : list bytes * option err :=
  readsFrom (S (readBound r)) s r sz 0.

(** [io.Copy] to a writer that takes everything: an error ends the body. *)
Definition copyAll (s : storage) (r : chunkStreamReader) (sz : nat -> nat) : bytes := concat (readsOf s r sz).1.

Definition copyN (s : storage) (r : chunkStreamReader) (sz : nat -> nat) (n : Z) : bytes * chunkStreamReader * bool :=
  copyNFrom (S (readBound r)) s r sz 0 n.

(** [io.MultiReader] over readers, as the stream of reads a put sees. *)
Fixpoint multiReader (s : storage) (rs : list chunkStreamReader) (sz : nat -> nat) : rdStream :=
  match rs with
  | [] => [([], RdEOF)]
  | r :: rs =>
      let '(bs, fin) := readsOf s r sz in
      ((fun b => (b, RdMore)) <$> bs) ++
      match fin with None => multiReader s rs sz | Some e => [([], RdErr e)] end
  end.

Lemma inputOf_reads bs l : inputOf (((fun b => (b, RdMore)) <$> bs) ++ l) = (rest ← inputOf l; Ok (concat bs ++ rest)).
Proof.
  induction bs as [|b bs IH]; cbn; [by destruct (inputOf l)|]. rewrite IH. destruct (inputOf l); cbn; [|done].
  by rewrite app_assoc.
Qed.

(** ** The copies end *)

Lemma served_bound refs chunks tenant s : Forall2 (served s tenant) refs chunks ->
  (length (concat chunks) + length chunks <= sum_list_with refBound refs)%nat.
Proof.
  induction 1 as [|ref c refs cs [[Hl _] _] _ IH]; [done|]. cbn. rewrite length_app. unfold refBound, len in *. lia.
Qed.

(** A read that delivers leaves less. *)
Lemma Read_decreases s r n r' b : (0 < n)%nat -> Read s r n = (r', RData b) -> (readBound r' < readBound r)%nat.
Proof.
  intros Hn. unfold Read. destruct (current r) as [|x cur] eqn:Hc.
  2:{ intros [= <- <-]. unfold readBound. cbn [set_current current queued rManifest cursorIdx]. rewrite Hc, length_drop. cbn [length]. lia. }
  destruct (queued r) as [|c q] eqn:Hq.
  2:{ intros [= <- <-]. unfold readBound. cbn [set_current current queued rManifest cursorIdx]. rewrite Hc, Hq, length_drop.
      cbn [length List.concat]. rewrite length_app. lia. }
  case_decide; [done|]. destruct (loadNextRun s r) as [r1 [[]|]] eqn:E; [|done].
  apply loadNextRun_verified in E as (k & Hm & Hcu & Hc1 & Hne & Hv). apply served_bound in Hv.
  destruct (queued r1) as [|c q] eqn:Hq1; [done|]. intros [= <- <-].
  unfold readBound. cbn [set_current current queued rManifest cursorIdx]. rewrite Hc, Hq, Hm, Hcu, length_drop.
  rewrite <- (take_drop (S k) (drop (cursorIdx r) _)), sum_list_with_app, drop_drop. cbn [length List.concat] in *.
  rewrite length_app in Hv. lia.
Qed.

Lemma Read_short s r n r' b : Read s r n = (r', RData b) -> (length b <= n)%nat.
Proof.
  unfold Read. assert (H : forall x : bytes, (length (take n x) <= n)%nat) by (intros x; rewrite length_take; lia).
  destruct (current r) eqn:Hc; [|intros [= <- <-]; apply H].
  destruct (queued r); [|cbn; intros [= <- <-]; apply H].
  case_decide; [done|]. destruct (loadNextRun s r) as [r1 [[]|]]; [|done]. destruct (queued r1); [done|]. cbn. intros [= <- <-]. apply H.
Qed.

Lemma readsFrom_enough s sz fuel r i : (forall i, 0 < sz i)%nat -> (readBound r < fuel)%nat ->
  readsFrom fuel s r sz i = readsFrom (S (readBound r)) s r sz i.
Proof.
  intros Hsz. assert (Hx : forall m n r i, (readBound r < m)%nat -> (readBound r < n)%nat -> readsFrom m s r sz i = readsFrom n s r sz i).
  { induction m as [|m IH]; intros [|n] r1 j Hm Hn; [lia..|]. cbn. destruct (Read s r1 (sz j)) as [r2 [b| |e]] eqn:E; try done.
    apply Read_decreases in E; [|done]. by rewrite (IH n) by lia. }
  intros H. apply Hx; lia.
Qed.

Lemma copyN_enough s sz fuel r i n : (forall i, 0 < sz i)%nat -> (readBound r < fuel)%nat ->
  copyNFrom fuel s r sz i n = copyNFrom (S (readBound r)) s r sz i n.
Proof.
  intros Hsz. assert (Hx : forall m k r i n, (readBound r < m)%nat -> (readBound r < k)%nat -> copyNFrom m s r sz i n = copyNFrom k s r sz i n).
  { induction m as [|m IH]; intros [|k] r1 j z Hm Hn; [lia..|]. cbn. destruct (Z.leb_spec z 0); [done|].
    destruct (Read s r1 _) as [r2 [b| |e]] eqn:E; try done.
    apply Read_decreases in E; [|specialize (Hsz j); lia]. by rewrite (IH k) by lia. }
  intros H. apply Hx; lia.
Qed.
End Copy.

Section Data.
  Context {Clib : CodecLib} {Claws : CodecLaws} {Sto : Storage} {L : StorageLaws Sto} {Rel : StorageReliable Sto}.

Lemma backed_size s tenant ref c : ref_backed s tenant ref c -> len c = Size ref.
Proof.
  unfold ref_backed. case_decide.
  - by intros (? & ? & _ & _ & ?).
  - intros (stored & ts & content & _ & _ & (? & ? & ? & -> & ?) & _). rewrite slice_len; lia.
Qed.

Lemma pending_bound s r data : pending s r data -> (readsLeft r data <= readBound r)%nat.
Proof.
  intros [_ (chunks & Hb & ->)]. unfold readsLeft, readBound. rewrite !length_app.
  assert (H : (length (concat chunks) + length chunks <= sum_list_with refBound (drop (cursorIdx r) (Chunks (rManifest r))))%nat).
  { clear -Hb. induction Hb as [|ref c refs cs Hr _ IH]; [done|]. cbn. rewrite length_app.
    assert (len c = Size ref) by (by eapply backed_size). unfold refBound, len in *. lia. }
  pose proof (Forall2_length _ _ _ Hb) as Hl. rewrite length_drop in Hl. lia.
Qed.

(** What a reader has to deliver is what its reads return. *)
Lemma readsFrom_spec fuel s r sz i data : (forall i, 0 < sz i)%nat -> pending s r data -> (readsLeft r data < fuel)%nat ->
  exists bs, readsFrom fuel s r sz i = (bs, None) /\ concat bs = data.
Proof.
  intros Hsz. revert r i data; induction fuel as [|fuel IH]; intros r i data Hp Hf; [lia|]. cbn.
  destruct (Read_ok s r (sz i) data) as [(r' & -> & ->)|(r' & b & rest & -> & -> & Hp' & Hl)]; [done..|by exists []|].
  destruct (IH r' (S i) rest) as (bs & -> & <-); [done|lia|]. by exists (b :: bs).
Qed.

Lemma copyNFrom_spec fuel s r sz i data n : (forall i, 0 < sz i)%nat -> pending s r data -> (readsLeft r data < fuel)%nat ->
  0 <= n <= len data -> exists r', copyNFrom fuel s r sz i n = (slice data 0 n, r', true) /\ pending s r' (slice data n (len data)).
Proof.
  intros Hsz. revert r i data n; induction fuel as [|fuel IH]; intros r i data n Hp Hf Hn; [lia|]. cbn [copyNFrom].
  destruct (Z.leb_spec n 0).
  { assert (n = 0) as -> by lia. exists r. rewrite slice_nil, slice_all. done. }
  destruct (Read_ok s r (Nat.min (sz i) (Z.to_nat n)) data) as [(r' & E & Hd)|(r' & b & rest & E & Hd & Hp' & Hl)];
    [done|specialize (Hsz i); lia|subst data; unfold len in Hn; cbn in Hn; lia|]. rewrite E.
  assert (Hb : len b <= n).
  { apply Read_short in E. unfold len. lia. }
  subst data. rewrite len_app in *. pose proof (len_nonneg b).
  destruct (IH r' (S i) rest (n - len b)) as (r2 & -> & Hp2); [done|lia|lia|]. exists r2. split.
  - f_equal. f_equal. rewrite <- (slice_split (b ++ rest) 0 (len b) n) by lia. rewrite slice_prefix, slice_app_r by lia. by rewrite Z.sub_diag.
  - rewrite slice_app_r by lia. replace (len b + len rest - len b) with (len rest) by lia. done.
Qed.

Lemma readsOf_spec s r sz data : (forall i, 0 < sz i)%nat -> pending s r data ->
  exists bs, readsOf s r sz = (bs, None) /\ concat bs = data.
Proof. intros Hsz Hp. apply readsFrom_spec; [done..|]. apply pending_bound in Hp. lia. Qed.

Lemma copyAll_spec s r sz data : (forall i, 0 < sz i)%nat -> pending s r data -> copyAll s r sz = data.
Proof. intros Hsz Hp. unfold copyAll. by destruct (readsOf_spec s r sz data Hsz Hp) as (bs & -> & ?). Qed.

Lemma copyN_spec s r sz data n : (forall i, 0 < sz i)%nat -> pending s r data -> 0 <= n <= len data ->
  exists r', copyN s r sz n = (slice data 0 n, r', true) /\ pending s r' (slice data n (len data)).
Proof. intros Hsz Hp Hn. apply copyNFrom_spec; [done..| |done]. apply pending_bound in Hp. lia. Qed.

(** Readers one after another deliver their data one after another. *)
Lemma multiReader_spec s rs sz ds : (forall i, 0 < sz i)%nat -> Forall2 (pending s) rs ds ->
  inputOf (multiReader s rs sz) = Ok (concat ds).
Proof.
  intros Hsz. induction 1 as [|r d rs ds Hp _ IH]; [done|]. cbn [multiReader].
  destruct (readsOf_spec s r sz d Hsz Hp) as (bs & -> & <-). rewrite inputOf_reads, IH. cbn. done.
Qed.
End Data.
