(* ===== verification/PutSpec.v ===== *)
(** Correctness of the write path: what a successful put leaves behind reads
    back as the input, and what it never does.

    Packs are named by the hash of their bytes and are not overwritten, so a
    put is correct only if blobs already stored under the names it uses hold
    what it would have written.  [put_conditions] states this for the put at
    hand, as facts about the store it starts from and about its own chunks: a
    name clash would be a SHA-256 collision, except for one case the hash does
    not rule out, a per-chunk pack with the same bytes cut at other places. *)

From S2P Require Import Prelude GoStrings Sha256 PackFormat BlobStore Manifest SnapStore DedupIndex ChunkedRead ChunkedWrite.

(** ** Packs and the chunks in them *)

(** Offset of the [j]-th chunk. *)
Definition offsetIn (sub : list bytes) (j : nat) : Z := len (concat (take j sub)).

Definition spansOf (sub : list bytes) : list packSpan :=
  imap (fun j c => PackSpan (offsetIn sub j) (len c)) sub.

Lemma len_concat_app (l k : list bytes) : len (concat (l ++ k)) = len (concat l) + len (concat k).
Proof. by rewrite concat_app, len_app. Qed.

Lemma offsetIn_end (sub : list bytes) j c :
  sub !! j = Some c -> offsetIn sub j + len c <= len (concat sub) /\
    slice (concat sub) (offsetIn sub j) (offsetIn sub j + len c) = c.
Proof.
  intros H. apply take_drop_middle in H. unfold offsetIn.
  assert (E : concat sub = concat (take j sub) ++ c ++ concat (drop (S j) sub)).
  { rewrite <- H at 1. by rewrite concat_app. }
  rewrite E. split.
  - rewrite !len_app. pose proof (len_nonneg (concat (drop (S j) sub))). lia.
  - by apply (slice_mid _ (concat (take j sub)) c (concat (drop (S j) sub))).
Qed.

Section Packs.
  Context {Clib : CodecLib} {Claws : CodecLaws}.

(** [stored] holds the chunks [sub], each readable on its own. *)
Definition pack_of (stored : bytes) (sub : list bytes) : Prop :=
  decompressPackBlob stored = Ok (concat sub) /\
  forall j c, sub !! j = Some c -> pack_aligned stored (offsetIn sub j) (len c).

Lemma compressChunked_codec raw spans a s :
  compressPackBlobChunked raw spans a = Ok s -> raw <> [] -> a <> CompressNone ->
  a = CompressGzip \/ a = CompressZstd.
Proof.
  unfold compressPackBlobChunked. intros H Hraw Ha. rewrite decide_False in H by done.
  apply bind_ok in H as ([] & Hv & H). apply bind_ok in H as (eb & Hc & _).
  destruct spans as [|sp spans].
  { cbn in Hv. destruct (Z.eqb_spec (len raw) 0) as [E|]; [|done]. by apply len_0 in E. }
  cbn in Hc. apply bind_ok in Hc as (bc & Hb & _). unfold compressChunkBody in Hb.
  apply bind_ok in Hb as (body & Hn & _). unfold newCompressor in Hn. repeat case_decide; auto. done.
Qed.

Lemma spans_lookup sub j c : sub !! j = Some c -> spansOf sub !! j = Some (PackSpan (offsetIn sub j) (len c)).
Proof. intros H. unfold spansOf. by rewrite list_lookup_imap, H. Qed.

(** The framing seam produces a pack of the chunks, in either mode. *)
Lemma storePackBlob_pack c sub codec stored :
  storePackBlob c (concat sub) (spansOf sub) codec = Ok stored -> concat sub <> [] ->
  (codec <> CompressNone -> packCompression c = PackCompressPerChunk ->
     len (concat sub) < 2 ^ 32 /\ len sub * packChunkEntryLen < 2 ^ 32) ->
  pack_of stored sub.
Proof.
  unfold storePackBlob. intros H Hne Hsz. case_decide as Hm.
  - split; [by eapply compressPackBlob_round|]. intros j ch _ f es Hf Ha.
    by apply (compressPackBlob_framing _ _ _ _ H Hf) in Ha.
  - assert (Hc : codec <> CompressNone) by auto. assert (packCompression c <> PackCompressWholePack) by auto. destruct (Hsz Hc) as [Hs1 Hs2]; [by destruct (packCompression c)|].
    pose proof (compressChunked_codec _ _ _ _ H Hne Hc) as Ha.
    assert (len (spansOf sub) = len sub) as Hl by (unfold len, spansOf; by rewrite length_imap).
    destruct (compressPackBlobChunked_round _ _ _ _ H Ha Hs1) as (Hd & f & es & Hf & Hfa & _ & Hp & Hsp);
      [by rewrite Hl|].
    split; [done|]. intros j ch Hj f' es' Hf' Ha' Hp'. rewrite Hf in Hf'. injection Hf' as <-.
    rewrite Hp in Hp'. injection Hp' as <-.
    pose proof (spans_lookup sub j ch Hj) as Hs. rewrite <- Hsp, list_lookup_fmap in Hs.
    destruct (es !! j) as [e|] eqn:Ee; [|done]. injection Hs as Ho Hz. apply list_elem_of_lookup_2 in Ee.
    split; exists e; (split; [done|]); lia.
Qed.

(** Reading a chunk of a pack through its reference. *)
Lemma pack_of_backed `{L : !StorageLaws Sto} (s : storage) pid stored ts sub j c ph :
  blobs s !! pid = Some (stored, ts) -> pack_of stored sub -> sub !! j = Some c ->
  pack_backed s pid (MkRef (sha256_hex c) ph (offsetIn sub j) (len c)) c.
Proof.
  intros Hb [Hd Ha] Hj. exists stored, ts, (concat sub). split_and!; [done|done| |by apply Ha].
  destruct (offsetIn_end sub j c Hj) as [Hle Hsl]. unfold ref_in. cbn.
  split_and!; try done; [apply len_nonneg|apply len_nonneg].
Qed.
End Packs.

Section Mono.
  Context {Clib : CodecLib} {Sto : Storage} {L : StorageLaws Sto}.

Lemma PutIfAbsent_mono s id data s' r : PutIfAbsent s id data = (s', r) -> blobs s ⊆ blobs s'.
Proof.
  intros H. apply PutIfAbsent_blobs in H as [->|(Hn & _ & ts & ->)]; [done|]. by apply insert_subseteq.
Qed.

Lemma pack_backed_mono s s' pid ref c : blobs s ⊆ blobs s' -> pack_backed s pid ref c -> pack_backed s' pid ref c.
Proof.
  intros Hs (stored & ts & content & Hb & H). exists stored, ts, content. split; [|done]. by eapply lookup_weaken.
Qed.

Lemma ref_backed_mono s s' tenant ref c : blobs s ⊆ blobs s' -> ref_backed s tenant ref c -> ref_backed s' tenant ref c.
Proof.
  unfold ref_backed. intros Hs. case_decide; [|by apply pack_backed_mono].
  intros (stored & ts & Hb & H'). exists stored, ts. split; [|done]. by eapply lookup_weaken.
Qed.
End Mono.
#[export] Hint Resolve pack_backed_mono ref_backed_mono : store.

Lemma packBlobID_inj dom h h' : packBlobID dom h = packBlobID dom h' -> h = h'.
Proof.
  unfold packBlobID. generalize (tenantSegment dom). intros t H.
  do 3 (apply (inj (String.append _)) in H). done.
Qed.

Section PutV2.
  Context {Clib : CodecLib} {Claws : CodecLaws} {Sto : Storage} {L : StorageLaws Sto}
          {D : DedupStore} {DL : DedupStoreLaws D}.
  Context (c : ChunkedStore) (dom : string) (codec : CompressionAlgo).

Definition perChunk : Prop := codec <> CompressNone /\ packCompression c = PackCompressPerChunk.

(** Locations a session may hand out. *)
Definition known (d : dstore) (sess : DedupSession) (h : string) (ref : PackRef) : Prop :=
  match sess with
  | priorManifestSession idx => idx !! h = Some ref
  | globalSession domain _ => entries d domain !! h = Some ref
  end.

(** The index is right about the chunks of this put. *)
Definition index_backs (s : storage) (K : string -> PackRef -> Prop) (all : list bytes) : Prop :=
  forall x ref, x ∈ all -> K (sha256_hex x) ref -> rPackHash ref <> "" -> rPackHash ref <> sha256_hex x ->
    is_digest (rPackHash ref) /\ pack_backed s (packBlobID dom (rPackHash ref))
      (MkRef (sha256_hex x) (rPackHash ref) (rOffset ref) (rSize ref)) x.

(** A pack stored under the name of some of this put's chunks holds them. *)
Definition packs_agree (s : storage) (all : list bytes) : Prop :=
  forall sub stored ts, sub `sublist_of` all -> concat sub <> [] ->
    blobs s !! packBlobID dom (sha256_hex (concat sub)) = Some (stored, ts) -> pack_of stored sub.

(** Chunk sequences of this put that share a name share their bytes, and, when
    packs are framed per chunk, their cuts. *)
Definition names_agree (all : list bytes) : Prop :=
  forall s1 s2, s1 `sublist_of` all -> s2 `sublist_of` all -> sha256_hex (concat s1) = sha256_hex (concat s2) ->
    concat s1 = concat s2 /\ (perChunk -> (len <$> s1) = (len <$> s2)).

(** Per-chunk packs keep 32-bit sizes. *)
Definition packs_fit (all : list bytes) : Prop :=
  perChunk -> exists m, Forall (fun x => len x <= m) all /\ 0 <= m /\
    (Z.max 0 (packTargetBytes c) + m) * packChunkEntryLen < 2 ^ 32.

Definition resolved (s : storage) (ref : chunkRef) (x : bytes) : Prop :=
  is_digest (PackHash ref) /\ pack_backed s (packBlobID dom (PackHash ref)) ref x.

(** Locations recorded in the session are backed. *)
Definition pending_backed (s : storage) (sess : DedupSession) : Prop :=
  match sess with
  | priorManifestSession _ => True
  | globalSession domain pending => domain = dom /\
      Forall (fun loc => is_digest (rPackHash (locRef loc)) /\ exists x, pack_backed s (packBlobID dom (rPackHash (locRef loc)))
        (MkRef (ChunkHash loc) (rPackHash (locRef loc)) (rOffset (locRef loc)) (rSize (locRef loc))) x) pending
  end.

Record put_inv (all : list bytes) (st : putState) (done pend : list bytes) : Prop := {
  pi_len : length (psChunks st) = length done;
  pi_buf : packBuf st = concat pend;
  pi_sub : pend `sublist_of` done;
  pi_plen : length (packEntries st) = length pend;
  pi_ent : forall j e x, packEntries st !! j = Some e -> pend !! j = Some x ->
    peOffset e = offsetIn pend j /\ peSize e = len x /\
    psChunks st !! manifestIdx e = Some (MkRef (sha256_hex x) "" (peOffset e) (peSize e)) /\
    done !! manifestIdx e = Some x;
  pi_res : forall i ref x, psChunks st !! i = Some ref -> done !! i = Some x ->
    i ∈ (manifestIdx <$> packEntries st) \/ resolved (psBlobs st) ref x;
  pi_total : psTotal st = len (concat done);
  pi_idx : index_backs (psBlobs st) (known (psDedup st) (psSess st)) all;
  pi_packs : packs_agree (psBlobs st) all;
  pi_sess : pending_backed (psBlobs st) (psSess st);
}.

Lemma index_backs_mono s s' K all : blobs s ⊆ blobs s' -> index_backs s K all -> index_backs s' K all.
Proof.
  intros Hs H x ref ? ? ? ?. destruct (H x ref) as [? ?]; try done. split; [done|]. by eapply pack_backed_mono.
Qed.

Lemma resolved_mono s s' ref x : blobs s ⊆ blobs s' -> resolved s ref x -> resolved s' ref x.
Proof. intros Hs [? H]. split; [done|]. by eapply pack_backed_mono. Qed.

Lemma pending_backed_mono s s' sess : blobs s ⊆ blobs s' -> pending_backed s sess -> pending_backed s' sess.
Proof.
  intros Hs. destruct sess as [|domain pending]; [done|]. intros [Hd H]. split; [done|].
  eapply Forall_impl; [done|]. intros loc [? [x Hx]]. split; [done|]. exists x. by eapply pack_backed_mono.
Qed.

Lemma sessLookup_known d sess h ref : sessLookup d sess h = Some ref -> known d sess h ref.
Proof.
  destruct sess as [idx|domain pending]; cbn; [done|]. destruct (dLookup d domain h) eqn:E; [|done].
  intros ->. by apply lookup_sound.
Qed.

(** *** Back-filling *)

Lemma backfill_chunks ph es chunks sess i :
  (foldl (backfill ph) (chunks, sess) es).1 !! i =
    if decide (i ∈ (manifestIdx <$> es)) then setPackHash ph <$> chunks !! i else chunks !! i.
Proof.
  revert chunks sess; induction es as [|e es IH]; intros chunks sess; cbn [foldl fmap list_fmap].
  { by rewrite decide_False by apply not_elem_of_nil. }
  unfold backfill at 2. cbv zeta. cbn [fst snd]. rewrite IH.
  destruct (decide (i = manifestIdx e)) as [->|Hne].
  - rewrite list_lookup_alter_eq. rewrite (decide_True (P := manifestIdx e ∈ manifestIdx e :: _)) by left.
    case_decide; [|done]. by destruct (chunks !! manifestIdx e) as [[]|].
  - rewrite list_lookup_alter_ne by done. repeat case_decide; set_solver.
Qed.

Lemma backfill_length ph es chunks sess : length (foldl (backfill ph) (chunks, sess) es).1 = length chunks.
Proof.
  revert chunks sess; induction es as [|e es IH]; intros chunks sess; cbn [foldl]; [done|].
  unfold backfill at 2. cbv zeta. cbn [fst snd]. by rewrite IH, length_alter.
Qed.

Lemma backfill_sess ph es chunks sess K :
  (forall h ref, known K sess h ref <-> known K (foldl (backfill ph) (chunks, sess) es).2 h ref).
Proof.
  revert chunks sess; induction es as [|e es IH]; intros chunks sess h ref; cbn [foldl]; [done|].
  unfold backfill at 2. cbv zeta. cbn [fst snd]. rewrite <- IH. by destruct sess.
Qed.

Lemma backfill_pending s ph es chunks sess :
  pending_backed s sess -> is_digest ph ->
  (forall e, e ∈ es -> exists ref x, chunks !! manifestIdx e = Some ref /\
     pack_backed s (packBlobID dom ph) (MkRef (Hash ref) ph (peOffset e) (peSize e)) x) ->
  pending_backed s (foldl (backfill ph) (chunks, sess) es).2.
Proof.
  revert chunks sess; induction es as [|e es IH]; intros chunks sess Hs Hph Hes; cbn [foldl]; [done|].
  unfold backfill at 2. cbv zeta. cbn [fst snd].
  destruct (Hes e) as (ref & x & Hr & Hx); [by left|].
  apply IH; [|done|].
  - rewrite list_lookup_alter_eq, Hr. cbn. destruct sess as [|domain pending]; [done|].
    destruct Hs as [Hd Hs]. split; [done|]. apply Forall_app. split; [done|]. constructor; [split; [done|by exists x]|done].
  - intros e' He'. destruct (Hes e') as (ref' & x' & Hr' & Hx'); [by right|].
    destruct (decide (manifestIdx e' = manifestIdx e)) as [E|E].
    + rewrite E in *. rewrite list_lookup_alter_eq, Hr'. cbn. exists (setPackHash ph ref'), x'. done.
    + rewrite list_lookup_alter_ne by done. eauto.
Qed.

(** *** Flushing *)

Lemma recordPackSize_entries d n ph : entries (recordPackSize c d dom ph n) = entries d.
Proof.
  unfold recordPackSize, packSizeRecorder. destruct (index c); [done|].
  destruct dRecordPackSizes as [f|] eqn:E; [|done].
  destruct (f d dom [(ph, n)]) as [d' r] eqn:Ef. cbn. by eapply sizes_entries.
Qed.

Lemma known_entries d d' sess h ref : entries d' = entries d -> known d' sess h ref -> known d sess h ref.
Proof. intros E. destruct sess; cbn; [done|]. by rewrite E. Qed.

(** The cuts of a sequence determine its offsets. *)
Lemma offsetIn_lens s1 s2 j : (len <$> s1) = (len <$> s2) -> offsetIn s1 j = offsetIn s2 j.
Proof.
  unfold offsetIn. revert s2 j; induction s1 as [|x s1 IH]; intros [|y s2] [|j] H; try done. cbn in *.
  injection H as Hx H. rewrite !len_app, Hx. f_equal. by apply IH.
Qed.

Lemma pack_of_same stored s1 s2 :
  pack_of stored s1 -> concat s1 = concat s2 -> (len <$> s1) = (len <$> s2) -> pack_of stored s2.
Proof.
  intros [Hd Ha] Hc Hl. split; [by rewrite <- Hc|]. intros j x Hx.
  assert (Hj : (len <$> s2) !! j = Some (len x)) by (by rewrite list_lookup_fmap, Hx).
  rewrite <- Hl, list_lookup_fmap in Hj. destruct (s1 !! j) as [y|] eqn:Hy; [|done]. injection Hj as Hj.
  rewrite <- (offsetIn_lens s1 s2) by done. rewrite <- Hj. by apply Ha.
Qed.

Lemma packs_agree_insert s s' all pend stored ts :
  packs_agree s all -> names_agree all -> pend `sublist_of` all -> pack_of stored pend ->
  (~ perChunk -> forall f, detectPackFraming stored = Ok f -> algo f <> packAlgoChunked) ->
  blobs s' = <[packBlobID dom (sha256_hex (concat pend)) := (stored, ts)]> (blobs s) -> packs_agree s' all.
Proof.
  intros Hs Hn Hp Hpk Hwhole Hb sub stored' ts' Hsub Hne. rewrite Hb. intros H.
  apply lookup_insert_Some in H as [[Hid [= <- <-]]|[_ H]]; [|by eapply Hs].
  apply packBlobID_inj in Hid. destruct (Hn pend sub Hp Hsub Hid) as [Hc Hl].
  destruct (decide (codec = CompressNone)) as [E|E]; [|destruct (decide (packCompression c = PackCompressPerChunk)) as [E2|E2]].
  2:{ eapply pack_of_same; [done..|]. by apply Hl. }
  all: split; [rewrite <- Hc; by apply Hpk|]; intros j x _ f es Hf Ha;
    by apply (Hwhole ltac:(unfold perChunk; tauto) f Hf) in Ha.
Qed.

Definition fits (pend : list bytes) : Prop :=
  perChunk -> len (concat pend) < 2 ^ 32 /\ len pend * packChunkEntryLen < 2 ^ 32.

Lemma concat_nonempty (pend : list bytes) : Forall (fun x => x <> []) pend -> concat pend = [] -> pend = [].
Proof. destruct 1 as [|x l Hx _]; [done|]. cbn. intros H. by apply app_eq_nil in H as [? _]. Qed.

Lemma entries_spans all st done pend :
  put_inv all st done pend ->
  (fun e => PackSpan (peOffset e) (peSize e)) <$> packEntries st = spansOf pend.
Proof.
  intros H. apply list_eq. intros j. rewrite list_lookup_fmap.
  destruct (packEntries st !! j) as [e|] eqn:Ee.
  - destruct (lookup_lt_is_Some_2 pend j) as [x Hx].
    { rewrite <- (pi_plen _ _ _ _ H). by eapply lookup_lt_Some. }
    destruct (pi_ent _ _ _ _ H j e x Ee Hx) as (Ho & Hz & _). cbn. rewrite (spans_lookup _ _ _ Hx). by rewrite Ho, Hz.
  - cbn. symmetry. apply lookup_ge_None. unfold spansOf. rewrite length_imap, <- (pi_plen _ _ _ _ H).
    by apply lookup_ge_None.
Qed.

(** After the upload, the pack is there and holds the pending chunks. *)
Lemma upload_pack all s s' pend stored :
  packs_agree s all -> names_agree all -> pend `sublist_of` all -> concat pend <> [] -> fits pend ->
  storePackBlob c (concat pend) (spansOf pend) codec = Ok stored ->
  PutIfAbsent s (packBlobID dom (sha256_hex (concat pend))) stored = (s', Ok tt) ->
  packs_agree s' all /\ exists stored' ts, blobs s' !! packBlobID dom (sha256_hex (concat pend)) = Some (stored', ts) /\
    pack_of stored' pend.
Proof.
  intros Ha Hn Hsub Hne Hfit Hst Hput.
  assert (Hpk : pack_of stored pend).
  { eapply storePackBlob_pack; [done..|]. intros ? ?. by apply Hfit. }
  apply PutIfAbsent_ok in Hput as [([stored' ts] & Hb & Hs)|(Hb & ts & Hs)].
  - split; [intros sub st2 ts2; rewrite Hs; apply Ha|]. exists stored', ts. rewrite Hs. split; [done|].
    by eapply Ha.
  - split.
    + eapply packs_agree_insert; [done..| |done]. intros Hw f Hf. unfold storePackBlob in Hst.
      rewrite decide_True in Hst; [by eapply compressPackBlob_framing|].
      unfold perChunk in Hw. destruct (decide (codec = CompressNone)); [by left|right].
      destruct (packCompression c); [|done]. exfalso. by apply Hw.
    + exists stored, ts. by rewrite Hs, lookup_insert_eq.
Qed.

Lemma flushPack_inv all st done pend st' :
  names_agree all -> Forall (fun x => x <> []) all -> done `sublist_of` all -> fits pend ->
  put_inv all st done pend -> flushPack c dom codec st = (st', Ok tt) ->
  put_inv all st' done [] /\ packBuf st' = [] /\ blobs (psBlobs st) ⊆ blobs (psBlobs st').
Proof.
  intros Hn Hne Hdone Hfit H. unfold flushPack. rewrite (pi_buf _ _ _ _ H), (entries_spans _ _ _ _ H).
  assert (Hsub : pend `sublist_of` all) by (etransitivity; [apply H|done]).
  assert (Hpne : Forall (fun x => x <> []) pend) by (by eapply sublist_Forall).
  destruct (concat pend) as [|b buf] eqn:Hbuf.
  { intros [= <-]. apply concat_nonempty in Hbuf; [|done]. subst pend. split; [done|].
    split; [by rewrite (pi_buf _ _ _ _ H)|done]. }
  rewrite <- Hbuf in *. assert (Hcne : concat pend <> []) by congruence. clear Hbuf.
  destruct (storePackBlob _ _ _ _) as [stored|] eqn:Hst; [|done].
  destruct (PutIfAbsent _ _ _) as [s1 [[]|]] eqn:Hput; [|done].
  pose proof (PutIfAbsent_mono _ _ _ _ _ Hput) as Hmono.
  destruct (upload_pack all _ _ pend stored (pi_packs _ _ _ _ H) Hn Hsub Hcne Hfit Hst Hput)
    as (Hagree & stored' & ts & Hb & Hpk).
  set (ph := sha256_hex (concat pend)) in *.
  pose proof (backfill_chunks ph (packEntries st) (psChunks st) (psSess st)) as Hfill.
  pose proof (backfill_length ph (packEntries st) (psChunks st) (psSess st)) as Hlen.
  pose proof (backfill_sess ph (packEntries st) (psChunks st) (psSess st)) as Hsess.
  assert (Hent : forall e, e ∈ packEntries st -> exists x, psChunks st !! manifestIdx e =
      Some (MkRef (sha256_hex x) "" (peOffset e) (peSize e)) /\ done !! manifestIdx e = Some x /\
      pack_backed s1 (packBlobID dom ph) (MkRef (sha256_hex x) ph (peOffset e) (peSize e)) x).
  { intros e He. apply list_elem_of_lookup in He as [j Hj].
    destruct (lookup_lt_is_Some_2 pend j) as [x Hx]; [rewrite <- (pi_plen _ _ _ _ H); by eapply lookup_lt_Some|].
    destruct (pi_ent _ _ _ _ H j e x Hj Hx) as (Ho & Hz & Hr & Hd). exists x. split; [done|]. split; [done|].
    rewrite Ho, Hz. by eapply pack_of_backed. }
  pose proof (backfill_pending s1 ph (packEntries st) (psChunks st) (psSess st)
    (pending_backed_mono _ _ _ Hmono (pi_sess _ _ _ _ H))) as Hpend.
  destruct (foldl (backfill ph) (psChunks st, psSess st) (packEntries st)) as [chunks sess]. cbn in *.
  intros [= <-]. split; [|done]. split; cbn; try done.
  - by rewrite Hlen, (pi_len _ _ _ _ H).
  - apply sublist_nil_l.
  - intros i ref x Hr Hx. right. rewrite Hfill in Hr. case_decide as Hi.
    + apply list_elem_of_fmap in Hi as (e & -> & He). destruct (Hent e He) as (y & Hy & Hdy & Hbk).
      rewrite Hy in Hr. cbn in Hr. injection Hr as <-. rewrite Hx in Hdy. injection Hdy as <-.
      split; [apply sha256_is_digest|done].
    + destruct (pi_res _ _ _ _ H i ref x Hr Hx) as [?|?]; [done|]. by eapply resolved_mono.
  - apply H.
  - intros x ref Hx Hk. apply known_entries with (d := psDedup st) in Hk; [|apply recordPackSize_entries].
    apply Hsess in Hk. by apply (index_backs_mono _ _ _ _ Hmono (pi_idx _ _ _ _ H)).
  - apply Hpend; [apply sha256_is_digest|]. intros e He. destruct (Hent e He) as (x & Hx & _ & Hbk). eauto.
Qed.

(** *** Emitting a chunk *)

Definition small (st : putState) : Prop := packBuf st = [] \/ len (packBuf st) < packTargetBytes c.

Lemma count_le_len (l : list bytes) : Forall (fun x => x <> []) l -> len l <= len (concat l).
Proof.
  induction 1 as [|x l Hx _ IH]; [done|]. cbn. rewrite len_cons, len_app. destruct x as [|b x]; [done|].
  rewrite len_cons. pose proof (len_nonneg x). lia.
Qed.

Lemma fits_snoc all st pend x :
  packs_fit all -> Forall (fun x => x <> []) all -> pend ++ [x] `sublist_of` all -> small st ->
  packBuf st = concat pend -> fits (pend ++ [x]).
Proof.
  intros Hfit Hne Hsub Hsm Hbuf Hpc. destruct (Hfit Hpc) as (m & Hm & Hm0 & Hlt).
  assert (Hx : len x <= m).
  { eapply Forall_forall in Hm; [exact Hm|]. eapply elem_of_sublist; [|done]. apply elem_of_app. right. by left. }
  pose proof (count_le_len _ (sublist_Forall _ _ _ Hne Hsub)) as Hc.
  rewrite len_concat_app in *. cbn [concat List.concat] in *. rewrite app_nil_r in *.
  assert (len (concat pend) <= Z.max 0 (packTargetBytes c)).
  { rewrite <- Hbuf. destruct Hsm as [->|]; [rewrite len_nil|]; lia. }
  unfold packChunkEntryLen in *. lia.
Qed.

Lemma fits_small all st pend :
  packs_fit all -> Forall (fun x => x <> []) all -> pend `sublist_of` all -> small st ->
  packBuf st = concat pend -> fits pend.
Proof.
  intros Hfit Hne Hsub Hsm Hbuf Hpc. destruct (Hfit Hpc) as (m & Hm & Hm0 & Hlt).
  pose proof (count_le_len _ (sublist_Forall _ _ _ Hne Hsub)) as Hc.
  assert (len (concat pend) <= Z.max 0 (packTargetBytes c)).
  { rewrite <- Hbuf. destruct Hsm as [->|]; [rewrite len_nil|]; lia. }
  unfold packChunkEntryLen in *. lia.
Qed.

Lemma lookup_snoc_cases {A} (l : list A) y i z :
  (l ++ [y]) !! i = Some z -> l !! i = Some z \/ (i = length l /\ z = y).
Proof.
  intros H. apply lookup_app_Some in H as [H|[Hl H]]; [by left|right].
  apply list_lookup_singleton_Some in H as [Hi ->]. split; [lia|done].
Qed.

(** A chunk the index knows. *)
Lemma emit_hit_inv all st done pend x ref rest :
  put_inv all st done pend -> done ++ x :: rest = all ->
  known (psDedup st) (psSess st) (sha256_hex x) ref -> rPackHash ref <> "" -> rPackHash ref <> sha256_hex x ->
  put_inv all (PS (psBlobs st) (psDedup st) (psSess st)
      (psChunks st ++ [MkRef (sha256_hex x) (rPackHash ref) (rOffset ref) (rSize ref)])
      (psTotal st + rSize ref) (packBuf st) (packEntries st)) (done ++ [x]) pend.
Proof.
  intros H Hall Hk H1 H2.
  assert (Hb : is_digest (rPackHash ref) /\ pack_backed (psBlobs st) (packBlobID dom (rPackHash ref))
    (MkRef (sha256_hex x) (rPackHash ref) (rOffset ref) (rSize ref)) x).
  { apply (pi_idx _ _ _ _ H); try done. rewrite <- Hall. apply elem_of_app. right. by left. }
  assert (Hsz : rSize ref = len x).
  { destruct Hb as (_ & stored & ts & content & _ & _ & (Ho & Hz & Hle & -> & _) & _). cbn in *. rewrite slice_len; lia. }
  split; cbn; try apply H.
  - by rewrite !length_app, (pi_len _ _ _ _ H).
  - apply sublist_inserts_r, H.
  - intros j e y He Hy. destruct (pi_ent _ _ _ _ H j e y He Hy) as (? & ? & Hr & Hd).
    split_and!; [done|done|by apply lookup_app_l_Some|by apply lookup_app_l_Some].
  - intros i r y Hr Hy. pose proof (pi_len _ _ _ _ H) as Hl.
    destruct (lookup_snoc_cases _ _ _ _ Hr) as [Hr'|[-> ->]], (lookup_snoc_cases _ _ _ _ Hy) as [Hy'|[Hi ->]].
    + by eapply (pi_res _ _ _ _ H).
    + apply lookup_lt_Some in Hr'. lia.
    + apply lookup_lt_Some in Hy'. lia.
    + right. exact Hb.
  - rewrite (pi_total _ _ _ _ H), len_concat_app. cbn [concat List.concat]. rewrite app_nil_r. lia.
Qed.

(** A new chunk, buffered. *)
Lemma emit_miss_inv all st done pend x :
  put_inv all st done pend ->
  put_inv all (PS (psBlobs st) (psDedup st) (psSess st)
      (psChunks st ++ [MkRef (sha256_hex x) "" (len (packBuf st)) (len x)])
      (psTotal st + len x) (packBuf st ++ x)
      (packEntries st ++ [MkEntry (length (psChunks st)) (len (packBuf st)) (len x)])) (done ++ [x]) (pend ++ [x]).
Proof.
  intros H. pose proof (pi_len _ _ _ _ H) as Hl. pose proof (pi_plen _ _ _ _ H) as Hpl.
  split; cbn; try apply H.
  - by rewrite !length_app, Hl.
  - rewrite (pi_buf _ _ _ _ H), concat_app. cbn. by rewrite app_nil_r.
  - apply sublist_app; [apply H|done].
  - by rewrite !length_app, Hpl.
  - intros j e y He Hy.
    destruct (lookup_snoc_cases _ _ _ _ He) as [He'|[-> ->]], (lookup_snoc_cases _ _ _ _ Hy) as [Hy'|[Hi ->]].
    + destruct (pi_ent _ _ _ _ H j e y He' Hy') as (Ho & ? & Hr & Hd).
      split_and!; [|done|by apply lookup_app_l_Some|by apply lookup_app_l_Some].
      rewrite Ho. unfold offsetIn. rewrite take_app_le; [done|]. apply lookup_lt_Some in Hy'. lia.
    + apply lookup_lt_Some in He'. lia.
    + apply lookup_lt_Some in Hy'. lia.
    + cbn. split_and!; try done.
      * unfold offsetIn. rewrite Hpl, take_app_length. by rewrite (pi_buf _ _ _ _ H).
      * rewrite lookup_app_r, Nat.sub_diag by lia. done.
      * rewrite Hl, lookup_app_r, Nat.sub_diag by lia. done.
  - intros i r y Hr Hy. rewrite fmap_app, elem_of_app.
    destruct (lookup_snoc_cases _ _ _ _ Hr) as [Hr'|[-> ->]], (lookup_snoc_cases _ _ _ _ Hy) as [Hy'|[Hi ->]].
    + destruct (pi_res _ _ _ _ H i r y Hr' Hy'); auto.
    + apply lookup_lt_Some in Hr'. lia.
    + apply lookup_lt_Some in Hy'. lia.
    + left. right. cbn. by left.
  - rewrite (pi_total _ _ _ _ H), len_concat_app. cbn [concat List.concat]. by rewrite app_nil_r.
Qed.

Lemma emitChunk_inv all st done pend x rest st' :
  names_agree all -> Forall (fun x => x <> []) all -> packs_fit all -> done ++ x :: rest = all ->
  put_inv all st done pend -> small st -> emitChunk c dom codec st x = (st', Ok tt) ->
  exists pend', put_inv all st' (done ++ [x]) pend' /\ small st' /\ blobs (psBlobs st) ⊆ blobs (psBlobs st').
Proof.
  intros Hn Hne Hfit Hall H Hsm. unfold emitChunk.
  assert (Hxin : done ++ [x] `sublist_of` all).
  { rewrite <- Hall. apply sublist_app; [done|]. apply sublist_skip. apply sublist_nil_l. }
  destruct x as [|b x'] eqn:Ex.
  { exfalso. rewrite <- Hall in Hne. apply Forall_app in Hne as [_ Hne]. by apply Forall_cons in Hne as [Hne _]. }
  rewrite <- Ex in *. clear b x' Ex.
  destruct (match sessLookup _ _ _ with Some _ => _ | None => _ end) as [ref|] eqn:Hhit.
  { destruct (sessLookup _ _ _) as [ref'|] eqn:Hl; [|done]. apply sessLookup_known in Hl.
    case_decide as Hg; [|done]. injection Hhit as ->. destruct Hg.
    intros [= <-]. exists pend. split; [by eapply emit_hit_inv|]. done. }
  pose proof (emit_miss_inv all st done pend x H) as H2. cbv zeta. cbn [packBuf].
  set (st2 := PS _ _ _ _ _ _ _) in *.
  destruct (Z.leb_spec (packTargetBytes c) (len (packBuf st ++ x))).
  - intros Hf. exists []. destruct (flushPack_inv all st2 (done ++ [x]) (pend ++ [x]) st' Hn Hne Hxin) as (? & ? & ?);
      try done; [|split_and!; [done|by left|done]].
    eapply fits_snoc; [done|done| |done|apply H]. etransitivity; [|done]. apply sublist_app; [apply H|done].
  - intros [= <-]. exists (pend ++ [x]). split_and!; [done|right; cbn; lia|done].
Qed.

Lemma emitAll_inv all rest st done pend st' :
  names_agree all -> Forall (fun x => x <> []) all -> packs_fit all -> done ++ rest = all ->
  put_inv all st done pend -> small st -> emitAll (emitChunk c dom codec) st rest = (st', Ok tt) ->
  exists pend', put_inv all st' all pend' /\ small st' /\ blobs (psBlobs st) ⊆ blobs (psBlobs st').
Proof.
  intros Hn Hne Hfit. revert st done pend; induction rest as [|x rest IH]; intros st done pend Hall H Hsm; cbn.
  - intros [= <-]. rewrite app_nil_r in Hall. subst done. eauto.
  - destruct (emitChunk c dom codec st x) as [st1 [[]|]] eqn:E; [|done]. intros Hr.
    destruct (emitChunk_inv all st done pend x rest st1 Hn Hne Hfit Hall H Hsm E) as (pend1 & H1 & Hsm1 & Hm1).
    destruct (IH st1 (done ++ [x]) pend1) as (pend2 & H2 & Hsm2 & Hm2); try done.
    { by rewrite <- app_assoc. }
    exists pend2. split_and!; [done|done|]. by etransitivity.
Qed.

(** All chunks emitted and flushed: every reference is resolved. *)
Lemma put_inv_backed all st :
  put_inv all st all [] -> Forall2 (resolved (psBlobs st)) (psChunks st) all.
Proof.
  intros H. apply Forall2_same_length_lookup_2; [by rewrite (pi_len _ _ _ _ H)|].
  intros i ref x Hr Hx. destruct (pi_res _ _ _ _ H i ref x Hr Hx) as [Hi|?]; [|done].
  pose proof (pi_plen _ _ _ _ H) as Hp. destruct (packEntries st); [|done]. by apply elem_of_nil in Hi.
Qed.

Lemma resolved_ref_backed s ref x : resolved s ref x -> ref_backed s dom ref x.
Proof. intros [Hd H]. unfold ref_backed. rewrite decide_False; [done|]. by apply digest_nonempty. Qed.
End PutV2.
