(* ===== verification/PutGet.v ===== *)
(** Put and read back, end to end.

    The theorems compose the write path (ChunkedWrite), the pack format, the
    snapshot store contract and the read path (ChunkedRead): a put that
    succeeds is readable byte for byte under the version it returned; a put on
    a store that is up succeeds; no put, failed or not, ever removes or changes
    an existing blob, and a failed one writes no manifest. *)

From S2P Require Import Prelude GoStrings Sha256 PackFormat BlobStore Manifest SnapStore DedupIndex ChunkedRead ChunkedWrite PutSpec.

Section PutGet.
  Context {Clib : CodecLib} {Claws : CodecLaws} {Sto : Storage} {L : StorageLaws Sto}
          {U : SnapshotStore} {SL : SnapshotStoreLaws U} {D : DedupStore} {DL : DedupStoreLaws D}
          {Sp : Splitter} {Spl : SplitterLaws Sp} {J : ManifestCodec} {JL : ManifestCodecLaws}.

(** What a put needs of the store it starts from; see PutSpec. *)
Record put_conditions (c : ChunkedStore) (w : world) (key : SnapshotKey) (md : SnapshotMetadata)
  (all : list bytes) : Prop := {
  pc_index : index_backs (domainFor c key) (wBlobs w)
    (known (wDedup w) (NewSession c (wUps w) (domainFor c key) key)) all;
  pc_packs : packs_agree (domainFor c key) (wBlobs w) all;
  pc_names : names_agree c (codecFor c md) all;
  pc_fit : packs_fit c (codecFor c md) all;
}.

(** Draining [rd] yields [data], whatever the buffer sizes. *)
Definition reads_back (s : storage) (rd : chunkStreamReader) (data : bytes) : Prop :=
  forall sz fuel, (forall i, 0 < sz i)%nat -> (length data + length (Chunks (rManifest rd)) < fuel)%nat ->
    exists rd', readAllFrom fuel s rd sz 0 = (rd', Some (Ok data)).

Lemma put_inv_start c w key md all :
  put_conditions c w key md all ->
  put_inv (domainFor c key) all
    (PS (wBlobs w) (wDedup w) (NewSession c (wUps w) (domainFor c key) key) [] 0 [] []) [] [].
Proof.
  intros [H1 H2 _ _]. split; cbn; try done.
  unfold NewSession. destruct (index c); [done|]. by split.
Qed.

Lemma emitChunk_nil c dom codec (st : putState) : emitChunk c dom codec st [] = (st, Ok tt).
Proof. done. Qed.

(** The manifest a successful put wrote, and what backs it. *)
Lemma putV2_written c w key md r w' md' :
  put_conditions c w key md (chunksOf r) -> putV2 c w key md r = (w', Ok md') ->
  exists data refs, inputOf r = Ok data /\ concat (chunksOf r) = data /\
    Forall2 (resolved (domainFor c key) (wBlobs w')) refs (chunksOf r) /\
    blobs (wBlobs w) ⊆ blobs (wBlobs w') /\
    snaps (wUps w') !! (key, Version md') =
      Some (json_Marshal (MkManifest manifestFormatV2 (len data) (domainFor c key) refs), md').
Proof.
  intros Hc. unfold putV2. set (dom := domainFor c key) in *. set (codec := codecFor c md) in *.
  rewrite (streamIn_chunks (emitChunk c dom codec) r) by apply emitChunk_nil.
  rewrite cutStream_result. set (all := chunksOf r) in *.
  pose proof (chunksOf_nonempty r) as Hne. fold all in Hne.
  pose proof (put_inv_start c w key md all Hc) as Hi.
  destruct (emitAll _ _ all) as [st1 [[]|]] eqn:He; [|done].
  destruct (inputOf r) as [data|] eqn:Hin; cbn [mbind result_bind]; [|done].
  destruct (emitAll_inv c dom codec all all (PS (wBlobs w) (wDedup w) (NewSession c (wUps w) dom key) [] 0 [] [])
    [] [] st1) as (pend & Hi1 & Hsm1 & Hm1); [apply Hc|done|apply Hc|done|exact Hi|by left|exact He|].
  destruct (flushPack c dom codec st1) as [st2 [[]|]] eqn:Hf; [|done].
  destruct (flushPack_inv c dom codec all st1 all pend st2) as (Hi2 & _ & Hm2); try done; [apply Hc| |].
  { eapply fits_small; [apply Hc|done|apply Hi1|done|apply Hi1]. }
  destruct (sessCommit _ _) as [d1 [[]|]]; [|done]. destruct (associatePacks _ _ _ _ _) as [d2 [[]|]]; [|done].
  unfold writeManifest. destruct (sPut _ _ _ _) as [u2 [md2|]] eqn:Hp; [|done]. intros [= <- <-].
  apply sput_ok in Hp as (_ & Hs & _). exists data, (psChunks st2).
  pose proof (chunksOf_concat r data Hin) as Hcat. fold all in Hcat. split_and!; [done|done| | |].
  - by apply put_inv_backed.
  - cbn. by etransitivity.
  - cbn. rewrite Hs, lookup_insert_eq. rewrite (pi_total _ _ _ _ _ Hi2). by rewrite Hcat.
Qed.

(** *** The v1 path *)

(** Chunk blobs stored under this put's names hold its chunks. *)
Definition chunks_agree (dom : string) (s : storage) (all : list bytes) : Prop :=
  forall x stored ts, x ∈ all -> blobs s !! chunkBlobID dom (sha256_hex x) = Some (stored, ts) ->
    decompressPackBlob stored = Ok x.

Definition hashes_agree (all : list bytes) : Prop :=
  forall x y, x ∈ all -> y ∈ all -> sha256_hex x = sha256_hex y -> x = y.

Lemma chunkBlobID_inj dom h h' : chunkBlobID dom h = chunkBlobID dom h' -> h = h'.
Proof.
  unfold chunkBlobID. generalize (tenantSegment dom). intros t H. do 3 (apply (inj (String.append _)) in H). done.
Qed.

Definition v1_ref (dom : string) (s : storage) (ref : chunkRef) (x : bytes) : Prop :=
  ref = MkRef (sha256_hex x) "" 0 (len x) /\ standalone_backed s dom ref x.

Lemma v1_ref_mono dom s s' ref x : blobs s ⊆ blobs s' -> v1_ref dom s ref x -> v1_ref dom s' ref x.
Proof.
  intros Hs [He (stored & ts & Hb & H)]. split; [done|]. exists stored, ts. split; [by eapply lookup_weaken|done].
Qed.

Record v1_inv (dom : string) (all : list bytes) (st : v1State) (done : list bytes) : Prop := {
  v1_refs : Forall2 (v1_ref dom (v1Blobs st)) (v1Chunks st) done;
  v1_total : v1Total st = len (concat done);
  v1_agree : chunks_agree dom (v1Blobs st) all;
}.

Lemma emitV1_inv dom codec all st done x st' :
  hashes_agree all -> x ∈ all -> x <> [] -> v1_inv dom all st done -> emitV1 dom codec st x = (st', Ok tt) ->
  v1_inv dom all st' (done ++ [x]) /\ blobs (v1Blobs st) ⊆ blobs (v1Blobs st').
Proof.
  intros Hh Hx Hne H. unfold emitV1. destruct x as [|b x'] eqn:Ex; [done|]. rewrite <- Ex in *. clear b x' Ex.
  destruct (compressPackBlob x codec) as [stored|] eqn:Hc; [|done]. apply compressPackBlob_round in Hc.
  destruct (PutIfAbsent _ _ _) as [b [[]|]] eqn:Hp; [|done]. intros [= <-].
  pose proof (PutIfAbsent_mono _ _ _ _ _ Hp) as Hm. split; [|done].
  assert (Hst : exists stored' ts, blobs b !! chunkBlobID dom (sha256_hex x) = Some (stored', ts) /\
    decompressPackBlob stored' = Ok x).
  { apply PutIfAbsent_ok in Hp as [([stored' ts] & Hb & Hs)|(Hb & ts & Hs)].
    - exists stored', ts. rewrite Hs. split; [done|]. by eapply (v1_agree _ _ _ _ H).
    - exists stored, ts. by rewrite Hs, lookup_insert_eq. }
  destruct Hst as (stored' & ts & Hb & Hd). split; cbn.
  - apply Forall2_app.
    + eapply Forall2_impl; [apply H|]. intros. by eapply v1_ref_mono.
    + constructor; [|constructor]. split; [done|]. by exists stored', ts.
  - rewrite (v1_total _ _ _ _ H), len_concat_app. cbn [concat List.concat]. by rewrite app_nil_r.
  - intros y st2 ts2 Hy Hby. apply PutIfAbsent_blobs in Hp as [Hs|(_ & _ & ts' & Hs)]; rewrite Hs in Hby.
    + by eapply (v1_agree _ _ _ _ H).
    + apply lookup_insert_Some in Hby as [[Hid [= <- <-]]|[_ Hby]]; [|by eapply (v1_agree _ _ _ _ H)].
      apply chunkBlobID_inj in Hid. rewrite (Hh x y Hx Hy Hid) in Hc. done.
Qed.

Lemma emitV1_all dom codec all rest st done st' :
  hashes_agree all -> Forall (fun x => x <> []) all -> (forall x, x ∈ rest -> x ∈ all) ->
  v1_inv dom all st done -> emitAll (emitV1 dom codec) st rest = (st', Ok tt) ->
  v1_inv dom all st' (done ++ rest) /\ blobs (v1Blobs st) ⊆ blobs (v1Blobs st').
Proof.
  intros Hh Hne. revert st done; induction rest as [|x rest IH]; intros st done Hin H; cbn.
  - intros [= <-]. by rewrite app_nil_r.
  - destruct (emitV1 dom codec st x) as [st1 [[]|]] eqn:E; [|done]. intros Hr.
    destruct (emitV1_inv dom codec all st done x st1) as [H1 Hm1]; try done; [apply Hin; by left| |].
    { rewrite Forall_forall in Hne. apply Hne, Hin. by left. }
    destruct (IH st1 (done ++ [x])) as [H2 Hm2]; try done; [intros y Hy; apply Hin; by right|].
    rewrite <- app_assoc in H2. split; [done|]. by etransitivity.
Qed.

Lemma putV1_written c w key md r w' md' :
  chunks_agree (domainFor c key) (wBlobs w) (chunksOf r) -> hashes_agree (chunksOf r) ->
  putV1 c w key md r = (w', Ok md') ->
  exists data refs, inputOf r = Ok data /\ concat (chunksOf r) = data /\
    Forall2 (v1_ref (domainFor c key) (wBlobs w')) refs (chunksOf r) /\
    blobs (wBlobs w) ⊆ blobs (wBlobs w') /\
    snaps (wUps w') !! (key, Version md') =
      Some (json_Marshal (MkManifest manifestFormatV1 (len data) (domainFor c key) refs), md').
Proof.
  intros Ha Hh. unfold putV1. set (dom := domainFor c key) in *.
  rewrite (streamIn_chunks (emitV1 dom (codecFor c md)) r) by done.
  rewrite cutStream_result. pose proof (chunksOf_nonempty r) as Hne. set (all := chunksOf r) in *.
  destruct (emitAll _ _ all) as [st1 [[]|]] eqn:He; [|done].
  destruct (inputOf r) as [data|] eqn:Hin; cbn [mbind result_bind]; [|done].
  destruct (emitV1_all dom (codecFor c md) all all (V1 (wBlobs w) [] 0) [] st1) as [H1 Hm]; try done.
  unfold writeManifest. destruct (sPut _ _ _ _) as [u2 [md2|]] eqn:Hp; [|done]. intros [= <- <-].
  apply sput_ok in Hp as (_ & Hs & _). exists data, (v1Chunks st1).
  pose proof (chunksOf_concat r data Hin) as Hcat. fold all in Hcat. split_and!; [done|done|apply H1|done|].
  cbn. rewrite Hs, lookup_insert_eq. rewrite (v1_total _ _ _ _ H1). cbn. by rewrite Hcat.
Qed.

(** *** Opening what was written *)

Definition put_ready (c : ChunkedStore) (w : world) (key : SnapshotKey) (md : SnapshotMetadata)
  (all : list bytes) : Prop :=
  if packTargetBytes c =? packingDisabled
  then chunks_agree (domainFor c key) (wBlobs w) all /\ hashes_agree all
  else put_conditions c w key md all.

(** Either format, as the reader sees it. *)
Lemma Put_written c w key md r w' md' :
  put_ready c w key md (chunksOf r) -> Put c w key md r = (w', Ok md') ->
  exists data m, inputOf r = Ok data /\ concat (chunksOf r) = data /\
    mTenant m = domainFor c key /\ formed m /\
    Forall2 (ref_backed (wBlobs w') (domainFor c key)) (Chunks m) (chunksOf r) /\
    snaps (wUps w') !! (key, Version md') = Some (json_Marshal m, md').
Proof.
  unfold put_ready, Put. destruct (packTargetBytes c =? packingDisabled).
  - intros [Ha Hh] Hp. destruct (putV1_written c w key md r w' md' Ha Hh Hp) as (data & refs & ? & ? & Hr & _ & Hs).
    exists data. eexists. split_and!; [done|done|..|exact Hs]; cbn; [done| |].
    + left. split; [done|]. eapply Forall2_Forall_l; [exact Hr|]. apply Forall_true. intros x ref [-> _].
      split; [apply sha256_is_digest|done].
    + eapply Forall2_impl; [exact Hr|]. intros ref x [-> H']. done.
  - intros Hc Hp. destruct (putV2_written c w key md r w' md' Hc Hp) as (data & refs & ? & ? & Hr & _ & Hs).
    exists data. eexists. split_and!; [done|done|..|exact Hs]; cbn; [done| |].
    + right. split; [done|]. eapply Forall2_Forall_l; [exact Hr|]. apply Forall_true. intros x ref [Hd (st & ts & co & _ & _ & Hin & _)].
      destruct Hin as (_ & _ & _ & _ & <-). split; [apply sha256_is_digest|done].
    + eapply Forall2_impl; [exact Hr|]. intros ref x H'. by apply resolved_ref_backed.
Qed.

Lemma manifest_round dom m :
  json_safe dom -> mTenant m = dom -> formed m ->
  json_Unmarshal (json_Marshal m) = Some m.
Proof.
  intros Hj Hdom Hf. pose proof (formed_digests m Hf) as Hdig. apply formed_format in Hf. apply json_round.
  - apply json_safe_ascii. by destruct Hf as [-> | ->].
  - by rewrite Hdom.
  - eapply Forall_impl; [exact Hdig|]. intros ref [H1 H2]. split; apply json_safe_ascii; [by apply digest_ascii|].
    destruct H2 as [-> |]; [done|by apply digest_ascii].
Qed.

Lemma openManifest_pending {Rel : StorageReliable Sto} fc s b m md chunks :
  json_Unmarshal b = Some m -> formed m -> Forall2 (ref_backed s (mTenant m)) (Chunks m) chunks -> cache_ok s fc ->
  exists rd, openManifest fc (Ok b, md) = Ok (rd, md) /\ pending s rd (concat chunks) /\ queued rd = [] /\ cursorIdx rd = 0%nat.
Proof.
  intros Hj Hf Hb Hfc. unfold openManifest. rewrite Hj.
  assert (Hp : forall f t, pending s (newChunkStreamReader (MkManifest f t (mTenant m) (Chunks m)) fc) (concat chunks)).
  { intros f t. by apply newReader_pending. }
  destruct (formed_format m Hf) as [E|E]; rewrite E; [rewrite decide_True by done|rewrite decide_False, decide_True by done];
    eexists; (split; [done|]); (split; [|done]); [apply Hp|].
  specialize (Hp (Format m) (TotalSize m)). by destruct m.
Qed.

Lemma pending_reads {Rel : StorageReliable Sto} s rd data :
  pending s rd data -> queued rd = [] -> cursorIdx rd = 0%nat -> reads_back s rd data.
Proof.
  intros Hp Hq Hc sz fuel Hsz Hfuel. eapply readAllFrom_complete; [done|done|]. unfold readsLeft. rewrite Hq, Hc. cbn. lia.
Qed.

Lemma openManifest_backed {Rel : StorageReliable Sto} fc s b m md chunks :
  json_Unmarshal b = Some m -> formed m -> Forall2 (ref_backed s (mTenant m)) (Chunks m) chunks -> cache_ok s fc ->
  exists rd, openManifest fc (Ok b, md) = Ok (rd, md) /\ reads_back s rd (concat chunks).
Proof.
  intros Hj Hf Hb Hfc. destruct (openManifest_pending fc s b m md chunks Hj Hf Hb Hfc) as (rd & Ho & Hp & Hq & Hc).
  exists rd. split; [done|]. by apply pending_reads.
Qed.

Lemma openManifest_reads {Rel : StorageReliable Sto} fc s dom m md chunks :
  json_safe dom -> mTenant m = dom -> formed m ->
  Forall2 (ref_backed s dom) (Chunks m) chunks -> cache_ok s fc ->
  exists rd, openManifest fc (Ok (json_Marshal m), md) = Ok (rd, md) /\ reads_back s rd (concat chunks).
Proof. intros Hj <- Hf Hb Hfc. eapply openManifest_backed; [by eapply manifest_round|done..]. Qed.

(** *** A put only adds *)

Lemma flushPack_mono c dom codec st : blobs (psBlobs st) ⊆ blobs (psBlobs (flushPack c dom codec st).1).
Proof.
  unfold flushPack. destruct (packBuf st); [done|]. destruct (storePackBlob _ _ _ _); [|done].
  destruct (PutIfAbsent _ _ _) as [s1 [[]|]] eqn:E; apply PutIfAbsent_mono in E; [|done].
  by destruct (foldl _ _ _) as [chunks sess].
Qed.

Lemma emitChunk_mono c dom codec st x : blobs (psBlobs st) ⊆ blobs (psBlobs (emitChunk c dom codec st x).1).
Proof.
  unfold emitChunk. destruct x as [|b x]; [done|]. destruct (match sessLookup _ _ _ with Some _ => _ | None => _ end); [done|].
  cbv zeta. destruct (_ <=? _); [|done]. etransitivity; [|apply flushPack_mono]. done.
Qed.

Lemma emitV1_mono dom codec st x : blobs (v1Blobs st) ⊆ blobs (v1Blobs (emitV1 dom codec st x).1).
Proof.
  unfold emitV1. destruct x as [|b x]; [done|]. destruct (compressPackBlob _ _); [|done].
  destruct (PutIfAbsent _ _ _) as [s [[]|]] eqn:E; by apply PutIfAbsent_mono in E.
Qed.

Lemma emitAll_mono {St} (emit : St -> bytes -> St * result unit) (bl : St -> storage) cs st :
  (forall st x, blobs (bl st) ⊆ blobs (bl (emit st x).1)) -> blobs (bl st) ⊆ blobs (bl (emitAll emit st cs).1).
Proof.
  intros Hm. revert st; induction cs as [|x cs IH]; intros st; cbn; [done|].
  specialize (Hm st x). destruct (emit st x) as [st1 [[]|]]; cbn in *; [|done]. by etransitivity.
Qed.

Lemma streamIn_mono {St} (emit : St -> bytes -> St * result unit) (bl : St -> storage) r st :
  (forall st, emit st [] = (st, Ok tt)) -> (forall st x, blobs (bl st) ⊆ blobs (bl (emit st x).1)) ->
  blobs (bl st) ⊆ blobs (bl (streamIn emit r st).1).
Proof.
  intros Hnil Hm. rewrite streamIn_chunks by done. pose proof (emitAll_mono emit bl (chunksOf r) st Hm) as H.
  by destruct (emitAll emit st (chunksOf r)) as [st1 [[]|]].
Qed.

Lemma writeManifest_snaps u key md m tag_ u' res :
  writeManifest u key md m tag_ = (u', res) -> snaps u ⊆ snaps u' /\ (is_ok res = false -> snaps u' = snaps u).
Proof.
  unfold writeManifest. destruct res as [md'|e]; intros H.
  - apply sput_ok in H as (Hn & -> & _). split; [by apply insert_subseteq|done].
  - apply sput_err in H as ->. done.
Qed.

Lemma Put_adds c w key md r w' res :
  Put c w key md r = (w', res) ->
  blobs (wBlobs w) ⊆ blobs (wBlobs w') /\ snaps (wUps w) ⊆ snaps (wUps w') /\
  (is_ok res = false -> snaps (wUps w') = snaps (wUps w)).
Proof.
  unfold Put. destruct (packTargetBytes c =? packingDisabled).
  - unfold putV1. pose proof (streamIn_mono (emitV1 (domainFor c key) (codecFor c md)) v1Blobs r
      (V1 (wBlobs w) [] 0) ltac:(done) (emitV1_mono _ _)) as Hm. cbn in Hm.
    destruct (streamIn _ _ _) as [st [[]|]]; [|by intros [= <- <-]].
    destruct (writeManifest _ _ _ _ _) as [u res'] eqn:Hw. apply writeManifest_snaps in Hw as [? ?].
    by intros [= <- <-].
  - unfold putV2. pose proof (streamIn_mono (emitChunk c (domainFor c key) (codecFor c md)) psBlobs r
      (PS (wBlobs w) (wDedup w) (NewSession c (wUps w) (domainFor c key) key) [] 0 [] [])
      ltac:(done) (emitChunk_mono _ _ _)) as Hm. cbn in Hm.
    destruct (streamIn _ _ _) as [st [[]|]]; [|by intros [= <- <-]].
    pose proof (flushPack_mono c (domainFor c key) (codecFor c md) st) as Hm2. cbn in Hm.
    destruct (flushPack _ _ _ st) as [st2 [[]|]]; cbn in Hm2; (assert (Hm3 : blobs (wBlobs w) ⊆ blobs (psBlobs st2)) by (by etransitivity));
      [|by intros [= <- <-]].
    destruct (sessCommit _ _) as [d1 [[]|]]; [|by intros [= <- <-]].
    destruct (associatePacks _ _ _ _ _) as [d2 [[]|]]; [|by intros [= <- <-]].
    destruct (writeManifest _ _ _ _ _) as [u res'] eqn:Hw. apply writeManifest_snaps in Hw as [? ?].
    by intros [= <- <-].
Qed.

(** A put only adds.  Whatever its outcome, every blob that was there is
    still there unchanged, every snapshot version too, and a put that fails
    has written no manifest, so no snapshot becomes visible half-written. *)
Theorem Put_only_adds c w key md r w' res :
  Put c w key md r = (w', res) ->
  blobs (wBlobs w) ⊆ blobs (wBlobs w') /\ snaps (wUps w) ⊆ snaps (wUps w') /\
  (is_ok res = false -> snaps (wUps w') = snaps (wUps w)).
Proof. apply Put_adds. Qed.

Lemma tag_insert md k v : tag (MkMeta (mKey md) (Version md) (CreatedAt md) (SizeBytes md) (Runtime md) (mFormat md)
  (<[k := v]> (Tags md))) k = v.
Proof. unfold tag. cbn. by rewrite lookup_insert_eq. Qed.

(** The upstream put of a successful put, tagged with its format. *)
Lemma Put_tagged c w key md r w' md' :
  Put c w key md r = (w', Ok md') -> exists md0 b f, sPut (wUps w) key md0 b = (wUps w', Ok md') /\
    Tags md0 = <["chunked_format" := f]> (Tags md) /\ (f = manifestFormatV1 \/ f = manifestFormatV2).
Proof.
  unfold Put. destruct (packTargetBytes c =? packingDisabled).
  - unfold putV1. destruct (streamIn _ _ _) as [st [[]|]]; [|done]. unfold writeManifest.
    destruct (sPut _ _ _ _) as [u res] eqn:E. intros [= <- ->]. do 3 eexists. split; [exact E|]. split; [done|by left].
  - unfold putV2. destruct (streamIn _ _ _) as [st [[]|]]; [|done].
    destruct (flushPack _ _ _ st) as [st2 [[]|]]; [|done]. destruct (sessCommit _ _) as [d1 [[]|]]; [|done].
    destruct (associatePacks _ _ _ _ _) as [d2 [[]|]]; [|done]. unfold writeManifest.
    destruct (sPut _ _ _ _) as [u res] eqn:E. intros [= <- ->]. do 3 eexists. split; [exact E|]. split; [done|by right].
Qed.

Lemma Put_upstream c w key md r w' md' :
  Put c w key md r = (w', Ok md') -> exists md0 b, sPut (wUps w) key md0 b = (wUps w', Ok md') /\
    (tag md0 "chunked_format" = manifestFormatV1 \/ tag md0 "chunked_format" = manifestFormatV2).
Proof.
  intros (md0 & b & f & Hp & Ht & Hf)%Put_tagged. exists md0, b. split; [done|]. unfold tag. rewrite Ht, lookup_insert_eq.
  destruct Hf as [-> | ->]; [by left|by right].
Qed.

Lemma Put_latest {SRel : SnapshotStoreReadable U} c w key md r w' md' b :
  Put c w key md r = (w', Ok md') -> newest (wUps w) key (Version md') ->
  snaps (wUps w') !! (key, Version md') = Some (b, md') -> sGetLatest (wUps w') key = Ok (Ok b, md').
Proof.
  intros Hp Hn Hs. destruct (Put_upstream c w key md r w' md' Hp) as (md0 & b0 & Hu & _).
  rewrite (latest_after_put _ _ _ _ _ _ Hu Hn). apply sput_ok in Hu as (_ & Hu & _).
  rewrite Hu, lookup_insert_eq in Hs. by injection Hs as ->.
Qed.

(** *** A put on a store that is up *)

Section Total.
  Context {Ctot : CodecTotal} {Rel : StorageReliable Sto} {SRel : SnapshotStoreReliable U}
          {DRel : DedupStoreReliable D}.

Definition codec_ok (a : CompressionAlgo) : Prop := a = CompressNone \/ a = CompressGzip \/ a = CompressZstd.

Lemma spansOf_tile_from sub n :
  tile_end (imap (fun j x => PackSpan (n + offsetIn sub j) (len x)) sub) n = Some (n + len (concat sub)).
Proof.
  revert n; induction sub as [|x sub IH]; intros n; cbn [imap tile_end]; [change (len (concat [])) with 0; by rewrite Z.add_0_r|].
  change (offsetIn (x :: sub) 0) with (len (@nil byte)). rewrite len_nil, Z.add_0_r, Z.eqb_refl. cbn [span_size span_offset negb].
  pose proof (len_nonneg x). destruct (Z.ltb_spec (len x) 0); [lia|]. cbn [orb].
  cbn [concat List.concat]. rewrite len_app, Z.add_assoc, <- IH. f_equal. apply imap_ext. intros j y _. cbn.
  f_equal. unfold offsetIn. cbn [take concat List.concat]. rewrite len_app. lia.
Qed.

Lemma spansOf_tile sub : tile_end (spansOf sub) 0 = Some (len (concat sub)).
Proof. pose proof (spansOf_tile_from sub 0) as H. rewrite Z.add_0_l in H. rewrite <- H. f_equal. Qed.

Lemma compressPackBlob_total raw a : codec_ok a -> exists s, compressPackBlob raw a = Ok s.
Proof.
  intros Ha. unfold compressPackBlob. case_decide; [eauto|]. unfold newCompressor.
  destruct Ha as [->|[->| ->]]; [done|..].
  - rewrite decide_True by done. destruct (gzip_total raw) as [x ->]. cbn. eauto.
  - rewrite decide_False, decide_True by done. destruct (zstd_total raw) as [x ->]. cbn. eauto.
Qed.

Lemma storePackBlob_total c sub codec :
  codec_ok codec -> exists s, storePackBlob c (concat sub) (spansOf sub) codec = Ok s.
Proof.
  intros Ha. unfold storePackBlob. case_decide as Hm; [by apply compressPackBlob_total|].
  apply compressPackBlobChunked_tiles; [|apply spansOf_tile]. destruct Ha as [->|?]; [|done]. exfalso. by apply Hm; left.
Qed.

Lemma flushPack_total c dom codec all st done pend :
  codec_ok codec -> put_inv dom all st done pend -> (flushPack c dom codec st).2 = Ok tt.
Proof.
  intros Ha H. unfold flushPack. rewrite (pi_buf _ _ _ _ _ H), (entries_spans _ _ _ _ _ H).
  destruct (concat pend) as [|b l] eqn:E; [done|]. rewrite <- E.
  destruct (storePackBlob_total c pend codec Ha) as [stored ->].
  destruct (PutIfAbsent_reliable (psBlobs st) (packBlobID dom (sha256_hex (concat pend))) stored) as [s1 ->].
  by destruct (foldl _ _ _).
Qed.

Lemma emitChunk_total c dom codec all st done pend x :
  codec_ok codec -> put_inv dom all st done pend -> (emitChunk c dom codec st x).2 = Ok tt.
Proof.
  intros Ha H. unfold emitChunk. destruct x as [|b x]; [done|].
  destruct (match sessLookup _ _ _ with Some _ => _ | None => _ end); [done|]. cbv zeta.
  destruct (_ <=? _); [|done]. by eapply flushPack_total, emit_miss_inv.
Qed.

Lemma emitAll_total c dom codec all rest st done pend :
  codec_ok codec -> names_agree c codec all -> Forall (fun x => x <> []) all -> packs_fit c codec all ->
  done ++ rest = all -> put_inv dom all st done pend -> small c st ->
  (emitAll (emitChunk c dom codec) st rest).2 = Ok tt.
Proof.
  intros Ha Hn Hne Hfit. revert st done pend; induction rest as [|x rest IH]; intros st done pend Hall H Hsm; cbn; [done|].
  pose proof (emitChunk_total c dom codec all st done pend x Ha H) as Ht.
  destruct (emitChunk c dom codec st x) as [st1 [[]|]] eqn:E; [|done].
  destruct (emitChunk_inv c dom codec all st done pend x rest st1) as (pend1 & H1 & Hsm1 & _); try done.
  eapply (IH st1 (done ++ [x])); [by rewrite <- app_assoc|done|done].
Qed.

Lemma emitV1_total dom codec rest st :
  codec_ok codec -> (emitAll (emitV1 dom codec) st rest).2 = Ok tt.
Proof.
  intros Ha. revert st; induction rest as [|x rest IH]; intros st; cbn; [done|].
  unfold emitV1 at 1. destruct x as [|b x]; [apply IH|].
  destruct (compressPackBlob_total (b :: x) codec Ha) as [stored ->].
  destruct (PutIfAbsent_reliable (v1Blobs st) (chunkBlobID dom (sha256_hex (b :: x))) stored) as [s1 ->]. apply IH.
Qed.

Lemma sessCommit_total (d : dstore) sess : (sessCommit d sess).2 = Ok tt.
Proof. destruct sess as [|domain [|loc pending]]; [done|done|]. apply record_total. Qed.

Lemma associatePacks_total c (d : dstore) dom ctx refs :
  (associatePacks c d dom ctx refs).2 = Ok tt \/
  (index c = GlobalIndex /\ (associatePacks c d dom ctx refs).2 = Err ErrPackObliterating).
Proof.
  unfold associatePacks, packAssociator. destruct (index c); [by left|].
  destruct dAssociate as [f|] eqn:E; [|by left]. case_decide; [by left|].
  destruct (packsOf _ _ _); [by left|].
  destruct (associate_total f d dom (p :: l) E) as [?|?]; [by left|right; done].
Qed.

Lemma writeManifest_total u key md m tag_ : is_ok (writeManifest u key md m tag_).2 = true.
Proof. apply sput_total. Qed.

(** A put completes.  With the backends up, a put fails exactly when its
    input does, with the input's error, or, under a global index, when a pack
    it would share is being reclaimed ([ErrPackObliterating]). *)
Theorem Put_completes c w key md r :
  codec_ok (codecFor c md) -> put_ready c w key md (chunksOf r) ->
  match inputOf r with
  | Err e => (Put c w key md r).2 = Err e
  | Ok _ => (exists md', (Put c w key md r).2 = Ok md') \/
            (index c = GlobalIndex /\ (Put c w key md r).2 = Err ErrPackObliterating)
  end.
Proof.
  intros Ha. unfold put_ready, Put. destruct (packTargetBytes c =? packingDisabled).
  - intros [Hag Hh]. unfold putV1. rewrite streamIn_chunks by done. rewrite cutStream_result.
    pose proof (emitV1_total (domainFor c key) (codecFor c md) (chunksOf r) (V1 (wBlobs w) [] 0) Ha) as He.
    destruct (emitAll _ _ _) as [st [[]|]]; [|done]. destruct (inputOf r) as [data|e]; cbn [mbind result_bind]; [|done].
    left. match goal with |- context [writeManifest ?u ?k ?m ?x ?t] =>
      pose proof (writeManifest_total u k m x t) as Hw; destruct (writeManifest u k m x t) as [u2 [md2|]]; [|done] end.
    by exists md2.
  - intros Hc. unfold putV2. rewrite streamIn_chunks by done. rewrite cutStream_result.
    pose proof (put_inv_start c w key md _ Hc) as Hi. pose proof (chunksOf_nonempty r) as Hne.
    set (st0 := PS _ _ _ _ _ _ _) in *. set (all := chunksOf r) in *.
    pose proof (emitAll_total c (domainFor c key) (codecFor c md) all all st0 [] [] Ha) as He.
    specialize (He (pc_names _ _ _ _ _ Hc) Hne (pc_fit _ _ _ _ _ Hc) eq_refl Hi ltac:(by left)).
    destruct (emitAll _ _ all) as [st1 [[]|]] eqn:Hem; [|done].
    destruct (inputOf r) as [data|e]; cbn [mbind result_bind]; [|done].
    destruct (emitAll_inv c (domainFor c key) (codecFor c md) all all st0 [] [] st1) as (pend & Hi1 & _ & _);
      [apply Hc|done|apply Hc|done|exact Hi|by left|exact Hem|].
    pose proof (flushPack_total c (domainFor c key) (codecFor c md) all st1 all pend Ha Hi1) as Hf.
    destruct (flushPack _ _ _ st1) as [st2 [[]|]]; [|done].
    pose proof (sessCommit_total (psDedup st2) (psSess st2)) as Hs.
    destruct (sessCommit _ _) as [d1 [[]|]]; [|done].
    destruct (associatePacks_total c d1 (domainFor c key) (contextFor key md) (psChunks st2)) as [Hass|[Hg Hass]];
      destruct (associatePacks _ _ _ _ _) as [d2 [[]|e]]; cbn in Hass; try done; [left|right; by simplify_eq].
    match goal with |- context [writeManifest ?u ?k ?m ?x ?t] =>
      pose proof (writeManifest_total u k m x t) as Hw; destruct (writeManifest u k m x t) as [u2 [md2|]]; [|done] end.
    by exists md2.
Qed.
End Total.

(** *** The store invariant *)

(** Every index entry names a stored pack that holds a chunk of that hash. *)
Definition index_ok (d : dstore) (s : storage) : Prop :=
  forall dom h ref, entries d dom !! h = Some ref -> is_digest (rPackHash ref) /\
    exists x, pack_backed s (packBlobID dom (rPackHash ref)) (MkRef h (rPackHash ref) (rOffset ref) (rSize ref)) x.

(** Every reference of a stored manifest is backed. *)
Definition snap_ok (s : storage) (b : bytes) : Prop :=
  forall m, json_Unmarshal b = Some m -> Format m = manifestFormatV1 \/ Format m = manifestFormatV2 ->
    exists chunks, Forall2 (ref_backed s (mTenant m)) (Chunks m) chunks.

Record world_ok (w : world) : Prop := {
  wo_snaps : forall k v b md, snaps (wUps w) !! (k, v) = Some (b, md) -> snap_ok (wBlobs w) b;
  wo_index : index_ok (wDedup w) (wBlobs w);
}.

Lemma index_ok_mono d s s' : blobs s ⊆ blobs s' -> index_ok d s -> index_ok d s'.
Proof.
  intros Hs H dom h ref He. destruct (H dom h ref He) as [? [x Hx]]. split; [done|]. exists x. by eapply pack_backed_mono.
Qed.

Lemma snap_ok_mono s s' b : blobs s ⊆ blobs s' -> snap_ok s b -> snap_ok s' b.
Proof.
  intros Hs H m Hm Hf. destruct (H m Hm Hf) as [chunks Hc]. exists chunks. eapply Forall2_impl; [done|].
  intros. by eapply ref_backed_mono.
Qed.

(** The index after a commit. *)
Lemma sessCommit_index dom (d : dstore) sess s d' r :
  index_ok d s -> pending_backed dom s sess -> sessCommit d sess = (d', r) -> index_ok d' s.
Proof.
  intros Hi Hp. destruct sess as [|domain [|loc pending]]; [by intros [= <- _]..|]. cbn. intros Hr dom' h ref He.
  destruct Hp as [-> Hp]. destruct (record_sound _ _ _ _ _ Hr dom' h ref He) as [He'|[-> Hin]]; [by apply Hi|].
  rewrite Forall_forall in Hp. apply (Hp _ Hin).
Qed.

Lemma associatePacks_entries c (d : dstore) dom ctx refs : entries (associatePacks c d dom ctx refs).1 = entries d.
Proof.
  unfold associatePacks, packAssociator. destruct (index c); [done|]. destruct dAssociate as [f|] eqn:E; [|done].
  case_decide; [done|]. destruct (packsOf _ _ _) as [|a l]; [done|].
  destruct (f d dom (a :: l)) as [d' r] eqn:Ef. by eapply associate_entries.
Qed.

Lemma flushPack_entries c dom codec st : entries (psDedup (flushPack c dom codec st).1) = entries (psDedup st).
Proof.
  unfold flushPack. destruct (packBuf st); [done|]. destruct (storePackBlob _ _ _ _); [|done].
  destruct (PutIfAbsent _ _ _) as [s1 [[]|]]; [|done]. destruct (foldl _ _ _) as [chunks sess].
  apply recordPackSize_entries.
Qed.

Lemma emitChunk_entries c dom codec st x : entries (psDedup (emitChunk c dom codec st x).1) = entries (psDedup st).
Proof.
  unfold emitChunk. destruct x as [|b x]; [done|]. destruct (match sessLookup _ _ _ with Some _ => _ | None => _ end); [done|].
  cbv zeta. destruct (_ <=? _); [|done]. by rewrite flushPack_entries.
Qed.

Lemma emitAll_entries c dom codec cs st :
  entries (psDedup (emitAll (emitChunk c dom codec) st cs).1) = entries (psDedup st).
Proof.
  revert st; induction cs as [|x cs IH]; intros st; cbn; [done|]. pose proof (emitChunk_entries c dom codec st x) as H.
  destruct (emitChunk c dom codec st x) as [st1 [[]|]]; cbn in *; [|done]. by rewrite IH.
Qed.

Lemma index_ok_entries d d' s : entries d' = entries d -> index_ok d s -> index_ok d' s.
Proof. intros E H dom h ref. rewrite E. apply H. Qed.

Lemma putV2_index c w key md r w' res :
  put_conditions c w key md (chunksOf r) -> index_ok (wDedup w) (wBlobs w) ->
  putV2 c w key md r = (w', res) -> index_ok (wDedup w') (wBlobs w').
Proof.
  intros Hc Hi. unfold putV2. set (dom := domainFor c key) in *. set (codec := codecFor c md) in *.
  rewrite streamIn_chunks by done. set (all := chunksOf r) in *. set (st0 := PS _ _ _ _ _ _ _).
  pose proof (emitAll_entries c dom codec all st0) as Hent.
  pose proof (emitAll_mono (emitChunk c dom codec) psBlobs all st0 (emitChunk_mono c dom codec)) as Hm.
  destruct (emitAll _ st0 all) as [st1 [[]|]] eqn:He; cbn in Hent, Hm;
    (assert (Hi1 : index_ok (psDedup st1) (psBlobs st1)) by
       (eapply index_ok_entries; [exact Hent|]; by eapply index_ok_mono)); [|by intros [= <- _]].
  destruct (_.2) as [[]|]; [|by intros [= <- _]].
  destruct (emitAll_inv c dom codec all all st0 [] [] st1) as (pend & Hp1 & Hsm1 & _);
    [apply Hc|apply chunksOf_nonempty|apply Hc|done|by apply put_inv_start with (md := md)|by left|exact He|].
  pose proof (flushPack_entries c dom codec st1) as Hent2. pose proof (flushPack_mono c dom codec st1) as Hm2.
  destruct (flushPack c dom codec st1) as [st2 [[]|]] eqn:Hf; cbn in Hent2, Hm2;
    (assert (Hi2 : index_ok (psDedup st2) (psBlobs st2)) by
       (eapply index_ok_entries; [exact Hent2|]; by eapply index_ok_mono)); [|by intros [= <- _]].
  destruct (flushPack_inv c dom codec all st1 all pend st2) as (Hp2 & _ & _); try done; [apply Hc|apply chunksOf_nonempty| |].
  { eapply fits_small; [apply Hc|apply chunksOf_nonempty|apply Hp1|done|apply Hp1]. }
  destruct (sessCommit (psDedup st2) (psSess st2)) as [d1 rc] eqn:Hco.
  pose proof (sessCommit_index dom _ _ _ _ _ Hi2 (pi_sess _ _ _ _ _ Hp2) Hco) as Hi3.
  destruct rc as [[]|]; [|by intros [= <- _]].
  pose proof (associatePacks_entries c d1 dom (contextFor key md) (psChunks st2)) as Hent3.
  destruct (associatePacks _ _ _ _ _) as [d2 [[]|]]; cbn in Hent3;
    (assert (Hi4 : index_ok d2 (psBlobs st2)) by (by eapply index_ok_entries)); [|by intros [= <- _]].
  destruct (writeManifest _ _ _ _ _). by intros [= <- _].
Qed.

Lemma putV1_dedup c w key md r : wDedup (putV1 c w key md r).1 = wDedup w.
Proof.
  unfold putV1. destruct (streamIn _ _ _) as [st [[]|]]; [|done]. by destruct (writeManifest _ _ _ _ _).
Qed.

Lemma Put_index c w key md r w' res :
  put_ready c w key md (chunksOf r) -> index_ok (wDedup w) (wBlobs w) ->
  Put c w key md r = (w', res) -> blobs (wBlobs w) ⊆ blobs (wBlobs w') -> index_ok (wDedup w') (wBlobs w').
Proof.
  unfold put_ready, Put. destruct (packTargetBytes c =? packingDisabled); [|intros; by eapply putV2_index].
  intros _ Hi Hp Hm. pose proof (putV1_dedup c w key md r) as Hd. rewrite Hp in Hd. cbn in Hd. rewrite Hd.
  by eapply index_ok_mono.
Qed.

Lemma put_keeps_world c w key md r w' res :
  world_ok w -> put_ready c w key md (chunksOf r) -> json_safe (domainFor c key) ->
  Put c w key md r = (w', res) -> world_ok w'.
Proof.
  intros [Hs Hi] Hr Hj Hp. pose proof (Put_adds c w key md r w' res Hp) as (Hm & Hsn & Herr).
  split; [|by eapply Put_index]. intros k v b md1 Hb.
  destruct (snaps (wUps w) !! (k, v)) as [[b0 md0]|] eqn:Hold.
  { pose proof (lookup_weaken _ _ _ _ Hold Hsn) as Hb'. rewrite Hb in Hb'. injection Hb' as <- <-.
    eapply snap_ok_mono; [done|]. by eapply Hs. }
  destruct res as [md'|e]; [|rewrite Herr in Hb by done; congruence].
  destruct (Put_written c w key md r w' md' Hr Hp) as (data & m & Hin & Hcat & Ht & Hf & Hbk & Hsm).
  destruct (Put_upstream c w key md r w' md' Hp) as (md0 & b0 & Hu & _). apply sput_ok in Hu as (_ & Hu & _).
  assert (b = json_Marshal m) as ->.
  { rewrite Hu in Hb. apply lookup_insert_Some in Hb as [[E Hb]|[_ Hb]]; [|congruence].
    rewrite Hu, lookup_insert_eq in Hsm. congruence. }
  intros m' Hm' _. rewrite (manifest_round (domainFor c key) m Hj Ht Hf) in Hm'. injection Hm' as <-.
  exists (chunksOf r). by rewrite Ht.
Qed.

(** Puts keep the store whole.  If every snapshot's references are backed
    by stored packs and every dedup-index entry names bytes that are stored,
    then so it is after any put, successful or failed: earlier snapshots stay
    readable and the index never points at missing or foreign bytes. *)
Theorem put_preserves_world c w key md r w' res :
  world_ok w -> put_ready c w key md (chunksOf r) -> json_safe (domainFor c key) ->
  Put c w key md r = (w', res) -> world_ok w'.
Proof. apply put_keeps_world. Qed.

(** *** Reading back *)

Section Back.
  Context {Rel : StorageReliable Sto} {SRel : SnapshotStoreReadable U}.


(** The latest snapshot is the one just put, provided the upstream store
    gave it a version above the key's other versions. *)
Theorem put_then_get_latest c w key md r w' md' fc :
  put_ready c w key md (chunksOf r) -> json_safe (domainFor c key) ->
  Put c w key md r = (w', Ok md') -> newest (wUps w) key (Version md') -> cache_ok (wBlobs w') fc ->
  exists data rd, inputOf r = Ok data /\ GetLatest fc w' key = Ok (rd, md') /\ reads_back (wBlobs w') rd data.
Proof.
  intros Hr Hj Hp Hn Hfc.
  destruct (Put_written c w key md r w' md' Hr Hp) as (data & m & Hin & Hcat & Ht & Hf & Hb & Hs).
  exists data. unfold GetLatest. rewrite (Put_latest c w key md r w' md' (json_Marshal m) Hp Hn Hs).
  cbn [mbind result_bind]. rewrite <- Hcat.
  destruct (openManifest_reads fc (wBlobs w') (domainFor c key) m md' (chunksOf r) Hj Ht Hf Hb Hfc) as (rd & Ho & Hrd).
  exists rd. split_and!; congruence || done.
Qed.
End Back.
End PutGet.

(** ** Witnesses: three chunks over two packs, per-chunk framed, global index *)

(** Subsequences, to check [names_agree] by enumeration. *)
Fixpoint subseqs {A} (l : list A) : list (list A) :=
  match l with
  | [] => [[]]
  | x :: l => subseqs l ++ (cons x <$> subseqs l)
  end.

Lemma subseqs_complete {A} (l k : list A) : l `sublist_of` k -> l ∈ subseqs k.
Proof.
  induction 1 as [|x l k _ IH|x l k _ IH]; cbn; [by left|..]; apply elem_of_app; [right|by left].
  apply list_elem_of_fmap. by exists l.
Qed.

Definition names_agreeb (all : list bytes) : bool :=
  let named := (fun s => (sha256_hex (concat s), s)) <$> subseqs all in
  forallb (fun x => forallb (fun y =>
    negb (bool_decide (x.1 = y.1)) || bool_decide (concat x.2 = concat y.2 /\ (len <$> x.2) = (len <$> y.2))) named) named.

Lemma names_agreeb_ok c codec all : names_agreeb all = true -> names_agree c codec all.
Proof.
  unfold names_agreeb. intros H s1 s2 H1 H2 Heq. rewrite forallb_forall in H.
  specialize (H (sha256_hex (concat s1), s1)). rewrite forallb_forall in H.
  assert (Hin : forall s, s `sublist_of` all ->
    In (sha256_hex (concat s), s) ((fun s => (sha256_hex (concat s), s)) <$> subseqs all)).
  { intros s Hs. apply list_elem_of_In, list_elem_of_fmap. exists s. split; [done|]. by apply subseqs_complete. }
  specialize (H (Hin s1 H1) (sha256_hex (concat s2), s2) (Hin s2 H2)). cbn in H.
  rewrite bool_decide_true in H by done. cbn in H. apply bool_decide_eq_true in H as [? ?]. done.
Qed.

Lemma lens_fit m (all : list bytes) : forallb (fun x => len x <=? m) all = true -> Forall (fun x => len x <= m) all.
Proof. intros H. rewrite forallb_forall in H. apply Forall_forall. intros x Hx. by apply Z.leb_le, H, list_elem_of_In. Qed.

Definition ex_cfg : ChunkedStore := MkStore 16 "" GlobalIndex (fun _ => CompressZstd) PackCompressPerChunk.
Definition ex_key : SnapshotKey := MkKey "t" "" "" "o".
Definition ex_md : SnapshotMetadata := MkMeta ex_key "" 0 0 "" "" ∅.
Definition ex_data : bytes := replicate 12 Byte.x61 ++ replicate 13 Byte.x62.
Definition ex_in : rdStream := [(slice ex_data 0 7, RdMore); (slice ex_data 7 25, RdEOF)].
Definition ex_sp : Splitter := fixed_splitter 10.
Definition ex_w0 : @world mem_storage mem_snaps mem_dedup := W (Mem ∅ 0 : @storage mem_storage) (MkSnaps ∅ : @sstore mem_snaps) (NewMemoryDedupStore : @dstore mem_dedup).
#[local] Abbreviation ex_put := (Put (Sp := ex_sp) ex_cfg ex_w0 ex_key ex_md ex_in).

(** The store is empty, so any key can be put. *)
Lemma ex_ready_any key md : put_ready ex_cfg ex_w0 key md (chunksOf (Sp := ex_sp) ex_in).
Proof.
  change (put_conditions ex_cfg ex_w0 key md (chunksOf (Sp := ex_sp) ex_in)). split.
  - intros x ref _ H. unfold known, NewSession in H. cbn in H. unfold inner in H.
    rewrite lookup_empty in H. cbn in H. by rewrite lookup_empty in H.
  - intros sub stored ts _ _ H. cbn in H. by rewrite lookup_empty in H.
  - apply names_agreeb_ok. vm_compute. reflexivity.
  - intros _. exists 10. split_and!; [|lia|vm_compute; reflexivity].
    apply lens_fit. vm_compute. reflexivity.
Qed.

Lemma ex_ready : put_ready ex_cfg ex_w0 ex_key ex_md (chunksOf (Sp := ex_sp) ex_in).
Proof. apply ex_ready_any. Qed.

#[local] Abbreviation ex_w1 := (ex_put.1).
#[local] Abbreviation ex_md1 := (ok_or ex_md ex_put.2).

Lemma ex_put_ok : ex_put = (ex_w1, Ok ex_md1).
Proof. apply ok_pair. vm_compute. reflexivity. Qed.


Lemma put_then_get_latest_witness :
  exists data rd, inputOf ex_in = Ok data /\ GetLatest ∅ ex_w1 ex_key = Ok (rd, ex_md1) /\
    reads_back (wBlobs ex_w1) rd data.
Proof.
  apply (put_then_get_latest (Sp := ex_sp) ex_cfg ex_w0 ex_key ex_md ex_in ex_w1 ex_md1 ∅ ex_ready).
  - exact I.
  - apply ex_put_ok.
  - intros v [x Hx]. change (memSnapsView (MkSnaps ∅) !! (ex_key, v) = Some x) in Hx.
    rewrite memSnaps_empty in Hx. discriminate Hx.
  - apply cache_ok_empty.
Defined.

Lemma ex_world_ok : world_ok ex_w0.
Proof.
  split.
  - intros k v b md Hx. change (memSnapsView (MkSnaps ∅) !! (k, v) = Some (b, md)) in Hx.
    rewrite memSnaps_empty in Hx. discriminate Hx.
  - intros dom h ref H. cbn in H. unfold inner in H. rewrite lookup_empty in H. cbn in H. by rewrite lookup_empty in H.
Qed.

Lemma put_preserves_world_witness : world_ok ex_w1.
Proof.
  apply (put_preserves_world (Sp := ex_sp) ex_cfg ex_w0 ex_key ex_md ex_in ex_w1 (Ok ex_md1) ex_world_ok ex_ready).
  - exact I.
  - apply ex_put_ok.
Defined.

Lemma Put_only_adds_witness : snaps (wUps ex_w0) ⊆ snaps (wUps ex_w1).
Proof.
  apply (Put_only_adds (Sp := ex_sp) ex_cfg ex_w0 ex_key ex_md ex_in ex_w1 (Ok ex_md1)). apply ex_put_ok.
Defined.

Lemma Put_completes_witness :
  (exists md', (ex_put).2 = Ok md') \/
  (index ex_cfg = GlobalIndex /\ (ex_put).2 = Err ErrPackObliterating).
Proof.
  pose proof (Put_completes (Sp := ex_sp) ex_cfg ex_w0 ex_key ex_md ex_in) as H.
  assert (Hin : inputOf ex_in = Ok ex_data) by (vm_compute; reflexivity). rewrite Hin in H.
  apply H; [right; right; reflexivity|apply ex_ready].
Defined.
