(* ===== verification/ManifestStore.v ===== *)
(** The snapshot store on Postgres (manifeststore/store.go).

    The table [slice_manifest] is a finite map from its primary key to the
    other columns.  The server is the class [PgServer]: how it orders text
    ([collate], the collation of the database, which the schema leaves to its
    default), what a [TIMESTAMPTZ] keeps of a time ([micros]), what a [JSONB]
    column keeps of a document ([jsonb]; [None] is a refusal), and
    encoding/json on a map of strings.  A statement that changes the table has
    one of three fates: it is refused, it is answered, or it takes effect and
    the answer is lost.  A query may break before or between rows.

    [manifest_history] relates any sequence of puts and deletes to a plain map
    of snapshots; [latest_batch_exact] says that the batched resolution gives
    what one query per key gives.  For a server whose collation is the byte
    order and whose columns keep what they are given, [pg_snaps] discharges
    the interface the chunked store is verified against, [pg_getter_ok] the
    one of its batched reads and [pg_walker_ok] the one of its collector. *)

From stdpp Require Import sorting.
From S2P Require Import Prelude GoStrings Sha256 PackFormat BlobStore Manifest SnapStore DedupIndex Reclaim ChunkedRead ChunkedWrite BatchGet.

Class PgServer := {
  collate : string -> string -> bool;
  micros : Z -> Z;
  jsonb : bytes -> option bytes;
  tags_Marshal : gmap string string -> bytes;
  tags_Unmarshal : bytes -> option (gmap string string);
}.

(** A collation is a strict total order, as a deterministic collation of
    Postgres is.  Tags that survive JSON are read back from the column. *)
Class PgServerLaws (P : PgServer) := {
  collate_irrefl : forall a, collate a a = false;
  collate_trans : forall a b c, collate a b = true -> collate b c = true -> collate a c = true;
  collate_total : forall a b, collate a b = false -> collate b a = false -> a = b;
  tags_safe : gmap string string -> Prop;
  tags_kept : forall tags b, tags_safe tags -> jsonb (tags_Marshal tags) = Some b -> b <> [] /\ tags_Unmarshal b = Some tags;
}.

Record pgRow := Row {
  created_at : Z; size_bytes : Z; rowRuntime : string; rowFormat : string; rowTags : option bytes; rowPayload : bytes }.

Abbreviation slice_manifest := (gmap (SnapshotKey * string) pgRow).

Inductive pgFate := PgDone | PgRefused (e : err) | PgLost (e : err).

(** The rows a query delivers, and the error that ends them. *)
Definition cutRows {A} (cut : option (nat * err)) (l : list A) : list A * option err :=
  match cut with
  | None => (l, None)
  | Some (n, e) => (take n l, Some e)
  end.

(** A statement, [f] its effect on the table; [None] where the server
    rejects it. *)
Definition execContext (ft : pgFate) (t : slice_manifest) (f : slice_manifest -> option slice_manifest) : slice_manifest * result unit :=
  match ft with
  | PgRefused e => (t, Err e)
  | PgDone => match f t with Some t' => (t', Ok tt) | None => (t, Err (EOther "constraint")) end
  | PgLost e => (default t (f t), Err e)
  end.

Definition insertManifest (k : SnapshotKey) (v : string) (r : pgRow) (t : slice_manifest) : option slice_manifest :=
  match t !! (k, v) with
  | Some _ => None
  | None => Some (<[(k, v) := r]> t)
  end.

(** Times count from Go's zero time. *)
Definition zeroTime : Z := 0.

Section ManifestStore.
  Context {P : PgServer}.

(** ** Tags *)

Definition marshalTags (tags : gmap string string) : option bytes :=
  if decide (tags = ∅) then None else Some (tags_Marshal tags).

Definition unmarshalTags (data : option bytes) : result (gmap string string) :=
  match data with
  | None | Some [] => Ok ∅
  | Some b => match tags_Unmarshal b with Some tags => Ok tags | None => Err (EOther "unmarshal tags") end
  end.

(** What the column holds of a marshalled document. *)
Definition tagsColumn (data : option bytes) : option (option bytes) :=
  match data with
  | None => Some None
  | Some b => Some <$> jsonb b
  end.

(** ** Rows *)

(** [scanRow], [scanRowWithVersion] and [scanMetaOnly] differ in the columns
    they ask for. *)
Definition scanMeta (k : SnapshotKey) (v : string) (r : pgRow) : result SnapshotMetadata :=
  tags ← unmarshalTags (rowTags r);
  Ok (MkMeta k v (created_at r) (size_bytes r) (rowRuntime r) (rowFormat r) tags).

Definition pgScanRow (k : SnapshotKey) (v : string) (r : pgRow) : result (SnapshotMetadata * bytes) :=
  md ← scanMeta k v r; Ok (md, rowPayload r).

(** The conservative reading of [Walk]: no tags where they do not decode. *)
Definition walkMeta (k : SnapshotKey) (v : string) (r : pgRow) : SnapshotMetadata :=
  MkMeta k v (created_at r) (size_bytes r) (rowRuntime r) (rowFormat r) (ok_or ∅ (unmarshalTags (rowTags r))).

(** ** Queries *)

(** [WHERE] on the four columns of a key. *)
Definition rowsOf (t : slice_manifest) (k : SnapshotKey) : list (string * pgRow) :=
  (fun x => (x.1.2, x.2)) <$> filter (fun x => x.1.1 = k) (map_to_list t).

Definition newer : relation (string * pgRow) := fun a b => collate a.1 b.1 = false.

#[export] Instance newer_dec a b : Decision (newer a b).
Proof. unfold newer. apply _. Defined.

(** [ORDER BY version DESC]. *)
Definition versionsDesc (t : slice_manifest) (k : SnapshotKey) : list (string * pgRow) := merge_sort newer (rowsOf t k).

(** ** Operations *)

(** The random suffix, the two readings of the clock and the stream are
    inputs. *)
Definition pgPut (ft : pgFate) (now : utcTime) (buf : bytes) (nowUTC : Z) (t : slice_manifest) (key : SnapshotKey) (meta : SnapshotMetadata) (r : result bytes)
  : slice_manifest * result SnapshotMetadata :=
  match r with
  | Err e => (t, Err e)
  | Ok payload =>
      let version := NewVersion now buf in
      let createdAt := if decide (CreatedAt meta = zeroTime) then nowUTC else CreatedAt meta in
      let meta := MkMeta key version createdAt (len payload) (Runtime meta) (mFormat meta) (Tags meta) in
      let '(t, res) := execContext ft t (fun t =>
        tagsJSON ← tagsColumn (marshalTags (Tags meta));
        insertManifest key version (Row (micros createdAt) (SizeBytes meta) (Runtime meta) (mFormat meta) tagsJSON payload) t) in
      (t, _ ← res; Ok meta)
  end.

(** [down] is the error of a query that fails. *)
Definition pgGet (down : option err) (t : slice_manifest) (key : SnapshotKey) (version : string) : result (bytes * SnapshotMetadata) :=
  match down with
  | Some e => Err e
  | None => match t !! (key, version) with
            | None => Err ErrNoSnapshot
            | Some r => '(meta, payload) ← pgScanRow key version r; Ok (payload, meta)
            end
  end.

Definition pgGetLatest (down : option err) (t : slice_manifest) (key : SnapshotKey) : result (bytes * SnapshotMetadata) :=
  match down with
  | Some e => Err e
  | None => match versionsDesc t key with
            | [] => Err ErrNoSnapshot
            | (v, r) :: _ => '(meta, payload) ← pgScanRow key v r; Ok (payload, meta)
            end
  end.

Definition pgGetLatestMetadata (down : option err) (t : slice_manifest) (key : SnapshotKey) : result SnapshotMetadata :=
  match down with
  | Some e => Err e
  | None => match versionsDesc t key with
            | [] => Err ErrNoSnapshot
            | (v, r) :: _ => scanMeta key v r
            end
  end.

Definition pgList (down : option err) (cut : option (nat * err)) (t : slice_manifest) (key : SnapshotKey) : result (list SnapshotMetadata) :=
  match down with
  | Some e => Err e
  | None => let '(rows, rerr) := cutRows cut (versionsDesc t key) in
            out ← mapR (fun x => scanMeta key x.1 x.2) rows;
            match rerr with Some e => Err e | None => Ok out end
  end.

Definition pgDelete (ft : pgFate) (t : slice_manifest) (key : SnapshotKey) (version : string) : slice_manifest * result unit :=
  execContext ft t (fun t => Some (delete (key, version) t)).

(** The rows yielded, in the order of the scan, and the error that ends them. *)
Definition pgWalk (down : option err) (cut : option (nat * err)) (t : slice_manifest) : list (SnapshotKey * string * SnapshotMetadata) * option err :=
  match down with
  | Some e => ([], Some e)
  | None => let '(rows, rerr) := cutRows cut (map_to_list t) in
            ((fun x => (x.1.1, x.1.2, walkMeta x.1.1 x.1.2 x.2)) <$> rows, rerr)
  end.

Definition pgWalkPayloads (down : option err) (cut : option (nat * err)) (t : slice_manifest) : list (SnapshotKey * string * SnapshotMetadata * bytes) * option err :=
  match down with
  | Some e => ([], Some e)
  | None => let '(rows, rerr) := cutRows cut (map_to_list t) in
            ((fun x => (x.1.1, x.1.2, walkMeta x.1.1 x.1.2 x.2, rowPayload x.2)) <$> rows, rerr)
  end.

(** ** Batched resolution *)

Definition part : Type := string * string * string.
Definition partOf (k : SnapshotKey) : part := (Tenant k, Workspace k, User k).
Definition keyIn (p : part) (owner : string) : SnapshotKey := MkKey p.1.1 p.1.2 p.2 owner.

(** Owner keys by partition, each key once. *)
Fixpoint groupKeys (keys : list SnapshotKey) (groups : gmap part (list string)) (seen : gset SnapshotKey) : gmap part (list string) :=
  match keys with
  | [] => groups
  | k :: keys =>
      if decide (k ∈ seen) then groupKeys keys groups seen
      else groupKeys keys (<[partOf k := default [] (groups !! partOf k) ++ [OwnerKey k]]> groups) ({[k]} ∪ seen)
  end.

(** [ORDER BY owner_key, version DESC] on rows of one partition. *)
Definition ownerRow : Type := string * (string * pgRow).
Definition owner_order : relation ownerRow := fun a b =>
  if decide (a.1 = b.1) then newer a.2 b.2 else collate a.1 b.1 = true.

#[export] Instance owner_order_dec a b : Decision (owner_order a b).
Proof. unfold owner_order. destruct (decide (a.1 = b.1)); apply _. Defined.

(** [DISTINCT ON (owner_key)]: the first row of each run. *)
Fixpoint distinctOn (prev : option string) (l : list ownerRow) : list ownerRow :=
  match l with
  | [] => []
  | x :: l => if decide (prev = Some x.1) then distinctOn prev l else x :: distinctOn (Some x.1) l
  end.

Definition partRows (t : slice_manifest) (p : part) (owners : list string) : list ownerRow :=
  (fun x => (OwnerKey x.1.1, (x.1.2, x.2))) <$> filter (fun x => partOf x.1.1 = p /\ OwnerKey x.1.1 ∈ owners) (map_to_list t).

Definition pgEntry : Type := SnapshotMetadata * bytes.

Fixpoint mergeRows (p : part) (rows : list ownerRow) (out : gmap SnapshotKey pgEntry) : result (gmap SnapshotKey pgEntry) :=
  match rows with
  | [] => Ok out
  | (owner, (v, r)) :: rows => x ← pgScanRow (keyIn p owner) v r; mergeRows p rows (<[keyIn p owner := x]> out)
  end.

(** A statement has at most 65535 parameters. *)
Definition maxParams : Z := 65535.

Definition getLatestPartition (down : option err) (cut : option (nat * err)) (t : slice_manifest) (p : part) (owners : list string)
  (out : gmap SnapshotKey pgEntry) : result (gmap SnapshotKey pgEntry) :=
  match down with
  | Some e => Err e
  | None =>
      if maxParams <? 3 + len owners then Err (EOther "extended protocol limited to 65535 parameters")
      else let '(rows, rerr) := cutRows cut (distinctOn None (merge_sort owner_order (partRows t p owners))) in
           out ← mergeRows p rows out;
           match rerr with Some e => Err e | None => Ok out end
  end.

Fixpoint partitions (answers : part -> option err * option (nat * err)) (t : slice_manifest) (groups : list (part * list string)) (out : gmap SnapshotKey pgEntry)
  : result (gmap SnapshotKey pgEntry) :=
  match groups with
  | [] => Ok out
  | (p, owners) :: groups => out ← getLatestPartition (answers p).1 (answers p).2 t p owners out; partitions answers t groups out
  end.

(** [order] is the order in which the map of partitions is ranged over. *)
Definition pgGetLatestBatch (order : list (part * list string) -> list (part * list string)) (answers : part -> option err * option (nat * err))
  (t : slice_manifest) (keys : list SnapshotKey) : result (gmap SnapshotKey pgEntry) :=
  match keys with
  | [] => Ok ∅
  | _ => partitions answers t (order (map_to_list (groupKeys keys ∅ ∅))) ∅
  end.


(** ** Laws of the queries *)

Context {PL : PgServerLaws P}.

Lemma rowsOf_in t k v r : (v, r) ∈ rowsOf t k <-> t !! (k, v) = Some r.
Proof.
  unfold rowsOf. rewrite list_elem_of_fmap. split.
  - intros ([[k' v'] r'] & [= -> ->] & [Hk H]%list_elem_of_filter). cbn in *. subst. by apply elem_of_map_to_list.
  - intros H. exists (k, v, r). split; [done|]. apply list_elem_of_filter. split; [done|]. by apply elem_of_map_to_list.
Qed.

Lemma collate_asym a b : collate a b = true -> collate b a = false.
Proof. intros H. destruct (collate b a) eqn:E; [|done]. by rewrite <- (collate_irrefl a), (collate_trans a b a). Qed.

Lemma collate_ge_trans a b c : collate a b = false -> collate b c = false -> collate a c = false.
Proof.
  intros H1 H2. destruct (collate a c) eqn:E; [|done]. destruct (collate b a) eqn:E2.
  - by rewrite (collate_trans b a c) in H2.
  - by rewrite (collate_total a b) in E by done; congruence.
Qed.

#[local] Instance newer_total : Total newer.
Proof. intros a b. unfold newer. destruct (collate a.1 b.1) eqn:E; [right; by apply collate_asym|by left]. Qed.

#[local] Instance newer_trans : Transitive newer.
Proof. intros a b c. apply collate_ge_trans. Qed.

(** The first row of [ORDER BY version DESC] is the greatest version. *)
Lemma latest_row t k v r l :
  versionsDesc t k = (v, r) :: l -> t !! (k, v) = Some r /\ forall w, is_Some (t !! (k, w)) -> collate v w = false.
Proof.
  unfold versionsDesc. intros H. pose proof (merge_sort_Permutation newer (rowsOf t k)) as Hp.
  pose proof (StronglySorted_merge_sort newer (rowsOf t k)) as Hs. rewrite H in Hp, Hs.
  split; [apply rowsOf_in; rewrite <- Hp; by left|]. intros w [r' Hw]. apply rowsOf_in in Hw. rewrite <- Hp in Hw.
  apply elem_of_cons in Hw as [[= -> ->]|Hw]; [apply collate_irrefl|]. inversion Hs as [|? ? _ Hall]; subst.
  rewrite Forall_forall in Hall. apply (Hall _ Hw).
Qed.

Lemma no_rows t k : versionsDesc t k = [] <-> forall v, t !! (k, v) = None.
Proof.
  unfold versionsDesc. pose proof (merge_sort_Permutation newer (rowsOf t k)) as Hp. split.
  - intros H v. rewrite H in Hp. destruct (t !! (k, v)) as [r|] eqn:E; [|done]. apply rowsOf_in in E.
    rewrite <- Hp in E. by apply elem_of_nil in E.
  - intros H. destruct (merge_sort newer (rowsOf t k)) as [|[v r] l]; [done|].
    assert (Hin : (v, r) ∈ rowsOf t k) by (rewrite <- Hp; by left). apply rowsOf_in in Hin. by rewrite H in Hin.
Qed.

(** The latest version in terms of the table. *)
Lemma latest_iff t k v r :
  (exists l, versionsDesc t k = (v, r) :: l) <-> t !! (k, v) = Some r /\ forall w, is_Some (t !! (k, w)) -> collate v w = false.
Proof.
  split; [intros [l H]; by eapply latest_row|]. intros [Hr Hmax].
  destruct (versionsDesc t k) as [|[v' r'] l] eqn:E; [by rewrite (proj1 (no_rows t k) E v) in Hr|].
  apply latest_row in E as [Hr' Hmax']. assert (v' = v) as ->; [|simplify_eq; eauto].
  apply collate_total; [by apply Hmax'; rewrite Hr|by apply Hmax; rewrite Hr'].
Qed.

(** ** The batched query *)

#[local] Instance owner_order_total : Total owner_order.
Proof.
  intros a b. unfold owner_order. destruct (decide (a.1 = b.1)) as [E|E].
  - rewrite decide_True by done. apply newer_total.
  - rewrite decide_False by (intros ?; by apply E). destruct (collate a.1 b.1) eqn:E1; [by left|right].
    destruct (collate b.1 a.1) eqn:E2; [done|]. by destruct E; apply collate_total.
Qed.

#[local] Instance owner_order_trans : Transitive owner_order.
Proof.
  intros [a x] [b y] [c z]. unfold owner_order. cbn. repeat case_decide; simplify_eq; try done.
  - apply newer_trans.
  - intros H2 H3. by rewrite (collate_asym _ _ H2) in H3.
  - apply collate_trans.
Qed.

Lemma distinctOn_in prev l x :
  StronglySorted owner_order l -> (forall o, prev = Some o -> forall y, y ∈ l -> y.1 = o \/ collate o y.1 = true) ->
  (forall y z, y ∈ l -> z ∈ l -> y.1 = z.1 -> y.2.1 = z.2.1 -> y = z) ->
  x ∈ distinctOn prev l <-> x ∈ l /\ prev <> Some x.1 /\ forall y, y ∈ l -> y.1 = x.1 -> newer x.2 y.2.
Proof.
  revert prev; induction l as [|x0 l IH]; intros prev Hs Hprev Huniq; cbn; [set_solver|].
  inversion Hs as [|? ? Hs' Hall]; subst. rewrite Forall_forall in Hall.
  assert (Huniq' : forall y z, y ∈ l -> z ∈ l -> y.1 = z.1 -> y.2.1 = z.2.1 -> y = z) by (intros; apply Huniq; by try right).
  destruct (decide (prev = Some x0.1)) as [E|E].
  - rewrite IH; [|done|intros o Ho y Hy; apply Hprev; [done|by right]|done]. rewrite E. split.
    + intros (Hx & Hne & Hmax). split_and!; [by right|done|]. intros y [->|Hy]%elem_of_cons He; [congruence|by apply Hmax].
    + intros ([->|Hx]%elem_of_cons & Hne & Hmax); [done|]. split_and!; [done|done|]. intros y Hy. apply Hmax. by right.
  - assert (Hnext : forall o, Some x0.1 = Some o -> forall y, y ∈ l -> y.1 = o \/ collate o y.1 = true).
    { intros o [= <-] y Hy. specialize (Hall y Hy). unfold owner_order in Hall. case_decide; [by left|by right]. }
    rewrite elem_of_cons, (IH _ Hs' Hnext Huniq'). clear IH. split.
    + intros [->|(Hx & Hne & Hmax)].
      * split_and!; [by left|done|]. intros y [->|Hy]%elem_of_cons He; [apply collate_irrefl|].
        specialize (Hall y Hy). unfold owner_order in Hall. by rewrite decide_True in Hall.
      * split_and!; [by right| |intros y [->|Hy]%elem_of_cons He; [congruence|by apply Hmax]].
        intros Hp. destruct (Hprev _ Hp x0) as [?|H1]; [by left|congruence|]. destruct (Hnext _ eq_refl x Hx) as [?|H2]; [congruence|].
        by rewrite (collate_asym _ _ H1) in H2.
    + intros ([->|Hx]%elem_of_cons & Hne & Hmax); [by left|]. destruct (decide (x.1 = x0.1)) as [E2|E2].
      * left. apply Huniq; [by right|by left|done|]. specialize (Hall x Hx). unfold owner_order in Hall. rewrite decide_True in Hall by done.
        apply collate_total; [by apply (Hmax x0); [left|]|done].
      * right. split_and!; [done|congruence|]. intros y Hy. apply Hmax. by right.
Qed.

Lemma distinctOn_nodup prev l :
  StronglySorted owner_order l -> (forall o, prev = Some o -> forall y, y ∈ l -> y.1 = o \/ collate o y.1 = true) ->
  (forall y z, y ∈ l -> z ∈ l -> y.1 = z.1 -> y.2.1 = z.2.1 -> y = z) -> NoDup (fst <$> distinctOn prev l).
Proof.
  revert prev; induction l as [|x0 l IH]; intros prev Hs Hprev Huniq; cbn; [constructor|].
  inversion Hs as [|? ? Hs' Hall]; subst. rewrite Forall_forall in Hall.
  assert (Huniq' : forall y z, y ∈ l -> z ∈ l -> y.1 = z.1 -> y.2.1 = z.2.1 -> y = z) by (intros; apply Huniq; by try right).
  destruct (decide (prev = Some x0.1)) as [E|E]; [apply IH; [done|intros o Ho y Hy; apply Hprev; [done|by right]|done]|].
  assert (Hnext : forall o, Some x0.1 = Some o -> forall y, y ∈ l -> y.1 = o \/ collate o y.1 = true).
  { intros o [= <-] y Hy. specialize (Hall y Hy). unfold owner_order in Hall. case_decide; [by left|by right]. }
  rewrite fmap_cons. constructor; [|by apply IH]. intros (y & Hy & Hin)%list_elem_of_fmap.
  apply (distinctOn_in _ _ _ Hs' Hnext Huniq') in Hin as (_ & Hne & _). congruence.
Qed.


(** The rows of one partition's query. *)
Definition latestRows (t : slice_manifest) (p : part) (owners : list string) : list ownerRow :=
  distinctOn None (merge_sort owner_order (partRows t p owners)).

Lemma keyIn_of k : keyIn (partOf k) (OwnerKey k) = k.
Proof. by destruct k. Qed.

Lemma partRows_in t p owners o v r : (o, (v, r)) ∈ partRows t p owners <-> o ∈ owners /\ t !! (keyIn p o, v) = Some r.
Proof.
  unfold partRows. rewrite list_elem_of_fmap. split.
  - intros ([[k v'] r'] & [= -> -> ->] & [[<- Ho] H]%list_elem_of_filter). cbn in *. rewrite keyIn_of.
    split; [done|]. by apply elem_of_map_to_list.
  - intros [Ho H]. exists (keyIn p o, v, r). split; [done|]. apply list_elem_of_filter. split; [|by apply elem_of_map_to_list].
    destruct p as [[a b] c]. done.
Qed.

Lemma partRows_unique t p owners y z :
  y ∈ merge_sort owner_order (partRows t p owners) -> z ∈ merge_sort owner_order (partRows t p owners) ->
  y.1 = z.1 -> y.2.1 = z.2.1 -> y = z.
Proof.
  rewrite !merge_sort_Permutation. destruct y as [o [v r]], z as [o' [v' r']]. cbn. intros [_ H1]%partRows_in [_ H2]%partRows_in -> ->.
  by simplify_eq.
Qed.

Lemma latestRows_in t p owners o v r :
  (o, (v, r)) ∈ latestRows t p owners <-> o ∈ owners /\ exists l, versionsDesc t (keyIn p o) = (v, r) :: l.
Proof.
  unfold latestRows. rewrite latest_iff, distinctOn_in; [|apply (StronglySorted_merge_sort _)|done|apply partRows_unique].
  rewrite merge_sort_Permutation, partRows_in. cbn. split.
  - intros ((Ho & Hr) & _ & Hmax). split_and!; [done..|]. intros w [r' Hw]. apply (Hmax (o, (w, r'))); [|done].
    rewrite merge_sort_Permutation. by apply partRows_in.
  - intros (Ho & Hr & Hmax). split_and!; [done..|]. intros [o' [w r']] Hin He. cbn in He. subst o'. rewrite merge_sort_Permutation in Hin.
    apply partRows_in in Hin as [_ Hw]. apply (Hmax w). by rewrite Hw.
Qed.

Lemma latestRows_nodup t p owners : NoDup (fst <$> latestRows t p owners).
Proof. apply distinctOn_nodup; [apply (StronglySorted_merge_sort _)|done|apply partRows_unique]. Qed.

Lemma mergeRows_in p rows : forall out out', NoDup (fst <$> rows) -> mergeRows p rows out = Ok out' -> forall k x,
  out' !! k = Some x <->
  (exists o v r, (o, (v, r)) ∈ rows /\ k = keyIn p o /\ pgScanRow k v r = Ok x) \/
  ((forall o y, (o, y) ∈ rows -> k <> keyIn p o) /\ out !! k = Some x).
Proof.
  induction rows as [|[o [v r]] rows IH]; intros out out'; cbn.
  - intros _ [= <-] k x. split; [|set_solver]. intros H. right. split; [|done]. intros ? ? []%elem_of_nil.
  - intros HN Hm k x. inversion HN as [|? ? Ho HN']; subst. apply bind_ok in Hm as (y & Hy & Hm). rewrite (IH _ _ HN' Hm k x). clear IH Hm.
    destruct (decide (k = keyIn p o)) as [->|Hne].
    + rewrite lookup_insert_eq. split.
      * intros [(o' & v' & r' & Hin & He & Hx)|[_ [= ->]]]; [|left; exists o, v, r; by split_and!; [left| |]].
        left. exists o', v', r'. split_and!; [by right|done|done].
      * intros [(o' & v' & r' & Hin & He & Hx)|[Hno _]]; [|by destruct (Hno o (v, r)); [left|]].
        apply elem_of_cons in Hin as [[= -> -> ->]|Hin]; [|left; eauto 10].
        right. split; [|congruence]. intros o' y' Hin [= <-]. apply Ho, list_elem_of_fmap. by exists (o, y').
    + rewrite lookup_insert_ne by done. split.
      * intros [(o' & v' & r' & Hin & He & Hx)|[Hno Hx]]; [left; exists o', v', r'; split_and!; [by right|done..]|].
        right. split; [|done]. intros o' y' [[= -> ->]|Hin]%elem_of_cons; [done|by eapply Hno].
      * intros [(o' & v' & r' & Hin & He & Hx)|[Hno Hx]]; [|right; split; [|done]; intros o' y' Hin; eapply Hno; by right].
        apply elem_of_cons in Hin as [[= -> -> ->]|Hin]; [done|left; eauto 10].
Qed.

(** What one query per key gives. *)
Definition latestEntry (t : slice_manifest) (k : SnapshotKey) (x : pgEntry) : Prop := pgGetLatest None t k = Ok (x.2, x.1).

Lemma latestEntry_iff t k x : latestEntry t k x <-> exists v r l, versionsDesc t k = (v, r) :: l /\ pgScanRow k v r = Ok x.
Proof.
  unfold latestEntry, pgGetLatest. destruct x as [md0 b0]. cbn. destruct (versionsDesc t k) as [|[v r] l].
  - split; [done|]. by intros (? & ? & ? & ? & ?).
  - destruct (pgScanRow k v r) as [[md b]|e] eqn:E; cbn; split.
    + intros [= <- <-]. exists v, r, l. by rewrite E.
    + intros (v' & r' & l' & [= <- <- <-] & H). rewrite E in H. by injection H as <- <-.
    + done.
    + intros (v' & r' & l' & [= <- <- <-] & H). by rewrite E in H.
Qed.

Lemma partition_in down cut t p owners out out' :
  (forall o, out !! keyIn p o = None) -> getLatestPartition down cut t p owners out = Ok out' -> forall k x,
  out' !! k = Some x <-> out !! k = Some x \/ (partOf k = p /\ OwnerKey k ∈ owners /\ latestEntry t k x).
Proof.
  unfold getLatestPartition. destruct down; [done|]. destruct (maxParams <? _); [done|]. fold (latestRows t p owners).
  intros Hout H k x. assert (mergeRows p (latestRows t p owners) out = Ok out') as Hm.
  { destruct cut as [[n e]|]; cbn in H; apply bind_ok in H as (y & Hy & H); [done|congruence]. }
  rewrite (mergeRows_in p _ _ _ (latestRows_nodup t p owners) Hm k x). setoid_rewrite latestRows_in. setoid_rewrite latestEntry_iff. split.
  - intros [(o & v & r & (Ho & l & Hl) & -> & Hx)|[_ Hx]]; [|by left]. right. destruct p as [[? ?] ?]. cbn in *. eauto 10.
  - intros [Hx|(Hp & Ho & v & r & l & Hl & Hx)].
    + right. split; [|done]. intros o y _ ->. by rewrite Hout in Hx.
    + left. exists (OwnerKey k), v, r. rewrite <- Hp, keyIn_of. eauto 10.
Qed.

Lemma partitions_in answers t groups : forall out out', NoDup (fst <$> groups) ->
  (forall p owners, (p, owners) ∈ groups -> forall o, out !! keyIn p o = None) ->
  partitions answers t groups out = Ok out' -> forall k x,
  out' !! k = Some x <-> out !! k = Some x \/ (exists owners, (partOf k, owners) ∈ groups /\ OwnerKey k ∈ owners /\ latestEntry t k x).
Proof.
  induction groups as [|[p owners] groups IH]; intros out out'; cbn.
  { intros _ _ [= <-] k x. split; [by left|]. intros [?|(? & []%elem_of_nil & _)]; done. }
  intros HN Hout H k x. inversion HN as [|? ? Hp HN']; subst. apply bind_ok in H as (out1 & H1 & H).
  pose proof (partition_in _ _ _ _ _ _ _ (Hout p owners ltac:(by left)) H1) as Hpart. rewrite (IH out1 out' HN'); [|..|exact H].
  - rewrite Hpart. setoid_rewrite elem_of_cons. split.
    + intros [[?|(<- & Ho & He)]|(ow & Hin & Ho & He)]; [by left|right; eauto 10..].
    + intros [?|(ow & [[= -> ->]|Hin] & Ho & He)]; [by left; left|by left; right|right; eauto 10].
  - intros q ow Hin o. destruct (out1 !! keyIn q o) as [y|] eqn:E; [|done]. apply Hpart in E as [E|(E & _)].
    + rewrite (Hout q ow) in E; [done|by right].
    + destruct Hp. apply list_elem_of_fmap. exists (q, ow). split; [|done]. rewrite <- E. by destruct q as [[? ?] ?].
Qed.

Lemma groupKeys_in keys : forall groups seen k,
  (forall k, k ∈ seen <-> exists owners, groups !! partOf k = Some owners /\ OwnerKey k ∈ owners) ->
  (exists owners, groupKeys keys groups seen !! partOf k = Some owners /\ OwnerKey k ∈ owners) <-> k ∈ seen \/ k ∈ keys.
Proof.
  induction keys as [|k0 keys IH]; intros groups seen k Hg; cbn; [rewrite <- Hg; set_solver|].
  case_decide as Hs; [rewrite IH by done; set_solver|]. rewrite IH; [set_solver|]. clear k. intros k.
  rewrite elem_of_union, elem_of_singleton, Hg. destruct (decide (partOf k = partOf k0)) as [E|E].
  - rewrite E, lookup_insert_eq. split.
    + intros [->|(ow & Hw & Ho)]; eexists; (split; [done|]); [set_solver|]. rewrite Hw. set_solver.
    + intros (ow & [= <-] & [Ho|Ho%list_elem_of_singleton]%elem_of_app); [|by left; rewrite <- (keyIn_of k), <- (keyIn_of k0), E, Ho].
      right. destruct (groups !! partOf k0) as [ow|]; [eauto|]. by apply elem_of_nil in Ho.
  - rewrite lookup_insert_ne by (intros ?; by apply E). split; [|by right]. intros [->|?]; [done|done].
Qed.

Lemma batch_in order answers t keys m :
  (forall l, order l ≡ₚ l) -> pgGetLatestBatch order answers t keys = Ok m ->
  forall k x, m !! k = Some x <-> k ∈ keys /\ latestEntry t k x.
Proof.
  intros Hord H k x. assert (partitions answers t (order (map_to_list (groupKeys keys ∅ ∅))) ∅ = Ok m) as Hp.
  { destruct keys; [|done]. injection H as <-. pose proof (Hord []) as Hn. apply Permutation_nil_r in Hn. cbn [groupKeys]. by rewrite map_to_list_empty, Hn. }
  assert (HN : NoDup (fst <$> order (map_to_list (groupKeys keys ∅ ∅)))) by (rewrite Hord; apply NoDup_fst_map_to_list).
  rewrite (partitions_in _ _ _ _ _ HN ltac:(intros; apply lookup_empty) Hp k x).
  rewrite lookup_empty. setoid_rewrite Hord. setoid_rewrite elem_of_map_to_list.
  pose proof (groupKeys_in keys ∅ ∅ k) as Hg. split.
  - intros [?|(ow & Hl & Ho & He)]; [done|]. split; [|done]. destruct Hg as [Hg _]; [|destruct Hg as [?|?]; [eauto|set_solver|done]].
    intros k'. setoid_rewrite lookup_empty. set_solver.
  - intros [Hk He]. destruct Hg as [_ Hg]; [|destruct Hg as (ow & Hl & Ho); [by right|eauto 10]].
    intros k'. setoid_rewrite lookup_empty. set_solver.
Qed.


Lemma mergeRows_total p rows out : (forall o v r, (o, (v, r)) ∈ rows -> is_ok (pgScanRow (keyIn p o) v r) = true) -> is_ok (mergeRows p rows out) = true.
Proof.
  revert out; induction rows as [|[o [v r]] rows IH]; intros out H; cbn; [done|].
  assert (Hx : is_ok (pgScanRow (keyIn p o) v r) = true) by (apply H; by left). destruct (pgScanRow (keyIn p o) v r); [|done]. cbn.
  apply IH. intros o' v' r' Hin. apply H. by right.
Qed.

Lemma partitions_total answers t groups out :
  (forall p, answers p = (None, None)) -> (forall p ow, (p, ow) ∈ groups -> 3 + len ow <= maxParams) ->
  (forall p ow o e, (p, ow) ∈ groups -> o ∈ ow -> pgGetLatest None t (keyIn p o) = Err e -> e = ErrNoSnapshot) ->
  is_ok (partitions answers t groups out) = true.
Proof.
  intros Hup. revert out; induction groups as [|[p ow] groups IH]; intros out Hlen Hok; cbn -[maxParams]; [done|].
  unfold getLatestPartition. rewrite Hup. cbn -[maxParams]. destruct (Z.ltb_spec maxParams (3 + len ow)) as [Hl|_].
  { specialize (Hlen p ow ltac:(by left)). lia. }
  assert (Hm : is_ok (mergeRows p (latestRows t p ow) out) = true).
  { apply mergeRows_total. intros o v r [Ho [l Hl]]%latestRows_in. specialize (Hok p ow o). unfold pgGetLatest in Hok. rewrite Hl in Hok.
    destruct (pgScanRow (keyIn p o) v r) as [x|e] eqn:E; [done|]. specialize (Hok e ltac:(by left) Ho eq_refl). subst.
    unfold pgScanRow, scanMeta, unmarshalTags in E. by destruct (rowTags r) as [[|c b]|]; cbn in E; [..|destruct (tags_Unmarshal (c :: b))|]. }
  fold (latestRows t p ow). destruct (mergeRows p (latestRows t p ow) out); [|done]. cbn -[maxParams].
  apply IH; intros; [eapply Hlen; by right|eapply Hok; [by right|done|done]].
Qed.

Lemma groupKeys_len keys : forall groups seen p,
  (length (default [] (groupKeys keys groups seen !! p)) <= length (default [] (groups !! p)) + length keys)%nat.
Proof.
  induction keys as [|k keys IH]; intros groups seen p; cbn; [lia|]. case_decide; [specialize (IH groups seen p); lia|].
  etrans; [apply IH|]. destruct (decide (partOf k = p)) as [->|Hne].
  - rewrite lookup_insert_eq. cbn. rewrite length_app. cbn. lia.
  - rewrite lookup_insert_ne by done. lia.
Qed.

(** C31: The batched resolution of latest manifests gives exactly what one
    query per key gives: an entry for a key, with its payload and metadata, if
    and only if the key was asked for and [GetLatest] returns them, whatever
    the order in which partitions are queried.  When the server answers every
    query, the batch is within the parameter limit of a statement and no
    latest row has tags that do not decode, the batch succeeds. *)
Theorem latest_batch_exact order answers t keys :
  (forall l, order l ≡ₚ l) ->
  (forall m, pgGetLatestBatch order answers t keys = Ok m -> forall k md b,
     m !! k = Some (md, b) <-> k ∈ keys /\ pgGetLatest None t k = Ok (b, md)) /\
  ((forall p, answers p = (None, None)) -> 3 + len keys <= maxParams ->
   (forall k e, k ∈ keys -> pgGetLatest None t k = Err e -> e = ErrNoSnapshot) ->
   is_ok (pgGetLatestBatch order answers t keys) = true).
Proof.
  intros Hord. split; [intros m H k md b; apply (batch_in _ _ _ _ _ Hord H)|]. intros Hup Hlen Hok.
  unfold pgGetLatestBatch. destruct keys as [|k0 ks] eqn:E; [done|]. rewrite <- E in *. clear E. apply partitions_total; [done|..].
  - intros p ow Hin. rewrite Hord in Hin. apply elem_of_map_to_list in Hin. pose proof (groupKeys_len keys ∅ ∅ p) as Hl.
    rewrite Hin, lookup_empty in Hl. change (length ow <= 0 + length keys)%nat in Hl. unfold len in *. lia.
  - intros p ow o e Hin Ho. rewrite Hord in Hin. apply elem_of_map_to_list in Hin. apply Hok.
    assert (Hp : partOf (keyIn p o) = p) by by destruct p as [[? ?] ?].
    destruct (groupKeys_in keys ∅ ∅ (keyIn p o)) as [Hg _]; [intros k'; setoid_rewrite lookup_empty; set_solver|].
    destruct Hg as [?|?]; [|set_solver|done]. exists ow. by rewrite Hp.
Qed.


(** ** The table as a map of snapshots *)

Abbreviation snapshots := (gmap (SnapshotKey * string) (bytes * SnapshotMetadata)).

Definition viewRow (kv : SnapshotKey * string) (r : pgRow) : option (bytes * SnapshotMetadata) :=
  Some (rowPayload r, walkMeta kv.1 kv.2 r).

Definition pgView (t : slice_manifest) : snapshots := map_imap viewRow t.

Lemma pgView_lookup t k v : pgView t !! (k, v) = (fun r => (rowPayload r, walkMeta k v r)) <$> t !! (k, v).
Proof. unfold pgView. rewrite map_lookup_imap. by destruct (t !! (k, v)). Qed.

Lemma pgView_some t k v : is_Some (pgView t !! (k, v)) <-> is_Some (t !! (k, v)).
Proof. rewrite pgView_lookup. by rewrite fmap_is_Some. Qed.

Lemma pgView_insert t k v r : pgView (<[(k, v) := r]> t) = <[(k, v) := (rowPayload r, walkMeta k v r)]> (pgView t).
Proof.
  apply map_eq. intros [k' v']. rewrite pgView_lookup. destruct (decide ((k', v') = (k, v))) as [[= -> ->]|Hne].
  - by rewrite !lookup_insert_eq.
  - by rewrite !lookup_insert_ne, pgView_lookup by done.
Qed.

Lemma pgView_delete t k v : pgView (delete (k, v) t) = delete (k, v) (pgView t).
Proof.
  apply map_eq. intros [k' v']. rewrite pgView_lookup. destruct (decide ((k', v') = (k, v))) as [[= -> ->]|Hne].
  - by rewrite !lookup_delete_eq.
  - by rewrite !lookup_delete_ne, pgView_lookup by done.
Qed.

(** Every row's tags decode. *)
Definition tagsOk (t : slice_manifest) : Prop := map_Forall (fun _ r => is_ok (unmarshalTags (rowTags r)) = true) t.

Lemma pgScan_ok t k v r : tagsOk t -> t !! (k, v) = Some r -> pgScanRow k v r = Ok (walkMeta k v r, rowPayload r).
Proof.
  intros Ht Hr. specialize (Ht (k, v) r Hr). cbn in Ht. unfold pgScanRow, scanMeta, walkMeta. by destruct (unmarshalTags (rowTags r)).
Qed.

(** A metadata record as [Put] stamps it, and as the table keeps it. *)
Definition stampPut (now : utcTime) (buf : bytes) (nowUTC : Z) (key : SnapshotKey) (meta : SnapshotMetadata) (payload : bytes) : SnapshotMetadata :=
  MkMeta key (NewVersion now buf) (if decide (CreatedAt meta = zeroTime) then nowUTC else CreatedAt meta) (len payload)
    (Runtime meta) (mFormat meta) (Tags meta).

Definition pgKept (meta : SnapshotMetadata) : SnapshotMetadata :=
  MkMeta (mKey meta) (Version meta) (micros (CreatedAt meta)) (SizeBytes meta) (Runtime meta) (mFormat meta) (Tags meta).

(** A column written from tags that survive JSON reads back as them. *)
Lemma column_kept tags j : tags_safe tags -> tagsColumn (marshalTags tags) = Some j -> unmarshalTags j = Ok tags.
Proof.
  unfold tagsColumn, marshalTags. intros Hs. case_decide as Ht; [intros [= <-]; by rewrite Ht|].
  intros (b & Hb & ->)%fmap_Some. destruct (tags_kept tags b Hs Hb) as [Hne Hu]. unfold unmarshalTags. rewrite Hu. by destruct b.
Qed.

(** The row a put inserts, if the server takes it. *)
Lemma insert_effect (now : utcTime) (buf : bytes) (nowUTC : Z) (key : SnapshotKey) (meta : SnapshotMetadata) (payload : bytes) (j : option bytes) (t t' : slice_manifest) :
  let md := stampPut now buf nowUTC key meta payload in
  tags_safe (Tags meta) -> tagsOk t -> tagsColumn (marshalTags (Tags meta)) = Some j ->
  insertManifest key (Version md) (Row (micros (CreatedAt md)) (SizeBytes md) (Runtime md) (mFormat md) j payload) t = Some t' ->
  pgView t !! (key, Version md) = None /\ pgView t' = <[(key, Version md) := (payload, pgKept md)]> (pgView t) /\ tagsOk t'.
Proof.
  intros md Hs Ht Hj Hi. apply column_kept in Hj; [|done]. unfold insertManifest in Hi.
  destruct (t !! (key, Version md)) eqn:E; [done|]. injection Hi as <-. split; [by rewrite pgView_lookup, E|]. split.
  - rewrite pgView_insert. unfold walkMeta. cbn [rowTags rowPayload created_at size_bytes rowRuntime rowFormat]. by rewrite Hj.
  - apply map_Forall_insert_2; [|done]. cbn. by rewrite Hj.
Qed.

(** ** Refinement *)

Inductive pgOp :=
| DoPut (ft : pgFate) (now : utcTime) (buf : bytes) (nowUTC : Z) (key : SnapshotKey) (meta : SnapshotMetadata) (r : result bytes)
| DoDelete (ft : pgFate) (key : SnapshotKey) (version : string)
| DoGet (down : option err) (key : SnapshotKey) (version : string)
| DoGetLatest (down : option err) (key : SnapshotKey).

Inductive pgAnswer :=
| AnsMeta (r : result SnapshotMetadata)
| AnsUnit (r : result unit)
| AnsSnap (r : result (bytes * SnapshotMetadata)).

Definition pgStep (t : slice_manifest) (op : pgOp) : slice_manifest * pgAnswer :=
  match op with
  | DoPut ft now buf nowUTC key meta r => let '(t, a) := pgPut ft now buf nowUTC t key meta r in (t, AnsMeta a)
  | DoDelete ft key version => let '(t, a) := pgDelete ft t key version in (t, AnsUnit a)
  | DoGet down key version => (t, AnsSnap (pgGet down t key version))
  | DoGetLatest down key => (t, AnsSnap (pgGetLatest down t key))
  end.

Fixpoint pgRun (t : slice_manifest) (ops : list pgOp) : slice_manifest * list pgAnswer :=
  match ops with
  | [] => (t, [])
  | op :: ops => let '(t, a) := pgStep t op in let '(t, l) := pgRun t ops in (t, a :: l)
  end.

(** What an operation on a map of snapshots may answer and leave behind. *)
Definition allowed (m : snapshots) (op : pgOp) (a : pgAnswer) (m' : snapshots) : Prop :=
  match op, a with
  | DoPut ft now buf nowUTC key meta r, AnsMeta res =>
      let stored := exists b, r = Ok b /\ let md := stampPut now buf nowUTC key meta b in
        m !! (key, Version md) = None /\ m' = <[(key, Version md) := (b, pgKept md)]> m in
      match res with
      | Ok md => stored /\ exists b, r = Ok b /\ md = stampPut now buf nowUTC key meta b
      | Err _ => m' = m \/ ((exists e, ft = PgLost e) /\ stored)
      end
  | DoDelete ft key version, AnsUnit res =>
      match res with
      | Ok _ => m' = delete (key, version) m
      | Err _ => m' = m \/ ((exists e, ft = PgLost e) /\ m' = delete (key, version) m)
      end
  | DoGet down key version, AnsSnap res =>
      m' = m /\ match down with
                | Some e => res = Err e
                | None => res = match m !! (key, version) with Some x => Ok x | None => Err ErrNoSnapshot end
                end
  | DoGetLatest down key, AnsSnap res =>
      m' = m /\ match down, res with
                | Some e, _ => res = Err e
                | None, Ok (b, md) => m !! (key, Version md) = Some (b, md) /\ forall v, is_Some (m !! (key, v)) -> collate (Version md) v = false
                | None, Err e => e = ErrNoSnapshot /\ forall v, m !! (key, v) = None
                end
  | _, _ => False
  end.

Inductive allowedRun : snapshots -> list pgOp -> list pgAnswer -> snapshots -> Prop :=
| allowed_nil m : allowedRun m [] [] m
| allowed_cons m op a m1 ops l m2 : allowed m op a m1 -> allowedRun m1 ops l m2 -> allowedRun m (op :: ops) (a :: l) m2.

Definition safeOp (op : pgOp) : Prop :=
  match op with DoPut _ _ _ _ _ meta _ => tags_safe (Tags meta) | _ => True end.

Lemma pgPut_allowed ft now buf nowUTC t key meta r t' a :
  tagsOk t -> tags_safe (Tags meta) -> pgPut ft now buf nowUTC t key meta r = (t', a) ->
  tagsOk t' /\ allowed (pgView t) (DoPut ft now buf nowUTC key meta r) (AnsMeta a) (pgView t').
Proof.
  intros Ht Hs. destruct r as [b|e]; cbn [pgPut]; [|intros [= <- <-]; split; [done|by left]].
  fold (stampPut now buf nowUTC key meta b). pose proof (insert_effect now buf nowUTC key meta b) as Heff. cbn zeta in Heff.
  cbn [allowed]. set (md := stampPut now buf nowUTC key meta b) in *.
  set (f := fun t : slice_manifest => _ : option slice_manifest).
  assert (Hf : forall t1, f t = Some t1 -> tagsOk t1 /\ pgView t !! (key, Version md) = None /\ pgView t1 = <[(key, Version md) := (b, pgKept md)]> (pgView t)).
  { intros t1 H1. unfold f in H1. destruct (tagsColumn _) as [j|] eqn:Ej; [|done].
    destruct (Heff j t t1 Hs Ht eq_refl H1) as (? & ? & ?). done. }
  destruct ft as [|e|e]; cbn [execContext].
  - destruct (f t) as [t1|] eqn:E; intros [= <- <-]; [|split; [done|by left]].
    destruct (Hf t1 eq_refl) as (H1 & H2 & H3). split; [done|]. split; [|by exists b]. exists b. done.
  - intros [= <- <-]. split; [done|by left].
  - destruct (f t) as [t1|] eqn:E; intros [= <- <-]; [|split; [done|by left]].
    destruct (Hf t1 eq_refl) as (H1 & H2 & H3). split; [done|]. right. split; [by exists e|]. exists b. done.
Qed.

Lemma pgDelete_allowed ft t key version t' a :
  tagsOk t -> pgDelete ft t key version = (t', a) -> tagsOk t' /\ allowed (pgView t) (DoDelete ft key version) (AnsUnit a) (pgView t').
Proof.
  intros Ht. assert (Hd : tagsOk (delete (key, version) t)) by by apply map_Forall_delete.
  unfold pgDelete. destruct ft as [|e|e]; cbn; intros [= <- <-]; rewrite ?pgView_delete; split; try done; [by left|].
  right. split; [by exists e|done].
Qed.

Lemma pgGet_view t k v : tagsOk t -> pgGet None t k v = match pgView t !! (k, v) with Some x => Ok x | None => Err ErrNoSnapshot end.
Proof.
  intros Ht. unfold pgGet. rewrite pgView_lookup. destruct (t !! (k, v)) as [r|] eqn:E; [|done].
  by rewrite (pgScan_ok t k v r Ht E).
Qed.

Lemma pgGetLatest_view t k : tagsOk t ->
  match pgGetLatest None t k with
  | Ok (b, md) => pgView t !! (k, Version md) = Some (b, md) /\ forall v, is_Some (pgView t !! (k, v)) -> collate (Version md) v = false
  | Err e => e = ErrNoSnapshot /\ forall v, pgView t !! (k, v) = None
  end.
Proof.
  intros Ht. unfold pgGetLatest. destruct (versionsDesc t k) as [|[v r] l] eqn:E.
  - split; [done|]. intros v. by rewrite pgView_lookup, (proj1 (no_rows t k) E v).
  - apply latest_row in E as [Hr Hmax]. rewrite (pgScan_ok t k v r Ht Hr). cbn. rewrite pgView_lookup, Hr. split; [done|].
    intros w Hw. apply Hmax. by apply pgView_some.
Qed.

(** C30: The table implements a map of snapshots.  Over any sequence of puts,
    deletes, reads and latest-reads, with statements refused or their answers
    lost and queries that fail, every answer is one the map allows: a put
    that is answered adds a version that was not there, with the payload and
    the stamped metadata at the precision of the columns; a failed put or
    delete changes nothing unless its answer was lost; a read returns the
    stored payload; the latest is the greatest version in the collation. *)
Theorem pg_refines ops t t' l :
  tagsOk t -> Forall safeOp ops -> pgRun t ops = (t', l) -> tagsOk t' /\ allowedRun (pgView t) ops l (pgView t').
Proof.
  intros Ht Hs. revert t t' l Ht; induction Hs as [|op ops Hop _ IH]; intros t t' l Ht; cbn; [intros [= <- <-]; by split; [|constructor]|].
  destruct (pgStep t op) as [t1 a] eqn:E1. destruct (pgRun t1 ops) as [t2 l2] eqn:E2. intros [= <- <-].
  assert (Ha : tagsOk t1 /\ allowed (pgView t) op a (pgView t1)).
  { destruct op as [ft now buf nowUTC key meta r|ft key v|down key v|down key]; cbn [pgStep] in E1.
    - destruct (pgPut ft now buf nowUTC t key meta r) eqn:Ep. injection E1 as <- <-. by apply pgPut_allowed.
    - destruct (pgDelete ft t key v) eqn:Ep. injection E1 as <- <-. by apply pgDelete_allowed.
    - injection E1 as <- <-. cbn. split_and!; [done|done|]. destruct down; [done|by apply pgGet_view].
    - injection E1 as <- <-. cbn. split_and!; [done|done|]. destruct down; [done|]. by apply pgGetLatest_view. }
  destruct Ha as [H1 H2]. destruct (IH _ _ _ H1 E2) as [H3 H4]. split; [done|]. by econstructor.
Qed.

End ManifestStore.

(** ** The store behind the snapshot interface *)

(** A database with the byte order as its collation, times of whole
    microseconds and tags that are valid JSON strings. *)
Class PgExact (P : PgServer) {PL : PgServerLaws P} : Prop := {
  exact_collate : forall a b, collate a b = str_ltb a b;
  exact_micros : forall z, micros z = z;
  exact_tags : forall tags, tags_safe tags;
}.

(** What the server and the clocks do at the n-th statement: the statement
    refused, the query failed before or between rows. *)
Record pgSchedule := Schedule {
  sRefuse : nat -> option err; sDown : nat -> option err; sCut : nat -> option (nat * err);
  sNow : nat -> utcTime; sRand : nat -> bytes; sNowUTC : nat -> Z }.

Section Interface.
  Context {P : PgServer} {PL : PgServerLaws P} {PE : PgExact P} (sch : pgSchedule).

Definition pgStore : Type := { x : slice_manifest * nat | tagsOk x.1 }.

Definition tableOf (u : pgStore) : slice_manifest := (proj1_sig u).1.
Definition tickOf (u : pgStore) : nat := (proj1_sig u).2.
Definition fateOf (refuse : option err) : pgFate := match refuse with Some e => PgRefused e | None => PgDone end.

Lemma tableOf_ok u : tagsOk (tableOf u).
Proof. apply (proj2_sig u). Qed.

Definition putNext (u : pgStore) (k : SnapshotKey) (md : SnapshotMetadata) (b : bytes) : slice_manifest * result SnapshotMetadata :=
  let n := tickOf u in pgPut (fateOf (sRefuse sch n)) (sNow sch n) (sRand sch n) (sNowUTC sch n) (tableOf u) k md (Ok b).

Definition deleteNext (u : pgStore) (k : SnapshotKey) (v : string) : slice_manifest * result unit :=
  pgDelete (fateOf (sRefuse sch (tickOf u))) (tableOf u) k v.

Lemma putNext_allowed u k md b :
  tagsOk (putNext u k md b).1 /\
  allowed (pgView (tableOf u))
    (DoPut (fateOf (sRefuse sch (tickOf u))) (sNow sch (tickOf u)) (sRand sch (tickOf u)) (sNowUTC sch (tickOf u)) k md (Ok b))
    (AnsMeta (putNext u k md b).2) (pgView (putNext u k md b).1).
Proof.
  apply (pgPut_allowed (fateOf (sRefuse sch (tickOf u))) (sNow sch (tickOf u)) (sRand sch (tickOf u)) (sNowUTC sch (tickOf u)) (tableOf u) k md (Ok b));
    [apply tableOf_ok|apply exact_tags|]. unfold putNext. by destruct (pgPut _ _ _ _ _ _ _ _).
Qed.

Lemma deleteNext_allowed u k v :
  tagsOk (deleteNext u k v).1 /\
  allowed (pgView (tableOf u)) (DoDelete (fateOf (sRefuse sch (tickOf u))) k v) (AnsUnit (deleteNext u k v).2) (pgView (deleteNext u k v).1).
Proof. apply pgDelete_allowed; [apply tableOf_ok|]. unfold deleteNext. by destruct (pgDelete _ _ _ _). Qed.

#[export] Instance pg_snaps : SnapshotStore := {|
  sstore := pgStore;
  sPut := fun u k md b => (exist _ ((putNext u k md b).1, S (tickOf u)) (proj1 (putNext_allowed u k md b)), (putNext u k md b).2);
  sGet := fun u k v => '(b, md) ← pgGet (sDown sch (tickOf u)) (tableOf u) k v; Ok (Ok b, md);
  sGetLatest := fun u k => '(b, md) ← pgGetLatest (sDown sch (tickOf u)) (tableOf u) k; Ok (Ok b, md);
  sGetLatestMetadata := fun u k => pgGetLatestMetadata (sDown sch (tickOf u)) (tableOf u) k;
  sList := fun u k => pgList (sDown sch (tickOf u)) (sCut sch (tickOf u)) (tableOf u) k;
  sDelete := fun u k v => (exist _ ((deleteNext u k v).1, S (tickOf u)) (proj1 (deleteNext_allowed u k v)), (deleteNext u k v).2);
  sWalk := fun u => pgWalk (sDown sch (tickOf u)) (sCut sch (tickOf u)) (tableOf u);
|}.

Lemma pgKept_exact md : pgKept md = md.
Proof. unfold pgKept. rewrite exact_micros. by destruct md. Qed.

Lemma never_lost r e : fateOf r = PgLost e -> False.
Proof. by destruct r. Qed.

Lemma pgGetLatest_metadata down t k : pgGetLatestMetadata down t k = snd <$> pgGetLatest down t k.
Proof.
  unfold pgGetLatestMetadata, pgGetLatest. destruct down; [done|]. destruct (versionsDesc t k) as [|[v r] l]; [done|].
  unfold pgScanRow. by destruct (scanMeta k v r).
Qed.

Lemma pgGet_ok down u k v b md : pgGet down (tableOf u) k v = Ok (b, md) -> pgView (tableOf u) !! (k, v) = Some (b, md).
Proof.
  destruct down; [done|]. rewrite pgGet_view by apply tableOf_ok. by destruct (pgView (tableOf u) !! (k, v)); [intros [= ->]|].
Qed.

Lemma pgGetLatest_ok down u k b md : pgGetLatest down (tableOf u) k = Ok (b, md) ->
  pgView (tableOf u) !! (k, Version md) = Some (b, md) /\ forall v, is_Some (pgView (tableOf u) !! (k, v)) -> str_ltb (Version md) v = false.
Proof.
  destruct down; [done|]. intros H. pose proof (pgGetLatest_view (tableOf u) k (tableOf_ok u)) as Hv. rewrite H in Hv.
  by setoid_rewrite exact_collate in Hv.
Qed.

Lemma cut_none {A} cut (l k : list A) : cutRows cut l = (k, None) -> k = l.
Proof. by destruct cut as [[n e]|]; [|intros [= ->]]. Qed.

Lemma pgWalk_in down cut t l k v md : pgWalk down cut t = (l, None) -> (k, v, md) ∈ l <-> exists b, pgView t !! (k, v) = Some (b, md).
Proof.
  unfold pgWalk. destruct down; [done|]. destruct (cutRows cut (map_to_list t)) as [rows rerr] eqn:E. intros [= <- ->].
  apply cut_none in E as ->. rewrite list_elem_of_fmap. setoid_rewrite pgView_lookup. setoid_rewrite fmap_Some. split.
  - intros ([[k' v'] r] & [= -> -> ->] & H). apply elem_of_map_to_list in H. eauto.
  - intros (b & r & H & [= -> ->]). exists (k, v, r). split; [done|]. by apply elem_of_map_to_list.
Qed.

Lemma pgList_in down cut u k l v : pgList down cut (tableOf u) k = Ok l -> v ∈ (Version <$> l) <-> is_Some (pgView (tableOf u) !! (k, v)).
Proof.
  unfold pgList. destruct down; [done|]. destruct (cutRows cut _) as [rows rerr] eqn:E. intros (out & Hout & H)%bind_ok.
  destruct rerr; [done|]. injection H as ->. apply cut_none in E as ->. apply mapR_ok in Hout.
  assert (Version <$> l = fst <$> versionsDesc (tableOf u) k) as ->.
  { induction Hout as [|[w r] md ? ? Hx _ IH]; [done|]. cbn. f_equal; [|done]. apply bind_ok in Hx as (tg & _ & [= <-]). done. }
  rewrite pgView_some, list_elem_of_fmap. unfold versionsDesc. setoid_rewrite merge_sort_Permutation. split.
  - intros ([w r] & -> & H). apply rowsOf_in in H. by exists r.
  - intros [r Hr]. exists (v, r). split; [done|]. by apply rowsOf_in.
Qed.

#[export] Instance pg_snaps_laws : SnapshotStoreLaws pg_snaps.
Proof.
  refine {| snaps := fun u : @sstore pg_snaps => pgView (tableOf u) |}; cbn -[pgGet pgGetLatest pgGetLatestMetadata pgList pgWalk putNext deleteNext].
  - intros u k md b u' md' [= <- Hm]. pose proof (proj2 (putNext_allowed u k md b)) as Ha. rewrite Hm in Ha. cbn [allowed] in Ha.
    destruct Ha as [(b0 & Hb & Hn & Hv) (b1 & Hb1 & Hmd)]. injection Hb as <-. injection Hb1 as <-.
    rewrite pgKept_exact, <- Hmd in Hv. rewrite <- Hmd in Hn. split_and!; [done|done|by rewrite Hmd..].
  - intros u k md b u' e [= <- Hm]. pose proof (proj2 (putNext_allowed u k md b)) as Ha. rewrite Hm in Ha. cbn [allowed] in Ha.
    destruct Ha as [?|[[e' []%never_lost] _]]. done.
  - intros u k v rb md ([b md'] & H & [= <- <-])%bind_ok. apply pgGet_ok in H. eauto.
  - intros u k rb md ([b md'] & H & [= <- <-])%bind_ok. apply pgGetLatest_ok in H as [H1 H2]. eauto 10.
  - intros u k md H. rewrite pgGetLatest_metadata in H. apply fmap_ok in H as ([b md'] & H & ->). apply pgGetLatest_ok in H as [H1 H2]. eauto.
  - intros u k v u' [= <- Hm]. pose proof (proj2 (deleteNext_allowed u k v)) as Ha. rewrite Hm in Ha. done.
  - intros u k v u' e [= <- Hm]. pose proof (proj2 (deleteNext_allowed u k v)) as Ha. rewrite Hm in Ha. destruct Ha as [?|[_ ?]]; [by left|by right].
  - intros u l H k v md. by eapply pgWalk_in.
  - intros u k l H v. by eapply pgList_in.
Defined.

(** When queries are answered, what is stored can be read. *)
Lemma pg_snaps_readable : (forall n, sDown sch n = None) -> SnapshotStoreReadable pg_snaps.
Proof.
  intros Hup. split; cbn -[pgGet pgGetLatest pgGetLatestMetadata]; intros u k; rewrite ?Hup.
  - intros v b md H. rewrite pgGet_view by apply tableOf_ok. by rewrite H.
  - intros v [x Hx]. pose proof (pgGetLatest_view (tableOf u) k (tableOf_ok u)) as Hv.
    destruct (pgGetLatest None (tableOf u) k) as [[b md]|e]; [cbn; eauto|]. destruct Hv as [_ Hv]. by rewrite Hv in Hx.
  - intros Hno. pose proof (pgGetLatest_view (tableOf u) k (tableOf_ok u)) as Hv.
    destruct (pgGetLatest None (tableOf u) k) as [[b md]|e]; [|by destruct Hv as [-> _]]. destruct Hv as [Hv _]. by rewrite Hno in Hv.
  - intros Hno. rewrite pgGetLatest_metadata. pose proof (pgGetLatest_view (tableOf u) k (tableOf_ok u)) as Hv.
    destruct (pgGetLatest None (tableOf u) k) as [[b md]|e]; [|by destruct Hv as [-> _]]. destruct Hv as [Hv _]. by rewrite Hno in Hv.
  - intros v [x Hx]. rewrite pgGetLatest_metadata. pose proof (pgGetLatest_view (tableOf u) k (tableOf_ok u)) as Hv.
    destruct (pgGetLatest None (tableOf u) k) as [[b md]|e]; [done|]. destruct Hv as [_ Hv]. by rewrite Hv in Hx.
Qed.

(** The batch resolver the chunked store finds on this store. *)
Definition pgGetter (order : list (part * list string) -> list (part * list string)) : batchGetter (U := pg_snaps) :=
  Some (fun u keys => match pgGetLatestBatch order (fun _ => (sDown sch (tickOf u), sCut sch (tickOf u))) (tableOf u) keys with
                      | Ok m => Ok (snd <$> m)
                      | Err e => Err e
                      end).

Lemma pg_getter_ok order : (forall l, order l ≡ₚ l) -> (forall n, sDown sch n = None) -> getter_ok (U := pg_snaps) (pgGetter order).
Proof.
  intros Hord Hup f u keys m [= <-]. destruct (pgGetLatestBatch _ _ _ _) as [m0|] eqn:H; [|done]. intros [= <-] k b. rewrite lookup_fmap. setoid_rewrite fmap_Some.
  cbn -[pgGetLatest]. rewrite Hup. pose proof (batch_in _ _ _ _ _ Hord H k) as Hin. unfold latestEntry in Hin. split.
  - intros ([md b'] & Hm & ->). apply Hin in Hm as [Hk Hl]. split; [done|]. exists md. cbn -[pgGetLatest] in *. by rewrite Hl.
  - intros [Hk [md Hl]]. apply bind_ok in Hl as ([b' md'] & Hl & [= -> ->]). exists (md, b). split; [|done]. by apply Hin.
Qed.

(** The payload walker its collector finds. *)
Definition pgWalker (u : pgStore) : list (SnapshotKey * string * SnapshotMetadata * bytes) * option err :=
  pgWalkPayloads (sDown sch (tickOf u)) (sCut sch (tickOf u)) (tableOf u).

Lemma pg_walker_ok u rows k v md b : pgWalker u = (rows, None) ->
  (k, v, md, b) ∈ rows <-> snaps (SnapshotStoreLaws := pg_snaps_laws) u !! (k, v) = Some (b, md).
Proof.
  unfold pgWalker, pgWalkPayloads. destruct (sDown sch (tickOf u)); [done|]. destruct (cutRows _ _) as [l rerr] eqn:E. intros [= <- ->].
  apply cut_none in E as ->. cbn [snaps pg_snaps_laws]. rewrite list_elem_of_fmap, pgView_lookup, fmap_Some. split.
  - intros ([[k' v'] r] & [= -> -> -> ->] & H). apply elem_of_map_to_list in H. eauto.
  - intros (r & H & [= -> ->]). exists (k, v, r). split; [done|]. by apply elem_of_map_to_list.
Qed.

End Interface.

(** ** A server, for evaluation *)

(** Byte order, microseconds of nanosecond times, and a document that is its
    list of pairs. *)
#[export] Instance ref_pg : PgServer := {|
  collate := str_ltb;
  micros := fun z => z - z mod 1000;
  jsonb := Some;
  tags_Marshal := fun tags => Byte.x7b :: concat (enc_pair <$> map_to_list tags);
  tags_Unmarshal := fun b => match b with
                             | [] => None
                             | _ :: b => list_to_map <$> dec_pairs (S (length b)) b
                             end;
|}.

#[export] Instance ref_pg_laws : PgServerLaws ref_pg.
Proof.
  refine {| tags_safe := (fun _ => True) : gmap string string -> Prop |}; cbn -[dec_pairs].
  - apply str_ltb_irrefl.
  - apply str_ltb_trans.
  - apply str_ltb_total.
  - intros tags b _ [= <-]. split; [done|]. rewrite dec_pairs_enc by lia. cbn. by rewrite list_to_map_to_list.
Defined.

Definition pg_key : SnapshotKey := MkKey "t" "" "" "slice-1".
Definition pg_key2 : SnapshotKey := MkKey "t" "" "" "slice-2".
Definition pg_meta : SnapshotMetadata := MkMeta pg_key "" zeroTime 0 "" manifestFormatV2 {["chunks" := "2"]}.
Definition pg_at (sec : Z) : utcTime := UTC 2026 1 2 3 4 sec 123456789.

(** Two versions of a slice, one of another whose answer is lost, a put the
    server refuses, and a delete. *)
Definition pg_ops : list pgOp :=
  [ DoPut PgDone (pg_at 5) [Byte.x01] 1234567 pg_key pg_meta (Ok [Byte.x61]);
    DoPut PgDone (pg_at 6) [Byte.x02] 2234567 pg_key pg_meta (Ok [Byte.x62]);
    DoPut (PgLost (EOther "connection reset")) (pg_at 7) [Byte.x03] 3234567 pg_key2 pg_meta (Ok [Byte.x63]);
    DoPut (PgRefused (EOther "read only")) (pg_at 8) [Byte.x04] 4234567 pg_key2 pg_meta (Ok [Byte.x64]);
    DoGetLatest None pg_key; DoGetLatest None pg_key2;
    DoDelete PgDone pg_key (NewVersion (pg_at 6) [Byte.x02]);
    DoGetLatest None pg_key; DoGet None pg_key (NewVersion (pg_at 6) [Byte.x02]) ].

Definition payloads_seen (l : list pgAnswer) : list (option bytes) :=
  omap (fun a => match a with AnsSnap (Ok (b, _)) => Some (Some b) | AnsSnap (Err _) => Some None | _ => None end) l.

(** The newest payload before and after the delete; the put whose answer was
    lost is in the table. *)
Lemma pg_ops_run : payloads_seen (pgRun ∅ pg_ops).2 = [Some [Byte.x62]; Some [Byte.x63]; Some [Byte.x61]; None].
Proof. vm_compute. reflexivity. Qed.

(** The metadata a put returns has nanoseconds that no later read has. *)
Lemma put_precision :
  exists md b md', (pgRun ∅ pg_ops).2 !! 1%nat = Some (AnsMeta (Ok md)) /\ (pgRun ∅ pg_ops).2 !! 4%nat = Some (AnsSnap (Ok (b, md'))) /\
    Version md = Version md' /\ CreatedAt md = 2234567 /\ CreatedAt md' = 2234000.
Proof. do 3 eexists. vm_compute. done. Qed.

Lemma pg_refines_witness :
  tagsOk (pgRun ∅ pg_ops).1 /\ allowedRun (pgView ∅) pg_ops (pgRun ∅ pg_ops).2 (pgView (pgRun ∅ pg_ops).1).
Proof.
  apply (pg_refines pg_ops ∅); [apply map_Forall_empty| |by destruct (pgRun ∅ pg_ops)].
  repeat constructor.
Defined.

Lemma latest_batch_exact_witness :
  let t := (pgRun ∅ pg_ops).1 in
  exists m, pgGetLatestBatch (fun l => l) (fun _ => (None, None)) t [pg_key; pg_key2; pg_key] = Ok m /\
    forall k md b, m !! k = Some (md, b) <-> k ∈ [pg_key; pg_key2; pg_key] /\ pgGetLatest None t k = Ok (b, md).
Proof.
  intros t. destruct (latest_batch_exact (fun l => l) (fun _ => (None, None)) t [pg_key; pg_key2; pg_key]) as [H1 H2]; [done|].
  destruct (pgGetLatestBatch (fun l => l) (fun _ => (None, None)) t [pg_key; pg_key2; pg_key]) as [m|e] eqn:E.
  - exists m. split; [done|]. by apply H1.
  - assert (Hf : false = true); [|done]. apply H2; [done|vm_compute; done|]. clear. intros k e Hk.
    assert (Hall : Forall (fun k => is_ok (pgGetLatest None t k) = true) [pg_key; pg_key2; pg_key]) by (repeat constructor).
    rewrite Forall_forall in Hall. specialize (Hall k Hk). by destruct (pgGetLatest None t k).
Defined.
