(* ===== verification/BatchGetSpec.v ===== *)
(** Batched reads are complete and never fetch more often than once per chunk
    (the second half of [BatchGet]).

    [batch_complete]: when the manifests are backed by stored packs and the
    backend is up, every key comes back with its bytes, although ranged reads
    that touch the end of a blob may be refused.  [batch_gets_bounded] bounds
    the fetches by the chunks; [batch_scattered] shows a key for which a batch
    fetches twice and a single read once. *)

From stdpp Require Import sorting.
From S2P Require Import Prelude GoStrings Sha256 PackFormat BlobStore Manifest SnapStore DedupIndex Reclaim ChunkedRead ChunkedWrite PutSpec PutGet BatchSpec BatchGet.

Section Complete.
  Context {Sto : Storage} {Clib : CodecLib} {L : StorageLaws Sto} {Claws : CodecLaws} {R : StorageReliable Sto}
          {U : SnapshotStore} {J : ManifestCodec}.

(** ** A backed bucket *)

Record pack_holds (s : storage) (b : packBucket) (stored : bytes) (ts : Z) (content : bytes) : Prop := {
  ph_blob : blobs s !! bPid b = Some (stored, ts);
  ph_content : decompressPackBlob stored = Ok content;
  ph_locs l : l ∈ locs b -> exists x, ref_in content (lRef l) x /\ 0 < Size (lRef l) /\ pack_aligned stored (Offset (lRef l)) (Size (lRef l)) }.

(** A window of the content, read back in terms of the content. *)
Lemma window_ref_in content ref x lo hi :
  0 <= lo -> 0 < Size ref -> ref_in (slice content lo hi) (shiftRef lo ref) x -> ref_in content ref x.
Proof.
  intros Hlo Hsz (H1 & H2 & H3 & Hx & Hh). unfold shiftRef in *. cbn in *. rewrite (slice_cap content lo hi) in Hx, H3 by lia.
  destruct (Z.le_gt_cases (Z.min hi (len content)) lo) as [Hle|Hgt].
  { rewrite slice_rev in H3 by lia. rewrite len_nil in H3. lia. }
  rewrite slice_len in H3 by lia. rewrite slice_slice in Hx by lia. replace (lo + (Offset ref - lo)) with (Offset ref) in Hx by lia.
  replace (lo + (Offset ref - lo + Size ref)) with (Offset ref + Size ref) in Hx by lia. split_and!; [lia|lia|lia|done|done].
Qed.

Lemma slices_window (Q : chunkLoc -> Prop) content lo hi :
  0 <= lo -> (forall l, Q l -> 0 < Size (lRef l)) -> slices (fun l x => Q l -> ref_in content (lRef l) x) (slice content lo hi) lo.
Proof.
  intros Hlo HQ group chunks H. unfold sliceRunFromContent in H. apply mapR_ok in H. rewrite shiftRun_map in H.
  rewrite !Forall2_fmap_l in H. eapply Forall2_impl; [exact H|]. intros l x Hx Hq. apply sliceRef_ok in Hx. eapply window_ref_in; eauto.
Qed.

Lemma slices_whole (Q : chunkLoc -> Prop) content :
  (forall l, Q l -> 0 < Size (lRef l)) -> slices (fun l x => Q l -> ref_in content (lRef l) x) content 0.
Proof. intros HQ. pose proof (slices_window Q content 0 (len content)) as H. rewrite slice_all in H. by apply H. Qed.

(** An unrefused read of a window yields the window. *)
Lemma get_exact s pid stored ts off n buf :
  blobs s !! pid = Some (stored, ts) -> 0 <= n -> GetBlob s pid off n = Ok buf -> buf = slice stored off (off + n) /\ 0 <= off /\ off + n <= len stored.
Proof.
  intros Hb Hn G. apply get_sound in G as (c' & ts' & Hb' & Hc'). rewrite Hb in Hb'. injection Hb' as <- <-.
  by destruct Hc' as [[? ?]|(? & ? & ? & ->)]; [lia|].
Qed.

Lemma plain_window s pid stored ts content f lo hi :
  blobs s !! pid = Some (stored, ts) -> decompressPackBlob stored = Ok content -> detectPackFraming stored = Ok f -> algo f = CompressNone ->
  0 <= lo < hi ->
  plainWindow s pid f lo hi = Refused \/ exists n, plainWindow s pid f lo hi = Fetched n (Ok (slice content lo hi)).
Proof.
  intros Hb Hd Hf Ha Hlo. destruct (framing_none stored content f Hd Hf Ha) as (Hc & H0 & Hl). unfold plainWindow.
  destruct (GetBlob s pid (contentBase f + lo) (hi - lo)) as [buf|e] eqn:G.
  - right. exists (len buf). apply (get_exact _ _ stored ts) in G as (-> & ? & ?); [|done|lia]. rewrite Hc.
    rewrite slice_slice by lia. do 3 f_equal; lia.
  - left. apply get_err_sound in G as (H1 & _). rewrite decide_False; [done|]. intros ->. by rewrite H1 in Hb.
Qed.

Lemma chunked_fetched s pid stored ts content f0 es lo hi n c :
  blobs s !! pid = Some (stored, ts) -> decompressPackBlob stored = Ok content -> detectPackFraming stored = Ok f0 -> algo f0 = packAlgoChunked ->
  parsePackChunkIndex (slice stored packChunkedHeaderLen (bodyBase f0)) = Ok es -> 0 <= lo < hi ->
  chunkedWindow s pid (PackFraming (algo f0) (contentBase f0) (chunkedCodec f0) (indexLen f0) (bodyBase f0) es) lo hi = Fetched n (Ok c) ->
  c = slice content lo hi.
Proof.
  intros Hb Hd Hf Ha Hp Hlo. unfold chunkedWindow. set (f := PackFraming _ _ _ _ _ _).
  destruct (chunkedStoredSpan f lo hi) as [[[[so sl] first] lst]|e] eqn:Hspan; [|done].
  destruct (ranged_window stored content f0 es lo hi so sl first lst Hd Hf Ha Hp ltac:(lia) Hspan) as [Hle Hm].
  pose proof (parsePackChunkIndex_tiled _ _ Hp) as Ht.
  eapply chunkedStoredSpan_run in Hspan as (pre & rn & post & Hes & _ & _ & _ & _ & -> & _); [|exact Ht|lia]. cbn in Hes.
  rewrite Hes in Ht. apply tiled_app in Ht as [_ Ht]. apply tiled_app in Ht as [Ht _]. pose proof (tiled_totals _ _ _ Ht).
  destruct (GetBlob _ _ _ _) as [buf|e] eqn:G; [|by case_decide]. apply (get_exact _ _ stored ts) in G as (-> & _); [|done|lia].
  intros [= _ H1]. cbn in H1. rewrite Hm in H1. by injection H1.
Qed.

Lemma chunked_served s pid stored ts content f0 es lo hi :
  blobs s !! pid = Some (stored, ts) -> decompressPackBlob stored = Ok content -> detectPackFraming stored = Ok f0 -> algo f0 = packAlgoChunked ->
  parsePackChunkIndex (slice stored packChunkedHeaderLen (bodyBase f0)) = Ok es -> 0 <= lo < hi -> hi <= len content ->
  (exists e, e ∈ es /\ uncOffset e = lo) -> (exists e, e ∈ es /\ uncOffset e + uncSize e = hi) ->
  let f := PackFraming (algo f0) (contentBase f0) (chunkedCodec f0) (indexLen f0) (bodyBase f0) es in
  chunkedWindow s pid f lo hi = Refused \/ exists n, chunkedWindow s pid f lo hi = Fetched n (Ok (slice content lo hi)).
Proof.
  intros Hb Hd Hf Ha Hp Hlo Hhi Hmin Hmax f. unfold chunkedWindow.
  destruct (chunked_span_ok stored content f0 es lo hi) as (so & sl & first & lst & Hspan & Hsl & Hm); [done|done|done|done|lia|lia|done|done|done|].
  fold f in Hspan. rewrite Hspan. cbn [bodyBase chunked f].
  destruct (get_window s pid stored ts (bodyBase f0 + so) sl Hb) as [->|(e & -> & He & _)]; [lia| |left; by rewrite decide_False].
  right. rewrite Hm. eauto.
Qed.

Lemma pack_contents_ok s b stored ts content f :
  pack_holds s b stored ts content -> framing_of stored f ->
  contents_ok (fun l x => l ∈ locs b -> ref_in content (lRef l) x) s (bPid b) f.
Proof.
  intros [Hb Hd Hl] Hf. assert (Hsz : forall l, l ∈ locs b -> 0 < Size (lRef l)) by (intros l Hin; by destruct (Hl l Hin) as (? & _ & ? & _)). split.
  - intros raw. unfold wholePackContent. erewrite get_whole by exact Hb. rewrite Hd. intros [= <-]. by apply (slices_whole (fun l => l ∈ locs b)).
  - intros lo hi n c Ha Hlo H. destruct Hf as [Hf|(f0 & Hf0 & Hf)]; [by rewrite Hf in Ha|]. case_decide as Hc.
    { destruct Hf as (es & _ & ->). cbn in Ha. by rewrite Hc in Ha. }
    subst f0. destruct (plain_window s (bPid b) stored ts content f lo hi Hb Hd Hf0 Ha Hlo) as [E|[n' E]]; rewrite E in H; [done|].
    injection H as <- <-. apply (slices_window (fun l => l ∈ locs b)); [lia|done].
  - intros lo hi n c Ha Hlo H. destruct Hf as [Hf|(f0 & Hf0 & Hf)]; [by rewrite Hf in Ha|]. case_decide as Hc; [|by subst f0].
    destruct Hf as (es & Hp & ->). apply (chunked_fetched s (bPid b) stored ts content) in H as ->; [|done..]. apply (slices_window (fun l => l ∈ locs b)); [lia|done].
  - intros base group chunks H. apply mapR_ok in H. rewrite shiftRun_map in H. rewrite !Forall2_fmap_l in H. eapply Forall2_impl; [exact H|].
    intros l x Hx Hin. apply sliceRef_ok in Hx as (H1 & H2 & H3 & _). cbn in *. specialize (Hsz l Hin). rewrite len_nil in H3. lia.
Qed.

(** ** A backed bucket succeeds *)

Lemma whole_success s b stored ts content w : pack_holds s b stored ts content -> (assignWholePack s b w).2 = Ok tt.
Proof.
  intros [Hb Hd Hl]. unfold assignWholePack, wholePackContent. erewrite get_whole by exact Hb. rewrite Hd.
  destruct (choose_all (fun l x => ref_in content (lRef l) x) (locs b)) as [xs Hxs]; [intros l Hin; destruct (Hl l Hin) as (x & ? & _); eauto|].
  rewrite (sliceRun_ok content (lRef <$> locs b) xs); [done|]. by apply Forall2_fmap_l.
Qed.

Lemma groupFrom_nonempty ls : forall cur e, cur <> [] -> Forall (fun g => g <> []) (groupFrom cur e ls).
Proof.
  induction ls as [|l ls IH]; intros cur e Hc; cbn; [by constructor|]. destruct (_ <=? _); [apply IH; by destruct cur|].
  constructor; [done|]. by apply IH.
Qed.

Lemma sorted_join (gs : list (list chunkLoc)) : StronglySorted by_offset (mjoin gs) -> Forall (StronglySorted by_offset) gs.
Proof.
  induction gs as [|g gs IH]; intros H; [constructor|]. cbn in H. constructor.
  - clear - H. induction g as [|l g IHg]; [constructor|]. cbn in H. apply StronglySorted_inv in H as [H1 H2]. constructor; [by apply IHg|].
    by apply Forall_app in H2 as [? _].
  - apply IH. clear - H. induction g as [|l g IHg]; [done|]. cbn in H. apply StronglySorted_inv in H as [H1 _]. by apply IHg.
Qed.

#[local] Instance by_offset_trans : Transitive by_offset.
Proof. unfold by_offset. intros a b c. lia. Qed.

#[local] Instance by_offset_total : Total by_offset.
Proof. unfold by_offset. intros a b. lia. Qed.

Lemma groups_ok b :
  Forall (fun g => g <> [] /\ StronglySorted by_offset g /\ Forall (fun l => l ∈ locs (sorted b)) g) (groupContiguousLocs (locs (sorted b))).
Proof.
  set (ls := locs (sorted b)). assert (H1 : Forall (fun g => g <> []) (groupContiguousLocs ls)) by (destruct ls; [constructor|by apply groupFrom_nonempty]).
  assert (H2 : Forall (StronglySorted by_offset) (groupContiguousLocs ls)).
  { apply sorted_join. rewrite groups_join. apply StronglySorted_merge_sort; apply _. }
  assert (H3 : Forall (Forall (fun l => l ∈ ls)) (groupContiguousLocs ls)) by (apply groups_in, Forall_forall; auto).
  rewrite Forall_forall in *. auto.
Qed.

(** The window of a sorted group starts at its first chunk. *)
Lemma group_window content g : g <> [] -> StronglySorted by_offset g ->
  (forall l, l ∈ g -> exists x, ref_in content (lRef l) x /\ 0 < Size (lRef l)) ->
  let lo := match lRef <$> g with [] => 0 | ref :: _ => Offset ref end in
  let hi := maxEndOf (lRef <$> g) 0 in
  0 <= lo < hi /\ hi <= len content /\ Forall (fun ref => lo <= Offset ref /\ Offset ref + Size ref <= hi) (lRef <$> g) /\
  (exists l, l ∈ g /\ Offset (lRef l) = lo) /\ (exists l, l ∈ g /\ Offset (lRef l) + Size (lRef l) = hi).
Proof.
  intros Hne Hs Hg lo hi. destruct g as [|l0 g]; [done|]. apply StronglySorted_inv in Hs as [_ Hs]. rewrite Forall_forall in Hs.
  destruct (maxEndOf_spec (lRef <$> l0 :: g) 0) as (X1 & X2 & X3). fold hi in X1, X2, X3. rewrite Forall_forall in X2.
  assert (Hin : forall l, l ∈ l0 :: g -> 0 <= Offset (lRef l) /\ Offset (lRef l) + Size (lRef l) <= len content /\ 0 < Size (lRef l) /\
    Offset (lRef l) + Size (lRef l) <= hi /\ lo <= Offset (lRef l)).
  { intros l Hl. destruct (Hg l Hl) as (x & (? & ? & ? & _) & ?). split; [done|]. split; [done|]. split; [done|]. split; [apply X2, list_elem_of_fmap; eauto|].
    apply elem_of_cons in Hl as [->|Hl]; [done|]. by apply Hs. }
  destruct (Hin l0) as (? & ? & ? & ? & _); [by left|]. split; [cbn in lo; lia|].
  assert (Hend : exists l, l ∈ l0 :: g /\ Offset (lRef l) + Size (lRef l) = hi).
  { destruct X3 as [X3|(ref & (l & -> & Hl)%list_elem_of_fmap & X3)]; [cbn in lo; lia|eauto]. }
  split; [destruct Hend as (l & Hl & <-); by apply Hin|]. split; [|split; [exists l0; split; [by left|done]|done]].
  apply Forall_forall. intros ref (l & -> & Hl)%list_elem_of_fmap. destruct (Hin l Hl) as (_ & _ & _ & ? & ?). auto.
Qed.

Lemma fetchGroups_success fetch s b stored ts content groups : forall w,
  pack_holds s b stored ts content ->
  (forall lo hi, 0 <= lo < hi -> hi <= len content -> (exists l, l ∈ locs b /\ Offset (lRef l) = lo) ->
     (exists l, l ∈ locs b /\ Offset (lRef l) + Size (lRef l) = hi) ->
     fetch lo hi = Refused \/ exists n, fetch lo hi = Fetched n (Ok (slice content lo hi))) ->
  Forall (fun g => g <> [] /\ StronglySorted by_offset g /\ Forall (fun l => l ∈ locs b) g) groups ->
  (fetchGroups fetch s b groups w).2 = Ok tt.
Proof.
  intros w Hp Hf. revert w. induction groups as [|g groups IH]; intros w Hg; [done|]. apply Forall_cons in Hg as [(Hne & Hs & Hin) Hg].
  rewrite Forall_forall in Hin. assert (Hx : forall l, l ∈ g -> exists x, ref_in content (lRef l) x /\ 0 < Size (lRef l)).
  { intros l Hl. destruct (ph_locs _ _ _ _ _ Hp l (Hin l Hl)) as (x & ? & ? & _). eauto. }
  destruct (group_window content g Hne Hs Hx) as (Hlo & Hhi & Hb & (l1 & Hl1 & E1) & (l2 & Hl2 & E2)). cbn [fetchGroups].
  set (lo := match lRef <$> g with [] => 0 | ref :: _ => Offset ref end) in *. set (hi := maxEndOf (lRef <$> g) 0) in *.
  destruct (Z.leb_spec (hi - lo) 0); [lia|]. destruct (Hf lo hi Hlo Hhi) as [->|[n ->]]; [by exists l1; auto|by exists l2; auto|by eapply whole_success|].
  destruct (choose_all (fun l x => ref_in content (lRef l) x) g) as [xs Hxs]; [intros l Hl; destruct (Hx l Hl) as (x & ? & _); eauto|].
  rewrite (sliceRun_window content (lRef <$> g) xs lo hi); [by apply IH|by apply Forall2_fmap_l|lia|done|done].
Qed.

Lemma probe_success s fc b stored ts content : pack_holds s b stored ts content -> locs b <> [] -> cache_ok s fc ->
  exists fc' f, probeFraming s fc (bPid b) = (fc', Ok f) /\ framing_of stored f /\ cache_ok s fc'.
Proof.
  intros [Hb Hd Hl] Hne Hc. unfold probeFraming. destruct (fc !! bPid b) as [f|] eqn:Ef; [exists fc, f; eauto|].
  destruct (probe_ok s (bPid b) stored ts content Hb Hd) as (f & -> & Hf).
  { destruct (locs b) as [|l ls]; [done|]. destruct (Hl l) as (x & (? & ? & ? & _) & ? & _); [by left|]. intros ->. rewrite len_nil in *. lia. }
  exists (<[bPid b := f]> fc), f. split; [done|]. split; [done|]. intros pid' f' H' st' ts' Hb'.
  apply lookup_insert_Some in H' as [[<- <-]|[? H']]; [|eauto]. rewrite Hb in Hb'. by injection Hb' as <- <-.
Qed.

Lemma pack_sorted s b stored ts content : pack_holds s b stored ts content -> pack_holds s (sorted b) stored ts content.
Proof. intros [Hb Hd Hl]. split; [done|done|]. intros l Hin. apply Hl. by apply (sorted_elem b). Qed.

Lemma groups_success s b stored ts content f w : pack_holds s b stored ts content -> framing_of stored f ->
  (algo f = packAlgoChunked -> (fetchGroups (chunkedWindow s (bPid b) f) s (sorted b) (groupContiguousLocs (locs (sorted b))) w).2 = Ok tt) /\
  (algo f = CompressNone -> (fetchGroups (plainWindow s (bPid b) f) s (sorted b) (groupContiguousLocs (locs (sorted b))) w).2 = Ok tt).
Proof.
  intros Hp Hf. pose proof (pack_sorted _ _ _ _ _ Hp) as Hps. destruct Hps as [Hb Hd Hl]. split; intros Ha.
  - destruct Hf as [Hf|(f0 & Hf0 & Hf)]; [by rewrite Hf in Ha|]. case_decide as Hc; [|by subst f0]. destruct Hf as (es & Hes & ->).
    eapply fetchGroups_success; [by apply pack_sorted|intros lo hi Hlo Hhi (l1 & H1 & E1) (l2 & H2 & E2)|apply groups_ok].
    apply (chunked_served s (bPid b) stored ts content f0 es lo hi Hb Hd Hf0 Hc Hes Hlo Hhi).
    + destruct (Hl l1 H1) as (_ & _ & _ & Hal). destruct (Hal f0 es Hf0 Hc Hes) as [(e & ? & ?) _]. exists e. split; [done|lia].
    + destruct (Hl l2 H2) as (_ & _ & _ & Hal). destruct (Hal f0 es Hf0 Hc Hes) as [_ (e & ? & ?)]. exists e. split; [done|lia].
  - destruct Hf as [Hf|(f0 & Hf0 & Hf)]; [by rewrite Hf in Ha|]. case_decide as Hc; [destruct Hf as (es & _ & ->); cbn in Ha; by rewrite Hc in Ha|]. subst f0.
    eapply fetchGroups_success; [by apply pack_sorted|intros lo hi Hlo Hhi _ _|apply groups_ok].
    by apply (plain_window s (bPid b) stored ts content f lo hi).
Qed.

Lemma fetchPack_success s fc b stored ts content w : pack_holds s b stored ts content -> locs b <> [] -> cache_ok s fc ->
  exists fc' w', fetchPackBucket s fc b w = (fc', w', Ok tt) /\ cache_ok s fc'.
Proof.
  intros Hp Hne Hc. unfold fetchPackBucket. fold (sorted b). destruct (pack_sorted _ _ _ _ _ Hp) as [Hb Hd Hl].
  destruct (existsb _ _) eqn:Eneg.
  { apply existsb_exists in Eneg as (l & Hin%list_elem_of_In & Hlt%Z.ltb_lt). destruct (Hl l Hin) as (x & (? & _) & _). lia. }
  cbn [sorted bPid]. destruct (probe_success s fc b stored ts content Hp Hne Hc) as (fc' & f & -> & Hf & Hc'). fold (sorted b).
  destruct (groups_success s b stored ts content f w Hp Hf) as [G1 G2].
  pose proof (whole_success s (sorted b) stored ts content w (pack_sorted _ _ _ _ _ Hp)) as G3.
  assert (Hend : forall p : work * result unit, p.2 = Ok tt -> exists fc1 w', (let '(w, r) := p in (fc', w, r)) = (fc1, w', Ok tt) /\ cache_ok s fc1).
  { intros [w' r]. cbn. intros ->. by exists fc', w'. }
  case_decide as Hch; [by apply Hend, G1|]. case_bool_decide as Hn; cbn [negb]; [by apply Hend, G2|by apply Hend].
Qed.

(** ** All buckets *)

Definition all_backed (s : storage) (S0 : gmap SnapshotKey keyState) : Prop :=
  forall k ks, S0 !! k = Some ks -> exists cs, Forall2 (ref_backed s (ksTenant ks)) (ksRefs ks) cs /\ Forall (fun x => x <> []) cs.

Lemma loc_backed s S0 l : all_backed s S0 -> loc_of S0 l ->
  exists ks x, S0 !! lKey l = Some ks /\ ref_backed s (ksTenant ks) (lRef l) x /\ x <> [].
Proof.
  intros Ha (ks & Hk & Hr). destruct (Ha _ _ Hk) as (cs & Hb & Hn). destruct (Forall2_lookup_l _ _ _ _ _ Hb Hr) as (x & Hx & Hbx).
  rewrite Forall_lookup in Hn. eauto 6.
Qed.

Lemma bucket_backed s S0 B b : all_backed s S0 -> buckets_ok S0 B -> B !! bPid b = Some b -> standalone b = false ->
  locs b <> [] /\ exists stored ts content, pack_holds s b stored ts content.
Proof.
  intros Ha Hok Hb Hst. destruct (bk_sound _ _ Hok _ _ Hb) as (_ & Hne & Hl). split; [done|].
  assert (Hall : forall l, l ∈ locs b -> exists x, pack_backed s (bPid b) (lRef l) x /\ x <> []).
  { intros l Hin. destruct (Hl l Hin) as (ks & Hk & Hr & Hid & Hp). rewrite Hst in Hp. symmetry in Hp. apply bool_decide_eq_false in Hp.
    destruct (loc_backed s S0 l Ha) as (ks' & x & Hk' & Hbx & Hx); [by exists ks|]. rewrite Hk in Hk'. injection Hk' as <-.
    unfold ref_backed, refBlobID in *. rewrite decide_False in Hbx by done. rewrite decide_False in Hid by done. rewrite Hid in Hbx. eauto. }
  destruct (locs b) as [|l0 ls] eqn:El; [done|]. destruct (Hall l0) as (x0 & (stored & ts & content & Hbl & Hd & _) & _); [by left|].
  exists stored, ts, content. split; [done|done|]. rewrite El. intros l Hin.
  destruct (Hall l Hin) as (x & (st' & ts' & c' & Hbl' & Hd' & Hr' & Hal') & Hx). rewrite Hbl in Hbl'. injection Hbl' as <- <-.
  rewrite Hd in Hd'. injection Hd' as <-. exists x. split; [done|]. split; [|done].
  destruct Hr' as (? & ? & ? & -> & _). destruct (Z.le_gt_cases (Size (lRef l)) 0); [|lia]. by rewrite slice_rev in Hx by lia.
Qed.

Definition slot_backed (s : storage) (S0 : gmap SnapshotKey keyState) (l : chunkLoc) (x : bytes) : Prop :=
  forall ks, S0 !! lKey l = Some ks -> ref_backed s (ksTenant ks) (lRef l) x.

Lemma fetchOne_success s S0 B fc b w : all_backed s S0 -> buckets_ok S0 B -> B !! bPid b = Some b -> cache_ok s fc ->
  exists fc' w', fetchOne s fc b w = (fc', w', Ok tt) /\ cache_ok s fc'.
Proof.
  intros Ha Hok Hb Hc. unfold fetchOne. destruct (standalone b) eqn:Hst.
  2:{ destruct (bucket_backed s S0 B b Ha Hok Hb Hst) as (Hne & stored & ts & content & Hp). by eapply fetchPack_success. }
  destruct (bk_sound _ _ Hok _ _ Hb) as (_ & Hne & Hl).
  assert (Hall : forall l, l ∈ locs b -> exists stored ts x, blobs s !! bPid b = Some (stored, ts) /\ decompressPackBlob stored = Ok x /\ len x = Size (lRef l)).
  { intros l Hin. destruct (Hl l Hin) as (ks & Hk & Hr & Hid & Hp). rewrite Hst in Hp. symmetry in Hp. apply bool_decide_eq_true in Hp.
    destruct (loc_backed s S0 l Ha) as (ks' & x & Hk' & Hbx & Hx); [by exists ks|]. rewrite Hk in Hk'. injection Hk' as <-.
    unfold ref_backed, refBlobID in *. rewrite decide_True in Hbx by done. rewrite decide_True in Hid by done.
    destruct Hbx as (st & ts & H1 & H2 & H3). rewrite Hid in H1. eauto 6. }
  destruct (locs b) as [|l0 ls] eqn:El; [done|]. destruct (Hall l0) as (stored & ts & got & Hbl & Hd & _); [by left|].
  unfold fetchStandaloneBucket. erewrite get_whole by exact Hbl. rewrite Hd, El.
  assert (Hsz : forall l, l ∈ l0 :: ls -> len got = Size (lRef l)).
  { intros l Hin. destruct (Hall l Hin) as (st' & ts' & x & Hbl' & Hd' & Hs). rewrite Hbl in Hbl'. injection Hbl' as <- <-. congruence. }
  clear - Hsz Hc. generalize (MkWork (wkStates w) (addStats 1 (len stored) (wkAcc w))). induction (l0 :: ls) as [|l k IH]; intros w1; [eauto|].
  cbn. rewrite (Hsz l), Z.eqb_refl by (by left). cbn. apply IH. intros l' Hl'. apply Hsz. by right.
Qed.

Lemma slot_backed_loc s S0 B fc b : all_backed s S0 -> buckets_ok S0 B -> B !! bPid b = Some b -> cache_ok s fc ->
  served_loc (slot_backed s S0) s fc b.
Proof.
  intros Ha Hok Hb Hc. destruct (bk_sound _ _ Hok _ _ Hb) as (_ & _ & Hl). unfold served_loc. destruct (standalone b) eqn:Hst.
  - intros buf got l Hg Hd Hin Hsz ks Hks. destruct (Hl l Hin) as (ks' & Hk' & Hr & Hid & Hp). rewrite Hks in Hk'. injection Hk' as <-.
    symmetry in Hp. apply bool_decide_eq_true in Hp. unfold ref_backed, refBlobID in *. rewrite decide_True in Hid by done. rewrite decide_True by done.
    apply get_sound in Hg as (c & ts & Hbl & [[_ ->]|[? _]]); [|lia]. rewrite slice_all in Hd. exists c, ts. by rewrite Hid.
  - destruct (bucket_backed s S0 B b Ha Hok Hb Hst) as (Hne & stored & ts & content & Hp). intros f Hf.
    destruct (probe_success s fc b stored ts content Hp Hne Hc) as (fc' & f' & Ef & Hfr & _). rewrite Ef in Hf. injection Hf as ->.
    pose proof (pack_contents_ok s b stored ts content f Hp Hfr) as Hco. destruct Hp as [Hbl Hd Hlo].
    assert (Hup : forall c base, slices (fun l x => l ∈ locs b -> ref_in content (lRef l) x) c base -> slices (fun l x => l ∈ locs b -> slot_backed s S0 l x) c base).
    { intros c base Hs group chunks H. eapply Forall2_impl; [by apply Hs|]. intros l x Hx Hin ks Hks. destruct (Hl l Hin) as (ks' & Hk' & _ & Hid & Hpk).
      rewrite Hks in Hk'. injection Hk' as <-. symmetry in Hpk. apply bool_decide_eq_false in Hpk. unfold ref_backed, refBlobID in *.
      rewrite decide_False in Hid by done. rewrite decide_False by done. rewrite Hid. destruct (Hlo l Hin) as (_ & _ & _ & Hal). exists stored, ts, content. auto. }
    destruct Hco as [C1 C2 C3 C4]. split; intros; apply Hup; eauto.
Qed.

Lemma slot_backed_unique s t ref x y : ref_backed s t ref x -> ref_backed s t ref y -> x = y.
Proof.
  unfold ref_backed. case_decide.
  - intros (s1 & t1 & H1 & H2 & _) (s2 & t2 & H3 & H4 & _). congruence.
  - intros (s1 & t1 & c1 & H1 & H2 & (_ & _ & _ & -> & _) & _) (s2 & t2 & c2 & H3 & H4 & (_ & _ & _ & -> & _) & _). congruence.
Qed.

Lemma backed_unique s t refs xs ys : Forall2 (ref_backed s t) refs xs -> Forall2 (ref_backed s t) refs ys -> xs = ys.
Proof.
  intros H. revert ys. induction H as [|ref x refs xs Hx H IH]; intros ys Hy; inversion Hy as [|? y ? ys' Hy1 Hy2]; subst; [done|].
  f_equal; [by eapply slot_backed_unique|by apply IH].
Qed.

Definition nofail (S : gmap SnapshotKey keyState) : Prop := forall k ks, S !! k = Some ks -> ksFailed ks = false.

Lemma assign_nofail asg : forall S, nofail S -> nofail (foldl assign1 S asg).
Proof.
  induction asg as [|[l x] asg IH]; intros S H; [done|]. apply IH. intros k ks. unfold assign1. cbn [fst snd].
  destruct (decide (lKey l = k)) as [<-|]; [|rewrite lookup_alter_ne by done; apply H].
  rewrite lookup_alter_eq. destruct (S !! lKey l) as [ks0|] eqn:E; [|done]. cbn. intros [= <-]. cbn. by eapply H.
Qed.

Lemma fetch_nofail s S0 B bs : all_backed s S0 -> buckets_ok S0 B -> forall fc w fc' w', Forall (fun b => B !! bPid b = Some b) bs -> cache_ok s fc ->
  foldl (fetchBucket s) (fc, w) bs = (fc', w') -> nofail (wkStates w) -> nofail (wkStates w') /\ cache_ok s fc'.
Proof.
  intros Ha Hok. induction bs as [|b bs IH]; intros fc w fc' w' Hb Hc; [by intros [= <- <-]|]. apply Forall_cons in Hb as [Hb Hbs]. cbn [foldl].
  destruct (fetchOne_success s S0 B fc b w Ha Hok Hb Hc) as (fc1 & w1 & E & Hc1). unfold fetchBucket at 2. cbn [fst snd]. rewrite E.
  intros H Hn. apply (IH _ _ _ _ Hbs Hc1 H).
  destruct (fetchOne_writes (slot_backed s S0) s fc b w fc1 w1 (Ok tt)) as (asg & -> & _); [by eapply slot_backed_loc|done|by apply assign_nofail].
Qed.

(** Every chunked manifest among the payloads has its chunks stored. *)
Definition payloads_backed (s : storage) (payloads : gmap SnapshotKey bytes) : Prop :=
  forall k p m, payloads !! k = Some p -> parseChunked p = Some m ->
    exists cs, Forall2 (ref_backed s (mTenant m)) (Chunks m) cs /\ Forall (fun x => x <> []) cs.

(** A batched read is complete.  When the manifests are backed by stored
    packs or chunk blobs and the backend is up, a batch returns every key that
    has a chunked manifest, with exactly its bytes: across keys that share packs,
    chunks scattered over a pack, all framings, ranged reads refused at the end
    of a blob, and any order of the workers. *)
Theorem batch_complete korder border bg fc s u k0 keys payloads :
  (forall l, (korder l) ≡ₚ l) -> (forall l, (border l) ≡ₚ l) -> cache_ok s fc ->
  resolveManifestPayloads bg u (k0 :: keys) = Ok payloads ->
  payloads_backed s payloads ->
  exists fc' out st, GetLatestBatch korder border bg fc s u (k0 :: keys) = (fc', Ok (out, st)) /\ cache_ok s fc' /\
    forall k p m cs, payloads !! k = Some p -> parseChunked p = Some m -> Forall2 (ref_backed s (mTenant m)) (Chunks m) cs ->
      out !! k = Some (concat cs).
Proof.
  intros Hk Hb Hc Hres Hback. destruct (GetLatestBatch korder border bg fc s u (k0 :: keys)) as [fc' o] eqn:EG.
  pose proof EG as EG0. unfold GetLatestBatch in EG. rewrite Hres in EG. destruct (foldl addManifest (∅, ∅) _) as [S0 B] eqn:E0.
  assert (HN : NoDup (korder (map_to_list payloads)).*1) by (rewrite Hk; apply NoDup_fst_map_to_list).
  destruct (addManifests _ _ _ HN E0) as [Hok Hs].
  assert (Ha : all_backed s S0).
  { intros k ks (p & m & Hin & Hp & ->)%Hs. rewrite Hk in Hin. apply elem_of_map_to_list in Hin. by apply (Hback k p m). }
  destruct (foldl (fetchBucket s) _ _) as [fc1 w] eqn:Ef. injection EG as <- <-. pose proof Ef as Ef0.
  pose proof (fun b => border_buckets border S0 B b Hb Hok) as Hbs.
  apply (fetch_nofail s S0 B _ Ha Hok) in Ef as [Hn Hc']; [|apply Forall_forall; intros b ?; by apply Hbs|done|by intros k ks (p & m & _ & _ & ->)%Hs].
  eexists fc1, _, _. split; [done|]. split; [done|]. intros k p m cs Hp Hm Hcs.
  assert (HS0 : S0 !! k = Some (freshState m)) by (apply Hs; exists p, m; split; [rewrite Hk; by apply elem_of_map_to_list|done]).
  assert (HI : forall fc w b, cache_ok s fc -> B !! bPid b = Some b -> cache_ok s (fetchBucket s (fc, w) b).1).
  { intros fc2 w2 b Hc2 Hin. destruct (fetchOne_success s S0 B fc2 b w2 Ha Hok Hin Hc2) as (fc3 & w3 & E & ?). unfold fetchBucket. cbn [fst snd]. by rewrite E. }
  assert (exists data, omap assembled (wkStates w) !! k = Some data) as [data Hd].
  { eapply (fetchBuckets_filled (cache_ok s) (slot_backed s S0) S0 s _ (fun _ => False)) in Ef0; [| | | |done|by eapply filled_start].
    - specialize (Ef0 k). rewrite HS0 in Ef0. destruct Ef0 as (ks & Hks & _). rewrite lookup_omap, Hks. cbn. unfold assembled. rewrite (Hn k ks Hks). eauto.
    - intros fc2 b ? Hin. eapply slot_backed_loc; eauto. by apply Hbs.
    - intros fc2 w2 b ? Hin. apply HI; [done|]. by apply Hbs.
    - intros b l Hin. by apply Hbs. }
  rewrite Hd. destruct (GetLatestBatch_result (cache_ok s) (slot_backed s) korder border bg fc s u (k0 :: keys) fc1 (omap assembled (wkStates w)) (wkAcc w) k data payloads Hk Hb Hres) as (p' & m' & S1 & chunks & Hp' & Hm' & HS1 & -> & Hlen & HP).
  - intros S1 B1 fc2 b E1 _ ? ?. rewrite E0 in E1. injection E1 as <- <-. by eapply slot_backed_loc.
  - intros S1 B1 fc2 w2 b E1 _ ? ?. rewrite E0 in E1. injection E1 as <- <-. by apply HI.
  - done.
  - exact EG0.
  - exact Hd.
  - rewrite Hp in Hp'. injection Hp' as <-. rewrite Hm in Hm'. injection Hm' as <-. do 2 f_equal. symmetry.
    eapply backed_unique; [exact Hcs|]. apply Forall2_same_length_lookup. split; [done|]. intros i ref x Hi Hx. exact (HP i ref x Hi Hx _ HS1).
Qed.
End Complete.

(** ** How often a batch fetches *)

Section Bound.
  Context {Sto : Storage} {Clib : CodecLib} {U : SnapshotStore} {J : ManifestCodec}.

Definition gets (w : work) : Z := PackGets (wkAcc w).

Lemma whole_gets s b w w' r : assignWholePack s b w = (w', r) -> gets w' <= gets w + 1.
Proof.
  unfold assignWholePack, gets. destruct (wholePackContent _ _); [|intros [= <- <-]; lia].
  destruct (sliceRunFromContent _ _); intros [= <- <-]; cbn; lia.
Qed.

Lemma fetchGroups_gets fetch s b groups : forall w w' r, fetchGroups fetch s b groups w = (w', r) -> gets w' <= gets w + len groups.
Proof.
  induction groups as [|g groups IH]; intros w w' r; cbn [fetchGroups]; [intros [= <- <-]; unfold len; cbn; lia|].
  assert (Hlen : len (g :: groups) = len groups + 1) by (unfold len; cbn; lia). pose proof (len_nonneg groups).
  set (lo := match lRef <$> g with [] => 0 | ref :: _ => _ end).
  assert (Hdel : forall content w0, gets w0 <= gets w + 1 ->
    match sliceRunFromContent content (shiftRun (lRef <$> g) lo) with
    | Err e => (w0, Err e)
    | Ok chunks => fetchGroups fetch s b groups (MkWork (assignGroup g chunks (wkStates w0)) (wkAcc w0))
    end = (w', r) -> gets w' <= gets w + len (g :: groups)).
  { intros content w0 H0. destruct (sliceRunFromContent _ _); [|intros [= <- <-]; lia]. intros Hr%IH. unfold gets in *. cbn in Hr. lia. }
  destruct (_ <=? 0); [apply Hdel; lia|]. destruct (fetch _ _) as [n [content|e]| | |e].
  - apply Hdel. unfold gets. cbn. lia.
  - intros [= <- <-]. unfold gets in *. cbn. lia.
  - intros [= <- <-]. lia.
  - intros Hw%whole_gets. lia.
  - intros [= <- <-]. lia.
Qed.

Lemma groups_few ls : len (groupContiguousLocs ls) <= len ls.
Proof.
  rewrite <- (groups_join ls) at 2. assert (H : Forall (fun g => g <> []) (groupContiguousLocs ls)) by (destruct ls; [constructor|by apply groupFrom_nonempty]).
  induction H as [|g gs Hg _ IH]; [done|]. change (mjoin (g :: gs)) with (g ++ mjoin gs). unfold len in *. rewrite length_app.
  destruct g; [done|]. cbn [length]. lia.
Qed.

Lemma assignStandalone_gets got ls : forall w, gets (assignStandalone got ls w).1 = gets w.
Proof. induction ls as [|l ls IH]; intros w; cbn; [done|]. destruct (negb _); [done|]. by rewrite IH. Qed.

Lemma fetchBucket_gets s x b : locs b <> [] -> gets (fetchBucket s x b).2 <= gets x.2 + len (locs b).
Proof.
  destruct x as [fc w]. intros Hne. assert (H1 : 1 <= len (locs b)) by (unfold len; destruct (locs b); [done|cbn; lia]).
  assert (H : gets (fetchOne s fc b w).1.2 <= gets w + len (locs b)).
  { unfold fetchOne. destruct (standalone b).
    - unfold fetchStandaloneBucket. destruct (GetBlob _ _ _ _) as [buf|e]; cbn [fst snd]; [|lia].
      assert (Hg : gets (MkWork (wkStates w) (addStats 1 (len buf) (wkAcc w))) = gets w + 1) by done.
      destruct (decompressPackBlob _) as [got|e]; cbn [fst snd]; [|lia].
      pose proof (assignStandalone_gets got (locs b) (MkWork (wkStates w) (addStats 1 (len buf) (wkAcc w)))) as E.
      destruct (assignStandalone _ _ _) as [w' r]. cbn [fst snd] in *. lia.
    - unfold fetchPackBucket. fold (sorted b). destruct (existsb _ _); [cbn [fst snd]; lia|]. destruct (probeFraming _ _ _) as [fc1 [f|e]]; [|cbn [fst snd]; lia].
      assert (Hl : len (locs (sorted b)) = len (locs b)) by (unfold len; cbn; by rewrite merge_sort_Permutation).
      pose proof (groups_few (locs (sorted b))) as Hg. rewrite Hl in Hg.
      case_decide; [|destruct (negb _)]; match goal with |- context [let '(_, _) := ?p in _] => destruct p as [w' r] eqn:E end; cbn [fst snd].
      + apply fetchGroups_gets in E. lia.
      + apply whole_gets in E. lia.
      + apply fetchGroups_gets in E. lia. }
  unfold fetchBucket. cbn [fst snd]. destruct (fetchOne s fc b w) as [[fc1 w1] [[]|e]]; exact H.
Qed.

Definition total (bs : list packBucket) : Z := foldr (fun b n => len (locs b) + n) 0 bs.

#[local] Instance total_proper : Proper ((≡ₚ) ==> (=)) total.
Proof. unfold total. induction 1; cbn [foldr]; lia. Qed.

Lemma fetch_gets s bs : forall x, Forall (fun b => locs b <> []) bs -> gets (foldl (fetchBucket s) x bs).2 <= gets x.2 + total bs.
Proof.
  induction bs as [|b bs IH]; intros x H; cbn [foldl total foldr]; [lia|]. apply Forall_cons in H as [Hb H]. specialize (IH (fetchBucket s x b) H).
  pose proof (fetchBucket_gets s x b Hb). unfold total in IH. lia.
Qed.

Lemma total_insert (B : gmap string packBucket) id b :
  total (map_to_list (<[id := b]> B)).*2 = len (locs b) + total (map_to_list (delete id B)).*2.
Proof. rewrite <- insert_delete_eq. rewrite map_to_list_insert by apply lookup_delete_eq. done. Qed.

Lemma addLocs_total t ls : forall B, total (map_to_list (foldl (addLoc t) B ls)).*2 = total (map_to_list B).*2 + len ls.
Proof.
  induction ls as [|l ls IH]; intros B; cbn [foldl]; [unfold len; cbn; lia|]. rewrite IH. unfold addLoc.
  assert (Hl : len (l :: ls) = len ls + 1) by (unfold len; cbn; lia). rewrite Hl. destruct (B !! _) as [b|] eqn:E; rewrite total_insert.
  - assert (HB : total (map_to_list B).*2 = len (locs b) + total (map_to_list (delete (refBlobID t (lRef l)) B)).*2).
    { rewrite <- (insert_id B _ _ E) at 1. apply total_insert. }
    rewrite HB. cbn. unfold len. rewrite length_app. cbn. lia.
  - rewrite delete_id by done. unfold len. cbn. lia.
Qed.

(** The chunks the manifests name. *)
Definition refCount (kp : SnapshotKey * bytes) : Z := match parseChunked kp.2 with Some m => len (Chunks m) | None => 0 end.
Definition refTotal (l : list (SnapshotKey * bytes)) : Z := foldr (fun x n => refCount x + n) 0 l.

#[local] Instance refTotal_proper : Proper ((≡ₚ) ==> (=)) refTotal.
Proof. unfold refTotal. induction 1; cbn [foldr]; lia. Qed.

Lemma refTotal_nonneg l : 0 <= refTotal l.
Proof.
  unfold refTotal. induction l as [|x l IH]; cbn [foldr]; [done|]. unfold refCount at 1. destruct (parseChunked _) as [m|]; [|lia].
  pose proof (len_nonneg (Chunks m)). lia.
Qed.

Lemma addManifests_total l : forall S B, total (map_to_list (foldl addManifest (S, B) l).2).*2 = total (map_to_list B).*2 + refTotal l.
Proof.
  induction l as [|kp l IH]; intros S B; cbn [foldl]; [cbn; lia|]. unfold addManifest at 2. cbn [refTotal foldr]. unfold refCount at 1.
  destruct (parseChunked kp.2) as [m|]; cbn [fst snd]; rewrite IH; [|unfold refTotal; lia]. rewrite addLocs_total.
  assert (len (locsOf kp.1 (Chunks m)) = len (Chunks m)) by (unfold len, locsOf; by rewrite length_imap). unfold refTotal. lia.
Qed.

(** Coalescing pays: whatever the backend answers, a batch issues at most one
    data fetch per chunk its manifests name. *)
Theorem batch_gets_bounded korder border bg fc s u keys payloads fc' out st :
  (forall l, (korder l) ≡ₚ l) -> (forall l, (border l) ≡ₚ l) -> resolveManifestPayloads bg u keys = Ok payloads ->
  GetLatestBatch korder border bg fc s u keys = (fc', Ok (out, st)) -> PackGets st <= refTotal (map_to_list payloads).
Proof.
  intros Hk Hb Hres H. unfold GetLatestBatch in H. destruct keys as [|k0 ks].
  { injection H as <- <- <-. apply refTotal_nonneg. }
  rewrite Hres in H. destruct (foldl addManifest (∅, ∅) _) as [S0 B] eqn:E0.
  assert (HN : NoDup (korder (map_to_list payloads)).*1) by (rewrite Hk; apply NoDup_fst_map_to_list).
  destruct (addManifests _ _ _ HN E0) as [Hok _].
  pose proof (fetch_gets s (border (map_to_list B).*2) (fc, MkWork S0 (MkStats 0 0))) as Hg.
  destruct (foldl (fetchBucket s) _ _) as [fc1 w]. injection H as _ _ <-. unfold gets in Hg. cbn in Hg.
  pose proof (addManifests_total (korder (map_to_list payloads)) ∅ ∅) as Ht. rewrite E0 in Ht. cbn [snd] in Ht. rewrite map_to_list_empty in Ht. cbn [fmap list_fmap total foldr] in Ht.
  rewrite (refTotal_proper _ _ (Hk _)) in Ht. rewrite (total_proper _ _ (Hb _)), Ht in Hg. apply Hg.
  apply Forall_forall. intros b Hin. destruct (border_buckets border S0 B b Hb Hok Hin) as [Hbb _]. by destruct (bk_sound _ _ Hok _ _ Hbb) as (_ & ? & _).
Qed.
End Bound.

(** ** Witnesses: a batch over the two objects of [BatchSpec] *)

#[local] Abbreviation exg_w := ((PutBatch (Sp := ex_sp) ex_cfg ex_w0 exb_items).1).
Definition exg_keys : list SnapshotKey := [MkKey "t" "" "" "b"; MkKey "t" "" "" "none"; MkKey "t" "" "" "a"].
#[local] Abbreviation exg_payloads := (ok_or ∅ (resolveManifestPayloads None (wUps exg_w) exg_keys)).

Lemma exg_resolved : resolveManifestPayloads None (wUps exg_w) exg_keys = Ok exg_payloads.
Proof. apply is_ok_or. vm_compute. reflexivity. Qed.

Lemma exg_world : world_ok exg_w.
Proof. exact (batch_keeps_world (Sp := ex_sp) ex_cfg "t" ex_w0 exb_items exg_w _ ex_world_ok exb_ready I (surjective_pairing _)). Qed.

(** In a whole store the manifests are backed; that no chunk is empty is left
    to check. *)
Lemma world_backs {Sto : Storage} {L : StorageLaws Sto} {Clib : CodecLib} {U : SnapshotStore} {SL : SnapshotStoreLaws U} {D : DedupStore} {DL : DedupStoreLaws D}
    {J : ManifestCodec} w bg keys payloads :
  world_ok w -> getter_ok bg -> resolveManifestPayloads bg (wUps w) keys = Ok payloads ->
  forallb (fun kp => match parseChunked kp.2 with Some m => forallb (fun ref => 0 <? Size ref) (Chunks m) | None => true end) (map_to_list payloads) = true ->
  forall k p m, payloads !! k = Some p -> parseChunked p = Some m ->
    exists cs, Forall2 (ref_backed (wBlobs w) (mTenant m)) (Chunks m) cs /\ Forall (fun x => x <> []) cs.
Proof.
  intros Hw Hg Hr Hpos k p m Hp Hm. rewrite forallb_forall in Hpos. specialize (Hpos (k, p)). cbn in Hpos. rewrite Hm, forallb_forall in Hpos.
  pose proof Hp as Hp0. apply (payloads_spec bg _ keys payloads Hg Hr) in Hp0 as (_ & md & Hl).
  apply slatest_sound in Hl as (b & Hb & [[= <-]|[? ?]] & _); [|done]. pose proof (wo_snaps _ Hw _ _ _ _ Hb) as Hs.
  unfold parseChunked in Hm. destruct (json_Unmarshal p) as [m'|] eqn:Ej; [|done]. case_decide as Hf; [|done]. injection Hm as ->.
  destruct (Hs m Ej Hf) as [cs Hcs]. exists cs. split; [done|]. apply Forall_lookup. intros i x Hx ->.
  destruct (Forall2_lookup_r _ _ _ _ _ Hcs Hx) as (ref & Hi & Hbk). assert (Hz : 0 < Size ref).
  { apply Z.ltb_lt, Hpos; [apply list_elem_of_In; by apply elem_of_map_to_list|apply list_elem_of_In; by eapply list_elem_of_lookup_2]. }
  unfold ref_backed in Hbk. case_decide.
  - destruct Hbk as (? & ? & _ & _ & E). rewrite len_nil in E. lia.
  - destruct Hbk as (? & ? & c & _ & _ & (H1 & H2 & H3 & E & _) & _). apply (f_equal len) in E. rewrite len_nil, slice_len in E; lia.
Qed.

Lemma getter_none {U : SnapshotStore} : getter_ok None.
Proof. intros f u keys m H. discriminate H. Qed.

Lemma batch_complete_witness :
  exists fc' out st, GetLatestBatch (fun l => l) (fun l => l) None ∅ (wBlobs exg_w) (wUps exg_w) exg_keys = (fc', Ok (out, st)) /\
    cache_ok (wBlobs exg_w) fc' /\
    forall k p m cs, exg_payloads !! k = Some p -> parseChunked p = Some m ->
      Forall2 (ref_backed (wBlobs exg_w) (mTenant m)) (Chunks m) cs -> out !! k = Some (concat cs).
Proof.
  apply (batch_complete (fun l => l) (fun l => l) None ∅ (wBlobs exg_w) (wUps exg_w) (MkKey "t" "" "" "b") [MkKey "t" "" "" "none"; MkKey "t" "" "" "a"] exg_payloads).
  - reflexivity.
  - reflexivity.
  - apply cache_ok_empty.
  - apply exg_resolved.
  - intros k p m. apply (world_backs exg_w None exg_keys exg_payloads exg_world getter_none exg_resolved). vm_compute. reflexivity.
Defined.

#[local] Abbreviation exg_out := (ok_or (∅, MkStats 0 0) (GetLatestBatch (fun l => l) (fun l => l) None ∅ (wBlobs exg_w) (wUps exg_w) exg_keys).2).

(** Both objects come back, from one fetch of each of their three packs. *)
Example exg_read : exg_out.1 !! MkKey "t" "" "" "a" = Some (slice ex_data 0 15) /\ exg_out.1 !! MkKey "t" "" "" "b" = Some (slice ex_data 3 25) /\
  PackGets exg_out.2 = 3.
Proof. vm_compute. auto. Qed.

Lemma exg_batch : GetLatestBatch (fun l => l) (fun l => l) None ∅ (wBlobs exg_w) (wUps exg_w) exg_keys =
  ((GetLatestBatch (fun l => l) (fun l => l) None ∅ (wBlobs exg_w) (wUps exg_w) exg_keys).1, Ok (exg_out.1, exg_out.2)).
Proof. apply ok_pair_pair. vm_compute. reflexivity. Qed.


(** ** A scattered key *)

(** One pack of three chunks, then an object of its first and third. *)
Definition sc_cfg : ChunkedStore := MkStore 64 "" GlobalIndex (fun _ => CompressNone) PackCompressPerChunk.
Definition sc_data : bytes := replicate 10 Byte.x61 ++ replicate 10 Byte.x62 ++ replicate 10 Byte.x63.
Definition sc_put (k : string) (data : bytes) (w : @world mem_storage mem_snaps mem_dedup) : @world mem_storage mem_snaps mem_dedup :=
  (Put (Sp := ex_sp) sc_cfg w (MkKey "t" "" "" k) ex_md [(data, RdEOF)]).1.
Definition sc_w : @world mem_storage mem_snaps mem_dedup := sc_put "13" (slice sc_data 0 10 ++ slice sc_data 20 30) (sc_put "123" sc_data ex_w0).

(** [groupContiguousLocs] promises never more fetches than single reads: a single
    read takes both chunks in one run, the batch fetches them one by one. *)
Theorem batch_scattered :
  PackGets (ok_or (∅, MkStats 0 0) (GetLatestBatch (fun l => l) (fun l => l) None ∅ (wBlobs sc_w) (wUps sc_w) [MkKey "t" "" "" "13"]).2).2 = 2 /\
  match GetLatest ∅ sc_w (MkKey "t" "" "" "13") with
  | Ok (rd, _) => length (queued (loadNextRun (wBlobs sc_w) rd).1) = 2%nat /\ length (Chunks (rManifest rd)) = 2%nat
  | Err _ => False
  end.
Proof. vm_compute. auto. Qed.
