(* ===== verification/GC.v ===== *)
(** Mark-and-sweep garbage collection
    (casstore/snapshot/chunked_gc.go) and the pack-size accounting that rides
    on it (packsize_backfill.go).

    A pass builds the set of live blob identifiers, from the manifests or, for
    a backfilled domain, from the association index, then lists the blobs under
    its prefixes and reclaims those that are neither live nor young.  Other
    clients run between the sweep's callbacks: [other i] is what they do to the
    index and the blobs before callback [i], [clock i] the time it reads.
    Log lines, durations and the published gauges are left out. *)

From S2P Require Import Prelude GoStrings PackFormat BlobStore Manifest SnapStore DedupIndex Reclaim ChunkedWrite.

Record ChunkedGC := MkGC { gHasIndex : bool; gHasAssoc : bool; SafetyWindow : Z }.

Record GCResult := MkGCResult {
  ChunksScanned : Z; ManifestsScanned : Z; LiveChunks : Z; ChunksReclaimed : Z; gBytesReclaimed : Z;
  ChunksSkippedRecent : Z; ChunksDeferredYoung : Z; ChunksSkippedError : Z; LiveFromAssociations : bool }.

Definition scanned (r : GCResult) : GCResult :=
  MkGCResult (ChunksScanned r + 1) (ManifestsScanned r) (LiveChunks r) (ChunksReclaimed r) (gBytesReclaimed r)
    (ChunksSkippedRecent r) (ChunksDeferredYoung r) (ChunksSkippedError r) (LiveFromAssociations r).
Definition sweptBlob (n : Z) (r : GCResult) : GCResult :=
  MkGCResult (ChunksScanned r) (ManifestsScanned r) (LiveChunks r) (ChunksReclaimed r + 1) (gBytesReclaimed r + n)
    (ChunksSkippedRecent r) (ChunksDeferredYoung r) (ChunksSkippedError r) (LiveFromAssociations r).
Definition skippedRecent (r : GCResult) : GCResult :=
  MkGCResult (ChunksScanned r) (ManifestsScanned r) (LiveChunks r) (ChunksReclaimed r) (gBytesReclaimed r)
    (ChunksSkippedRecent r + 1) (ChunksDeferredYoung r) (ChunksSkippedError r) (LiveFromAssociations r).
Definition deferredYoung (r : GCResult) : GCResult :=
  MkGCResult (ChunksScanned r) (ManifestsScanned r) (LiveChunks r) (ChunksReclaimed r) (gBytesReclaimed r)
    (ChunksSkippedRecent r) (ChunksDeferredYoung r + 1) (ChunksSkippedError r) (LiveFromAssociations r).
Definition skippedError (r : GCResult) : GCResult :=
  MkGCResult (ChunksScanned r) (ManifestsScanned r) (LiveChunks r) (ChunksReclaimed r) (gBytesReclaimed r)
    (ChunksSkippedRecent r) (ChunksDeferredYoung r) (ChunksSkippedError r + 1) (LiveFromAssociations r).

(** ** Pack-size accounting *)

Section Sizes.
  Context {D : DedupStore}.
  (** [index.(PackSizeRecorder)]; [None] when the index does not record. *)
  Context (rec : option (dstore -> string -> list (string * Z) -> dstore * result unit)).

Definition packSizeBackfillFlushThreshold : Z := 512.

Record packSizeBackfiller := MkBf { bfBatch : gmap string (list (string * Z)); bfN : Z; bfTotal : Z }.

Definition newPackSizeBackfiller : packSizeBackfiller := MkBf ∅ 0 0.

(** Best effort: a recording error drops the batch.  Go ranges over the map in
    an arbitrary order; the model takes that of [map_to_list]. *)
Definition recordBatch (f : dstore -> string -> list (string * Z) -> dstore * result unit)
  (d : dstore) (x : string * list (string * Z)) : dstore :=
  match x.2 with [] => d | sizes => (f d x.1 sizes).1 end.

Definition bfFlush (d : dstore) (b : packSizeBackfiller) : dstore * packSizeBackfiller :=
  match rec with
  | None => (d, b)
  | Some f =>
      if bfN b =? 0 then (d, b)
      else (foldl (recordBatch f) d (map_to_list (bfBatch b)), MkBf ∅ 0 (bfTotal b))
  end.

Definition offer (d : dstore) (b : packSizeBackfiller) (blobID : string) (length : Z)
  : dstore * packSizeBackfiller :=
  match rec with
  | None => (d, b)
  | Some _ =>
      match parsePackID blobID with
      | None => (d, b)
      | Some (domain, hash) =>
          let b := MkBf (<[domain := default [] (bfBatch b !! domain) ++ [(hash, length)]]> (bfBatch b))
                     (bfN b + 1) (bfTotal b + 1) in
          if packSizeBackfillFlushThreshold <=? bfN b then bfFlush d b else (d, b)
      end
  end.

(** [BackfillPackSizes]: record the size of every listed pack. *)
Fixpoint offerRows (ctxErr : nat -> option err) (i : nat) (rows : list Metadata) (d : dstore)
  (b : packSizeBackfiller) : dstore * packSizeBackfiller * option err :=
  match rows with
  | [] => (d, b, None)
  | md :: rows =>
      match ctxErr i with
      | Some e => (d, b, Some e)
      | None => let '(d, b) := offer d b (BlobID md) (Length md) in offerRows ctxErr (S i) rows d b
      end
  end.

Definition BackfillPackSizes {Sto : Storage} (ctxErr : nat -> option err) (s : storage) (d : dstore) (domain : string)
  : dstore * Z * option err :=
  match rec with
  | None => (d, 0, Some (EOther "index does not support pack-size recording"))
  | Some _ =>
      let prefix := if decide (domain = "") then "pack-" else packTenantPrefix domain in
      let '(rows, lerr) := ListBlobs s prefix in
      let '(d, b, oe) := offerRows ctxErr 0 rows d newPackSizeBackfiller in
      match oe, lerr with
      | None, None => let '(d, b) := bfFlush d b in (d, bfTotal b, None)
      | Some e, _ | None, Some e => (d, bfTotal b, Some e)
      end
  end.
End Sizes.

(** ** A pass *)

Section GC.
  Context {Sto : Storage} {U : SnapshotStore} {D : DedupStore} {A : PackAssocStore D} {J : ManifestCodec}.
  (** [g.manifests.(PayloadWalker)]; [ctx.Err()] at each callback of the walk
      and of the sweep; other clients; [g.clock()]. *)
  Context (walkPayloads : option (sstore -> list (SnapshotKey * string * SnapshotMetadata * bytes) * option err))
          (walkCancel sweepCancel : nat -> option err)
          (other : nat -> dstore * storage -> dstore * storage) (clock : nat -> Z).

(** *** The live set *)

Definition isChunkedManifest (md : SnapshotMetadata) : bool :=
  bool_decide (tag md "chunked_format" = manifestFormatV1) || bool_decide (tag md "chunked_format" = manifestFormatV2).

(** The blobs a manifest keeps alive. *)
Definition manifestBlobs (m : chunkManifest) : list string :=
  if decide (Format m = manifestFormatV1) then (fun ref => chunkBlobID (mTenant m) (Hash ref)) <$> Chunks m
  else if decide (Format m = manifestFormatV2) then (fun ref => packBlobID (mTenant m) (PackHash ref)) <$> Chunks m
  else [].

Definition addLive (domainFilter : string) (payload : bytes) (acc : gset string * Z) : gset string * Z :=
  match json_Unmarshal payload with
  | None => acc
  | Some m =>
      if decide (domainFilter <> "" /\ mTenant m <> domainFilter) then acc
      else (list_to_set (manifestBlobs m) ∪ acc.1, acc.2 + 1)
  end.

Fixpoint walkRows {R X} (f : R -> X -> X) (i : nat) (rows : list R) (acc : X) : X * option err :=
  match rows with
  | [] => (acc, None)
  | r :: rows => match walkCancel i with
                 | Some e => (acc, Some e)
                 | None => walkRows f (S i) rows (f r acc)
                 end
  end.

Definition payloadRow (domainFilter : string) (row : SnapshotKey * string * SnapshotMetadata * bytes)
  (acc : gset string * Z) : gset string * Z :=
  let '(_, _, md, payload) := row in
  if isChunkedManifest md then addLive domainFilter payload acc else acc.

(** A manifest that cannot be read is skipped. *)
Definition getRow (u : sstore) (domainFilter : string) (row : SnapshotKey * string * SnapshotMetadata)
  (acc : gset string * Z) : gset string * Z :=
  let '(key, version, md) := row in
  if isChunkedManifest md then
    match sGet u key version with
    | Err _ => acc
    | Ok (Err _, _) => acc
    | Ok (Ok data, _) => addLive domainFilter data acc
    end
  else acc.

Definition first_err (a b : option err) : option err := match a with Some e => Some e | None => b end.

Definition liveFromManifests (u : sstore) (domainFilter : string) : (gset string * Z) * option err :=
  match walkPayloads with
  | Some wp => let '(rows, werr) := wp u in
               let '(acc, oe) := walkRows (payloadRow domainFilter) 0 rows (∅, 0) in (acc, first_err oe werr)
  | None => let '(rows, werr) := sWalk u in
            let '(acc, oe) := walkRows (getRow u domainFilter) 0 rows (∅, 0) in (acc, first_err oe werr)
  end.

Definition addPack (domain packHash : string) (live : gset string) : gset string :=
  {[packBlobID domain packHash]} ∪ live.

Definition liveFromAssociations (g : ChunkedGC) (d : dstore) (domainFilter : string) : result (option (gset string)) :=
  if negb (gHasAssoc g) || bool_decide (domainFilter = "") then Ok None
  else done ← aIsBackfilled d domainFilter;
       if negb done then Ok None
       else packs ← aWalkLivePacks d domainFilter;
            match walkRows (addPack domainFilter) 0 packs ∅ with
            | (_, Some e) => Err e
            | (live, None) => Ok (Some live)
            end.

Definition noResult : GCResult := MkGCResult 0 0 0 0 0 0 0 0 false.

Definition liveSet (g : ChunkedGC) (d : dstore) (u : sstore) (domainFilter : string)
  : GCResult * result (gset string) :=
  match liveFromAssociations g d domainFilter with
  | Err e => (noResult, Err e)
  | Ok (Some live) => (MkGCResult 0 0 0 0 0 0 0 0 true, Ok live)
  | Ok None =>
      match liveFromManifests u domainFilter with
      | ((_, n), Some e) => (MkGCResult 0 n 0 0 0 0 0 0 false, Err e)
      | ((live, n), None) => (MkGCResult 0 n 0 0 0 0 0 0 false, Ok live)
      end
  end.

(** *** The sweep *)

(** [swStep] counts the callbacks so far. *)
Record sweepState := MkSweep {
  swDedup : dstore; swBlobs : storage; swBf : packSizeBackfiller; swRes : GCResult; swStep : nat }.

Definition recorder (g : ChunkedGC) := if gHasIndex g then dRecordPackSizes else None.

(** Index entries of the pack go before its blob does. *)
Definition purgeFor (g : ChunkedGC) (d : dstore) (id : string) : dstore * result unit :=
  if gHasIndex g then
    match parsePackID id with
    | Some (domain, packHash) => dPurgePacks d domain [packHash]
    | None => (d, Ok tt)
    end
  else (d, Ok tt).

Definition sweepOrphan (g : ChunkedGC) (now : Z) (md : Metadata) (w : dstore * storage * GCResult)
  : dstore * storage * GCResult :=
  let '(d, s, res) := w in
  let id := BlobID md in
  match GetMetadata s id with
  | Err e => if decide (e = ErrBlobNotFound) then (d, s, res) else (d, s, skippedError res)
  | Ok curMd =>
      if negb (Timestamp curMd =? Timestamp md) then (d, s, skippedRecent res)
      else if (0 <? SafetyWindow g) && (now - Timestamp curMd <? SafetyWindow g) then (d, s, deferredYoung res)
      else match purgeFor g d id with
           | (d, Err _) => (d, s, skippedError res)
           | (d, Ok _) =>
               match DeleteBlob s id with
               | (s, Err _) => (d, s, skippedError res)
               | (s, Ok _) => (d, s, sweptBlob (Length md) res)
               end
           end
  end.

Definition visit (g : ChunkedGC) (live : gset string) (md : Metadata) (w : sweepState) : sweepState :=
  let i := swStep w in
  let '(d, s) := other i (swDedup w, swBlobs w) in
  let res := scanned (swRes w) in
  if decide (BlobID md ∈ live) then
    let '(d, b) := offer (recorder g) d (swBf w) (BlobID md) (Length md) in MkSweep d s b res (S i)
  else
    let '(d, s, res) := sweepOrphan g (clock i) md (d, s, res) in MkSweep d s (swBf w) res (S i).

Fixpoint sweepRows (g : ChunkedGC) (live : gset string) (rows : list Metadata) (w : sweepState)
  : sweepState * option err :=
  match rows with
  | [] => (w, None)
  | md :: rows => match sweepCancel (swStep w) with
                  | Some e => (w, Some e)
                  | None => sweepRows g live rows (visit g live md w)
                  end
  end.

Fixpoint sweepPrefixes (g : ChunkedGC) (live : gset string) (prefixes : list string) (w : sweepState)
  : sweepState * option err :=
  match prefixes with
  | [] => (w, None)
  | p :: prefixes =>
      let '(rows, lerr) := ListBlobs (swBlobs w) p in
      let '(w, oe) := sweepRows g live rows w in
      match first_err oe lerr with
      | Some e => (w, Some e)
      | None => sweepPrefixes g live prefixes w
      end
  end.

Definition sweep (g : ChunkedGC) (prefixes : list string) (live : gset string) (d : dstore) (s : storage)
  (res : GCResult) : sweepState * option err :=
  match sweepPrefixes g live prefixes (MkSweep d s newPackSizeBackfiller res 0) with
  | (w, Some e) => (w, Some e)
  | (w, None) => let '(d, b) := bfFlush (recorder g) (swDedup w) (swBf w) in
                 (MkSweep d (swBlobs w) b (swRes w) (swStep w), None)
  end.

Definition sweepPrefixesOf (domainFilter : string) : list string :=
  if decide (domainFilter = "") then ["chunk-"; "pack-"]
  else [chunkTenantPrefix domainFilter; packTenantPrefix domainFilter].

Definition withLive (n : Z) (r : GCResult) : GCResult :=
  MkGCResult (ChunksScanned r) (ManifestsScanned r) n (ChunksReclaimed r) (gBytesReclaimed r)
    (ChunksSkippedRecent r) (ChunksDeferredYoung r) (ChunksSkippedError r) (LiveFromAssociations r).

Definition run (g : ChunkedGC) (d : dstore) (s : storage) (u : sstore) (domainFilter : string)
  : sweepState * option err :=
  match liveSet g d u domainFilter with
  | (res, Err e) => (MkSweep d s newPackSizeBackfiller res 0, Some e)
  | (res, Ok live) => sweep g (sweepPrefixesOf domainFilter) live d s (withLive (Z.of_nat (size live)) res)
  end.

Definition RunOnce (g : ChunkedGC) (d : dstore) (s : storage) (u : sstore) : sweepState * option err := run g d s u "".
Definition RunOnceForDomain (g : ChunkedGC) (d : dstore) (s : storage) (u : sstore) (domain : string)
  : sweepState * option err := run g d s u domain.
End GC.
