(* ===== verification/GCSpec.v ===== *)
(** What a garbage collection pass guarantees.

    - [gc_spares_protected]: with other clients running between its steps and
      any call failing, a pass never removes a blob that is live or younger
      than the safety window, including blobs uploaded during the pass.
    - [gc_preserves_world]: a pass over a store whose manifests can be read
      keeps every snapshot readable and the dedup index pointing at stored
      bytes, whichever deletes and purges fail and wherever it is cancelled.
    - [gc_exact]: on backends that are up, a pass removes exactly the unmarked
      old blobs under its prefixes. *)

From S2P Require Import Prelude GoStrings PackFormat BlobStore Manifest SnapStore DedupIndex Reclaim ChunkedRead ChunkedWrite PutSpec PutGet GC.

Section Sweep.
  Context {Sto : Storage} {L : StorageLaws Sto} {D : DedupStore} {DL : DedupStoreLaws D}.
  Context (sweepCancel : nat -> option err) (other : nat -> dstore * storage -> dstore * storage) (clock : nat -> Z).
  Context (g : ChunkedGC).

Lemma recorder_entries f d dom l :
  recorder g = Some f -> entries (f d dom l).1 = entries d.
Proof.
  unfold recorder. destruct (gHasIndex g); [|done]. intros Hf.
  destruct (f d dom l) as [d' r] eqn:E. by eapply sizes_entries.
Qed.

Lemma bfFlush_entries d b : entries (bfFlush (recorder g) d b).1 = entries d.
Proof.
  unfold bfFlush. destruct (recorder g) as [f|] eqn:E; [|done]. destruct (_ =? 0); [done|]. cbn.
  generalize (map_to_list (bfBatch b)) as l. intros l. revert d.
  induction l as [|[dom sz] l IH]; intros d; cbn; [done|]. rewrite IH.
  unfold recordBatch. cbn. destruct sz; [done|]. by apply recorder_entries.
Qed.

Lemma offer_entries d b id n : entries (offer (recorder g) d b id n).1 = entries d.
Proof.
  unfold offer. destruct (recorder g) as [f|] eqn:E; [|done]. destruct (parsePackID id) as [[dom h]|]; [|done].
  cbv zeta. destruct (_ <=? _); [|done]. rewrite <- E. apply bfFlush_entries.
Qed.

(** Entries only disappear. *)
Definition fewer_entries (d' d : dstore) : Prop :=
  forall dom h ref, entries d' dom !! h = Some ref -> entries d dom !! h = Some ref.

(** A removed blob was unmarked, old, unchanged since it was listed, and its
    index entries are gone. *)
Definition reclaimable (live : gset string) (now : Z) (s : storage) (d' : dstore) (md : Metadata) : Prop :=
  (BlobID md ∉ live) /\ (exists c, blobs s !! BlobID md = Some (c, Timestamp md)) /\
  ~ (0 < SafetyWindow g /\ now - Timestamp md < SafetyWindow g) /\
  (gHasIndex g = true -> forall dom ph, parsePackID (BlobID md) = Some (dom, ph) ->
     forall h ref, entries d' dom !! h = Some ref -> rPackHash ref <> ph).

Lemma fewer_refl d : fewer_entries d d.
Proof. by intros ???. Qed.

Lemma purgeFor_spec d id d' r :
  purgeFor g d id = (d', r) -> fewer_entries d' d /\
  (r = Ok tt -> gHasIndex g = true -> forall dom ph, parsePackID id = Some (dom, ph) ->
     forall h ref, entries d' dom !! h = Some ref -> rPackHash ref <> ph).
Proof.
  unfold purgeFor. destruct (gHasIndex g); [|intros [= <- <-]; by split; [apply fewer_refl|]].
  destruct (parsePackID id) as [[dom ph]|]; [|intros [= <- <-]; by split; [apply fewer_refl|]].
  intros Hp. apply purge_sound in Hp as [Hm Hp]. split; [exact Hm|]. intros -> _ ? ? [= <- <-] h ref He E.
  apply (Hp eq_refl _ _ He). rewrite E. by left.
Qed.

Lemma sweepOrphan_spec live now md d s res d' s' res' :
  BlobID md ∉ live -> sweepOrphan g now md (d, s, res) = (d', s', res') ->
  fewer_entries d' d /\
  (blobs s' = blobs s \/ (blobs s' = delete (BlobID md) (blobs s) /\ reclaimable live now s d' md)).
Proof.
  intros Hl. unfold sweepOrphan. destruct (GetMetadata s (BlobID md)) as [cur|e] eqn:Hmd.
  2:{ case_decide; intros [= <- <- _]; (split; [apply fewer_refl|by left]). }
  apply meta_sound in Hmd as (c & Hc & _). destruct (Z.eqb_spec (Timestamp cur) (Timestamp md)) as [Ht|]; cbn;
    [|intros [= <- <- _]; split; [apply fewer_refl|by left]].
  destruct ((0 <? SafetyWindow g) && (now - Timestamp cur <? SafetyWindow g)) eqn:Hy;
    [intros [= <- <- _]; split; [apply fewer_refl|by left]|].
  destruct (purgeFor g d (BlobID md)) as [d1 [[]|e]] eqn:Hp; apply purgeFor_spec in Hp as [Hf Hp];
    [|intros [= <- <- _]; split; [done|by left]].
  destruct (DeleteBlob s (BlobID md)) as [s1 r] eqn:Hd. apply DeleteBlob_blobs in Hd.
  assert (Hr : reclaimable live now s d1 md).
  { split_and!; [done|exists c; by rewrite <- Ht| |by apply Hp]. rewrite <- Ht. intros [? ?]. lia. }
  destruct r; intros [= <- <- _]; (split; [done|]); destruct Hd; auto.
Qed.

Lemma visit_spec live md w :
  let ds := other (swStep w) (swDedup w, swBlobs w) in let w' := visit other clock g live md w in
  swStep w' = S (swStep w) /\ fewer_entries (swDedup w') ds.1 /\
  (blobs (swBlobs w') = blobs ds.2 \/
   (blobs (swBlobs w') = delete (BlobID md) (blobs ds.2) /\
    reclaimable live (clock (swStep w)) ds.2 (swDedup w') md)).
Proof.
  unfold visit. destruct (other _ _) as [d s]. cbn [fst snd]. case_decide as Hl.
  - pose proof (offer_entries d (swBf w) (BlobID md) (Length md)) as Ho.
    destruct (offer _ _ _ _ _) as [d1 b]. cbn in *. split_and!; [done| |by left]. intros dom h ref. by rewrite Ho.
  - destruct (sweepOrphan _ _ _ _) as [[d1 s1] res1] eqn:Ho. cbn.
    destruct (sweepOrphan_spec _ _ _ _ _ _ _ _ _ Hl Ho). auto.
Qed.

(** *** Induction over a sweep *)

(** An invariant of the sweep's state that every step of the other clients and
    every visit keeps. *)
Lemma sweepRows_inv (P : sweepState -> Prop) live rows w :
  (forall md w, md ∈ rows -> P w -> P (visit other clock g live md w)) ->
  P w -> P (sweepRows sweepCancel other clock g live rows w).1.
Proof.
  revert w; induction rows as [|md rows IH]; intros w Hv Hw; cbn; [done|].
  destruct (sweepCancel (swStep w)); [done|]. apply IH; [intros; apply Hv; [by right|done]|]. apply Hv; [by left|done].
Qed.

Lemma sweepPrefixes_inv (P : sweepState -> Prop) live prefixes w :
  (forall p md w, p ∈ prefixes -> String.prefix p (BlobID md) = true -> P w -> P (visit other clock g live md w)) ->
  P w -> P (sweepPrefixes sweepCancel other clock g live prefixes w).1.
Proof.
  revert w; induction prefixes as [|p prefixes IH]; intros w Hv Hw; cbn; [done|].
  destruct (ListBlobs (swBlobs w) p) as [rows lerr] eqn:El. apply list_sound in El as (_ & Hl & _).
  pose proof (sweepRows_inv P live rows w) as Hr. destruct (sweepRows _ _ _ _ _ _ _) as [w1 oe]. cbn in Hr.
  assert (P w1) by (apply Hr; [intros md w' Hmd; apply (Hv p); [by left|by apply Hl]|done]).
  destruct (first_err oe lerr); [done|]. apply IH; [intros; eapply Hv; [by right|done..]|done].
Qed.

Lemma sweep_inv (P : sweepState -> Prop) live prefixes d s res :
  (forall p md w, p ∈ prefixes -> String.prefix p (BlobID md) = true -> P w -> P (visit other clock g live md w)) ->
  (forall d' b w, entries d' = entries (swDedup w) -> P w ->
     P (MkSweep d' (swBlobs w) b (swRes w) (swStep w))) ->
  P (MkSweep d s newPackSizeBackfiller res 0) -> P (sweep sweepCancel other clock g prefixes live d s res).1.
Proof.
  intros Hv Hf H0. unfold sweep.
  pose proof (sweepPrefixes_inv P live prefixes (MkSweep d s newPackSizeBackfiller res 0) Hv H0) as H.
  destruct (sweepPrefixes _ _ _ _ _ _ _) as [w [e|]]; [done|].
  pose proof (bfFlush_entries (swDedup w) (swBf w)) as He. destruct (bfFlush _ _ _) as [d1 b1]. by apply Hf.
Qed.
End Sweep.

(** ** Concurrency *)

Section Concurrent.
  Context {Sto : Storage} {L : StorageLaws Sto} {U : SnapshotStore} {D : DedupStore} {DL : DedupStoreLaws D}
          {A : PackAssocStore D} {J : ManifestCodec}.
  Context (walkPayloads : option (sstore -> list (SnapshotKey * string * SnapshotMetadata * bytes) * option err))
          (walkCancel sweepCancel : nat -> option err)
          (other : nat -> dstore * storage -> dstore * storage) (clock : nat -> Z).

(** Live, or younger than the safety window whenever the pass looks. *)
Definition protected (g : ChunkedGC) (live : gset string) (id : string) (x : bytes * Z) : Prop :=
  id ∈ live \/ (0 < SafetyWindow g /\ forall i, clock i - x.2 < SafetyWindow g).

End Concurrent.

(** ** The store stays whole *)

Section Live.
  Context {J : ManifestCodec} (walkCancel : nat -> option err).

Lemma walkRows_adds {R X} (f : R -> X -> X) (P : X -> Prop) i rows acc acc' r :
  (forall r acc, P acc -> P (f r acc)) -> r ∈ rows -> (forall acc, P (f r acc)) ->
  walkRows walkCancel f i rows acc = (acc', None) -> P acc'.
Proof.
  intros Hm Hin Hr. revert i acc. induction Hin as [r rows|r r' rows Hin IH]; intros i acc; cbn;
    destruct (walkCancel i); try done.
  - intros Hw. assert (Hgen : forall rows i acc, P acc -> walkRows walkCancel f i rows acc = (acc', None) -> P acc').
    { intros l. induction l as [|x l IHl]; intros i' acc1 H1; cbn; [by intros [= <-]|].
      destruct (walkCancel i'); [done|]. apply IHl. by apply Hm. }
    eapply Hgen; [|exact Hw]. apply Hr.
  - apply IH; auto.
Qed.

Lemma addLive_grows filter payload acc x : x ∈ acc.1 -> x ∈ (addLive filter payload acc).1.
Proof. unfold addLive. destruct (json_Unmarshal payload); [|done]. case_decide; [done|]. set_solver. Qed.

Lemma addLive_marks filter payload acc m x :
  json_Unmarshal payload = Some m -> filter = "" \/ mTenant m = filter -> x ∈ manifestBlobs m ->
  x ∈ (addLive filter payload acc).1.
Proof.
  unfold addLive. intros -> Hf Hx. rewrite decide_False by naive_solver. cbn.
  apply elem_of_union_l. by apply elem_of_list_to_set.
Qed.
End Live.

Section Whole.
  Context {Clib : CodecLib} {Sto : Storage} {L : StorageLaws Sto} {U : SnapshotStore} {SL : SnapshotStoreLaws U}
          {SR : SnapshotStoreReadable U} {D : DedupStore} {DL : DedupStoreLaws D} {A : PackAssocStore D} {J : ManifestCodec}.
  Context (walkPayloads : option (sstore -> list (SnapshotKey * string * SnapshotMetadata * bytes) * option err))
          (walkCancel sweepCancel : nat -> option err) (clock : nat -> Z).
  (** A payload walk that returns has yielded every snapshot. *)
  Context (walkPayloads_ok : forall wp u rows, walkPayloads = Some wp -> wp u = (rows, None) ->
             forall k v b md, snaps u !! (k, v) = Some (b, md) -> (k, v, md, b) ∈ rows).

(** A chunked manifest stored in [u]. *)
Definition stored_manifest (u : sstore) (m : chunkManifest) : Prop :=
  exists k v b md, snaps u !! (k, v) = Some (b, md) /\ json_Unmarshal b = Some m /\
    (Format m = manifestFormatV1 \/ Format m = manifestFormatV2).

(** What a pass relies on: manifests are tagged and formed as the write path
    writes them, and no index entry is recorded under the empty domain, whose
    packs are named after the domain "_". *)
Record gc_ready (w : world) : Prop := {
  gr_tagged : forall k v b md m, snaps (wUps w) !! (k, v) = Some (b, md) -> json_Unmarshal b = Some m ->
    Format m = manifestFormatV1 \/ Format m = manifestFormatV2 -> isChunkedManifest md = true /\ formed m;
  gr_index : forall dom h ref, entries (wDedup w) dom !! h = Some ref -> dom <> "";
}.

(** No other domain's blobs fall under the prefixes of a scoped pass. *)
Definition isolated (filter : string) (u : sstore) : Prop :=
  filter = "" \/ forall m, stored_manifest u m -> mTenant m = filter \/
    (tenantSegment filter <> tenantSegment (mTenant m) /\
     String.prefix (tenantSegment filter +:+ "-") (tenantSegment (mTenant m)) = false).

(** What the association fast path relies on. *)
Definition assoc_covers (d : dstore) (filter : string) (u : sstore) : Prop :=
  forall packs, aWalkLivePacks d filter = Ok packs -> forall m, stored_manifest u m -> mTenant m = filter ->
    Format m = manifestFormatV2 /\ Forall (fun ref => PackHash ref ∈ packs) (Chunks m).

(** Every blob a manifest in scope references is marked. *)
Lemma liveFromManifests_marks u filter acc m x :
  (forall k v b md m, snaps u !! (k, v) = Some (b, md) -> json_Unmarshal b = Some m ->
     Format m = manifestFormatV1 \/ Format m = manifestFormatV2 -> isChunkedManifest md = true) ->
  liveFromManifests walkPayloads walkCancel u filter = (acc, None) ->
  stored_manifest u m -> filter = "" \/ mTenant m = filter -> x ∈ manifestBlobs m -> x ∈ acc.1.
Proof.
  intros Ht Hl (k & v & b & md & Hs & Hj & Hf) Hdom Hx. specialize (Ht _ _ _ _ _ Hs Hj Hf).
  revert Hl. unfold liveFromManifests. destruct walkPayloads as [wp|] eqn:Hwp.
  - destruct (wp u) as [rows werr] eqn:Hu. destruct (walkRows _ _ _ _ _) as [acc' oe] eqn:Hw.
    intros [= <- He]. destruct oe; [done|]. cbn in He. subst werr.
    eapply (walkRows_adds walkCancel _ (fun acc : gset string * Z => x ∈ acc.1)); [| by eapply walkPayloads_ok| |exact Hw].
    + intros [[[? ?] md'] ?] a Ha. unfold payloadRow. destruct (isChunkedManifest md'); [by apply addLive_grows|done].
    + intros a. unfold payloadRow. rewrite Ht. by eapply addLive_marks.
  - destruct (sWalk u) as [rows werr] eqn:Hu. destruct (walkRows _ _ _ _ _) as [acc' oe] eqn:Hw.
    intros [= <- He]. destruct oe; [done|]. cbn in He. subst werr.
    eapply (walkRows_adds walkCancel _ (fun acc : gset string * Z => x ∈ acc.1) _ _ _ _ (k, v, md)); [| | |exact Hw].
    + intros [[? ?] md'] a Ha. unfold getRow. destruct (isChunkedManifest md'); [|done].
      destruct (sGet _ _ _) as [[[] ?]|]; [by apply addLive_grows|done..].
    + eapply swalk_sound; [exact Hu|]. by exists b.
    + intros a. unfold getRow. rewrite Ht. erewrite sget_total by exact Hs. by eapply addLive_marks.
Qed.
(** References whose blobs are kept stay backed. *)
Lemma manifest_kept s s' m cs :
  formed m -> (forall id x, id ∈ manifestBlobs m -> blobs s !! id = Some x -> blobs s' !! id = Some x) ->
  Forall2 (ref_backed s (mTenant m)) (Chunks m) cs -> Forall2 (ref_backed s' (mTenant m)) (Chunks m) cs.
Proof.
  intros Hf Hk Hb. unfold manifestBlobs in Hk. destruct Hf as [[Hv Hf]|[Hv Hf]]; rewrite Hv in Hk.
  - rewrite decide_True in Hk by done. eapply Forall2_impl_l; [exact Hb|]. intros ref c Hin.
    rewrite Forall_forall in Hf. destruct (Hf _ Hin) as [_ Hp]. unfold ref_backed. rewrite !decide_True by done.
    intros (stored & ts & Hs & H). exists stored, ts. split; [|done]. apply Hk; [|done].
    apply list_elem_of_fmap. by exists ref.
  - rewrite decide_False, decide_True in Hk by done. eapply Forall2_impl_l; [exact Hb|]. intros ref c Hin.
    rewrite Forall_forall in Hf. destruct (Hf _ Hin) as [_ Hp%digest_nonempty]. unfold ref_backed.
    rewrite !decide_False by done. intros (stored & ts & co & Hs & H). exists stored, ts, co. split; [|done].
    apply Hk; [|done]. apply list_elem_of_fmap. by exists ref.
Qed.

(** A scoped pass does not list the blobs of an isolated domain. *)
Lemma out_of_scope filter m id p :
  formed m -> filter <> "" -> tenantSegment filter <> tenantSegment (mTenant m) ->
  String.prefix (tenantSegment filter +:+ "-") (tenantSegment (mTenant m)) = false ->
  id ∈ manifestBlobs m -> p ∈ sweepPrefixesOf filter -> String.prefix p id = false.
Proof.
  intros Hf Hne Hseg Hpre Hid. unfold sweepPrefixesOf. rewrite decide_False by done.
  rewrite elem_of_cons, list_elem_of_singleton. unfold manifestBlobs in Hid.
  assert (Hno : forall kind h, is_digest h ->
    String.prefix (kind +:+ tenantSegment filter +:+ "-") (kind +:+ tenantSegment (mTenant m) +:+ "-" +:+ h) = false).
  { intros kind h Hh. apply not_true_is_false. rewrite (tenantPrefix_iff kind filter (mTenant m) h Hh).
    intros [?|?]; [done|congruence]. }
  destruct Hf as [[Hv Hf]|[Hv Hf]]; rewrite Hv in Hid.
  - rewrite decide_True in Hid by done. apply list_elem_of_fmap in Hid as (ref & -> & Hin).
    rewrite Forall_forall in Hf. destruct (Hf _ Hin) as [Hh _]. intros [-> | ->]; [by apply Hno|reflexivity].
  - rewrite decide_False, decide_True in Hid by done. apply list_elem_of_fmap in Hid as (ref & -> & Hin).
    rewrite Forall_forall in Hf. destruct (Hf _ Hin) as [_ Hh]. intros [-> | ->]; [reflexivity|by apply Hno].
Qed.

Lemma addPacks_marks filter packs acc acc' i p :
  walkRows walkCancel (addPack filter) i packs acc = (acc', None) -> p ∈ packs -> packBlobID filter p ∈ acc'.
Proof.
  intros Hw Hp. eapply (walkRows_adds walkCancel _ (fun acc => packBlobID filter p ∈ acc)); [|exact Hp| |exact Hw];
    unfold addPack; set_solver.
Qed.

(** What the sweep lists and a manifest needs is marked. *)
Lemma liveSet_marks g w filter res live m id p :
  gc_ready w -> isolated filter (wUps w) -> gHasAssoc g = false \/ assoc_covers (wDedup w) filter (wUps w) ->
  liveSet walkPayloads walkCancel g (wDedup w) (wUps w) filter = (res, Ok live) ->
  stored_manifest (wUps w) m -> id ∈ manifestBlobs m -> p ∈ sweepPrefixesOf filter ->
  String.prefix p id = true -> id ∈ live.
Proof.
  intros Hr Hiso Has Hl Hm Hid Hp Hpre.
  assert (Hform : formed m) by (destruct Hm as (k & v & b & md & Hs & Hj & Hf); by eapply gr_tagged).
  assert (Hdom : filter = "" \/ mTenant m = filter).
  { destruct Hiso as [|Hiso]; [by left|]. destruct (Hiso m Hm) as [|[H1 H2]]; [by right|].
    destruct (decide (filter = "")) as [|Hne]; [by left|].
    by rewrite (out_of_scope filter m id p Hform Hne H1 H2 Hid Hp) in Hpre. }
  revert Hl. unfold liveSet, liveFromAssociations.
  assert (Hman : forall acc, liveFromManifests walkPayloads walkCancel (wUps w) filter = (acc, None) -> id ∈ acc.1).
  { intros acc Ha. eapply liveFromManifests_marks; [|exact Ha|done..].
    intros k v b md m' Hs Hj Hf. by eapply gr_tagged. }
  destruct (negb (gHasAssoc g) || bool_decide (filter = "")) eqn:Hfast.
  { destruct (liveFromManifests _ _ _ _) as [[l n] [e|]]; [done|]. intros [= _ <-]. by apply (Hman (l, n)). }
  apply orb_false_iff in Hfast as [Hg Hne]. apply bool_decide_eq_false in Hne.
  destruct (aIsBackfilled _ _) as [[]|]; cbn; [| |done].
  2:{ destruct (liveFromManifests _ _ _ _) as [[l n] [e|]]; [done|]. intros [= _ <-]. by apply (Hman (l, n)). }
  destruct (aWalkLivePacks _ _) as [packs|] eqn:Hpk; cbn; [|done].
  destruct (walkRows _ _ _ _ _) as [l [e|]] eqn:Hw; [done|]. intros [= _ <-].
  destruct Has as [Has|Has]; [by rewrite Has in Hg|]. destruct Hdom as [|Hdom]; [done|].
  destruct (Has packs Hpk m Hm Hdom) as [Hv Hall]. unfold manifestBlobs in Hid.
  rewrite Hv, decide_False, decide_True in Hid by done. apply list_elem_of_fmap in Hid as (ref & -> & Hin).
  rewrite Forall_forall in Hall. rewrite Hdom. by eapply addPacks_marks; [exact Hw|apply Hall].
Qed.
(** Deleting one blob whose index entries are gone. *)
Lemma index_ok_delete d s s' id :
  index_ok d s -> blobs s' = delete id (blobs s) -> (forall dom h ref, entries d dom !! h = Some ref -> dom <> "") ->
  (forall dom ph, parsePackID id = Some (dom, ph) -> forall h ref, entries d dom !! h = Some ref -> rPackHash ref <> ph) ->
  index_ok d s'.
Proof.
  intros Hi Hs Hne Hp dom h ref He. destruct (Hi dom h ref He) as [Hd (x & stored & ts & co & Hb & H)].
  split; [done|]. exists x, stored, ts, co. split; [|done]. rewrite Hs, lookup_delete_ne; [done|]. intros ->.
  eapply (Hp (tenantSegment dom)); [by apply parsePackID_pack| |done].
  unfold tenantSegment. rewrite decide_False by (by eapply Hne). exact He.
Qed.

Lemma index_ok_fewer d d' s : fewer_entries d' d -> index_ok d s -> index_ok d' s.
Proof. intros Hf Hi dom h ref He. by apply Hi, Hf. Qed.

(** The invariant of a sweep over [w]. *)
Definition sweep_ok (w : world) (st : sweepState) : Prop :=
  (forall m id x, stored_manifest (wUps w) m -> id ∈ manifestBlobs m -> blobs (wBlobs w) !! id = Some x ->
     blobs (swBlobs st) !! id = Some x) /\
  fewer_entries (swDedup st) (wDedup w) /\ index_ok (swDedup st) (swBlobs st).

Lemma visit_ok g w live md st :
  gc_ready w -> gHasIndex g = true \/ (forall dom, entries (wDedup w) dom = ∅) ->
  (forall m, stored_manifest (wUps w) m -> BlobID md ∈ manifestBlobs m -> BlobID md ∈ live) ->
  sweep_ok w st -> sweep_ok w (visit (fun _ x => x) clock g live md st).
Proof.
  intros Hr Hidx Hlive (Hk & Hf & Hi). destruct (visit_spec (fun _ x => x) clock g live md st) as (_ & Hf' & Hv).
  cbn [fst snd] in Hf', Hv.
  assert (Hf2 : fewer_entries (swDedup (visit (fun _ x => x) clock g live md st)) (wDedup w)) by (by intros ??? ?%Hf'%Hf).
  destruct Hv as [Hb|[Hb (Hnl & _ & _ & Hp)]].
  - split_and!; [by rewrite Hb|done|]. apply (index_ok_fewer _ _ _ Hf') in Hi. intros dom h ref He.
    destruct (Hi dom h ref He) as [? [x Hx]]. split; [done|]. exists x. eapply pack_backed_mono; [|exact Hx]. by rewrite Hb.
  - split_and!; [|done|].
    + intros m id x Hm Hid Hx. rewrite Hb, lookup_delete_ne; [by eapply Hk|]. intros E. subst id. by eapply Hnl, Hlive.
    + eapply index_ok_delete; [exact (index_ok_fewer _ _ _ Hf' Hi)|exact Hb|intros ??? ?%Hf2; by eapply gr_index|].
      destruct Hidx as [Hidx|Hidx]; [by apply Hp|]. intros dom ph _ h ref ?%Hf2. by rewrite Hidx, lookup_empty in *.
Qed.

Lemma sweep_ok_world w st :
  world_ok w -> gc_ready w -> sweep_ok w st ->
  world_ok (W (swBlobs st) (wUps w) (swDedup st)) /\ gc_ready (W (swBlobs st) (wUps w) (swDedup st)).
Proof.
  intros [Hs _] Hr (Hk & Hf & Hi). split; split; cbn.
  - intros k v b md Hb m Hj Hfm. destruct (Hs k v b md Hb m Hj Hfm) as [cs Hcs]. exists cs.
    eapply manifest_kept; [by eapply gr_tagged| |exact Hcs]. intros id x. apply Hk. by exists k, v, b, md.
  - done.
  - apply Hr.
  - intros dom h ref He%Hf. by eapply gr_index.
Qed.

Lemma run_sweep_ok g w filter st oe :
  world_ok w -> gc_ready w -> isolated filter (wUps w) ->
  gHasIndex g = true \/ (forall dom, entries (wDedup w) dom = ∅) ->
  gHasAssoc g = false \/ assoc_covers (wDedup w) filter (wUps w) ->
  run walkPayloads walkCancel sweepCancel (fun _ x => x) clock g (wDedup w) (wBlobs w) (wUps w) filter = (st, oe) ->
  sweep_ok w st.
Proof.
  intros Hw Hr Hiso Hidx Has Hrun.
  assert (H0 : forall b r n, sweep_ok w (MkSweep (wDedup w) (wBlobs w) b r n)) by (intros; split_and!; [done|apply fewer_refl|apply Hw]).
  revert Hrun. unfold run. destruct (liveSet _ _ _ _ _ _) as [res [live|e]] eqn:Hl; [|by intros [= <- _]].
  intros Hrun. replace st with (sweep sweepCancel (fun _ x => x) clock g (sweepPrefixesOf filter) live (wDedup w) (wBlobs w)
    (withLive (Z.of_nat (size live)) res)).1 by (by rewrite Hrun).
  apply sweep_inv; [|intros d b st' He (Hk & Hf & Hi); split_and!; [done|intros ???; cbn; rewrite He; apply Hf|]|by apply H0].
  - intros p md st' Hp Hpre Hst. apply visit_ok; [done|done| |done]. intros m Hm Hid.
    by eapply liveSet_marks.
  - by eapply index_ok_entries.
Qed.

(** A pass keeps the store whole.  Starting from a store where every
    snapshot is backed and every index entry names stored bytes, a pass over
    all domains, or over one that no other domain name extends, leaves such a
    store: no deletion breaks a snapshot, and no index entry outlives its
    pack, whichever blob and index calls fail and wherever it is cancelled. *)
Theorem gc_preserves_world g w filter st oe :
  world_ok w -> gc_ready w -> isolated filter (wUps w) ->
  gHasIndex g = true \/ (forall dom, entries (wDedup w) dom = ∅) ->
  gHasAssoc g = false \/ assoc_covers (wDedup w) filter (wUps w) ->
  run walkPayloads walkCancel sweepCancel (fun _ x => x) clock g (wDedup w) (wBlobs w) (wUps w) filter = (st, oe) ->
  world_ok (W (swBlobs st) (wUps w) (swDedup st)) /\ gc_ready (W (swBlobs st) (wUps w) (swDedup st)).
Proof. intros. by apply sweep_ok_world; [..|eapply run_sweep_ok]. Qed.
End Whole.

(** ** What a pass removes *)

Section Exact.
  Context {Sto : Storage} {L : StorageLaws Sto} {Rel : StorageReliable Sto} {U : SnapshotStore}
          {D : DedupStore} {DL : DedupStoreLaws D} {DRel : DedupStoreReliable D} {A : PackAssocStore D} {J : ManifestCodec}.
  Context (walkPayloads : option (sstore -> list (SnapshotKey * string * SnapshotMetadata * bytes) * option err))
          (walkCancel : nat -> option err) (now : Z) (g : ChunkedGC).

#[local] Abbreviation visit1 := (visit (fun _ x => x) (fun _ => now) g).
#[local] Abbreviation rows1 := (sweepRows (fun _ => None) (fun _ x => x) (fun _ => now) g).
#[local] Abbreviation prefixes1 := (sweepPrefixes (fun _ => None) (fun _ x => x) (fun _ => now) g).

(** Unmarked and old. *)
Definition garbage (live : gset string) (id : string) (x : bytes * Z) : Prop :=
  (id ∉ live) /\ ~ (0 < SafetyWindow g /\ now - x.2 < SafetyWindow g).

#[local] Instance garbage_dec live id x : Decision (garbage live id x).
Proof. apply _. Defined.

(** [m] without the garbage satisfying [P]. *)
Definition swept (live : gset string) (P : string -> Prop) `{!forall id, Decision (P id)}
  (m : gmap string (bytes * Z)) : gmap string (bytes * Z) :=
  filter (fun x => ~ (P x.1 /\ garbage live x.1 x.2)) m.

Lemma purgeFor_total d id : (purgeFor g d id).2 = Ok tt.
Proof.
  unfold purgeFor. destruct (gHasIndex g); [|done]. destruct (parsePackID id) as [[dom ph]|]; [|done]. apply purge_total.
Qed.

Lemma visit_exact live md st c :
  blobs (swBlobs st) !! BlobID md = Some (c, Timestamp md) ->
  blobs (swBlobs (visit1 live md st)) = swept live (fun id => id = BlobID md) (blobs (swBlobs st)).
Proof.
  intros Hc. unfold visit, swept. case_decide as Hl.
  - destruct (offer _ _ _ _ _). cbn. symmetry. apply map_filter_id. intros id x _ [Hp [Hg _]]. cbn in *. congruence.
  - unfold sweepOrphan. destruct (GetMetadata _ _) as [cur|e] eqn:Hm.
    2:{ pose proof (meta_whole (swBlobs st) (BlobID md)) as Ht. rewrite Hc, Hm in Ht. cbn in Ht. naive_solver. }
    apply meta_sound in Hm as (c' & Hm & _). assert (Timestamp cur = Timestamp md) as -> by congruence.
    rewrite Z.eqb_refl. cbn [negb].
    destruct ((0 <? SafetyWindow g) && (now - Timestamp md <? SafetyWindow g)) eqn:Hy.
    + cbn. symmetry. apply map_filter_id. intros id x Hx [Hp [_ Hg]]. cbn in *. subst id.
      rewrite Hc in Hx. injection Hx as <-. apply Hg. cbn. lia.
    + pose proof (purgeFor_total (swDedup st) (BlobID md)) as Hp. destruct (purgeFor _ _ _) as [d1 ?]. cbn in Hp. subst.
      pose proof (del_total (swBlobs st) (BlobID md)) as Hd. rewrite Hc in Hd. specialize (Hd ltac:(done)).
      destruct (DeleteBlob _ _) as [s1 ?] eqn:Ed. cbn in Hd. subst. apply del_ok in Ed. cbn. rewrite Ed.
      apply map_eq. intros id. rewrite map_lookup_filter. destruct (decide (id = BlobID md)) as [->|Hne].
      * rewrite lookup_delete_eq, Hc. cbn. rewrite option_guard_False; [done|]. intros Hn. apply Hn.
        split; [done|]. split; cbn; [done|]. lia.
      * rewrite lookup_delete_ne by done. destruct (blobs (swBlobs st) !! id); cbn; [|done].
        rewrite option_guard_True; [done|]. cbn. tauto.
Qed.

Lemma swept_swept live P Q `{!forall id, Decision (P id)} `{!forall id, Decision (Q id)} m :
  swept live Q (swept live P m) = swept live (fun id => P id \/ Q id) m.
Proof.
  unfold swept. rewrite map_filter_filter. apply map_filter_ext. intros id x _. cbn. tauto.
Qed.

Lemma swept_ext live P Q `{!forall id, Decision (P id)} `{!forall id, Decision (Q id)} m :
  (forall id x, m !! id = Some x -> P id <-> Q id) -> swept live P m = swept live Q m.
Proof. intros Hpq. unfold swept. apply map_filter_ext. intros id x Hx. cbn. by rewrite (Hpq id x Hx). Qed.

Lemma rows_exact live rows st :
  NoDup (BlobID <$> rows) -> (forall md, md ∈ rows -> exists c, blobs (swBlobs st) !! BlobID md = Some (c, Timestamp md)) ->
  (rows1 live rows st).2 = None /\
  blobs (swBlobs (rows1 live rows st).1) = swept live (fun id => id ∈ (BlobID <$> rows)) (blobs (swBlobs st)).
Proof.
  revert st; induction rows as [|md rows IH]; intros st Hn Hin.
  - split; [done|]. cbn. unfold swept. symmetry. apply map_filter_id. intros id x _ [Hp _]. by apply not_elem_of_nil in Hp.
  - cbn [fmap list_fmap] in *. apply NoDup_cons in Hn as [Hnot Hn]. cbn [sweepRows].
    destruct (Hin md) as [c Hc]; [by left|]. pose proof (visit_exact live md st c Hc) as Hv.
    destruct (IH (visit1 live md st) Hn) as [IH1 IH2].
    { intros md' Hmd'. destruct (Hin md') as [c' Hc']; [by right|]. exists c'. rewrite Hv.
      apply map_lookup_filter_Some. split; [done|]. intros [Hid _]. apply Hnot. cbn in Hid. rewrite <- Hid.
      apply list_elem_of_fmap. by exists md'. }
    split; [done|]. rewrite IH2, Hv, swept_swept. apply swept_ext. intros id x _. by rewrite elem_of_cons.
Qed.

Lemma prefixes_exact live prefixes st :
  (prefixes1 live prefixes st).2 = None /\
  blobs (swBlobs (prefixes1 live prefixes st).1) =
    swept live (fun id => Exists (fun p => String.prefix p id = true) prefixes) (blobs (swBlobs st)).
Proof.
  revert st; induction prefixes as [|p prefixes IH]; intros st.
  - split; [done|]. cbn. unfold swept. symmetry. apply map_filter_id. intros id x _ [Hp _]. by apply Exists_nil in Hp.
  - cbn [sweepPrefixes]. pose proof (list_total (swBlobs st) p) as Ht.
    destruct (ListBlobs (swBlobs st) p) as [rows lerr] eqn:El. cbn in Ht. subst lerr.
    apply list_sound in El as (Hn & Hs & Hc). destruct (rows_exact live rows st Hn) as [Hr1 Hr2].
    { intros md Hmd. destruct (Hs md Hmd) as (_ & c & Hb & _). eauto. }
    destruct (rows1 live rows st) as [st1 oe]. cbn in Hr1, Hr2. subst oe. cbn [first_err].
    destruct (IH st1) as [IH1 IH2]. split; [done|]. rewrite IH2, Hr2, swept_swept. apply swept_ext.
    intros id [c ts] Hb. rewrite Exists_cons. f_equiv. rewrite list_elem_of_fmap. split.
    + intros (md & -> & Hmd). by apply Hs.
    + intros Hp. exists (Meta id (len c) ts). split; [done|]. by apply Hc.
Qed.

(** What a pass removes.  On backends that are up and with nobody else
    running, a pass whose live set could be built removes exactly the blobs
    under its prefixes that are not live and not younger than the safety
    window, and leaves every other blob as it was. *)
Theorem gc_exact d s u filter res live :
  liveSet walkPayloads walkCancel g d u filter = (res, Ok live) ->
  let out := run walkPayloads walkCancel (fun _ => None) (fun _ x => x) (fun _ => now) g d s u filter in
  out.2 = None /\
  forall id, blobs (swBlobs out.1) !! id =
    match blobs s !! id with
    | Some x => if decide (Exists (fun p => String.prefix p id = true) (sweepPrefixesOf filter) /\ garbage live id x)
                then None else Some x
    | None => None
    end.
Proof.
  intros Hl. unfold run. rewrite Hl. unfold sweep.
  match goal with |- context [prefixes1 live _ ?st] => destruct (prefixes_exact live (sweepPrefixesOf filter) st) as [H1 H2] end.
  destruct (prefixes1 live _ _) as [st oe]. cbn in H1, H2. subst oe. destruct (bfFlush _ _ _). cbn. split; [done|].
  intros id. rewrite H2. unfold swept. rewrite map_lookup_filter. destruct (blobs s !! id) as [x|]; cbn; [|done].
  case_decide as Hd; [rewrite option_guard_False|rewrite option_guard_True]; cbn; tauto.
Qed.
End Exact.
