(* ===== verification/MetaOps.v ===== *)
(** Operations on manifests that move no chunk bytes: [UpdateLatestMeta]
    (casstore/snapshot/store_chunked.go), [RegisterManifest] and
    [ManifestChunks] (store_register.go).

    The definitions are in ChunkedWrite; here is what they guarantee: a
    metadata update publishes the same payload under the overlaid tags, and
    the chunk list registered under a key is the chunk list read back. *)

From S2P Require Import Prelude GoStrings Sha256 PackFormat BlobStore Manifest SnapStore DedupIndex ChunkedWrite.

(** ** Tag overlay *)

Lemma foldl_overlay (l : list (string * string)) (old : gmap string string) k :
  NoDup (fst <$> l) ->
  foldl overlay old l !! k =
    match list_to_map (M := gmap string string) l !! k with
    | Some v => if decide (v = "") then None else Some v
    | None => old !! k
    end.
Proof.
  revert old; induction l as [|[k' v'] l IH]; intros old Hn; cbn; [by rewrite lookup_empty|].
  cbn in Hn. apply NoDup_cons in Hn as [Hnot Hn]. rewrite IH by done.
  destruct (decide (k = k')) as [->|Hne].
  - rewrite (not_elem_of_list_to_map_1 l k' Hnot), lookup_insert_eq. unfold overlay. cbn.
    case_decide; [apply lookup_delete_eq|apply lookup_insert_eq].
  - rewrite lookup_insert_ne by done. destruct (list_to_map l !! k); [done|]. unfold overlay. cbn.
    case_decide; [by rewrite lookup_delete_ne|by rewrite lookup_insert_ne].
Qed.

(** An empty value deletes, any other replaces, an unmentioned tag stays. *)
Lemma mergeTags_lookup old tags k :
  mergeTags old tags !! k =
    match tags !! k with
    | Some v => if decide (v = "") then None else Some v
    | None => old !! k
    end.
Proof.
  unfold mergeTags. rewrite foldl_overlay by apply NoDup_fst_map_to_list. by rewrite list_to_map_to_list.
Qed.

(** ** Metadata updates *)

Section Meta.
  Context {U : SnapshotStore} {SL : SnapshotStoreLaws U} {J : ManifestCodec} {JL : ManifestCodecLaws}.

(** The payload [b] with metadata [md] is the key's latest. *)
Definition is_latest (u : sstore) (key : SnapshotKey) (b : bytes) (md : SnapshotMetadata) : Prop :=
  snaps u !! (key, Version md) = Some (b, md) /\
  forall v, is_Some (snaps u !! (key, v)) -> str_ltb (Version md) v = false.

Lemma UpdateLatestMeta_ok u key tags u' md' :
  UpdateLatestMeta u key tags = (u', Ok md') ->
  exists b md m, is_latest u key b md /\ json_Unmarshal b = Some m /\
    (Format m = manifestFormatV1 \/ Format m = manifestFormatV2) /\
    snaps u !! (key, Version md') = None /\ snaps u' = <[(key, Version md') := (b, md')]> (snaps u) /\
    Tags md' = mergeTags (Tags md) tags.
Proof.
  unfold UpdateLatestMeta. destruct (sGetLatest u key) as [[[b|e] md]|e] eqn:Hl; [|done..].
  apply slatest_sound in Hl as (b' & Hb & [[= <-]|[e ?]] & Hmax); [|done].
  destruct (json_Unmarshal b) as [m|] eqn:Hj; [|done]. case_decide as Hf; [|done].
  intros Hp. apply sput_ok in Hp as (Hn & Hs & _ & _ & Ht). by exists b, md, m.
Qed.

Lemma UpdateLatestMeta_err u key tags u' e : UpdateLatestMeta u key tags = (u', Err e) -> snaps u' = snaps u.
Proof.
  unfold UpdateLatestMeta. destruct (sGetLatest u key) as [[[b|] md]|]; [|by intros [= <- _]..].
  destruct (json_Unmarshal b); [|by intros [= <- _]]. case_decide; [|by intros [= <- _]]. apply sput_err.
Qed.

(** A metadata update moves no bytes.  On success the latest payload is
    published unchanged under a new version whose tags are the old ones
    overlaid with the request (an empty value deletes its tag), and every
    other snapshot stays; on failure no snapshot changes. *)
Theorem UpdateLatestMeta_spec u key tags u' res :
  UpdateLatestMeta u key tags = (u', res) ->
  match res with
  | Err _ => snaps u' = snaps u
  | Ok md' => exists b md, is_latest u key b md /\
      snaps u !! (key, Version md') = None /\ snaps u' = <[(key, Version md') := (b, md')]> (snaps u) /\
      forall k, Tags md' !! k = match tags !! k with
                                | Some v => if decide (v = "") then None else Some v
                                | None => Tags md !! k
                                end
  end.
Proof.
  destruct res as [md'|e]; [|apply UpdateLatestMeta_err].
  intros (b & md & m & ? & _ & _ & ? & ? & Ht)%UpdateLatestMeta_ok. exists b, md. split_and!; [done..|].
  intros k. rewrite Ht. apply mergeTags_lookup.
Qed.

(** ** Registering chunks *)

Lemma registerRef_ok loc ref :
  registerRef loc = Ok ref ->
  refLocation ref = Ok loc /\ Hash ref = ChunkHash loc /\ PackHash ref = rPackHash (locRef loc) /\ 0 < Size ref /\ 0 <= Offset ref.
Proof.
  unfold registerRef, refLocation. case_decide; [done|].
  destruct (Z.leb_spec (rSize (locRef loc)) 0); [done|]. destruct (Z.ltb_spec (rOffset (locRef loc)) 0); [done|].
  intros [= <-]. cbn. rewrite decide_False by done. destruct loc as [h [p o z]]. done.
Qed.

Lemma registerRefs_ok locs refs :
  mapR registerRef locs = Ok refs -> mapR refLocation refs = Ok locs /\
  Forall2 (fun loc ref => Hash ref = ChunkHash loc /\ PackHash ref = rPackHash (locRef loc)) locs refs.
Proof.
  revert refs; induction locs as [|loc locs IH]; intros refs; cbn; [by intros [= <-]|].
  destruct (registerRef loc) as [ref|] eqn:E; [|done]. cbn. destruct (mapR registerRef locs) as [refs'|]; [|done].
  cbn. intros [= <-]. apply registerRef_ok in E as (E & ? & ? & _). destruct (IH refs' eq_refl) as [IH1 IH2].
  cbn. rewrite E. cbn. rewrite IH1. by split; [|constructor].
Qed.

(** Registration refuses exactly the locations that cannot be v2 references. *)
Lemma registerRef_refuses loc :
  is_ok (registerRef loc) = false <->
  rPackHash (locRef loc) = "" \/ rSize (locRef loc) <= 0 \/ rOffset (locRef loc) < 0.
Proof.
  unfold registerRef. case_decide; [cbn; tauto|].
  destruct (Z.leb_spec (rSize (locRef loc)) 0); [cbn; split; [intros _; lia|done]|].
  destruct (Z.ltb_spec (rOffset (locRef loc)) 0); cbn; split; try done; lia || (intros [?|[?|?]]; done || lia).
Qed.

Definition loc_digests (loc : ChunkLocation) : Prop := is_digest (ChunkHash loc) /\ is_digest (rPackHash (locRef loc)).

(** The manifest a registration writes. *)
Lemma RegisterManifest_written c u key md locs u' md' :
  Forall loc_digests locs -> json_safe (domainFor c key) ->
  RegisterManifest c u key md locs = (u', Ok md') ->
  exists m md0, sPut u key md0 (json_Marshal m) = (u', Ok md') /\ tag md0 "chunked_format" = manifestFormatV2 /\
    json_Unmarshal (json_Marshal m) = Some m /\ formed m /\ Format m = manifestFormatV2 /\
    mTenant m = domainFor c key /\ mapR registerRef locs = Ok (Chunks m) /\ mapR refLocation (Chunks m) = Ok locs.
Proof.
  intros Hd Hj. unfold RegisterManifest. destruct (mapR registerRef locs) as [refs|] eqn:Hr; [|done].
  unfold writeManifest. intros Hp. apply registerRefs_ok in Hr as Hr2. destruct Hr2 as [Hback Hall].
  assert (Hdig : Forall (fun ref => is_digest (Hash ref) /\ is_digest (PackHash ref)) refs).
  { eapply (Forall2_Forall_r _ _ locs refs Hall). eapply Forall_impl; [exact Hd|]. intros loc [? ?] ref [-> ->]. done. }
  do 2 eexists. split_and!; [exact Hp|..]; cbn; try done.
  - unfold tag. cbn. by rewrite lookup_insert_eq.
  - apply json_round; cbn; [by apply json_safe_ascii|done|]. eapply Forall_impl; [exact Hdig|].
    intros ref [? ?]. split; by apply json_safe_ascii, digest_ascii.
  - right. by split.
Qed.

(** The bridge round trip.  The chunk list registered under a key is the
    chunk list read back from it, in order and byte position, when the
    registration got the newest version; no chunk bytes are involved. *)
Theorem register_then_chunks {SR : SnapshotStoreReadable U} c u key md locs u' md' :
  Forall loc_digests locs -> json_safe (domainFor c key) ->
  RegisterManifest c u key md locs = (u', Ok md') -> newest u key (Version md') ->
  ManifestChunks u' key = Ok locs.
Proof.
  intros Hd Hj Hr Hn. destruct (RegisterManifest_written c u key md locs u' md' Hd Hj Hr)
    as (m & md0 & Hp & _ & Hu & _ & Hf & _ & _ & Hback).
  unfold ManifestChunks. rewrite (latest_after_put _ _ _ _ _ _ Hp Hn). cbn [mbind result_bind].
  by rewrite Hu, Hf, decide_True.
Qed.
End Meta.
