(* ===== verification/Lifecycle.v ===== *)
(** The life of a snapshot: any history of puts, batches, metadata updates,
    registrations, snapshot deletions and garbage collection passes.

    [store_step] is one such operation on the whole store (blobs, manifests,
    dedup index); failed operations are steps too.  The invariant of
    PutGet ([world_ok]) and GCSpec ([gc_ready]) holds in every reachable store,
    and a snapshot that was put reads back its bytes as long as nobody deletes
    its version. *)

From S2P Require Import Prelude GoStrings Sha256 PackFormat BlobStore Manifest SnapStore DedupIndex Reclaim ChunkedRead ChunkedWrite PutSpec PutGet BatchSpec GC GCSpec MetaOps.

Section Life.
  Context {Clib : CodecLib} {Claws : CodecLaws} {Sto : Storage} {L : StorageLaws Sto}
          {U : SnapshotStore} {SL : SnapshotStoreLaws U} {SR : SnapshotStoreReadable U}
          {D : DedupStore} {DL : DedupStoreLaws D} {A : PackAssocStore D}
          {Sp : Splitter} {Spl : SplitterLaws Sp} {J : ManifestCodec} {JL : ManifestCodecLaws}.

(** *** Puts keep the collector's conditions *)

Definition sess_domain (sess : DedupSession) : option string :=
  match sess with priorManifestSession _ => None | globalSession dom _ => Some dom end.

Lemma flushPack_session c dom codec st :
  sess_domain (psSess (flushPack c dom codec st).1) = sess_domain (psSess st).
Proof.
  unfold flushPack. destruct (packBuf st); [done|]. destruct (storePackBlob _ _ _ _); [|done].
  destruct (PutIfAbsent _ _ _) as [s1 [[]|]]; [|done].
  assert (H : forall es chunks sess, sess_domain (foldl (backfill (sha256_hex (b :: l))) (chunks, sess) es).2 = sess_domain sess).
  { intros es. induction es as [|e es IH]; intros chunks sess; [done|].
    cbn [foldl]. unfold backfill at 2. cbv zeta. rewrite IH. by destruct sess. }
  specialize (H (packEntries st) (psChunks st) (psSess st)). by destruct (foldl _ _ _).
Qed.

Lemma emitAll_session c dom codec cs st :
  sess_domain (psSess (emitAll (emitChunk c dom codec) st cs).1) = sess_domain (psSess st).
Proof.
  revert st; induction cs as [|x cs IH]; intros st; cbn; [done|].
  assert (H : sess_domain (psSess (emitChunk c dom codec st x).1) = sess_domain (psSess st)).
  { unfold emitChunk. destruct x; [done|]. destruct (match sessLookup _ _ _ with Some _ => _ | None => _ end); [done|].
    cbv zeta. destruct (_ <=? _); [|done]. by rewrite flushPack_session. }
  destruct (emitChunk c dom codec st x) as [st1 [[]|]]; cbn in *; [|done]. by rewrite IH.
Qed.

(** A put adds index entries in its own domain only. *)
Lemma putV2_domains c w key md r dom h ref :
  entries (wDedup (putV2 c w key md r).1) dom !! h = Some ref ->
  entries (wDedup w) dom !! h = Some ref \/ dom = domainFor c key.
Proof.
  unfold putV2. rewrite streamIn_chunks by done. set (st0 := PS _ _ _ _ _ _ _).
  pose proof (emitAll_entries c (domainFor c key) (codecFor c md) (chunksOf r) st0) as H1.
  pose proof (emitAll_session c (domainFor c key) (codecFor c md) (chunksOf r) st0) as Hs1.
  destruct (emitAll _ st0 _) as [st1 [[]|]]; cbn in H1, Hs1; [|cbn; rewrite H1; by left].
  destruct (_.2) as [[]|]; [|cbn; rewrite H1; by left].
  pose proof (flushPack_entries c (domainFor c key) (codecFor c md) st1) as H2.
  pose proof (flushPack_session c (domainFor c key) (codecFor c md) st1) as Hs2.
  destruct (flushPack _ _ _ st1) as [st2 [[]|]]; cbn in H2, Hs2; [|cbn; rewrite H2, H1; by left].
  assert (Hc : forall h ref, entries (sessCommit (psDedup st2) (psSess st2)).1 dom !! h = Some ref ->
    entries (wDedup w) dom !! h = Some ref \/ dom = domainFor c key).
  { intros h' ref'. unfold sessCommit. assert (He : entries (psDedup st2) = entries (wDedup w)) by (by rewrite H2, H1).
    rewrite Hs1 in Hs2. unfold sess_domain, st0, NewSession in Hs2. cbn in Hs2.
    destruct (psSess st2) as [idx|d0 [|loc p]]; cbn; [rewrite He; by left..|].
    destruct (dRecord _ _ _) as [d1 rr] eqn:Er. intros Hin.
    destruct (record_sound _ _ _ _ _ Er _ _ _ Hin) as [Ho|[-> _]]; [left; by rewrite <- He|right].
    destruct (index c); congruence. }
  destruct (sessCommit _ _) as [d1 [[]|]]; cbn in Hc; [|apply Hc].
  pose proof (associatePacks_entries c d1 (domainFor c key) (contextFor key md) (psChunks st2)) as H3.
  destruct (associatePacks _ _ _ _ _) as [d2 [[]|]]; cbn in H3; [|cbn; rewrite H3; apply Hc].
  destruct (writeManifest _ _ _ _ _). cbn. rewrite H3. apply Hc.
Qed.

Lemma Put_gc_ready c w key md r w' res :
  gc_ready w -> put_ready c w key md (chunksOf r) -> json_safe (domainFor c key) -> domainFor c key <> "" ->
  Put c w key md r = (w', res) -> gc_ready w'.
Proof.
  intros Hg Hr Hj Hne Hp. split.
  - intros k v b md1 m Hb Hm Hf. destruct res as [md'|e].
    2:{ pose proof (Put_adds c w key md r w' _ Hp) as (_ & _ & Hsame). rewrite Hsame in Hb by done. by eapply gr_tagged. }
    destruct (Put_upstream c w key md r w' md' Hp) as (md0 & b0 & Hu & Htag). apply sput_ok in Hu as (_ & Hu & _ & _ & Ht).
    destruct (Put_written c w key md r w' md' Hr Hp) as (data & m0 & _ & _ & Hten & Hfm & _ & Hs).
    rewrite Hu in Hb, Hs. rewrite lookup_insert_eq in Hs. injection Hs as ->.
    apply lookup_insert_Some in Hb as [[_ [= <- <-]]|[_ Hb]]; [|by eapply gr_tagged].
    rewrite (manifest_round _ _ Hj Hten Hfm) in Hm. injection Hm as <-. split; [|done].
    unfold isChunkedManifest, tag. rewrite Ht. fold (tag md0 "chunked_format").
    destruct Htag as [-> | ->]; [by rewrite bool_decide_true|by rewrite orb_comm, bool_decide_true].
  - intros dom h ref He. revert Hp. unfold Put. destruct (packTargetBytes c =? packingDisabled); intros Hp.
    + pose proof (putV1_dedup c w key md r) as Hd. rewrite Hp in Hd. cbn in Hd. rewrite Hd in He. by eapply gr_index.
    + destruct (putV2_domains c w key md r dom h ref) as [Ho| ->]; [by rewrite Hp|by eapply gr_index|done].
Qed.

Lemma PutBatch_gc_ready c dom w items w' res :
  world_ok w -> gc_ready w -> batch_conditions c dom w items -> json_safe dom -> dom <> "" ->
  PutBatch c w items = (w', res) -> gc_ready w'.
Proof.
  intros Hw Hg Hc Hj Hne Hp. destruct (batch_world c dom w items w' res Hw Hc Hj Hp) as (_ & _ & _ & Hs & Hd). split.
  - intros k v b md m Hb Hm Hf. destruct (Hs k v b md Hb) as [Ho|(m' & it & _ & _ & (Hfm & _) & -> & Hu & Ht)]; [by eapply gr_tagged|].
    rewrite Hu in Hm. injection Hm as <-. split; [|done]. unfold isChunkedManifest. rewrite Ht. by rewrite orb_comm, bool_decide_true.
  - intros d h ref He. destruct (Hd d h ref He) as [Ho| ->]; [by eapply gr_index|done].
Qed.

(** *** Histories *)

Inductive action := APut | ABatch | AMeta | ARegister | AGC | ADelete (k : SnapshotKey) (v : string).

(** Locations backed by stored packs of the domain. *)
Definition locs_backed (s : storage) (dom : string) (locs : list ChunkLocation) : Prop :=
  Forall (fun loc => loc_digests loc /\ exists x, pack_backed s (packBlobID dom (rPackHash (locRef loc)))
    (MkRef (ChunkHash loc) (rPackHash (locRef loc)) (rOffset (locRef loc)) (rSize (locRef loc))) x) locs.

Inductive store_step : action -> world -> world -> Prop :=
| step_put c w key md r w' res :
    put_ready c w key md (chunksOf r) -> json_safe (domainFor c key) -> domainFor c key <> "" ->
    Put c w key md r = (w', res) -> store_step APut w w'
| step_batch c dom w items w' res :
    batch_conditions c dom w items -> json_safe dom -> dom <> "" ->
    PutBatch c w items = (w', res) -> store_step ABatch w w'
| step_meta w key tags u' res :
    tags !! "chunked_format" = None -> UpdateLatestMeta (wUps w) key tags = (u', res) ->
    store_step AMeta w (W (wBlobs w) u' (wDedup w))
| step_register c w key md locs u' res :
    json_safe (domainFor c key) -> locs_backed (wBlobs w) (domainFor c key) locs ->
    RegisterManifest c (wUps w) key md locs = (u', res) -> store_step ARegister w (W (wBlobs w) u' (wDedup w))
| step_gc wp walkCancel sweepCancel clock g w filter st oe :
    (forall f u rows, wp = Some f -> f u = (rows, None) ->
       forall k v b md, snaps u !! (k, v) = Some (b, md) -> (k, v, md, b) ∈ rows) ->
    isolated filter (wUps w) -> gHasIndex g = true -> gHasAssoc g = false ->
    run wp walkCancel sweepCancel (fun _ x => x) clock g (wDedup w) (wBlobs w) (wUps w) filter = (st, oe) ->
    store_step AGC w (W (swBlobs st) (wUps w) (swDedup st))
| step_delete w k v u' res :
    sDelete (wUps w) k v = (u', res) -> store_step (ADelete k v) w (W (wBlobs w) u' (wDedup w)).

Inductive store_steps : list action -> world -> world -> Prop :=
| steps_nil w : store_steps [] w w
| steps_cons a l w1 w2 w3 : store_step a w1 w2 -> store_steps l w2 w3 -> store_steps (a :: l) w1 w3.

(** A snapshot version with its bytes. *)
Definition holds (w : world) (k : SnapshotKey) (v : string) (md : SnapshotMetadata) (data : bytes) : Prop :=
  exists b m cs, snaps (wUps w) !! (k, v) = Some (b, md) /\ json_Unmarshal b = Some m /\ formed m /\
    Forall2 (ref_backed (wBlobs w) (mTenant m)) (Chunks m) cs /\ concat cs = data.

Definition life_ok (w : world) : Prop := world_ok w /\ gc_ready w.

(** One more manifest that is backed, tagged and formed. *)
Lemma life_ok_insert w u' k v b md m cs :
  life_ok w -> snaps u' = <[(k, v) := (b, md)]> (snaps (wUps w)) -> json_Unmarshal b = Some m ->
  isChunkedManifest md = true -> formed m -> Forall2 (ref_backed (wBlobs w) (mTenant m)) (Chunks m) cs ->
  life_ok (W (wBlobs w) u' (wDedup w)).
Proof.
  intros [[Hs Hi] Hg] Hu Hj Ht Hf Hb. split; split; cbn; [|done| |apply Hg].
  - intros k1 v1 b1 md1. rewrite Hu. intros [[_ [= <- <-]]|[_ H]]%lookup_insert_Some; [|by eapply Hs].
    intros m' Hm' _. rewrite Hj in Hm'. injection Hm' as <-. by exists cs.
  - intros k1 v1 b1 md1 m1. rewrite Hu. intros [[_ [= <- <-]]|[_ H]]%lookup_insert_Some Hm1; [|by eapply gr_tagged].
    intros _. rewrite Hj in Hm1. by injection Hm1 as <-.
Qed.

Lemma life_ok_fewer w u' : life_ok w -> snaps u' ⊆ snaps (wUps w) -> life_ok (W (wBlobs w) u' (wDedup w)).
Proof.
  intros [[Hs Hi] Hg] Hu. split; split; cbn; [|done| |apply Hg].
  - intros k v b md H. eapply Hs. by eapply lookup_weaken.
  - intros k v b md m H. eapply gr_tagged; [done|]. by eapply lookup_weaken.
Qed.

Lemma meta_life w key tags u' res :
  life_ok w -> tags !! "chunked_format" = None -> UpdateLatestMeta (wUps w) key tags = (u', res) ->
  life_ok (W (wBlobs w) u' (wDedup w)).
Proof.
  intros Hl Ht. destruct res as [md'|e]; [|intros He%UpdateLatestMeta_err; apply life_ok_fewer; [done|by rewrite He]].
  intros (b & md & m & [Hin _] & Hj & Hf & _ & Hu & Htags)%UpdateLatestMeta_ok. destruct Hl as [Hw Hg].
  destruct (gr_tagged w Hg _ _ _ _ _ Hin Hj Hf) as [Hc Hfm]. destruct (wo_snaps w Hw _ _ _ _ Hin m Hj Hf) as [cs Hcs].
  eapply life_ok_insert; [done|exact Hu|exact Hj| |done|exact Hcs].
  revert Hc. unfold isChunkedManifest, tag. by rewrite Htags, mergeTags_lookup, Ht.
Qed.

(** A location whose pack holds the chunk [x]. *)
Definition loc_holds (s : storage) (dom : string) (loc : ChunkLocation) (x : bytes) : Prop :=
  loc_digests loc /\ pack_backed s (packBlobID dom (rPackHash (locRef loc)))
    (MkRef (ChunkHash loc) (rPackHash (locRef loc)) (rOffset (locRef loc)) (rSize (locRef loc))) x.

Lemma locs_hold s dom locs : locs_backed s dom locs -> exists cs, Forall2 (loc_holds s dom) locs cs.
Proof.
  intros Hb. apply choose_all. intros loc Hin. unfold locs_backed in Hb. rewrite Forall_forall in Hb.
  destruct (Hb loc Hin) as [Hd [x Hx]]. by exists x.
Qed.

Lemma registered_backed s dom locs refs cs :
  Forall2 (loc_holds s dom) locs cs -> mapR registerRef locs = Ok refs -> Forall2 (ref_backed s dom) refs cs.
Proof.
  intros Hb. revert refs; induction Hb as [|loc x locs cs [[_ Hd] Hx] Hb IH]; intros refs; cbn; [by intros [= <-]|].
  destruct (registerRef loc) as [ref|] eqn:E; [|done]. cbn.
  destruct (mapR registerRef locs) as [refs'|]; [|done]. cbn. intros [= <-]. constructor; [|by apply IH].
  unfold registerRef in E. case_decide; [done|]. destruct (_ || _); [done|]. injection E as <-.
  unfold ref_backed. cbn. by rewrite decide_False.
Qed.

Lemma register_life c w key md locs u' res :
  life_ok w -> json_safe (domainFor c key) -> locs_backed (wBlobs w) (domainFor c key) locs ->
  RegisterManifest c (wUps w) key md locs = (u', res) -> life_ok (W (wBlobs w) u' (wDedup w)).
Proof.
  intros Hl Hj Hb. destruct res as [md'|e].
  - intros Hr. assert (Hd : Forall loc_digests locs) by (eapply Forall_impl; [exact Hb|]; by intros ? [? _]).
    destruct (RegisterManifest_written c _ key md locs u' md' Hd Hj Hr)
      as (m & md0 & Hp & Htag & Hu & Hfm & _ & Hten & Href & _).
    apply sput_ok in Hp as (_ & Hs & _ & _ & Ht).
    destruct (locs_hold _ _ _ Hb) as [cs Hcs]. apply (registered_backed _ _ _ _ _ Hcs) in Href as Hrb.
    eapply life_ok_insert; [done|exact Hs|exact Hu| |done|by rewrite Hten].
    unfold isChunkedManifest, tag. rewrite Ht. fold (tag md0 "chunked_format"). rewrite Htag.
    by rewrite orb_comm, bool_decide_true.
  - unfold RegisterManifest. intros Hr. apply life_ok_fewer; [done|].
    destruct (mapR registerRef locs); [|by injection Hr as <- _].
    unfold writeManifest in Hr. apply sput_err in Hr. by rewrite Hr.
Qed.

Lemma delete_snaps u k v u' res :
  sDelete u k v = (u', res) -> snaps u' = snaps u \/ snaps u' = delete (k, v) (snaps u).
Proof. destruct res as [[]|e]; intros H; [right; by apply sdelete_ok|by eapply sdelete_err]. Qed.

Lemma step_life a w w' : store_step a w w' -> life_ok w -> life_ok w'.
Proof.
  intros Hs Hl. destruct Hs.
  - destruct Hl as [Hw Hg]. split; [by eapply put_keeps_world|by eapply Put_gc_ready].
  - destruct Hl as [Hw Hg]. split; [by eapply batch_world|by eapply PutBatch_gc_ready].
  - by eapply meta_life.
  - by eapply register_life.
  - destruct Hl as [Hw Hg]. apply sweep_ok_world; [done|done|]. by eapply run_sweep_ok; eauto.
  - apply life_ok_fewer; [done|]. match goal with H : sDelete _ _ _ = _ |- _ => apply delete_snaps in H as [->| ->] end;
      [done|apply delete_subseteq].
Qed.

Lemma holds_mono w w' k v md data :
  snaps (wUps w) !! (k, v) = snaps (wUps w') !! (k, v) \/ snaps (wUps w) ⊆ snaps (wUps w') ->
  blobs (wBlobs w) ⊆ blobs (wBlobs w') -> holds w k v md data -> holds w' k v md data.
Proof.
  intros Hs Hb (b & m & cs & Hin & Hj & Hf & Hr & Hc). exists b, m, cs. split_and!; [|done|done| |done].
  - destruct Hs as [Hs|Hs]; [by rewrite <- Hs|by eapply lookup_weaken].
  - eapply Forall2_impl; [exact Hr|]. intros. by eapply ref_backed_mono.
Qed.

Lemma insert_fresh_subseteq u u' kv x :
  snaps u !! kv = None -> snaps u' = <[kv := x]> (snaps u) -> snaps u ⊆ snaps u'.
Proof. intros Hn ->. by apply insert_subseteq. Qed.

Lemma step_holds a w w' k v md data :
  store_step a w w' -> life_ok w -> a <> ADelete k v -> holds w k v md data -> holds w' k v md data.
Proof.
  intros Hs Hl Ha Hh. destruct Hs as [c w key md1 r w' res _ _ _ Hp|c dom w items w' res Hc Hj _ Hp|w key tags u' res _ Hp|c w key md1 locs u' res Hj Hb Hp
    |wp wc sc clock g w filter st oe Hwp Hiso Hi Has Hrun|w k1 v1 u' res Hp].
  - apply Put_adds in Hp as (Hb & Hs & _). eapply holds_mono; eauto.
  - destruct Hl as [Hw _]. destruct (batch_world c dom w items w' res Hw Hc Hj Hp) as (_ & Hb & Hs & _). eapply holds_mono; eauto.
  - apply (holds_mono w); [right|done|exact Hh]. destruct res as [md'|]; [|apply UpdateLatestMeta_err in Hp; cbn; by rewrite Hp].
    apply UpdateLatestMeta_ok in Hp as (b & md0 & m & _ & _ & _ & Hn & Hu & _). by eapply insert_fresh_subseteq.
  - apply (holds_mono w); [right|done|exact Hh]. cbn. revert Hp. unfold RegisterManifest, writeManifest.
    destruct (mapR registerRef locs); [|by intros [= <- _]].
    destruct res as [md'|]; [intros (Hn & Hu & _)%sput_ok|intros Hu%sput_err; by rewrite Hu]. by eapply insert_fresh_subseteq.
  - destruct Hh as (b & m & cs & Hin & Hj & Hf & Hr & Hc). exists b, m, cs. split_and!; [done..| |done].
    destruct Hl as [Hw Hg].
    destruct (run_sweep_ok wp wc sc clock Hwp g w filter st oe Hw Hg Hiso (or_introl Hi) (or_introl Has) Hrun) as [Hk _].
    eapply manifest_kept; [done| |exact Hr]. intros id x. apply Hk. exists k, v, b, md. split_and!; [done..|].
    by apply formed_format.
  - apply (holds_mono w); [left|done|exact Hh]. cbn. apply delete_snaps in Hp as [->| ->]; [done|].
    rewrite lookup_delete_ne; [done|]. congruence.
Qed.

Lemma steps_holds l w w' k v md data :
  store_steps l w w' -> life_ok w -> ADelete k v ∉ l -> holds w k v md data -> holds w' k v md data.
Proof.
  induction 1 as [|a l w1 w2 w3 Hs _ IH]; intros Hl Hn Hh; [done|]. rewrite not_elem_of_cons in Hn. destruct Hn as [Hn1 Hn2].
  apply IH; [by eapply step_life|done|]. eapply step_holds; eauto.
Qed.

Lemma holds_put c w key md r w' md' :
  put_ready c w key md (chunksOf r) -> json_safe (domainFor c key) -> Put c w key md r = (w', Ok md') ->
  exists data, inputOf r = Ok data /\ holds w' key (Version md') md' data.
Proof.
  intros Hr Hj Hp. destruct (Put_written c w key md r w' md' Hr Hp) as (data & m & Hin & Hcat & Ht & Hf & Hb & Hs).
  exists data. split; [done|]. exists (json_Marshal m), m, (chunksOf r).
  split_and!; [done|by eapply manifest_round|done|by rewrite Ht|done].
Qed.

Lemma holds_reads {Rel : StorageReliable Sto} fc w k v md data :
  holds w k v md data -> cache_ok (wBlobs w) fc ->
  exists rd, Get fc w k v = Ok (rd, md) /\ reads_back (wBlobs w) rd data.
Proof.
  intros (b & m & cs & Hin & Hj & Hf & Hr & <-) Hfc. unfold Get. erewrite sget_total by exact Hin. cbn [mbind result_bind].
  by eapply openManifest_backed.
Qed.


End Life.
