(* ===== verification/Compact.v ===== *)
(** Pack compaction (casstore/snapshot/compact.go).

    [Compact] consolidates under-filled or small packs of a domain: it
    inventories the packs, maps live chunks to packs through the latest
    manifests, selects candidates, rewrites their live chunks into new packs
    (one buffer per codec, in hash order or in file order), repoints the dedup
    index, and rewrites the manifests of single-version keys.  It never deletes
    a pack.

    The fill-ratio test compares floating-point numbers and only decides which
    packs are candidates; [fillBelow live size] stands for
    [MinFillRatio > 0 && live/size < MinFillRatio], as any test on the two
    sizes.  Go ranges over maps in an arbitrary order where the model uses
    [map_to_list] or [elements]; where the code sorts, the model sorts. *)

From stdpp Require Import sorting.
From S2P Require Import Prelude GoStrings Sha256 PackFormat BlobStore Manifest SnapStore DedupIndex Reclaim ChunkedRead ChunkedWrite GC.

Record CompactConfig := MkCompact {
  fillBelow : Z -> Z -> bool; MinPackBytes : Z; MaxBytesPerPass : Z; cSafetyWindow : Z; Defrag : bool }.

Record CompactResult := MkCompactResult {
  PacksScanned : Z; PacksSelected : Z; PacksWritten : Z; ManifestsRewritten : Z; BytesRewritten : Z }.

(** [sort.Slice] by owner key. *)
#[global] Instance owner_le_dec : RelDecision (fun a b : SnapshotKey => str_ltb (OwnerKey b) (OwnerKey a) = false).
Proof. intros a b. apply _. Defined.

Definition sortKeys (l : list SnapshotKey) : list SnapshotKey :=
  merge_sort (fun a b => str_ltb (OwnerKey b) (OwnerKey a) = false) l.

Section Compact.
  Context {Clib : CodecLib} {Sto : Storage} {U : SnapshotStore} {D : DedupStore} {J : ManifestCodec}.
  (** [ctx.Err()] in the listing and in the walk; [time.Now()]. *)
  Context (listCancel walkCancel : nat -> option err) (now : Z) (c : ChunkedStore) (cfg : CompactConfig).

(** *** 1. Inventory *)

Definition addInfo (md : Metadata) (packs : gmap string (Z * Z)) : gmap string (Z * Z) :=
  match parsePackID (BlobID md) with
  | Some (_, ph) => <[ph := (Length md, Timestamp md)]> packs
  | None => packs
  end.

Definition inventory (s : storage) (domain : string) : result (gmap string (Z * Z)) :=
  let '(rows, lerr) := ListBlobs s (packTenantPrefix domain) in
  let '(packs, oe) := walkRows listCancel addInfo 0 rows ∅ in
  match first_err oe lerr with
  | Some e => Err e
  | None => Ok packs
  end.

(** *** 2. Live chunks *)

Definition latestManifest (u : sstore) (key : SnapshotKey) : result (option chunkManifest) :=
  match sGetLatest u key with
  | Err e => if decide (e = ErrNoSnapshot) then Ok None else Err e
  | Ok (Err e, _) => Err e
  | Ok (Ok data, _) => Ok (json_Unmarshal data)
  end.

Record liveMaps := LM {
  packLive : gmap string (gmap string (Z * Z)); packKeys : gmap string (gset SnapshotKey);
  keyOrder : gmap SnapshotKey (list chunkRef); seenKeys : gset SnapshotKey }.

(** References into packs of the inventory. *)
Definition knownRefs (packs : gmap string (Z * Z)) (chunks : list chunkRef) : list chunkRef :=
  filter (fun ref => PackHash ref <> "" /\ is_Some (packs !! PackHash ref)) chunks.

Definition absorbRef (key : SnapshotKey) (lm : liveMaps) (ref : chunkRef) : liveMaps :=
  LM (<[PackHash ref := <[Hash ref := (Offset ref, Size ref)]> (default ∅ (packLive lm !! PackHash ref))]> (packLive lm))
     (<[PackHash ref := {[key]} ∪ default ∅ (packKeys lm !! PackHash ref)]> (packKeys lm))
     (keyOrder lm) (seenKeys lm).

Definition absorbManifest (packs : gmap string (Z * Z)) (key : SnapshotKey) (m : chunkManifest) (lm : liveMaps) : liveMaps :=
  let ordered := knownRefs packs (Chunks m) in
  let lm := foldl (absorbRef key) lm ordered in
  if Defrag cfg && negb (bool_decide (ordered = []))
  then LM (packLive lm) (packKeys lm) (<[key := ordered]> (keyOrder lm)) (seenKeys lm)
  else lm.

Definition scanRow (u : sstore) (domain : string) (packs : gmap string (Z * Z))
  (row : SnapshotKey * string * SnapshotMetadata) (lm : liveMaps) : result liveMaps :=
  let '(key, _, md) := row in
  if decide (tag md "chunked_format" <> manifestFormatV2 \/ key ∈ seenKeys lm) then Ok lm
  else
    let lm := LM (packLive lm) (packKeys lm) (keyOrder lm) ({[key]} ∪ seenKeys lm) in
    om ← latestManifest u key;
    match om with
    | Some m => if decide (Format m = manifestFormatV2 /\ mTenant m = domain)
                then Ok (absorbManifest packs key m lm) else Ok lm
    | None => Ok lm
    end.

Fixpoint scanRows (u : sstore) (domain : string) (packs : gmap string (Z * Z)) (i : nat)
  (rows : list (SnapshotKey * string * SnapshotMetadata)) (lm : liveMaps) : result liveMaps :=
  match rows with
  | [] => Ok lm
  | row :: rows => match walkCancel i with
                   | Some e => Err e
                   | None => lm ← scanRow u domain packs row lm; scanRows u domain packs (S i) rows lm
                   end
  end.

Definition scan (u : sstore) (domain : string) (packs : gmap string (Z * Z)) : result liveMaps :=
  let '(rows, werr) := sWalk u in
  lm ← scanRows u domain packs 0 rows (LM ∅ ∅ ∅ ∅);
  match werr with Some e => Err e | None => Ok lm end.

(** *** 3, 4. Candidates *)

Definition liveBytesOf (chunks : gmap string (Z * Z)) : Z :=
  foldr (fun x n => x.2.2 + n) 0 (map_to_list chunks).

Fixpoint selectFrom (packs : gmap string (Z * Z)) (lm : liveMaps) (order candidates : list string) (budget : Z)
  : list string * Z :=
  match order with
  | [] => (candidates, budget)
  | ph :: order =>
      let '(size, ts) := default (0, 0) (packs !! ph) in
      let liveBytes := liveBytesOf (default ∅ (packLive lm !! ph)) in
      let small := (0 <? MinPackBytes cfg) && (size <? MinPackBytes cfg) in
      if negb (fillBelow cfg liveBytes size) && negb small then selectFrom packs lm order candidates budget
      else if (0 <? cSafetyWindow cfg) && (now - ts <? cSafetyWindow cfg) then selectFrom packs lm order candidates budget
      else if (0 <? MaxBytesPerPass cfg) && negb (bool_decide (candidates = [])) &&
              (MaxBytesPerPass cfg <? budget + liveBytes) then (candidates, budget)
      else selectFrom packs lm order (candidates ++ [ph]) (budget + liveBytes)
  end.

(** Only when the pack count goes down. *)
Definition selectPacks (packs : gmap string (Z * Z)) (lm : liveMaps) : list string :=
  let '(candidates, budget) := selectFrom packs lm (sortStrings ((fun x => x.1) <$> map_to_list (packLive lm))) [] 0 in
  let estNewPacks := Z.max 1 (Z.quot (budget + packTargetBytes c - 1) (packTargetBytes c)) in
  if (len candidates <? 2) || (len candidates <=? estNewPacks) then [] else candidates.

(** *** 5. Consolidation *)

Record stagedChunk := Staged { sHash : string; sOff : Z; sSize : Z }.
Record codecBuf := MkBuf { cbBuf : bytes; cbStaged : list stagedChunk }.

Record repackState := RP {
  rpBlobs : storage; rpDedup : dstore; relocate : gmap string PackRef; placed : gset string;
  bufs : gmap string codecBuf; rpWritten : Z; rpBytes : Z }.

Definition relocateStaged (ph : string) (rel : gmap string PackRef) (s : stagedChunk) : gmap string PackRef :=
  <[sHash s := MkPackRef ph (sOff s) (sSize s)]> rel.

Definition flushBuf (domain : string) (codec : CompressionAlgo) (st : repackState) : repackState * result unit :=
  match bufs st !! codec with
  | None => (st, Ok tt)
  | Some cb =>
      match cbBuf cb with
      | [] => (st, Ok tt)
      | _ =>
          let ph := sha256_hex (cbBuf cb) in
          match storePackBlob c (cbBuf cb) ((fun s => PackSpan (sOff s) (sSize s)) <$> cbStaged cb) codec with
          | Err e => (st, Err e)
          | Ok stored =>
              match PutIfAbsent (rpBlobs st) (packBlobID domain ph) stored with
              | (b, Err e) => (RP b (rpDedup st) (relocate st) (placed st) (bufs st) (rpWritten st) (rpBytes st), Err e)
              | (b, Ok _) =>
                  (RP b (recordPackSize c (rpDedup st) domain ph (len stored))
                     (foldl (relocateStaged ph) (relocate st) (cbStaged cb)) (placed st)
                     (<[codec := MkBuf [] []]> (bufs st)) (rpWritten st + 1) (rpBytes st + len (cbBuf cb)), Ok tt)
              end
          end
      end
  end.

Definition emitLive (domain : string) (codec : CompressionAlgo) (hash : string) (data : bytes) (st : repackState)
  : repackState * result unit :=
  let cb := default (MkBuf [] []) (bufs st !! codec) in
  let cb := MkBuf (cbBuf cb ++ data) (cbStaged cb ++ [Staged hash (len (cbBuf cb)) (len data)]) in
  let st := RP (rpBlobs st) (rpDedup st) (relocate st) ({[hash]} ∪ placed st) (<[codec := cb]> (bufs st))
              (rpWritten st) (rpBytes st) in
  if packTargetBytes c <=? len (cbBuf cb) then flushBuf domain codec st else (st, Ok tt).

Definition fetchPackRaw (s : storage) (domain packHash : string) : result (bytes * CompressionAlgo) :=
  stored ← GetBlob s (packBlobID domain packHash) 0 (-1);
  framing ← detectPackFraming stored;
  raw ← decompressPackBlob stored;
  Ok (raw, logicalCodec framing).

(** Copy one live chunk out of a fetched pack, unless it is placed.  A negative
    size is a slice-bounds panic in Go; here it ends the pass as an error. *)
Definition placeChunk (domain : string) (raw : bytes) (codec : CompressionAlgo) (hash : string) (off size : Z)
  (st : repackState) : repackState * result unit :=
  if decide (hash ∈ placed st) then (st, Ok tt)
  else if (off <? 0) || (len raw <? off + size) then (st, Err (EOther "chunk out of range"))
  else if size <? 0 then (st, Err (EOther "slice bounds out of range"))
  else emitLive domain codec hash (slice raw off (off + size)) st.

Fixpoint placeHashes (domain : string) (raw : bytes) (codec : CompressionAlgo) (chunks : gmap string (Z * Z))
  (hashes : list string) (st : repackState) : repackState * result unit :=
  match hashes with
  | [] => (st, Ok tt)
  | h :: hashes =>
      let '(off, size) := default (0, 0) (chunks !! h) in
      match placeChunk domain raw codec h off size st with
      | (st, Err e) => (st, Err e)
      | (st, Ok _) => placeHashes domain raw codec chunks hashes st
      end
  end.

(** Hash order: the default. *)
Fixpoint consolidateHash (domain : string) (lm : liveMaps) (candidates : list string) (st : repackState)
  : repackState * result unit :=
  match candidates with
  | [] => (st, Ok tt)
  | ph :: candidates =>
      match fetchPackRaw (rpBlobs st) domain ph with
      | Err e => (st, Err e)
      | Ok (raw, codec) =>
          let chunks := default ∅ (packLive lm !! ph) in
          match placeHashes domain raw codec chunks (sortStrings ((fun x => x.1) <$> map_to_list chunks)) st with
          | (st, Err e) => (st, Err e)
          | (st, Ok _) => consolidateHash domain lm candidates st
          end
      end
  end.

(** File order: each fetched pack is cached. *)
Definition fetchCached (s : storage) (domain ph : string) (cache : gmap string (bytes * CompressionAlgo))
  : result ((bytes * CompressionAlgo) * gmap string (bytes * CompressionAlgo)) :=
  match cache !! ph with
  | Some e => Ok (e, cache)
  | None => e ← fetchPackRaw s domain ph; Ok (e, <[ph := e]> cache)
  end.

Fixpoint consolidateRefs (domain : string) (selected : list string) (refs : list chunkRef)
  (cache : gmap string (bytes * CompressionAlgo)) (st : repackState)
  : gmap string (bytes * CompressionAlgo) * repackState * result unit :=
  match refs with
  | [] => (cache, st, Ok tt)
  | ref :: refs =>
      if decide (PackHash ref ∉ selected \/ Hash ref ∈ placed st) then consolidateRefs domain selected refs cache st
      else match fetchCached (rpBlobs st) domain (PackHash ref) cache with
           | Err e => (cache, st, Err e)
           | Ok ((raw, codec), cache) =>
               match placeChunk domain raw codec (Hash ref) (Offset ref) (Size ref) st with
               | (st, Err e) => (cache, st, Err e)
               | (st, Ok _) => consolidateRefs domain selected refs cache st
               end
           end
  end.

Definition consolidateFile (domain : string) (lm : liveMaps) (selected : list string) (st : repackState)
  : repackState * result unit :=
  let keys := sortKeys ((fun x => x.1) <$> map_to_list (keyOrder lm)) in
  let refs : list chunkRef := mjoin ((fun k => default [] (keyOrder lm !! k)) <$> keys) in
  let '(_, st, res) := consolidateRefs domain selected refs ∅ st in (st, res).

Fixpoint flushAll (domain : string) (codecs : list string) (st : repackState) : repackState * result unit :=
  match codecs with
  | [] => (st, Ok tt)
  | codec :: codecs => match flushBuf domain codec st with
                       | (st, Err e) => (st, Err e)
                       | (st, Ok _) => flushAll domain codecs st
                       end
  end.

Definition consolidate (domain : string) (lm : liveMaps) (candidates : list string) (s : storage) (d : dstore)
  : repackState * result unit :=
  let st := RP s d ∅ ∅ ∅ 0 0 in
  match (if Defrag cfg then consolidateFile domain lm candidates st else consolidateHash domain lm candidates st) with
  | (st, Err e) => (st, Err e)
  | (st, Ok _) => flushAll domain (sortStrings ((fun x => x.1) <$> map_to_list (bufs st))) st
  end.

(** *** 6. The dedup index *)

Definition Repoint (d : dstore) (domain : string) (newLocs : list ChunkLocation) (deadPacks : list string)
  : dstore * result unit :=
  match deadPacks with
  | [] => (d, Ok tt)
  | _ => match dPurgePacks d domain deadPacks with
         | (d, Err e) => (d, Err e)
         | (d, Ok _) => match newLocs with [] => (d, Ok tt) | _ => dRecord d domain newLocs end
         end
  end.

Definition repointIndex (domain : string) (candidates : list string) (st : repackState) : dstore * result unit :=
  match index c with
  | PriorManifestIndex => (rpDedup st, Ok tt)
  | GlobalIndex =>
      if decide (relocate st = ∅) then (rpDedup st, Ok tt)
      else Repoint (rpDedup st) domain ((fun x => MkLoc x.1 x.2) <$> map_to_list (relocate st)) candidates
  end.

(** *** 7. The manifests *)

Definition relocateRef (selected : list string) (rel : gmap string PackRef) (ref : chunkRef) : result chunkRef :=
  if decide (PackHash ref ∈ selected) then
    match rel !! Hash ref with
    | None => Err (EOther "no relocation for chunk")
    | Some nl => Ok (MkRef (Hash ref) (rPackHash nl) (rOffset nl) (Size ref))
    end
  else Ok ref.

Definition rewriteSelectedRefs (u : sstore) (key : SnapshotKey) (selected : list string) (rel : gmap string PackRef)
  : sstore * result bool :=
  match sList u key with
  | Err e => if decide (e = ErrNoSnapshot) then (u, Ok false) else (u, Err e)
  | Ok [only] =>
      match sGetLatest u key with
      | Err e => (u, Err e)
      | Ok (Err e, _) => (u, Err e)
      | Ok (Ok data, md) =>
          match json_Unmarshal data with
          | None => (u, Err (EOther "parse manifest"))
          | Some m =>
              if decide (Format m <> manifestFormatV2) then (u, Ok false)
              else match mapR (relocateRef selected rel) (Chunks m) with
                   | Err e => (u, Err e)
                   | Ok refs =>
                       if decide (Forall (fun ref => PackHash ref ∉ selected) (Chunks m)) then (u, Ok false)
                       else match sPut u key md (json_Marshal (MkManifest (Format m) (TotalSize m) (mTenant m) refs)) with
                            | (u, Err e) => (u, Err e)
                            | (u, Ok _) => match sDelete u key (Version only) with
                                           | (u, Err e) => (u, Err e)
                                           | (u, Ok _) => (u, Ok true)
                                           end
                            end
                   end
          end
      end
  | Ok _ => (u, Ok false)
  end.

Fixpoint rewriteKeys (selected : list string) (rel : gmap string PackRef) (keys : list SnapshotKey)
  (rewritten : gset SnapshotKey) (u : sstore) (n : Z) : sstore * Z * option err :=
  match keys with
  | [] => (u, n, None)
  | key :: keys =>
      if decide (key ∈ rewritten) then rewriteKeys selected rel keys rewritten u n
      else match rewriteSelectedRefs u key selected rel with
           | (u, Err e) => (u, n, Some e)
           | (u, Ok changed) =>
               rewriteKeys selected rel keys ({[key]} ∪ rewritten) u (if (changed : bool) then n + 1 else n)
           end
  end.

Definition keysOf (lm : liveMaps) (candidates : list string) : list SnapshotKey :=
  mjoin ((fun ph => elements (default ∅ (packKeys lm !! ph))) <$> candidates).

(** *** The pass *)

Definition Compact (w : world) (domain : string) : world * CompactResult * option err :=
  if packTargetBytes c =? packingDisabled then (w, MkCompactResult 0 0 0 0 0, None)
  else match inventory (wBlobs w) domain with
  | Err e => (w, MkCompactResult 0 0 0 0 0, Some e)
  | Ok packs =>
      let scannedN := Z.of_nat (size packs) in
      if decide (packs = ∅) then (w, MkCompactResult scannedN 0 0 0 0, None)
      else match scan (wUps w) domain packs with
      | Err e => (w, MkCompactResult scannedN 0 0 0 0, Some e)
      | Ok lm =>
          match selectPacks packs lm with
          | [] => (w, MkCompactResult scannedN 0 0 0 0, None)
          | candidates =>
              let n := len candidates in
              match consolidate domain lm candidates (wBlobs w) (wDedup w) with
              | (st, Err e) => (W (rpBlobs st) (wUps w) (rpDedup st), MkCompactResult scannedN n (rpWritten st) 0 (rpBytes st), Some e)
              | (st, Ok _) =>
                  match repointIndex domain candidates st with
                  | (d, Err e) => (W (rpBlobs st) (wUps w) d, MkCompactResult scannedN n (rpWritten st) 0 (rpBytes st), Some e)
                  | (d, Ok _) =>
                      let '(u, k, oe) := rewriteKeys candidates (relocate st) (keysOf lm candidates) ∅ (wUps w) 0 in
                      (W (rpBlobs st) u d, MkCompactResult scannedN n (rpWritten st) k (rpBytes st), oe)
                  end
              end
          end
      end
  end.
End Compact.
