(* ===== verification/CompactSpec.v ===== *)
(** What compaction guarantees: wherever a pass stops, every snapshot is still
    backed, the dedup index still names stored bytes, no pack is gone, and a
    snapshot version disappears only when its key's remaining versions hold
    the same bytes ([Compact_preserves_data]). *)

From stdpp Require Import sorting.
From S2P Require Import Prelude GoStrings Sha256 PackFormat BlobStore Manifest SnapStore DedupIndex Reclaim ChunkedRead ChunkedWrite PutSpec PutGet GC GCSpec MetaOps Lifecycle Compact.

Section Spec.
  Context {Clib : CodecLib} {Claws : CodecLaws} {Sto : Storage} {L : StorageLaws Sto}
          {U : SnapshotStore} {SL : SnapshotStoreLaws U} {D : DedupStore} {DL : DedupStoreLaws D}
          {J : ManifestCodec} {JL : ManifestCodecLaws}.
  Context (c : ChunkedStore) (w : world) (dom : string).

(** A chunk that a stored v2 manifest of the domain references in the pack
    [ph] at [off], [size]. *)
Definition live_in (ph h : string) (off size : Z) (x : bytes) : Prop :=
  (exists m, stored_manifest (wUps w) m /\ mTenant m = dom /\ Format m = manifestFormatV2 /\ MkRef h ph off size ∈ Chunks m) /\
  pack_backed (wBlobs w) (packBlobID dom ph) (MkRef h ph off size) x.

Definition chunk_of (x : bytes) : Prop := exists ph h off size, live_in ph h off size x.

(** Sequences of distinct live chunks. *)
Definition chunks_of (sub : list bytes) : Prop := NoDup sub /\ Forall chunk_of sub.

(** What a pass needs of the store: live chunk sequences with one name are one
    sequence, packs already stored under such names hold them, and sizes fit
    the per-chunk framing. *)
Record compact_ready : Prop := {
  cr_names : forall s1 s2, chunks_of s1 -> chunks_of s2 -> sha256_hex (concat s1) = sha256_hex (concat s2) ->
    concat s1 = concat s2 /\ (packCompression c = PackCompressPerChunk -> (len <$> s1) = (len <$> s2));
  cr_packs : forall sub stored ts, chunks_of sub -> concat sub <> [] ->
    blobs (wBlobs w) !! packBlobID dom (sha256_hex (concat sub)) = Some (stored, ts) -> pack_of stored sub;
  cr_chunks : forall x, chunk_of x -> x <> [];
  cr_fit : packCompression c = PackCompressPerChunk -> exists m, (forall x, chunk_of x -> len x <= m) /\ 0 <= m /\
    (Z.max 0 (packTargetBytes c) + m) * packChunkEntryLen < 2 ^ 32;
}.

Context (Ready : compact_ready).

Lemma live_in_hash ph h off size x : live_in ph h off size x -> sha256_hex x = h /\ len x = size.
Proof.
  intros [_ (st & ts & co & _ & _ & (? & ? & ? & Hl & Hh) & _)]. cbn in *. split; [done|]. subst x. rewrite slice_len; lia.
Qed.

Lemma singleton_chunks x : chunk_of x -> chunks_of [x].
Proof. intros Hx. split; [apply NoDup_singleton|by constructor]. Qed.

Lemma chunk_of_inj x y : chunk_of x -> chunk_of y -> sha256_hex x = sha256_hex y -> x = y.
Proof.
  intros Hx Hy E. destruct (cr_names Ready [x] [y]) as [H _]; [by apply singleton_chunks..| |].
  - cbn. by rewrite !app_nil_r.
  - cbn in H. by rewrite !app_nil_r in H.
Qed.

(** *** The consolidation invariant *)

Definition stagedOf (pend : list bytes) : list stagedChunk :=
  imap (fun j x => Staged (sha256_hex x) (offsetIn pend j) (len x)) pend.

Record buf_ok (pl : gset string) (cb : codecBuf) (pend : list bytes) : Prop := {
  bo_buf : cbBuf cb = concat pend;
  bo_staged : cbStaged cb = stagedOf pend;
  bo_chunks : chunks_of pend;
  bo_placed : Forall (fun x => sha256_hex x ∈ pl) pend;
}.

Definition rel_ok (s : storage) (rel : gmap string PackRef) : Prop :=
  forall h nl, rel !! h = Some nl -> is_digest (rPackHash nl) /\
    exists x, chunk_of x /\ sha256_hex x = h /\
      pack_backed s (packBlobID dom (rPackHash nl)) (MkRef h (rPackHash nl) (rOffset nl) (len x)) x /\ rSize nl = len x.

Definition agree (s : storage) : Prop := forall sub stored ts, chunks_of sub -> concat sub <> [] ->
  blobs s !! packBlobID dom (sha256_hex (concat sub)) = Some (stored, ts) -> pack_of stored sub.

Record rp_ok (st : repackState) : Prop := {
  rp_mono : blobs (wBlobs w) ⊆ blobs (rpBlobs st);
  rp_agree : agree (rpBlobs st);
  rp_rel : rel_ok (rpBlobs st) (relocate st);
  rp_bufs : forall a cb, bufs st !! a = Some cb -> exists pend, buf_ok (placed st) cb pend;
  rp_entries : entries (rpDedup st) = entries (wDedup w);
}.

(** Room left in every buffer. *)
Definition small_bufs (st : repackState) : Prop :=
  forall a cb, bufs st !! a = Some cb -> cbBuf cb = [] \/ len (cbBuf cb) < packTargetBytes c.

Lemma rel_ok_mono s s' rel : blobs s ⊆ blobs s' -> rel_ok s rel -> rel_ok s' rel.
Proof.
  intros Hs H h nl Hn. destruct (H h nl Hn) as [? (x & ? & ? & ? & ?)]. split; [done|]. exists x.
  split_and!; [done..|by eapply pack_backed_mono|done].
Qed.

Lemma staged_spans pend : (fun s => PackSpan (sOff s) (sSize s)) <$> stagedOf pend = spansOf pend.
Proof.
  unfold stagedOf, spansOf. apply list_eq. intros j. rewrite list_lookup_fmap, !list_lookup_imap.
  by destruct (pend !! j).
Qed.

(** Adding the pack of [pend] under its name keeps names and packs in step. *)
Lemma agree_insert s s' pend stored ts :
  agree s -> chunks_of pend -> pack_of stored pend ->
  (packCompression c = PackCompressWholePack -> forall f, detectPackFraming stored = Ok f -> algo f <> packAlgoChunked) ->
  blobs s' = <[packBlobID dom (sha256_hex (concat pend)) := (stored, ts)]> (blobs s) -> agree s'.
Proof.
  intros Ha Hp Hpk Hw Hb sub stored' ts' Hsub Hne. rewrite Hb. intros H.
  apply lookup_insert_Some in H as [[Hid [= <- <-]]|[_ H]]; [|by eapply Ha].
  apply packBlobID_inj in Hid. destruct (cr_names Ready pend sub Hp Hsub Hid) as [Hc Hl].
  destruct (packCompression c) eqn:E; [eapply pack_of_same; [done..|by apply Hl]|].
  split; [rewrite <- Hc; apply Hpk|]. intros j x _ f es Hf Hal. by apply Hw in Hal.
Qed.

Lemma chunks_nonempty pend : chunks_of pend -> Forall (fun x => x <> []) pend.
Proof. intros [_ H]. eapply Forall_impl; [exact H|]. intros x. apply (cr_chunks Ready). Qed.

Definition fit (pend : list bytes) : Prop :=
  packCompression c = PackCompressPerChunk -> len (concat pend) < 2 ^ 32 /\ len pend * packChunkEntryLen < 2 ^ 32.

(** A sequence no longer than the target and one more chunk fits. *)
Lemma fit_bound pend : chunks_of pend ->
  (packCompression c = PackCompressPerChunk -> forall m, (forall x, chunk_of x -> len x <= m) -> 0 <= m ->
    len (concat pend) <= Z.max 0 (packTargetBytes c) + m) -> fit pend.
Proof.
  intros Hc Hlen Hpc. destruct (cr_fit Ready Hpc) as (m & Hm & Hm0 & Hlt). specialize (Hlen Hpc m Hm Hm0).
  pose proof (count_le_len _ (chunks_nonempty _ Hc)). unfold packChunkEntryLen in *. lia.
Qed.

(** After the upload, the pack is there and holds the pending chunks. *)
Lemma upload_ok s s' codec pend stored :
  agree s -> chunks_of pend -> concat pend <> [] -> fit pend ->
  storePackBlob c (concat pend) (spansOf pend) codec = Ok stored ->
  PutIfAbsent s (packBlobID dom (sha256_hex (concat pend))) stored = (s', Ok tt) ->
  agree s' /\ exists stored' ts, blobs s' !! packBlobID dom (sha256_hex (concat pend)) = Some (stored', ts) /\
    pack_of stored' pend.
Proof.
  intros Ha Hp Hne Hfit Hst Hput.
  assert (Hpk : pack_of stored pend) by (eapply storePackBlob_pack; [done..|]; intros _ ?; by apply Hfit).
  apply PutIfAbsent_ok in Hput as [([stored' ts] & Hb & Hs)|(Hb & ts & Hs)].
  - split; [intros sub st2 ts2; rewrite Hs; apply Ha|]. exists stored', ts. rewrite Hs. split; [done|]. by eapply Ha.
  - split; [|exists stored, ts; by rewrite Hs, lookup_insert_eq].
    eapply agree_insert; [done..| |done]. intros Hw f Hf. unfold storePackBlob in Hst.
    rewrite decide_True in Hst; [by eapply compressPackBlob_framing|by right].
Qed.

Lemma relocateStaged_lookup ph l rel h nl :
  foldl (relocateStaged ph) rel l !! h = Some nl ->
  rel !! h = Some nl \/ exists st, st ∈ l /\ sHash st = h /\ nl = MkPackRef ph (sOff st) (sSize st).
Proof.
  revert rel; induction l as [|st l IH]; intros rel; cbn; [by left|]. intros H.
  apply IH in H as [H|(st' & ? & H)]; [|right; exists st'; split; [by right|done]].
  unfold relocateStaged in H. apply lookup_insert_Some in H as [[<- <-]|[_ H]]; [|by left].
  right. exists st. split; [by left|done].
Qed.

Lemma stagedOf_in pend st :
  st ∈ stagedOf pend -> exists j x, pend !! j = Some x /\ st = Staged (sha256_hex x) (offsetIn pend j) (len x).
Proof.
  intros [j Hj]%list_elem_of_lookup. unfold stagedOf in Hj. rewrite list_lookup_imap in Hj.
  destruct (pend !! j) as [x|] eqn:Hx; [|done]. injection Hj as <-. by exists j, x.
Qed.

Lemma flushBuf_ok codec st st' r :
  rp_ok st -> (forall cb pend, bufs st !! codec = Some cb -> buf_ok (placed st) cb pend -> fit pend) ->
  flushBuf c dom codec st = (st', r) ->
  rp_ok st' /\ (r = Ok tt -> forall a cb, bufs st' !! a = Some cb ->
    (a = codec /\ cbBuf cb = []) \/ (a <> codec /\ bufs st !! a = Some cb)).
Proof.
  intros H Hfit. unfold flushBuf. destruct (bufs st !! codec) as [cb|] eqn:Hcb.
  2:{ intros [= <- <-]. split; [done|]. intros _ a cb Ha. right. split; [congruence|done]. }
  destruct (rp_bufs st H codec cb Hcb) as [pend Hbo]. specialize (Hfit cb pend eq_refl Hbo).
  rewrite (bo_buf _ _ _ Hbo), (bo_staged _ _ _ Hbo), staged_spans.
  destruct (concat pend) as [|b0 buf] eqn:Hbuf.
  { intros [= <- <-]. split; [done|]. intros _ a cb' Ha. destruct (decide (a = codec)) as [->|]; [left|by right].
    rewrite Hcb in Ha. injection Ha as <-. by rewrite (bo_buf _ _ _ Hbo). }
  rewrite <- Hbuf in *. assert (Hne : concat pend <> []) by congruence. clear Hbuf.
  destruct (storePackBlob _ _ _ _) as [stored|] eqn:Hst; [|by intros [= <- <-]].
  destruct (PutIfAbsent _ _ _) as [s1 rp] eqn:Hput. pose proof (PutIfAbsent_mono _ _ _ _ _ Hput) as Hm.
  destruct rp as [[]|e].
  - intros [= <- <-]. destruct (upload_ok _ _ _ _ _ (rp_agree st H) (bo_chunks _ _ _ Hbo) Hne Hfit Hst Hput)
      as (Hag & stored' & ts & Hb & Hpk). split; [|].
    + split; cbn; [etransitivity; [apply H|done]|done| |..].
      * intros h nl Hn. apply relocateStaged_lookup in Hn as [Hn|(s2 & Hs2 & <- & ->)].
        { by apply (rel_ok_mono _ _ _ Hm (rp_rel st H)). }
        apply stagedOf_in in Hs2 as (j & x & Hx & ->). cbn.
        split; [apply sha256_is_digest|]. exists x. destruct (bo_chunks _ _ _ Hbo) as [_ Hall].
        rewrite Forall_forall in Hall. split_and!; [by eapply Hall, list_elem_of_lookup_2|done| |done]. by eapply pack_of_backed.
      * intros a cb' Ha. apply lookup_insert_Some in Ha as [[<- <-]|[_ Ha]]; [|by eapply rp_bufs].
        exists []. split; try done. split; constructor.
      * rewrite recordPackSize_entries. apply H.
    + intros _ a cb' Ha. cbn [bufs] in Ha. apply lookup_insert_Some in Ha as [[<- <-]|[? Ha]]; [by left|by right].
  - intros [= <- <-]. split; [|done]. split; cbn; [etransitivity; [apply H|done]| |by eapply rel_ok_mono, H|apply H|apply H].
    apply PutIfAbsent_blobs in Hput as [Hs|(_ & ? & _)]; [|done]. intros sub st2 ts2. rewrite Hs. apply H.
Qed.

(** Staging one more chunk. *)
Lemma buf_ok_snoc pl cb pend x :
  buf_ok pl cb pend -> chunk_of x -> sha256_hex x ∉ pl ->
  buf_ok ({[sha256_hex x]} ∪ pl) (MkBuf (cbBuf cb ++ x) (cbStaged cb ++ [Staged (sha256_hex x) (len (cbBuf cb)) (len x)])) (pend ++ [x]).
Proof.
  intros [Hb Hs [Hnd Hc] Hp] Hx Hnew. split; cbn.
  - rewrite concat_app, Hb. cbn. by rewrite app_nil_r.
  - rewrite Hs, Hb. unfold stagedOf. rewrite imap_app. cbn. f_equal.
    + apply imap_ext. intros j y Hy. unfold offsetIn. rewrite take_app_le; [done|]. apply lookup_lt_Some in Hy. lia.
    + unfold offsetIn. by rewrite Nat.add_0_r, take_app_length.
  - split; [|apply Forall_app; split; [done|by constructor]]. apply NoDup_app. split_and!; [done| |apply NoDup_singleton].
    intros y Hy Hyx. apply list_elem_of_singleton in Hyx as ->. rewrite Forall_forall in Hp. by apply Hnew, Hp.
  - apply Forall_app. split; [|constructor; [set_solver|constructor]]. eapply Forall_impl; [exact Hp|]. set_solver.
Qed.

Lemma buf_ok_empty pl : buf_ok pl (MkBuf [] []) [].
Proof. split; try done. split; constructor. Qed.

Lemma buf_ok_grow pl pl' cb pend : pl ⊆ pl' -> buf_ok pl cb pend -> buf_ok pl' cb pend.
Proof. intros Hs [? ? ? H]. split; try done. eapply Forall_impl; [exact H|]. set_solver. Qed.

Lemma emitLive_ok codec x st st' r :
  rp_ok st -> small_bufs st -> chunk_of x -> sha256_hex x ∉ placed st ->
  emitLive c dom codec (sha256_hex x) x st = (st', r) -> rp_ok st' /\ (r = Ok tt -> small_bufs st').
Proof.
  intros H Hsm Hx Hnew. unfold emitLive. set (cb := default (MkBuf [] []) (bufs st !! codec)).
  assert (Hcb : (exists pend, buf_ok (placed st) cb pend) /\ (cbBuf cb = [] \/ len (cbBuf cb) < packTargetBytes c)).
  { unfold cb. destruct (bufs st !! codec) as [cb0|] eqn:E; cbn; [split; [by eapply rp_bufs|by eapply Hsm]|].
    split; [exists []; apply buf_ok_empty|by left]. }
  destruct Hcb as [[pend Hbo] Hcs]. pose proof (buf_ok_snoc _ _ _ _ Hbo Hx Hnew) as Hbo'.
  set (cb' := MkBuf (cbBuf cb ++ x) _) in *. set (st1 := RP _ _ _ _ _ _ _).
  assert (H1 : rp_ok st1).
  { split; cbn; try apply H. intros a cb2 Ha. apply lookup_insert_Some in Ha as [[_ <-]|[_ Ha]]; [by eexists|].
    destruct (rp_bufs st H a cb2 Ha) as [p2 Hp2]. exists p2. eapply buf_ok_grow; [|exact Hp2]. set_solver. }
  destruct (Z.leb_spec (packTargetBytes c) (len (cbBuf cb'))) as [Hbig|Hsmall].
  - intros Hf. destruct (flushBuf_ok codec st1 st' r H1) as [H2 H3]; [|done|].
    + intros cb2 p2. cbn. rewrite lookup_insert_eq. intros [= <-] Hp2.
      apply fit_bound; [apply Hp2|]. intros _ m Hm _. rewrite <- (bo_buf _ _ _ Hp2). cbn. rewrite len_app.
      specialize (Hm x Hx). destruct Hcs as [->|]; [rewrite len_nil|]; lia.
    + split; [done|]. intros Hr a cb2 Ha. destruct (H3 Hr a cb2 Ha) as [[_ ?]|[Hne Hb]]; [by left|].
      cbn in Hb. rewrite lookup_insert_ne in Hb by done. by eapply Hsm.
  - intros [= <- <-]. split; [done|]. intros _ a cb2. cbn. intros Ha.
    apply lookup_insert_Some in Ha as [[_ <-]|[_ Ha]]; [by right|by eapply Hsm].
Qed.

(** The bytes sliced out of a fetched pack are the live chunk. *)
Lemma fetchPackRaw_live st ph raw codec h off size x :
  rp_ok st -> fetchPackRaw (rpBlobs st) dom ph = Ok (raw, codec) -> live_in ph h off size x ->
  slice raw off (off + size) = x.
Proof.
  intros H Hf [_ Hb]. unfold fetchPackRaw in Hf. apply bind_ok in Hf as (stored & Hg & Hf).
  apply bind_ok in Hf as (fr & _ & Hf). apply bind_ok in Hf as (raw' & Hd & Hf). injection Hf as Hraw _. subst raw'.
  destruct (pack_backed_mono _ _ _ _ _ (rp_mono st H) Hb) as (stored' & ts & co & Hs & Hd' & (? & ? & ? & Hx & _) & _).
  apply get_sound in Hg as (c1 & ts1 & Hc1 & [[_ ->]|[? _]]); [|lia].
  rewrite slice_all in Hd. assert (c1 = stored') as -> by congruence. assert (raw = co) as -> by congruence. done.
Qed.

Lemma placeChunk_ok raw codec h off size x st st' r :
  rp_ok st -> small_bufs st -> slice raw off (off + size) = x -> chunk_of x -> sha256_hex x = h ->
  placeChunk c dom raw codec h off size st = (st', r) -> rp_ok st' /\ (r = Ok tt -> small_bufs st').
Proof.
  intros H Hsm Hsl Hx <-. unfold placeChunk. case_decide as Hp; [by intros [= <- <-]|].
  destruct (_ || _); [by intros [= <- <-]|]. destruct (size <? 0); [by intros [= <- <-]|]. rewrite Hsl. by apply emitLive_ok.
Qed.

(** What the scan knows about live chunks. *)
Definition live_ok (lm : liveMaps) : Prop :=
  (forall ph chunks h off size, packLive lm !! ph = Some chunks -> chunks !! h = Some (off, size) ->
     exists x, live_in ph h off size x) /\
  (forall key refs ref, keyOrder lm !! key = Some refs -> ref ∈ refs ->
     exists x, live_in (PackHash ref) (Hash ref) (Offset ref) (Size ref) x).

Lemma live_in_chunk ph h off size x : live_in ph h off size x -> chunk_of x.
Proof. intros H. by exists ph, h, off, size. Qed.

Lemma placeHashes_ok raw codec ph chunks hashes st st' r st0 :
  (forall h off size, chunks !! h = Some (off, size) -> exists x, live_in ph h off size x) ->
  rp_ok st0 -> fetchPackRaw (rpBlobs st0) dom ph = Ok (raw, codec) ->
  Forall (fun h => is_Some (chunks !! h)) hashes -> rp_ok st -> small_bufs st ->
  placeHashes c dom raw codec chunks hashes st = (st', r) -> rp_ok st' /\ (r = Ok tt -> small_bufs st').
Proof.
  intros Hl H0 Hf Hall. revert st. induction Hall as [|h hashes [[off size] Hh] _ IH]; intros st H Hsm; cbn; [by intros [= <- <-]|].
  rewrite Hh. cbn. destruct (Hl h off size Hh) as [x Hx].
  pose proof (fetchPackRaw_live st0 ph raw codec h off size x H0 Hf Hx) as Hsl. destruct (live_in_hash _ _ _ _ _ Hx) as [Hsha _].
  destruct (placeChunk c dom raw codec h off size st) as [st1 [[]|e]] eqn:Hp;
    destruct (placeChunk_ok _ _ _ _ _ _ _ _ _ H Hsm Hsl (live_in_chunk _ _ _ _ _ Hx) Hsha Hp) as [H1 H2].
  - by apply IH; [|apply H2].
  - intros [= <- <-]. done.
Qed.

Lemma sorted_keys_in (m : gmap string (Z * Z)) :
  Forall (fun h => is_Some (m !! h)) (sortStrings ((fun x => x.1) <$> map_to_list m)).
Proof.
  unfold sortStrings. apply Forall_forall. intros h Hh. rewrite merge_sort_Permutation in Hh.
  apply list_elem_of_fmap in Hh as ([k v] & -> & Hk). apply elem_of_map_to_list in Hk. by exists v.
Qed.

Lemma consolidateHash_ok lm candidates st st' r :
  live_ok lm -> rp_ok st -> small_bufs st -> consolidateHash c dom lm candidates st = (st', r) ->
  rp_ok st' /\ (r = Ok tt -> small_bufs st').
Proof.
  intros Hlm. revert st; induction candidates as [|ph candidates IH]; intros st H Hsm; cbn; [by intros [= <- <-]|].
  destruct (fetchPackRaw _ _ _) as [[raw codec]|] eqn:Hf; [|by intros [= <- <-]].
  destruct (placeHashes _ _ _ _ _ _ st) as [st1 r1] eqn:Hp.
  assert (Hst : rp_ok st1 /\ (r1 = Ok tt -> small_bufs st1)).
  { eapply (placeHashes_ok raw codec ph); [|exact H|exact Hf|apply sorted_keys_in|exact H|exact Hsm|exact Hp].
    intros h off size Hh. destruct (packLive lm !! ph) as [chunks|] eqn:E; cbn in Hh; [|by rewrite lookup_empty in Hh].
    by eapply (proj1 Hlm). }
  destruct Hst as [H1 H2].
  destruct r1 as [[]|]; [by apply IH; [|apply H2]|by intros [= <- <-]].
Qed.

Definition cache_good (cache : gmap string (bytes * CompressionAlgo)) : Prop :=
  forall ph e, cache !! ph = Some e -> exists st0, rp_ok st0 /\ fetchPackRaw (rpBlobs st0) dom ph = Ok e.

Lemma fetchCached_ok st ph cache e cache' :
  rp_ok st -> cache_good cache -> fetchCached (rpBlobs st) dom ph cache = Ok (e, cache') ->
  cache_good cache' /\ exists st0, rp_ok st0 /\ fetchPackRaw (rpBlobs st0) dom ph = Ok e.
Proof.
  intros H Hc. unfold fetchCached. destruct (cache !! ph) as [e0|] eqn:E; [intros [= <- <-]; split; [done|by apply Hc]|].
  intros (e1 & Hf & [= <- <-])%bind_ok. split; [|eauto]. intros ph' e'.
  intros [[<- <-]|[_ ?]]%lookup_insert_Some; [eauto|by apply Hc].
Qed.

Lemma consolidateRefs_ok selected refs cache st cache' st' r :
  Forall (fun ref => exists x, live_in (PackHash ref) (Hash ref) (Offset ref) (Size ref) x) refs ->
  cache_good cache -> rp_ok st -> small_bufs st ->
  consolidateRefs c dom selected refs cache st = (cache', st', r) -> rp_ok st' /\ (r = Ok tt -> small_bufs st').
Proof.
  intros Hall. revert cache st. induction Hall as [|ref refs [x Hx] _ IH]; intros cache st Hc H Hsm; cbn; [by intros [= _ <- <-]|].
  case_decide as Hdec; [by apply IH|]. destruct (fetchCached _ _ _ _) as [[[raw codec] cache1]|] eqn:Hf; [|by intros [= _ <- <-]].
  destruct (fetchCached_ok _ _ _ _ _ H Hc Hf) as [Hc1 (st0 & H0 & Hf0)].
  pose proof (fetchPackRaw_live st0 _ raw codec _ _ _ x H0 Hf0 Hx) as Hsl. destruct (live_in_hash _ _ _ _ _ Hx) as [Hsha _].
  destruct (placeChunk c dom raw codec _ _ _ st) as [st1 [[]|e]] eqn:Hp;
    destruct (placeChunk_ok _ _ _ _ _ _ _ _ _ H Hsm Hsl (live_in_chunk _ _ _ _ _ Hx) Hsha Hp) as [H1 H2].
  - by apply IH; [| |apply H2].
  - by intros [= _ <- <-].
Qed.

Lemma consolidateFile_ok lm selected st st' r :
  live_ok lm -> rp_ok st -> small_bufs st -> consolidateFile c dom lm selected st = (st', r) ->
  rp_ok st' /\ (r = Ok tt -> small_bufs st').
Proof.
  intros [_ Hlm] H Hsm. unfold consolidateFile. set (refs := mjoin _).
  destruct (consolidateRefs c dom selected refs ∅ st) as [[cache1 st1] r1] eqn:Hc. intros [= <- <-].
  eapply consolidateRefs_ok; [|by intros ph e ?%lookup_empty_Some|exact H|exact Hsm|exact Hc].
  apply Forall_forall. intros ref Href. unfold refs in Href. apply list_elem_of_join in Href as (l & Hin & Hl).
  apply list_elem_of_fmap in Hl as (key & -> & _). destruct (keyOrder lm !! key) as [l|] eqn:E; cbn in Hin; [by eapply Hlm|].
  by apply elem_of_nil in Hin.
Qed.

Lemma small_fit st cb pend codec :
  small_bufs st -> bufs st !! codec = Some cb -> buf_ok (placed st) cb pend -> fit pend.
Proof.
  intros Hsm Hcb Hbo. apply fit_bound; [apply Hbo|]. intros _ m _ Hm. rewrite <- (bo_buf _ _ _ Hbo).
  destruct (Hsm codec cb Hcb) as [->|]; [rewrite len_nil|]; lia.
Qed.

Lemma flushAll_ok codecs st st' r :
  rp_ok st -> small_bufs st -> flushAll c dom codecs st = (st', r) -> rp_ok st'.
Proof.
  revert st; induction codecs as [|codec codecs IH]; intros st H Hsm; cbn; [by intros [= <- _]|].
  destruct (flushBuf c dom codec st) as [st1 r1] eqn:Hf.
  destruct (flushBuf_ok codec st st1 r1 H) as [H1 H2]; [by intros; eapply small_fit|done|].
  destruct r1 as [[]|]; [|by intros [= <- _]]. apply IH; [done|]. intros a cb Ha.
  destruct (H2 eq_refl a cb Ha) as [[_ ?]|[_ Hb]]; [by left|by eapply Hsm].
Qed.

Lemma consolidate_ok cfg lm candidates st r :
  live_ok lm -> consolidate c cfg dom lm candidates (wBlobs w) (wDedup w) = (st, r) -> rp_ok st.
Proof.
  intros Hlm. unfold consolidate. set (st0 := RP _ _ _ _ _ _ _).
  assert (H0 : rp_ok st0).
  { split; cbn; try done; [exact (cr_packs Ready)|by intros ? ? ?%lookup_empty_Some..]. }
  assert (Hs0 : small_bufs st0) by (intros a cb Ha; cbn in Ha; by rewrite lookup_empty in Ha).
  destruct (if Defrag cfg then _ else _) as [st1 r1] eqn:Hc.
  assert (H1 : rp_ok st1 /\ (r1 = Ok tt -> small_bufs st1)).
  { destruct (Defrag cfg); [by eapply consolidateFile_ok|by eapply consolidateHash_ok]. }
  destruct H1 as [H1 Hs1]. destruct r1 as [[]|]; [|by intros [= <- _]].
  intros Hf. eapply flushAll_ok; [exact H1|by apply Hs1|exact Hf].
Qed.

(** *** The scan *)

Context (Life : life_ok w).

(** The key's latest manifest is a v2 manifest of the domain. *)
Definition key_ok (key : SnapshotKey) : Prop :=
  exists b md m, is_latest (wUps w) key b md /\ json_Unmarshal b = Some m /\ Format m = manifestFormatV2 /\ mTenant m = dom.

Definition keys_ok (lm : liveMaps) : Prop :=
  forall ph keys key, packKeys lm !! ph = Some keys -> key ∈ keys -> key_ok key.

Lemma absorbRefs_ok key refs lm :
  key_ok key -> Forall (fun ref => exists x, live_in (PackHash ref) (Hash ref) (Offset ref) (Size ref) x) refs ->
  live_ok lm -> keys_ok lm ->
  let lm' := foldl (absorbRef key) lm refs in live_ok lm' /\ keys_ok lm' /\ keyOrder lm' = keyOrder lm.
Proof.
  intros Hk Hall. revert lm. induction Hall as [|ref refs [x Hx] _ IH]; intros lm Hl Hks; cbn; [done|].
  destruct (IH (absorbRef key lm ref)) as (H1 & H2 & H3).
  - split; [|apply Hl]. intros ph chunks h off size. cbn. intros [[<- <-]|[_ Hp]]%lookup_insert_Some; [|by eapply Hl].
    intros [[<- [= <- <-]]|[_ Hh]]%lookup_insert_Some; [by exists x|].
    destruct (packLive lm !! PackHash ref) as [ch|] eqn:E; cbn in Hh; [by eapply Hl|by rewrite lookup_empty in Hh].
  - intros ph keys key'. cbn. intros [[<- <-]|[_ Hp]]%lookup_insert_Some; [|by eapply Hks].
    intros [->%elem_of_singleton|Hin]%elem_of_union; [done|].
    destruct (packKeys lm !! PackHash ref) as [ks|] eqn:E; cbn in Hin; [by eapply Hks|by apply elem_of_empty in Hin].
  - split_and!; [done|done|]. by rewrite H3.
Qed.

(** A stored manifest's references are live chunks. *)
Lemma manifest_live key b md m ref :
  is_latest (wUps w) key b md -> json_Unmarshal b = Some m -> Format m = manifestFormatV2 -> mTenant m = dom ->
  ref ∈ Chunks m -> exists x, live_in (PackHash ref) (Hash ref) (Offset ref) (Size ref) x.
Proof.
  intros [Hs _] Hj Hf Ht Hin. destruct Life as [Hw Hg].
  destruct (gr_tagged w Hg _ _ _ _ _ Hs Hj (or_intror Hf)) as [_ Hfm].
  destruct (wo_snaps w Hw _ _ _ _ Hs m Hj (or_intror Hf)) as [cs Hcs].
  apply list_elem_of_lookup in Hin as Hi. destruct Hi as [i Hi]. destruct (Forall2_lookup_l _ _ _ _ _ Hcs Hi) as (x & _ & Hx). exists x. destruct ref as [h ph off size]. cbn in *. split.
  - exists m. split; [by exists key, (Version md), b, md; auto|done].
  - destruct Hfm as [[Hv _]|[_ Hd]]; [by rewrite Hv in Hf|]. rewrite Forall_forall in Hd.
    destruct (Hd _ Hin) as [_ Hp%digest_nonempty]. unfold ref_backed in Hx. rewrite decide_False in Hx by done. by rewrite Ht in Hx.
Qed.

Lemma latestManifest_ok key m :
  latestManifest (wUps w) key = Ok (Some m) -> exists b md, is_latest (wUps w) key b md /\ json_Unmarshal b = Some m.
Proof.
  unfold latestManifest. destruct (sGetLatest _ _) as [[[b|] md]|e] eqn:Hl; [|done|by case_decide].
  intros [= Hj]. apply slatest_sound in Hl as (b' & Hb & [[= <-]|[? ?]] & Hmax); [|done]. by exists b, md.
Qed.

Lemma scanRow_ok cfg packs row lm lm' :
  live_ok lm -> keys_ok lm -> scanRow cfg (wUps w) dom packs row lm = Ok lm' -> live_ok lm' /\ keys_ok lm'.
Proof.
  intros Hl Hk. destruct row as [[key v] md]. unfold scanRow. case_decide; [by intros [= <-]|].
  set (lm0 := LM _ _ _ _). assert (Hl0 : live_ok lm0) by done. assert (Hk0 : keys_ok lm0) by done.
  intros (om & Hm & Hr)%bind_ok. destruct om as [m|]; [|by injection Hr as <-].
  case_decide as Hd; [|by injection Hr as <-]. destruct Hd as [Hf Ht]. injection Hr as <-.
  destruct (latestManifest_ok key m Hm) as (b & md' & Hlat & Hj).
  assert (Hall : Forall (fun ref => exists x, live_in (PackHash ref) (Hash ref) (Offset ref) (Size ref) x) (knownRefs packs (Chunks m))).
  { apply Forall_forall. intros ref Href. unfold knownRefs in Href. apply list_elem_of_filter in Href as [_ Href].
    by eapply manifest_live. }
  destruct (absorbRefs_ok key _ lm0 (ex_intro _ b (ex_intro _ md' (ex_intro _ m (conj Hlat (conj Hj (conj Hf Ht)))))) Hall Hl0 Hk0)
    as (H1 & H2 & H3).
  unfold absorbManifest. destruct (Defrag cfg && _); [|done]. split; [|done]. split; [apply H1|].
  intros key' refs ref. cbn. rewrite H3. intros [[_ <-]|[_ Ho]]%lookup_insert_Some Hin; [|by eapply Hl].
  rewrite Forall_forall in Hall. by apply Hall.
Qed.

Lemma scan_ok walkCancel cfg packs lm :
  scan walkCancel cfg (wUps w) dom packs = Ok lm -> live_ok lm /\ keys_ok lm.
Proof.
  unfold scan. destruct (sWalk (wUps w)) as [rows werr]. intros (lm1 & Hs & Hr)%bind_ok.
  destruct werr; [done|]. injection Hr as <-.
  assert (Hgen : forall rows i lm, live_ok lm -> keys_ok lm -> scanRows walkCancel cfg (wUps w) dom packs i rows lm = Ok lm1 ->
    live_ok lm1 /\ keys_ok lm1).
  { clear rows Hs. intros rows. induction rows as [|row rows IH]; intros i lm0 Hl Hk; cbn; [by intros [= <-]|].
    destruct (walkCancel i); [done|]. intros (lm2 & Hrow & Hr)%bind_ok.
    destruct (scanRow_ok _ _ _ _ _ Hl Hk Hrow). by eapply IH. }
  eapply Hgen; [| |exact Hs].
  - by split; cbn; [intros ????? ?%lookup_empty_Some|intros ??? ?%lookup_empty_Some].
  - intros ??? H. cbn in H. by rewrite lookup_empty in H.
Qed.

(** *** Rewriting manifests *)

Lemma is_latest_unique u k b1 md1 b2 md2 : is_latest u k b1 md1 -> is_latest u k b2 md2 -> b1 = b2 /\ md1 = md2.
Proof.
  intros [H1 M1] [H2 M2]. assert (E : Version md1 = Version md2).
  { apply str_ltb_total; [apply M1|apply M2]; by eexists. }
  rewrite E in H1. rewrite H1 in H2. by injection H2.
Qed.

Lemma ref_backed_fun s t ref x y : ref_backed s t ref x -> ref_backed s t ref y -> x = y.
Proof.
  unfold ref_backed. case_decide.
  - intros (s1 & t1 & H1 & D1 & _) (s2 & t2 & H2 & D2 & _). congruence.
  - intros (s1 & t1 & c1 & H1 & D1 & (_ & _ & _ & -> & _) & _) (s2 & t2 & c2 & H2 & D2 & (_ & _ & _ & -> & _) & _).
    rewrite H1 in H2. injection H2 as -> ->. rewrite D1 in D2. by injection D2 as ->.
Qed.

Lemma refs_backed_fun s t refs xs ys : Forall2 (ref_backed s t) refs xs -> Forall2 (ref_backed s t) refs ys -> xs = ys.
Proof.
  intros Hx. revert ys. induction Hx as [|ref x refs xs H _ IH]; intros ys Hy; inversion Hy; subst; [done|].
  f_equal; [by eapply ref_backed_fun|by apply IH].
Qed.

(** Every version of the key holds [data], and there is one. *)
Definition only_data (w : world) (key : SnapshotKey) (data : bytes) : Prop :=
  (exists v md, holds w key v md data) /\
  forall v b md, snaps (wUps w) !! (key, v) = Some (b, md) -> holds w key v md data.

Context (s : storage) (rel : gmap string PackRef) (d : dstore).
Context (Smono : blobs (wBlobs w) ⊆ blobs s) (Rel : rel_ok s rel) (Jsafe : json_safe dom).

Definition ref_live (ref : chunkRef) (x : bytes) : Prop :=
  is_digest (Hash ref) /\ is_digest (PackHash ref) /\ live_in (PackHash ref) (Hash ref) (Offset ref) (Size ref) x.

Definition digests (ref : chunkRef) : Prop := is_digest (Hash ref) /\ is_digest (PackHash ref).

Lemma pack_ref_backed (st : storage) ref x :
  is_digest (PackHash ref) -> pack_backed st (packBlobID dom (PackHash ref)) ref x -> ref_backed st dom ref x.
Proof. intros Hd%digest_nonempty H. unfold ref_backed. by rewrite decide_False. Qed.

Lemma relocateRef_ok selected ref ref' x :
  ref_live ref x -> relocateRef selected rel ref = Ok ref' -> ref_backed s dom ref' x /\ digests ref'.
Proof.
  intros (Hh & Hp & Hl). unfold relocateRef. case_decide as Hsel.
  - destruct (rel !! Hash ref) as [nl|] eqn:Hn; [|done]. intros [= <-].
    destruct (Rel _ _ Hn) as [Hd (y & Hy & Hsha & Hb & Hsz)]. destruct (live_in_hash _ _ _ _ _ Hl) as [Hxs Hxl].
    assert (y = x) as -> by (apply chunk_of_inj; [done|by eapply live_in_chunk|congruence]).
    split; [|by split]. apply pack_ref_backed; [done|]. cbn. by rewrite <- Hxl.
  - intros [= <-]. split; [|by split]. apply pack_ref_backed; [done|]. destruct Hl as [_ Hb]. destruct ref. by eapply pack_backed_mono.
Qed.

Lemma relocateRefs_ok selected refs refs' cs :
  Forall2 ref_live refs cs -> mapR (relocateRef selected rel) refs = Ok refs' ->
  Forall2 (ref_backed s dom) refs' cs /\ Forall digests refs'.
Proof.
  intros H. revert refs'. induction H as [|ref x refs cs Hx _ IH]; intros refs'; cbn; [by intros [= <-]|].
  intros (r1 & H1 & H2)%bind_ok. apply bind_ok in H2 as (rs & H2 & [= <-]).
  destruct (relocateRef_ok _ _ _ _ Hx H1), (IH rs H2). split; by constructor.
Qed.

(** The latest manifest of a key of the domain, as the scan saw it. *)
Lemma key_refs_live key b md m :
  is_latest (wUps w) key b md -> json_Unmarshal b = Some m -> Format m = manifestFormatV2 -> mTenant m = dom ->
  exists cs, Forall2 ref_live (Chunks m) cs /\ Forall2 (ref_backed s dom) (Chunks m) cs.
Proof.
  intros Hl Hj Hf Ht. destruct Hl as [Hs Hm]. destruct Life as [Hw Hg].
  destruct (gr_tagged w Hg _ _ _ _ _ Hs Hj (or_intror Hf)) as [_ [[Hv _]|[_ Hd]]]; [by rewrite Hv in Hf|].
  destruct (wo_snaps w Hw _ _ _ _ Hs m Hj (or_intror Hf)) as [cs Hcs]. rewrite Ht in Hcs. exists cs. split.
  - eapply Forall2_impl_l; [exact Hcs|]. intros ref x Hin Hx. rewrite Forall_forall in Hd. destruct (Hd _ Hin) as [H1 H2].
    destruct ref as [h ph off sz]. cbn in *. split_and!; [done..|]. split.
    + exists m. split; [by exists key, (Version md), b, md; auto|done].
    + unfold ref_backed in Hx. cbn in Hx. by rewrite decide_False in Hx by (by apply digest_nonempty).
  - eapply Forall2_impl; [exact Hcs|]. intros. by eapply ref_backed_mono.
Qed.

Lemma only_version u key (only : SnapshotMetadata) v : sList u key = Ok [only] -> is_Some (snaps u !! (key, v)) -> v = Version only.
Proof. intros Hl Hv. apply (slist_sound u key [only] Hl) in Hv. by apply list_elem_of_singleton in Hv. Qed.

Definition same_key (u : sstore) (key : SnapshotKey) : Prop := forall v, snaps u !! (key, v) = snaps (wUps w) !! (key, v).

(** A key's data through a rewrite of its manifest. *)
Lemma only_data_rewritten u u1 u' key old b1 md1 m1 cs only data :
  sList u key = Ok [only] -> holds (W s u d) key (Version only) old data ->
  snaps u1 = <[(key, Version md1) := (b1, md1)]> (snaps u) -> snaps u' = snaps u1 \/ snaps u' = delete (key, Version only) (snaps u1) ->
  snaps u !! (key, Version md1) = None -> json_Unmarshal b1 = Some m1 -> formed m1 -> mTenant m1 = dom ->
  Forall2 (ref_backed s dom) (Chunks m1) cs -> concat cs = data -> only_data (W s u' d) key data.
Proof.
  intros Hl Hh Hu1 Hu' Hnone Hj Hf Ht Hcs Hdata.
  assert (Hne : Version md1 <> Version only).
  { intros E. destruct Hh as (b & m & cs0 & Hb & _). rewrite E in Hnone. cbn in Hb. congruence. }
  assert (Hin : snaps u' !! (key, Version md1) = Some (b1, md1)).
  { destruct Hu' as [->| ->]; rewrite ?lookup_delete_ne by congruence; rewrite Hu1; apply lookup_insert_eq. }
  assert (Hnew : holds (W s u' d) key (Version md1) md1 data).
  { exists b1, m1, cs. rewrite Ht. done. }
  split; [by eauto|]. intros v b md Hv. cbn in Hv.
  destruct (decide (v = Version md1)) as [->|Hnv]; [rewrite Hin in Hv; injection Hv as <- <-; done|].
  assert (Hold : snaps u !! (key, v) = Some (b, md)).
  { destruct Hu' as [Hu'|Hu']; rewrite Hu' in Hv; [|apply lookup_delete_Some in Hv as [_ Hv]];
      rewrite Hu1, lookup_insert_ne in Hv by congruence; done. }
  assert (v = Version only) as -> by (eapply only_version; [exact Hl|by eexists]).
  destruct Hh as (b0 & m & cs0 & Hb & Hrest). cbn in Hb. rewrite Hold in Hb. injection Hb as -> ->.
  exists b0, m, cs0. done.
Qed.

(** The key's data is kept: a version disappears only when the versions left
    hold its bytes. *)
Definition kept (w1 w2 : world) (key : SnapshotKey) : Prop :=
  (forall v md data, holds w1 key v md data -> holds w2 key v md data \/ only_data w2 key data) /\
  (forall data, only_data w1 key data -> only_data w2 key data).

Lemma kept_trans w1 w2 w3 key : kept w1 w2 key -> kept w2 w3 key -> kept w1 w3 key.
Proof.
  intros [A1 B1] [A2 B2]. split; [|auto]. intros v md data [H|H]%A1; [by apply A2|right; by apply B2].
Qed.

Lemma kept_same w1 w2 key :
  blobs (wBlobs w1) ⊆ blobs (wBlobs w2) -> (forall v, snaps (wUps w2) !! (key, v) = snaps (wUps w1) !! (key, v)) -> kept w1 w2 key.
Proof.
  intros Hb Hs. assert (Hh : forall v md data, holds w1 key v md data -> holds w2 key v md data).
  { intros v md data. apply holds_mono; [by left|done]. }
  split; [auto|]. intros data [(v & md & H) Hall]. split; [eauto|]. intros v' b md'. rewrite Hs. intros Hv.
  by eapply Hh, Hall.
Qed.

Lemma rewriteSelectedRefs_ok u key selected u' r :
  life_ok (W s u d) -> same_key u key -> key_ok key ->
  rewriteSelectedRefs u key selected rel = (u', r) ->
  life_ok (W s u' d) /\ kept (W s u d) (W s u' d) key /\
  (forall key' v, key' <> key -> snaps u' !! (key', v) = snaps u !! (key', v)).
Proof.
  intros Hlife Hsame (b0 & md0 & m0 & Hlat0 & Hj0 & Hf0 & Ht0).
  assert (Hdone : forall u1, snaps u1 = snaps u -> life_ok (W s u1 d) /\ kept (W s u d) (W s u1 d) key /\
    (forall key' v, key' <> key -> snaps u1 !! (key', v) = snaps u !! (key', v))).
  { intros u1 E. split_and!; [apply (life_ok_fewer (W s u d)); [done|by rewrite E]| |intros; by rewrite E].
    apply kept_same; [done|]. intros v. cbn. by rewrite E. }
  unfold rewriteSelectedRefs. destruct (sList u key) as [[|only [|o2 l]]|e] eqn:Hl;
    [intros [= <- _]; by apply Hdone| |intros [= <- _]; by apply Hdone|case_decide; intros [= <- _]; by apply Hdone].
  destruct (sGetLatest u key) as [[[b|] md]|] eqn:Hg; [|intros [= <- _]; by apply Hdone..].
  apply slatest_sound in Hg as (b' & Hb & [[= <-]|[? ?]] & Hmax); [|done].
  assert (Hlat : is_latest (wUps w) key b md).
  { split; [by rewrite <- Hsame|]. intros v Hv. apply Hmax. by rewrite Hsame. }
  destruct (is_latest_unique _ _ _ _ _ _ Hlat Hlat0) as [-> ->]. rewrite Hj0, decide_False by tauto.
  destruct (mapR _ _) as [refs|] eqn:Hm; [|intros [= <- _]; by apply Hdone].
  case_decide; [intros [= <- _]; by apply Hdone|].
  destruct (key_refs_live key b0 md0 m0 Hlat0 Hj0 Hf0 Ht0) as (cs & Hcl & Hcs).
  destruct (relocateRefs_ok selected _ _ _ Hcl Hm) as [Hnew Hdig].
  set (m1 := MkManifest (Format m0) (TotalSize m0) (mTenant m0) refs).
  assert (Hfm : formed m1) by (right; split; [done|exact Hdig]).
  assert (Hj1 : json_Unmarshal (json_Marshal m1) = Some m1) by (by apply (manifest_round dom)).
  destruct (sPut _ _ _ _) as [u1 [md1|e]] eqn:Hp; [|intros [= <- _]; apply Hdone; by eapply sput_err].
  apply sput_ok in Hp as (Hn & Hu1 & _ & _ & Htags).
  assert (Hver : Version md0 = Version only) by (eapply only_version; [exact Hl|by eexists]).
  assert (Htag : isChunkedManifest md1 = true).
  { unfold isChunkedManifest, tag. rewrite Htags. destruct Life as [_ Hgr].
    destruct Hlat0 as [Hs0 _]. exact (proj1 (gr_tagged w Hgr _ _ _ _ _ Hs0 Hj0 (or_intror Hf0))). }
  assert (Hlife1 : life_ok (W s u1 d)).
  { eapply (life_ok_insert (W s u d)); [done|exact Hu1|exact Hj1|done|done|]. cbn. by rewrite Ht0. }
  destruct (sDelete u1 key (Version only)) as [u2 rd] eqn:Hd. apply delete_snaps in Hd. intros Hr.
  assert (u' = u2) as -> by (destruct rd; by injection Hr). clear Hr.
  split_and!.
  - apply (life_ok_fewer (W s u1 d)); [done|]. destruct Hd as [->| ->]; [done|apply delete_subseteq].
  - assert (Hgen : forall v md data, holds (W s u d) key v md data -> only_data (W s u2 d) key data).
    { intros v md data Hh. assert (Hh' := Hh). destruct Hh' as (b1 & m & cs1 & Hb1 & Hj & Hf & Hr & Hc). cbn in Hb1.
      assert (v = Version only) as -> by (eapply only_version; [exact Hl|by eexists]).
      assert (Hb2 := Hb1). rewrite <- Hver, Hb in Hb2. injection Hb2 as <- <-. rewrite Hj0 in Hj. injection Hj as <-.
      eapply (only_data_rewritten u u1 u2 key md0 _ md1 m1 cs only); try done.
      cbn in Hr. rewrite Ht0 in Hr. by rewrite (refs_backed_fun _ _ _ _ _ Hcs Hr). }
    split; [intros v md data Hh; right; by eapply Hgen|]. intros data [(v & md & Hh) _]. by eapply Hgen.
  - intros key' v Hne. destruct Hd as [->| ->]; rewrite ?lookup_delete_ne by congruence; by rewrite Hu1, lookup_insert_ne by congruence.
Qed.

Lemma rewriteKeys_ok selected keys rewritten u n u' n' oe :
  life_ok (W s u d) -> (forall key, key ∈ keys -> key_ok key) ->
  (forall key, key ∉ rewritten -> same_key u key) ->
  rewriteKeys selected rel keys rewritten u n = (u', n', oe) ->
  life_ok (W s u' d) /\ forall key, kept (W s u d) (W s u' d) key.
Proof.
  revert rewritten u n. induction keys as [|key keys IH]; intros rewritten u n Hl Hk Hs; cbn.
  { intros [= <- _ _]. split; [done|]. intros key. by apply kept_same. }
  case_decide as Hin; [apply IH; [done|set_solver|done]|].
  destruct (rewriteSelectedRefs u key selected rel) as [u1 r1] eqn:Hr.
  destruct (rewriteSelectedRefs_ok u key selected u1 r1 Hl (Hs key Hin) (Hk key ltac:(by left)) Hr) as (Hl1 & Hk1 & Ho).
  assert (Hk1' : forall key', kept (W s u d) (W s u1 d) key').
  { intros key'. destruct (decide (key' = key)) as [->|Hne]; [done|]. apply kept_same; [done|]. intros v. by apply Ho. }
  destruct r1 as [ch|]; [|intros [= <- _ _]; done]. intros Hrest.
  destruct (IH ({[key]} ∪ rewritten) u1 (if ch then n + 1 else n)) as [H1 H2]; [done|set_solver| |done|].
  - intros key' Hn v. rewrite Ho by set_solver. apply Hs. set_solver.
  - split; [done|]. intros key'. by eapply kept_trans.
Qed.
End Spec.

(** ** The pass *)

Section Pass.
  Context {Clib : CodecLib} {Claws : CodecLaws} {Sto : Storage} {L : StorageLaws Sto}
          {U : SnapshotStore} {SL : SnapshotStoreLaws U} {D : DedupStore} {DL : DedupStoreLaws D}
          {J : ManifestCodec} {JL : ManifestCodecLaws}.
  Context (c : ChunkedStore) (w : world) (dom : string).
  Context (Ready : compact_ready c w dom) (Life : life_ok w) (Jsafe : json_safe dom) (Named : dom <> "").

(** More blobs, and an index whose new entries are backed. *)
Lemma life_ok_grow s d :
  blobs (wBlobs w) ⊆ blobs s ->
  (forall dom' h ref, entries d dom' !! h = Some ref -> entries (wDedup w) dom' !! h = Some ref \/
     (dom' = dom /\ is_digest (rPackHash ref) /\
      exists x, pack_backed s (packBlobID dom (rPackHash ref)) (MkRef h (rPackHash ref) (rOffset ref) (rSize ref)) x)) ->
  life_ok (W s (wUps w) d) /\ forall key, kept w (W s (wUps w) d) key.
Proof.
  intros Hs Hd. destruct Life as [[Hsn Hix] Hg]. split; [split; split; cbn|].
  - intros k v b md Hb. by eapply snap_ok_mono, Hsn.
  - intros dom' h ref [He|(-> & Hdig & Hx)]%Hd; [|done]. by apply (index_ok_mono _ _ _ Hs Hix).
  - apply Hg.
  - intros dom' h ref [He|(-> & _)]%Hd; [by eapply gr_index|done].
  - intros key. by apply kept_same.
Qed.

Lemma repoint_entries st candidates d r :
  rp_ok w dom st -> repointIndex c dom candidates st = (d, r) ->
  forall dom' h ref, entries d dom' !! h = Some ref -> entries (wDedup w) dom' !! h = Some ref \/
     (dom' = dom /\ is_digest (rPackHash ref) /\
      exists x, pack_backed (rpBlobs st) (packBlobID dom (rPackHash ref)) (MkRef h (rPackHash ref) (rOffset ref) (rSize ref)) x).
Proof.
  intros H Hr dom' h ref He. revert Hr. unfold repointIndex.
  assert (Hold : d = rpDedup st -> entries (wDedup w) dom' !! h = Some ref) by (intros ->; by rewrite <- (rp_entries _ _ _ H)).
  destruct (index c); [intros [= E _]; auto|]. case_decide; [intros [= E _]; auto|]. unfold Repoint.
  destruct candidates as [|ph phs]; [intros [= E _]; auto|].
  destruct (dPurgePacks _ _ _) as [d1 r1] eqn:Hp. apply purge_sound in Hp as [Hp _].
  assert (Hold1 : entries d1 dom' !! h = Some ref -> entries (wDedup w) dom' !! h = Some ref).
  { intros Hx%Hp. by rewrite <- (rp_entries _ _ _ H). }
  destruct r1; [|intros [= -> _]; auto]. destruct (_ <$> _) as [|loc locs] eqn:Hlocs; [intros [= -> _]; auto|].
  intros Hrec. destruct (record_sound _ _ _ _ _ Hrec _ _ _ He) as [Hx|[-> Hin]]; [auto|]. right. split; [done|].
  rewrite <- Hlocs in Hin. apply list_elem_of_fmap in Hin as ([h' nl] & [= -> ->] & Hin). apply elem_of_map_to_list in Hin.
  destruct (rp_rel _ _ _ H _ _ Hin) as [Hd (x & _ & _ & Hb & Hsz)]. split; [done|]. exists x. cbn in *. by rewrite Hsz.
Qed.

Lemma keysOf_ok lm candidates key : keys_ok w dom lm -> key ∈ keysOf lm candidates -> key_ok w dom key.
Proof.
  intros Hk Hin. unfold keysOf in Hin. apply list_elem_of_join in Hin as (l & Hl & Hin).
  apply list_elem_of_fmap in Hin as (ph & -> & _). apply elem_of_elements in Hl.
  destruct (packKeys lm !! ph) as [ks|] eqn:E; cbn in Hl; [by eapply Hk|by apply elem_of_empty in Hl].
Qed.

End Pass.
