(* ===== verification/Backfill.v ===== *)
(** Association backfill (casstore/snapshot/packassoc_backfill.go).

    [BackfillAssociations] derives the associations existing manifests imply
    and marks the domain, after which the collector may take its live set from
    the association index.  The theorem is that link: after a backfill that
    returned, every pack a v2 manifest of the domain references is in the
    association-derived live set, which is what [assoc_covers] asks of the
    store in the collector's own theorems.

    [AssocLaws] is what the association store promises; the in-memory store
    discharges it. *)

From S2P Require Import Prelude GoStrings Sha256 PackFormat BlobStore Manifest SnapStore DedupIndex PackAssoc Reclaim ChunkedRead ChunkedWrite PutSpec PutGet GC GCSpec.

Class AssocLaws (D : DedupStore) (A : PackAssocStore D) := {
  assoc_rel : dstore -> string -> string -> string -> Prop;
  assoc_add : forall f d dom l d' r, dAssociate = Some f -> f d dom l = (d', r) ->
    forall dom' p c, assoc_rel d' dom' p c <->
      assoc_rel d dom' p c \/ (r = Ok tt /\ dom' = dom /\ MkAssoc p c ∈ l);
  assoc_walk : forall d dom l, aWalkLivePacks d dom = Ok l -> forall p, p ∈ l <-> exists c, assoc_rel d dom p c;
  assoc_mark : forall d dom d' r, aMarkBackfilled d dom = (d', r) ->
    forall dom' p c, assoc_rel d' dom' p c <-> assoc_rel d dom' p c;
}.

#[export] Instance mem_assoc_laws : AssocLaws mem_dedup mem_assoc_store.
Proof.
  refine {| assoc_rel := fun (d : @dstore mem_dedup) dom p c => associated (assocFor d dom) p c |}.
  - intros f d dom l d' r [= <-] Ha dom' p c. destruct (decide (dom' = dom)) as [->|Hne].
    + destruct r as [[]|e].
      * rewrite (Associate_ok d dom l d' Ha). naive_solver.
      * revert Ha. unfold Associate. destruct l; [done|]. destruct (forallb _ _); [done|]. intros [= <- <-].
        rewrite assocFor_put, decide_True by done. naive_solver.
    + assert (assocFor d' dom' = assocFor d dom') as ->; [|naive_solver]. revert Ha. unfold Associate.
      destruct l; [by intros [= <- _]|]. destruct (forallb _ _); intros [= <- _]; by rewrite assocFor_put, decide_False.
  - intros d dom l [= <-] p. unfold WalkLivePacks, associated, innerSet. rewrite list_elem_of_fmap. split.
    + intros ([q cs] & -> & H). apply list_elem_of_filter in H as [Hne H]. apply elem_of_map_to_list in H. cbn in *.
      apply set_choose_L in Hne as [c Hc]. exists c. by rewrite H.
    + intros [c Hc]. destruct (byPack (assocFor d dom) !! p) as [cs|] eqn:E; cbn in Hc; [|by apply elem_of_empty in Hc].
      exists (p, cs). split; [done|]. apply list_elem_of_filter. split; [cbn; set_solver|by apply elem_of_map_to_list].
  - intros d dom d' r [= <- _] dom' p c. unfold MarkBackfilled. rewrite assocFor_put. case_decide; [by subst|done].
Defined.

Record BackfillResult := MkBackfill { bManifests : Z; bAssociations : Z; bContexts : Z }.

Definition backfillBatchSize : Z := 1000.

Section Backfill.
  Context {U : SnapshotStore} {D : DedupStore} {A : PackAssocStore D} {J : ManifestCodec}.
  Context (walkPayloads : option (sstore -> list (SnapshotKey * string * SnapshotMetadata * bytes) * option err))
          (ctxErr : nat -> option err).
  (** [store.Associate] of the configured store. *)
  Context (associate : dstore -> string -> list PackAssociation -> dstore * result unit).

Record backfillState := BFS {
  bfD : dstore; bfPending : gmap string (list PackAssociation); bfContexts : gset string; bfDomains : gset string;
  bfManifests : Z; bfRecorded : Z }.

Definition flushAssoc (dn : string) (st : backfillState) : backfillState * result unit :=
  match default [] (bfPending st !! dn) with
  | [] => (st, Ok tt)
  | batch =>
      match associate (bfD st) dn batch with
      | (d, Err e) => (BFS d (bfPending st) (bfContexts st) (bfDomains st) (bfManifests st) (bfRecorded st), Err e)
      | (d, Ok _) => (BFS d (<[dn := []]> (bfPending st)) (bfContexts st) (bfDomains st) (bfManifests st)
                        (bfRecorded st + len batch), Ok tt)
      end
  end.

Definition addPending (dn : string) (pending : gmap string (list PackAssociation)) (a : PackAssociation) :=
  <[dn := default [] (pending !! dn) ++ [a]]> pending.

(** The context is the owner key. *)
Definition absorb (domain : string) (key : SnapshotKey) (payload : bytes) (st : backfillState)
  : backfillState * result unit :=
  match json_Unmarshal payload with
  | None => (st, Ok tt)
  | Some m =>
      if decide (Format m <> manifestFormatV2) then (st, Ok tt)
      else if decide (domain <> "" /\ mTenant m <> domain) then (st, Ok tt)
      else
        let st := BFS (bfD st) (foldl (addPending (mTenant m)) (bfPending st) (packsOf ∅ (OwnerKey key) (Chunks m)))
                    ({[OwnerKey key]} ∪ bfContexts st) ({[mTenant m]} ∪ bfDomains st) (bfManifests st + 1) (bfRecorded st) in
        if backfillBatchSize <=? len (default [] (bfPending st !! mTenant m)) then flushAssoc (mTenant m) st else (st, Ok tt)
  end.

Definition yieldPayload (domain : string) (row : SnapshotKey * string * SnapshotMetadata * bytes) (st : backfillState)
  : backfillState * result unit :=
  let '(key, _, md, payload) := row in
  if isChunkedManifest md then absorb domain key payload st else (st, Ok tt).

Definition yieldGet (u : sstore) (domain : string) (row : SnapshotKey * string * SnapshotMetadata) (st : backfillState)
  : backfillState * result unit :=
  let '(key, version, md) := row in
  if isChunkedManifest md then
    match sGet u key version with
    | Err _ => (st, Ok tt)
    | Ok (Err _, _) => (st, Ok tt)
    | Ok (Ok payload, _) => absorb domain key payload st
    end
  else (st, Ok tt).

Fixpoint yieldRows {R} (f : R -> backfillState -> backfillState * result unit) (i : nat) (rows : list R)
  (st : backfillState) : backfillState * result unit :=
  match rows with
  | [] => (st, Ok tt)
  | r :: rows => match ctxErr i with
                 | Some e => (st, Err e)
                 | None => match f r st with
                           | (st, Err e) => (st, Err e)
                           | (st, Ok _) => yieldRows f (S i) rows st
                           end
                 end
  end.

Definition thenErr (x : backfillState * result unit) (werr : option err) : backfillState * result unit :=
  match x, werr with
  | (st, Ok _), Some e => (st, Err e)
  | _, _ => x
  end.

Definition walkManifestPayloads (u : sstore) (domain : string) (st : backfillState) : backfillState * result unit :=
  match walkPayloads with
  | Some wp => let '(rows, werr) := wp u in thenErr (yieldRows (yieldPayload domain) 0 rows st) werr
  | None => let '(rows, werr) := sWalk u in thenErr (yieldRows (yieldGet u domain) 0 rows st) werr
  end.

Fixpoint flushEach (dns : list string) (st : backfillState) : backfillState * result unit :=
  match dns with
  | [] => (st, Ok tt)
  | dn :: dns => match flushAssoc dn st with
                 | (st, Err e) => (st, Err e)
                 | (st, Ok _) => flushEach dns st
                 end
  end.

Fixpoint markEach (dns : list string) (d : dstore) : dstore * result unit :=
  match dns with
  | [] => (d, Ok tt)
  | dn :: dns => match aMarkBackfilled d dn with
                 | (d, Err e) => (d, Err e)
                 | (d, Ok _) => markEach dns d
                 end
  end.

Definition resultOf (st : backfillState) (n : Z) : BackfillResult := MkBackfill (bfManifests st) (bfRecorded st) n.

Definition backfillWith (u : sstore) (d : dstore) (domain : string) : dstore * BackfillResult * option err :=
  match walkManifestPayloads u domain (BFS d ∅ ∅ ∅ 0 0) with
  | (st, Err e) => (bfD st, resultOf st 0, Some e)
  | (st, Ok _) =>
      match flushEach ((fun x => x.1) <$> map_to_list (bfPending st)) st with
      | (st, Err e) => (bfD st, resultOf st 0, Some e)
      | (st, Ok _) =>
          let domains := if decide (domain = "") then bfDomains st else {[domain]} ∪ bfDomains st in
          match markEach (elements domains) (bfD st) with
          | (d, Err e) => (d, resultOf st 0, Some e)
          | (d, Ok _) => (d, resultOf st (Z.of_nat (size (bfContexts st))), None)
          end
      end
  end.
End Backfill.

Definition BackfillAssociations {U : SnapshotStore} {D : DedupStore} {A : PackAssocStore D} {J : ManifestCodec}
  (walkPayloads : option (sstore -> list (SnapshotKey * string * SnapshotMetadata * bytes) * option err))
  (ctxErr : nat -> option err) (c : ChunkedStore) (u : sstore) (d : dstore) (domain : string)
  : dstore * BackfillResult * option err :=
  match packAssociator c with
  | None => (d, MkBackfill 0 0 0, Some (EOther "no association support"))
  | Some associate => backfillWith walkPayloads ctxErr associate u d domain
  end.

(** ** A backfilled domain is covered *)

Section Covers.
  Context {U : SnapshotStore} {SL : SnapshotStoreLaws U} {SR : SnapshotStoreReadable U} {D : DedupStore} {A : PackAssocStore D}
          {AL : AssocLaws D A} {J : ManifestCodec}.
  Context (ctxErr : nat -> option err) (associate : dstore -> string -> list PackAssociation -> dstore * result unit)
          (Hassoc : dAssociate = Some associate).

Definition pendingOf (st : backfillState) (dn : string) : list PackAssociation := default [] (bfPending st !! dn).

(** The pack is associated in the store or waiting to be. *)
Definition covered (st : backfillState) (dn p : string) : Prop :=
  (exists ctx, assoc_rel (bfD st) dn p ctx) \/ (exists a, a ∈ pendingOf st dn /\ aPackHash a = p).

Definition keeps (st st' : backfillState) : Prop := forall dn p, covered st dn p -> covered st' dn p.

Lemma flushAssoc_ok dn st st' :
  flushAssoc associate dn st = (st', Ok tt) ->
  keeps st st' /\ pendingOf st' dn = [] /\ forall dn', pendingOf st' dn' = pendingOf st dn' \/ pendingOf st' dn' = [].
Proof.
  unfold flushAssoc. fold (pendingOf st dn). destruct (pendingOf st dn) as [|a batch] eqn:Hp.
  { intros [= <-]. split; [by intros ??|]. auto. }
  destruct (associate (bfD st) dn (a :: batch)) as [d [[]|]] eqn:Ha; [|done]. intros [= <-].
  pose proof (assoc_add _ _ _ _ _ _ Hassoc Ha) as Hadd.
  assert (Hpend : forall dn', pendingOf (BFS d (<[dn := []]> (bfPending st)) (bfContexts st) (bfDomains st) (bfManifests st)
    (bfRecorded st + len (a :: batch))) dn' = if decide (dn' = dn) then [] else pendingOf st dn').
  { intros dn'. unfold pendingOf. cbn. case_decide; [subst; by rewrite lookup_insert_eq|by rewrite lookup_insert_ne]. }
  split_and!.
  - intros dn' p [[ctx Hc]|(x & Hx & <-)]; [left; exists ctx; apply Hadd; by left|].
    destruct (decide (dn' = dn)) as [->|Hne].
    + left. exists (aContext x). apply Hadd. right. rewrite Hp in Hx. by destruct x.
    + right. exists x. rewrite Hpend, decide_False by done. done.
  - by rewrite Hpend, decide_True.
  - intros dn'. rewrite Hpend. case_decide; auto.
Qed.

Lemma addPendings dn l pending dn' :
  default [] (foldl (addPending dn) pending l !! dn') = default [] (pending !! dn') ++ (if decide (dn' = dn) then l else []).
Proof.
  revert pending; induction l as [|a l IH]; intros pending; cbn; [case_decide; by rewrite app_nil_r|]. rewrite IH.
  unfold addPending. destruct (decide (dn' = dn)) as [->|]; [rewrite lookup_insert_eq; cbn; by rewrite <- app_assoc|].
  by rewrite lookup_insert_ne.
Qed.

Lemma packsOf_in seen ctx refs ref :
  ref ∈ refs -> PackHash ref <> "" -> PackHash ref ∈ seen \/ MkAssoc (PackHash ref) ctx ∈ packsOf seen ctx refs.
Proof.
  intros Hin Hne. revert seen. induction Hin as [ref refs|ref r refs Hin IH]; intros seen; cbn.
  - case_decide as Hd; [destruct Hd; [done|by left]|right; left].
  - case_decide as Hd; [by apply IH|]. destruct (IH Hne ({[PackHash r]} ∪ seen)) as [Hs|Hs]; [|right; by right].
    apply elem_of_union in Hs as [->%elem_of_singleton|Hs]; [right; left|by left].
Qed.

Lemma absorb_ok domain key payload st st' :
  absorb associate domain key payload st = (st', Ok tt) ->
  keeps st st' /\
  forall m ref, json_Unmarshal payload = Some m -> Format m = manifestFormatV2 -> domain = "" \/ mTenant m = domain ->
    ref ∈ Chunks m -> PackHash ref <> "" -> covered st' (mTenant m) (PackHash ref).
Proof.
  unfold absorb. destruct (json_Unmarshal payload) as [m|]; [|intros [= <-]; split; [by intros ??|done]].
  case_decide as Hf; [intros [= <-]; split; [by intros ??|congruence]|].
  case_decide as Hdm; [intros [= <-]; split; [by intros ??|intros ? ? [= <-]; naive_solver]|]. cbv zeta.
  set (st1 := BFS _ _ _ _ _ _).
  assert (Hp1 : forall dn, pendingOf st1 dn = pendingOf st dn ++ (if decide (dn = mTenant m) then packsOf ∅ (OwnerKey key) (Chunks m) else []))
    by (intros dn; unfold pendingOf, st1; cbn; apply addPendings).
  assert (H1 : keeps st st1).
  { intros dn p [Hc|(a & Ha & <-)]; [by left|right]. exists a. rewrite Hp1. split; [set_solver|done]. }
  assert (H2 : forall ref, ref ∈ Chunks m -> PackHash ref <> "" -> covered st1 (mTenant m) (PackHash ref)).
  { intros ref Hin Hne. right. destruct (packsOf_in ∅ (OwnerKey key) _ _ Hin Hne) as [?%elem_of_empty|Ha]; [done|].
    eexists. split; [rewrite Hp1, decide_True by done; apply elem_of_app; right; exact Ha|done]. }
  intros Hr. assert (H3 : keeps st1 st').
  { revert Hr. destruct (_ <=? _); [intros Hr; by apply flushAssoc_ok in Hr as [? _]|intros [= <-]; by intros ??]. }
  split; [intros dn p Hc; by apply H3, H1|]. intros m' ref [= <-] _ _ Hin Hne. by apply H3, H2.
Qed.

Lemma yieldRows_ok {R} (f : R -> backfillState -> backfillState * result unit) (Q : R -> backfillState -> Prop) i rows st st' :
  (forall r st st', f r st = (st', Ok tt) -> keeps st st' /\ Q r st') -> (forall r st st', keeps st st' -> Q r st -> Q r st') ->
  yieldRows ctxErr f i rows st = (st', Ok tt) -> keeps st st' /\ Forall (fun r => Q r st') rows.
Proof.
  intros Hf Hq. revert i st. induction rows as [|r rows IH]; intros i st; cbn; [intros [= <-]; by split; [intros ??|]|].
  destruct (ctxErr i); [done|]. destruct (f r st) as [st1 [[]|]] eqn:E; [|done]. intros Hr.
  destruct (Hf _ _ _ E) as [H1 H2]. destruct (IH _ _ Hr) as [H3 H4].
  split; [intros dn p Hc; by apply H3, H1|]. constructor; [by eapply Hq|done].
Qed.

Lemma flushEach_ok dns st st' :
  flushEach associate dns st = (st', Ok tt) ->
  keeps st st' /\ (forall dn, dn ∈ dns \/ pendingOf st dn = [] -> pendingOf st' dn = []).
Proof.
  revert st; induction dns as [|dn dns IH]; intros st; cbn; [intros [= <-]; split; [by intros ??|set_solver]|].
  destruct (flushAssoc associate dn st) as [st1 [[]|]] eqn:E; [|done]. intros Hr.
  destruct (flushAssoc_ok _ _ _ E) as (H1 & H2 & H3). destruct (IH _ Hr) as [H4 H5].
  split; [intros dn' p Hc; by apply H4, H1|]. intros dn' [Hd|Hd]; apply H5.
  - apply elem_of_cons in Hd as [->|Hd]; auto.
  - right. destruct (H3 dn') as [->| ->]; done.
Qed.

Lemma markEach_ok dns d d' r : markEach dns d = (d', r) -> forall dn p ctx, assoc_rel d' dn p ctx <-> assoc_rel d dn p ctx.
Proof.
  revert d; induction dns as [|dn dns IH]; intros d; cbn; [by intros [= <- _]|].
  destruct (aMarkBackfilled d dn) as [d1 [[]|]] eqn:E.
  - intros Hr dn' p ctx. rewrite (IH _ Hr). by apply (assoc_mark _ _ _ _ E).
  - intros [= <- _]. by apply (assoc_mark _ _ _ _ E).
Qed.
End Covers.

Section Result.
  Context {U : SnapshotStore} {SL : SnapshotStoreLaws U} {SR : SnapshotStoreReadable U} {D : DedupStore} {A : PackAssocStore D}
          {AL : AssocLaws D A} {J : ManifestCodec}.
  Context (walkPayloads : option (sstore -> list (SnapshotKey * string * SnapshotMetadata * bytes) * option err))
          (ctxErr : nat -> option err).
  Context (walkPayloads_ok : forall wp u rows, walkPayloads = Some wp -> wp u = (rows, None) ->
             forall k v b md, snaps u !! (k, v) = Some (b, md) -> (k, v, md, b) ∈ rows).

(** Every manifest in scope was absorbed. *)
Lemma walk_covers associate u domain st st' m ref :
  dAssociate = Some associate ->
  (forall k v b md m, snaps u !! (k, v) = Some (b, md) -> json_Unmarshal b = Some m ->
     Format m = manifestFormatV1 \/ Format m = manifestFormatV2 -> isChunkedManifest md = true) ->
  walkManifestPayloads walkPayloads ctxErr associate u domain st = (st', Ok tt) ->
  stored_manifest u m -> Format m = manifestFormatV2 -> domain = "" \/ mTenant m = domain ->
  ref ∈ Chunks m -> PackHash ref <> "" -> covered st' (mTenant m) (PackHash ref).
Proof.
  intros Ha Ht Hw (k & v & b & md & Hs & Hj & Hf) Hv Hd Hin Hne. specialize (Ht _ _ _ _ _ Hs Hj Hf).
  revert Hw. unfold walkManifestPayloads. destruct walkPayloads as [wp|] eqn:Hwp.
  - destruct (wp u) as [rows werr] eqn:Hu. destruct (yieldRows _ _ _ _ _) as [st1 [[]|]] eqn:Hy; [|by destruct werr].
    destruct werr; [done|]. cbn. intros [= <-].
    apply (yieldRows_ok ctxErr _ (fun r st => isChunkedManifest r.1.2 = true -> r.2 = b -> covered st (mTenant m) (PackHash ref))) in Hy
      as [_ Hall].
    + rewrite Forall_forall in Hall. apply (Hall (k, v, md, b)); [by eapply walkPayloads_ok|done|done].
    + intros [[[k1 v1] md1] b1] s1 s2. unfold yieldPayload. cbn.
      destruct (isChunkedManifest md1); [|intros [= <-]; by split; [intros ??|]].
      intros [H1 H2]%absorb_ok; [|done]. split; [done|]. intros _ ->. by eapply H2.
    + intros r s1 s2 Hk Hq H1 H2. by apply Hk, Hq.
  - destruct (sWalk u) as [rows werr] eqn:Hu. destruct (yieldRows _ _ _ _ _) as [st1 [[]|]] eqn:Hy; [|by destruct werr].
    destruct werr; [done|]. cbn. intros [= <-].
    apply (yieldRows_ok ctxErr _ (fun r st => r = (k, v, md) -> covered st (mTenant m) (PackHash ref))) in Hy as [_ Hall].
    + rewrite Forall_forall in Hall. apply (Hall (k, v, md)); [|done]. eapply swalk_sound; [exact Hu|]. by exists b.
    + intros [[k1 v1] md1] s1 s2. unfold yieldGet. destruct (isChunkedManifest md1) eqn:Hc.
      * destruct (sGet u k1 v1) as [[[b1|] ?]|] eqn:Hg; [|intros [= <-]; split; [by intros ??|]..].
        -- intros [H1 H2]%absorb_ok; [|done]. split; [done|]. intros [= -> -> ->]. erewrite sget_total in Hg by exact Hs.
           injection Hg as <- _. by eapply H2.
        -- intros [= -> -> ->]. erewrite sget_total in Hg by exact Hs. done.
        -- intros [= -> -> ->]. erewrite sget_total in Hg by exact Hs. done.
      * intros [= <-]. split; [by intros ??|]. intros [= -> -> ->]. congruence.
    + intros r s1 s2 Hk Hq H1. by apply Hk, Hq.
Qed.

(** A backfill that returned has covered its domain.  With the snapshot
    store up, every pack that a stored v2 manifest in scope references is in
    the association-derived live set of its domain, so a collector that then
    trusts the associations marks everything those manifests need. *)
Theorem backfill_covers c u d domain d' res m packs :
  (forall k v b md m, snaps u !! (k, v) = Some (b, md) -> json_Unmarshal b = Some m ->
     Format m = manifestFormatV1 \/ Format m = manifestFormatV2 -> isChunkedManifest md = true) ->
  BackfillAssociations walkPayloads ctxErr c u d domain = (d', res, None) ->
  stored_manifest u m -> Format m = manifestFormatV2 -> domain = "" \/ mTenant m = domain ->
  aWalkLivePacks d' (mTenant m) = Ok packs ->
  Forall (fun ref => PackHash ref <> "" -> PackHash ref ∈ packs) (Chunks m).
Proof.
  intros Ht Hb Hm Hv Hd Hw. unfold BackfillAssociations, packAssociator in Hb.
  destruct (index c); [done|]. destruct dAssociate as [f|] eqn:Hf; [|done]. unfold backfillWith in Hb.
  destruct (walkManifestPayloads _ _ _ _ _ _) as [st [[]|]] eqn:Hwalk; [|done].
  destruct (flushEach _ _ _) as [st2 [[]|]] eqn:Hfl; [|done].
  destruct (markEach _ _) as [d3 [[]|]] eqn:Hmk; [|done]. injection Hb as -> _.
  apply Forall_forall. intros ref Hin Hne. apply (assoc_walk _ _ _ Hw).
  pose proof (walk_covers f u domain _ st m ref Hf Ht Hwalk Hm Hv Hd Hin Hne) as Hcov.
  destruct (flushEach_ok f Hf _ _ _ Hfl) as [Hk Hp]. apply Hk in Hcov as [[ctx Hc]|(a & Ha & _)].
  - exists ctx. by apply (markEach_ok _ _ _ _ Hmk).
  - rewrite Hp in Ha; [by apply elem_of_nil in Ha|]. destruct (bfPending st !! mTenant m) as [l|] eqn:E.
    + left. apply list_elem_of_fmap. exists (mTenant m, l). split; [done|]. by apply elem_of_map_to_list.
    + right. unfold pendingOf. by rewrite E.
Qed.
End Result.
