(* ===== verification/Scenarios.v ===== *)
(** Concrete histories, evaluated.

    First the witnesses of the theorems on collection and histories, then the
    interactions where the code does not do what its comments say: each is a
    run of the model on small inputs, with the in-memory backends, whose every
    operation reports success until a read fails. *)

From S2P Require Import Prelude GoStrings Sha256 PackFormat BlobStore Manifest SnapStore DedupIndex PackAssoc Reclaim ChunkedRead ChunkedWrite PutSpec PutGet GC GCSpec MetaOps Lifecycle.

(** ** Running the model *)

(** Open a version and drain it through a 64-byte buffer. *)
Definition readBack {Sto : Storage} {U : SnapshotStore} {D : DedupStore} {J : ManifestCodec} {Clib : CodecLib}
  (fc : gmap string packFraming) (w : world) (key : SnapshotKey) (version : string) : option (result bytes) :=
  match Get fc w key version with
  | Ok (rd, _) => (readAllFrom 100 (wBlobs w) rd (fun _ => 64%nat) 0).2
  | Err e => Some (Err e)
  end.

Definition emptyWorld : @world mem_storage mem_snaps mem_dedup :=
  W (Mem ∅ 0 : @storage mem_storage) (MkSnaps ∅ : @sstore mem_snaps) (NewMemoryDedupStore : @dstore mem_dedup).

Definition bytes6 : bytes := [Byte.x61; Byte.x62; Byte.x63; Byte.x64; Byte.x65; Byte.x66].
Definition key_of (tenant owner : string) : SnapshotKey := MkKey tenant "" "" owner.
Definition md_of (k : SnapshotKey) : SnapshotMetadata := MkMeta k "" 0 0 "" "" ∅.
Definition cfg_of (idx : IndexKind) (codec : CompressionAlgo) (mode : PackCompressionMode) : ChunkedStore :=
  MkStore 16 "" idx (fun _ => codec) mode.
Definition sp6 : Splitter := fixed_splitter 6.

Definition version_of (r : result SnapshotMetadata) : string := match r with Ok md => Version md | Err _ => "" end.

(** One collector pass with no cancellation, at time [now]. *)
Definition collect (U : SnapshotStore) (g : ChunkedGC) (now : Z) (filter : string) (w : @world mem_storage U mem_dedup)
  : @world mem_storage U mem_dedup :=
  let st := (run (U := U) None (fun _ => None) (fun _ => None) (fun _ x => x) (fun _ => now) g
               (wDedup w) (wBlobs w) (wUps w) filter).1 in
  W (swBlobs st) (wUps w) (swDedup st).

(** ** Witnesses *)

#[local] Abbreviation ex_put := (Put (Sp := ex_sp) ex_cfg ex_w0 ex_key ex_md ex_in).
#[local] Abbreviation ex_w1 := (ex_put.1).
#[local] Abbreviation ex_md1 := (ok_or ex_md ex_put.2).

Definition ex_gc : ChunkedGC := MkGC true false 0.
#[local] Abbreviation ex_run w := (run (U := mem_snaps) None (fun _ => None) (fun _ => None) (fun _ x => x) (fun _ => 10) ex_gc
                                     (wDedup w) (wBlobs w) (wUps w) "").
#[local] Abbreviation ex_live w := (liveSet (U := mem_snaps) None (fun _ => None) ex_gc (wDedup w) (wUps w) "").

Lemma ex_live_ok : ex_live ex_w1 = ((ex_live ex_w1).1, Ok (ok_or ∅ (ex_live ex_w1).2)).
Proof. apply ok_pair. vm_compute. reflexivity. Qed.

Lemma all_keys_in (m : gmap string (bytes * Z)) (l : list string) :
  forallb (fun y => bool_decide (y.1 ∈ l)) (map_to_list m) = true -> forall id x, m !! id = Some x -> id ∈ l.
Proof.
  rewrite forallb_forall. intros H id x Hx. specialize (H (id, x)). rewrite bool_decide_eq_true in H.
  by apply H, list_elem_of_In, elem_of_map_to_list.
Qed.

Lemma ex_all_live : forallb (fun y => bool_decide (y.1 ∈ elements (ok_or ∅ (ex_live ex_w1).2)))
  (map_to_list (blobs (wBlobs ex_w1))) = true.
Proof. vm_compute. reflexivity. Qed.

(** Another client that keeps uploading while the pass runs. *)
Definition ex_other (i : nat) (w : @dstore mem_dedup * @storage mem_storage) : @dstore mem_dedup * @storage mem_storage :=
  (w.1, (PutIfAbsent w.2 "pack-new" []).1).


Lemma ex_gc_ready0 : gc_ready ex_w0.
Proof.
  split.
  - intros k v b md m Hx. change (memSnapsView (MkSnaps ∅) !! (k, v) = Some (b, md)) in Hx.
    rewrite memSnaps_empty in Hx. discriminate Hx.
  - intros dom h ref H. cbn in H. unfold inner in H. rewrite lookup_empty in H. cbn in H. by rewrite lookup_empty in H.
Qed.

Lemma ex_life0 : life_ok ex_w0.
Proof. split; [apply ex_world_ok|apply ex_gc_ready0]. Qed.

Lemma ex_domain : domainFor ex_cfg ex_key <> "".
Proof. vm_compute. discriminate. Qed.

Lemma ex_life1 : life_ok ex_w1.
Proof.
  apply (step_life (Sp := ex_sp) APut ex_w0 ex_w1); [|apply ex_life0].
  apply (step_put (Sp := ex_sp) ex_cfg ex_w0 ex_key ex_md ex_in ex_w1 (Ok ex_md1) ex_ready); [exact I|apply ex_domain|apply ex_put_ok].
Qed.

Lemma no_walker : forall (wp : @sstore mem_snaps -> list (SnapshotKey * string * SnapshotMetadata * bytes) * option err) u' rows,
  None = Some wp -> wp u' = (rows, None) ->
  forall k v b md, snaps u' !! (k, v) = Some (b, md) -> (k, v, md, b) ∈ rows.
Proof. intros wp u' rows H. discriminate H. Qed.

Lemma gc_preserves_world_witness :
  world_ok (W (swBlobs (ex_run ex_w1).1) (wUps ex_w1) (swDedup (ex_run ex_w1).1)) /\
  gc_ready (W (swBlobs (ex_run ex_w1).1) (wUps ex_w1) (swDedup (ex_run ex_w1).1)).
Proof.
  destruct ex_life1 as [Hw Hg].
  apply (gc_preserves_world (U := mem_snaps) None (fun _ => None) (fun _ => None) (fun _ => 10) no_walker ex_gc
           ex_w1 "" (ex_run ex_w1).1 (ex_run ex_w1).2 Hw Hg); [left; reflexivity|left; reflexivity|left; reflexivity|].
  apply surjective_pairing.
Defined.

Lemma gc_exact_witness :
  (ex_run ex_w1).2 = None.
Proof.
  exact (proj1 (gc_exact (U := mem_snaps) None (fun _ => None) 10 ex_gc (wDedup ex_w1) (wBlobs ex_w1) (wUps ex_w1) ""
                  _ _ ex_live_ok)).
Defined.

(** The store after that pass, and after a metadata update. *)
#[local] Abbreviation ex_w2 := (@W mem_storage mem_snaps mem_dedup (swBlobs (ex_run ex_w1).1) (wUps ex_w1) (swDedup (ex_run ex_w1).1)).
Definition ex_tags : gmap string string := {["note" := "kept"]}.
#[local] Abbreviation ex_meta := (UpdateLatestMeta (U := mem_snaps) (wUps ex_w2) ex_key ex_tags).
#[local] Abbreviation ex_w3 := (@W mem_storage mem_snaps mem_dedup (wBlobs ex_w2) ex_meta.1 (wDedup ex_w2)).

Lemma UpdateLatestMeta_spec_witness :
  exists b md, is_latest (U := mem_snaps) (wUps ex_w2) ex_key b md /\ Tags (ok_or ex_md ex_meta.2) !! "note" = Some "kept".
Proof.
  assert (Hm : ex_meta = (ex_meta.1, Ok (ok_or ex_md ex_meta.2))) by (apply ok_pair; vm_compute; reflexivity).
  destruct (UpdateLatestMeta_spec (U := mem_snaps) (wUps ex_w2) ex_key ex_tags _ _ Hm) as (b & md & Hl & _ & _ & Ht).
  exists b, md. split; [exact Hl|]. rewrite (Ht "note"). vm_compute. reflexivity.
Defined.

Definition ex_locs : list ChunkLocation := [MkLoc (sha256_hex []) (MkPackRef (sha256_hex [Byte.x61]) 3 5)].
#[local] Abbreviation ex_reg := (RegisterManifest (U := mem_snaps) ex_cfg (MkSnaps ∅ : @sstore mem_snaps) ex_key ex_md ex_locs).

Lemma register_then_chunks_witness : ManifestChunks (U := mem_snaps) ex_reg.1 ex_key = Ok ex_locs.
Proof.
  apply (register_then_chunks (U := mem_snaps) ex_cfg (MkSnaps ∅ : @sstore mem_snaps) ex_key ex_md ex_locs ex_reg.1 (ok_or ex_md ex_reg.2)).
  - constructor; [|constructor]. split; apply sha256_is_digest.
  - exact I.
  - apply ok_pair. vm_compute. reflexivity.
  - intros v [x Hx]. change (memSnapsView (MkSnaps ∅) !! (ex_key, v) = Some x) in Hx.
    rewrite memSnaps_empty in Hx. discriminate Hx.
Defined.

Lemma ex_history : store_steps (Sp := ex_sp) [AGC; AMeta] ex_w1 ex_w3.
Proof.
  apply (steps_cons (Sp := ex_sp) AGC [AMeta] ex_w1 ex_w2 ex_w3).
  - apply (step_gc (Sp := ex_sp) None (fun _ => None) (fun _ => None) (fun _ => 10) ex_gc ex_w1 "" (ex_run ex_w1).1 (ex_run ex_w1).2
             no_walker); [left; reflexivity|reflexivity|reflexivity|apply surjective_pairing].
  - apply (steps_cons (Sp := ex_sp) AMeta [] ex_w2 ex_w3 ex_w3); [|constructor].
    apply (step_meta (Sp := ex_sp) ex_w2 ex_key ex_tags ex_meta.1 ex_meta.2); [reflexivity|apply surjective_pairing].
Qed.

Lemma ex_no_delete k v : ADelete k v ∉ [AGC; AMeta].
Proof. rewrite !not_elem_of_cons. split_and!; [discriminate|discriminate|apply not_elem_of_nil]. Qed.



(** ** Two cuts of one pack *)

(** The pack of one six-byte chunk, then a batch whose two three-byte chunks
    fill a pack of the same bytes and so of the same name. *)
Definition cuts_cfg : ChunkedStore := cfg_of PriorManifestIndex CompressZstd PackCompressPerChunk.
Definition cuts_first : world * result SnapshotMetadata :=
  Put (Sp := sp6) cuts_cfg emptyWorld (key_of "t" "one") (md_of (key_of "t" "one")) [(bytes6, RdEOF)].
Definition cuts_batch : world * result (list SnapshotMetadata) :=
  PutBatch (Sp := sp6) cuts_cfg cuts_first.1
    [MkItem (key_of "t" "two") (md_of (key_of "t" "two")) (slice bytes6 0 3);
     MkItem (key_of "t" "three") (md_of (key_of "t" "three")) (slice bytes6 3 6)].

(** Per-chunk packs do not depend on their name alone.  A put of six bytes
    succeeds and a batch of its two halves succeeds, sharing the pack the put
    stored; the pack's index knows only the put's cut, so neither half can be
    read back. *)
Theorem shared_pack_unreadable :
  is_ok cuts_first.2 = true /\
  exists m1 m2, cuts_batch.2 = Ok [m1; m2] /\
    readBack ∅ cuts_batch.1 (key_of "t" "two") (Version m1) = Some (Err ErrCorrupt) /\
    readBack ∅ cuts_batch.1 (key_of "t" "three") (Version m2) = Some (Err ErrCorrupt).
Proof.
  split; [vm_compute; reflexivity|].
  exists (default ex_md (ok_or [] cuts_batch.2 !! 0%nat)), (default ex_md (ok_or [] cuts_batch.2 !! 1%nat)).
  split_and!; vm_compute; reflexivity.
Qed.

(** ** A scoped pass and a longer domain name *)

Definition scoped_cfg : ChunkedStore := cfg_of PriorManifestIndex CompressNone PackCompressWholePack.
Definition scoped_put : world * result SnapshotMetadata :=
  Put (Sp := sp6) scoped_cfg emptyWorld (key_of "acme-eu" "o") (md_of (key_of "acme-eu" "o")) [(bytes6, RdEOF)].

(** A pass scoped to one domain reaches into another.  The prefix of domain
    "acme" also lists the packs of "acme-eu", whose manifests the scoped live
    set ignores: the pass deletes the other tenant's live pack. *)
Theorem scoped_gc_deletes_other_domain :
  readBack ∅ scoped_put.1 (key_of "acme-eu" "o") (version_of scoped_put.2) = Some (Ok bytes6) /\
  readBack ∅ (collect mem_snaps (MkGC false false 0) 10 "acme" scoped_put.1) (key_of "acme-eu" "o") (version_of scoped_put.2)
    = Some (Err ErrMissingBlob).
Proof. split; vm_compute; reflexivity. Qed.

(** ** A manifest that cannot be read for a moment *)

(** The snapshot store of [mem_snaps] whose [Get] is timing out. *)
Definition flaky_snaps : SnapshotStore := {|
  sstore := @sstore mem_snaps;
  sPut := @sPut mem_snaps;
  sGet := fun _ _ _ => Err (EOther "timeout");
  sGetLatest := @sGetLatest mem_snaps;
  sGetLatestMetadata := @sGetLatestMetadata mem_snaps;
  sList := @sList mem_snaps;
  sDelete := @sDelete mem_snaps;
  sWalk := @sWalk mem_snaps;
|}.

Definition during (w : @world mem_storage mem_snaps mem_dedup) : @world mem_storage flaky_snaps mem_dedup :=
  @W mem_storage flaky_snaps mem_dedup (wBlobs w) (wUps w) (wDedup w).
Definition afterwards (w : @world mem_storage flaky_snaps mem_dedup) : @world mem_storage mem_snaps mem_dedup :=
  @W mem_storage mem_snaps mem_dedup (wBlobs w) (wUps w) (wDedup w).

(** A transient manifest read error loses data.  A pass that cannot read a
    manifest skips it with a warning and sweeps its packs as garbage: when the
    snapshot store answers again, the snapshot's pack is gone.  The pass
    reports no error. *)
Theorem unreadable_manifest_loses_packs :
  readBack ∅ scoped_put.1 (key_of "acme-eu" "o") (version_of scoped_put.2) = Some (Ok bytes6) /\
  readBack ∅ (afterwards (collect flaky_snaps (MkGC false false 0) 10 "" (during scoped_put.1)))
    (key_of "acme-eu" "o") (version_of scoped_put.2) = Some (Err ErrMissingBlob) /\
  (run (U := flaky_snaps) None (fun _ => None) (fun _ => None) (fun _ x => x) (fun _ => 10) (MkGC false false 0)
     (wDedup (during scoped_put.1)) (wBlobs (during scoped_put.1)) (wUps (during scoped_put.1)) "").2 = None.
Proof. split_and!; vm_compute; reflexivity. Qed.

(** ** The empty domain under a global index *)

Definition nodom_cfg : ChunkedStore := cfg_of GlobalIndex CompressNone PackCompressWholePack.
Definition nodom_put (w : @world mem_storage mem_snaps mem_dedup) : world * result SnapshotMetadata :=
  Put (Sp := sp6) nodom_cfg w (key_of "" "o") (md_of (key_of "" "o"))
    [(bytes6 ++ bytes6 ++ [Byte.x67], RdEOF)].
Definition nodom_gone : @world mem_storage mem_snaps mem_dedup :=
  let w := (nodom_put emptyWorld).1 in
  collect mem_snaps (MkGC true false 0) 10 ""
    (W (wBlobs w) (sDelete (wUps w) (key_of "" "o") (version_of (nodom_put emptyWorld).2)).1 (wDedup w)).
Definition nodom_again : world * result SnapshotMetadata := nodom_put nodom_gone.

(** Purging the empty domain misses.  Packs of the empty domain are named
    after "_", and the collector purges the index under the name it parsed, so
    the index keeps entries for the packs it deletes: the same content put
    again is deduplicated against them and cannot be read. *)
Theorem empty_domain_index_dangles :
  is_ok nodom_again.2 = true /\
  readBack ∅ nodom_again.1 (key_of "" "o") (version_of nodom_again.2) = Some (Err ErrMissingBlob).
Proof. split; vm_compute; reflexivity. Qed.

(** ** Content put again after its context was reclaimed *)

Definition again_cfg : ChunkedStore := cfg_of GlobalIndex CompressNone PackCompressWholePack.
Definition again_put (w : @world mem_storage mem_snaps mem_dedup) : world * result SnapshotMetadata :=
  Put (Sp := sp6) again_cfg w (key_of "t" "o") (md_of (key_of "t" "o")) [(bytes6, RdEOF)].
Definition again_reclaimed : @world mem_storage mem_snaps mem_dedup :=
  let w := (again_put emptyWorld).1 in
  let '(d, s, _, _) := ObliterateContext (A := mem_assoc_store) true (fun x => x) 0 (fun _ => None)
                         (wDedup w) (wBlobs w) "t" "o" in
  W s (wUps w) d.

(** Reclaimed content stays refused.  After its context was obliterated, a
    put of the same bytes packs them afresh under the same content address,
    whose obliterated mark is final: the put fails, and so does every retry. *)
Theorem obliterated_content_refused :
  is_ok (again_put emptyWorld).2 = true /\
  (again_put again_reclaimed).2 = Err ErrPackObliterating /\
  (again_put (again_put again_reclaimed).1).2 = Err ErrPackObliterating.
Proof. split_and!; vm_compute; reflexivity. Qed.

(** ** A cached framing that outlives its pack *)

Definition raw_cfg : ChunkedStore := cfg_of PriorManifestIndex CompressNone PackCompressWholePack.
Definition zst_cfg : ChunkedStore := cfg_of PriorManifestIndex CompressZstd PackCompressWholePack.
Definition cached_data : bytes := replicate 6 Byte.x61.
Definition cached_put (c : ChunkedStore) (w : @world mem_storage mem_snaps mem_dedup) : world * result SnapshotMetadata :=
  Put (Sp := sp6) c w (key_of "t" "o") (md_of (key_of "t" "o")) [(cached_data, RdEOF)].

(** The framing cache after reading the first version. *)
Definition cached_framings : gmap string packFraming :=
  match Get ∅ (cached_put raw_cfg emptyWorld).1 (key_of "t" "o") (version_of (cached_put raw_cfg emptyWorld).2) with
  | Ok (rd, _) => framingByPack (readAllFrom 100 (wBlobs (cached_put raw_cfg emptyWorld).1) rd (fun _ => 64%nat) 0).1
  | Err _ => ∅
  end.
Definition cached_again : world * result SnapshotMetadata :=
  let w := (cached_put raw_cfg emptyWorld).1 in
  cached_put zst_cfg
    (collect mem_snaps (MkGC false false 0) 10 ""
       (W (wBlobs w) (sDelete (wUps w) (key_of "t" "o") (version_of (cached_put raw_cfg emptyWorld).2)).1 (wDedup w))).

(** A pack's framing can change.  A pack is stored raw, read (its framing is
    cached), collected, and stored again compressed under the same content
    address: a reader with the cached framing fails with a corruption error, a
    reader without it reads the data. *)
Theorem stale_framing_breaks_reads :
  is_ok cached_again.2 = true /\
  readBack ∅ cached_again.1 (key_of "t" "o") (version_of cached_again.2) = Some (Ok cached_data) /\
  readBack cached_framings cached_again.1 (key_of "t" "o") (version_of cached_again.2) = Some (Err ErrCorrupt).
Proof. split_and!; vm_compute; reflexivity. Qed.
