(* ===== verification/CompactRun.v ===== *)
(** A compaction evaluated: the witness of [Compact_preserves_data] on a store
    with a 20-byte and a 5-byte pack, merged into one, and the interaction of
    compaction with association-based collection. *)

From stdpp Require Import sorting.
From S2P Require Import Prelude GoStrings Sha256 PackFormat BlobStore Manifest SnapStore DedupIndex PackAssoc Reclaim ChunkedRead ChunkedWrite PutSpec PutGet GC GCSpec MetaOps Lifecycle Compact CompactSpec Backfill Scenarios.

(** ** Deciding the conditions on a concrete store *)

(** All sequences of distinct elements of [xs], up to length [n]. *)
Fixpoint arrangements {A} `{!EqDecision A} (n : nat) (xs : list A) : list (list A) :=
  match n with
  | O => [[]]
  | S n => [] :: mjoin ((fun x => cons x <$> arrangements n (filter (fun y => y <> x) xs)) <$> xs)
  end.

Lemma arrangements_complete {A} `{!EqDecision A} n (xs sub : list A) :
  NoDup sub -> Forall (fun x => x ∈ xs) sub -> (length sub <= n)%nat -> sub ∈ arrangements n xs.
Proof.
  revert xs sub; induction n as [|n IH]; intros xs sub Hn Hall Hlen.
  - destruct sub; [by left|cbn in Hlen; lia].
  - destruct sub as [|x sub]; [by left|]. cbn in Hlen. right.
    apply NoDup_cons in Hn as [Hx Hn]. apply Forall_cons in Hall as [Hin Hall].
    apply list_elem_of_join. exists (cons x <$> arrangements n (filter (fun y => y <> x) xs)). split.
    + apply list_elem_of_fmap. exists sub. split; [done|]. apply IH; [done| |lia].
      apply Forall_forall. intros y Hy. apply list_elem_of_filter. rewrite Forall_forall in Hall.
      split; [congruence|by apply Hall].
    + apply list_elem_of_fmap. by exists x.
Qed.

Section Decide.
  Context {Clib : CodecLib} {Sto : Storage} {L : StorageLaws Sto} {U : SnapshotStore} {SL : SnapshotStoreLaws U}
          {D : DedupStore} {J : ManifestCodec}.

(** The chunk a reference reads, when its pack is there. *)
Definition chunk_at (s : storage) (dom : string) (ref : chunkRef) : option bytes :=
  match blobs s !! packBlobID dom (PackHash ref) with
  | Some (stored, _) => match decompressPackBlob stored with
                        | Ok co => Some (slice co (Offset ref) (Offset ref + Size ref))
                        | Err _ => None
                        end
  | None => None
  end.

Definition chunks_within (w : world) (dom : string) (xs : list bytes) : bool :=
  forallb (fun e => match json_Unmarshal e.2.1 with
                    | Some m => forallb (fun ref => match chunk_at (wBlobs w) dom ref with
                                                    | Some x => bool_decide (x ∈ xs)
                                                    | None => true
                                                    end) (Chunks m)
                    | None => true
                    end) (map_to_list (snaps (wUps w))).

Lemma chunks_within_ok (w : world) dom xs x : chunks_within w dom xs = true -> chunk_of w dom x -> x ∈ xs.
Proof.
  unfold chunks_within. rewrite forallb_forall. intros H (ph & h & off & sz & (m & (k & v & b & md & Hs & Hj & _) & _ & _ & Hin) & Hb).
  specialize (H ((k, v), (b, md))). cbn in H. rewrite Hj, forallb_forall in H.
  assert (Hm : In ((k, v), (b, md)) (map_to_list (snaps (wUps w)))) by (by apply list_elem_of_In, elem_of_map_to_list).
  specialize (H Hm (MkRef h ph off sz)). destruct Hb as (stored & ts & co & Hst & Hd & (_ & _ & _ & -> & _) & _).
  unfold chunk_at in H. cbn in H, Hst. rewrite Hst, Hd, bool_decide_eq_true in H. by apply H, list_elem_of_In.
Qed.

Definition alignedb (stored : bytes) (off size : Z) : bool :=
  match detectPackFraming stored with
  | Err _ => true
  | Ok f => negb (bool_decide (algo f = packAlgoChunked)) ||
      match parsePackChunkIndex (slice stored packChunkedHeaderLen (bodyBase f)) with
      | Err _ => true
      | Ok es => existsb (fun e => uncOffset e =? off) es && existsb (fun e => uncOffset e + uncSize e =? off + size) es
      end
  end.

Lemma existsb_elem {A} (f : A -> bool) l : existsb f l = true -> exists e, e ∈ l /\ f e = true.
Proof. intros (e & H1 & H2)%existsb_exists. exists e. split; [by apply list_elem_of_In|done]. Qed.

Lemma alignedb_ok stored off size : alignedb stored off size = true -> pack_aligned stored off size.
Proof.
  unfold alignedb. intros H f es Hf Ha Hp. rewrite Hf in H. rewrite bool_decide_true in H by done. cbn in H. rewrite Hp in H.
  apply andb_true_iff in H as [H1 H2]. apply existsb_elem in H1 as (e1 & ? & ?), H2 as (e2 & ? & ?).
  split; [exists e1|exists e2]; (split; [done|]); lia.
Qed.

Definition pack_ofb (stored : bytes) (sub : list bytes) : bool :=
  match decompressPackBlob stored with Ok co => bool_decide (co = concat sub) | Err _ => false end &&
  forallb (fun j => match sub !! j with Some x => alignedb stored (offsetIn sub j) (len x) | None => true end) (seq 0 (length sub)).

Lemma pack_ofb_ok stored sub : pack_ofb stored sub = true -> pack_of stored sub.
Proof.
  unfold pack_ofb. rewrite andb_true_iff, forallb_forall. intros [Hd Ha]. split.
  { destruct (decompressPackBlob stored); [|done]. apply bool_decide_eq_true in Hd. by subst. }
  intros j x Hj. apply alignedb_ok. specialize (Ha j). rewrite Hj in Ha. apply Ha. apply in_seq.
  apply lookup_lt_Some in Hj. lia.
Qed.

(** Checks [compact_ready] by enumeration over the live chunks [xs]. *)
Definition readyb (c : ChunkedStore) (w : world) (dom : string) (xs : list bytes) (m : Z) : bool :=
  let subs := (fun s => (sha256_hex (concat s), s)) <$> arrangements (length xs) xs in
  chunks_within w dom xs &&
  forallb (fun a => forallb (fun b => negb (bool_decide (a.1 = b.1)) ||
    bool_decide (concat a.2 = concat b.2 /\ (len <$> a.2) = (len <$> b.2))) subs) subs &&
  forallb (fun a => bool_decide (concat a.2 = []) ||
    match blobs (wBlobs w) !! packBlobID dom a.1 with Some (stored, _) => pack_ofb stored a.2 | None => true end) subs &&
  forallb (fun x => negb (bool_decide (x = [])) && (len x <=? m)) xs &&
  (0 <=? m) && ((Z.max 0 (packTargetBytes c) + m) * packChunkEntryLen <? 2 ^ 32).

Lemma readyb_ok c w dom xs m : readyb c w dom xs m = true -> compact_ready c w dom.
Proof.
  unfold readyb. cbv zeta. rewrite !andb_true_iff. intros (((((Hin & Hn) & Hp) & Hx) & Hm) & Hf).
  pose proof (chunks_within_ok w dom xs) as Hw.
  assert (Hsub : forall s, chunks_of w dom s ->
    In (sha256_hex (concat s), s) ((fun s => (sha256_hex (concat s), s)) <$> arrangements (length xs) xs)).
  { intros s [Hnd Hall]. apply list_elem_of_In, list_elem_of_fmap. exists s. split; [done|].
    assert (Hall' : Forall (fun x => x ∈ xs) s) by (eapply Forall_impl; [exact Hall|]; intros x; by apply Hw).
    apply arrangements_complete; [done|done|]. apply submseteq_length, NoDup_submseteq; [done|]. by apply Forall_forall. }
  rewrite forallb_forall in Hn, Hp, Hx. split.
  - intros s1 s2 H1 H2 E. specialize (Hn _ (Hsub s1 H1)). rewrite forallb_forall in Hn. specialize (Hn _ (Hsub s2 H2)).
    cbn in Hn. rewrite bool_decide_true in Hn by done. cbn in Hn. apply bool_decide_eq_true in Hn as [? ?]. auto.
  - intros sub stored ts Hs Hne Hb. specialize (Hp _ (Hsub sub Hs)). cbn in Hp. rewrite bool_decide_false in Hp by done.
    cbn in Hp. rewrite Hb in Hp. by apply pack_ofb_ok.
  - intros x Hxc%Hw; [|done]. apply list_elem_of_In, Hx in Hxc. apply andb_true_iff in Hxc as [Hxc _].
    apply negb_true_iff, bool_decide_eq_false in Hxc. done.
  - intros _. exists m. split_and!; [|lia|lia]. intros x Hxc%Hw; [|done]. apply list_elem_of_In, Hx in Hxc. lia.
Qed.
End Decide.

Lemma pair3 {A B C} (x : A * B * C) : x = (x.1.1, x.1.2, x.2).
Proof. by destruct x as [[] ?]. Qed.

(** ** The run *)

#[local] Abbreviation ex_put := (Put (Sp := ex_sp) ex_cfg ex_w0 ex_key ex_md ex_in).
#[local] Abbreviation ex_w1 := (ex_put.1).

(** The same store with a larger pack target, and a pass over small packs. *)
Definition big_cfg : ChunkedStore := MkStore 64 "" GlobalIndex (fun _ => CompressZstd) PackCompressPerChunk.
Definition small_packs (defrag : bool) : CompactConfig := MkCompact (fun _ _ => false) 100 0 0 defrag.
Definition ex_chunks : list bytes := [slice ex_data 0 10; slice ex_data 10 20; slice ex_data 20 25].
#[local] Abbreviation ex_compact := (Compact (U := mem_snaps) (fun _ => None) (fun _ => None) 10 big_cfg (small_packs true) ex_w1 "t").

Lemma ex_compact_ready : compact_ready big_cfg ex_w1 "t".
Proof. apply (readyb_ok big_cfg ex_w1 "t" ex_chunks 10). vm_compute. reflexivity. Qed.

Lemma ex_json : json_safe "t".
Proof. exact I. Qed.


(** ** Backfill, compaction and an association-based pass *)

#[local] Abbreviation ex_backfill w := (BackfillAssociations (U := mem_snaps) None (fun _ => None) ex_cfg (wUps w) (wDedup w) "t").

Lemma ex_tagged : forall k v b md m, snaps (wUps ex_w1) !! (k, v) = Some (b, md) -> json_Unmarshal b = Some m ->
  Format m = manifestFormatV1 \/ Format m = manifestFormatV2 -> isChunkedManifest md = true.
Proof. intros k v b md m Hs Hj Hf. destruct ex_life1 as [_ Hg]. exact (proj1 (gr_tagged _ Hg k v b md m Hs Hj Hf)). Qed.

(** The manifest the put stored. *)
Definition ex_manifest : chunkManifest :=
  match sGetLatest (wUps ex_w1) ex_key with
  | Ok (Ok b, _) => default (MkManifest "" 0 "" []) (json_Unmarshal b)
  | _ => MkManifest "" 0 "" []
  end.

Definition entry_of {V} (m : gmap (SnapshotKey * string) V) (key : SnapshotKey) : option (string * V) :=
  head (omap (fun e => if decide (e.1.1 = key) then Some (e.1.2, e.2) else None) (map_to_list m)).

Lemma entry_of_ok {V} (m : gmap (SnapshotKey * string) V) key v x : entry_of m key = Some (v, x) -> m !! (key, v) = Some x.
Proof.
  unfold entry_of. intros H. apply head_Some_elem_of in H. apply list_elem_of_omap in H as ([[k' v'] x'] & Hin & H). cbn in H.
  case_decide; [|done]. injection H as <- <-. subst. by apply elem_of_map_to_list.
Qed.

Lemma ex_stored : stored_manifest (wUps ex_w1) ex_manifest.
Proof.
  exists ex_key.
  assert (H : exists v b md, entry_of (snaps (wUps ex_w1)) ex_key = Some (v, (b, md)) /\ json_Unmarshal b = Some ex_manifest).
  { do 3 eexists. split; [vm_compute; reflexivity|vm_compute; reflexivity]. }
  destruct H as (v & b & md & He & Hj). exists v, b, md. apply entry_of_ok in He. split; [exact He|]. split; [exact Hj|].
  right. vm_compute. reflexivity.
Qed.

Lemma backfill_covers_witness :
  Forall (fun ref => PackHash ref <> "" -> PackHash ref ∈ WalkLivePacks (ex_backfill ex_w1).1.1 "t") (Chunks ex_manifest).
Proof.
  apply (backfill_covers (U := mem_snaps) None (fun _ => None) no_walker ex_cfg (wUps ex_w1) (wDedup ex_w1) "t"
           (ex_backfill ex_w1).1.1 (ex_backfill ex_w1).1.2 ex_manifest
           (WalkLivePacks (ex_backfill ex_w1).1.1 "t") ex_tagged).
  - assert (He : (ex_backfill ex_w1).2 = None) by (vm_compute; reflexivity).
    rewrite <- He. apply pair3.
  - apply ex_stored.
  - vm_compute. reflexivity.
  - right. vm_compute. reflexivity.
  - reflexivity.
Defined.

(** Backfill the domain, compact it, then collect it from its associations. *)
Definition assoc_backfilled : @world mem_storage mem_snaps mem_dedup := W (wBlobs ex_w1) (wUps ex_w1) (ex_backfill ex_w1).1.1.
Definition assoc_compacted : @world mem_storage mem_snaps mem_dedup :=
  (Compact (U := mem_snaps) (fun _ => None) (fun _ => None) 10 big_cfg (small_packs false) assoc_backfilled "t").1.1.
Definition assoc_collected : @world mem_storage mem_snaps mem_dedup := collect mem_snaps (MkGC true true 0) 20 "t" assoc_compacted.

Definition latestVersion (w : @world mem_storage mem_snaps mem_dedup) : string :=
  match sGetLatest (wUps w) ex_key with Ok (_, md) => Version md | Err _ => "" end.

(** Compaction does not associate.  In a backfilled domain, compaction moves
    a snapshot's chunks into a pack that no context is associated with; the
    snapshot still reads, but the next association-based pass takes the new
    pack for garbage and the snapshot is lost. *)
Theorem compaction_unassociated :
  readBack ∅ assoc_compacted ex_key (latestVersion assoc_compacted) = Some (Ok ex_data) /\
  readBack ∅ assoc_collected ex_key (latestVersion assoc_collected) = Some (Err ErrMissingBlob).
Proof. split; vm_compute; reflexivity. Qed.
