(* ===== verification/Wal.v ===== *)
(** The local data write-ahead log (mlfs/internal/wal/wal.go).

    A log is a directory of segment files [wal-<start, 20 digits>.log]; each
    segment is a sequence of frames [u32 len | u32 crc32 | payload] with a
    45-byte payload.  [Append] writes one frame and fsyncs it, rolling to a new
    segment at a size threshold; [Open] scans the segments, truncates a torn
    tail of the last one and recovers the highest sequence number; [Replay]
    hands every record to a callback; [Checkpoint] deletes segments whose
    records are all committed.

    A file is its durable bytes followed by bytes the kernel has but has not
    synced.  What the operating system answers during a call is its [walIO]
    argument, so every failure the code handles is an input of the model. *)

From stdpp Require Import sorting.
From S2P Require Import Prelude GoStrings Decimal.
From Stdlib Require Import Ascii.

(** ** hash/crc32, IEEE polynomial *)

Definition crcBit (c : Z) : Z :=
  if Z.testbit c 0 then Z.lxor (Z.shiftr c 1) 0xEDB88320 else Z.shiftr c 1.

Definition crcByte (c : Z) (b : byte) : Z :=
  Nat.iter 8 crcBit (Z.lxor c (byte_Z b)).

(** [crc32.ChecksumIEEE]. *)
Definition ChecksumIEEE (b : bytes) : Z := Z.lxor (foldl crcByte 0xFFFFFFFF b) 0xFFFFFFFF.

(** ** Records *)

Definition OpWrite : Z := 1.
Definition OpTruncate : Z := 2.

Record Record_ := MkRec {
  Seq : Z; Op : Z; rIno : Z; rIndx : Z; rOff : Z; SliceID : Z; rSize : Z; SliceOff : Z; SliceLen : Z }.

#[global] Instance Record_eq_dec : EqDecision Record_.
Proof. solve_decision. Defined.

Definition recordPayloadLen : Z := 8 + 1 + 8 + 4 + 4 + 8 + 4 + 4 + 4.

Definition marshal (r : Record_) : bytes :=
  be_append 8 (Seq r) ++ [Z_byte (Op r)] ++ be_append 8 (rIno r) ++ be_append 4 (rIndx r) ++
  be_append 4 (rOff r) ++ be_append 8 (SliceID r) ++ be_append 4 (rSize r) ++
  be_append 4 (SliceOff r) ++ be_append 4 (SliceLen r).

Definition unmarshalRecord (b : bytes) : option Record_ :=
  if negb (len b =? recordPayloadLen) then None
  else Some {| Seq := be_uint (slice b 0 8); Op := be_uint (slice b 8 9); rIno := be_uint (slice b 9 17);
               rIndx := be_uint (slice b 17 21); rOff := be_uint (slice b 21 25);
               SliceID := be_uint (slice b 25 33); rSize := be_uint (slice b 33 37);
               SliceOff := be_uint (slice b 37 41); SliceLen := be_uint (slice b 41 45) |}.

Definition DefaultSegmentBytes : Z := Z.shiftl 64 20.

(** ** Files, segments, the log *)

(** A file: what is on disk, and what is only in the page cache. *)
Record file := MkFile { durable : bytes; cached : bytes }.

Definition content (f : file) : bytes := durable f ++ cached f.

(** [w.dir], by base name. *)
Abbreviation wdir := (gmap string file).

Record segment := MkSeg { path : string; startSeq : Z; maxSeq : Z }.

(** [wCur] is the segment file open for appending. *)
Record WAL := MkWAL {
  segmentSize : Z; wSeq : Z; segs : list segment; wCur : option string; curBytes : Z }.

(** What the operating system answers during one call: which files it can
    open, create, stat, truncate, remove; whether the directory syncs; how many
    bytes of a frame it writes before failing ([None]: all); whether the file
    syncs. *)
Record walIO := MkIO {
  openOk : string -> bool; createOk : bool; dirSyncOk : bool; statOk : bool; truncOk : bool;
  removeOk : string -> bool; written : option nat; syncOk : bool }.

Definition ioUp : walIO :=
  {| openOk _ := true; createOk := true; dirSyncOk := true; statOk := true; truncOk := true;
     removeOk _ := true; written := None; syncOk := true |}.

Definition EWal : err := EOther "wal".

(** ** Segment names *)

(** [fmt.Sprintf("wal-%020d.log", startSeq)]; a uint64 has at most 20 digits. *)
Definition segName (start : Z) : string := "wal-" +:+ digits 20 start +:+ ".log".

Fixpoint spanDigits (l : list ascii) : list ascii * list ascii :=
  match l with
  | [] => ([], [])
  | c :: l' => if isDigit c then let '(a, b) := spanDigits l' in (c :: a, b) else ([], l)
  end.

(** The ASCII blanks the verb skips before a number. *)
Fixpoint skipBlanks (l : list ascii) : list ascii :=
  match l with
  | c :: l' => if bool_decide (N_of_ascii c ∈ [9; 11; 12; 13; 32]%N) then skipBlanks l' else l
  | [] => []
  end.

(** [fmt.Sscanf(name, "wal-%d.log", &start)] into a uint64; input after the
    pattern is ignored. *)
Definition sscanfSeg (name : string) : option Z :=
  if negb (String.prefix "wal-" name) then None
  else
    let rest := skipBlanks (drop 4 (chars name)) in
    let '(ds, tl) := spanDigits rest in
    match ds with
    | [] => None
    | _ => if 2 ^ 64 <=? decimal ds then None
           else if bool_decide (take 4 tl = chars ".log") then Some (decimal ds) else None
    end.

(** [filepath.Glob(w.dir + "/wal-*.log")]. *)
Definition globSeg (name : string) : bool :=
  String.prefix "wal-" name && bool_decide (8 <= strlen name) &&
  bool_decide (str_slice name (strlen name - 4) (strlen name) = ".log").

(** ** Scanning a segment *)

(** The loop of [scanSegment] and [replaySegment]: records up to the first
    short header, wrong length, short payload, bad checksum or malformed
    payload.  Every record is 53 bytes, so [length b] rounds are enough. *)
Fixpoint scanRecords (fuel : nat) (b : bytes) : list Record_ :=
  match fuel with
  | O => []
  | S fuel =>
      if len b <? 8 then []
      else
        let plen := be_uint (slice b 0 4) in
        let crc := be_uint (slice b 4 8) in
        if negb (plen =? recordPayloadLen) then []
        else if len b - 8 <? plen then []
        else
          let payload := slice b 8 (8 + plen) in
          if negb (ChecksumIEEE payload =? crc) then []
          else match unmarshalRecord payload with
               | None => []
               | Some rec => rec :: scanRecords fuel (slice b (8 + plen) (len b))
               end
  end.

Definition records (b : bytes) : list Record_ := scanRecords (length b) b.

Definition maxSeqOf (l : list Record_) : Z := foldl (fun m r => if m <? Seq r then Seq r else m) 0 l.

(** [scanSegment]: the count and highest sequence number, and the directory
    with the torn tail cut off when [truncTorn]. *)
Definition scanSegment (io : walIO) (d : wdir) (p : string) (truncTorn : bool) : wdir * result (Z * Z) :=
  match d !! p with
  | None => (d, Err EWal)
  | Some f =>
      if negb (openOk io p) then (d, Err EWal)
      else
        let rs := records (content f) in
        let validEnd := len rs * (8 + recordPayloadLen) in
        if truncTorn && statOk io && negb (len (content f) =? validEnd) then
          if truncOk io then (<[p := MkFile (slice (content f) 0 validEnd) []]> d, Ok (len rs, maxSeqOf rs))
          else (d, Err EWal)
        else (d, Ok (len rs, maxSeqOf rs))
  end.

(** [rollLocked]: the old segment is synced and closed, its errors ignored. *)
Definition syncFile (d : wdir) (p : option string) : wdir :=
  match p with
  | Some p => match d !! p with Some f => <[p := MkFile (content f) []]> d | None => d end
  | None => d
  end.

Definition rollLocked (io : walIO) (w : WAL) (d : wdir) (start : Z) : WAL * wdir * result unit :=
  let d := if syncOk io then syncFile d (wCur w) else d in
  let p := segName start in
  if negb (createOk io) then (w, d, Err EWal)
  else
    let d := match d !! p with Some _ => d | None => <[p := MkFile [] []]> d end in
    if negb (dirSyncOk io) then (w, d, Err EWal)
    else (MkWAL (segmentSize w) (wSeq w) (segs w ++ [MkSeg p start 0]) (Some p) 0, d, Ok tt).

(** ** Open *)

Definition loadSegs (names : list string) : list segment :=
  omap (fun p => (fun start => MkSeg p start 0) <$> sscanfSeg p) names.

(** The scan loop of [load]: the last segment has its torn tail cut. *)
Fixpoint scanAll (io : walIO) (d : wdir) (todo done_ : list segment) (seq : Z) : wdir * result (list segment * Z) :=
  match todo with
  | [] => (d, Ok (done_, seq))
  | s :: todo' =>
      match scanSegment io d (path s) (bool_decide (todo' = [])) with
      | (d, Err e) => (d, Err e)
      | (d, Ok (_, mx)) =>
          scanAll io d todo' (done_ ++ [MkSeg (path s) (startSeq s) mx]) (if seq <? mx then mx else seq)
      end
  end.

(** [Open] ([load] on a fresh [WAL]). *)
Definition Open (io : walIO) (size : Z) (d : wdir) : wdir * result WAL :=
  let names := sortStrings (filter (fun p => globSeg p = true) (fst <$> map_to_list d)) in
  match scanAll io d (loadSegs names) [] 0 with
  | (d, Err e) => (d, Err e)
  | (d, Ok (ss, seq)) =>
      match last ss with
      | None =>
          let '(w, d, r) := rollLocked io (MkWAL size seq ss None 0) d 1 in
          (d, (fun _ => w) <$> r)
      | Some s =>
          match d !! path s with
          | Some f => if openOk io (path s) then (d, Ok (MkWAL size seq ss (Some (path s)) (len (content f)))) else (d, Err EWal)
          | None => (d, Err EWal)
          end
      end
  end.

(** ** Append *)

Definition frame (payload : bytes) : bytes :=
  be_append 4 (len payload) ++ be_append 4 (ChecksumIEEE payload) ++ payload.

Definition withSeq (r : Record_) (n : Z) : Record_ :=
  MkRec n (Op r) (rIno r) (rIndx r) (rOff r) (SliceID r) (rSize r) (SliceOff r) (SliceLen r).

(** [s.maxSeq = w.seq] on the last segment. *)
Definition bumpLast (ss : list segment) (n : Z) : list segment :=
  match last ss with
  | Some s => take (length ss - 1) ss ++ [MkSeg (path s) (startSeq s) n]
  | None => ss
  end.

(** The body after the roll: write the frame, sync it. *)
Definition appendFrame (io : walIO) (w : WAL) (d : wdir) (r : Record_) : WAL * wdir * result Z :=
  let seq := (wSeq w + 1) mod 2 ^ 64 in
  let w := MkWAL (segmentSize w) seq (segs w) (wCur w) (curBytes w) in
  let fr := frame (marshal (withSeq r seq)) in
  match wCur w with
  | None => (w, d, Err EWal)
  | Some p =>
      match d !! p with
      | None => (w, d, Err EWal)
      | Some f =>
          match written io with
          | Some k => (w, <[p := MkFile (durable f) (cached f ++ take k fr)]> d, Err EWal)
          | None =>
              if negb (syncOk io) then (w, <[p := MkFile (durable f) (cached f ++ fr)]> d, Err EWal)
              else (MkWAL (segmentSize w) seq (bumpLast (segs w) seq) (Some p) (curBytes w + len fr),
                    <[p := MkFile (durable f ++ cached f ++ fr) []]> d, Ok seq)
          end
      end
  end.

Definition Append (io : walIO) (w : WAL) (d : wdir) (r : Record_) : WAL * wdir * result Z :=
  if match wCur w with Some _ => segmentSize w <=? curBytes w | None => false end then
    match rollLocked io w d ((wSeq w + 1) mod 2 ^ 64) with
    | (w, d, Err e) => (w, d, Err e)
    | (w, d, Ok _) => appendFrame io w d r
    end
  else appendFrame io w d r.

(** ** Replay, Checkpoint, Close *)

Section Replay.
  Context {St : Type} (fn : Record_ -> St -> St * option err).

Fixpoint replayRecords (rs : list Record_) (st : St) : St * option err :=
  match rs with
  | [] => (st, None)
  | r :: rs => match fn r st with (st, None) => replayRecords rs st | (st, Some e) => (st, Some e) end
  end.

Definition replaySegment (io : walIO) (d : wdir) (p : string) (st : St) : St * option err :=
  match d !! p with
  | Some f => if openOk io p then replayRecords (records (content f)) st else (st, Some EWal)
  | None => (st, Some EWal)
  end.

Fixpoint replaySegs (io : walIO) (d : wdir) (ss : list segment) (st : St) : St * option err :=
  match ss with
  | [] => (st, None)
  | s :: ss => match replaySegment io d (path s) st with
               | (st, None) => replaySegs io d ss st
               | (st, Some e) => (st, Some e)
               end
  end.

Definition Replay (io : walIO) (w : WAL) (d : wdir) (st : St) : St * option err :=
  replaySegs io d (segs w) st.
End Replay.

(** The loop of [Checkpoint]; on a failed removal [w.segs] keeps its value. *)
Fixpoint checkpointSegs (io : walIO) (upTo : Z) (d : wdir) (ss keep : list segment) : wdir * result (list segment) :=
  match ss with
  | [] => (d, Ok keep)
  | s :: ss' =>
      if negb (bool_decide (ss' = [])) && negb (maxSeq s =? 0) && (maxSeq s <=? upTo) then
        match d !! path s with
        | None => checkpointSegs io upTo d ss' keep
        | Some _ => if removeOk io (path s) then checkpointSegs io upTo (delete (path s) d) ss' keep else (d, Err EWal)
        end
      else checkpointSegs io upTo d ss' (keep ++ [s])
  end.

Definition Checkpoint (io : walIO) (w : WAL) (d : wdir) (upTo : Z) : WAL * wdir * result unit :=
  match checkpointSegs io upTo d (segs w) [] with
  | (d, Ok keep) => (MkWAL (segmentSize w) (wSeq w) keep (wCur w) (curBytes w), d, Ok tt)
  | (d, Err e) => (w, d, Err e)
  end.

Definition LastSeq (w : WAL) : Z := wSeq w.

(** [Close]: a failed sync leaves the segment open. *)
Definition WClose (io : walIO) (w : WAL) (d : wdir) : WAL * wdir * result unit :=
  match wCur w with
  | None => (w, d, Ok tt)
  | Some _ =>
      if negb (syncOk io) then (w, d, Err EWal)
      else (MkWAL (segmentSize w) (wSeq w) (segs w) None (curBytes w), syncFile d (wCur w), Ok tt)
  end.
