(* ===== verification/WalSpec.v ===== *)
(** What the write-ahead log guarantees.

    [wal_refines]: seen through [Replay], the segmented log on disk is a plain
    list of records.  Appends extend it, checkpoints drop a prefix of committed
    records, and a crash at any moment, torn frames included, loses nothing
    that was acknowledged. *)

From stdpp Require Import sorting.
From S2P Require Import Prelude GoStrings Decimal Wal.
From Stdlib Require Import Ascii.

(** ** Record and frame codec *)

(** The field widths of [Record_]. *)
Definition rec_ok (r : Record_) : Prop :=
  0 <= Seq r < 2 ^ 64 /\ 0 <= Op r < 2 ^ 8 /\ 0 <= rIno r < 2 ^ 64 /\ 0 <= rIndx r < 2 ^ 32 /\
  0 <= rOff r < 2 ^ 32 /\ 0 <= SliceID r < 2 ^ 64 /\ 0 <= rSize r < 2 ^ 32 /\
  0 <= SliceOff r < 2 ^ 32 /\ 0 <= SliceLen r < 2 ^ 32.

Lemma marshal_len r : len (marshal r) = recordPayloadLen.
Proof. unfold marshal. by autorewrite with store. Qed.

Lemma be_uint_byte z : 0 <= z < 2 ^ 8 -> be_uint [Z_byte z] = z.
Proof. intros H. cbn [be_uint]. change (2 ^ (8 * len [])) with 1. rewrite byte_Z_of, Z.mod_small by lia. lia. Qed.

(** The 45-byte payload of a record decodes to the record. *)
Lemma unmarshal_marshal r : rec_ok r -> unmarshalRecord (marshal r) = Some r.
Proof.
  intros (? & ? & ? & ? & ? & ? & ? & ? & ?). unfold unmarshalRecord. rewrite marshal_len. cbn [negb Z.eqb].
  change (recordPayloadLen =? recordPayloadLen) with true. cbn [negb]. f_equal.
  destruct r as [s o i x f sl sz so se]. cbn [Seq Op rIno rIndx rOff SliceID rSize SliceOff SliceLen] in *. unfold marshal.
  cbn [Seq Op rIno rIndx rOff SliceID rSize SliceOff SliceLen].
  set (a1 := be_append 8 s). set (a2 := [Z_byte o]). set (a3 := be_append 8 i). set (a4 := be_append 4 x).
  set (a5 := be_append 4 f). set (a6 := be_append 8 sl). set (a7 := be_append 4 sz). set (a8 := be_append 4 so).
  set (a9 := be_append 4 se).
  assert (len a1 = 8 /\ len a2 = 1 /\ len a3 = 8 /\ len a4 = 4 /\ len a5 = 4 /\ len a6 = 8 /\ len a7 = 4 /\ len a8 = 4 /\ len a9 = 4)
    as (? & ? & ? & ? & ? & ? & ? & ? & ?).
  { subst a1 a2 a3 a4 a5 a6 a7 a8 a9. by autorewrite with store. }
  rewrite (slice_mid _ [] a1 (a2 ++ a3 ++ a4 ++ a5 ++ a6 ++ a7 ++ a8 ++ a9)) by (done || len_solve).
  rewrite (slice_mid _ a1 a2 (a3 ++ a4 ++ a5 ++ a6 ++ a7 ++ a8 ++ a9)) by (done || len_solve).
  rewrite (slice_mid _ (a1 ++ a2) a3 (a4 ++ a5 ++ a6 ++ a7 ++ a8 ++ a9)) by (by rewrite <- ?app_assoc || len_solve).
  rewrite (slice_mid _ (a1 ++ a2 ++ a3) a4 (a5 ++ a6 ++ a7 ++ a8 ++ a9)) by (by rewrite <- ?app_assoc || len_solve).
  rewrite (slice_mid _ (a1 ++ a2 ++ a3 ++ a4) a5 (a6 ++ a7 ++ a8 ++ a9)) by (by rewrite <- ?app_assoc || len_solve).
  rewrite (slice_mid _ (a1 ++ a2 ++ a3 ++ a4 ++ a5) a6 (a7 ++ a8 ++ a9)) by (by rewrite <- ?app_assoc || len_solve).
  rewrite (slice_mid _ (a1 ++ a2 ++ a3 ++ a4 ++ a5 ++ a6) a7 (a8 ++ a9)) by (by rewrite <- ?app_assoc || len_solve).
  rewrite (slice_mid _ (a1 ++ a2 ++ a3 ++ a4 ++ a5 ++ a6 ++ a7) a8 a9) by (by rewrite <- ?app_assoc || len_solve).
  rewrite (slice_mid _ (a1 ++ a2 ++ a3 ++ a4 ++ a5 ++ a6 ++ a7 ++ a8) a9 []) by (by rewrite <- ?app_assoc, ?app_nil_r || len_solve).
  subst a1 a2 a3 a4 a5 a6 a7 a8 a9. by rewrite !be_uint_append_small, be_uint_byte.
Qed.

Lemma lxor_bound a b n : 0 <= n -> 0 <= a < 2 ^ n -> 0 <= b < 2 ^ n -> 0 <= Z.lxor a b < 2 ^ n.
Proof.
  intros Hn Ha Hb. assert (0 <= Z.lxor a b) by (apply Z.lxor_nonneg; lia). split; [done|].
  destruct (Z.eq_dec (Z.lxor a b) 0) as [->|Hne]; [lia|]. apply Z.log2_lt_pow2; [lia|].
  assert (Hl : forall x, 0 <= x < 2 ^ n -> x = 0 \/ Z.log2 x < n).
  { intros x Hx. destruct (Z.eq_dec x 0); [by left|right]. apply Z.log2_lt_pow2; lia. }
  pose proof (Z.log2_lxor a b ltac:(lia) ltac:(lia)) as Hx.
  assert (n <> 0) by (intros ->; change (2 ^ 0) with 1 in *; assert (a = 0) as -> by lia; assert (b = 0) as -> by lia; done).
  destruct (Hl a Ha) as [->|?], (Hl b Hb) as [->|?]; rewrite ?Z.lxor_0_l, ?Z.lxor_0_r in *; cbn [Z.log2] in *; lia.
Qed.

Lemma crcBit_bound c : 0 <= c < 2 ^ 32 -> 0 <= crcBit c < 2 ^ 32.
Proof.
  intros H. unfold crcBit.
  assert (0 <= Z.shiftr c 1 < 2 ^ 32).
  { rewrite Z.shiftr_div_pow2 by lia. split; [apply Z.div_pos; lia|]. apply Z.div_lt_upper_bound; lia. }
  destruct (Z.testbit c 0); [|done]. apply lxor_bound; lia.
Qed.

Lemma crcByte_bound c b : 0 <= c < 2 ^ 32 -> 0 <= crcByte c b < 2 ^ 32.
Proof.
  intros H. unfold crcByte. pose proof (byte_Z_range b).
  assert (Hx : 0 <= Z.lxor c (byte_Z b) < 2 ^ 32) by (apply lxor_bound; lia).
  revert Hx. generalize (Z.lxor c (byte_Z b)). intros x Hx.
  generalize 8%nat. intros n. induction n as [|n IH]; [done|]. cbn [Nat.iter]. by apply crcBit_bound.
Qed.

Lemma ChecksumIEEE_bound b : 0 <= ChecksumIEEE b < 2 ^ 32.
Proof.
  unfold ChecksumIEEE. apply lxor_bound; [lia| |lia].
  assert (H : 0 <= 0xFFFFFFFF < 2 ^ 32) by lia. revert H. generalize 0xFFFFFFFF.
  induction b as [|x b IH]; intros c Hc; [done|]. cbn [foldl]. by apply IH, crcByte_bound.
Qed.

(** The check value of the CRC-32 catalogue: the checksum of "123456789". *)
Lemma ChecksumIEEE_check :
  ChecksumIEEE ((fun z => Z_byte (48 + z)) <$> seqZ 1 9) = 0xCBF43926.
Proof. vm_compute. reflexivity. Qed.

(** ** Valid frames *)

Definition frameLen : Z := 8 + recordPayloadLen.

(** The first frame of [b], if it is valid. *)
Definition decode1 (b : bytes) : option Record_ :=
  if len b <? frameLen then None
  else if negb (be_uint (slice b 0 4) =? recordPayloadLen) then None
  else if negb (ChecksumIEEE (slice b 8 frameLen) =? be_uint (slice b 4 8)) then None
  else unmarshalRecord (slice b 8 frameLen).

Lemma scanRecords_step fuel b :
  scanRecords (S fuel) b =
  match decode1 b with
  | Some r => r :: scanRecords fuel (slice b frameLen (len b))
  | None => []
  end.
Proof.
  cbn [scanRecords]. unfold decode1, frameLen.
  destruct (Z.ltb_spec (len b) 8); [destruct (Z.ltb_spec (len b) (8 + recordPayloadLen)); [done|unfold recordPayloadLen in *; lia]|].
  destruct (Z.eqb_spec (be_uint (slice b 0 4)) recordPayloadLen) as [->|]; cbn [negb]; [|by destruct (_ <? _)].
  destruct (Z.ltb_spec (len b - 8) recordPayloadLen), (Z.ltb_spec (len b) (8 + recordPayloadLen)); try lia; [done|].
  by destruct (negb _).
Qed.

Lemma decode1_len b r : decode1 b = Some r -> frameLen <= len b.
Proof. unfold decode1. destruct (Z.ltb_spec (len b) frameLen); [done|]. intros _. lia. Qed.

Lemma decode1_app b c : frameLen <= len b -> decode1 (b ++ c) = decode1 b.
Proof.
  intros H. unfold decode1. rewrite len_app. pose proof (len_nonneg c).
  destruct (Z.ltb_spec (len b + len c) frameLen), (Z.ltb_spec (len b) frameLen); try lia.
  unfold frameLen, recordPayloadLen in *. by rewrite !slice_app_l by lia.
Qed.

Lemma scanRecords_nil fuel : scanRecords fuel [] = [].
Proof. by destruct fuel. Qed.

Lemma scanRecords_fuel fuel fuel' b :
  (length b <= fuel)%nat -> (length b <= fuel')%nat -> scanRecords fuel b = scanRecords fuel' b.
Proof.
  revert fuel' b; induction fuel as [|fuel IH]; intros fuel' b H H'.
  - destruct b; [|cbn in H; lia]. by rewrite !scanRecords_nil.
  - destruct fuel' as [|fuel']; [destruct b; [by rewrite !scanRecords_nil|cbn in H'; lia]|].
    rewrite !scanRecords_step. destruct (decode1 b) eqn:E; [|done]. f_equal.
    apply decode1_len in E. apply IH; unfold slice; rewrite length_take, length_drop;
      unfold frameLen, recordPayloadLen, len in *; lia.
Qed.

Lemma records_unfold b :
  records b = match decode1 b with Some r => r :: records (slice b frameLen (len b)) | None => [] end.
Proof.
  unfold records. rewrite (scanRecords_fuel _ (S (length b))) by lia. rewrite scanRecords_step.
  destruct (decode1 b) eqn:E; [|done]. f_equal. apply decode1_len in E.
  apply scanRecords_fuel; unfold slice; rewrite length_take, length_drop; unfold frameLen, recordPayloadLen, len in *; lia.
Qed.

(** [b] is exactly the frames of [rs]. *)
Inductive exact : bytes -> list Record_ -> Prop :=
| exact_nil : exact [] []
| exact_cons f r b rs : len f = frameLen -> decode1 f = Some r -> exact b rs -> exact (f ++ b) (r :: rs).

Lemma exact_len b rs : exact b rs -> len b = len rs * frameLen.
Proof. induction 1; [done|]. rewrite len_app, len_cons. lia. Qed.

Lemma exact_app b rs c ss : exact b rs -> exact c ss -> exact (b ++ c) (rs ++ ss).
Proof. induction 1 as [|f r b rs]; intros; [done|]. rewrite <- app_assoc. cbn. by constructor; auto. Qed.

Lemma exact_records b rs t : exact b rs -> records (b ++ t) = rs ++ records t.
Proof.
  induction 1 as [|f r b rs Hl Hd H IH]; [done|]. rewrite records_unfold, <- app_assoc, decode1_app, Hd by lia.
  cbn. f_equal. by rewrite (slice_suffix f (b ++ t)).
Qed.

Lemma exact_records_eq b rs : exact b rs -> records b = rs.
Proof. intros H. rewrite <- (app_nil_r b), (exact_records _ _ _ H). unfold records. cbn. apply app_nil_r. Qed.

(** Every byte string is valid frames and a tail without one. *)
Lemma records_split b : exact (slice b 0 (len (records b) * frameLen)) (records b) /\ len (records b) * frameLen <= len b.
Proof.
  induction b as [b IH] using (induction_ltof1 _ (@length byte)). unfold ltof in IH.
  rewrite records_unfold. destruct (decode1 b) as [r|] eqn:E; [|split; [rewrite slice_nil; constructor|apply len_nonneg]].
  pose proof (decode1_len _ _ E) as Hl. assert (0 < frameLen) by (unfold frameLen, recordPayloadLen; lia).
  destruct (IH (slice b frameLen (len b))) as [H1 H2].
  { unfold slice. rewrite length_take, length_drop. unfold len in *. lia. }
  rewrite len_cons. set (n := len (records (slice b frameLen (len b)))) in *. pose proof (len_nonneg (records (slice b frameLen (len b)))).
  rewrite slice_len in H2 by lia. split; [|lia].
  rewrite <- (slice_split b 0 frameLen) by lia. constructor; [rewrite slice_len; lia| |].
  - rewrite <- (slice_all b), <- (slice_split b 0 frameLen), decode1_app in E by (rewrite ?slice_len; lia). done.
  - rewrite slice_slice in H1 by lia. replace (frameLen + 0) with frameLen in H1 by lia.
    by replace (frameLen + n * frameLen) with ((1 + n) * frameLen) in H1 by lia.
Qed.

Lemma frame_len r : len (frame (marshal r)) = frameLen.
Proof. unfold frame. autorewrite with store. rewrite marshal_len. done. Qed.

Lemma frame_exact r : rec_ok r -> exact (frame (marshal r)) [r].
Proof.
  intros H. rewrite <- (app_nil_r (frame _)). constructor; [apply frame_len| |constructor].
  unfold decode1. rewrite frame_len. cbn [Z.ltb]. rewrite Z.ltb_irrefl. unfold frame.
  rewrite (slice_mid _ [] (be_append 4 (len (marshal r))) (be_append 4 (ChecksumIEEE (marshal r)) ++ marshal r) 0 4) by (done || len_solve).
  rewrite (slice_mid _ (be_append 4 (len (marshal r))) (be_append 4 (ChecksumIEEE (marshal r))) (marshal r) 4 8) by (done || len_solve).
  rewrite (slice_mid _ (be_append 4 (len (marshal r)) ++ be_append 4 (ChecksumIEEE (marshal r))) (marshal r) [] 8 frameLen)
    by first [by rewrite app_nil_r, <- app_assoc|by rewrite marshal_len|by len_solve].
  rewrite !be_uint_append_small, !marshal_len by (rewrite ?marshal_len; first [apply ChecksumIEEE_bound|unfold recordPayloadLen; lia]).
  rewrite !Z.eqb_refl. cbn [negb]. by apply unmarshal_marshal.
Qed.

(** A cut frame holds no record. *)
Lemma torn_records r k : records (take k (frame (marshal r))) = [] \/ take k (frame (marshal r)) = frame (marshal r).
Proof.
  destruct (decide (k < length (frame (marshal r)))%nat).
  - left. rewrite records_unfold. unfold decode1. rewrite <- (frame_len r).
    destruct (Z.ltb_spec (len (take k (frame (marshal r)))) (len (frame (marshal r)))); [done|].
    unfold len in *. rewrite length_take in *. lia.
  - right. apply take_ge. lia.
Qed.

(** ** Segment names *)

Lemma spanDigits_app l c k :
  Forall (fun c => isDigit c = true) l -> isDigit c = false -> spanDigits (l ++ c :: k) = (l, c :: k).
Proof.
  induction 1 as [|d l Hd H IH]; intros Hc; cbn; [by rewrite Hc|]. by rewrite Hd, IH.
Qed.

Lemma skipBlanks_digit c l : isDigit c = true -> skipBlanks (c :: l) = c :: l.
Proof.
  unfold isDigit. intros H. cbn. case_bool_decide as Hb; [|done].
  exfalso. apply andb_prop in H as [H1%Z.leb_le H2%Z.leb_le].
  set_unfold in Hb. destruct Hb as [E|[E|[E|[E|[E|[]]]]]]; rewrite E in *; cbn in *; lia.
Qed.

Lemma chars_segName n : chars (segName n) = chars "wal-" ++ chars (digits 20 n) ++ chars ".log".
Proof. unfold segName. by rewrite !chars_app. Qed.

Lemma sscanfSeg_name n : 0 <= n < 2 ^ 64 -> sscanfSeg (segName n) = Some n.
Proof.
  intros H. unfold sscanfSeg. change (String.prefix "wal-" (segName n)) with true. cbn [negb].
  rewrite chars_segName. change (drop 4 (chars "wal-" ++ ?x)) with x.
  pose proof (digits_chars 20 n) as Hd. pose proof (decimal_digits 20 n ltac:(lia)) as He.
  destruct (chars (digits 20 n)) as [|c l] eqn:E.
  { apply (f_equal length) in E. rewrite chars_length, digits_length in E. done. }
  cbn [app]. rewrite skipBlanks_digit by (by inversion Hd).
  change (c :: l ++ chars ".log") with ((c :: l) ++ "."%char :: chars "log"). rewrite spanDigits_app by done.
  rewrite He. destruct (Z.leb_spec (2 ^ 64) n); [lia|]. done.
Qed.

Lemma globSeg_name n : globSeg (segName n) = true.
Proof.
  unfold globSeg. change (String.prefix "wal-" (segName n)) with true. cbn [andb].
  assert (Hl : strlen (segName n) = 28).
  { unfold strlen. rewrite chars_segName, !len_app. unfold len. rewrite (chars_length (digits _ _)), digits_length. done. }
  rewrite Hl. apply andb_true_intro. split; [done|]. apply bool_decide_eq_true. unfold str_slice.
  rewrite chars_segName, app_assoc, slice_app_r; rewrite len_app; unfold len; rewrite (chars_length (digits _ _)), digits_length; done.
Qed.

Lemma segName_ltb a b : 0 <= a -> a < b -> b < 2 ^ 64 -> str_ltb (segName a) (segName b) = true.
Proof.
  intros. unfold segName. rewrite str_ltb_app_same. apply str_ltb_app; [by rewrite !digits_length|]. apply digits_ltb; lia.
Qed.

(** ** Histories *)

(** What a crash leaves of the directory: synced bytes stay, unsynced ones may
    survive in part and be garbled, as long as the scan finds in them no record
    but the ones written.  Creating and removing files take effect at once. *)
Definition crash (d d' : wdir) : Prop :=
  forall p, match d !! p with
            | None => d' !! p = None
            | Some f => exists t, d' !! p = Some (MkFile (durable f ++ t) []) /\
                                  records t `prefix_of` records (cached f) /\ (cached f = [] -> t = [])
            end.

(** A process with the log open, or none. *)
Inductive wstate := Up (w : WAL) (d : wdir) | Down (d : wdir).

Inductive wlabel := LAppend (r : Record_) | LCheckpoint (upTo : Z) | LCrash (pending : list Record_) | LOpen.

(** Whether the segment open for appending holds a record. *)
Definition curNonEmpty (w : WAL) (d : wdir) : Prop :=
  exists p f, wCur w = Some p /\ d !! p = Some f /\ records (content f) <> [].

(** One call, or a crash.  A call that fails is followed by a restart. *)
Inductive wstep (size : Z) : wstate -> wlabel -> wstate -> Prop :=
| step_open io d d' w :
    statOk io = true -> Open io size d = (d', Ok w) -> wstep size (Down d) LOpen (Up w d')
| step_open_err io d d' e :
    statOk io = true -> Open io size d = (d', Err e) -> wstep size (Down d) LOpen (Down d')
| step_append io w d r w' d' n :
    rec_ok (withSeq r 0) -> wSeq w + 1 < 2 ^ 64 -> Append io w d r = (w', d', Ok n) ->
    wstep size (Up w d) (LAppend (withSeq r n)) (Up w' d')
| step_append_err io w d r w' d' e d2 :
    rec_ok (withSeq r 0) -> wSeq w + 1 < 2 ^ 64 -> Append io w d r = (w', d', Err e) -> crash d' d2 ->
    wstep size (Up w d) (LCrash [withSeq r (wSeq w + 1)]) (Down d2)
| step_checkpoint io w d n w' d' :
    curNonEmpty w d -> Checkpoint io w d n = (w', d', Ok tt) -> wstep size (Up w d) (LCheckpoint n) (Up w' d')
| step_checkpoint_err io w d n w' d' e d2 :
    curNonEmpty w d -> Checkpoint io w d n = (w', d', Err e) -> crash d' d2 -> wstep size (Up w d) (LCheckpoint n) (Down d2)
| step_close io w d w' d' r :
    WClose io w d = (w', d', r) -> wstep size (Up w d) LOpen (Down d')
| step_crash w d d' :
    crash d d' -> wstep size (Up w d) (LCrash []) (Down d').

Inductive wsteps (size : Z) : wstate -> list wlabel -> wstate -> Prop :=
| wsteps_nil s : wsteps size s [] s
| wsteps_snoc s ls s1 l s2 : wsteps size s ls s1 -> wstep size s1 l s2 -> wsteps size s (ls ++ [l]) s2.

(** The abstract log: a list of records in append order. *)
Inductive lstep : list Record_ -> wlabel -> list Record_ -> Prop :=
| l_append log r : Forall (fun x => Seq x < Seq r) log -> lstep log (LAppend r) (log ++ [r])
| l_checkpoint a b n : Forall (fun x => Seq x <= n) a -> lstep (a ++ b) (LCheckpoint n) b
| l_crash log pending p : p `prefix_of` pending -> lstep log (LCrash pending) (log ++ p)
| l_open log : lstep log LOpen log.

Inductive lsteps : list Record_ -> list wlabel -> list Record_ -> Prop :=
| lsteps_nil log : lsteps log [] log
| lsteps_snoc a ls b l c : lsteps a ls b -> lstep b l c -> lsteps a (ls ++ [l]) c.

(** ** The relation between the two *)

(** A segment as the records in it. *)
Abbreviation gseg := (Z * list Record_)%type.

Definition logOf (L : list gseg) : list Record_ := mjoin (snd <$> L).

Fixpoint above (n : Z) (rs : list Record_) : Prop :=
  match rs with [] => True | r :: rs => n < Seq r /\ above (Seq r) rs end.

Definition seg_wf (x : gseg) : Prop := 1 <= x.1 < 2 ^ 64 /\ above (x.1 - 1) x.2.

Definition seg_lt (x y : gseg) : Prop := x.2 <> [] /\ x.1 < y.1 /\ Forall (fun r => Seq r < y.1) x.2.

(** The segments in order, the last one possibly empty. *)
Definition layout (L : list gseg) : Prop :=
  Forall seg_wf L /\ StronglySorted seg_lt L /\ maxSeqOf (logOf L) < 2 ^ 64 /\
  forall L0 st rs, L = L0 ++ [(st, rs)] -> st <= maxSeqOf (logOf L) + 1.

Definition seg_file (d : wdir) (x : gseg) : Prop :=
  exists b, d !! segName x.1 = Some (MkFile b []) /\ exact b x.2.

(** As [seg_file], with a torn tail. *)
Definition seg_torn (d : wdir) (x : gseg) : Prop :=
  exists b t, d !! segName x.1 = Some (MkFile (b ++ t) []) /\ exact b x.2 /\ records t = [].

Definition only_segs (d : wdir) (L : list gseg) : Prop :=
  forall p, is_Some (d !! p) -> globSeg p = true -> p ∈ segName ∘ fst <$> L.

Definition down_ok (d : wdir) (L : list gseg) : Prop :=
  layout L /\ only_segs d L /\ forall L0 x, L = L0 ++ [x] -> Forall (seg_file d) L0 /\ seg_torn d x.

Definition segOf (x : gseg) : segment := MkSeg (segName x.1) x.1 (maxSeqOf x.2).

Definition up_ok (w : WAL) (d : wdir) (L : list gseg) : Prop :=
  layout L /\ only_segs d L /\ Forall (seg_file d) L /\ segs w = segOf <$> L /\ wSeq w = maxSeqOf (logOf L) /\
  0 < segmentSize w /\
  exists L0 st rs f, L = L0 ++ [(st, rs)] /\ wCur w = Some (segName st) /\ d !! segName st = Some f /\
    curBytes w = len (content f).

Definition simulates (size : Z) (s : wstate) (log : list Record_) : Prop :=
  exists L, logOf L = log /\ match s with Up w d => up_ok w d L | Down d => down_ok d L end.

(** ** Sequence numbers *)

#[local] Arguments maxSeqOf : simpl never.

Lemma maxSeqOf_foldr l : maxSeqOf l = foldr (fun r m => Z.max (Seq r) m) 0 l.
Proof.
  unfold maxSeqOf. assert (H : forall m, 0 <= m ->
    foldl (fun m r => if m <? Seq r then Seq r else m) m l = Z.max m (foldr (fun r m => Z.max (Seq r) m) 0 l)).
  { induction l as [|r l IH]; intros m Hm; cbn; [lia|].
    destruct (Z.ltb_spec m (Seq r)); rewrite IH by lia; lia. }
  rewrite H by lia. clear H. assert (0 <= foldr (fun r m => Z.max (Seq r) m) 0 l) by (induction l; cbn; lia). lia.
Qed.

Lemma maxSeqOf_nonneg l : 0 <= maxSeqOf l.
Proof. rewrite maxSeqOf_foldr. induction l; cbn; lia. Qed.

Lemma maxSeqOf_app a b : maxSeqOf (a ++ b) = Z.max (maxSeqOf a) (maxSeqOf b).
Proof.
  pose proof (maxSeqOf_nonneg b). rewrite !maxSeqOf_foldr in *. induction a as [|r a IH]; cbn; [lia|]. rewrite IH. lia.
Qed.

Lemma maxSeqOf_in l r : r ∈ l -> Seq r <= maxSeqOf l.
Proof.
  rewrite maxSeqOf_foldr. induction l as [|x l IH]; [set_solver|]. intros [->|H]%elem_of_cons; cbn; [lia|].
  specialize (IH H). lia.
Qed.

Lemma maxSeqOf_le l n : 0 <= n -> Forall (fun r => Seq r <= n) l -> maxSeqOf l <= n.
Proof. intros Hn H. rewrite maxSeqOf_foldr. induction H; cbn; lia. Qed.

Lemma maxSeqOf_single r : 0 <= Seq r -> maxSeqOf [r] = Seq r.
Proof. intros. rewrite maxSeqOf_foldr. cbn. lia. Qed.

Lemma maxSeqOf_snoc rs r : maxSeqOf rs <= Seq r -> maxSeqOf (rs ++ [r]) = Seq r.
Proof. intros. pose proof (maxSeqOf_nonneg rs). rewrite maxSeqOf_app, maxSeqOf_single by lia. lia. Qed.

Lemma above_forall n rs : above n rs -> Forall (fun r => n < Seq r) rs.
Proof.
  revert n; induction rs as [|r rs IH]; intros n; [constructor|]. intros [H1 H2]. constructor; [done|].
  eapply Forall_impl; [by apply IH|]. cbn. lia.
Qed.

Lemma above_snoc n rs r : above n rs -> n < Seq r -> Forall (fun x => Seq x < Seq r) rs -> above n (rs ++ [r]).
Proof.
  revert n; induction rs as [|x rs IH]; intros n; cbn; [done|]. intros [H1 H2] Hn HF. inversion HF; subst.
  split; [done|]. by apply IH.
Qed.

Lemma logOf_app a b : logOf (a ++ b) = logOf a ++ logOf b.
Proof. unfold logOf. by rewrite fmap_app, join_app. Qed.

Lemma logOf_single x : logOf [x] = x.2.
Proof. unfold logOf. cbn. apply app_nil_r. Qed.

Lemma elem_of_logOf r L : r ∈ logOf L <-> exists x, x ∈ L /\ r ∈ x.2.
Proof.
  unfold logOf. rewrite list_elem_of_join. split.
  - intros (l & H1 & H2). apply list_elem_of_fmap in H2 as (x & -> & H2). eauto.
  - intros (x & H1 & H2). exists x.2. split; [done|]. apply list_elem_of_fmap. eauto.
Qed.

(** ** Segment lists *)

Lemma sorted_snoc {A} (R : A -> A -> Prop) l x :
  StronglySorted R (l ++ [x]) <-> StronglySorted R l /\ Forall (fun y => R y x) l.
Proof.
  induction l as [|a l IH]; cbn.
  - split; [intros _; split; constructor|]. intros _. repeat constructor.
  - split.
    + intros H. inversion H as [|? ? Hs HF]; subst. apply IH in Hs as [Hs Hx]. apply Forall_app in HF as [HF1 HF2].
      split; constructor; try done. by inversion HF2.
    + intros [H Hx]. inversion H as [|? ? Hs HF]; subst. inversion Hx; subst. constructor; [by apply IH|].
      apply Forall_app. split; [done|]. by constructor.
Qed.

Lemma sorted_drop {A} (R : A -> A -> Prop) a b : StronglySorted R (a ++ b) -> StronglySorted R b.
Proof. induction a; [done|]. cbn. inversion 1; auto. Qed.

Lemma layout_starts L : layout L -> StronglySorted (fun a b => str_ltb a b = true) (segName ∘ fst <$> L).
Proof.
  intros (Hw & Hs & _). induction Hs as [|x L Hs IH HF]; [constructor|]. inversion Hw as [|? ? Hx Hw']; subst. cbn. constructor; [by apply IH|].
  apply Forall_fmap, Forall_forall. intros y Hy. rewrite Forall_forall in HF, Hw'. destruct (HF y Hy) as (_ & Hlt & _), (Hw' y Hy) as [? _].
  destruct Hx as [? _]. cbn. apply segName_ltb; lia.
Qed.

Lemma sorted_NoDup (l : list string) : StronglySorted (fun a b => str_ltb a b = true) l -> NoDup l.
Proof.
  induction 1 as [|a l H IH HF]; constructor; [|done]. intros Hin. rewrite Forall_forall in HF.
  specialize (HF a Hin). by rewrite str_ltb_irrefl in HF.
Qed.

Lemma layout_nodup L : layout L -> NoDup (segName ∘ fst <$> L).
Proof. intros H. by apply sorted_NoDup, layout_starts. Qed.

(** Names determine segments. *)
Lemma layout_name L L0 x y : layout L -> L = L0 ++ [x] -> y ∈ L0 -> segName y.1 <> segName x.1.
Proof.
  intros HL -> Hy E. apply layout_nodup in HL. rewrite fmap_app in HL. apply NoDup_app in HL as (_ & HL & _).
  apply (HL (segName y.1)); [apply list_elem_of_fmap; eauto|]. cbn. rewrite E. apply list_elem_of_singleton. done.
Qed.

Lemma loadSegs_names L :
  Forall seg_wf L -> loadSegs (segName ∘ fst <$> L) = (fun x => MkSeg (segName x.1) x.1 0) <$> L.
Proof.
  induction 1 as [|x L [Hx _] H IH]; [done|]. unfold loadSegs in *. cbn. rewrite sscanfSeg_name by lia. cbn. by rewrite IH.
Qed.

Lemma dir_names d L :
  layout L -> only_segs d L -> Forall (fun x => is_Some (d !! segName x.1)) L ->
  sortStrings (filter (fun p => globSeg p = true) (fst <$> map_to_list d)) = segName ∘ fst <$> L.
Proof.
  intros HL Ho Hf. apply sortStrings_sorted; [|by apply layout_starts]. apply NoDup_Permutation.
  - apply NoDup_filter, NoDup_fst_map_to_list.
  - by apply layout_nodup.
  - intros p. rewrite list_elem_of_filter, list_elem_of_fmap. split.
    + intros (Hg & [q f] & -> & Hin). apply elem_of_map_to_list in Hin. apply Ho; [cbn; by rewrite Hin|done].
    + intros Hin. apply list_elem_of_fmap in Hin as (x & -> & Hx). cbn. split; [apply globSeg_name|].
      rewrite Forall_forall in Hf. destruct (Hf x Hx) as [f Hxf]. exists (segName x.1, f). split; [done|].
      by apply elem_of_map_to_list.
Qed.

(** ** Open *)

Lemma scanSegment_ok io d p tr b t rs d' n mx :
  d !! p = Some (MkFile (b ++ t) []) -> exact b rs -> records t = [] -> statOk io = true ->
  scanSegment io d p tr = (d', Ok (n, mx)) ->
  mx = maxSeqOf rs /\ d' = if tr then <[p := MkFile b []]> d else d.
Proof.
  intros Hf Hb Ht Hst. unfold scanSegment, content. rewrite Hf. cbn [durable cached]. rewrite app_nil_r.
  rewrite (exact_records _ _ t Hb), Ht, app_nil_r, Hst. destruct (openOk io p); cbn [negb]; [|done].
  change (8 + recordPayloadLen) with frameLen. rewrite <- (exact_len _ _ Hb), slice_prefix. rewrite len_app.
  destruct tr; cbn [andb]; [|by intros [= <- _ <-]].
  destruct (Z.eqb_spec (len b + len t) (len b)); cbn [negb].
  - intros [= <- _ <-]. split; [done|]. rewrite insert_id; [done|].
    rewrite Hf, (len_0 t) by lia. by rewrite app_nil_r.
  - destruct (truncOk io); [|done]. by intros [= <- _ <-].
Qed.

Lemma seg_file_torn d x : seg_file d x -> seg_torn d x.
Proof. intros (b & H & He). exists b, []. rewrite app_nil_r. split_and!; done. Qed.

Lemma seg_torn_some d x : seg_torn d x -> is_Some (d !! segName x.1).
Proof. intros (b & t & H & _). by rewrite H. Qed.

Lemma scanSegment_err io d p tr d' e : scanSegment io d p tr = (d', Err e) -> d' = d.
Proof. unfold scanSegment. repeat case_match; intros [= <-]; done. Qed.

(** The scan of all segments but the last only reads. *)
Lemma scanAll_front io d L1 rest done_ seq d' r :
  statOk io = true -> Forall (seg_file d) L1 -> rest <> [] -> 0 <= seq ->
  scanAll io d (((fun x => MkSeg (segName x.1) x.1 0) <$> L1) ++ rest) done_ seq = (d', r) ->
  (d' = d /\ exists e, r = Err e) \/
  scanAll io d rest (done_ ++ (segOf <$> L1)) (Z.max seq (maxSeqOf (logOf L1))) = (d', r).
Proof.
  intros Hst HF Hr. revert done_ seq; induction HF as [|x L1 Hx HF IH]; intros done_ seq Hs H.
  - right. cbn in *. by rewrite app_nil_r, Z.max_l by done.
  - cbn -[scanSegment] in H. rewrite (bool_decide_false (_ ++ rest = [])) in H by (by destruct L1, rest).
    destruct (scanSegment io d (segName x.1) false) as [d1 [[n mx]|e]] eqn:E.
    + destruct Hx as (b & Hb & He). rewrite <- (app_nil_r b) in Hb.
      destruct (scanSegment_ok io d _ false b [] x.2 _ _ _ Hb He eq_refl Hst E) as [-> ->].
      assert (Hs' : 0 <= (if seq <? maxSeqOf x.2 then maxSeqOf x.2 else seq)) by (destruct (Z.ltb_spec seq (maxSeqOf x.2)); lia).
      destruct (IH _ _ Hs' H) as [?|H2]; [by left|right]. rewrite <- H2. f_equal; [by rewrite <- app_assoc|].
      change (x :: L1) with ([x] ++ L1). rewrite logOf_app, logOf_single, maxSeqOf_app.
      destruct (Z.ltb_spec seq (maxSeqOf x.2)); lia.
    + injection H as <- <-. left. apply scanSegment_err in E as ->. eauto.
Qed.

Lemma only_segs_insert d L x f : x ∈ L -> only_segs d L -> only_segs (<[segName x.1 := f]> d) L.
Proof.
  intros Hx Ho p Hp Hg. destruct (decide (p = segName x.1)) as [->|Hne].
  - apply list_elem_of_fmap. eauto.
  - rewrite lookup_insert_ne in Hp by done. by apply Ho.
Qed.

Lemma only_segs_last d L0 st rs rs' f :
  only_segs d (L0 ++ [(st, rs)]) -> only_segs (<[segName st := f]> d) (L0 ++ [(st, rs')]).
Proof.
  intros Ho p Hp Hg. assert (Hin : (st, rs) ∈ L0 ++ [(st, rs)]) by set_solver.
  pose proof (only_segs_insert d _ (st, rs) f Hin Ho p Hp Hg) as H. by rewrite !fmap_app in *.
Qed.

(** Files of other segments do not change. *)
Lemma seg_file_insert d p f y : segName y.1 <> p -> seg_file d y -> seg_file (<[p := f]> d) y.
Proof. intros Hne (b & H & He). exists b. by rewrite lookup_insert_ne. Qed.

Lemma seg_files_insert d L0 x L f :
  layout L -> L = L0 ++ [x] -> Forall (seg_file d) L0 -> Forall (seg_file (<[segName x.1 := f]> d)) L0.
Proof.
  intros HL -> H. rewrite Forall_forall in *. intros y Hy. apply seg_file_insert; [|by apply H].
  by eapply layout_name.
Qed.

Lemma down_files d L : down_ok d L -> Forall (fun x => is_Some (d !! segName x.1)) L.
Proof.
  intros (_ & _ & H). destruct L as [|x L _] using rev_ind; [constructor|].
  destruct (H L x eq_refl) as [H1 H2]. apply Forall_app. split; [|constructor; [by apply seg_torn_some|constructor]].
  eapply Forall_impl; [done|]. intros y Hy. by apply seg_torn_some, seg_file_torn.
Qed.

Lemma layout_single : layout [(1, [])].
Proof.
  split_and!.
  - repeat constructor; done.
  - repeat constructor.
  - done.
  - intros L0 st rs H. destruct L0 as [|? [|]]; [|done..]. injection H as <- <-. change (1 <= 0 + 1). lia.
Qed.

(** Opening an empty directory creates the first segment. *)
Lemma open_first io size d d' r :
  0 < size -> down_ok d [] -> rollLocked io (MkWAL size 0 [] None 0) d 1 = r -> d' = r.1.2 ->
  match r.2 with Ok _ => up_ok r.1.1 d' [(1, [])] | Err _ => down_ok d' [] \/ down_ok d' [(1, [])] end.
Proof.
  intros Hsz (_ & Ho & _) Hr ->. unfold rollLocked in Hr. cbn [wCur syncFile segmentSize wSeq segs] in Hr.
  replace (if syncOk io then d else d) with d in Hr by (by destruct (syncOk io)).
  assert (Hn : d !! segName 1 = None).
  { destruct (d !! segName 1) eqn:E; [|done]. exfalso.
    specialize (Ho (segName 1) ltac:(by rewrite E) (globSeg_name 1)). cbn in Ho. set_solver. }
  assert (Hd : forall f, only_segs (<[segName 1 := f]> d) [(1, [])]).
  { intros f p Hp Hg. destruct (decide (p = segName 1)) as [->|Hne]; [set_solver|].
    rewrite lookup_insert_ne in Hp by done. specialize (Ho p Hp Hg). set_solver. }
  assert (Hl : forall d : wdir, d !! segName 1 = Some (MkFile [] []) -> seg_file d (1, [])).
  { intros d0 H. exists []. split; [done|constructor]. }
  rewrite Hn in Hr. destruct (createOk io); cbn [negb] in Hr.
  2: { subst r. left. split; [|split; [done|by intros [|]]]. split_and!; try by constructor. by intros [|]. }
  destruct (dirSyncOk io); cbn [negb] in Hr; subst r; cbn [fst snd].
  - split_and!; [apply layout_single|apply Hd| |done|done|done|].
    + constructor; [|constructor]. apply Hl, lookup_insert_eq.
    + exists [], 1, [], (MkFile [] []). split_and!; [done|done|apply lookup_insert_eq|done].
  - right. split_and!; [apply layout_single|apply Hd|]. intros L0 x H. destruct L0 as [|? [|]]; [|done..].
    injection H as <-. split; [constructor|]. apply seg_file_torn, Hl, lookup_insert_eq.
Qed.

Lemma open_ok io size d L d' r :
  0 < size -> down_ok d L -> statOk io = true -> Open io size d = (d', r) ->
  exists L', logOf L' = logOf L /\ match r with Ok w => up_ok w d' L' | Err _ => down_ok d' L' end.
Proof.
  intros Hsz HD Hst H. pose proof HD as (HL & Ho & Hfiles). unfold Open in H.
  rewrite (dir_names d L) in H by (done || by apply down_files). rewrite loadSegs_names in H by apply HL.
  destruct L as [|x L0 _] using rev_ind.
  { cbn in H. pose proof (open_first io size d _ _ Hsz HD eq_refl eq_refl) as Hf.
    destruct (rollLocked io _ d 1) as [[w d1] [[]|e]]; cbn in *; injection H as <- <-.
    - exists [(1, [])]. done.
    - destruct Hf as [Hf|Hf]; [exists []|exists [(1, [])]]; done. }
  destruct (Hfiles L0 x eq_refl) as [HF (b & t & Hx & He & Ht)].
  rewrite fmap_app in H. destruct (scanAll _ _ _ _ _) as [d1 r1] eqn:E. apply scanAll_front in E; [|done..].
  destruct E as [[-> [e ->]]|E].
  { injection H as <- <-. exists (L0 ++ [x]). done. }
  cbn -[scanSegment] in E. destruct (scanSegment io d (segName x.1) true) as [d2 [[n mx]|e]] eqn:E2.
  2: { apply scanSegment_err in E2 as ->. injection E as <- <-. injection H as <- <-. exists (L0 ++ [x]). done. }
  destruct (scanSegment_ok io d _ true b t x.2 _ _ _ Hx He Ht Hst E2) as [-> ->].
  injection E as <- <-. rewrite last_snoc in H. cbn [path] in H. rewrite lookup_insert_eq in H.
  exists (L0 ++ [x]). split; [done|].
  assert (Hup : Forall (seg_file (<[segName x.1 := MkFile b []]> d)) (L0 ++ [x])).
  { apply Forall_app. split; [by eapply seg_files_insert|]. constructor; [|constructor].
    exists b. split; [apply lookup_insert_eq|done]. }
  assert (Ho' : only_segs (<[segName x.1 := MkFile b []]> d) (L0 ++ [x])) by (apply only_segs_insert; [set_solver|done]).
  destruct (openOk io (segName x.1)); injection H as <- <-.
  - split_and!; try done.
    + cbn. rewrite fmap_app. done.
    + cbn. rewrite logOf_app, logOf_single, maxSeqOf_app. pose proof (maxSeqOf_nonneg (logOf L0)).
      destruct (Z.ltb_spec (Z.max 0 (maxSeqOf (logOf L0))) (maxSeqOf x.2)); lia.
    + destruct x as [st rs]. exists L0, st, rs, (MkFile b []). split_and!; [done|done|apply lookup_insert_eq|done].
  - split_and!; [done|done|]. intros L1 y Hy. apply app_inj_tail in Hy as [<- <-]. apply Forall_app in Hup as [H1 H2].
    split; [done|]. inversion H2; subst. by apply seg_file_torn.
Qed.

(** ** Crashes *)

Lemma crash_seg_file d d' x : crash d d' -> seg_file d x -> seg_file d' x.
Proof.
  intros Hc (b & Hb & He). specialize (Hc (segName x.1)). rewrite Hb in Hc. destruct Hc as (t & Ht & _ & Hn).
  rewrite (Hn eq_refl) in Ht. cbn in Ht. rewrite app_nil_r in Ht. by exists b.
Qed.

Lemma crash_seg_files d d' L : crash d d' -> Forall (seg_file d) L -> Forall (seg_file d') L.
Proof. intros Hc H. eapply Forall_impl; [done|]. intros x. by apply crash_seg_file. Qed.

Lemma crash_only_segs d d' L : crash d d' -> only_segs d L -> only_segs d' L.
Proof.
  intros Hc Ho p Hp Hg. apply Ho; [|done]. specialize (Hc p). destruct (d !! p); [done|]. by rewrite Hc in Hp; destruct Hp.
Qed.

Lemma files_down d L : layout L -> only_segs d L -> Forall (seg_file d) L -> down_ok d L.
Proof.
  intros HL Ho HF. split_and!; [done|done|]. intros L0 x ->. apply Forall_app in HF as [H1 H2]. split; [done|].
  inversion H2; subst. by apply seg_file_torn.
Qed.

Lemma prefix_single {A} (p : list A) x : p `prefix_of` [x] -> p = [] \/ p = [x].
Proof.
  destruct p as [|y p]; [by left|]. intros H. right.
  rewrite (prefix_cons_inv_1 _ _ _ _ H), (prefix_nil_inv p); [done|]. by eapply prefix_cons_inv_2.
Qed.

(** A crash that tears the last segment's unsynced bytes. *)
Lemma crash_torn d d' L0 st rs b u :
  layout (L0 ++ [(st, rs)]) -> only_segs d (L0 ++ [(st, rs)]) -> Forall (seg_file d) L0 ->
  d !! segName st = Some (MkFile b u) -> exact b rs -> crash d d' ->
  exists p, p `prefix_of` records u /\
    (layout (L0 ++ [(st, rs ++ p)]) -> down_ok d' (L0 ++ [(st, rs ++ p)])).
Proof.
  intros HL Ho HF Hf He Hc. pose proof (Hc (segName st)) as Hs. rewrite Hf in Hs. destruct Hs as (t & Ht & Hp & _).
  exists (records t). split; [done|]. intros HL'. split_and!; [done| |].
  - apply (crash_only_segs _ _ _ Hc) in Ho. intros p Hp' Hg. specialize (Ho p Hp' Hg). rewrite fmap_app in *. done.
  - intros L1 x Hx. apply app_inj_tail in Hx as [<- <-]. split; [by eapply crash_seg_files|].
    destruct (records_split t) as [Hv Hl]. set (n := len (records t) * frameLen) in *.
    exists (b ++ slice t 0 n), (slice t n (len t)). cbn [fst snd durable] in *. split_and!.
    + rewrite Ht, <- app_assoc, slice_split, slice_all; [done|lia| |lia].
      subst n. pose proof (len_nonneg (records t)). unfold frameLen, recordPayloadLen in *. lia.
    + by apply exact_app.
    + assert (H : records t = records t ++ records (slice t n (len t))).
      { rewrite <- (exact_records _ _ (slice t n (len t)) Hv), slice_split, slice_all; [done|lia| |lia].
        subst n. pose proof (len_nonneg (records t)). unfold frameLen, recordPayloadLen in *. lia. }
      apply (f_equal length) in H. rewrite length_app in H. apply length_zero_iff_nil. lia.
Qed.

(** ** Append *)

Lemma layout_extend L0 st rs r :
  layout (L0 ++ [(st, rs)]) -> Seq r = maxSeqOf (logOf (L0 ++ [(st, rs)])) + 1 -> Seq r < 2 ^ 64 ->
  layout (L0 ++ [(st, rs ++ [r])]).
Proof.
  intros (Hw & Hs & Hm & Hst) Hr Hlt. specialize (Hst L0 st rs eq_refl).
  pose proof (maxSeqOf_nonneg (logOf (L0 ++ [(st, rs)]))).
  assert (Hmax : maxSeqOf (logOf (L0 ++ [(st, rs ++ [r])])) = Seq r).
  { rewrite !logOf_app, !logOf_single in *. cbn [snd] in *. rewrite app_assoc, maxSeqOf_app, maxSeqOf_single by lia. lia. }
  apply Forall_app in Hw as [Hw1 Hw2]. apply sorted_snoc in Hs as [Hs1 Hs2]. split_and!.
  - apply Forall_app. split; [done|]. inversion Hw2 as [|? ? [Hb Ha] _]; subst. cbn in *. repeat constructor; cbn; try lia.
    apply above_snoc; [done|lia|]. apply Forall_forall. intros x Hx.
    enough (Seq x <= maxSeqOf (logOf (L0 ++ [(st, rs)]))) by lia. apply maxSeqOf_in, elem_of_logOf. exists (st, rs). set_solver.
  - apply sorted_snoc. split; done.
  - lia.
  - intros L1 st' rs' H1. apply app_inj_tail in H1 as [<- [= <- <-]]. lia.
Qed.

Lemma withSeq_ok r n : rec_ok (withSeq r 0) -> 0 <= n < 2 ^ 64 -> rec_ok (withSeq r n).
Proof. unfold rec_ok. cbn. naive_solver. Qed.

Lemma bumpLast_snoc L0 st rs n :
  bumpLast (segOf <$> (L0 ++ [(st, rs)])) n = (segOf <$> L0) ++ [MkSeg (segName st) st n].
Proof.
  unfold bumpLast. rewrite fmap_app. cbn. rewrite last_snoc. cbn. f_equal.
  rewrite length_app. cbn. replace (length (segOf <$> L0) + 1 - 1)%nat with (length (segOf <$> L0)) by lia.
  by rewrite take_app_length.
Qed.

Lemma appendFrame_ok io w d r L w' d' res :
  up_ok w d L -> rec_ok (withSeq r 0) -> wSeq w + 1 < 2 ^ 64 -> appendFrame io w d r = (w', d', res) ->
  match res with
  | Ok n => n = wSeq w + 1 /\ exists L', logOf L' = logOf L ++ [withSeq r n] /\ up_ok w' d' L'
  | Err _ => forall d2, crash d' d2 ->
      exists p L', p `prefix_of` [withSeq r (wSeq w + 1)] /\ logOf L' = logOf L ++ p /\ down_ok d2 L'
  end.
Proof.
  intros (HL & Ho & HF & Hsegs & Hseq & Hsz & L0 & st & rs & f & -> & Hcur & Hf & Hcb) Hr Hlt H.
  pose proof (maxSeqOf_nonneg (logOf (L0 ++ [(st, rs)]))) as Hnn.
  pose proof HF as HF'. apply Forall_app in HF' as [HF0 HF1]. inversion HF1 as [|? ? (b & Hb & He) _]; subst. cbn [fst snd] in *.
  rewrite Hf in Hb. injection Hb as ->. unfold appendFrame in H. cbn [wCur] in H. rewrite Hcur in H. cbn [wCur] in H.
  rewrite Hf, Z.mod_small in H by lia. cbn [durable cached app] in H.
  set (r' := withSeq r (wSeq w + 1)) in *. set (d1 := fun u => <[segName st := MkFile b u]> d) in *.
  assert (Hr' : rec_ok r') by (apply withSeq_ok; [done|lia]).
  assert (Hext : layout (L0 ++ [(st, rs ++ [r'])])) by (apply layout_extend; [done|cbn; lia|cbn; lia]).
  assert (Htorn : forall u d2, (records u = [] \/ u = frame (marshal r')) -> crash (d1 u) d2 ->
    exists p L', p `prefix_of` [r'] /\ logOf L' = logOf (L0 ++ [(st, rs)]) ++ p /\ down_ok d2 L').
  { intros u d2 Hu Hc. destruct (crash_torn (d1 u) d2 L0 st rs b u) as (p & Hp & Hd); [done| | | |done|done|].
    - apply (only_segs_insert d _ (st, rs)); [set_solver|done].
    - exact (seg_files_insert d L0 (st, rs) _ _ HL eq_refl HF0).
    - apply lookup_insert_eq.
    - assert (Hp' : p = [] \/ p = [r']).
      { destruct Hu as [Hu| ->]; [rewrite Hu in Hp; left; by apply prefix_nil_inv|].
        rewrite (exact_records_eq _ _ (frame_exact r' Hr')) in Hp. by apply prefix_single. }
      exists p, (L0 ++ [(st, rs ++ p)]). split_and!.
      + destruct Hp' as [->| ->]; [apply prefix_nil|done].
      + rewrite !logOf_app, !logOf_single. cbn. by rewrite app_assoc.
      + apply Hd. destruct Hp' as [->| ->]; [by rewrite app_nil_r|done]. }
  destruct (written io) as [k|] eqn:Ek.
  { injection H as <- <- <-. intros d2. apply (Htorn (take k (frame (marshal r')))). apply torn_records. }
  destruct (syncOk io); cbn [negb] in H; injection H as <- <- <-.
  2: { intros d2. apply (Htorn (frame (marshal r'))). by right. }
  split; [done|]. exists (L0 ++ [(st, rs ++ [r'])]). split; [rewrite !logOf_app, !logOf_single; cbn; by rewrite app_assoc|].
  split_and!; [done| | | | |done|].
  - by eapply only_segs_last.
  - apply Forall_app. split; [exact (seg_files_insert d L0 (st, rs) _ _ HL eq_refl HF0)|]. constructor; [|constructor]. cbn.
    exists (b ++ frame (marshal r')). split; [apply lookup_insert_eq|]. by apply exact_app, frame_exact.
  - cbn [segs]. rewrite Hsegs, bumpLast_snoc, fmap_app. cbn. unfold segOf. cbn. do 3 f_equal.
    rewrite maxSeqOf_snoc; [done|]. rewrite logOf_app, maxSeqOf_app, logOf_single in Hseq. cbn [snd] in Hseq. cbn. lia.
  - cbn [wSeq]. rewrite logOf_app, logOf_single in *. cbn [snd] in *. rewrite app_assoc, maxSeqOf_snoc; [done|]. cbn. lia.
  - exists L0, st, (rs ++ [r']), (MkFile (b ++ frame (marshal r')) []). split_and!; [done|done|apply lookup_insert_eq|].
    cbn [curBytes]. rewrite Hcb. unfold content. cbn. rewrite !app_nil_r, len_app. done.
Qed.

Lemma layout_roll L st rs L0 :
  layout L -> L = L0 ++ [(st, rs)] -> rs <> [] -> maxSeqOf (logOf L) + 1 < 2 ^ 64 ->
  layout (L ++ [(maxSeqOf (logOf L) + 1, [])]).
Proof.
  intros (Hw & Hs & Hm & Hst) HL Hne Hlt. pose proof (maxSeqOf_nonneg (logOf L)). split_and!.
  - apply Forall_app. split; [done|]. repeat constructor; cbn; lia.
  - apply sorted_snoc. split; [done|]. apply Forall_forall. intros x Hx.
    assert (Hne' : x.2 <> []).
    { rewrite HL in Hx, Hs. apply sorted_snoc in Hs as [_ Hs]. apply elem_of_app in Hx as [Hx|Hx].
      - rewrite Forall_forall in Hs. by destruct (Hs x Hx).
      - apply list_elem_of_singleton in Hx as ->. done. }
    assert (Hall : forall r, r ∈ x.2 -> Seq r <= maxSeqOf (logOf L)).
    { intros r Hr. apply maxSeqOf_in, elem_of_logOf. eauto. }
    rewrite Forall_forall in Hw. destruct (Hw x Hx) as [_ Ha]. apply above_forall in Ha.
    split_and!; [done| |].
    + destruct x.2 as [|r rs'] eqn:E; [done|]. inversion Ha; subst. specialize (Hall r ltac:(by left)). cbn. lia.
    + apply Forall_forall. intros r Hr. specialize (Hall r Hr). cbn. lia.
  - rewrite logOf_app, logOf_single. cbn. rewrite app_nil_r. done.
  - intros L1 st' rs' E. apply app_inj_tail in E as [_ [= <- <-]]. rewrite logOf_app, logOf_single. cbn. rewrite app_nil_r. lia.
Qed.

Lemma segName_inj a b : 0 <= a < 2 ^ 64 -> 0 <= b < 2 ^ 64 -> segName a = segName b -> a = b.
Proof.
  intros Ha Hb E. apply (f_equal sscanfSeg) in E. rewrite !sscanfSeg_name in E by done. by injection E.
Qed.

Lemma roll_fresh d L :
  layout (L ++ [(maxSeqOf (logOf L) + 1, [])]) -> only_segs d L -> d !! segName (maxSeqOf (logOf L) + 1) = None.
Proof.
  intros HL Ho. destruct (d !! _) eqn:E; [|done]. exfalso.
  specialize (Ho _ ltac:(by rewrite E) (globSeg_name _)). apply list_elem_of_fmap in Ho as (x & Hx & Hin).
  by apply (layout_name _ L (maxSeqOf (logOf L) + 1, []) x HL eq_refl Hin).
Qed.

Lemma roll_ok io w d L w' d' res :
  up_ok w d L -> segmentSize w <= curBytes w -> wSeq w + 1 < 2 ^ 64 ->
  rollLocked io w d (wSeq w + 1) = (w', d', res) ->
  match res with
  | Ok _ => wSeq w' = wSeq w /\ up_ok w' d' (L ++ [(wSeq w + 1, [])])
  | Err _ => forall d2, crash d' d2 -> exists L', logOf L' = logOf L /\ down_ok d2 L'
  end.
Proof.
  intros (HL & Ho & HF & Hsegs & Hseq & Hsz & L0 & st & rs & f & HL0 & Hcur & Hf & Hcb) Hcb2 Hlt H.
  assert (Hx : exists b, f = MkFile b [] /\ exact b rs).
  { rewrite HL0 in HF. apply Forall_app in HF as [_ HF]. inversion HF as [|? ? (b & Hb & He) _]; subst. cbn in Hb.
    rewrite Hf in Hb. injection Hb as ->. eauto. }
  destruct Hx as (b & -> & He).
  assert (Hne : rs <> []).
  { intros ->. inversion He; subst b. assert (curBytes w = 0) by (rewrite Hcb; reflexivity). lia. }
  pose proof (layout_roll L st rs L0 HL HL0 Hne ltac:(lia)) as HL'. rewrite <- Hseq in HL'.
  pose proof (roll_fresh d L) as Hfresh. rewrite <- Hseq in Hfresh. specialize (Hfresh HL' Ho).
  unfold rollLocked in H. rewrite Hcur in H. cbn [syncFile] in H. rewrite Hf in H.
  assert (Hid : <[segName st := MkFile (content (MkFile b [])) []]> d = d).
  { apply insert_id. rewrite Hf. unfold content. cbn. by rewrite app_nil_r. }
  rewrite Hid in H. replace (if syncOk io then d else d) with d in H by (by destruct (syncOk io)).
  destruct (createOk io); cbn [negb] in H.
  2: { injection H as <- <- <-. intros d2 Hc. exists L. split; [done|].
       apply files_down; [done|by eapply crash_only_segs|by eapply crash_seg_files]. }
  rewrite Hfresh in H. set (d1 := <[segName (wSeq w + 1) := MkFile [] []]> d) in *.
  assert (Ho1 : only_segs d1 (L ++ [(wSeq w + 1, [])])).
  { intros p Hp Hg. rewrite fmap_app. apply elem_of_app. destruct (decide (p = segName (wSeq w + 1))) as [->|Hn]; [right; set_solver|].
    left. unfold d1 in Hp. rewrite lookup_insert_ne in Hp by done. by apply Ho. }
  assert (HF1 : Forall (seg_file d1) (L ++ [(wSeq w + 1, [])])).
  { apply Forall_app. split.
    - apply Forall_forall. intros x Hx. apply seg_file_insert; [|rewrite Forall_forall in HF; by apply HF].
      exact (layout_name _ L (wSeq w + 1, []) x HL' eq_refl Hx).
    - constructor; [|constructor]. exists []. split; [apply lookup_insert_eq|constructor]. }
  destruct (dirSyncOk io); cbn [negb] in H; injection H as <- <- <-.
  - split; [done|]. split_and!; [done|done|done| | |done|].
    + cbn. rewrite Hsegs, fmap_app. done.
    + cbn. rewrite logOf_app, logOf_single. cbn. by rewrite app_nil_r.
    + exists L, (wSeq w + 1), [], (MkFile [] []). split_and!; [done|done|apply lookup_insert_eq|done].
  - intros d2 Hc. exists (L ++ [(wSeq w + 1, [])]). split; [rewrite logOf_app, logOf_single; cbn; apply app_nil_r|].
    apply files_down; [done|by eapply crash_only_segs|by eapply crash_seg_files].
Qed.

Lemma Append_ok io w d r L w' d' res :
  up_ok w d L -> rec_ok (withSeq r 0) -> wSeq w + 1 < 2 ^ 64 -> Append io w d r = (w', d', res) ->
  match res with
  | Ok n => n = wSeq w + 1 /\ exists L', logOf L' = logOf L ++ [withSeq r n] /\ up_ok w' d' L'
  | Err _ => forall d2, crash d' d2 ->
      exists p L', p `prefix_of` [withSeq r (wSeq w + 1)] /\ logOf L' = logOf L ++ p /\ down_ok d2 L'
  end.
Proof.
  intros Hup Hr Hlt H. unfold Append in H.
  destruct (match wCur w with Some _ => segmentSize w <=? curBytes w | None => false end) eqn:E.
  2: by eapply appendFrame_ok.
  assert (Hcb : segmentSize w <= curBytes w) by (destruct (wCur w); [by apply Z.leb_le|done]).
  assert (Hnn : 0 <= wSeq w) by (destruct Hup as (_ & _ & _ & _ & -> & _); apply maxSeqOf_nonneg).
  rewrite Z.mod_small in H by lia.
  destruct (rollLocked io w d (wSeq w + 1)) as [[w1 d1] [[]|e]] eqn:Er; pose proof (roll_ok _ _ _ _ _ _ _ Hup Hcb Hlt Er) as Hroll.
  - destruct Hroll as [Hs Hup1]. rewrite <- Hs in Hlt. pose proof (appendFrame_ok _ _ _ _ _ _ _ _ Hup1 Hr Hlt H) as Ha.
    rewrite logOf_app, logOf_single, app_nil_r in Ha. by rewrite Hs in Ha.
  - injection H as <- <- <-. intros d2 Hc. destruct (Hroll d2 Hc) as (L' & HL' & Hd). exists [], L'.
    split_and!; [apply prefix_nil|by rewrite app_nil_r|done].
Qed.

(** ** Checkpoint *)

Definition removeSegs (d : wdir) (L : list gseg) : wdir := foldl (fun d x => delete (segName x.1) d) d L.

Lemma removeSegs_lookup d L p :
  removeSegs d L !! p = if decide (p ∈ segName ∘ fst <$> L) then None else d !! p.
Proof.
  unfold removeSegs. revert d; induction L as [|x L IH]; intros d; cbn [foldl fmap list_fmap].
  - by rewrite decide_False by set_solver.
  - rewrite IH. destruct (decide (p = segName x.1)) as [->|Hne].
    + rewrite lookup_delete_eq, (decide_True None (d !! _)) by (by left). by destruct (decide _).
    + rewrite lookup_delete_ne by done. apply decide_ext. rewrite elem_of_cons. naive_solver.
Qed.

Lemma checkpoint_keep io upTo d L0 x keep :
  Forall (fun y => upTo < maxSeqOf y.2) L0 ->
  checkpointSegs io upTo d (segOf <$> (L0 ++ [x])) keep = (d, Ok (keep ++ (segOf <$> (L0 ++ [x])))).
Proof.
  intros H. revert keep; induction H as [|y L0 Hy H IH]; intros keep; [done|].
  cbn -[segOf]. cbn [maxSeq segOf]. rewrite (proj2 (Z.leb_gt _ _)) by lia. rewrite andb_false_r, IH.
  by rewrite <- app_assoc.
Qed.

Lemma seg_max x : seg_wf x -> x.2 <> [] -> x.1 <= maxSeqOf x.2.
Proof.
  intros [_ Ha%above_forall] Hn. destruct x.2 as [|r rs] eqn:E; [done|]. inversion Ha; subst.
  pose proof (maxSeqOf_in (r :: rs) r ltac:(by left)). lia.
Qed.

Lemma seg_lt_max x y : seg_wf x -> seg_lt x y -> maxSeqOf x.2 < y.1.
Proof.
  intros [Hx _] (_ & Hlt & HF). enough (maxSeqOf x.2 <= y.1 - 1) by lia.
  apply maxSeqOf_le; [lia|]. eapply Forall_impl; [done|]. cbn. lia.
Qed.

Lemma checkpoint_split io upTo d L d' r :
  Forall seg_wf L -> StronglySorted seg_lt L -> L <> [] ->
  checkpointSegs io upTo d (segOf <$> L) [] = (d', r) ->
  exists L1 L2, L = L1 ++ L2 /\ L2 <> [] /\ Forall (fun x => maxSeqOf x.2 <= upTo) L1 /\ d' = removeSegs d L1 /\
    (r = Ok (segOf <$> L2) \/ exists e, r = Err e).
Proof.
  intros Hw Hs. revert d; induction Hs as [|x L Hs IH HF]; intros d Hne H; [done|]. inversion Hw as [|? ? Hx Hw']; subst.
  assert (Hstop : forall e, (d', r) = (d, Err e) -> exists L1 L2, x :: L = L1 ++ L2 /\ L2 <> [] /\
    Forall (fun x => maxSeqOf x.2 <= upTo) L1 /\ d' = removeSegs d L1 /\ (r = Ok (segOf <$> L2) \/ exists e, r = Err e)).
  { intros e [= -> ->]. exists [], (x :: L). split_and!; [done|done|constructor|done|eauto]. }
  cbn -[segOf] in H. cbn [maxSeq path segOf] in H.
  destruct (decide (L = [])) as [->|HL].
  { cbn in H. injection H as <- <-. exists [], [x]. split_and!; [done|done|constructor|done|by left]. }
  rewrite (bool_decide_false (segOf <$> L = [])) in H by (intros E; by apply fmap_nil_inv in E). cbn [negb andb] in H.
  destruct (negb _ && _) eqn:E in H.
  - apply andb_prop in E as [_ E%Z.leb_le].
    assert (Hrec : checkpointSegs io upTo (delete (segName x.1) d) (segOf <$> L) [] = (d', r) \/ exists e, (d', r) = (d, Err e)).
    { destruct (d !! segName x.1) eqn:Ed; [destruct (removeOk io (segName x.1))|].
      - by left.
      - right. rewrite <- H. eauto.
      - left. by rewrite delete_id. }
    destruct Hrec as [Hrec|[e Hrec]]; [|by eapply Hstop].
    destruct (IH Hw' _ HL Hrec) as (L1 & L2 & -> & H2 & H3 & -> & H5). exists (x :: L1), L2.
    split_and!; [done|done|by constructor|done|done].
  - destruct L as [|y L _] using rev_ind; [done|].
    assert (Hgt : upTo < maxSeqOf x.2).
    { rewrite Forall_forall in HF. destruct (HF y) as (Hn & _); [set_solver|]. pose proof (seg_max x Hx Hn). destruct Hx as [Hx _].
      destruct (Z.eqb_spec (maxSeqOf x.2) 0); [lia|]. cbn in E. by apply Z.leb_gt in E. }
    rewrite checkpoint_keep in H.
    + injection H as <- <-. exists [], (x :: L ++ [y]). split_and!; [done|done|constructor|done|by left].
    + apply sorted_snoc in Hs as [_ Hs]. apply Forall_app in HF as [HF _]. apply Forall_app in Hw' as [Hw' _].
      rewrite Forall_forall in *. intros z Hz. destruct (Hs z Hz) as (Hzn & _).
      pose proof (seg_max z (Hw' z Hz) Hzn). pose proof (seg_lt_max x z Hx (HF z Hz)). lia.
Qed.

Lemma removeSegs_only d L1 L2 : layout (L1 ++ L2) -> only_segs d (L1 ++ L2) -> only_segs (removeSegs d L1) L2.
Proof.
  intros HL Ho p Hp Hg. rewrite removeSegs_lookup in Hp. case_decide as Hd; [by destruct Hp|].
  specialize (Ho p Hp Hg). rewrite fmap_app in Ho. by apply elem_of_app in Ho as [?|?].
Qed.

Lemma removeSegs_files d L1 L2 :
  layout (L1 ++ L2) -> Forall (seg_file d) (L1 ++ L2) -> Forall (seg_file (removeSegs d L1)) L2.
Proof.
  intros HL HF. apply Forall_app in HF as [_ HF]. rewrite Forall_forall in *. intros x Hx.
  destruct (HF x Hx) as (b & Hb & He). exists b. split; [|done]. rewrite removeSegs_lookup, decide_False; [done|].
  intros Hin. apply layout_nodup in HL. rewrite fmap_app in HL. apply NoDup_app in HL as (_ & HL & _).
  apply (HL _ Hin), list_elem_of_fmap. eauto.
Qed.

(** The last segment has a record, so dropping older segments keeps the top. *)
Lemma layout_drop L1 L2 L0 st rs :
  layout (L1 ++ L2) -> L1 ++ L2 = L0 ++ [(st, rs)] -> L2 <> [] -> rs <> [] ->
  layout L2 /\ maxSeqOf (logOf L2) = maxSeqOf (logOf (L1 ++ L2)).
Proof.
  intros (Hw & Hs & Hm & Hst) E Hne Hrs.
  destruct L2 as [|y L2 _] using rev_ind; [done|]. rewrite app_assoc in E. apply app_inj_tail in E as [<- ->].
  assert (Hmax : maxSeqOf (logOf (L2 ++ [(st, rs)])) = maxSeqOf (logOf (L1 ++ L2 ++ [(st, rs)]))).
  { rewrite (logOf_app L1), maxSeqOf_app. pose proof (maxSeqOf_nonneg (logOf L1)).
    enough (maxSeqOf (logOf L1) <= maxSeqOf (logOf (L2 ++ [(st, rs)]))) by lia.
    apply maxSeqOf_le; [apply maxSeqOf_nonneg|]. apply Forall_forall. intros r Hr.
    apply elem_of_logOf in Hr as (x & Hx & Hr). rewrite app_assoc in Hs. apply sorted_snoc in Hs as [_ Hs].
    rewrite Forall_forall in Hs, Hw. destruct (Hs x ltac:(set_solver)) as (_ & _ & Hxs). rewrite Forall_forall in Hxs.
    specialize (Hxs r Hr). cbn in Hxs. pose proof (seg_max (st, rs) (Hw (st, rs) ltac:(set_solver)) Hrs) as Hmx. cbn in Hmx.
    rewrite logOf_app, logOf_single, maxSeqOf_app. cbn [snd]. lia. }
  split; [|done]. split_and!.
  - by apply Forall_app in Hw as [_ Hw].
  - by eapply sorted_drop.
  - lia.
  - intros L3 st' rs' E. rewrite Hmax. apply (Hst (L1 ++ L3) st' rs'). rewrite E. by rewrite app_assoc.
Qed.

Lemma Checkpoint_ok io w d n L w' d' res :
  up_ok w d L -> curNonEmpty w d -> Checkpoint io w d n = (w', d', res) ->
  exists a L', logOf L = a ++ logOf L' /\ Forall (fun x => Seq x <= n) a /\
    match res with Ok _ => up_ok w' d' L' | Err _ => forall d2, crash d' d2 -> down_ok d2 L' end.
Proof.
  intros (HL & Ho & HF & Hsegs & Hseq & Hsz & L0 & st & rs & f & E & Hcur & Hf & Hcb) (p & f' & Hp & Hpf & Hrec) H.
  rewrite Hcur in Hp. injection Hp as <-. rewrite Hf in Hpf. injection Hpf as <-.
  assert (Hrs : rs <> []).
  { rewrite E in HF. apply Forall_app in HF as [_ HF]. inversion HF as [|? ? (b & Hb & He) _]; subst. cbn in Hb, He.
    rewrite Hf in Hb. injection Hb as ->. unfold content in Hrec. cbn [durable cached] in Hrec. rewrite app_nil_r in Hrec.
    by rewrite (exact_records_eq _ _ He) in Hrec. }
  unfold Checkpoint in H. rewrite Hsegs in H. destruct (checkpointSegs io n d (segOf <$> L) []) as [d1 r1] eqn:Ec.
  pose proof HL as (Hw & Hs & _). apply checkpoint_split in Ec; [|done|done|by rewrite E; destruct L0].
  destruct Ec as (L1 & L2 & -> & Hne & Hle & -> & Hr).
  destruct (layout_drop _ _ _ _ _ HL E Hne Hrs) as [HL2 Hmax].
  exists (logOf L1), L2. split; [apply logOf_app|]. split.
  { apply Forall_forall. intros r Hin. apply elem_of_logOf in Hin as (x & Hx & Hin). rewrite Forall_forall in Hle.
    specialize (Hle x Hx). apply maxSeqOf_in in Hin. cbv beta in *. lia. }
  pose proof (removeSegs_only _ _ _ HL Ho) as Ho2. pose proof (removeSegs_files _ _ _ HL HF) as HF2.
  destruct Hr as [->|[e ->]]; injection H as <- <- <-.
  - split_and!; [done|done|done|done|cbn [wSeq]; lia|done|].
    destruct L2 as [|y L2 _] using rev_ind; [done|]. rewrite app_assoc in E. apply app_inj_tail in E as [_ ->].
    exists L2, st, rs, f. split_and!; [done|done| |done].
    apply Forall_app in HF2 as [_ HF2]. inversion HF2 as [|? ? (b & Hb & _) _]; subst. cbn in Hb.
    rewrite removeSegs_lookup in Hb |- *. by case_decide.
  - intros d2 Hc. apply files_down; [done|by eapply crash_only_segs|by eapply crash_seg_files].
Qed.

(** ** Refinement *)

Lemma wstep_simulates size s l s' log :
  0 < size -> wstep size s l s' -> simulates size s log ->
  exists log', lstep log l log' /\ simulates size s' log'.
Proof.
  intros Hsz H (L & <- & HL).
  inversion H as [io d d' w Hst Ho|io d d' e Hst Ho|io w d r w' d' n Hr Hlt Ha|io w d r w' d' e d2 Hr Hlt Ha Hc
    |io w d n w' d' Hne Hk|io w d n w' d' e d2 Hne Hk Hc|io w d w' d' r Hk|w d d' Hc]; subst.
  - destruct (open_ok _ _ _ _ _ _ Hsz HL Hst Ho) as (L' & HL' & Hup). exists (logOf L). split; [constructor|]. by exists L'.
  - destruct (open_ok _ _ _ _ _ _ Hsz HL Hst Ho) as (L' & HL' & Hup). exists (logOf L). split; [constructor|]. by exists L'.
  - destruct (Append_ok _ _ _ _ _ _ _ _ HL Hr Hlt Ha) as (-> & L' & HL' & Hup). eexists. split; [apply l_append|by exists L'].
    destruct HL as (_ & _ & _ & _ & Hseq & _). apply Forall_forall. intros x Hx. apply maxSeqOf_in in Hx. cbn. lia.
  - destruct (Append_ok _ _ _ _ _ _ _ _ HL Hr Hlt Ha d2 Hc) as (p & L' & Hp & HL' & Hd). exists (logOf L ++ p).
    split; [by constructor|by exists L'].
  - destruct (Checkpoint_ok _ _ _ _ _ _ _ _ HL Hne Hk) as (a & L' & HL' & Ha & Hup). exists (logOf L').
    split; [rewrite HL'; by constructor|by exists L'].
  - destruct (Checkpoint_ok _ _ _ _ _ _ _ _ HL Hne Hk) as (a & L' & HL' & Ha & Hup). exists (logOf L').
    split; [rewrite HL'; by constructor|]. exists L'. split; [done|]. by apply Hup.
  - exists (logOf L). split; [constructor|]. exists L. split; [done|].
    destruct HL as (HL & Ho & HF & _ & _ & _ & L0 & st & rs & f & E & Hcur & Hf & _).
    assert (d' = d) as ->; [|by apply files_down].
    unfold WClose in Hk. rewrite Hcur in Hk. destruct (syncOk io); cbn [negb] in Hk; injection Hk as <- <- <-; [|done].
    cbn. rewrite Hf. apply insert_id. rewrite E in HF. apply Forall_app in HF as [_ HF].
    inversion HF as [|? ? (b & Hb & _) _]; subst. cbn in Hb. rewrite Hf in Hb. injection Hb as ->.
    rewrite Hf. unfold content. cbn. by rewrite app_nil_r.
  - exists (logOf L). split; [rewrite <- (app_nil_r (logOf L)) at 2; by constructor|]. exists L. split; [done|].
    destruct HL as (HL & Ho & HF & _). apply files_down; [done|by eapply crash_only_segs|by eapply crash_seg_files].
Qed.

Lemma simulates_init size : simulates size (Down ∅) [].
Proof.
  exists []. split; [done|]. split_and!; [|intros p [? Hp]; by rewrite lookup_empty in Hp|by intros [|]].
  split_and!; [constructor|constructor|done|by intros [|]].
Qed.

Lemma wsteps_simulates size s ls s' log :
  0 < size -> wsteps size s ls s' -> simulates size s log ->
  exists log', lsteps log ls log' /\ simulates size s' log'.
Proof.
  intros Hsz H Hs. induction H as [s|s ls s1 l s2 H IH Hst]; [exists log; split; [constructor|done]|].
  destruct (IH Hs) as (log1 & H1 & H2). destruct (wstep_simulates _ _ _ _ _ Hsz Hst H2) as (log2 & H3 & H4).
  exists log2. split; [by econstructor|done].
Qed.

Lemma replayRecords_app {St} (fn : Record_ -> St -> St * option err) a b st :
  replayRecords fn (a ++ b) st =
  match replayRecords fn a st with (st, None) => replayRecords fn b st | (st, Some e) => (st, Some e) end.
Proof. revert st; induction a as [|r a IH]; intros st; cbn; [done|]. destruct (fn r st) as [st' [e|]]; [done|apply IH]. Qed.

Lemma replay_log {St} (fn : Record_ -> St -> St * option err) w d L st :
  up_ok w d L -> Replay fn ioUp w d st = replayRecords fn (logOf L) st.
Proof.
  intros (_ & _ & HF & Hsegs & _). unfold Replay. rewrite Hsegs. clear Hsegs.
  revert st; induction HF as [|x L (b & Hb & He) HF IH]; intros st; [done|].
  change (x :: L) with ([x] ++ L). rewrite logOf_app, logOf_single, replayRecords_app. cbn [replaySegs fmap list_fmap app]. unfold replaySegment. cbn [path segOf]. rewrite Hb.
  cbn [openOk ioUp]. unfold content. cbn [durable cached]. rewrite app_nil_r, (exact_records_eq _ _ He). destruct (replayRecords fn x.2 st) as [st' [e|]]; [done|apply IH].
Qed.

(** With the file system up, opening succeeds. *)
Lemma scanAll_total d todo done_ seq :
  Forall (fun s => is_Some (d !! path s)) todo -> exists d' ss n, scanAll ioUp d todo done_ seq = (d', Ok (ss, n)) /\
    (forall p, is_Some (d !! p) -> is_Some (d' !! p)) /\ exists ss', ss = done_ ++ ss' /\ path <$> ss' = path <$> todo.
Proof.
  revert d done_ seq; induction todo as [|s todo IH]; intros d done_ seq HF.
  { exists d, done_, seq. split_and!; [done|done|]. exists []. by rewrite app_nil_r. }
  inversion HF as [|? ? [f Hf] HF']; subst. cbn -[scanSegment].
  assert (Hs : exists d1 n mx, scanSegment ioUp d (path s) (bool_decide (todo = [])) = (d1, Ok (n, mx)) /\
    forall p, is_Some (d !! p) -> is_Some (d1 !! p)).
  { unfold scanSegment. rewrite Hf. cbn [negb openOk statOk truncOk ioUp]. destruct (_ && _ && _); [|by eauto].
    do 3 eexists. split; [done|]. intros p Hp. destruct (decide (p = path s)) as [->|]; [by rewrite lookup_insert_eq|by rewrite lookup_insert_ne]. }
  destruct Hs as (d1 & n & mx & -> & Hd1).
  edestruct (IH d1) as (d' & ss & n' & -> & Hd' & ss' & -> & Hp); [by eapply Forall_impl; [done|]; eauto|].
  do 3 eexists. split; [done|]. split; [by eauto|]. exists (MkSeg (path s) (startSeq s) mx :: ss').
  split; [by rewrite <- app_assoc|]. cbn. by rewrite Hp.
Qed.

Lemma open_total size d L : down_ok d L -> exists d' w, Open ioUp size d = (d', Ok w).
Proof.
  intros HD. pose proof HD as (HL & Ho & _). unfold Open.
  rewrite (dir_names d L) by (done || by apply down_files). rewrite loadSegs_names by apply HL.
  edestruct (scanAll_total d) as (d' & ss & n & -> & Hd' & ss' & -> & Hp).
  { apply Forall_fmap. exact (down_files d L HD). }
  cbn [app]. destruct (last ss') as [s|] eqn:El; [|by eauto].
  assert (Hin : path s ∈ segName ∘ fst <$> L).
  { assert (E : path <$> ss' = segName ∘ fst <$> L) by (rewrite Hp, <- list_fmap_compose; done).
    rewrite <- E. apply list_elem_of_fmap. exists s. split; [done|]. by apply last_Some_elem_of. }
  apply list_elem_of_fmap in Hin as (x & -> & Hx). pose proof (down_files d L HD) as HF. rewrite Forall_forall in HF.
  destruct (Hd' _ (HF x Hx)) as [f Hf]. cbn in Hf |- *. rewrite Hf. eauto.
Qed.


(** ** Evaluated histories *)

Definition sampleRec (id : Z) : Record_ := MkRec 0 OpWrite 7 0 0 id 3 0 3.

(** A crash after which every byte handed to the kernel is found on disk. *)
Definition settle (d : wdir) : wdir := (fun f => MkFile (content f) []) <$> d.

Lemma crash_settle d : crash d (settle d).
Proof.
  intros p. unfold settle. rewrite lookup_fmap. destruct (d !! p) as [f|]; [|done]. exists (cached f). split_and!; done.
Qed.

(** Open, append, restart after a second append tore. *)
Definition walA : wdir * result WAL := Open ioUp 60 ∅.
Definition walA_w : WAL := ok_or (MkWAL 0 0 [] None 0) walA.2.
Definition walB : WAL * wdir * result Z := Append ioUp walA_w walA.1 (sampleRec 1).
Definition ioTorn : walIO := MkIO (fun _ => true) true true true true (fun _ => true) (Some 20%nat) true.
Definition walC : WAL * wdir * result Z := Append ioTorn walB.1.1 walB.1.2 (sampleRec 2).


(** The records [Replay] delivers. *)
Definition replayed (w : WAL) (d : wdir) : list Record_ :=
  (Replay (fun r l => (l ++ [r], None)) ioUp w d []).1.

(** A short write is not undone.  After an append that failed part way, a
    later append in the same process reports success, and neither [Replay] nor
    reopening the log yields its record: it lies behind the torn frame. *)
Theorem append_after_torn_lost :
  let '(w, d, r) := Append ioUp walC.1.1 walC.1.2 (sampleRec 3) in
  r = Ok 3 /\ replayed w d = [withSeq (sampleRec 1) 1] /\
  match Open ioUp 60 (settle d) with
  | (d', Ok w') => replayed w' d' = [withSeq (sampleRec 1) 1]
  | _ => False
  end.
Proof. vm_compute. done. Qed.

(** Run a list of calls on a log, keeping the last state. *)
Definition reopen (size : Z) (s : WAL * wdir) : WAL * wdir :=
  match Open ioUp size (settle s.2) with (d, Ok w) => (w, d) | (d, Err _) => (s.1, d) end.
Definition append (io : walIO) (id : Z) (s : WAL * wdir) : WAL * wdir := (Append io s.1 s.2 (sampleRec id)).1.
Definition checkpointAll (s : WAL * wdir) : WAL * wdir := (Checkpoint ioUp s.1 s.2 (LastSeq s.1)).1.
Definition ioFull : walIO := MkIO (fun _ => true) true true true true (fun _ => true) (Some 0%nat) true.

(** Sequence numbers restart.  A roll whose first record cannot be written
    leaves an empty segment; the recovery checkpoint then deletes every other
    segment, the next open finds no record and numbers from 1 again, and the
    log rolls to a segment that sorts before its predecessor: two acknowledged
    records are replayed in the wrong order. *)
Theorem checkpoint_of_empty_segment_reorders :
  let s0 := reopen 40 (MkWAL 0 0 [] None 0, ∅) in
  let s1 := append ioFull 3 (append ioUp 2 (append ioUp 1 s0)) in
  let s2 := reopen 40 (checkpointAll (reopen 40 s1)) in
  let s3 := append ioUp 5 (append ioUp 4 s2) in
  LastSeq s1.1 = 3 /\ LastSeq s2.1 = 0 /\
  replayed s3.1 s3.2 = [withSeq (sampleRec 4) 1; withSeq (sampleRec 5) 2] /\
  (let s4 := reopen 40 s3 in replayed s4.1 s4.2 = [withSeq (sampleRec 5) 2; withSeq (sampleRec 4) 1]).
Proof. vm_compute. done. Qed.
