(* ===== verification/Overlay.v ===== *)
(** Slice overlay resolution (mlfs/internal/fileio/fileio.go: [resolve],
    [subtract], [addCovered]).

    A chunk of a file is a history of slices, in write order; a read window is
    resolved into non-overlapping segments, newest slice first, holes where no
    slice reaches.  [resolve_correct] is the equivalence with the definition a
    reader has in mind: each byte of the window comes from the last slice
    written over it, and from nowhere else.

    Positions are uint32: sums wrap, and the theorem's hypothesis is that the
    slices of a chunk end below 2^32, which every slice of a 64 MiB chunk does. *)

From stdpp Require Import sorting.
From S2P Require Import Prelude.

Definition u32 (z : Z) : Z := z mod 2 ^ 32.

(** [meta.SliceRef]: at chunk position [Pos], the bytes [Off, Off+Len) of the
    stored slice [Id]. *)
Record SliceRef := MkSlice { Pos : Z; Id : Z; sSize : Z; Off : Z; Len : Z }.

#[global] Instance SliceRef_eq_dec : EqDecision SliceRef.
Proof. solve_decision. Defined.

(** A resolved piece of the window; [sid = 0] is a hole. *)
Record seg := MkSegm { sstart : Z; send : Z; sid : Z; srcOff : Z }.

Abbreviation iv := (Z * Z)%type.

(** [sort.Slice] by left end. *)
#[global] Instance iv_le_dec : RelDecision (fun a b : iv => a.1 <= b.1).
Proof. intros a b. apply _. Defined.

#[global] Instance seg_le_dec : RelDecision (fun a b : seg => sstart a <= sstart b).
Proof. intros a b. apply _. Defined.

(** The loop of [subtract], at cursor [cur]. *)
Fixpoint subtractFrom (cur b : Z) (covered : list iv) : list iv :=
  match covered with
  | [] => if cur <? b then [(cur, b)] else []
  | c :: cs =>
      if (c.2 <=? cur) || (b <=? c.1) then subtractFrom cur b cs
      else
        let res := if cur <? c.1 then [(cur, Z.min c.1 b)] else [] in
        let cur := if cur <? c.2 then c.2 else cur in
        if b <=? cur then res else res ++ subtractFrom cur b cs
  end.

Definition subtract (a b : Z) (covered : list iv) : list iv := subtractFrom a b covered.

(** One round of the merge loop of [addCovered]. *)
Definition mergeStep (merged : list iv) (c : iv) : list iv :=
  match last merged with
  | Some m => if c.1 <=? m.2 then
                if m.2 <? c.2 then take (length merged - 1) merged ++ [(m.1, c.2)] else merged
              else merged ++ [c]
  | None => merged ++ [c]
  end.

Definition addCovered (covered : list iv) (a b : Z) : list iv :=
  foldl mergeStep [] (merge_sort (fun a b : iv => a.1 <= b.1) (covered ++ [(a, b)])).

(** One slice: its uncovered parts become segments. *)
Definition overlayStep (lo hi : Z) (st : list seg * list iv) (s : SliceRef) : list seg * list iv :=
  let a := if Pos s <? lo then lo else Pos s in
  let b := if hi <? u32 (Pos s + Len s) then hi else u32 (Pos s + Len s) in
  if b <=? a then st
  else foldl (fun '(out, covered) g =>
                (out ++ [MkSegm g.1 g.2 (Id s) (u32 (Off s + u32 (g.1 - Pos s)))], addCovered covered g.1 g.2))
             st (subtract a b st.2).

Definition resolve (slices : list SliceRef) (lo hi : Z) : list seg :=
  if hi <=? lo then []
  else
    let '(out, covered) := foldl (overlayStep lo hi) ([], []) (reverse slices) in
    let out := out ++ ((fun g => MkSegm g.1 g.2 0 0) <$> subtract lo hi covered) in
    merge_sort (fun a b : seg => sstart a <= sstart b) out.

(** ** The reference *)

Definition covers (s : SliceRef) (x : Z) : bool := (Pos s <=? x) && (x <? Pos s + Len s).

(** The last slice written over [x]. *)
Definition winner (slices : list SliceRef) (x : Z) : option SliceRef :=
  find (fun s => covers s x) (reverse slices).

Definition slice_ok (s : SliceRef) : Prop :=
  0 <= Pos s /\ 0 <= Len s /\ Pos s + Len s < 2 ^ 32 /\ 0 <= Off s /\ Off s + Len s < 2 ^ 32.

(** [l] tiles [lo, hi) with non-empty pieces, in order. *)
Fixpoint tiles (lo hi : Z) (l : list seg) : Prop :=
  match l with
  | [] => lo = hi
  | s :: l => sstart s = lo /\ lo < send s /\ tiles (send s) hi l
  end.

(** A piece agrees with the reference on every byte. *)
Definition agrees (slices : list SliceRef) (g : seg) : Prop :=
  forall x, sstart g <= x < send g ->
    match winner slices x with
    | Some s => sid g = Id s /\ srcOff g + (x - sstart g) = Off s + (x - Pos s)
    | None => sid g = 0
    end.

(** ** Interval lists *)

Definition inIv (x : Z) (c : iv) : bool := (c.1 <=? x) && (x <? c.2).

(** How many intervals contain [x]. *)
Definition cnt (x : Z) (l : list iv) : nat := length (filter (fun c => inIv x c = true) l).

#[local] Arguments cnt : simpl never.

Fixpoint wfFrom (n : Z) (l : list iv) : Prop :=
  match l with
  | [] => True
  | c :: l => n <= c.1 /\ c.1 < c.2 /\ wfFrom c.2 l
  end.

Lemma inIv_spec x c : inIv x c = true <-> c.1 <= x < c.2.
Proof. unfold inIv. rewrite andb_true_iff, Z.leb_le, Z.ltb_lt. done. Qed.

Lemma cnt_nil x : cnt x [] = 0%nat.
Proof. done. Qed.

Lemma cnt_cons x c l : cnt x (c :: l) = ((if inIv x c then 1 else 0) + cnt x l)%nat.
Proof. unfold cnt. rewrite filter_cons. destruct (inIv x c); repeat case_decide; done. Qed.

Lemma cnt_pos x l : (0 < cnt x l)%nat <-> exists c, c ∈ l /\ inIv x c = true.
Proof.
  induction l as [|c l IH]; [rewrite cnt_nil; split; [lia|]; intros (c & Hc & _); by apply not_elem_of_nil in Hc|].
  rewrite cnt_cons. destruct (inIv x c) eqn:E.
  - split; [intros _; exists c; split; [by left|done]|lia].
  - cbn [Nat.add]. rewrite IH. split.
    + intros (d & Hd & ?). exists d. split; [by right|done].
    + intros (d & [->|Hd]%elem_of_cons & ?); [congruence|eauto].
Qed.

Lemma cnt_app x l k : cnt x (l ++ k) = (cnt x l + cnt x k)%nat.
Proof. unfold cnt. by rewrite filter_app, length_app. Qed.

Lemma cnt_perm x l k : l ≡ₚ k -> cnt x l = cnt x k.
Proof. unfold cnt. by intros ->. Qed.

Lemma wfFrom_cnt n l x : wfFrom n l -> (cnt x l <= 1)%nat /\ (x < n -> cnt x l = 0%nat).
Proof.
  revert n; induction l as [|c l IH]; intros n; [rewrite cnt_nil; lia|]. intros (H1 & H2 & H3). rewrite cnt_cons.
  destruct (IH _ H3) as [H4 H5]. destruct (inIv x c) eqn:E.
  - apply inIv_spec in E. rewrite H5 by lia. lia.
  - split; [lia|]. intros. rewrite H5 by lia. lia.
Qed.

Lemma wfFrom_mono n m l : m <= n -> wfFrom n l -> wfFrom m l.
Proof. destruct l; cbn; [done|]. intros ? (? & ? & ?). split_and!; [lia|done|done]. Qed.

(** Non-empty intervals sorted by left end that never overlap. *)
Lemma sorted_wf n l :
  StronglySorted (fun a b : iv => a.1 <= b.1) l -> Forall (fun c => n <= c.1 /\ c.1 < c.2) l ->
  (forall x, (cnt x l <= 1)%nat) -> wfFrom n l.
Proof.
  intros Hs. revert n; induction Hs as [|c l Hs IH HF]; intros n Hn Hc; [done|]. inversion Hn as [|? ? [? ?] Hn']; subst.
  cbn. split_and!; [done|done|]. apply IH.
  - apply Forall_forall. intros d Hd. rewrite Forall_forall in HF, Hn'. specialize (HF d Hd). destruct (Hn' d Hd). split; [|done].
    destruct (Z.le_gt_cases c.2 d.1); [done|]. exfalso. specialize (Hc d.1).
    apply list_elem_of_split in Hd as (l1 & l2 & ->). rewrite cnt_cons, cnt_app, cnt_cons in Hc.
    rewrite (proj2 (inIv_spec d.1 c)), (proj2 (inIv_spec d.1 d)) in Hc by lia. lia.
  - intros x. specialize (Hc x). rewrite cnt_cons in Hc. lia.
Qed.

Lemma subtractFrom_spec cur b cov n :
  wfFrom n cov ->
  (forall x, cnt x (subtractFrom cur b cov) = if (cur <=? x) && (x <? b) then (1 - cnt x cov)%nat else 0%nat) /\
  wfFrom cur (subtractFrom cur b cov).
Proof.
  revert cur n; induction cov as [|c cov IH]; intros cur n; cbn [wfFrom subtractFrom].
  - intros _. split.
    + intros x. destruct (Z.ltb_spec cur b); rewrite ?cnt_cons, ?cnt_nil; unfold inIv; cbn [fst snd];
        destruct (Z.leb_spec cur x), (Z.ltb_spec x b); cbn; lia.
    + destruct (Z.ltb_spec cur b); cbn; lia.
  - intros (H1 & H2 & H3).
    assert (Hlt : forall x, x < c.2 -> cnt x cov = 0%nat) by (intros x; apply (wfFrom_cnt _ _ x H3)).
    destruct ((c.2 <=? cur) || (b <=? c.1)) eqn:E;
      [apply orb_true_iff in E; rewrite !Z.leb_le in E|apply orb_false_iff in E; rewrite !Z.leb_gt in E].
    + destruct (IH cur _ H3) as [HI1 HI2]. split; [|done]. intros x. rewrite HI1, cnt_cons. unfold inIv.
      destruct (Z.leb_spec cur x), (Z.ltb_spec x b), (Z.leb_spec c.1 x), (Z.ltb_spec x c.2); cbn; lia.
    + assert (Hmax : (if cur <? c.2 then c.2 else cur) = c.2) by (destruct (Z.ltb_spec cur c.2); lia). rewrite Hmax.
      destruct (IH c.2 _ H3) as [HI1 HI2]. split.
      * intros x. rewrite cnt_cons.
        assert (Hres : cnt x (if cur <? c.1 then [(cur, Z.min c.1 b)] else []) =
          if (cur <=? x) && (x <? b) && (x <? c.1) then 1%nat else 0%nat).
        { destruct (Z.ltb_spec cur c.1); rewrite ?cnt_cons, ?cnt_nil; unfold inIv; cbn [fst snd];
            destruct (Z.leb_spec cur x), (Z.ltb_spec x b), (Z.ltb_spec x c.1), (Z.ltb_spec x (Z.min c.1 b)); cbn; lia. }
        destruct (Z.leb_spec b c.2).
        -- rewrite Hres. unfold inIv. destruct (Z.leb_spec cur x), (Z.ltb_spec x b), (Z.ltb_spec x c.1), (Z.leb_spec c.1 x), (Z.ltb_spec x c.2);
             cbn; try lia. rewrite Hlt by lia. done.
        -- rewrite cnt_app, Hres, HI1. unfold inIv.
           destruct (Z.leb_spec cur x), (Z.ltb_spec x b), (Z.ltb_spec x c.1), (Z.leb_spec c.1 x), (Z.ltb_spec x c.2), (Z.leb_spec c.2 x);
             cbn; try lia; rewrite ?Hlt by lia; cbn; lia.
      * destruct (Z.leb_spec b c.2); destruct (Z.ltb_spec cur c.1); cbn; try split_and!; try lia; try done.
        all: eapply wfFrom_mono; [|done]; lia.
Qed.

Lemma wfFrom_app n l k : wfFrom n (l ++ k) -> wfFrom n l /\ exists m, n <= m /\ wfFrom m k.
Proof.
  revert n; induction l as [|c l IH]; intros n; cbn; [intros H; split; [done|]; exists n; split; [lia|done]|].
  intros (H1 & H2 & H3). destruct (IH _ H3) as (H4 & m & H5 & H6). split_and!; try done. exists m. split; [lia|done].
Qed.

(** Growing an interval up to the next one. *)
Lemma wfFrom_grow n l c b k : wfFrom n (l ++ c :: (c.2, b) :: k) -> wfFrom n (l ++ (c.1, b) :: k).
Proof.
  revert n; induction l as [|d l IH]; intros n; cbn.
  - intros (H1 & H2 & _ & H4 & H5). split_and!; [done|lia|done].
  - intros (H1 & H2 & H3). split_and!; [done|done|]. by apply IH.
Qed.

Lemma mergeStep_spec n M c l :
  wfFrom n (M ++ c :: l) ->
  wfFrom n (mergeStep M c ++ l) /\ forall x, cnt x (mergeStep M c ++ l) = cnt x (M ++ c :: l).
Proof.
  intros H. unfold mergeStep. destruct (last M) as [m|] eqn:E.
  2: { apply last_None in E as ->. done. }
  apply last_Some in E as (M' & ->). rewrite <- app_assoc in H. cbn in H.
  pose proof (wfFrom_app n M' (m :: c :: l) H) as (_ & k & _ & _ & Hm & Hc & Hc2 & _).
  destruct (Z.leb_spec c.1 m.2).
  - assert (Hcm : c = (m.2, c.2)) by (destruct c; cbn in *; f_equal; lia).
    destruct (Z.ltb_spec m.2 c.2); [|lia].
    replace (take (length (M' ++ [m]) - 1) (M' ++ [m])) with M' by (rewrite length_app; cbn;
      replace (length M' + 1 - 1)%nat with (length M') by lia; by rewrite take_app_length).
    rewrite <- !app_assoc. cbn. rewrite Hcm in H. split; [by apply wfFrom_grow|].
    intros x. rewrite !cnt_app, !cnt_cons. unfold inIv. cbn [fst snd].
    destruct (Z.leb_spec m.1 x), (Z.ltb_spec x c.2), (Z.leb_spec c.1 x), (Z.ltb_spec x m.2); cbn; lia.
  - rewrite <- !app_assoc. done.
Qed.

Lemma merge_spec n M l :
  wfFrom n (M ++ l) -> wfFrom n (foldl mergeStep M l) /\ forall x, cnt x (foldl mergeStep M l) = cnt x (M ++ l).
Proof.
  revert M; induction l as [|c l IH]; intros M H; cbn [foldl]; [by rewrite app_nil_r in *|].
  destruct (mergeStep_spec _ _ _ _ H) as [H1 H2]. destruct (IH _ H1) as [H3 H4]. split; [done|].
  intros x. by rewrite H4, H2.
Qed.

#[local] Instance iv_le_total : Total (fun a b : iv => a.1 <= b.1).
Proof. intros a b. lia. Qed.
#[local] Instance iv_le_trans : Transitive (fun a b : iv => a.1 <= b.1).
Proof. intros a b c. lia. Qed.
#[local] Instance seg_le_total : Total (fun a b : seg => sstart a <= sstart b).
Proof. intros a b. lia. Qed.
#[local] Instance seg_le_trans : Transitive (fun a b : seg => sstart a <= sstart b).
Proof. intros a b c. lia. Qed.

Lemma wfFrom_Forall n l : wfFrom n l -> Forall (fun c => n <= c.1 /\ c.1 < c.2) l.
Proof.
  revert n; induction l as [|c l IH]; intros n; [constructor|]. intros (H1 & H2 & H3). constructor; [done|].
  eapply Forall_impl; [by apply IH|]. cbn. lia.
Qed.

Lemma addCovered_spec n cov a b :
  wfFrom n cov -> n <= a -> a < b -> (forall x, a <= x < b -> cnt x cov = 0%nat) ->
  wfFrom n (addCovered cov a b) /\ forall x, cnt x (addCovered cov a b) = cnt x ((a, b) :: cov).
Proof.
  intros Hw Ha Hab Hd. unfold addCovered. set (l := merge_sort _ _).
  assert (Hp : l ≡ₚ (a, b) :: cov) by (unfold l; rewrite merge_sort_Permutation; by rewrite Permutation_app_comm).
  assert (Hl : wfFrom n l).
  { apply sorted_wf.
    - apply (StronglySorted_merge_sort (fun a b : iv => a.1 <= b.1)).
    - rewrite Hp. constructor; [cbn; lia|]. by apply wfFrom_Forall.
    - intros x. rewrite (cnt_perm x _ _ Hp), cnt_cons. destruct (inIv x (a, b)) eqn:E.
      + apply inIv_spec in E. rewrite Hd by done. done.
      + apply (wfFrom_cnt n cov x Hw). }
  destruct (merge_spec n [] l Hl) as [H1 H2]. split; [done|]. intros x. rewrite H2. cbn. by apply cnt_perm.
Qed.

(** ** The overlay loop *)

Definition ivOf (g : seg) : iv := (sstart g, send g).

(** All gaps of one slice. *)
Lemma gaps_spec lo s gaps out cov n :
  wfFrom lo cov -> wfFrom n gaps -> lo <= n -> (forall x, (cnt x cov + cnt x gaps <= 1)%nat) ->
  exists cov', foldl (fun '(out, covered) g =>
      (out ++ [MkSegm g.1 g.2 (Id s) (u32 (Off s + u32 (g.1 - Pos s)))], addCovered covered g.1 g.2)) (out, cov) gaps =
    (out ++ ((fun g => MkSegm g.1 g.2 (Id s) (u32 (Off s + u32 (g.1 - Pos s)))) <$> gaps), cov') /\
    wfFrom lo cov' /\ forall x, cnt x cov' = (cnt x cov + cnt x gaps)%nat.
Proof.
  revert out cov n; induction gaps as [|g gaps IH]; intros out cov n Hw Hg Hn Hd.
  { exists cov. cbn. rewrite app_nil_r. split_and!; [done|done|]. intros. rewrite cnt_nil. lia. }
  destruct Hg as (H1 & H2 & H3).
  assert (Hdis : forall x, g.1 <= x < g.2 -> cnt x cov = 0%nat).
  { intros x Hx. specialize (Hd x). rewrite cnt_cons, (proj2 (inIv_spec x g)) in Hd by done. lia. }
  destruct (addCovered_spec lo cov g.1 g.2 Hw ltac:(lia) H2 Hdis) as [H4 H5].
  assert (H6 : forall x, cnt x (addCovered cov g.1 g.2) = cnt x (g :: cov)) by (intros x; rewrite H5; by destruct g).
  destruct (IH (out ++ [MkSegm g.1 g.2 (Id s) (u32 (Off s + u32 (g.1 - Pos s)))]) _ _ H4 H3 ltac:(lia)) as (cov' & E & H7 & H8).
  { intros x. specialize (Hd x). rewrite H6, !cnt_cons in *. lia. }
  exists cov'. split_and!; [|done|].
  - cbn [foldl]. rewrite E. cbn. by rewrite <- app_assoc.
  - intros x. rewrite H8, H6, !cnt_cons. lia.
Qed.

(** After the slices [ps] (newest first): what is covered, and by which pieces. *)
Definition overlay_inv (lo hi : Z) (ps : list SliceRef) (st : list seg * list iv) : Prop :=
  wfFrom lo st.2 /\
  (forall x, cnt x st.2 = if (lo <=? x) && (x <? hi) && bool_decide (is_Some (find (fun s => covers s x) ps)) then 1%nat else 0%nat) /\
  (forall x, cnt x (ivOf <$> st.1) = cnt x st.2) /\
  Forall (fun g => sstart g < send g /\
    forall x, sstart g <= x < send g -> exists s, find (fun s => covers s x) ps = Some s /\ sid g = Id s /\
      srcOff g + (x - sstart g) = Off s + (x - Pos s)) st.1.

Lemma find_snoc {A} (f : A -> bool) l s :
  find f (l ++ [s]) = match find f l with Some y => Some y | None => if f s then Some s else None end.
Proof. induction l as [|z l IH]; cbn; [done|]. destruct (f z); [done|apply IH]. Qed.

(** What a slice adds: its part of the window that is not covered yet. *)
Lemma clip_spec lo hi s x :
  slice_ok s -> 0 <= lo -> hi < 2 ^ 32 ->
  let a := if Pos s <? lo then lo else Pos s in
  let b := if hi <? u32 (Pos s + Len s) then hi else u32 (Pos s + Len s) in
  lo <= a /\ Pos s <= a /\ ((a <=? x) && (x <? b) = (lo <=? x) && (x <? hi) && covers s x).
Proof.
  intros (H1 & H2 & H3 & _) Hlo Hhi. unfold u32. rewrite Z.mod_small by lia. cbn zeta. unfold covers.
  destruct (Z.ltb_spec (Pos s) lo), (Z.ltb_spec hi (Pos s + Len s)); (split_and!; [lia|lia|]);
    destruct (Z.leb_spec lo x), (Z.ltb_spec x hi), (Z.leb_spec (Pos s) x), (Z.ltb_spec x (Pos s + Len s)); cbn; lia.
Qed.

Lemma overlayStep_inv lo hi ps st s :
  slice_ok s -> 0 <= lo -> hi < 2 ^ 32 ->
  overlay_inv lo hi ps st -> overlay_inv lo hi (ps ++ [s]) (overlayStep lo hi st s).
Proof.
  intros Hs Hlo Hhi (Hw & Hc & Ho & HF). destruct st as [out cov]. cbn [fst snd] in *.
  unfold overlayStep. set (a := if Pos s <? lo then lo else Pos s).
  set (b := if hi <? u32 (Pos s + Len s) then hi else u32 (Pos s + Len s)).
  assert (Hclip := fun x => clip_spec lo hi s x Hs Hlo Hhi). cbn zeta in Hclip. fold a b in Hclip. clearbody b a.
  destruct (Hclip 0) as (Ha1 & Ha2 & _). assert (Hclip' := fun x => proj2 (proj2 (Hclip x))). clear Hclip.
  assert (Hext : Forall (fun g => sstart g < send g /\ forall x, sstart g <= x < send g -> exists s0,
      find (fun s => covers s x) (ps ++ [s]) = Some s0 /\ sid g = Id s0 /\ srcOff g + (x - sstart g) = Off s0 + (x - Pos s0)) out).
  { eapply Forall_impl; [done|]. intros g [Hg1 Hg2]. split; [done|]. intros x Hx. destruct (Hg2 x Hx) as (s0 & Hf & Hs0).
    exists s0. by rewrite find_snoc, Hf. }
  assert (Hgaps := subtractFrom_spec a b cov lo Hw). destruct Hgaps as [Hg1 Hg2]. fold (subtract a b cov) in Hg1, Hg2.
  assert (Hcov : forall x, (cnt x cov + cnt x (subtract a b cov))%nat =
    if (lo <=? x) && (x <? hi) && bool_decide (is_Some (find (fun s => covers s x) (ps ++ [s]))) then 1%nat else 0%nat).
  { intros x. rewrite Hg1, Hclip', Hc, find_snoc. destruct ((lo <=? x) && (x <? hi)); cbn [andb]; [|done].
    destruct (find _ ps); [by destruct (covers s x)|]. by destruct (covers s x). }
  destruct (Z.leb_spec b a).
  { split_and!; [done| |done|done]. intros x. cbn [snd]. rewrite <- Hcov, Hg1.
    destruct (Z.leb_spec a x), (Z.ltb_spec x b); cbn [andb]; lia. }
  cbn [snd]. destruct (gaps_spec lo s (subtract a b cov) out cov a Hw Hg2 Ha1) as (cov' & -> & Hw' & Hc').
  { intros x. rewrite Hcov. destruct (_ && _); lia. }
  split_and!; cbn [fst snd].
  - done.
  - intros x. by rewrite Hc', Hcov.
  - intros x. rewrite fmap_app, cnt_app, Ho, Hc', <- list_fmap_compose. f_equal. f_equal.
    rewrite <- (list_fmap_id (subtract a b cov)) at 2. apply list_fmap_ext. by intros ? [] _.
  - apply Forall_app. split; [done|]. apply Forall_fmap, Forall_forall. intros g Hg. cbn.
    pose proof (wfFrom_Forall _ _ Hg2) as HF2. rewrite Forall_forall in HF2. destruct (HF2 g Hg) as [? ?]. split; [done|].
    intros x Hx. exists s. assert (Hx1 : (1 <= cnt x (subtract a b cov))%nat).
    { apply cnt_pos. exists g. split; [done|]. by apply inIv_spec. }
    assert (Hin : (lo <=? x) && (x <? hi) && covers s x = true).
    { rewrite <- Hclip'. rewrite Hg1 in Hx1. by destruct ((a <=? x) && (x <? b)); [|lia]. }
    assert (Hn : find (fun s => covers s x) ps = None).
    { rewrite Hg1, Hclip', Hin, Hc in Hx1. apply andb_prop in Hin as [Hin _]. rewrite Hin in Hx1.
      destruct (find _ ps); [|done]. cbn in Hx1. lia. }
    apply andb_prop in Hin as [_ Hin]. rewrite find_snoc, Hn, Hin. split_and!; [done|done|].
    unfold covers in Hin. apply andb_prop in Hin as [?%Z.leb_le ?%Z.ltb_lt]. destruct Hs as (? & ? & ? & ? & ?).
    unfold u32. rewrite (Z.mod_small (g.1 - Pos s)), Z.mod_small by lia. lia.
Qed.

Lemma overlay_loop lo hi l ps st :
  Forall slice_ok l -> 0 <= lo -> hi < 2 ^ 32 ->
  overlay_inv lo hi ps st -> overlay_inv lo hi (ps ++ l) (foldl (overlayStep lo hi) st l).
Proof.
  intros HF Hlo Hhi. revert ps st; induction HF as [|s l Hs HF IH]; intros ps st H; cbn [foldl]; [by rewrite app_nil_r|].
  replace (ps ++ s :: l) with ((ps ++ [s]) ++ l) by (by rewrite <- app_assoc). by apply IH, overlayStep_inv.
Qed.

(** Sorted pieces that contain each point of the window once tile it. *)
Lemma sorted_tiles lo hi l :
  StronglySorted (fun a b : seg => sstart a <= sstart b) l -> Forall (fun g => sstart g < send g) l -> lo <= hi ->
  (forall x, cnt x (ivOf <$> l) = if (lo <=? x) && (x <? hi) then 1%nat else 0%nat) -> tiles lo hi l.
Proof.
  intros Hs. revert lo; induction Hs as [|g l Hs IH HF]; intros lo Hn Hlh Hc.
  { cbn. specialize (Hc lo). rewrite cnt_nil in Hc. destruct (Z.leb_spec lo lo), (Z.ltb_spec lo hi); cbn in Hc; lia. }
  inversion Hn as [|? ? Hg Hn']; subst. assert (Hc' : forall x, ((if inIv x (ivOf g) then 1 else 0) + cnt x (ivOf <$> l))%nat =
    if (lo <=? x) && (x <? hi) then 1%nat else 0%nat) by (intros x; rewrite <- Hc, fmap_cons, cnt_cons; done).
  assert (Hin : forall x, inIv x (ivOf g) = true -> lo <= x < hi).
  { intros x Hx. specialize (Hc' x). rewrite Hx in Hc'. destruct (Z.leb_spec lo x), (Z.ltb_spec x hi); cbn in Hc'; lia. }
  assert (Hs1 : lo <= sstart g < hi) by (apply Hin, inIv_spec; cbn; lia).
  assert (Hs2 : send g - 1 < hi) by (apply (Hin (send g - 1)), inIv_spec; cbn; lia).
  assert (Hlo : sstart g = lo).
  { destruct (decide (sstart g = lo)) as [|Hne]; [done|exfalso]. specialize (Hc' lo).
    destruct (inIv lo (ivOf g)) eqn:E; [apply inIv_spec in E; cbn in E; lia|].
    destruct (Z.leb_spec lo lo), (Z.ltb_spec lo hi); cbn [andb] in Hc'; try lia.
    assert (Hex : exists y, y ∈ l /\ sstart y <= lo).
    { destruct (proj1 (cnt_pos lo (ivOf <$> l))) as (c & Hy & Hy1); [lia|]. apply list_elem_of_fmap in Hy as (z & -> & Hz).
      apply inIv_spec in Hy1. exists z. split; [done|]. cbn in Hy1. lia. }
    destruct Hex as (y & Hy & ?). rewrite Forall_forall in HF. specialize (HF y Hy). cbn in HF. lia. }
  cbn. split_and!; [done|lia|]. apply IH; [done|lia|]. intros x. specialize (Hc' x).
  destruct (inIv x (ivOf g)) eqn:E.
  - apply inIv_spec in E. cbn in E. destruct (Z.leb_spec lo x), (Z.ltb_spec x hi), (Z.leb_spec (send g) x); cbn in *; lia.
  - assert (~ (sstart g <= x < send g)).
    { intros H. rewrite (proj2 (inIv_spec x (ivOf g))) in E by (cbn; lia). done. }
    destruct (Z.leb_spec lo x), (Z.ltb_spec x hi), (Z.leb_spec (send g) x); cbn in *; lia.
Qed.

Lemma resolve_spec slices lo hi :
  Forall slice_ok slices -> 0 <= lo -> lo <= hi -> hi < 2 ^ 32 ->
  tiles lo hi (resolve slices lo hi) /\ Forall (agrees slices) (resolve slices lo hi).
Proof.
  intros HF Hlo Hlh Hhi. unfold resolve. destruct (Z.leb_spec hi lo); [split; [cbn; lia|constructor]|].
  assert (Hinit : overlay_inv lo hi [] ([], [])).
  { split_and!; [done| |done|constructor]. intros x. cbn [find]. rewrite cnt_nil.
    rewrite bool_decide_false by (by intros []). by rewrite andb_false_r. }
  assert (HF' : Forall slice_ok (reverse slices)) by (by rewrite Forall_reverse).
  pose proof (overlay_loop lo hi _ _ _ HF' Hlo Hhi Hinit) as Hinv. cbn [app] in Hinv.
  destruct (foldl (overlayStep lo hi) ([], []) (reverse slices)) as [out cov]. destruct Hinv as (Hw & Hc & Ho & Hall). cbn [fst snd] in *.
  destruct (subtractFrom_spec lo hi cov lo Hw) as [Hg1 Hg2]. fold (subtract lo hi cov) in Hg1, Hg2.
  set (holes := (fun g : iv => MkSegm g.1 g.2 0 0) <$> subtract lo hi cov).
  assert (Hholes : ivOf <$> holes = subtract lo hi cov).
  { unfold holes. rewrite <- list_fmap_compose. rewrite <- (list_fmap_id (subtract lo hi cov)) at 2.
    apply list_fmap_ext. by intros ? [] _. }
  set (l := merge_sort _ _). assert (Hp : l ≡ₚ out ++ holes) by apply merge_sort_Permutation.
  assert (Hpos := wfFrom_Forall _ _ Hg2). split.
  - apply sorted_tiles; [apply (StronglySorted_merge_sort (fun a b : seg => sstart a <= sstart b))| |lia|].
    + rewrite Hp. apply Forall_app. split; [eapply Forall_impl; [done|]; naive_solver|].
      apply Forall_fmap. eapply Forall_impl; [done|]. cbn. naive_solver.
    + intros x. rewrite (cnt_perm x _ (ivOf <$> (out ++ holes))) by (by rewrite Hp).
      rewrite fmap_app, cnt_app, Ho, Hholes, Hg1, Hc. destruct ((lo <=? x) && (x <? hi)); cbn [andb]; [|done].
      by destruct (bool_decide _).
  - rewrite Hp. apply Forall_app. split.
    + eapply Forall_impl; [done|]. intros g [_ Hg] x Hx. destruct (Hg x Hx) as (s & Hf & Hs). unfold winner. by rewrite Hf.
    + apply Forall_fmap, Forall_forall. intros g Hg x Hx. cbn in Hx. unfold winner. cbn.
      assert (Hx1 : (1 <= cnt x (subtract lo hi cov))%nat).
      { apply cnt_pos. exists g. split; [done|]. by apply inIv_spec. }
      rewrite Hg1, Hc in Hx1. destruct ((lo <=? x) && (x <? hi)); cbn [andb] in Hx1; [|lia].
      destruct (find _ (reverse slices)) eqn:E; [|done]. rewrite bool_decide_true in Hx1 by done. lia.
Qed.

(** C27: overlay resolution equals last-writer-wins.  The segments of a window
    are non-empty, in order, and tile it exactly; every byte of every segment is
    read from the last slice written over that position, at that slice's
    offset for it, and a segment is a hole exactly where no slice was written. *)
Theorem resolve_correct slices lo hi :
  Forall slice_ok slices -> Forall (fun s => Id s <> 0) slices -> 0 <= lo -> lo <= hi -> hi < 2 ^ 32 ->
  tiles lo hi (resolve slices lo hi) /\
  forall g x, g ∈ resolve slices lo hi -> sstart g <= x < send g ->
    (sid g = 0 <-> winner slices x = None) /\
    forall s, winner slices x = Some s -> sid g = Id s /\ srcOff g + (x - sstart g) = Off s + (x - Pos s).
Proof.
  intros HF Hid Hlo Hlh Hhi. destruct (resolve_spec slices lo hi HF Hlo Hlh Hhi) as [H1 H2]. split; [done|].
  intros g x Hg Hx. rewrite Forall_forall in H2. specialize (H2 g Hg x Hx).
  destruct (winner slices x) as [s|] eqn:E; [|by split].
  split; [|by intros ? [= <-]]. split; [|done]. intros H0. exfalso. unfold winner in E. apply find_some in E as [E _].
  apply list_elem_of_In in E. rewrite elem_of_reverse in E. rewrite Forall_forall in Hid. apply (Hid s E). by destruct H2 as [<- _].
Qed.

(** Three overlapping writes and a window reaching past them. *)
Lemma resolve_correct_witness :
  resolve [MkSlice 0 1 10 0 10; MkSlice 4 2 3 0 3; MkSlice 5 3 8 2 4] 2 12 =
    [MkSegm 2 4 1 2; MkSegm 4 5 2 0; MkSegm 5 9 3 2; MkSegm 9 10 1 9; MkSegm 10 12 0 0] /\
  tiles 2 12 (resolve [MkSlice 0 1 10 0 10; MkSlice 4 2 3 0 3; MkSlice 5 3 8 2 4] 2 12).
Proof.
  split; [vm_compute; reflexivity|].
  apply (resolve_correct [MkSlice 0 1 10 0 10; MkSlice 4 2 3 0 3; MkSlice 5 3 8 2 4] 2 12); try lia.
  - repeat constructor; vm_compute; done.
  - repeat constructor; done.
Defined.
