(* ===== verification/MetaDb.v ===== *)
(** The mlfs metadata database (mlfs/internal/meta: types.go, schema.go,
    engine.go, fence.go, scope.go).

    The tables are finite maps, except [slice_ref], whose serial primary key is
    its order, a list.  A transaction is a function on the database that
    finishes or aborts with an errno; [withTx] runs it and rolls back on abort.
    What the server does is the [fate] of the call: it commits, fails at some
    statement (nothing is applied), or commits and loses the reply.

    Ownership: a lease row per scope with a [generation]; an engine that
    coordinates acquires the lease before the transaction and re-checks node
    and generation inside it ([acquireScope], [fenceInTx]).  The operations on
    leases, and what the fence buys, are in [Leases]. *)

From S2P Require Import Prelude GoStrings Decimal Overlay.

(** ** Types *)

Definition RootInode : Z := 1.
Definition ChunkSize : Z := Z.shiftl 1 26.

Definition TypeFile : Z := 1.
Definition TypeDirectory : Z := 2.
Definition TypeSymlink : Z := 3.

Inductive errno := ENOENT | EISDIR | ENOTDIR | EEXIST | ENOTEMPTY | EINVAL | EPERM | EACCES | EIO | ESTALE | ENOSYS | EAGAIN | ENODATA.

#[global] Instance errno_eq_dec : EqDecision errno.
Proof. solve_decision. Defined.

(** A [syscall.Errno]: [None] is 0. *)
Abbreviation status := (option errno).

Record Attr := MkAttr {
  Typ : Z; Mode : Z; Uid : Z; Gid : Z; Atime : Z; Mtime : Z; Ctime : Z;
  Atimensec : Z; Mtimensec : Z; Ctimensec : Z; Nlink : Z; Length : Z; Rdev : Z; Parent : Z;
  StoreClass : Z; ContentHash : string }.

#[global] Instance Attr_eq_dec : EqDecision Attr.
Proof. solve_decision. Defined.

Record Lease := MkLease { OwnerNode : string; ExpiresUnixMs : Z; Generation : Z }.

(** A [slice_ref] row; its [id] is its place in the table. *)
Record sliceRow := MkRow { srIno : Z; srIndx : Z; srRef : SliceRef }.

#[global] Instance sliceRow_eq_dec : EqDecision sliceRow.
Proof. solve_decision. Defined.

(** The changelog's op codes and payloads. *)
Inductive payload :=
| PNode (parent : Z) (name : string) (typ : Z)
| PName (parent : Z) (name : string)
| PSet (set : Z)
| PTruncate (size : Z)
| PWrite (indx off len : Z)
| PClone (src len : Z)
| PCloneRange (src srcIdx dstIdx n : Z)
| PRename (exchange : bool) (srcParent : Z) (srcName : string) (dstParent : Z) (dstName : string).

Inductive changeOp := opMknod | opMkdir | opUnlink | opRmdir | opRename | opSetattr | opWrite | opSymlink | opLink.

Record ChangeEntry := MkChange { ceIno : Z; ceOp : changeOp; cePayload : payload; ceTs : Z }.

Record db := MkDb {
  node : gmap Z Attr;
  edge : gmap (Z * string) (Z * Z);
  symlink : gmap Z string;
  slice_ref : list sliceRow;
  xattr : gmap (Z * string) string;
  ownership : gmap string Lease;
  fs_changelog : list ChangeEntry;
  nextinode : Z; nextslice : Z }.

Definition set_node (n : gmap Z Attr) (d : db) : db :=
  MkDb n (edge d) (symlink d) (slice_ref d) (xattr d) (ownership d) (fs_changelog d) (nextinode d) (nextslice d).
Definition set_edge (e : gmap (Z * string) (Z * Z)) (d : db) : db :=
  MkDb (node d) e (symlink d) (slice_ref d) (xattr d) (ownership d) (fs_changelog d) (nextinode d) (nextslice d).
Definition set_symlink (s : gmap Z string) (d : db) : db :=
  MkDb (node d) (edge d) s (slice_ref d) (xattr d) (ownership d) (fs_changelog d) (nextinode d) (nextslice d).
Definition set_slices (s : list sliceRow) (d : db) : db :=
  MkDb (node d) (edge d) (symlink d) s (xattr d) (ownership d) (fs_changelog d) (nextinode d) (nextslice d).
Definition set_xattr (x : gmap (Z * string) string) (d : db) : db :=
  MkDb (node d) (edge d) (symlink d) (slice_ref d) x (ownership d) (fs_changelog d) (nextinode d) (nextslice d).
Definition set_ownership (o : gmap string Lease) (d : db) : db :=
  MkDb (node d) (edge d) (symlink d) (slice_ref d) (xattr d) o (fs_changelog d) (nextinode d) (nextslice d).
Definition set_counters (i s : Z) (d : db) : db :=
  MkDb (node d) (edge d) (symlink d) (slice_ref d) (xattr d) (ownership d) (fs_changelog d) i s.

(** The clock reading of a call: seconds and nanoseconds. *)
Record instant := MkNow { tsec : Z; tnsec : Z }.

Definition unixNano (t : instant) : Z := tsec t * 10 ^ 9 + tnsec t.
Definition unixMilli (t : instant) : Z := tsec t * 1000 + tnsec t / 10 ^ 6.

Definition appendChangelog (t : instant) (ino : Z) (op : changeOp) (p : payload) (d : db) : db :=
  MkDb (node d) (edge d) (symlink d) (slice_ref d) (xattr d) (ownership d)
       (fs_changelog d ++ [MkChange ino op p (unixNano t)]) (nextinode d) (nextslice d).

(** ** Transactions *)

Inductive txr := TxOk (d : db) | TxAbort (e : errno) | TxSql.

Inductive fate := Commits | Fails | CommitLost.

(** [withTx] with the op-level mapping: an abort reports its errno, any other
    error is EIO. *)
Definition withTx (f : fate) (body : db -> txr) (d : db) : db * status :=
  match f with
  | Fails => (d, Some EIO)
  | _ => match body d with
         | TxSql => (d, Some EIO)
         | TxAbort e => (d, Some e)
         | TxOk d' => (d', match f with CommitLost => Some EIO | _ => None end)
         end
  end.

Lemma withTx_ok f body d d' : withTx f body d = (d', None) <-> f = Commits /\ body d = TxOk d'.
Proof. unfold withTx. destruct f, (body d); naive_solver. Qed.

(** A transaction leaves the database alone or applies its body. *)
Lemma withTx_cases f body d d' e : withTx f body d = (d', e) -> (d' = d /\ e <> None) \/ body d = TxOk d'.
Proof. unfold withTx. destruct f, (body d); intros [= <- <-]; auto. Qed.

(** ** The engine *)

(** The memory of an [Engine] and the database behind it. *)
Record engine := MkEngine {
  ePrefix : Z; inoNext : Z; inoEnd : Z; sliceNext : Z; sliceEnd : Z;
  openRefs : gmap Z Z; sustained : gset Z; scopeCache : gmap Z string; nodeID : string }.

Record meta := MkMeta { eng : engine; mdb : db }.

Definition set_db (d : db) (m : meta) : meta := MkMeta (eng m) d.
Definition set_inos (next end_ : Z) (e : engine) : engine :=
  MkEngine (ePrefix e) next end_ (sliceNext e) (sliceEnd e) (openRefs e) (sustained e) (scopeCache e) (nodeID e).
Definition set_sliceIds (next end_ : Z) (e : engine) : engine :=
  MkEngine (ePrefix e) (inoNext e) (inoEnd e) next end_ (openRefs e) (sustained e) (scopeCache e) (nodeID e).
Definition set_open (o : gmap Z Z) (s : gset Z) (e : engine) : engine :=
  MkEngine (ePrefix e) (inoNext e) (inoEnd e) (sliceNext e) (sliceEnd e) o s (scopeCache e) (nodeID e).
Definition set_cache (c : gmap Z string) (e : engine) : engine :=
  MkEngine (ePrefix e) (inoNext e) (inoEnd e) (sliceNext e) (sliceEnd e) (openRefs e) (sustained e) c (nodeID e).

(** [Open], then [SetCoordinator]: [session] is the random byte. *)
Definition OpenEngine (region session : Z) (n : string) : engine :=
  MkEngine (Z.lor (Z.shiftl region 8) session) 0 0 0 0 ∅ ∅ ∅ n.

(** [bootstrap] on an empty database. *)
Definition rootAttr (now : Z) : Attr :=
  MkAttr TypeDirectory 511 0 0 now now now 0 0 0 2 0 0 RootInode 0 "".
Definition bootstrap (t : instant) (d : db) : db :=
  MkDb (match node d !! RootInode with Some _ => node d | None => <[RootInode := rootAttr (tsec t)]> (node d) end)
       (edge d) (symlink d) (slice_ref d) (xattr d) (ownership d) (fs_changelog d)
       (if nextinode d =? 0 then RootInode + 1 else nextinode d)
       (if nextslice d =? 0 then 1 else nextslice d).
Definition emptyDb : db := MkDb ∅ ∅ ∅ [] ∅ ∅ [] 0 0.

(** ** Counters *)

Definition inodeBatch : Z := 1024.
Definition inoLowMask : Z := Z.shiftl 1 48 - 1.

(** [NewSlice]: a batch is reserved in the database when the range in memory
    is used up; [up] says whether that statement succeeds. *)
Definition NewSlice (up : bool) (m : meta) : meta * result Z :=
  let take m := (MkMeta (set_sliceIds (sliceNext (eng m) + 1) (sliceEnd (eng m)) (eng m)) (mdb m), Ok (sliceNext (eng m))) in
  if sliceEnd (eng m) <=? sliceNext (eng m) then
    if up then
      let end_ := nextslice (mdb m) + inodeBatch in
      take (MkMeta (set_sliceIds (end_ - inodeBatch) end_ (eng m)) (set_counters (nextinode (mdb m)) end_ (mdb m)))
    else (m, Err (EOther "sql"))
  else take m.

(** [nextInode]: the node's 16-bit prefix over a 48-bit counter. *)
Definition nextInode (up : bool) (m : meta) : meta * result Z :=
  let take m := (MkMeta (set_inos (inoNext (eng m) + 1) (inoEnd (eng m)) (eng m)) (mdb m),
                 Ok (Z.lor (Z.shiftl (ePrefix (eng m)) 48) (Z.land (inoNext (eng m)) inoLowMask))) in
  if inoEnd (eng m) <=? inoNext (eng m) then
    if up then
      let end_ := nextinode (mdb m) + inodeBatch in
      take (MkMeta (set_inos (end_ - inodeBatch) end_ (eng m)) (set_counters end_ (nextslice (mdb m)) (mdb m)))
    else (m, Err (EOther "sql"))
  else take m.

(** ** Scopes *)

Definition rootScopeKey : string := "root".

Definition scopeKeyForInode (first : Z) : string := "ino:" +:+ FormatUint first.

(** The walk of [scopeOf] to the first-level ancestor: [queries] is how many
    queries are answered before one fails; the flag says whether the key is
    memoized. *)
Fixpoint scopeWalk (queries : nat) (d : db) (inode cur : Z) : result (string * bool) :=
  match queries with
  | O => Err (EOther "sql")
  | S queries =>
      match node d !! cur with
      | None => Ok (scopeKeyForInode inode, false)
      | Some a => if (Parent a =? RootInode) || (Parent a =? cur) then Ok (scopeKeyForInode cur, true)
                  else scopeWalk queries d inode (Parent a)
      end
  end.

Definition scopeOf (queries : nat) (inode : Z) (m : meta) : meta * result string :=
  if inode =? RootInode then (m, Ok rootScopeKey)
  else match scopeCache (eng m) !! inode with
       | Some v => (m, Ok v)
       | None => match scopeWalk queries (mdb m) inode inode with
                 | Err e => (m, Err e)
                 | Ok (key, false) => (m, Ok key)
                 | Ok (key, true) => (MkMeta (set_cache (<[inode := key]> (scopeCache (eng m))) (eng m)) (mdb m), Ok key)
                 end
       end.

Definition flushScopeCache (m : meta) : meta := MkMeta (set_cache ∅ (eng m)) (mdb m).

(** ** The fence *)

(** What [acquireScope] hands to the transaction; [None] when the engine does
    not coordinate. *)
Abbreviation held := (option (string * Z)).

(** What a call meets: the coordinator ([OwnerView]: whether it is enabled, and
    [Ensure], which may rewrite the ownership table), the queries the scope walk
    gets answered, the fate of the transaction, the clock. *)
Record menv := MkEnv {
  Enabled : bool;
  Ensure : string -> gmap string Lease -> gmap string Lease * result (Z * bool);
  mqueries : nat; mfate : fate; mnow : instant }.

Definition noopOwner (s : string) (o : gmap string Lease) : gmap string Lease * result (Z * bool) := (o, Ok (0, true)).

Definition acquireScope (v : menv) (inode : Z) (m : meta) : meta * (held + errno) :=
  if negb (Enabled v) then (m, inl None)
  else match scopeOf (mqueries v) inode m with
       | (m, Err _) => (m, inr EIO)
       | (m, Ok s) =>
           let '(o, r) := Ensure v s (ownership (mdb m)) in
           (set_db (set_ownership o (mdb m)) m,
            match r with
            | Err _ => inr EIO
            | Ok (g, true) => inl (Some (s, g))
            | Ok (_, false) => inr ESTALE
            end)
       end.

Definition checkFence (n : string) (h : held) (d : db) : bool :=
  match h with
  | None => true
  | Some (scope, gen) => match ownership d !! scope with
                         | Some l => bool_decide (OwnerNode l = n) && (Generation l =? gen)
                         | None => false
                         end
  end.

(** [fenceInTx]: the guard at the top of every mutating transaction. *)
Definition fenceInTx (n : string) (h : held) (body : db -> txr) (d : db) : txr :=
  if checkFence n h d then body d else TxAbort ESTALE.

(** What the mutating operations on one inode have in common: acquire its
    scope, then run the fenced transaction. *)
Definition mutating (v : menv) (inode : Z) (body : db -> txr) (m : meta) : meta * status :=
  match acquireScope v inode m with
  | (m, inr e) => (m, Some e)
  | (m, inl h) => let '(d, e) := withTx (mfate v) (fenceInTx (nodeID (eng m)) h body) (mdb m) in (set_db d m, e)
  end.

(** ** What a mutating operation can do *)

Lemma scopeOf_meta q i m m' r : scopeOf q i m = (m', r) -> exists c, m' = MkMeta (set_cache c (eng m)) (mdb m).
Proof.
  unfold scopeOf. intros H. exists (scopeCache (eng m')).
  destruct m as [[] ?]. cbn in H. repeat case_match; by simplify_eq.
Qed.

Lemma acquireScope_meta v i m m' r :
  acquireScope v i m = (m', r) -> exists c o, m' = MkMeta (set_cache c (eng m)) (set_ownership o (mdb m)).
Proof.
  assert (Hid : m = MkMeta (set_cache (scopeCache (eng m)) (eng m)) (set_ownership (ownership (mdb m)) (mdb m)))
    by (destruct m as [[] []]; done).
  unfold acquireScope. destruct (Enabled v); cbn [negb]; [|intros [= <- <-]; eauto].
  destruct (scopeOf (mqueries v) i m) as [m1 r1] eqn:E. destruct (scopeOf_meta _ _ _ _ _ E) as [c ->].
  destruct r1 as [s|e]; [|intros [= <- <-]; exists c, (ownership (mdb m)); by destruct m as [? []]].
  destruct (Ensure v s _) as [o r2] eqn:E2. intros [= <- _]. by exists c, o.
Qed.

(** The caches and leases apart, it applies its body or it changes nothing and
    reports an error. *)
Lemma mutating_cases v i body m m' e :
  mutating v i body m = (m', e) ->
  exists c o, eng m' = set_cache c (eng m) /\
    ((mdb m' = set_ownership o (mdb m) /\ e <> None) \/ body (set_ownership o (mdb m)) = TxOk (mdb m')).
Proof.
  unfold mutating. destruct (acquireScope v i m) as [m1 [h|er]] eqn:E;
    destruct (acquireScope_meta _ _ _ _ _ E) as (c & o & ->).
  - destruct (withTx _ _ _) as [d er] eqn:Et. intros [= <- <-]. exists c, o. split; [done|].
    destruct (withTx_cases _ _ _ _ _ Et) as [[-> ?]|Hb]; [by left|]. right.
    revert Hb. unfold fenceInTx. by case_match.
  - intros [= <- <-]. exists c, o. split; [done|]. by left.
Qed.

(** Without a coordinator there is nothing but the transaction. *)
Lemma mutating_single v i body m :
  Enabled v = false -> mutating v i body m = (let '(d, e) := withTx (mfate v) body (mdb m) in (set_db d m, e)).
Proof. intros H. unfold mutating, acquireScope. by rewrite H. Qed.
