(* ===== verification/Leases.v ===== *)
(** Ownership leases (mlfs/internal/meta: ownership.go, sqlowner.go; the fence
    they feed is in [MetaDb]).

    A scope of the namespace has at most one owner at a time, by a lease row
    with a fencing token, the [generation].  The lease operations work on the
    ownership table; [SQLOwner] is the coordinator that drives them for one node
    and caches what it holds.

    [fence_exclusive]: whatever the nodes do with leases, clocks and caches,
    the writes that commit under a scope come in the order of their
    generations, and one generation belongs to one node.  [takeover]: an
    expired scope can always be taken over, and its former owner is then shut
    out. *)

From S2P Require Import Prelude GoStrings Overlay MetaDb.

Abbreviation leases := (gmap string Lease).

(** ** Lease operations *)

Definition AcquireOrResume (f : fate) (now : instant) (scope n : string) (ttlMs : Z) (o : leases) : leases * result (Lease * bool) :=
  let nowMs := unixMilli now in
  let expires := nowMs + ttlMs in
  let finish o' r := match f with
                     | Fails => (o, Err (EOther "sql"))
                     | CommitLost => (o', Err (EOther "sql"))
                     | Commits => (o', Ok r)
                     end in
  match o !! scope with
  | None => let l := MkLease n expires 1 in finish (<[scope := l]> o) (l, true)
  | Some cur =>
      if bool_decide (OwnerNode cur = n) then
        let l := MkLease n expires (Generation cur) in finish (<[scope := l]> o) (l, true)
      else if ExpiresUnixMs cur <? nowMs then
        let l := MkLease n expires (Generation cur + 1) in finish (<[scope := l]> o) (l, true)
      else finish o (cur, false)
  end.

(** The UPDATE of [Refresh] and [ReleaseOwnership], guarded by node and
    generation; [up] says whether the statement succeeds. *)
Definition updateExpiry (up : bool) (expires : Z) (scope n : string) (gen : Z) (o : leases) : leases * result bool :=
  if negb up then (o, Err (EOther "sql"))
  else match o !! scope with
       | Some cur => if bool_decide (OwnerNode cur = n) && (Generation cur =? gen) then
                       (<[scope := MkLease (OwnerNode cur) expires (Generation cur)]> o, Ok true)
                     else (o, Ok false)
       | None => (o, Ok false)
       end.

Definition Refresh (up : bool) (now : instant) (scope n : string) (gen ttlMs : Z) (o : leases) : leases * result bool :=
  updateExpiry up (unixMilli now + ttlMs) scope n gen o.

Definition ReleaseOwnership (up : bool) (scope n : string) (gen : Z) (o : leases) : leases * result bool :=
  updateExpiry up 0 scope n gen o.

Definition Fenced (up : bool) (scope : string) (gen : Z) (o : leases) : result bool :=
  if negb up then Err (EOther "sql")
  else match o !! scope with Some l => Ok (Generation l =? gen) | None => Ok false end.

(** ** [SQLOwner] *)

(** Durations and local expiries in nanoseconds. *)
Record heldLease := MkHeld { hGen : Z; localExpiry : Z }.
Record SQLOwner := MkOwner { oNode : string; ottl : Z; orefresh : Z; oheld : gmap string heldLease }.

Definition NewSQLOwner (n : string) (ttl refresh : Z) : SQLOwner :=
  let ttl := if ttl <=? 0 then 30 * 10 ^ 9 else ttl in
  let refresh := if (refresh <=? 0) || (ttl <=? refresh) then Z.quot ttl 3 else refresh in
  MkOwner n ttl refresh ∅.

Definition set_held (h : gmap string heldLease) (w : SQLOwner) : SQLOwner := MkOwner (oNode w) (ottl w) (orefresh w) h.

Definition milliseconds (d : Z) : Z := Z.quot d (10 ^ 6).

(** [Ensure]; [t0], [t1], [t2] are the clock at the cache test, in
    [AcquireOrResume] and after it. *)
Definition SQLEnsure (f : fate) (t0 t1 t2 : instant) (scope : string) (w : SQLOwner) (o : leases)
    : SQLOwner * leases * result (Z * bool) :=
  let fast := match oheld w !! scope with
              | Some l => if unixNano t0 <? localExpiry l then Some (hGen l) else None
              | None => None
              end in
  match fast with
  | Some gen => (w, o, Ok (gen, true))
  | None =>
      match AcquireOrResume f t1 scope (oNode w) (milliseconds (ottl w)) o with
      | (o, Err e) => (w, o, Err e)
      | (o, Ok (_, false)) => (w, o, Ok (0, false))
      | (o, Ok (lease, true)) =>
          (set_held (<[scope := MkHeld (Generation lease) (unixNano t2 + ottl w)]> (oheld w)) w, o,
           Ok (Generation lease, true))
      end
  end.

(** One turn of the loop of [refreshAll]. *)
Definition refreshScope (up : bool) (t1 t2 : instant) (scope : string) (gen : Z) (w : SQLOwner) (o : leases) : SQLOwner * leases :=
  let '(o, r) := Refresh up t1 scope (oNode w) gen (milliseconds (ottl w)) o in
  let expire t := match oheld w !! scope with
                  | Some l => set_held (<[scope := MkHeld (hGen l) t]> (oheld w)) w
                  | None => w
                  end in
  (match r with
   | Err _ => expire (unixNano t2)
   | Ok false => set_held (delete scope (oheld w)) w
   | Ok true => expire (unixNano t2 + ottl w)
   end, o).

(** [refreshAll]: the map is ranged over in the order [map_to_list] has; the
    answers are per scope. *)
Definition refreshAll (up : string -> bool) (t1 t2 : string -> instant) (w : SQLOwner) (o : leases) : SQLOwner * leases :=
  fold_left (fun '(w, o) '(s, l) => refreshScope (up s) (t1 s) (t2 s) s (hGen l) w o) (map_to_list (oheld w)) (w, o).

Definition releaseAll (w : SQLOwner) : SQLOwner := set_held ∅ w.

(** ** Histories *)

(** What the nodes do to the database, in any order and at any time: lease
    operations, and fenced transactions under a token obtained earlier. *)
Inductive hstep : db -> option (string * string * Z) -> db -> Prop :=
| h_acquire f t s n ttl d :
    hstep d None (set_ownership (AcquireOrResume f t s n ttl (ownership d)).1 d)
| h_refresh up t s n g ttl d :
    hstep d None (set_ownership (Refresh up t s n g ttl (ownership d)).1 d)
| h_release up s n g d :
    hstep d None (set_ownership (ReleaseOwnership up s n g (ownership d)).1 d)
| h_commit f n s g body d d' e :
    (forall x y, body x = TxOk y -> ownership y = ownership x) ->
    withTx f (fenceInTx n (Some (s, g)) body) d = (d', e) -> (e = None \/ d' <> d) ->
    hstep d (Some (n, s, g)) d'
| h_reject f n s g body d d' e :
    withTx f (fenceInTx n (Some (s, g)) body) d = (d', e) -> e <> None -> d' = d -> hstep d None d'.

(** The commits of a history, oldest first: node, scope, generation. *)
Inductive hsteps : db -> list (string * string * Z) -> db -> Prop :=
| h_nil d : hsteps d [] d
| h_snoc d cs d1 c d2 : hsteps d cs d1 -> hstep d1 c d2 -> hsteps d (cs ++ option_list c) d2.

(** ** Proofs *)

(** A scope's generation grows whenever its owner changes. *)
Definition advances (o o' : leases) : Prop :=
  forall s l, o !! s = Some l -> exists l', o' !! s = Some l' /\
    (Generation l < Generation l' \/ (Generation l = Generation l' /\ OwnerNode l = OwnerNode l')).

#[global] Instance advances_refl : Reflexive advances.
Proof. intros o s l H. eauto. Qed.

Lemma advances_insert (o : leases) s l' :
  (forall l, o !! s = Some l -> Generation l < Generation l' \/ (Generation l = Generation l' /\ OwnerNode l = OwnerNode l')) ->
  advances o (<[s := l']> o).
Proof.
  intros H s1 l Hl. destruct (decide (s1 = s)) as [->|Hne].
  - exists l'. rewrite lookup_insert_eq. auto.
  - exists l. rewrite lookup_insert_ne by done. auto.
Qed.

Lemma acquire_advances f t s n ttl o : advances o (AcquireOrResume f t s n ttl o).1.
Proof.
  unfold AcquireOrResume. destruct (o !! s) as [cur|] eqn:E.
  - case_bool_decide; [|destruct (Z.ltb_spec (ExpiresUnixMs cur) (unixMilli t))]; destruct f; cbn; try done;
      apply advances_insert; intros l Hl; simplify_eq; cbn; auto with lia.
  - destruct f; cbn; try done; apply advances_insert; intros l Hl; congruence.
Qed.

Lemma updateExpiry_advances up x s n g o : advances o (updateExpiry up x s n g o).1.
Proof.
  unfold updateExpiry. destruct up; cbn [negb]; [|done]. destruct (o !! s) as [cur|] eqn:E; [|done].
  destruct (_ && _); [|done]. apply advances_insert. intros l Hl. simplify_eq. cbn. auto.
Qed.

(** A commit under the present lease. *)
Definition under (o : leases) (c : string * string * Z) : Prop :=
  exists l, o !! c.1.2 = Some l /\ c.2 <= Generation l /\ (c.2 = Generation l -> OwnerNode l = c.1.1).

Lemma under_advances o o' c : advances o o' -> under o c -> under o' c.
Proof.
  intros H (l & Hl & Hle & Heq). destruct (H _ _ Hl) as (l' & Hl' & [?|[Hg Ho]]); exists l'; split_and!; try done; try lia.
  intros Hc. rewrite <- Ho. apply Heq. lia.
Qed.

Lemma fence_commits f n s g body d d' e :
  (forall x y, body x = TxOk y -> ownership y = ownership x) ->
  withTx f (fenceInTx n (Some (s, g)) body) d = (d', e) -> (e = None \/ d' <> d) ->
  checkFence n (Some (s, g)) d = true /\ ownership d' = ownership d.
Proof.
  intros Hb H He. destruct (withTx_cases _ _ _ _ _ H) as [[-> Hn]|Hok]; [naive_solver|].
  unfold fenceInTx in Hok. destruct (checkFence _ _ d) eqn:E; [|done]. eauto.
Qed.

Lemma checkFence_lease n s g d :
  checkFence n (Some (s, g)) d = true <-> exists l, ownership d !! s = Some l /\ OwnerNode l = n /\ Generation l = g.
Proof.
  cbn. destruct (ownership d !! s) as [l|]; [|naive_solver].
  rewrite andb_true_iff, bool_decide_eq_true, Z.eqb_eq. naive_solver.
Qed.

Lemma hstep_advances d c d' : hstep d c d' ->
  advances (ownership d) (ownership d') /\
  forall x, c = Some x -> exists l, ownership d' !! x.1.2 = Some l /\ OwnerNode l = x.1.1 /\ Generation l = x.2.
Proof.
  destruct 1 as [| | |f n s g body d d' e Hb H He|f n s g body d d' e H He ->].
  - split; [apply acquire_advances|done].
  - split; [apply updateExpiry_advances|done].
  - split; [apply updateExpiry_advances|done].
  - destruct (fence_commits _ _ _ _ _ _ _ _ Hb H He) as [Hf ->]. split; [done|]. intros x [= <-].
    by apply checkFence_lease in Hf.
  - by split.
Qed.

(** C25: whatever the nodes do — acquire, renew and release leases at any time by
    any clock, write under tokens however old — the transactions that commit
    under a scope have non-decreasing generations, and two that commit under
    the same generation are the same node's: a node whose scope was taken over
    never commits again under its old lease, and no two nodes share one. *)
Theorem fence_exclusive d cs d' :
  ownership d = ∅ -> hsteps d cs d' ->
  forall (i j : nat) n1 n2 s g1 g2,
    (i < j)%nat -> cs !! i = Some (n1, s, g1) -> cs !! j = Some (n2, s, g2) -> g1 <= g2 /\ (g1 = g2 -> n1 = n2).
Proof.
  intros H0 H. enough (Forall (under (ownership d')) cs /\ forall (i j : nat) n1 n2 s g1 g2,
    (i < j)%nat -> cs !! i = Some (n1, s, g1) -> cs !! j = Some (n2, s, g2) -> g1 <= g2 /\ (g1 = g2 -> n1 = n2)) by tauto.
  induction H as [d|d cs d1 c d2 H IH Hs]; [split; [done|by intros []]|]. destruct (IH H0) as [HF IHs].
  destruct (hstep_advances _ _ _ Hs) as [Ha Hc].
  assert (HF2 : Forall (under (ownership d2)) cs) by (eapply Forall_impl; [done|]; intros x; by apply under_advances).
  destruct c as [[[n s] g]|]; cbn [option_list]; [|rewrite app_nil_r; by split].
  destruct (Hc _ eq_refl) as (l & Hl & Hn & Hg). cbn in Hl, Hn, Hg. subst n g. split.
  - apply Forall_app. split; [done|]. apply Forall_singleton. exists l. cbn. auto with lia.
  - intros i j n1 n2 s' g1 g2 Hij Hi Hj. apply lookup_app_Some in Hj as [Hj|[Hle Hj]].
    + eapply IHs; [exact Hij| |exact Hj]. rewrite lookup_app_l in Hi; [done|]. apply lookup_lt_Some in Hj. lia.
    + apply list_lookup_singleton_Some in Hj as [Hj Hj2].
      injection Hj2 as <- <- <-. rewrite lookup_app_l in Hi by lia. rewrite Forall_lookup in HF2.
      destruct (HF2 _ _ Hi) as (l1 & Hl1 & Hle1 & Heq1). cbn in *. simplify_eq. split; [done|]. intros ->. symmetry. auto.
Qed.

(** Two nodes, one scope: a commit, an expiry, a takeover and a commit. *)
Lemma fence_exclusive_witness :
  exists d', hsteps emptyDb [("a", "s", 1); ("b", "s", 2)]%string d' /\ (1 <= 2 /\ (1 = 2 -> "a" = "b")%string).
Proof.
  set (body := fun d => TxOk (set_counters (nextinode d) (nextslice d + 1) d)).
  set (d1 := set_ownership (AcquireOrResume Commits (MkNow 0 0) "s" "a" 10 ∅).1 emptyDb).
  set (d2 := set_counters 0 1 d1).
  set (d3 := set_ownership (AcquireOrResume Commits (MkNow 1 0) "s" "b" 10 (ownership d2)).1 d2).
  set (d4 := set_counters 0 2 d3).
  assert (H : hsteps emptyDb [("a", "s", 1); ("b", "s", 2)]%string d4).
  { apply (h_snoc _ [("a", "s", 1)]%string d3 (Some ("b", "s", 2)%string)).
    - apply (h_snoc _ [("a", "s", 1)]%string d2 None).
      + apply (h_snoc _ [] d1 (Some ("a", "s", 1)%string)).
        * apply (h_snoc _ [] emptyDb None); [constructor|]. apply h_acquire.
        * apply (h_commit Commits _ _ _ body _ _ None); [by intros x y [= <-]|reflexivity|by left].
      + apply h_acquire.
    - apply (h_commit Commits _ _ _ body _ _ None); [by intros x y [= <-]|reflexivity|by left]. }
  exists d4. split; [exact H|]. apply (fence_exclusive emptyDb _ _ eq_refl H 0%nat 1%nat "a"%string "b"%string "s"%string 1 2); [lia|reflexivity|reflexivity].
Defined.

(** A scope whose lease has expired can be taken over: the next [Ensure] of
    another node reaches the table, gets the next generation, and from then on
    that node's fenced transactions run while every token the former owner can
    hold is refused with ESTALE, changing nothing. *)
Theorem takeover t0 t1 t2 s w l d :
  ownership d !! s = Some l -> OwnerNode l <> oNode w -> ExpiresUnixMs l < unixMilli t1 -> oheld w !! s = None ->
  exists w' o', SQLEnsure Commits t0 t1 t2 s w (ownership d) = (w', o', Ok (Generation l + 1, true)) /\
    (forall f body, withTx f (fenceInTx (oNode w) (Some (s, Generation l + 1)) body) (set_ownership o' d) = withTx f body (set_ownership o' d)) /\
    (forall body g, withTx Commits (fenceInTx (OwnerNode l) (Some (s, g)) body) (set_ownership o' d) = (set_ownership o' d, Some ESTALE)).
Proof.
  intros Hl Hne Hex Hh. unfold SQLEnsure. rewrite Hh. unfold AcquireOrResume. rewrite Hl, bool_decide_false by done.
  destruct (Z.ltb_spec (ExpiresUnixMs l) (unixMilli t1)); [|lia]. cbn [Generation]. eexists _, _. split; [reflexivity|]. split.
  - intros f body. unfold withTx, fenceInTx.
    replace (checkFence _ _ _) with true; [done|]. symmetry. apply checkFence_lease. cbn.
    eexists. split; [apply lookup_insert_eq|done].
  - intros body g. unfold withTx, fenceInTx. replace (checkFence _ _ _) with false; [done|].
    symmetry. apply not_true_is_false. rewrite checkFence_lease. cbn. intros (l' & Hl' & Hn & _).
    rewrite lookup_insert_eq in Hl'. simplify_eq.
Qed.

Lemma takeover_witness :
  exists w' o', SQLEnsure Commits (MkNow 9 0) (MkNow 9 0) (MkNow 9 0) "s" (NewSQLOwner "b" 0 0) {[ "s"%string := MkLease "a" 5 7 ]} = (w', o', Ok (8, true)).
Proof.
  destruct (takeover (MkNow 9 0) (MkNow 9 0) (MkNow 9 0) "s" (NewSQLOwner "b" 0 0) (MkLease "a" 5 7)
              (set_ownership {[ "s"%string := MkLease "a" 5 7 ]} emptyDb)) as (w' & o' & H & _);
    [reflexivity|done|done|reflexivity|]. exists w', o'. exact H.
Defined.
