(* ===== verification/Locks.v ===== *)
(** File locks (mlfs/internal/meta/locks.go).

    Whole-file locks ([flock]) and byte-range locks ([plock]) are rows of two
    tables, keyed by inode, session and owner; the JSON text of a [plock] row is
    the record list it encodes.  A request is one transaction: look at the other
    holders, then write one's own row.

    [locks_exclusive]: with the transactions one after another, no two holders
    ever have conflicting locks, whatever fails.  [setlk_spec]: a byte-range
    request is granted exactly when no other holder is in the way, and changes
    exactly the bytes it names.  The transactions run at the server's default
    isolation level, where the look and the write of two of them may interleave:
    [flock_race] is what happens then. *)

From S2P Require Import Prelude GoStrings Overlay MetaDb.

Definition FlockShared : Z := 82.
Definition FlockExclusive : Z := 87.
Definition FlockUnlock : Z := 85.

(** [syscall] on Linux. *)
Definition F_RDLCK : Z := 0.
Definition F_WRLCK : Z := 1.
Definition F_UNLCK : Z := 2.

(** A range includes its end. *)
Record plockRec := MkPlock { pTyp : Z; pStart : Z; pEnd : Z; pPid : Z }.

#[global] Instance plockRec_eq_dec : EqDecision plockRec.
Proof. solve_decision. Defined.

(** A holder is a session and an owner. *)
Abbreviation holder := (Z * Z)%type.
Abbreviation lockKey := (Z * holder)%type.

Record lockDb := MkLocks { flock : gmap lockKey Z; plock : gmap lockKey (list plockRec) }.

Definition set_flock (f : gmap lockKey Z) (d : lockDb) : lockDb := MkLocks f (plock d).
Definition set_plock (p : gmap lockKey (list plockRec)) (d : lockDb) : lockDb := MkLocks (flock d) p.

(** As [withTx], on the lock tables. *)
Definition lockTx (f : fate) (body : lockDb -> lockDb + errno) (d : lockDb) : lockDb * status :=
  match f with
  | Fails => (d, Some EIO)
  | _ => match body d with
         | inr e => (d, Some e)
         | inl d' => (d', match f with CommitLost => Some EIO | _ => None end)
         end
  end.

(** The session of an engine is its inode prefix. *)
Definition lockSID (e : engine) : Z := ePrefix e.

(** ** Whole-file locks *)

Definition flockConflict (typ lt : Z) : bool := (typ =? FlockExclusive) || (lt =? FlockExclusive).

(** The rows the query returns: those of the inode that are not the caller's. *)
Definition otherFlocks (inode : Z) (me : holder) (d : lockDb) : gmap lockKey Z :=
  filter (fun kv => kv.1.1 = inode /\ kv.1.2 <> me) (flock d).

Definition flockBusy (inode : Z) (me : holder) (typ : Z) (d : lockDb) : bool :=
  bool_decide (map_Exists (fun _ lt => flockConflict typ lt = true) (otherFlocks inode me d)).

Definition flockBody (inode : Z) (me : holder) (typ : Z) (d : lockDb) : lockDb + errno :=
  if typ =? FlockUnlock then inl (set_flock (delete (inode, me) (flock d)) d)
  else if flockBusy inode me typ d then inr EAGAIN
  else inl (set_flock (<[(inode, me) := typ]> (flock d)) d).

Definition Flock (f : fate) (sid inode owner typ : Z) (d : lockDb) : lockDb * status :=
  lockTx f (flockBody inode (sid, owner) typ) d.

(** ** Byte-range locks *)

Definition disjointRec (r : plockRec) (start end_ : Z) : bool := (pEnd r <? start) || (end_ <? pStart r).

Fixpoint plockConflict (others : list plockRec) (typ start end_ : Z) : option plockRec :=
  match others with
  | [] => None
  | r :: others => if disjointRec r start end_ then plockConflict others typ start end_
                   else if (typ =? F_WRLCK) || (pTyp r =? F_WRLCK) then Some r
                   else plockConflict others typ start end_
  end.

Definition u64 (z : Z) : Z := z mod 2 ^ 64.

Definition splitRec (start end_ : Z) (r : plockRec) : list plockRec :=
  if disjointRec r start end_ then [r]
  else (if pStart r <? start then [MkPlock (pTyp r) (pStart r) (u64 (start - 1)) (pPid r)] else []) ++
       (if end_ <? pEnd r then [MkPlock (pTyp r) (u64 (end_ + 1)) (pEnd r) (pPid r)] else []).

Definition splitRange (recs : list plockRec) (typ start end_ pid : Z) : list plockRec :=
  (recs ≫= splitRec start end_) ++ (if typ =? F_UNLCK then [] else [MkPlock typ start end_ pid]).

(** The rows come in the order the server returns them. *)
Definition loadOtherPlocks (order : list (lockKey * list plockRec) -> list (lockKey * list plockRec))
    (inode : Z) (me : holder) (d : lockDb) : list plockRec :=
  order (map_to_list (filter (fun kv => kv.1.1 = inode /\ kv.1.2 <> me) (plock d))) ≫= snd.

Definition loadMyPlock (inode : Z) (me : holder) (d : lockDb) : list plockRec := default [] (plock d !! (inode, me)).

Section Requests.
  Variable order : list (lockKey * list plockRec) -> list (lockKey * list plockRec).

Definition Getlk (up : bool) (sid inode owner typ start end_ : Z) (d : lockDb) : (Z * Z * Z * Z) + errno :=
  if negb up then inr EIO
  else match plockConflict (loadOtherPlocks order inode (sid, owner) d) typ start end_ with
       | Some c => inl (pTyp c, pStart c, pEnd c, pPid c)
       | None => inl (F_UNLCK, start, end_, 0)
       end.

Definition setlkBusy (inode : Z) (me : holder) (typ start end_ : Z) (d : lockDb) : bool :=
  negb (typ =? F_UNLCK) && bool_decide (is_Some (plockConflict (loadOtherPlocks order inode me d) typ start end_)).

Definition setlkBody (inode : Z) (me : holder) (typ start end_ pid : Z) (d : lockDb) : lockDb + errno :=
  if setlkBusy inode me typ start end_ d then inr EAGAIN
  else match splitRange (loadMyPlock inode me d) typ start end_ pid with
       | [] => inl (set_plock (delete (inode, me) (plock d)) d)
       | mine => inl (set_plock (<[(inode, me) := mine]> (plock d)) d)
       end.

Definition Setlk (f : fate) (sid inode owner typ start end_ pid : Z) (d : lockDb) : lockDb * status :=
  lockTx f (setlkBody inode (sid, owner) typ start end_ pid) d.
End Requests.

(** ** Reaping *)

Definition ClearAllLocks (f : fate) (d : lockDb) : lockDb * status := lockTx f (fun _ => inl (MkLocks ∅ ∅)) d.

Definition ClearLocksForSID (f : fate) (sid : Z) (d : lockDb) : lockDb * status :=
  lockTx f (fun d => inl (MkLocks (filter (fun kv => kv.1.2.1 <> sid) (flock d)) (filter (fun kv => kv.1.2.1 <> sid) (plock d)))) d.

(** [ExecContext] outside a transaction; its error is dropped. *)
Definition ClearPlocks (f : fate) (sid inode owner : Z) (d : lockDb) : lockDb :=
  if owner =? 0 then d
  else match f with Fails => d | _ => set_plock (delete (inode, (sid, owner)) (plock d)) d end.

Definition ListLockSIDs (d : lockDb) : gset Z :=
  set_map (fun k : lockKey => k.2.1) (dom (flock d)) ∪ set_map (fun k : lockKey => k.2.1) (dom (plock d)).

(** ** What locks mean *)

Definition inRec (r : plockRec) (x : Z) : Prop := pStart r <= x <= pEnd r.

(** Holder [k] has a lock of type [t] on byte [x] of the inode. *)
Definition holds (d : lockDb) (inode : Z) (k : holder) (t x : Z) : Prop :=
  exists r, r ∈ loadMyPlock inode k d /\ inRec r x /\ pTyp r = t.

Definition rec_wf (r : plockRec) : Prop := 0 <= pStart r /\ pStart r <= pEnd r /\ pEnd r < 2 ^ 64 /\ pTyp r <> F_UNLCK.

Definition recs_wf (d : lockDb) : Prop := forall i k r, r ∈ loadMyPlock i k d -> rec_wf r.

Lemma disjointRec_spec r s e : disjointRec r s e = true <-> pEnd r < s \/ e < pStart r.
Proof. unfold disjointRec. rewrite orb_true_iff, !Z.ltb_lt. done. Qed.

Lemma disjointRec_false r s e : disjointRec r s e = false <-> s <= pEnd r /\ pStart r <= e.
Proof. unfold disjointRec. rewrite orb_false_iff, !Z.ltb_ge. done. Qed.

Definition clashes (typ s e : Z) (r : plockRec) : Prop := disjointRec r s e = false /\ (typ = F_WRLCK \/ pTyp r = F_WRLCK).

Lemma plockConflict_None rs typ s e : plockConflict rs typ s e = None <-> Forall (fun r => ~ clashes typ s e r) rs.
Proof.
  induction rs as [|r rs IH]; cbn [plockConflict]; [done|]. rewrite Forall_cons. unfold clashes at 1.
  destruct (disjointRec r s e); [naive_solver|].
  destruct ((typ =? F_WRLCK) || (pTyp r =? F_WRLCK)) eqn:E.
  - rewrite orb_true_iff, !Z.eqb_eq in E. naive_solver.
  - rewrite orb_false_iff, !Z.eqb_neq in E. rewrite IH. naive_solver.
Qed.

Lemma plockConflict_Some rs typ s e r : plockConflict rs typ s e = Some r -> r ∈ rs /\ clashes typ s e r.
Proof.
  induction rs as [|r0 rs IH]; cbn [plockConflict]; [done|]. destruct (disjointRec r0 s e) eqn:Ed.
  - intros H. destruct (IH H). split; [by right|done].
  - destruct ((typ =? F_WRLCK) || (pTyp r0 =? F_WRLCK)) eqn:E.
    + intros [= <-]. rewrite orb_true_iff, !Z.eqb_eq in E. split; [by left|done].
    + intros H. destruct (IH H). split; [by right|done].
Qed.

(** *** Splitting a record list *)

Lemma splitRec_covers s e r x t :
  rec_wf r -> 0 <= s < 2 ^ 64 -> 0 <= e < 2 ^ 64 ->
  (exists r', r' ∈ splitRec s e r /\ inRec r' x /\ pTyp r' = t) -> inRec r x /\ pTyp r = t.
Proof.
  intros (H0 & H1 & H2 & _) Hs He (r' & Hr' & Hc & <-). revert Hr'. unfold splitRec, u64.
  destruct (disjointRec r s e) eqn:E; [intros ->%list_elem_of_singleton; done|apply disjointRec_false in E].
  rewrite elem_of_app. destruct (Z.ltb_spec (pStart r) s), (Z.ltb_spec e (pEnd r)); intros [Hr'|Hr'];
    try (by apply not_elem_of_nil in Hr'); apply list_elem_of_singleton in Hr' as ->; unfold inRec in *; cbn in Hc |- *; split; try done;
    rewrite ?Z.mod_small in Hc by lia; lia.
Qed.

(** Outside the range nothing changes; inside it nothing is left. *)
Lemma splitRec_at s e r x t :
  rec_wf r -> 0 <= s -> s <= e -> e < 2 ^ 64 ->
  (exists r', r' ∈ splitRec s e r /\ inRec r' x /\ pTyp r' = t) <-> ~ (s <= x <= e) /\ inRec r x /\ pTyp r = t.
Proof.
  intros Hw H0 H1 H2. split.
  - intros H. destruct (splitRec_covers s e r x t Hw) as [Hc Ht]; [lia|lia|done|]. split; [|done].
    destruct H as (r' & Hr' & Hc' & _). destruct Hw as (Ha & Hb & Hd & _). revert Hr'. unfold splitRec, u64.
    destruct (disjointRec r s e) eqn:E; [intros ->%list_elem_of_singleton; apply disjointRec_spec in E; unfold inRec in *; lia|].
    rewrite elem_of_app. destruct (Z.ltb_spec (pStart r) s), (Z.ltb_spec e (pEnd r)); intros [Hr'|Hr'];
      try (by apply not_elem_of_nil in Hr'); apply list_elem_of_singleton in Hr' as ->; unfold inRec in *; cbn in Hc';
      rewrite ?Z.mod_small in Hc' by lia; lia.
  - intros (Hx & Hc & Ht). destruct Hw as (Ha & Hb & Hd & _). unfold splitRec, u64. destruct (disjointRec r s e) eqn:E.
    + exists r. split; [by apply list_elem_of_singleton|done].
    + apply disjointRec_false in E. unfold inRec in Hc. destruct (decide (x < s)).
      * exists (MkPlock (pTyp r) (pStart r) ((s - 1) mod 2 ^ 64) (pPid r)).
        split; [|unfold inRec; cbn; rewrite Z.mod_small by lia; lia].
        apply elem_of_app. left. destruct (Z.ltb_spec (pStart r) s); [by apply list_elem_of_singleton|lia].
      * exists (MkPlock (pTyp r) ((e + 1) mod 2 ^ 64) (pEnd r) (pPid r)).
        split; [|unfold inRec; cbn; rewrite Z.mod_small by lia; lia].
        apply elem_of_app. right. destruct (Z.ltb_spec e (pEnd r)); [by apply list_elem_of_singleton|lia].
Qed.

Lemma splitRec_wf s e r r' : rec_wf r -> 0 <= s -> s <= e -> e < 2 ^ 64 -> r' ∈ splitRec s e r -> rec_wf r'.
Proof.
  intros (Ha & Hb & Hd & Hu) H0 H1 H2. unfold splitRec, u64. destruct (disjointRec r s e); [by intros ->%list_elem_of_singleton|].
  rewrite elem_of_app. destruct (Z.ltb_spec (pStart r) s), (Z.ltb_spec e (pEnd r)); intros [Hr'|Hr'];
    try (by apply not_elem_of_nil in Hr'); apply list_elem_of_singleton in Hr' as ->; unfold rec_wf; cbn;
    rewrite ?Z.mod_small by lia; (split_and!; [lia..|done]).
Qed.

Lemma splitRange_elem rs typ s e pid r :
  r ∈ splitRange rs typ s e pid <-> (exists r0, r0 ∈ rs /\ r ∈ splitRec s e r0) \/ (typ <> F_UNLCK /\ r = MkPlock typ s e pid).
Proof.
  unfold splitRange. rewrite elem_of_app, list_elem_of_bind. destruct (Z.eqb_spec typ F_UNLCK).
  - rewrite elem_of_nil. naive_solver.
  - rewrite list_elem_of_singleton. naive_solver.
Qed.

Definition range_ok (s e : Z) : Prop := 0 <= s /\ s <= e /\ e < 2 ^ 64.

(** *** One byte-range request *)

Section Setlk.
  Variable order : list (lockKey * list plockRec) -> list (lockKey * list plockRec).
  Hypothesis order_perm : forall l, order l ≡ₚ l.

Lemma others_elem inode me d r :
  r ∈ loadOtherPlocks order inode me d <-> exists k, k <> me /\ r ∈ loadMyPlock inode k d.
Proof.
  unfold loadOtherPlocks, loadMyPlock. rewrite list_elem_of_bind. split.
  - intros ([[i k] rs] & Hr & Hin). rewrite order_perm in Hin. apply elem_of_map_to_list, map_lookup_filter_Some in Hin as (Hl & Hi & Hk).
    cbn in *. subst i. exists k. split; [done|]. by rewrite Hl.
  - intros (k & Hk & Hr). destruct (plock d !! (inode, k)) as [rs|] eqn:E; [|by apply not_elem_of_nil in Hr].
    exists ((inode, k), rs). split; [done|]. rewrite order_perm. apply elem_of_map_to_list, map_lookup_filter_Some. by split.
Qed.

(** A request waits exactly when another holder has an incompatible lock on a
    byte of it. *)
Lemma setlkBusy_spec inode me typ s e d :
  recs_wf d -> range_ok s e ->
  setlkBusy order inode me typ s e d = true <->
  typ <> F_UNLCK /\ exists k t x, k <> me /\ s <= x <= e /\ holds d inode k t x /\ (typ = F_WRLCK \/ t = F_WRLCK).
Proof.
  intros Hw (H0 & H1 & H2). unfold setlkBusy. rewrite andb_true_iff, negb_true_iff, Z.eqb_neq, bool_decide_eq_true. split.
  - intros [Ht [r Hr]]. split; [done|]. apply plockConflict_Some in Hr as [Hin [Hd Hc]]. apply others_elem in Hin as (k & Hk & Hin).
    apply disjointRec_false in Hd. destruct (Hw _ _ _ Hin) as (Ha & Hb & Hg & _).
    exists k, (pTyp r), (Z.max s (pStart r)). split; [done|]. split; [lia|]. split; [|done]. exists r. unfold inRec. split_and!; try done; lia.
  - intros (Ht & k & t & x & Hk & Hx & (r & Hin & Hc & <-) & Hor). split; [done|].
    destruct (plockConflict _ _ _ _) eqn:E; [eauto|]. apply plockConflict_None in E. rewrite Forall_forall in E.
    destruct (E r); [apply others_elem; eauto|]. split; [|done]. apply disjointRec_false. unfold inRec in Hc. lia.
Qed.

(** The rows after a request that was granted. *)
Lemma setlk_rows inode me typ s e pid d d' :
  setlkBody order inode me typ s e pid d = inl d' ->
  flock d' = flock d /\ loadMyPlock inode me d' = splitRange (loadMyPlock inode me d) typ s e pid /\
  forall i k, (i, k) <> (inode, me) -> loadMyPlock i k d' = loadMyPlock i k d.
Proof.
  unfold setlkBody. destruct (setlkBusy _ _ _ _ _ _ _); [done|].
  destruct (splitRange _ _ _ _ _) as [|r rs] eqn:E; intros [= <-]; (split; [done|]); unfold loadMyPlock; cbn; split.
  - by rewrite lookup_delete_eq.
  - intros i k Hne. by rewrite lookup_delete_ne by congruence.
  - by rewrite lookup_insert_eq.
  - intros i k Hne. by rewrite lookup_insert_ne by congruence.
Qed.

(** What each holder has on each byte afterwards. *)
Lemma setlk_holds inode me typ s e pid d d' :
  recs_wf d -> range_ok s e -> setlkBody order inode me typ s e pid d = inl d' ->
  (forall t x, holds d' inode me t x <-> (s <= x <= e /\ typ <> F_UNLCK /\ t = typ) \/ (~ (s <= x <= e) /\ holds d inode me t x)) /\
  (forall i k t x, (i, k) <> (inode, me) -> holds d' i k t x <-> holds d i k t x).
Proof.
  intros Hw (H0 & H1 & H2) Hb. destruct (setlk_rows _ _ _ _ _ _ _ _ Hb) as (_ & Hme & Hoth). split.
  - intros t x. unfold holds. rewrite Hme. setoid_rewrite splitRange_elem. split.
    + intros (r & [(r0 & Hin & Hr)|[Ht ->]] & Hc & <-).
      * right. destruct (proj1 (splitRec_at s e r0 x (pTyp r) (Hw _ _ _ Hin) H0 H1 H2)) as (Hx & Hc0 & Ht0); [by exists r|].
        split; [done|]. by exists r0.
      * left. cbn. unfold inRec in Hc. cbn in Hc. done.
    + intros [(Hx & Ht & ->)|(Hx & r & Hin & Hc & <-)].
      * exists (MkPlock typ s e pid). split; [by right|]. done.
      * destruct (proj2 (splitRec_at s e r x (pTyp r) (Hw _ _ _ Hin) H0 H1 H2)) as (r' & Hr' & Hc' & Ht'); [done|].
        exists r'. split; [left; by exists r|done].
  - intros i k t x Hne. unfold holds. by rewrite Hoth.
Qed.

Lemma setlk_wf inode me typ s e pid d d' :
  recs_wf d -> range_ok s e -> setlkBody order inode me typ s e pid d = inl d' -> recs_wf d'.
Proof.
  intros Hw (H0 & H1 & H2) Hb i k r Hin. destruct (setlk_rows _ _ _ _ _ _ _ _ Hb) as (_ & Hme & Hoth).
  destruct (decide ((i, k) = (inode, me))) as [[= -> ->]|Hne]; [|rewrite Hoth in Hin by done; by eapply Hw].
  rewrite Hme in Hin. apply splitRange_elem in Hin as [(r0 & Hr0 & Hr)|[Ht ->]]; [|done].
  eapply splitRec_wf; [by eapply Hw|exact H0|exact H1|exact H2|done].
Qed.
End Setlk.

(** ** Exclusion *)

(** One call, in any environment; ranges are uint64 intervals, as the kernel
    passes them. *)
Inductive lockStep : lockDb -> lockDb -> Prop :=
| k_flock f sid inode owner typ d : lockStep d (Flock f sid inode owner typ d).1
| k_setlk order f sid inode owner typ s e pid d :
    (forall l, order l ≡ₚ l) -> range_ok s e -> lockStep d (Setlk order f sid inode owner typ s e pid d).1
| k_clear_all f d : lockStep d (ClearAllLocks f d).1
| k_clear_sid f sid d : lockStep d (ClearLocksForSID f sid d).1
| k_clear f sid inode owner d : lockStep d (ClearPlocks f sid inode owner d).

Definition exclusive (d : lockDb) : Prop :=
  (forall i k1 k2 t1 t2 x, k1 <> k2 -> holds d i k1 t1 x -> holds d i k2 t2 x -> t1 <> F_WRLCK) /\
  (forall i k1 k2 t1 t2, k1 <> k2 -> flock d !! (i, k1) = Some t1 -> flock d !! (i, k2) = Some t2 -> t1 <> FlockExclusive).

Definition locks_ok (d : lockDb) : Prop := recs_wf d /\ exclusive d.

Lemma lockTx_cases f body d d' e : lockTx f body d = (d', e) -> (d' = d /\ e <> None) \/ body d = inl d'.
Proof. unfold lockTx. destruct f, (body d); naive_solver. Qed.

(** Fewer rows, fewer conflicts. *)
Lemma locks_ok_sub d d' : flock d' ⊆ flock d -> plock d' ⊆ plock d -> locks_ok d -> locks_ok d'.
Proof.
  intros Hf Hp (Hw & He & Hx).
  assert (Hm : forall i k r, r ∈ loadMyPlock i k d' -> r ∈ loadMyPlock i k d).
  { intros i k r. unfold loadMyPlock. destruct (plock d' !! (i, k)) as [rs|] eqn:E; [|by intros ?%not_elem_of_nil].
    by rewrite (lookup_weaken _ _ _ _ E Hp). }
  assert (Hh : forall i k t x, holds d' i k t x -> holds d i k t x) by (intros i k t x (r & Hr & H); exists r; auto).
  split; [intros i k r Hr; by apply (Hw i k), Hm|split].
  - intros i k1 k2 t1 t2 x Hk H1 H2. eapply He; eauto.
  - intros i k1 k2 t1 t2 Hk H1 H2. eapply Hx; eauto using lookup_weaken.
Qed.

Lemma flock_ok inode me typ d d' : flockBody inode me typ d = inl d' -> locks_ok d -> locks_ok d'.
Proof.
  unfold flockBody. destruct (typ =? FlockUnlock); [intros [= <-]; apply locks_ok_sub; cbn; [apply delete_subseteq|done]|].
  unfold flockBusy. case_bool_decide as Hb; [done|]. intros [= <-] (Hw & He & Hx). split; [done|]. split; [done|].
  assert (Hno : forall k t, k <> me -> flock d !! (inode, k) = Some t -> typ <> FlockExclusive /\ t <> FlockExclusive).
  { intros k t Hk Ht. destruct (flockConflict typ t) eqn:E.
    - exfalso. apply Hb. exists (inode, k), t. split; [|done]. by apply map_lookup_filter_Some.
    - unfold flockConflict in E. apply orb_false_iff in E as [?%Z.eqb_neq ?%Z.eqb_neq]. tauto. }
  intros i k1 k2 t1 t2 Hk H1 H2. cbn in H1, H2.
  apply lookup_insert_Some in H1 as [[[= <- <-] <-]|[Hn1 H1]]; apply lookup_insert_Some in H2 as [[[= <-] <-]|[Hn2 H2]]; try done.
  - destruct (Hno k2 t2); [congruence|done..].
  - destruct (Hno k1 t1); [congruence|done..].
  - by eapply Hx.
Qed.

Lemma setlk_ok order inode me typ s e pid d d' :
  (forall l, order l ≡ₚ l) -> range_ok s e -> setlkBody order inode me typ s e pid d = inl d' -> locks_ok d -> locks_ok d'.
Proof.
  intros Ho Hr Hb (Hw & He & Hx). destruct (setlk_holds order inode me typ s e pid d d' Hw Hr Hb) as [Hme Hoth].
  split; [by eapply setlk_wf|]. split; [|by rewrite (proj1 (setlk_rows order _ _ _ _ _ _ _ _ Hb))].
  assert (Hfree : forall k t x, k <> me -> s <= x <= e -> typ <> F_UNLCK -> holds d inode k t x -> typ <> F_WRLCK /\ t <> F_WRLCK).
  { intros k t x Hk Hxr Ht Hh. unfold setlkBody in Hb. destruct (setlkBusy order inode me typ s e d) eqn:E; [done|].
    rewrite <- not_true_iff_false in E. rewrite (setlkBusy_spec order Ho inode me typ s e d Hw Hr) in E.
    split; intros Heq; apply E; (split; [done|]); exists k, t, x; auto. }
  intros i k1 k2 t1 t2 x Hk H1 H2.
  destruct (decide (i = inode)) as [->|Hi];
    [|apply Hoth in H1; [|congruence]; apply Hoth in H2; [|congruence]; by eapply He; [|exact H1|exact H2]].
  destruct (decide (k1 = me)) as [->|N1]; [|destruct (decide (k2 = me)) as [->|N2]].
  - apply Hme in H1. apply Hoth in H2; [|congruence]. destruct H1 as [(Hxr & Ht & ->)|[_ H1]]; [|by eapply He; [|exact H1|exact H2]].
    destruct (Hfree k2 t2 x); [congruence|done..].
  - apply Hme in H2. apply Hoth in H1; [|congruence]. destruct H2 as [(Hxr & Ht & ->)|[_ H2]]; [|by eapply He; [|exact H1|exact H2]].
    destruct (Hfree k1 t1 x); done.
  - apply Hoth in H1; [|congruence]. apply Hoth in H2; [|congruence]. by eapply He; [|exact H1|exact H2].
Qed.

Lemma lockStep_ok d d' : lockStep d d' -> locks_ok d -> locks_ok d'.
Proof.
  destruct 1 as [f sid i o typ d|order f sid i o typ s e pid d Ho Hr|f d|f sid d|f sid i o d]; intros Hok.
  - destruct (Flock f sid i o typ d) as [d1 st] eqn:E. destruct (lockTx_cases _ _ _ _ _ E) as [[-> _]|Hb]; [done|]. by eapply flock_ok.
  - destruct (Setlk order f sid i o typ s e pid d) as [d1 st] eqn:E. destruct (lockTx_cases _ _ _ _ _ E) as [[-> _]|Hb]; [done|].
    by eapply setlk_ok.
  - destruct (ClearAllLocks f d) as [d1 st] eqn:E. destruct (lockTx_cases _ _ _ _ _ E) as [[-> _]|[= <-]]; [done|].
    revert Hok. apply locks_ok_sub; apply map_empty_subseteq.
  - destruct (ClearLocksForSID f sid d) as [d1 st] eqn:E. destruct (lockTx_cases _ _ _ _ _ E) as [[-> _]|[= <-]]; [done|].
    revert Hok. apply locks_ok_sub; apply map_filter_subseteq.
  - unfold ClearPlocks. destruct (o =? 0); [done|]. destruct f; [|done|]; (revert Hok; apply locks_ok_sub; cbn; [done|apply delete_subseteq]).
Qed.

Lemma locks_ok_empty : locks_ok (MkLocks ∅ ∅).
Proof.
  assert (Hn : forall i k r, r ∈ loadMyPlock i k (MkLocks ∅ ∅) -> False).
  { intros i k r. unfold loadMyPlock. cbn. rewrite lookup_empty. apply not_elem_of_nil. }
  split; [intros i k r Hr; by apply Hn in Hr|split].
  - intros i k1 k2 t1 t2 x _ (r & Hr & _). by apply Hn in Hr.
  - intros i k1 k2 t1 t2 _ H1. cbn in H1. by rewrite lookup_empty in H1.
Qed.

Lemma lockSteps_ok d d' : rtc lockStep d d' -> locks_ok d -> locks_ok d'.
Proof. induction 1; eauto using lockStep_ok. Qed.

(** C26: locks exclude.  After any sequence of lock, unlock and reaping calls by
    any sessions and owners, each with any fate, no byte of a file is
    write-locked by one holder while another holds any lock on it, and no file
    has an exclusive whole-file lock beside another one. *)
Theorem locks_exclusive d : rtc lockStep (MkLocks ∅ ∅) d -> recs_wf d /\ exclusive d.
Proof. intros H. exact (lockSteps_ok _ _ H locks_ok_empty). Qed.

(** Two readers, one of which then locks a tail for writing. *)
Definition lockDemo1 : lockDb := (Setlk id Commits 1 7 10 F_RDLCK 0 99 5 (MkLocks ∅ ∅)).1.
Definition lockDemo2 : lockDb := (Setlk id Commits 2 7 20 F_RDLCK 0 49 6 lockDemo1).1.
Definition lockDemo : lockDb := (Setlk id Commits 1 7 10 F_WRLCK 50 60 5 lockDemo2).1.

Lemma lockDemo_steps : rtc lockStep (MkLocks ∅ ∅) lockDemo.
Proof.
  apply (rtc_l _ _ lockDemo1); [apply k_setlk; [done|unfold range_ok; lia]|].
  apply (rtc_l _ _ lockDemo2); [apply k_setlk; [done|unfold range_ok; lia]|].
  apply rtc_once. apply k_setlk; [done|unfold range_ok; lia].
Qed.

Lemma locks_exclusive_witness :
  plock lockDemo !! (7, (1, 10)) = Some [MkPlock F_RDLCK 0 49 5; MkPlock F_RDLCK 61 99 5; MkPlock F_WRLCK 50 60 5] /\
  recs_wf lockDemo /\ exclusive lockDemo.
Proof. split; [vm_compute; reflexivity|]. exact (locks_exclusive lockDemo lockDemo_steps). Defined.

(** A byte-range request that the server answers is granted exactly when it
    is an unlock or no other holder has an incompatible lock on a byte of it;
    granted, it sets the caller's lock on exactly those bytes and changes
    nothing else; refused, it reports EAGAIN and changes nothing.  [Getlk]
    announces which of the two it would be. *)
Theorem setlk_spec order sid inode owner typ s e pid d d' st :
  (forall l, order l ≡ₚ l) -> recs_wf d -> range_ok s e ->
  Setlk order Commits sid inode owner typ s e pid d = (d', st) ->
  let blocked := exists k t x, k <> (sid, owner) /\ s <= x <= e /\ holds d inode k t x /\ (typ = F_WRLCK \/ t = F_WRLCK) in
  (st = None <-> typ = F_UNLCK \/ ~ blocked) /\
  (st = None ->
    (forall t x, holds d' inode (sid, owner) t x <->
       (s <= x <= e /\ typ <> F_UNLCK /\ t = typ) \/ (~ (s <= x <= e) /\ holds d inode (sid, owner) t x)) /\
    (forall i k t x, (i, k) <> (inode, (sid, owner)) -> holds d' i k t x <-> holds d i k t x) /\ flock d' = flock d) /\
  (st <> None -> st = Some EAGAIN /\ d' = d) /\
  (typ <> F_UNLCK -> blocked <-> Getlk order true sid inode owner typ s e d <> inl (F_UNLCK, s, e, 0)).
Proof.
  intros Ho Hw Hr H blocked. unfold Setlk, lockTx in H. pose proof (setlkBusy_spec order Ho inode (sid, owner) typ s e d Hw Hr) as Hb.
  destruct (setlkBody order inode (sid, owner) typ s e pid d) as [d1|er] eqn:E.
  - injection H as <- <-. assert (setlkBusy order inode (sid, owner) typ s e d = false) as Ef
      by (unfold setlkBody in E; by destruct (setlkBusy _ _ _ _ _ _ _)).
    rewrite Ef in Hb. split_and!; [|intros _|done|].
    + destruct (decide (typ = F_UNLCK)); [tauto|]. split; [|done]. intros _. right. intros Hbl. by discriminate (proj2 Hb (conj n Hbl)).
    + destruct (setlk_holds order inode _ typ s e pid d d1 Hw Hr E) as [H1 H2]. split_and!; [done|done|].
      by destruct (setlk_rows order _ _ _ _ _ _ _ _ E).
    + intros Ht. split; [intros Hbl; by discriminate (proj2 Hb (conj Ht Hbl))|]. intros Hg. exfalso. apply Hg. unfold Getlk. cbn [negb].
      unfold setlkBusy in Ef. apply andb_false_iff in Ef as [Ef|Ef]; [by rewrite negb_false_iff, Z.eqb_eq in Ef|].
      apply bool_decide_eq_false, eq_None_not_Some in Ef. by rewrite Ef.
  - injection H as <- <-. unfold setlkBody in E. destruct (setlkBusy order inode (sid, owner) typ s e d) eqn:Ef;
      [|by destruct (splitRange _ _ _ _ _)]. injection E as <-. destruct (proj1 Hb eq_refl) as [Ht Hbl]. split_and!; [|done|done|].
    + split; [done|]. tauto.
    + intros _. split; [|done]. intros _. unfold Getlk. cbn [negb]. unfold setlkBusy in Ef. apply andb_true_iff in Ef as [_ Ef].
      apply bool_decide_eq_true in Ef as [r Er]. rewrite Er. intros [= H1 _ _ _].
      apply plockConflict_Some in Er as [Hin _]. apply (others_elem order Ho) in Hin as (k & _ & Hin). by destruct (Hw _ _ _ Hin) as (_ & _ & _ & Hu).
Qed.

(** The second reader wants bytes 40 to 45 for writing: the first has them. *)
Lemma setlk_spec_witness :
  (Setlk id Commits 2 7 20 F_WRLCK 40 45 6 lockDemo).2 = Some EAGAIN /\
  Getlk id true 2 7 20 F_WRLCK 40 45 lockDemo <> inl (F_UNLCK, 40, 45, 0).
Proof.
  split; [vm_compute; reflexivity|].
  destruct (setlk_spec id 2 7 20 F_WRLCK 40 45 6 lockDemo lockDemo (Some EAGAIN)) as (_ & _ & _ & Hg).
  - done.
  - exact (proj1 (lockSteps_ok _ _ lockDemo_steps locks_ok_empty)).
  - unfold range_ok. lia.
  - vm_compute. reflexivity.
  - apply Hg; [done|]. exists (1, 10), F_RDLCK, 40. split; [done|]. split; [lia|]. split; [|by left].
    exists (MkPlock F_RDLCK 0 49 5). split; [vm_compute; by left|]. split; [unfold inRec; cbn; lia|done].
Defined.

(** ** Interleaved transactions *)

(** At the server's default isolation level a transaction's query sees what is
    committed when it runs, and its INSERT waits for nobody else's row: the look
    and the write of [flockBody] are two steps, with the requests that looked
    and found nobody pending in between. *)
Inductive raceStep (inode : Z) : lockDb * list (holder * Z) -> lockDb * list (holder * Z) -> Prop :=
| race_look me typ d p :
    typ <> FlockUnlock -> flockBusy inode me typ d = false -> raceStep inode (d, p) (d, p ++ [(me, typ)])
| race_write me typ d p1 p2 :
    raceStep inode (d, p1 ++ (me, typ) :: p2) (set_flock (<[(inode, me) := typ]> (flock d)) d, p1 ++ p2).

(** Two exclusive locks on one file.  Two sessions ask for the exclusive
    lock of a file nobody holds; both transactions look before either has
    committed, both find nobody and both insert their row. *)
Theorem flock_race :
  exists d, rtc (raceStep 7) (MkLocks ∅ ∅, []) (d, []) /\
    flock d !! (7, (1, 10)) = Some FlockExclusive /\ flock d !! (7, (2, 20)) = Some FlockExclusive /\ ~ exclusive d.
Proof.
  set (d := MkLocks (<[(7, (2, 20)) := FlockExclusive]> (<[(7, (1, 10)) := FlockExclusive]> ∅)) ∅). exists d. split_and!.
  - eapply rtc_l; [apply (race_look 7 (1, 10) FlockExclusive); [done|vm_compute; reflexivity]|].
    eapply rtc_l; [apply (race_look 7 (2, 20) FlockExclusive); [done|vm_compute; reflexivity]|].
    eapply rtc_l; [apply (race_write 7 (1, 10) FlockExclusive _ [] [((2, 20), FlockExclusive)])|].
    eapply rtc_l; [apply (race_write 7 (2, 20) FlockExclusive _ [] [])|]. apply rtc_refl.
  - by vm_compute.
  - by vm_compute.
  - intros [_ H]. by eapply (H 7 (1, 10) (2, 20)); [done|vm_compute; reflexivity..|].
Qed.
