(* ===== verification/FileMeta.v ===== *)
(** File contents in the metadata database (mlfs/internal/meta: slices.go and
    the data operations of ops.go).

    A file is a length and rows of [slice_ref]; [cell] is the byte a reader
    sees at an offset: the last row written over it, read in the stored slice
    it names, and zero in a hole.  Each operation comes with what it does to
    [cell] and to the length.

    [Clone] and [CloneRange] copy rows with INSERT ... SELECT, which leaves the
    order of the copies, and with it the overlay, to the server: [order] is
    that choice. *)

From S2P Require Import Prelude GoStrings Overlay MetaDb.

Section Attrs.
  Context (t : instant) (a : Attr).

(** [mtime = ctime = now]. *)
Definition touchM : Attr :=
  MkAttr (Typ a) (Mode a) (Uid a) (Gid a) (Atime a) (tsec t) (tsec t) (Atimensec a) (tnsec t) (tnsec t)
         (Nlink a) (Length a) (Rdev a) (Parent a) (StoreClass a) (ContentHash a).

(** [ctime = now]. *)
Definition touchC : Attr :=
  MkAttr (Typ a) (Mode a) (Uid a) (Gid a) (Atime a) (Mtime a) (tsec t) (Atimensec a) (Mtimensec a) (tnsec t)
         (Nlink a) (Length a) (Rdev a) (Parent a) (StoreClass a) (ContentHash a).
End Attrs.

Definition with_length (n : Z) (a : Attr) : Attr :=
  MkAttr (Typ a) (Mode a) (Uid a) (Gid a) (Atime a) (Mtime a) (Ctime a) (Atimensec a) (Mtimensec a) (Ctimensec a)
         (Nlink a) n (Rdev a) (Parent a) (StoreClass a) (ContentHash a).
Definition with_class (n : Z) (a : Attr) : Attr :=
  MkAttr (Typ a) (Mode a) (Uid a) (Gid a) (Atime a) (Mtime a) (Ctime a) (Atimensec a) (Mtimensec a) (Ctimensec a)
         (Nlink a) (Length a) (Rdev a) (Parent a) n (ContentHash a).
Definition with_hash (h : string) (a : Attr) : Attr :=
  MkAttr (Typ a) (Mode a) (Uid a) (Gid a) (Atime a) (Mtime a) (Ctime a) (Atimensec a) (Mtimensec a) (Ctimensec a)
         (Nlink a) (Length a) (Rdev a) (Parent a) (StoreClass a) h.

(** ** Reading *)

Definition GetAttr (up : bool) (inode : Z) (d : db) : Attr + errno :=
  if negb up then inr EIO else match node d !! inode with Some a => inl a | None => inr ENOENT end.

(** An INTEGER column or parameter. *)
Definition int4 (z : Z) : bool := (- 2 ^ 31 <=? z) && (z <? 2 ^ 31).

Definition chunkRows (d : db) (inode indx : Z) : list SliceRef :=
  srRef <$> filter (fun r => srIno r = inode /\ srIndx r = indx) (slice_ref d).

Definition ReadSlices (up : bool) (inode indx : Z) (d : db) : list SliceRef + errno :=
  if negb up || negb (int4 indx) then inr EIO else inl (chunkRows d inode indx).

Definition LiveSliceIDs (d : db) : list Z := remove_dups ((fun r => Id (srRef r)) <$> slice_ref d).

Definition LiveSliceIDsIn (ids : list Z) (d : db) : list Z := filter (fun i => i ∈ ids) (LiveSliceIDs d).

(** ** Plain UPDATEs *)

Definition updateAttr (up : bool) (inode : Z) (g : Attr -> Attr) (d : db) : db * status :=
  if negb up then (d, Some EIO)
  else match node d !! inode with
       | Some a => (set_node (<[inode := g a]> (node d)) d, None)
       | None => (d, Some ENOENT)
       end.
Definition SetStoreClass (up : bool) (inode class : Z) (d : db) : db * status := updateAttr up inode (with_class class) d.
Definition SetContentHash (up : bool) (inode : Z) (hash : string) (d : db) : db * status := updateAttr up inode (with_hash hash) d.

(** ** Writing *)

(** UNIQUE (inode, slice_id). *)
Definition conflicts (r s : sliceRow) : bool := (srIno r =? srIno s) && (Id (srRef r) =? Id (srRef s)).

(** INSERT ... ON CONFLICT (inode, slice_id) DO NOTHING. *)
Definition insertRow (rows : list sliceRow) (r : sliceRow) : list sliceRow :=
  if existsb (conflicts r) rows then rows else rows ++ [r].

Definition writeBody (t : instant) (inode indx off : Z) (s : SliceRef) (d : db) : txr :=
  match node d !! inode with
  | None => TxAbort ENOENT
  | Some cur =>
      if negb (Typ cur =? TypeFile) then TxAbort EINVAL
      else
        let row := MkRow inode indx (MkSlice off (Id s) (sSize s) (Off s) (Len s)) in
        if negb (forallb int4 [indx; off; sSize s; Off s; Len s]) then TxSql
        else if existsb (conflicts row) (slice_ref d) then TxOk d
        else
          let newLen := (indx * ChunkSize + off + Len s) mod 2 ^ 64 in
          let length := if Length cur <? newLen then newLen else Length cur in
          TxOk (appendChangelog t inode opWrite (PWrite indx off (Len s))
                 (set_node (<[inode := touchM t (with_length length cur)]> (node d))
                   (set_slices (slice_ref d ++ [row]) d)))
  end.

(** [Engine.Write]: the slice's own position is not used. *)
Definition MetaWrite (v : menv) (inode indx off : Z) (s : SliceRef) (m : meta) : meta * status :=
  mutating v inode (writeBody (mnow v) inode indx off s) m.

(** The absolute offset of a row. *)
Definition rowStart (r : sliceRow) : Z := srIndx r * ChunkSize + Pos (srRef r).
Definition rowEnd (r : sliceRow) : Z := rowStart r + Len (srRef r).

Definition with_len (n : Z) (r : sliceRow) : sliceRow :=
  MkRow (srIno r) (srIndx r) (MkSlice (Pos (srRef r)) (Id (srRef r)) (sSize (srRef r)) (Off (srRef r)) n).

(** The DELETE, then the UPDATE of a shrinking [Truncate]. *)
Definition dropBeyond (inode size : Z) (rows : list sliceRow) : list sliceRow :=
  filter (fun r => ~ (srIno r = inode /\ size <= rowStart r)) rows.
Definition trimStraddling (inode size : Z) (r : sliceRow) : sliceRow :=
  if (srIno r =? inode) && (rowStart r <? size) && (size <? rowEnd r) then with_len (size - rowStart r) r else r.

Definition truncateBody (t : instant) (inode size : Z) (d : db) : txr :=
  match node d !! inode with
  | None => TxAbort ENOENT
  | Some cur =>
      if Typ cur =? TypeDirectory then TxAbort EISDIR
      else
        let rows := if size <? Length cur then trimStraddling inode size <$> dropBeyond inode size (slice_ref d)
                    else slice_ref d in
        TxOk (appendChangelog t inode opSetattr (PTruncate size)
               (set_node (<[inode := touchM t (with_length size cur)]> (node d)) (set_slices rows d)))
  end.

Definition MetaTruncate (v : menv) (inode size : Z) (m : meta) : meta * status :=
  mutating v inode (truncateBody (mnow v) inode size) m.

(** ** Copy-on-write *)

Definition copyRow (dst delta : Z) (r : sliceRow) : sliceRow := MkRow dst (srIndx r + delta) (srRef r).

Definition cloneRangeBody (order : list sliceRow -> list sliceRow) (t : instant)
    (src dst srcIdx dstIdx n : Z) (d : db) : txr :=
  match node d !! src, node d !! dst with
  | Some _, Some da =>
      if negb (Typ da =? TypeFile) then TxAbort EINVAL
      else if negb (forallb int4 [dstIdx; u32 (dstIdx + n); srcIdx; u32 (srcIdx + n)]) then TxSql
      else
        let kept := filter (fun r => ~ (srIno r = dst /\ dstIdx <= srIndx r < u32 (dstIdx + n))) (slice_ref d) in
        let sel := order (filter (fun r => srIno r = src /\ srcIdx <= srIndx r < u32 (srcIdx + n)) kept) in
        TxOk (appendChangelog t dst opWrite (PCloneRange src srcIdx dstIdx n)
               (set_slices (fold_left insertRow (copyRow dst (dstIdx - srcIdx) <$> sel) kept) d))
  | _, _ => TxAbort ENOENT
  end.

Definition CloneRange (v : menv) (order : list sliceRow -> list sliceRow) (src dst srcIdx dstIdx n : Z) (m : meta) : meta * status :=
  if n =? 0 then (m, None) else mutating v dst (cloneRangeBody order (mnow v) src dst srcIdx dstIdx n) m.

Definition cloneBody (order : list sliceRow -> list sliceRow) (t : instant) (src dst : Z) (d : db) : txr :=
  match node d !! src, node d !! dst with
  | Some sa, Some da =>
      if negb (Typ sa =? TypeFile) then TxAbort EINVAL
      else
        let sel := order (filter (fun r => srIno r = src) (slice_ref d)) in
        TxOk (appendChangelog t dst opWrite (PClone src (Length sa))
               (set_node (<[dst := touchM t (with_length (Length sa) da)]> (node d))
                 (set_slices (fold_left insertRow (copyRow dst 0 <$> sel) (slice_ref d)) d)))
  | _, _ => TxAbort ENOENT
  end.

Definition MetaClone (v : menv) (order : list sliceRow -> list sliceRow) (src dst : Z) (m : meta) : meta * status :=
  mutating v dst (cloneBody order (mnow v) src dst) m.

(** ** What a reader sees *)

Definition rowCovers (inode k : Z) (r : sliceRow) : bool :=
  (srIno r =? inode) && (rowStart r <=? k) && (k <? rowEnd r).

(** The last row of [inode] over offset [k]. *)
Definition lastRow (rows : list sliceRow) (inode k : Z) : option sliceRow :=
  find (rowCovers inode k) (reverse rows).

(** The byte of a row at [k], given the stored slices. *)
Definition rowByte (sv : Z -> option bytes) (r : sliceRow) (k : Z) : byte :=
  default Byte.x00 (sv (Id (srRef r)) ≫= fun b => b !! Z.to_nat (Off (srRef r) + (k - rowStart r))).

Definition cellOf (sv : Z -> option bytes) (rows : list sliceRow) (inode k : Z) : byte :=
  match lastRow rows inode k with Some r => rowByte sv r k | None => Byte.x00 end.

Definition cell (sv : Z -> option bytes) (d : db) (inode k : Z) : byte := cellOf sv (slice_ref d) inode k.

(** A row stays within its chunk and within its stored slice. *)
Definition row_ok (sv : Z -> option bytes) (r : sliceRow) : Prop :=
  0 <= srIndx r /\ 0 <= Pos (srRef r) /\ 0 <= Len (srRef r) /\ Pos (srRef r) + Len (srRef r) <= ChunkSize /\
  0 <= Off (srRef r) /\ 0 < Id (srRef r) /\
  exists b, sv (Id (srRef r)) = Some b /\ Off (srRef r) + Len (srRef r) <= len b /\ len b <= ChunkSize.

Definition rowKey (r : sliceRow) : Z * Z := (srIno r, Id (srRef r)).

Definition rows_ok (sv : Z -> option bytes) (d : db) : Prop :=
  Forall (row_ok sv) (slice_ref d) /\ NoDup (rowKey <$> slice_ref d).

(** Nothing to see past the end of a file. *)
Definition ends_ok (sv : Z -> option bytes) (d : db) : Prop :=
  forall i a k, node d !! i = Some a -> Length a <= k -> cell sv d i k = Byte.x00.

Lemma ChunkSize_val : ChunkSize = 67108864.
Proof. done. Qed.

Lemma ChunkSize_pos : 0 < ChunkSize.
Proof. done. Qed.

#[global] Opaque ChunkSize.

Lemma rowCovers_spec i k r : rowCovers i k r = true <-> srIno r = i /\ rowStart r <= k < rowEnd r.
Proof. unfold rowCovers. rewrite !andb_true_iff, Z.eqb_eq, Z.leb_le, Z.ltb_lt. tauto. Qed.

Lemma lastRow_snoc rows r i k : lastRow (rows ++ [r]) i k = if rowCovers i k r then Some r else lastRow rows i k.
Proof. unfold lastRow. by rewrite reverse_app. Qed.

Lemma lastRow_app rows l i k : lastRow (rows ++ l) i k = match lastRow l i k with Some r => Some r | None => lastRow rows i k end.
Proof.
  induction l as [|r l IH] using rev_ind; [by rewrite app_nil_r|].
  rewrite app_assoc, !lastRow_snoc, IH. by destruct (rowCovers i k r).
Qed.

Lemma lastRow_Some rows i k r : lastRow rows i k = Some r -> r ∈ rows /\ rowCovers i k r = true.
Proof. intros H. apply find_some in H as [H1 H2]. split; [|done]. by apply elem_of_reverse, list_elem_of_In. Qed.

Lemma lastRow_None rows i k : lastRow rows i k = None <-> Forall (fun r => rowCovers i k r = false) rows.
Proof.
  unfold lastRow. rewrite <- Forall_reverse. generalize (reverse rows) as l. clear rows.
  induction l as [|r l IH]; cbn; [done|]. rewrite Forall_cons. destruct (rowCovers i k r); naive_solver.
Qed.

(** Rows that do not cover [k] can be dropped, and a change to the others that
    keeps whether they cover it commutes. *)
Lemma lastRow_filter (P : sliceRow -> Prop) `{!forall r, Decision (P r)} rows i k :
  Forall (fun r => rowCovers i k r = true -> P r) rows -> lastRow (filter P rows) i k = lastRow rows i k.
Proof.
  induction rows as [|r rows IH] using rev_ind; [done|]. rewrite Forall_app, Forall_singleton. intros [HF Hr].
  rewrite filter_app, lastRow_snoc, filter_cons, filter_nil.
  destruct (decide (P r)) as [Hp|Hp].
  - rewrite lastRow_snoc. by destruct (rowCovers i k r); auto.
  - rewrite app_nil_r. destruct (rowCovers i k r) eqn:E; [by destruct Hp; auto|auto].
Qed.

Lemma lastRow_map (f : sliceRow -> sliceRow) rows i j k l :
  Forall (fun r => rowCovers j l (f r) = rowCovers i k r) rows -> lastRow (f <$> rows) j l = f <$> lastRow rows i k.
Proof.
  induction rows as [|r rows IH] using rev_ind; [done|]. rewrite Forall_app, Forall_singleton. intros [HF Hr].
  rewrite fmap_app. cbn [fmap list_fmap]. rewrite !lastRow_snoc, Hr. destruct (rowCovers i k r); auto.
Qed.

(** A row of a chunk covers only offsets of that chunk. *)
Lemma row_ok_chunk sv r i k : row_ok sv r -> rowCovers i k r = true -> srIndx r = k / ChunkSize.
Proof.
  intros (H1 & H2 & H3 & H4 & _) [_ Hk]%rowCovers_spec. unfold rowEnd, rowStart in Hk.
  pose proof ChunkSize_pos. apply Z.div_unique with (k - srIndx r * ChunkSize); lia.
Qed.

Lemma cellOf_snoc sv rows r i k : cellOf sv (rows ++ [r]) i k = if rowCovers i k r then rowByte sv r k else cellOf sv rows i k.
Proof. unfold cellOf. rewrite lastRow_snoc. by destruct (rowCovers i k r). Qed.

(** Only the slices the rows name matter. *)
Definition agree_on (sv sv' : Z -> option bytes) (rows : list sliceRow) : Prop :=
  Forall (fun r => sv' (Id (srRef r)) = sv (Id (srRef r))) rows.

Lemma row_ok_ext sv sv' rows : agree_on sv sv' rows -> Forall (row_ok sv) rows -> Forall (row_ok sv') rows.
Proof.
  unfold agree_on. rewrite !Forall_forall. intros H HF r Hr. specialize (HF r Hr). unfold row_ok in *. by rewrite (H r Hr).
Qed.

Lemma cellOf_ext sv sv' rows i k : agree_on sv sv' rows -> cellOf sv' rows i k = cellOf sv rows i k.
Proof.
  unfold agree_on. rewrite Forall_forall. intros H. unfold cellOf.
  destruct (lastRow rows i k) as [r|] eqn:E; [|done]. apply lastRow_Some in E as [E _].
  unfold rowByte. by rewrite (H r E).
Qed.
