(* ===== verification/FileIO.v ===== *)
(** The file data path (mlfs/internal/fileio: fileio.go, replay.go).

    [Files] turns reads and writes at byte offsets into slices of a slice store
    and rows of the metadata database.  The store is an interface,
    [SliceStore]; its laws are what the data path relies on.  Each call takes
    what its environment answers: per chunk written, whether a slice id can be
    reserved, what the store, the log and the metadata transaction do.

    [ReplayWAL] re-applies the logged operations at start-up. *)

From S2P Require Import Prelude GoStrings Sha256 Overlay Wal MetaDb FileMeta.

(** ** The slice store *)

(** [chunkstore.Store], as far as the data path uses it.  [ReadAt] returns the
    bytes it copied into the buffer of the given length. *)
Class SliceStore (S : Type) := {
  storeIO : Type;
  sWrite : storeIO -> Z -> bytes -> Z -> S -> S * option err;
  sReadAt : storeIO -> Z -> Z -> Z -> S -> S * result bytes }.

(** What the data path relies on.  A slice is written once, under an id the
    store has not seen ([stouched]); a stored slice stays readable, through
    other writes and through whatever the store does on its own ([sStep]:
    background work, a crash and a restart); a read is cut at the slice's end,
    and fails only when the store does.  [sinv] is the store's own invariant. *)
Class SliceStoreLaws (S : Type) `{!SliceStore S} := {
  sinv : S -> Prop;
  sview : S -> Z -> option bytes;
  stouched : S -> Z -> Prop;
  storeUp : storeIO -> Prop;
  sStep : S -> S -> Prop;
  sStep_inv s s' : sinv s -> sStep s s' -> sinv s';
  sStep_keeps s s' id b : sinv s -> sStep s s' -> sview s id = Some b -> sview s' id = Some b;
  sStep_touched s s' id : sinv s -> sStep s s' -> stouched s' id -> stouched s id;
  sWrite_inv io id b c s : sinv s -> ~ stouched s id -> sinv (sWrite io id b c s).1;
  sWrite_ok io id b c s s' : sinv s -> ~ stouched s id -> sWrite io id b c s = (s', None) -> sview s' id = Some b;
  sWrite_keeps io id b c s j x : sinv s -> j <> id -> sview s j = Some x -> sview (sWrite io id b c s).1 j = Some x;
  sWrite_touched io id b c s j : sinv s -> stouched (sWrite io id b c s).1 j -> j = id \/ stouched s j;
  sWrite_up io id b c s : sinv s -> storeUp io -> (sWrite io id b c s).2 = None;
  sReadAt_inv io id off n s : sinv s -> sinv (sReadAt io id off n s).1;
  sReadAt_view io id off n s j : sinv s -> sview (sReadAt io id off n s).1 j = sview s j;
  sReadAt_touched io id off n s j : sinv s -> stouched (sReadAt io id off n s).1 j -> stouched s j;
  sReadAt_ok io id off n s b out :
    sinv s -> sview s id = Some b -> 0 <= off <= len b -> (sReadAt io id off n s).2 = Ok out ->
    out = slice b off (Z.min (off + n) (len b));
  sReadAt_up io id off n s b : sinv s -> storeUp io -> sview s id = Some b -> is_ok (sReadAt io id off n s).2 = true }.

(** ** Files *)

Section Files.
  Context {S : Type} `{!SliceStore S}.

Record files := MkFiles { fmeta : meta; fchunks : S; fwal : option (WAL * wdir) }.

Definition set_meta (m : meta) (f : files) : files := MkFiles m (fchunks f) (fwal f).
Definition set_chunks (s : S) (f : files) : files := MkFiles (fmeta f) s (fwal f).

(** The environment of one turn of the loop of [Write]. *)
Record wenv := MkWEnv { slUp : bool; wStore : storeIO; wLog : walIO; wMeta : menv }.

(** [f.wal.Append], when there is a log. *)
Definition walAppend (io : walIO) (r : Record_) (f : files) : files * bool :=
  match fwal f with
  | None => (f, true)
  | Some (w, wd) => let '(w, wd, res) := Append io w wd r in (MkFiles (fmeta f) (fchunks f) (Some (w, wd)), is_ok res)
  end.

(** The part of the turn after the slice id: stage, log, commit. *)
Definition writeSlice (v : wenv) (ino indx pos id : Z) (b : bytes) (class : Z) (f : files) : files * option err :=
  match sWrite (wStore v) id b class (fchunks f) with
  | (s, Some e) => (set_chunks s f, Some e)
  | (s, None) =>
      match walAppend (wLog v) (MkRec 0 OpWrite ino indx pos id (u32 (len b)) 0 (u32 (len b))) (set_chunks s f) with
      | (f, false) => (f, Some (EOther "fileio: wal append"))
      | (f, true) =>
          match MetaWrite (wMeta v) ino indx pos (MkSlice 0 id (u32 (len b)) 0 (u32 (len b))) (fmeta f) with
          | (m, Some _) => (set_meta m f, Some (EOther "fileio: meta write"))
          | (m, None) => (set_meta m f, None)
          end
      end
  end.

Fixpoint writeLoop (fuel : nat) (v : nat -> wenv) (turn : nat) (ino offset : Z) (data : bytes) (class total : Z) (f : files)
    : files * (Z * option err) :=
  match fuel, data with
  | O, _ | _, [] => (f, (total, None))
  | Datatypes.S fuel, _ =>
      let indx := u32 (Z.quot offset ChunkSize) in
      let pos := u32 (Z.rem offset ChunkSize) in
      let n := if ChunkSize - pos <? len data then ChunkSize - pos else len data in
      match NewSlice (slUp (v turn)) (fmeta f) with
      | (m, Err _) => (set_meta m f, (total, Some (EOther "fileio: new slice")))
      | (m, Ok id) =>
          match writeSlice (v turn) ino indx pos id (slice data 0 n) class (set_meta m f) with
          | (f, Some e) => (f, (total, Some e))
          | (f, None) => writeLoop fuel v (turn + 1) ino (offset + n) (slice data n (len data)) class (total + n) f
          end
      end
  end.

(** A turn writes at least a byte: [length data] turns are enough. *)
Definition Write (v : nat -> wenv) (ino offset : Z) (data : bytes) (class : Z) (f : files) : files * (Z * option err) :=
  writeLoop (length data) v 0 ino offset data class 0 f.

(** ** Reading *)

(** What a read meets: whether the attributes and each chunk's rows can be
    fetched, and what the store does for each segment. *)
Record renv := MkREnv { attrUp : bool; rowsUp : nat -> bool; rStore : nat -> nat -> storeIO }.

Fixpoint readSegs (io : nat -> storeIO) (j : nat) (delta : Z) (sgs : list seg) (s : S) (buf : bytes) : S * result bytes :=
  match sgs with
  | [] => (s, Ok buf)
  | sg :: sgs =>
      if sid sg =? 0 then readSegs io j delta sgs s buf
      else match sReadAt (io j) (sid sg) (srcOff sg) (send sg - sstart sg) s with
           | (s, Err e) => (s, Err e)
           | (s, Ok out) => readSegs io (j + 1) delta sgs s (splice buf (delta + sstart sg) out)
           end
  end.

Fixpoint readLoop (fuel : nat) (v : renv) (turn : nat) (d : db) (ino offset cur end_ : Z) (s : S) (buf : bytes) : S * result bytes :=
  if end_ <=? cur then (s, Ok buf) else
  match fuel with
  | O => (s, Err (EOther "out of fuel"))
  | Datatypes.S fuel =>
      let indx := u32 (Z.quot cur ChunkSize) in
      let chunkBase := indx * ChunkSize in
      let lo := u32 (cur - chunkBase) in
      let hiByte := if end_ <? chunkBase + ChunkSize then end_ else chunkBase + ChunkSize in
      let hi := u32 (hiByte - chunkBase) in
      match ReadSlices (rowsUp v turn) ino indx d with
      | inr _ => (s, Err (EOther "fileio: read slices"))
      | inl slices =>
          match readSegs (rStore v turn) 0 (chunkBase - offset) (resolve slices lo hi) s buf with
          | (s, Err e) => (s, Err e)
          | (s, Ok buf) => readLoop fuel v (turn + 1) d ino offset hiByte end_ s buf
          end
      end
  end.

(** The chunks a window touches. *)
Definition chunkFuel (n : Z) : nat := Z.to_nat (n / ChunkSize + 2).

(** [Read] into a buffer of [n] bytes: the bytes read. *)
Definition Read (v : renv) (ino offset n : Z) (f : files) : files * result bytes :=
  match GetAttr (attrUp v) ino (mdb (fmeta f)) with
  | inr _ => (f, Err (EOther "fileio: getattr"))
  | inl attr =>
      let fileLen := Length attr in
      if (fileLen <=? offset) || (n =? 0) then (f, Ok [])
      else
        let end_ := if fileLen <? offset + n then fileLen else offset + n in
        let '(s, r) := readLoop (chunkFuel (end_ - offset)) v 0 (mdb (fmeta f)) ino offset offset end_ (fchunks f)
                         (replicate (Z.to_nat (end_ - offset)) Byte.x00) in
        (set_chunks s f, r)
  end.

Definition hashStreamSize : Z := Z.shiftl 1 20.

(** The loop of [HashFile], collecting what is fed to the hash. *)
Fixpoint hashLoop (fuel : nat) (v : nat -> renv) (turn : nat) (ino off fileLen : Z) (acc : bytes) (f : files) : files * result bytes :=
  if fileLen <=? off then (f, Ok acc) else
  match fuel with
  | O => (f, Err (EOther "out of fuel"))
  | Datatypes.S fuel =>
      let want := if hashStreamSize <? fileLen - off then hashStreamSize else fileLen - off in
      match Read (v turn) ino off want f with
      | (f, Err e) => (f, Err e)
      | (f, Ok []) => (f, Ok acc)
      | (f, Ok b) => hashLoop fuel v (turn + 1) ino (off + len b) fileLen (acc ++ b) f
      end
  end.

Definition HashFile (up : bool) (v : nat -> renv) (ino : Z) (f : files) : files * result string :=
  match GetAttr up ino (mdb (fmeta f)) with
  | inr _ => (f, Err (EOther "fileio: hash getattr"))
  | inl attr =>
      match hashLoop (Z.to_nat (Length attr / hashStreamSize + 1)) v 0 ino 0 (Length attr) [] f with
      | (f, Err e) => (f, Err e)
      | (f, Ok b) => (f, Ok (sha256_hex b))
      end
  end.

(** ** Truncate, Clone *)

Definition truncateRecord (ino size : Z) : Record_ :=
  MkRec 0 OpTruncate ino (u32 (Z.shiftr (size mod 2 ^ 64) 32)) (u32 (size mod 2 ^ 64)) 0 0 0 0.

Definition Truncate (io : walIO) (v : menv) (ino size : Z) (f : files) : files * option err :=
  match walAppend io (truncateRecord ino size) f with
  | (f, false) => (f, Some (EOther "fileio: wal append (truncate)"))
  | (f, true) =>
      match MetaTruncate v ino size (fmeta f) with
      | (m, Some _) => (set_meta m f, Some (EOther "fileio: truncate"))
      | (m, None) => (set_meta m f, None)
      end
  end.

Definition Clone (v : menv) (order : list sliceRow -> list sliceRow) (src dst : Z) (f : files) : files * option err :=
  match MetaClone v order src dst (fmeta f) with
  | (m, Some _) => (set_meta m f, Some (EOther "fileio: clone"))
  | (m, None) => (set_meta m f, None)
  end.

(** ** copy_file_range *)

(** The environment of one turn of the loop of [CopyFileRange]. *)
Record cenv := MkCEnv { cRead : renv; cWrite : nat -> wenv; cClone : menv; cOrder : list sliceRow -> list sliceRow }.

Fixpoint copyLoop (fuel : nat) (v : nat -> cenv) (turn : nat) (src dst cur dcur end_ copied : Z) (f : files) : files * (Z * option err) :=
  if end_ <=? cur then (f, (copied, None)) else
  match fuel with
  | O => (f, (copied, Some (EOther "out of fuel")))
  | Datatypes.S fuel =>
      let remaining := end_ - cur in
      let cs := ChunkSize in
      if (Z.rem cur cs =? 0) && (Z.rem dcur cs =? 0) && (cs <=? remaining) then
        let nChunks := Z.quot remaining cs in
        match CloneRange (cClone (v turn)) (cOrder (v turn)) src dst (u32 (Z.quot cur cs)) (u32 (Z.quot dcur cs)) (u32 nChunks) (fmeta f) with
        | (m, Some _) => (set_meta m f, (copied, Some (EOther "fileio: copy_file_range clone")))
        | (m, None) => let span := nChunks * cs in
                       copyLoop fuel v (turn + 1) src dst (cur + span) (dcur + span) end_ (copied + span) (set_meta m f)
        end
      else
        let step := remaining in
        let step := if cs - Z.rem cur cs <? step then cs - Z.rem cur cs else step in
        let step := if cs - Z.rem dcur cs <? step then cs - Z.rem dcur cs else step in
        match Read (cRead (v turn)) src cur step f with
        | (f, Err e) => (f, (copied, Some e))
        | (f, Ok []) => (f, (copied, None))
        | (f, Ok buf) =>
            match Write (cWrite (v turn)) dst dcur buf 0 f with
            | (f, (_, Some e)) => (f, (copied, Some e))
            | (f, (wn, None)) =>
                if len buf <? step then (f, (copied + wn, None))
                else copyLoop fuel v (turn + 1) src dst (cur + wn) (dcur + wn) end_ (copied + wn) f
            end
        end
  end.

(** A turn stops at the end of the run or at a chunk boundary on either side. *)
Definition CopyFileRange (up upDst : bool) (v : nat -> cenv) (vExt : menv) (src dst srcOff dstOff length : Z) (f : files)
    : files * (Z * option err) :=
  if length <=? 0 then (f, (0, None))
  else match GetAttr up src (mdb (fmeta f)) with
       | inr _ => (f, (0, Some (EOther "fileio: copy_file_range getattr src")))
       | inl sa =>
           if Length sa <=? srcOff then (f, (0, None))
           else
             let length := if Length sa <? srcOff + length then Length sa - srcOff else length in
             match copyLoop (Z.to_nat (2 * (length / ChunkSize) + 4)) v 0 src dst srcOff dstOff (srcOff + length) 0 f with
             | (f, (copied, Some e)) => (f, (copied, Some e))
             | (f, (copied, None)) =>
                 if copied <=? 0 then (f, (copied, None))
                 else match GetAttr upDst dst (mdb (fmeta f)) with
                      | inl da =>
                          if Length da <? dstOff + copied then
                            match MetaTruncate vExt dst (dstOff + copied) (fmeta f) with
                            | (m, Some _) => (set_meta m f, (copied, Some (EOther "fileio: copy_file_range extend dst")))
                            | (m, None) => (set_meta m f, (copied, None))
                            end
                          else (f, (copied, None))
                      | inr _ => (f, (copied, None))
                      end
             end
       end.
End Files.

Arguments files S : clear implicits.
Arguments wenv S {_}.
Arguments renv S {_}.
Arguments cenv S {_}.

(** ** Replay *)

Record ReplayResult := MkReplay { Applied : Z; Skipped : Z }.

(** The callback of [ReplayWAL]; the counter picks the environment of the
    record's transaction. *)
Definition replayOne (v : nat -> menv) (rec : Record_) (st : meta * ReplayResult * nat) : meta * ReplayResult * nat * option err :=
  let '(m, res, k) := st in
  let commit '(m, e) :=
    match e with
    | None => (m, MkReplay (Applied res + 1) (Skipped res), (k + 1)%nat, None)
    | Some ENOENT | Some EINVAL | Some ESTALE => (m, MkReplay (Applied res) (Skipped res + 1), (k + 1)%nat, None)
    | Some _ => (m, res, (k + 1)%nat, Some (EOther "wal replay: errno"))
    end in
  if Op rec =? OpWrite then
    commit (MetaWrite (v k) (rIno rec) (rIndx rec) (rOff rec) (MkSlice 0 (SliceID rec) (rSize rec) (SliceOff rec) (SliceLen rec)) m)
  else if Op rec =? OpTruncate then
    commit (MetaTruncate (v k) (rIno rec) (int_of_uint64 (Z.lor (Z.shiftl (rIndx rec) 32) (rOff rec))) m)
  else (m, res, k, Some (EOther "wal replay: unknown op")).

Definition ReplayWAL (io : walIO) (v : nat -> menv) (w : WAL) (wd : wdir) (m : meta) : meta * (WAL * wdir) * (ReplayResult * option err) :=
  match Replay (replayOne v) io w wd (m, MkReplay 0 0, 0%nat) with
  | (m, res, _, Some e) => (m, (w, wd), (res, Some e))
  | (m, res, _, None) =>
      match Checkpoint io w wd (LastSeq w) with
      | (w, wd, Err e) => (m, (w, wd), (res, Some e))
      | (w, wd, Ok _) => (m, (w, wd), (res, None))
      end
  end.
