(* ===== verification/FileSpec.v ===== *)
(** What the file data path promises: a file is a sequence of bytes.

    [contents] abstracts the rows of [slice_ref], the lengths and the stored
    slices to a map from inodes to byte sequences.  On that map a write
    overwrites (zero-extending over a gap), a truncate resizes, a clone copies
    and a read is a slice.  [files_refine] is the simulation: every operation,
    whatever its environment does, is one of the abstract ones; an operation
    that fails changes nothing, or a write a prefix of its data. *)

From S2P Require Import Prelude GoStrings Overlay Wal MetaDb FileMeta FileIO.

(** ** The abstract file system *)

Definition zeros (n : Z) : bytes := replicate (Z.to_nat n) Byte.x00.

(** POSIX write: nothing for no data; a gap past the end reads as zeros. *)
Definition overwrite (l : bytes) (off : Z) (b : bytes) : bytes :=
  match b with
  | [] => l
  | _ => slice (l ++ zeros (off - len l)) 0 off ++ b ++ slice l (off + len b) (len l)
  end.

(** POSIX truncate. *)
Definition resizeTo (l : bytes) (n : Z) : bytes := slice l 0 (Z.min n (len l)) ++ zeros (n - len l).

(** POSIX read. *)
Definition readOf (l : bytes) (off n : Z) : bytes := slice l off (Z.min (off + n) (len l)).

Abbreviation afs := (gmap Z bytes).

(** Every offset of a chunk an INTEGER index can name. *)
Definition maxOffset : Z := 2 ^ 31 * ChunkSize.

(** ** The abstraction *)

Definition bytesOf (c : Z -> byte) (n : Z) : bytes := c <$> seqZ 0 n.

Definition contents (sv : Z -> option bytes) (d : db) : afs :=
  map_imap (fun i a => Some (bytesOf (cell sv d i) (Length a))) (node d).

(** ** The invariant *)

(** A slice id that has been handed out. *)
Definition used (e : engine) (d : db) (id : Z) : Prop := id < nextslice d /\ ~ (sliceNext e <= id < sliceEnd e).

Record fs_ok (sv : Z -> option bytes) (e : engine) (d : db) : Prop := {
  ok_rows : rows_ok sv d;
  ok_ends : ends_ok sv d;
  ok_lens : forall i a, node d !! i = Some a -> 0 <= Length a < 2 ^ 63;
  ok_used : Forall (fun r => used e d (Id (srRef r))) (slice_ref d);
  ok_range : 1 <= nextslice d /\ (sliceEnd e <= sliceNext e \/ 1 <= sliceNext e /\ sliceEnd e <= nextslice d) }.

(** ** Byte sequences *)

Definition at0 (l : bytes) (k : Z) : byte := default Byte.x00 (l !! Z.to_nat k).

Lemma bytes_ext (l l' : bytes) : len l = len l' -> (forall k, 0 <= k < len l -> at0 l k = at0 l' k) -> l = l'.
Proof.
  unfold len, at0. intros Hl H. apply list_eq_same_length with (length l); [lia|lia|]. intros i x y Hi Hx Hy.
  specialize (H (Z.of_nat i) ltac:(lia)). rewrite Nat2Z.id, Hx, Hy in H. exact H.
Qed.

Lemma bytesOf_len c n : 0 <= n -> len (bytesOf c n) = n.
Proof. intros H. unfold bytesOf, len. rewrite length_fmap, length_seqZ. lia. Qed.

Lemma bytesOf_at c n k : 0 <= k < n -> at0 (bytesOf c n) k = c k.
Proof.
  intros H. unfold bytesOf, at0. rewrite list_lookup_fmap, lookup_seqZ_lt by lia. cbn. f_equal. lia.
Qed.

Lemma at0_out l k : len l <= k -> at0 l k = Byte.x00.
Proof. intros H. unfold at0. rewrite lookup_ge_None_2; [done|]. unfold len in H. lia. Qed.

Lemma at0_app l l' k : 0 <= k -> at0 (l ++ l') k = if k <? len l then at0 l k else at0 l' (k - len l).
Proof.
  intros H. unfold at0, len. destruct (Z.ltb_spec k (Z.of_nat (length l))).
  - by rewrite lookup_app_l by lia.
  - rewrite lookup_app_r by lia. do 2 f_equal. lia.
Qed.

Lemma at0_slice l i j k : 0 <= i -> 0 <= k < j - i -> at0 (slice l i j) k = at0 l (i + k).
Proof.
  intros Hi Hk. unfold at0, slice. rewrite lookup_take_lt, lookup_drop by lia. do 2 f_equal. lia.
Qed.

Lemma at0_suffix l i k : 0 <= i -> 0 <= k -> at0 (slice l i (len l)) k = at0 l (i + k).
Proof.
  intros Hi Hk. destruct (Z.lt_ge_cases (i + k) (len l)); [apply at0_slice; lia|]. rewrite (at0_out l) by lia.
  apply at0_out. unfold slice, len in *. rewrite length_take, length_drop. lia.
Qed.

Lemma zeros_len n : len (zeros n) = Z.max 0 n.
Proof. unfold zeros, len. rewrite length_replicate. lia. Qed.

Lemma at0_zeros n k : at0 (zeros n) k = Byte.x00.
Proof.
  unfold at0, zeros. destruct (replicate _ _ !! _) eqn:E; [|done]. by apply lookup_replicate in E as [-> _].
Qed.

Lemma overwrite_len l off b : 0 <= off -> b <> [] -> len (overwrite l off b) = Z.max (len l) (off + len b).
Proof.
  intros Ho Hb. unfold overwrite. destruct b as [|x b]; [done|]. pose proof (len_nonneg l). pose proof (len_nonneg (x :: b)).
  rewrite !len_app, (slice_len (l ++ _)) by (rewrite ?len_app, ?zeros_len; lia).
  destruct (Z.le_gt_cases (off + len (x :: b)) (len l)).
  - rewrite slice_len by lia. lia.
  - rewrite (slice_past l) by lia. change (len []) with 0. lia.
Qed.

Lemma overwrite_at l off b k : 0 <= off -> 0 <= k -> b <> [] ->
  at0 (overwrite l off b) k = if (off <=? k) && (k <? off + len b) then at0 b (k - off) else at0 l k.
Proof.
  intros Ho Hk Hb. unfold overwrite. destruct b as [|x b]; [done|]. set (d := x :: b) in *. pose proof (len_nonneg l). pose proof (len_nonneg d).
  rewrite at0_app, (slice_len (l ++ _)) by (rewrite ?len_app, ?zeros_len; lia).
  destruct (Z.ltb_spec k (off - 0)), (Z.leb_spec off k); cbn [andb]; try lia.
  - rewrite at0_slice, at0_app by lia. rewrite Z.add_0_l. destruct (Z.ltb_spec k (len l)); [done|].
    by rewrite at0_zeros, at0_out.
  - rewrite at0_app, Z.sub_0_r by lia.
    destruct (Z.ltb_spec (k - off) (len d)), (Z.ltb_spec k (off + len d)); try lia; [done|].
    rewrite at0_suffix by lia. f_equal. lia.
Qed.

Lemma resizeTo_len l n : 0 <= n -> len (resizeTo l n) = n.
Proof. intros H. pose proof (len_nonneg l). unfold resizeTo. rewrite len_app, slice_len, zeros_len by lia. lia. Qed.

Lemma resizeTo_at l n k : 0 <= n -> 0 <= k < n -> at0 (resizeTo l n) k = at0 l k.
Proof.
  intros Hn Hk. pose proof (len_nonneg l). unfold resizeTo. rewrite at0_app, slice_len by lia.
  destruct (Z.ltb_spec k (Z.min n (len l) - 0)); [by rewrite at0_slice, Z.add_0_l by lia|].
  by rewrite at0_zeros, at0_out by lia.
Qed.

(** ** The metadata operations on contents *)

Lemma contents_lookup sv d i : contents sv d !! i = (fun a => bytesOf (cell sv d i) (Length a)) <$> node d !! i.
Proof. unfold contents. rewrite map_lookup_imap. by destruct (node d !! i). Qed.

Lemma bytesOf_ext c c' n : (forall k, 0 <= k < n -> c k = c' k) -> bytesOf c n = bytesOf c' n.
Proof. intros H. apply list_fmap_ext. intros j k Hk%lookup_seqZ. apply H. lia. Qed.

(** Contents depend on the rows, the lengths and the stored slices in use. *)
Lemma contents_same sv sv' d d' :
  node d' = node d -> (forall i k, cell sv' d' i k = cell sv d i k) -> contents sv' d' = contents sv d.
Proof.
  intros Hn Hc. apply map_eq. intros i. rewrite !contents_lookup, Hn. destruct (node d !! i); [|done]. cbn. f_equal.
  apply bytesOf_ext. auto.
Qed.

Lemma contents_insert sv sv' d d' i a' l :
  node d' = <[i := a']> (node d) -> (forall j k, j <> i -> cell sv' d' j k = cell sv d j k) ->
  0 <= Length a' -> len l = Length a' -> (forall k, 0 <= k < Length a' -> cell sv' d' i k = at0 l k) ->
  contents sv' d' = <[i := l]> (contents sv d).
Proof.
  intros Hn Ho Hp Hl Hc. apply map_eq. intros j. rewrite contents_lookup, Hn.
  destruct (decide (j = i)) as [->|Hj].
  - rewrite !lookup_insert_eq. cbn. f_equal. apply bytes_ext; rewrite bytesOf_len by done; [done|].
    intros k Hk. rewrite bytesOf_at by done. auto.
  - rewrite !lookup_insert_ne, contents_lookup by done. destruct (node d !! j); [|done]. cbn. f_equal.
    apply bytesOf_ext. auto.
Qed.

Lemma cell_at sv d i a k : ends_ok sv d -> node d !! i = Some a -> 0 <= Length a -> 0 <= k ->
  at0 (bytesOf (cell sv d i) (Length a)) k = cell sv d i k.
Proof.
  intros He Ha Hp Hk. destruct (Z.lt_ge_cases k (Length a)); [by apply bytesOf_at|].
  rewrite at0_out by (rewrite bytesOf_len; done). symmetry. by eapply He.
Qed.

Lemma writeBody_ok t i indx off s d d' :
  writeBody t i indx off s d = TxOk d' -> Forall (fun r => Id (srRef r) <> Id s) (slice_ref d) ->
  0 <= indx * ChunkSize + off + Len s < 2 ^ 63 ->
  exists cur, node d !! i = Some cur /\
    node d' = <[i := touchM t (with_length (Z.max (Length cur) (indx * ChunkSize + off + Len s)) cur)]> (node d) /\
    slice_ref d' = slice_ref d ++ [MkRow i indx (MkSlice off (Id s) (sSize s) (Off s) (Len s))] /\ nextslice d' = nextslice d.
Proof.
  unfold writeBody. destruct (node d !! i) as [cur|] eqn:E; [|done]. intros H Hf Hb.
  destruct (negb _); [done|]. destruct (negb _); [done|].
  destruct (existsb _ _) eqn:Ex.
  { apply existsb_exists in Ex as (r & Hr & Hc). apply list_elem_of_In in Hr. rewrite Forall_forall in Hf.
    unfold conflicts in Hc. rewrite andb_true_iff, !Z.eqb_eq in Hc. cbn in Hc. exfalso. apply (Hf r Hr). lia. }
  rewrite (Z.mod_small _ (2 ^ 64)) in H by lia. exists cur. split; [done|]. injection H as <-.
  replace (if _ <? _ then _ else _) with (Z.max (Length cur) (indx * ChunkSize + off + Len s)); [done|].
  destruct (Z.ltb_spec (Length cur) (indx * ChunkSize + off + Len s)); lia.
Qed.

(** Writing [b] at [p] as a new row. *)
Lemma contents_write sv d d' i cur a' r b :
  ends_ok sv d -> node d !! i = Some cur -> 0 <= Length cur -> Length a' = Z.max (Length cur) (rowEnd r) ->
  node d' = <[i := a']> (node d) -> slice_ref d' = slice_ref d ++ [r] ->
  srIno r = i -> sv (Id (srRef r)) = Some b -> Off (srRef r) = 0 -> Len (srRef r) = len b -> b <> [] -> 0 <= rowStart r ->
  contents sv d' = <[i := overwrite (bytesOf (cell sv d i) (Length cur)) (rowStart r) b]> (contents sv d) /\ ends_ok sv d'.
Proof.
  intros He Hc Hp Ha Hn Hs Hi Hb Ho Hl Hne Hst. pose proof (len_nonneg b).
  assert (Hcell : forall j k, cell sv d' j k =
    if (i =? j) && (rowStart r <=? k) && (k <? rowStart r + len b) then at0 b (k - rowStart r) else cell sv d j k).
  { intros j k. unfold cell. rewrite Hs, cellOf_snoc. unfold rowCovers, rowEnd. rewrite Hi, Hl.
    destruct (_ && _); [|done]. unfold rowByte. rewrite Hb, Ho, Z.add_0_l. done. }
  split.
  - eapply contents_insert; [exact Hn| |lia| |].
    + intros j k Hj. rewrite Hcell. destruct (Z.eqb_spec i j); [congruence|done].
    + rewrite overwrite_len, bytesOf_len, Ha by done. unfold rowEnd. lia.
    + intros k Hk. rewrite Hcell, Z.eqb_refl, overwrite_at, (cell_at sv d i cur) by (done || lia). done.
  - intros j a k Hj Hk. rewrite Hcell. rewrite Hn in Hj. destruct (decide (j = i)) as [->|Hji].
    + rewrite lookup_insert_eq in Hj. injection Hj as <-. rewrite Ha in Hk. unfold rowEnd in Hk. rewrite Hl in Hk.
      destruct (Z.ltb_spec k (rowStart r + len b)); [lia|]. rewrite andb_false_r. apply (He _ _ _ Hc). lia.
    + rewrite lookup_insert_ne in Hj by done. destruct (Z.eqb_spec i j); [congruence|]. cbn. by eapply He.
Qed.

Lemma trim_covers i size j k r :
  ~ (srIno r = i /\ size <= rowStart r) ->
  rowCovers j k (trimStraddling i size r) = rowCovers j k r && ((negb (j =? i)) || (k <? size)).
Proof.
  intros Hd. apply eq_bool_prop_intro. rewrite !Is_true_true, andb_true_iff, orb_true_iff, negb_true_iff, Z.eqb_neq, Z.ltb_lt, !rowCovers_spec.
  unfold trimStraddling.
  destruct (Z.eqb_spec (srIno r) i), (Z.ltb_spec (rowStart r) size), (Z.ltb_spec size (rowEnd r)); cbn [andb];
    unfold rowEnd, rowStart in *; cbn; lia.
Qed.

Lemma trim_byte sv i size r k : rowByte sv (trimStraddling i size r) k = rowByte sv r k.
Proof. unfold trimStraddling. by destruct (_ && _). Qed.

(** What a shrinking truncate leaves visible. *)
Lemma cellOf_shrink sv i size rows j k :
  cellOf sv (trimStraddling i size <$> dropBeyond i size rows) j k =
  if (j =? i) && (size <=? k) then Byte.x00 else cellOf sv rows j k.
Proof.
  assert (Hv : j <> i \/ k < size -> cellOf sv (trimStraddling i size <$> dropBeyond i size rows) j k = cellOf sv rows j k).
  { intros Hv. unfold cellOf. rewrite (lastRow_map _ _ j _ k).
    - unfold dropBeyond. rewrite lastRow_filter; [by destruct (lastRow rows j k); [apply trim_byte|]|].
      apply Forall_forall. intros r _ [Hi Hk]%rowCovers_spec. lia.
    - apply Forall_forall. intros r [Hd _]%list_elem_of_filter. rewrite trim_covers by done.
      destruct (Z.ltb_spec k size), (Z.eqb_spec j i); cbn [negb orb]; rewrite ?andb_true_r; [done..|lia|done]. }
  destruct (Z.eqb_spec j i) as [->|Hj], (Z.leb_spec size k); cbn [andb]; try (apply Hv; auto; lia).
  unfold cellOf. replace (lastRow _ i k) with (@None sliceRow); [done|]. symmetry. apply lastRow_None, Forall_fmap, Forall_forall.
  intros r [Hd _]%list_elem_of_filter. cbn. rewrite trim_covers by done. rewrite Z.eqb_refl. cbn.
  destruct (Z.ltb_spec k size); [lia|]. apply andb_false_r.
Qed.

Lemma trim_ok sv i size r : ~ (srIno r = i /\ size <= rowStart r) -> row_ok sv r -> row_ok sv (trimStraddling i size r).
Proof.
  intros Hd. unfold trimStraddling.
  destruct (Z.eqb_spec (srIno r) i), (Z.ltb_spec (rowStart r) size), (Z.ltb_spec size (rowEnd r)); cbn [andb]; try done.
  unfold row_ok, rowEnd in *. cbn. intros (? & ? & ? & ? & ? & ? & b & ? & ? & ?). split_and!; try lia.
  exists b. split_and!; [done|lia|done].
Qed.

Lemma trim_key i size r : rowKey (trimStraddling i size r) = rowKey r.
Proof. unfold trimStraddling. by destruct (_ && _). Qed.

(** The rows a truncate leaves. *)
Definition truncRows (shrink : bool) (i size : Z) (rows : list sliceRow) : list sliceRow :=
  if shrink then trimStraddling i size <$> dropBeyond i size rows else rows.

Lemma truncRows_ok sv s i size d d' :
  slice_ref d' = truncRows s i size (slice_ref d) -> rows_ok sv d -> rows_ok sv d'.
Proof.
  unfold truncRows, rows_ok. intros -> [HF HN]. destruct s; [|done]. split.
  - apply Forall_fmap, Forall_forall. intros r [Hd Hr]%list_elem_of_filter. apply trim_ok; [done|].
    rewrite Forall_forall in HF. auto.
  - rewrite <- list_fmap_compose. erewrite (list_fmap_ext _ rowKey); [by apply NoDup_fmap_filter|]. intros. apply trim_key.
Qed.

Lemma truncRows_ids (P : Z -> Prop) s i size rows :
  Forall (fun r => P (Id (srRef r))) rows -> Forall (fun r => P (Id (srRef r))) (truncRows s i size rows).
Proof.
  unfold truncRows. intros HF. destruct s; [|done]. apply Forall_fmap, Forall_forall. intros r [_ Hr]%list_elem_of_filter.
  rewrite Forall_forall in HF. specialize (HF r Hr). cbn. unfold trimStraddling. by destruct (_ && _).
Qed.

Lemma truncateBody_ok t i size d d' :
  truncateBody t i size d = TxOk d' ->
  exists cur, node d !! i = Some cur /\ node d' = <[i := touchM t (with_length size cur)]> (node d) /\
    slice_ref d' = truncRows (size <? Length cur) i size (slice_ref d) /\ nextslice d' = nextslice d.
Proof.
  unfold truncateBody. destruct (node d !! i) as [cur|]; [|done]. destruct (_ =? _); [done|]. intros [= <-].
  exists cur. done.
Qed.

Lemma contents_truncate sv t d d' i size cur :
  ends_ok sv d -> node d !! i = Some cur -> 0 <= Length cur -> 0 <= size ->
  node d' = <[i := touchM t (with_length size cur)]> (node d) ->
  slice_ref d' = truncRows (size <? Length cur) i size (slice_ref d) ->
  contents sv d' = <[i := resizeTo (bytesOf (cell sv d i) (Length cur)) size]> (contents sv d) /\ ends_ok sv d'.
Proof.
  intros He Hc Hp Hs Hn Hr.
  assert (Hcell : forall j k, cell sv d' j k = if (j =? i) && (size <=? k) then Byte.x00 else cell sv d j k).
  { intros j k. unfold cell. rewrite Hr. unfold truncRows. destruct (Z.ltb_spec size (Length cur)); [apply cellOf_shrink|].
    destruct (Z.eqb_spec j i) as [->|], (Z.leb_spec size k); try done. cbn. apply (He _ _ _ Hc). lia. }
  split.
  - eapply contents_insert; [exact Hn| |done|cbn; by apply resizeTo_len|].
    + intros j k Hj. rewrite Hcell. by destruct (Z.eqb_spec j i).
    + cbn. intros k Hk. rewrite Hcell, resizeTo_at, (cell_at sv d i cur) by (done || lia). rewrite Z.eqb_refl.
      by destruct (Z.leb_spec size k); [lia|].
  - intros j a k Hj Hk. rewrite Hcell. rewrite Hn in Hj. destruct (Z.eqb_spec j i) as [->|Hji].
    + rewrite lookup_insert_eq in Hj. injection Hj as <-. cbn in Hk. by destruct (Z.leb_spec size k); [|lia].
    + rewrite lookup_insert_ne in Hj by done. by eapply He.
Qed.

(** A server that returns the rows of a chunk in id order, as an index scan on
    (inode, indx, id) does. *)
Definition keepsOrder (order : list sliceRow -> list sliceRow) : Prop :=
  forall l, order l ≡ₚ l /\ forall c, filter (fun r => srIndx r = c) (order l) = filter (fun r => srIndx r = c) l.

Lemma insertRows_all l rows : NoDup (rowKey <$> rows ++ l) -> fold_left insertRow l rows = rows ++ l.
Proof.
  revert rows. induction l as [|r l IH]; intros rows HN; cbn; [by rewrite app_nil_r|].
  replace (insertRow rows r) with (rows ++ [r]); [rewrite IH; by rewrite <- app_assoc|].
  unfold insertRow. destruct (existsb _ rows) eqn:E; [|done].
  apply existsb_exists in E as (s & Hs%list_elem_of_In & Hc). unfold conflicts in Hc. rewrite andb_true_iff, !Z.eqb_eq in Hc.
  rewrite fmap_app, NoDup_app in HN. destruct HN as (_ & HN & _). destruct (HN (rowKey s)).
  - by apply list_elem_of_fmap_2.
  - cbn. apply elem_of_cons. left. unfold rowKey. by destruct Hc as [-> ->].
Qed.

Lemma copyRow_covers dst j l delta i r :
  srIno r = i -> rowCovers j l (copyRow dst delta r) = (dst =? j) && rowCovers i (l - delta * ChunkSize) r.
Proof.
  intros Hi. apply eq_bool_prop_intro. rewrite !Is_true_true, andb_true_iff, Z.eqb_eq, !rowCovers_spec.
  unfold rowEnd, rowStart. cbn. rewrite Z.mul_add_distr_r. intuition lia.
Qed.

Lemma lastRow_order sv order l i k : keepsOrder order -> Forall (row_ok sv) l -> lastRow (order l) i k = lastRow l i k.
Proof.
  intros Ho HF. destruct (Ho l) as [Hp Hc].
  assert (HF' : Forall (row_ok sv) (order l)) by (by rewrite Hp).
  rewrite <- (lastRow_filter (fun r => srIndx r = k / ChunkSize) (order l)), Hc.
  - apply lastRow_filter. eapply Forall_impl; [exact HF|]. intros r Hr. by apply (row_ok_chunk sv).
  - eapply Forall_impl; [exact HF'|]. intros r Hr. by apply (row_ok_chunk sv).
Qed.

(** The copies of selected rows, seen from the destination. *)
Lemma lastRow_copies sv order src dst delta sel j k :
  keepsOrder order -> Forall (row_ok sv) sel -> Forall (fun r => srIno r = src) sel ->
  lastRow (copyRow dst delta <$> order sel) j k =
  if dst =? j then copyRow dst delta <$> lastRow sel src (k - delta * ChunkSize) else None.
Proof.
  intros Ho HF Hs. assert (Hs' : Forall (fun r => srIno r = src) (order sel)) by (destruct (Ho sel) as [-> _]; done).
  destruct (Z.eqb_spec dst j) as [->|Hj].
  - rewrite (lastRow_map _ _ src _ (k - delta * ChunkSize)); [by rewrite (lastRow_order sv)|].
    eapply Forall_impl; [exact Hs'|]. intros r Hr. cbn. rewrite (copyRow_covers _ _ _ _ src) by done. by rewrite Z.eqb_refl.
  - apply lastRow_None, Forall_fmap. eapply Forall_impl; [exact Hs'|]. intros r Hr. cbn.
    rewrite (copyRow_covers _ _ _ _ src) by done. by destruct (Z.eqb_spec dst j).
Qed.

Lemma copyRow_byte sv dst delta r k : rowByte sv (copyRow dst delta r) k = rowByte sv r (k - delta * ChunkSize).
Proof. unfold rowByte, rowStart. cbn. do 4 f_equal. rewrite Z.mul_add_distr_r. lia. Qed.

(** Appended copies of rows of [src] keep the table well-formed when [dst] has
    none of their slices. *)
Lemma copies_ok sv order src dst delta sel rows :
  keepsOrder order -> sel `sublist_of` rows -> Forall (fun r => srIno r = src) sel ->
  Forall (row_ok sv) rows -> NoDup (rowKey <$> rows) -> Forall (fun r => 0 <= srIndx r + delta) sel ->
  (forall r s, r ∈ rows -> s ∈ sel -> srIno r = dst -> Id (srRef r) <> Id (srRef s)) ->
  Forall (row_ok sv) (rows ++ (copyRow dst delta <$> order sel)) /\ NoDup (rowKey <$> rows ++ (copyRow dst delta <$> order sel)).
Proof.
  intros Ho Hsub Hs HF HN Hd Hdis. destruct (Ho sel) as [Hp _].
  assert (Hin : forall r, r ∈ sel -> r ∈ rows) by (intros r Hr; by eapply elem_of_submseteq, sublist_submseteq). split.
  - apply Forall_app. split; [done|]. rewrite Hp. apply Forall_fmap, Forall_forall. intros r Hr.
    rewrite Forall_forall in HF, Hd. specialize (HF r (Hin r Hr)). specialize (Hd r Hr).
    unfold row_ok in *. cbn. naive_solver.
  - rewrite Hp, fmap_app, NoDup_app. split_and!; [done| |].
    + intros x (r & -> & Hr)%list_elem_of_fmap (y & Hy & (s & -> & Hs')%list_elem_of_fmap)%list_elem_of_fmap.
      injection Hy as Hi Hk. by apply (Hdis r s).
    + rewrite <- list_fmap_compose. apply NoDup_fmap_2_strong.
      * intros r s Hr Hs' [= Hid]. rewrite Forall_forall in Hs.
        assert (Hrs : rowKey r = rowKey s) by (unfold rowKey; by rewrite Hid, !Hs).
        eapply (NoDup_fmap_inj rowKey); [exact HN|auto|auto|exact Hrs].
      * eapply (NoDup_fmap_1 rowKey), sublist_NoDup; [exact HN|]. by apply fmap_sublist.
Qed.

Lemma cloneBody_ok sv order t src dst d d' :
  cloneBody order t src dst d = TxOk d' -> keepsOrder order -> rows_ok sv d -> Forall (fun r => srIno r <> dst) (slice_ref d) ->
  exists sa da, node d !! src = Some sa /\ node d !! dst = Some da /\
    node d' = <[dst := touchM t (with_length (Length sa) da)]> (node d) /\
    slice_ref d' = slice_ref d ++ (copyRow dst 0 <$> order (filter (fun r => srIno r = src) (slice_ref d))) /\
    rows_ok sv d' /\ nextslice d' = nextslice d.
Proof.
  unfold cloneBody. intros H Ho [HF HN] Hd.
  destruct (node d !! src) as [sa|]; [|done]. destruct (node d !! dst) as [da|]; [|done]. destruct (negb _); [done|].
  injection H as H. exists sa, da. do 2 (split; [done|]).
  destruct (copies_ok sv order src dst 0 (filter (fun r => srIno r = src) (slice_ref d)) (slice_ref d)) as [HF' HN']; [done| | |done|done| | |].
  - apply sublist_filter.
  - apply Forall_forall. by intros r [? _]%list_elem_of_filter.
  - apply Forall_forall. intros r [_ Hr]%list_elem_of_filter. rewrite Forall_forall in HF. destruct (HF r Hr) as [? _]. lia.
  - intros r s Hr _ Hi. rewrite Forall_forall in Hd. by destruct (Hd r Hr).
  - assert (Hall : slice_ref d' = slice_ref d ++ (copyRow dst 0 <$> order (filter (fun r => srIno r = src) (slice_ref d))))
      by (rewrite <- H; by apply insertRows_all).
    unfold rows_ok. rewrite Hall. by rewrite <- H.
Qed.

Lemma contents_clone sv order t src dst d d' sa da :
  ends_ok sv d -> Forall (row_ok sv) (slice_ref d) -> keepsOrder order -> Forall (fun r => srIno r <> dst) (slice_ref d) ->
  node d !! src = Some sa -> 0 <= Length sa ->
  node d' = <[dst := touchM t (with_length (Length sa) da)]> (node d) ->
  slice_ref d' = slice_ref d ++ (copyRow dst 0 <$> order (filter (fun r => srIno r = src) (slice_ref d))) ->
  contents sv d' = <[dst := bytesOf (cell sv d src) (Length sa)]> (contents sv d) /\ ends_ok sv d'.
Proof.
  intros He HF Ho Hd Hsa Hp Hn Hr. set (sel := filter _ _) in Hr.
  assert (Hsel : Forall (row_ok sv) sel) by (apply Forall_forall; intros r [_ Hr']%list_elem_of_filter; rewrite Forall_forall in HF; auto).
  assert (Hsrc : Forall (fun r => srIno r = src) sel) by (apply Forall_forall; by intros r [? _]%list_elem_of_filter).
  assert (Hno : forall k, lastRow (slice_ref d) dst k = None).
  { intros k. apply lastRow_None. eapply Forall_impl; [exact Hd|]. intros r Hi. apply not_true_is_false. by intros [? _]%rowCovers_spec. }
  assert (Hsame : forall k, lastRow sel src k = lastRow (slice_ref d) src k).
  { intros k. apply lastRow_filter. apply Forall_forall. by intros r _ [? _]%rowCovers_spec. }
  assert (Hcell : forall j k, cell sv d' j k = if dst =? j then cell sv d src k else cell sv d j k).
  { intros j k. unfold cell, cellOf. rewrite Hr, lastRow_app, (lastRow_copies sv order src) by done.
    destruct (Z.eqb_spec dst j) as [->|]; [|done]. rewrite Z.mul_0_l, Z.sub_0_r, Hsame.
    destruct (lastRow (slice_ref d) src k); cbn; [|by rewrite Hno]. rewrite copyRow_byte. f_equal. lia. }
  split.
  - eapply contents_insert; [exact Hn| |done|cbn; by apply bytesOf_len|].
    + intros j k Hj. rewrite Hcell. by destruct (Z.eqb_spec dst j).
    + cbn. intros k Hk. by rewrite Hcell, Z.eqb_refl, bytesOf_at.
  - intros j a k Hj Hk. rewrite Hcell. rewrite Hn in Hj. destruct (Z.eqb_spec dst j) as [->|Hji].
    + rewrite lookup_insert_eq in Hj. injection Hj as <-. by eapply He.
    + rewrite lookup_insert_ne in Hj by done. by eapply He.
Qed.
