(* ===== verification/FileRefine.v ===== *)
(** The file data path refines the abstract file system of [FileSpec]. *)

From S2P Require Import Prelude GoStrings Overlay Wal MetaDb FileMeta FileIO FileSpec.

Lemma u32_small z : 0 <= z < 2 ^ 32 -> u32 z = z.
Proof. apply Z.mod_small. Qed.

(** ** Slice ids *)

Lemma NewSlice_ok up m m' id :
  NewSlice up m = (m', Ok id) ->
  1 <= nextslice (mdb m) /\ (sliceEnd (eng m) <= sliceNext (eng m) \/ 1 <= sliceNext (eng m) /\ sliceEnd (eng m) <= nextslice (mdb m)) ->
  1 <= id /\ ~ used (eng m) (mdb m) id /\ used (eng m') (mdb m') id /\
  (forall j, used (eng m) (mdb m) j -> used (eng m') (mdb m') j) /\
  (1 <= nextslice (mdb m') /\ (sliceEnd (eng m') <= sliceNext (eng m') \/ 1 <= sliceNext (eng m') /\ sliceEnd (eng m') <= nextslice (mdb m'))) /\
  node (mdb m') = node (mdb m) /\ slice_ref (mdb m') = slice_ref (mdb m).
Proof.
  unfold NewSlice, used, inodeBatch. destruct (Z.leb_spec (sliceEnd (eng m)) (sliceNext (eng m))); [destruct up; [|done]|];
    intros [= <- <-]; cbn; intros; split_and!; try done; intros; lia.
Qed.

Lemma NewSlice_err up m m' e : NewSlice up m = (m', Err e) -> m' = m.
Proof. unfold NewSlice. destruct (_ <=? _), up; intros H; by simplify_eq. Qed.

(** ** Invariant *)

(** The invariant depends on the tables and ids, and on the slices in use. *)
Lemma fs_ok_ext sv sv' e e' d d' :
  agree_on sv sv' (slice_ref d) -> node d' = node d -> slice_ref d' = slice_ref d -> nextslice d' = nextslice d ->
  sliceNext e' = sliceNext e -> sliceEnd e' = sliceEnd e ->
  fs_ok sv e d -> fs_ok sv' e' d' /\ contents sv' d' = contents sv d.
Proof.
  intros Ha Hn Hs Hc He1 He2 [[H1 H1'] H2 H3 H4 H5].
  assert (Hcell : forall i k, cell sv' d' i k = cell sv d i k) by (intros; unfold cell; rewrite Hs; by apply cellOf_ext).
  split; [|by apply contents_same]. split.
  - unfold rows_ok. rewrite Hs. split; [by eapply row_ok_ext|done].
  - intros i a k Hi Hk. rewrite Hcell. rewrite Hn in Hi. by eapply H2.
  - by rewrite Hn.
  - rewrite Hs. unfold used. by rewrite Hc, He1, He2.
  - by rewrite Hc, He1, He2.
Qed.

Lemma fs_ok_cache sv e d c : fs_ok sv e d -> fs_ok sv (set_cache c e) d.
Proof. intros H. eapply fs_ok_ext; [..|exact H]; try done. by apply Forall_forall. Qed.

(** What a row names is stored, so a store that keeps what it has is as good. *)
Lemma fs_ok_keeps sv sv' e d :
  Forall (fun r => forall b, sv (Id (srRef r)) = Some b -> sv' (Id (srRef r)) = Some b) (slice_ref d) ->
  fs_ok sv e d -> fs_ok sv' e d /\ contents sv' d = contents sv d.
Proof.
  intros Hk H. eapply fs_ok_ext; [|done..|exact H]. destruct (ok_rows _ _ _ H) as [Hall _]. unfold agree_on. rewrite Forall_forall in Hk, Hall |- *.
  intros r Hr. destruct (Hall r Hr) as (_ & _ & _ & _ & _ & _ & b & Hb & _). rewrite Hb. by apply Hk.
Qed.

(** After [NewSlice]. *)
Lemma fs_ok_fresh sv m m' :
  fs_ok sv (eng m) (mdb m) -> node (mdb m') = node (mdb m) -> slice_ref (mdb m') = slice_ref (mdb m) ->
  (forall j, used (eng m) (mdb m) j -> used (eng m') (mdb m') j) ->
  (1 <= nextslice (mdb m') /\ (sliceEnd (eng m') <= sliceNext (eng m') \/ 1 <= sliceNext (eng m') /\ sliceEnd (eng m') <= nextslice (mdb m'))) ->
  fs_ok sv (eng m') (mdb m') /\ contents sv (mdb m') = contents sv (mdb m).
Proof.
  intros [H1 H2 H3 H4 H5] Hn Hs Hu Hr.
  assert (Hcell : forall i k, cell sv (mdb m') i k = cell sv (mdb m) i k) by (intros; unfold cell; by rewrite Hs).
  split; [|by apply contents_same]. split; try done.
  - unfold rows_ok. by rewrite Hs.
  - intros i a k Hi Hk. rewrite Hcell. rewrite Hn in Hi. by eapply H2.
  - by rewrite Hn.
  - rewrite Hs. eapply Forall_impl; [done|]. auto.
Qed.

(** ** Abstract writes *)

(** Writing [b] at [off] in file [i], nothing if there is nothing to write. *)
Definition writes (i off : Z) (b : bytes) (A A' : afs) : Prop :=
  match b with [] => A' = A | _ => exists l, A !! i = Some l /\ A' = <[i := overwrite l off b]> A end.

Lemma overwrite_overwrite l off b c :
  0 <= off -> b <> [] -> c <> [] -> overwrite (overwrite l off b) (off + len b) c = overwrite l off (b ++ c).
Proof.
  intros Ho Hb Hc. pose proof (len_nonneg b). pose proof (len_nonneg c). assert (b ++ c <> []) by (by destruct b).
  apply bytes_ext; rewrite !overwrite_len, ?len_app by (done || lia); [lia|].
  intros k Hk. rewrite !overwrite_at, len_app by (done || lia).
  destruct (Z.leb_spec off k), (Z.leb_spec (off + len b) k), (Z.ltb_spec k (off + len b + len c)),
    (Z.ltb_spec k (off + len b)), (Z.ltb_spec k (off + (len b + len c))); cbn [andb]; try lia; try done;
    rewrite at0_app by lia; destruct (Z.ltb_spec (k - off) (len b)); try lia; [|done]. f_equal. lia.
Qed.

Lemma writes_trans i off b c A A1 A2 :
  0 <= off -> writes i off b A A1 -> writes i (off + len b) c A1 A2 -> writes i off (b ++ c) A A2.
Proof.
  intros Ho H1 H2. destruct b as [|x b]; [cbn in H1; subst; by rewrite Z.add_0_r in H2|].
  destruct c as [|y c]; [cbn in H2; subst; by rewrite app_nil_r|].
  destruct H1 as (l & Hl & ->), H2 as (l2 & Hl2 & ->). rewrite lookup_insert_eq in Hl2. apply (inj Some) in Hl2 as <-.
  exists l. split; [done|]. by rewrite insert_insert_eq, overwrite_overwrite.
Qed.

(** Committing the row of a stored slice. *)
Lemma write_applied sv e d o t i indx pos id b d' :
  fs_ok sv e d -> writeBody t i indx pos (MkSlice 0 id (len b) 0 (len b)) (set_ownership o d) = TxOk d' ->
  b <> [] -> sv id = Some b -> used e d id -> 1 <= id -> Forall (fun r => Id (srRef r) <> id) (slice_ref d) ->
  0 <= indx < 2 ^ 31 -> 0 <= pos -> pos + len b <= ChunkSize ->
  fs_ok sv e d' /\ writes i (indx * ChunkSize + pos) b (contents sv d) (contents sv d') /\ nextslice d' = nextslice d.
Proof.
  intros [H1 H2 H3 H4 H5] Hb Hne Hv Hu Hid Hf Hi Hp Hpl. pose proof ChunkSize_val. pose proof (len_nonneg b).
  destruct (writeBody_ok _ _ _ _ _ _ _ Hb) as (cur & Hc & Hn & Hs & Hx); [done|cbn; nia|]. cbn in Hc, Hn, Hs, Hx.
  destruct (H3 _ _ Hc) as [Hl0 Hl1].
  destruct (contents_write sv d d' i cur (touchM t (with_length (Z.max (Length cur) (indx * ChunkSize + pos + len b)) cur))
    (MkRow i indx (MkSlice pos id (len b) 0 (len b))) b H2 Hc Hl0 eq_refl Hn Hs)
    as [Hct He']; try done; [unfold rowStart; cbn; nia|].
  split.
  - split.
    + destruct H1 as [HF HN]. unfold rows_ok. rewrite Hs. split.
      * apply Forall_app. split; [done|]. apply Forall_singleton. unfold row_ok. cbn. split_and!; try lia. exists b. split_and!; [done|lia..].
      * rewrite fmap_app, NoDup_app. split_and!; [done| |apply NoDup_singleton].
        intros k (r & -> & Hr)%list_elem_of_fmap Hk%list_elem_of_singleton. injection Hk as _ Hk.
        rewrite Forall_forall in Hf. by destruct (Hf r Hr).
    + done.
    + intros j a Hj. rewrite Hn in Hj. destruct (decide (j = i)) as [->|].
      * rewrite lookup_insert_eq in Hj. injection Hj as <-. cbn. nia.
      * rewrite lookup_insert_ne in Hj by done. eauto.
    + rewrite Hs. unfold used in *. cbn. rewrite Hx. apply Forall_app. split; [done|]. by apply Forall_singleton.
    + cbn. by rewrite Hx.
  - split; [|done]. destruct b as [|x b]; [done|]. eexists. split; [|exact Hct]. by rewrite contents_lookup, Hc.
Qed.

(** ** Operations *)

Section Refine.
  Context {S : Type} `{!SliceStore S, !SliceStoreLaws S}.

(** The store is sound, and has seen only ids that were handed out. *)
Definition store_ok (s : S) (m : meta) : Prop := sinv s /\ forall id, stouched s id -> used (eng m) (mdb m) id.

Definition files_ok (f : files S) : Prop :=
  store_ok (fchunks f) (fmeta f) /\ fs_ok (sview (fchunks f)) (eng (fmeta f)) (mdb (fmeta f)).
Definition fcontents (f : files S) : afs := contents (sview (fchunks f)) (mdb (fmeta f)).

Lemma walAppend_same io r (f f' : files S) b : walAppend io r f = (f', b) -> fmeta f' = fmeta f /\ fchunks f' = fchunks f.
Proof. unfold walAppend. intros H. repeat case_match; by simplify_eq. Qed.

Lemma store_ok_meta s m m' :
  (forall j, used (eng m) (mdb m) j -> used (eng m') (mdb m') j) -> store_ok s m -> store_ok s m'.
Proof. intros Hu [H1 H2]. split; [done|]. auto. Qed.

(** A transaction does not hand out ids. *)
Lemma store_ok_tx s m m' c :
  eng m' = set_cache c (eng m) -> nextslice (mdb m') = nextslice (mdb m) -> store_ok s m -> store_ok s m'.
Proof. intros He Hd. apply store_ok_meta. intros j. unfold used. by rewrite He, Hd. Qed.

(** A metadata transaction that is not applied. *)
Lemma unapplied_ok (f : files S) m c o :
  files_ok f -> eng m = set_cache c (eng (fmeta f)) -> mdb m = set_ownership o (mdb (fmeta f)) ->
  files_ok (set_meta m f) /\ fcontents (set_meta m f) = fcontents f.
Proof.
  intros [Hi H] He Hd. assert (Hst : store_ok (fchunks f) m) by (eapply store_ok_tx; [exact He|by rewrite Hd|done]).
  unfold files_ok, fcontents. cbn. rewrite He, Hd.
  destruct (fs_ok_ext (sview (fchunks f)) (sview (fchunks f)) (eng (fmeta f)) (set_cache c (eng (fmeta f)))
    (mdb (fmeta f)) (set_ownership o (mdb (fmeta f)))) as [? ->]; try done. by apply Forall_forall.
Qed.

(** The row of a staged slice, committed. *)
Lemma applied_ok (f : files S) m c o t i indx pos id b n :
  files_ok f -> eng m = set_cache c (eng (fmeta f)) ->
  writeBody t i indx pos (MkSlice 0 id n 0 n) (set_ownership o (mdb (fmeta f))) = TxOk (mdb m) ->
  n = len b -> b <> [] -> sview (fchunks f) id = Some b -> used (eng (fmeta f)) (mdb (fmeta f)) id -> 1 <= id ->
  Forall (fun r => Id (srRef r) <> id) (slice_ref (mdb (fmeta f))) ->
  0 <= indx < 2 ^ 31 -> 0 <= pos -> pos + len b <= ChunkSize ->
  files_ok (set_meta m f) /\ writes i (indx * ChunkSize + pos) b (fcontents f) (fcontents (set_meta m f)).
Proof.
  intros [Hsi Hok] He Hb -> Hne Hv Hu Hid Hf Hi Hp Hpl.
  destruct (write_applied _ _ _ _ _ _ _ _ _ b _ Hok Hb) as (Hok' & Hw & Hnx); try done.
  split; [|done]. split; [by eapply store_ok_tx|]. cbn. rewrite He. by apply fs_ok_cache.
Qed.

(** Staging a slice no row names changes nothing visible. *)
Lemma staged_ok io (f : files S) id b class s e :
  files_ok f -> sWrite io id b class (fchunks f) = (s, e) ->
  Forall (fun r => Id (srRef r) <> id) (slice_ref (mdb (fmeta f))) ->
  used (eng (fmeta f)) (mdb (fmeta f)) id -> ~ stouched (fchunks f) id ->
  files_ok (set_chunks s f) /\ fcontents (set_chunks s f) = fcontents f.
Proof.
  intros [[Hi Ht] H] Hw Hf Hu Hnew. pose proof (sWrite_inv io id b class _ Hi Hnew) as Hi'. rewrite Hw in Hi'.
  destruct (fs_ok_keeps (sview (fchunks f)) (sview s) (eng (fmeta f)) (mdb (fmeta f))) as [? ?]; try done.
  - eapply Forall_impl; [exact Hf|]. intros r Hr x Hx. pose proof (sWrite_keeps io id b class _ _ _ Hi Hr Hx) as Hk. by rewrite Hw in Hk.
  - split; [|done]. split; [|done]. split; [done|]. intros j Hj. pose proof (sWrite_touched io id b class (fchunks f) j Hi) as Hk.
    rewrite Hw in Hk. destruct (Hk Hj) as [->|?]; auto.
Qed.

(** One turn: it fails and nothing is visible, or the bytes are in the file. *)
Lemma writeSlice_ok v i indx pos id b class (f f' : files S) e :
  writeSlice v i indx pos id b class f = (f', e) ->
  files_ok f -> b <> [] -> used (eng (fmeta f)) (mdb (fmeta f)) id -> ~ stouched (fchunks f) id -> 1 <= id ->
  Forall (fun r => Id (srRef r) <> id) (slice_ref (mdb (fmeta f))) ->
  0 <= indx < 2 ^ 31 -> 0 <= pos -> pos + len b <= ChunkSize ->
  files_ok f' /\ ((e <> None /\ fcontents f' = fcontents f) \/ writes i (indx * ChunkSize + pos) b (fcontents f) (fcontents f')).
Proof.
  unfold writeSlice. intros H Hok Hne Hu Hnew Hid Hf Hi Hp Hpl.
  destruct (sWrite (wStore v) id b class (fchunks f)) as [s [es|]] eqn:Ew;
    destruct (staged_ok _ _ _ _ _ _ _ Hok Ew Hf Hu Hnew) as [Hok1 Hc1].
  { injection H as <- <-. split; [done|]. by left. }
  destruct (walAppend _ _ _) as [f1 ok] eqn:Ea. apply walAppend_same in Ea as [Em Es]. cbn in Em, Es.
  assert (Hf1 : files_ok f1 /\ fcontents f1 = fcontents f) by (unfold files_ok, fcontents in *; by rewrite Em, Es).
  destruct Hf1 as [Hok2 Hc2]. destruct ok; [|injection H as <- <-; split; [done|]; by left].
  pose proof ChunkSize_val. pose proof (len_nonneg b). rewrite u32_small in H by lia.
  unfold MetaWrite in H. destruct (mutating _ _ _ _) as [m em] eqn:Eu.
  destruct (mutating_cases _ _ _ _ _ _ Eu) as (c & o & Hen & [[Hd Hn]|Hb]).
  - destruct (unapplied_ok f1 m c o Hok2 Hen Hd) as [Hok3 Hc3]. rewrite Hc2 in Hc3.
    destruct em; injection H as <- <-; split; try done. by left.
  - destruct (applied_ok f1 m c o _ _ _ _ _ b _ Hok2 Hen Hb) as [Hok3 Hc3]; rewrite ?Em, ?Es; try done; [eapply sWrite_ok; [apply Hok|exact Hnew|exact Ew]|].
    rewrite Hc2 in Hc3. destruct em; injection H as <- <-; split; try done; by right.
Qed.

Lemma offset_index off : 0 <= off < maxOffset ->
  u32 (Z.quot off ChunkSize) = off / ChunkSize /\ u32 (Z.rem off ChunkSize) = off mod ChunkSize /\
  0 <= off / ChunkSize < 2 ^ 31 /\ 0 <= off mod ChunkSize < ChunkSize /\ off / ChunkSize * ChunkSize + off mod ChunkSize = off.
Proof.
  intros H. pose proof ChunkSize_val as Hv. pose proof ChunkSize_pos. unfold maxOffset in H.
  rewrite Z.quot_div_nonneg, Z.rem_mod_nonneg by lia.
  pose proof (Z.mod_pos_bound off ChunkSize). pose proof (Z.div_mod off ChunkSize).
  assert (0 <= off / ChunkSize < 2 ^ 31) by (split; [apply Z.div_pos; lia|apply Z.div_lt_upper_bound; lia]).
  rewrite !u32_small by lia. split_and!; try done; lia.
Qed.

Lemma writeLoop_ok fuel v turn i off data class total (f f' : files S) n e :
  writeLoop fuel v turn i off data class total f = (f', (n, e)) ->
  (length data <= fuel)%nat -> files_ok f -> 0 <= off -> off + len data <= maxOffset ->
  files_ok f' /\ exists k, 0 <= k <= len data /\ total <= n <= total + k /\ (e = None -> n = total + len data /\ k = len data) /\
    writes i off (slice data 0 k) (fcontents f) (fcontents f').
Proof.
  revert turn off data total f. induction fuel as [|fuel IH]; intros turn off data total f H Hfu Hok Ho Hm.
  { destruct data; [|cbn in Hfu; lia]. injection H as <- <- <-. split; [done|].
    exists 0. change (len []) with 0. split_and!; try done; lia. }
  destruct data as [|x data]; [injection H as <- <- <-; split; [done|];
    exists 0; change (len []) with 0; split_and!; try done; lia|].
  cbn [writeLoop] in H. set (dd := x :: data) in *. pose proof (len_nonneg data).
  assert (Hdl : len dd = 1 + len data) by apply len_cons.
  destruct (offset_index off) as (Hq & Hr & Hi & Hp & Hsum); [lia|]. rewrite Hq, Hr in H.
  set (m := if _ <? len dd then _ else _) in H.
  assert (Hmm : 1 <= m <= len dd /\ off mod ChunkSize + m <= ChunkSize) by
    (subst m; destruct (Z.ltb_spec (ChunkSize - off mod ChunkSize) (len dd)); lia).
  assert (Hml : len (slice dd 0 m) = m) by (rewrite slice_len; lia).
  assert (Hmn : slice dd 0 m <> []) by (intros E; rewrite E in Hml; change (0 = m) in Hml; lia).
  destruct (NewSlice _ _) as [m1 [id|en]] eqn:En.
  2:{ apply NewSlice_err in En as ->. injection H as <- <- <-. split; [by destruct f|]. exists 0.
      split_and!; try lia; [done|]. by destruct f. }
  destruct (NewSlice_ok _ _ _ _ En) as (Hid & Hnu & Hu & Hmono & Hrange & Hnode & Hrows); [apply (proj2 Hok)|].
  destruct (fs_ok_fresh (sview (fchunks f)) (fmeta f) m1 (proj2 Hok) Hnode Hrows Hmono Hrange) as [Hok1 Hc1].
  destruct (writeSlice _ _ _ _ _ _ _ _) as [f1 e1] eqn:Es.
  assert (Hfr : Forall (fun r => Id (srRef r) <> id) (slice_ref (mdb m1))).
  { rewrite Hrows. eapply Forall_impl; [exact (ok_used _ _ _ (proj2 Hok))|]. cbn. intros r Hr' Heq. by rewrite Heq in Hr'. }
  assert (Hnew : ~ stouched (fchunks f) id) by (intros Hs; by apply Hnu, (proj1 Hok)).
  destruct (writeSlice_ok _ _ _ _ _ _ _ _ _ _ Es) as [Hok2 Hw]; rewrite ?Hml; try done;
    [split; [eapply store_ok_meta; [exact Hmono|apply Hok]|done]|lia|lia|].
  rewrite Hsum in Hw. change (fcontents (set_meta m1 f)) with (contents (sview (fchunks f)) (mdb m1)) in Hw. rewrite Hc1 in Hw.
  change (contents _ _) with (fcontents f) in Hw. destruct e1 as [e1|].
  { injection H as <- <- <-. split; [done|]. destruct Hw as [[_ Hw]|Hw].
    - exists 0. split_and!; try lia; [done|]. exact Hw.
    - exists m. split_and!; try lia; done. }
  destruct Hw as [[? _]|Hw]; [done|].
  apply IH in H as (Hok3 & k & Hk & Hn & He & Hw2); [|unfold slice; rewrite length_take, length_drop; cbn in *; lia|done|lia|rewrite slice_len by lia; lia].
  rewrite slice_len in Hk, He by lia. split; [done|]. exists (m + k).
  split; [lia|]. split; [lia|]. split; [intros E; destruct (He E); lia|].
  replace (slice dd 0 (m + k)) with (slice dd 0 m ++ slice (slice dd m (len dd)) 0 k).
  - eapply writes_trans; [done|exact Hw|]. by rewrite Hml.
  - rewrite slice_slice, Z.add_0_r by lia. apply slice_split; lia.
Qed.

Lemma Write_ok v i off data class (f f' : files S) n e :
  Write v i off data class f = (f', (n, e)) -> files_ok f -> 0 <= off -> off + len data <= maxOffset ->
  files_ok f' /\ exists k, 0 <= k <= len data /\ 0 <= n <= k /\ (e = None -> n = len data /\ k = len data) /\
    writes i off (slice data 0 k) (fcontents f) (fcontents f').
Proof.
  intros H Hok Ho Hm. apply writeLoop_ok in H as (Hok' & k & H1 & H2 & H3 & H4); [|done..]. split; [done|].
  exists k. split_and!; try done; lia.
Qed.

(** ** Reading *)

Lemma winner_snoc l s x : winner (l ++ [s]) x = if covers s x then Some s else winner l x.
Proof. unfold winner. by rewrite reverse_app. Qed.

(** The overlay of a chunk is the last row over the offset. *)
Lemma winner_lastRow sv rows i c x :
  Forall (row_ok sv) rows -> 0 <= x < ChunkSize ->
  winner (srRef <$> filter (fun r => srIno r = i /\ srIndx r = c) rows) x = srRef <$> lastRow rows i (c * ChunkSize + x).
Proof.
  intros HF Hx. induction rows as [|r rows IH] using rev_ind; [done|].
  apply Forall_app in HF as [HF Hr]. rewrite Forall_singleton in Hr. rewrite lastRow_snoc, filter_app, fmap_app, filter_cons, filter_nil.
  destruct (rowCovers i _ r) eqn:E.
  - pose proof (row_ok_chunk sv r i _ Hr E) as Hc. apply rowCovers_spec in E as [Hi E].
    assert (Hdiv : (c * ChunkSize + x) / ChunkSize = c) by (symmetry; apply Z.div_unique with x; lia). rewrite Hdiv in Hc.
    rewrite decide_True by done. cbn. rewrite winner_snoc. unfold rowEnd, rowStart in E. rewrite Hc in E.
    replace (covers (srRef r) x) with true; [done|]. unfold covers. symmetry. rewrite andb_true_iff, Z.leb_le, Z.ltb_lt. lia.
  - rewrite <- IH by done. destruct (decide _) as [[Hi Hc]|]; [|by rewrite app_nil_r]. cbn. rewrite winner_snoc.
    replace (covers (srRef r) x) with false; [done|]. symmetry. apply not_true_is_false. unfold covers.
    rewrite andb_true_iff, Z.leb_le, Z.ltb_lt. intros Hcov. apply not_true_iff_false in E. apply E, rowCovers_spec.
    unfold rowEnd, rowStart. rewrite Hc. split; [done|lia].
Qed.

Lemma at0_splice (buf : bytes) i out p :
  0 <= i -> i + len out <= len buf -> 0 <= p ->
  at0 (splice buf i out) p = if (i <=? p) && (p <? i + len out) then at0 out (p - i) else at0 buf p.
Proof.
  intros Hi Hl Hp. pose proof (len_nonneg out). unfold splice.
  assert (Ht : len (take (Z.to_nat i) buf) = i) by (unfold len in *; rewrite length_take; lia).
  rewrite at0_app, Ht by done. destruct (Z.ltb_spec p i), (Z.leb_spec i p); cbn [andb]; try lia.
  - unfold at0. by rewrite lookup_take_lt by lia.
  - rewrite at0_app by lia. destruct (Z.ltb_spec (p - i) (len out)), (Z.ltb_spec p (i + len out)); try lia; [done|].
    unfold at0. rewrite lookup_drop. do 2 f_equal. lia.
Qed.

(** A resolved piece names its slice within bounds, and is the visible bytes. *)
Lemma seg_bytes sv d i c g :
  Forall (row_ok sv) (slice_ref d) -> agrees (chunkRows d i c) g -> 0 <= sstart g -> sstart g < send g -> send g <= ChunkSize ->
  (sid g = 0 -> forall x, sstart g <= x < send g -> cell sv d i (c * ChunkSize + x) = Byte.x00) /\
  (sid g <> 0 -> exists b, sv (sid g) = Some b /\ 0 <= srcOff g /\ srcOff g + (send g - sstart g) <= len b /\
     forall x, sstart g <= x < send g -> cell sv d i (c * ChunkSize + x) = at0 b (srcOff g + (x - sstart g))).
Proof.
  intros HF Ha H0 H1 H2.
  assert (Hx : forall x, sstart g <= x < send g ->
    match lastRow (slice_ref d) i (c * ChunkSize + x) with
    | Some r => row_ok sv r /\ sid g = Id (srRef r) /\ srcOff g + (x - sstart g) = Off (srRef r) + (x - Pos (srRef r)) /\
                Pos (srRef r) <= x < Pos (srRef r) + Len (srRef r) /\ srIndx r = c
    | None => sid g = 0
    end).
  { intros x Hx. specialize (Ha x Hx). unfold chunkRows in Ha. rewrite (winner_lastRow sv) in Ha by (done || lia).
    destruct (lastRow _ _ _) as [r|] eqn:E; [|done]. cbn in Ha. destruct Ha as [Ha1 Ha2].
    apply lastRow_Some in E as [Hin Hc]. rewrite Forall_forall in HF. pose proof (HF r Hin) as Hr.
    pose proof (row_ok_chunk sv r _ _ Hr Hc) as Hi. rewrite Z.div_add_l, Z.div_small, Z.add_0_r in Hi by (pose proof ChunkSize_pos; lia).
    apply rowCovers_spec in Hc as [_ Hc]. unfold rowEnd, rowStart in Hc. rewrite Hi in Hc. split_and!; try done; lia. }
  split.
  - intros Hz x Hx'. specialize (Hx x Hx'). unfold cell, cellOf. destruct (lastRow _ _ _) as [r|]; [|done].
    destruct Hx as [(_ & _ & _ & _ & _ & Hid & _) [Hs _]]. lia.
  - intros Hz. pose proof (Hx (sstart g) ltac:(lia)) as Hlo. pose proof (Hx (send g - 1) ltac:(lia)) as Hhi.
    destruct (lastRow _ i (c * ChunkSize + sstart g)) as [r1|]; [|done]. destruct (lastRow _ i (c * ChunkSize + (send g - 1))) as [r2|]; [|done].
    destruct Hlo as ((_ & _ & _ & _ & Ho1 & _ & b & Hb & _) & Hid1 & He1 & Hp1 & _).
    destruct Hhi as ((_ & _ & _ & _ & _ & _ & b2 & Hb2 & Hl2 & _) & Hid2 & He2 & Hp2 & _).
    rewrite <- Hid1 in Hb. rewrite <- Hid2 in Hb2. simplify_eq. exists b. split_and!; [done|lia|lia|].
    intros x Hx'. specialize (Hx x Hx'). unfold cell, cellOf. destruct (lastRow _ _ _) as [r|]; [|done].
    destruct Hx as (_ & Hid & He & Hp & Hc). unfold rowByte, rowStart. rewrite <- Hid, Hb, Hc. cbn. unfold at0. do 3 f_equal. lia.
Qed.

Lemma tiles_bounds lo hi l : tiles lo hi l -> Forall (fun g => lo <= sstart g /\ sstart g < send g /\ send g <= hi) l /\ lo <= hi.
Proof.
  revert lo. induction l as [|g l IH]; cbn; intros lo; [intros ->; split; [constructor|lia]|]. intros (H1 & H2 & H3).
  destruct (IH _ H3) as [HF Hle]. split; [|lia]. constructor; [lia|]. eapply Forall_impl; [exact HF|]. cbn. lia.
Qed.

(** Filling the pieces of a window: [want p] is the byte wanted at [p]. *)
Lemma readSegs_ok io j delta sgs (s : S) buf lo hi (want : Z -> byte) :
  sinv s -> tiles lo hi sgs -> 0 <= delta + lo -> delta + hi <= len buf ->
  (forall p, delta + lo <= p < delta + hi -> at0 buf p = Byte.x00) ->
  Forall (fun g => (sid g = 0 -> forall x, sstart g <= x < send g -> want (delta + x) = Byte.x00) /\
    (sid g <> 0 -> exists b, sview s (sid g) = Some b /\ 0 <= srcOff g /\ srcOff g + (send g - sstart g) <= len b /\
       forall x, sstart g <= x < send g -> want (delta + x) = at0 b (srcOff g + (x - sstart g)))) sgs ->
  forall s' r, readSegs io j delta sgs s buf = (s', r) ->
  (sinv s' /\ forall id, sview s' id = sview s id) /\
  ((forall k, storeUp (io k)) -> is_ok r = true) /\
  forall buf', r = Ok buf' -> len buf' = len buf /\
    forall p, 0 <= p < len buf -> at0 buf' p = if (delta + lo <=? p) && (p <? delta + hi) then want p else at0 buf p.
Proof.
  revert j s buf lo. induction sgs as [|g sgs IH]; intros j s buf lo Hi Ht Hlo Hhi Hz HF s' r H.
  { cbn in Ht, H. subst hi. injection H as <- <-. split; [done|]. split; [done|]. intros buf' [= <-]. split; [done|].
    intros p Hp. destruct (Z.leb_spec (delta + lo) p), (Z.ltb_spec p (delta + lo)); try done. lia. }
  destruct Ht as (Hg1 & Hg2 & Ht). apply Forall_cons in HF as [[Hhole Hdata] HF]. cbn [readSegs] in H.
  destruct (tiles_bounds _ _ _ Ht) as [_ Hle].
  destruct (Z.eqb_spec (sid g) 0) as [Hs|Hs].
  - edestruct IH as (H1 & H2 & H3); [exact Hi|exact Ht|lia|done|intros p Hp; apply Hz; lia|exact HF|exact H|]. split; [done|]. split; [done|].
    intros buf' Hb. destruct (H3 buf' Hb) as [Hl Hat]. split; [done|]. intros p Hp. rewrite Hat by done.
    destruct (Z.leb_spec (delta + send g) p), (Z.leb_spec (delta + lo) p), (Z.ltb_spec p (delta + hi)); cbn [andb]; try lia; try done.
    rewrite Hz by lia. replace p with (delta + (p - delta)) by lia. symmetry. apply Hhole; [done|lia].
  - destruct (Hdata Hs) as (b & Hb & Ho & Hob & Hw).
    pose proof (sReadAt_view (io j) (sid g) (srcOff g) (send g - sstart g) s) as Hv.
    pose proof (sReadAt_inv (io j) (sid g) (srcOff g) (send g - sstart g) s Hi) as Hi1.
    pose proof (fun o => sReadAt_ok (io j) (sid g) (srcOff g) (send g - sstart g) s b o Hi Hb) as Hrd.
    pose proof (fun Hu => sReadAt_up (io j) (sid g) (srcOff g) (send g - sstart g) s b Hi Hu Hb) as Hru.
    destruct (sReadAt _ _ _ _ s) as [s1 [out|e]] ; cbn [fst snd] in *.
    2:{ injection H as <- <-. split_and!; [done|auto|intros Hup; exact (Hru (Hup j))|done]. }
    assert (Hob2 : 0 <= srcOff g <= len b) by lia. pose proof (Hrd out Hob2 eq_refl) as Hout. rewrite Z.min_l in Hout by lia.
    assert (Hol : len out = send g - sstart g) by (rewrite Hout, slice_len; lia).
    assert (Hbl : len (splice buf (delta + sstart g) out) = len buf) by (apply len_splice; lia).
    destruct (IH (j + 1)%nat s1 (splice buf (delta + sstart g) out) _ Hi1 Ht ltac:(lia) ltac:(lia)) with (s' := s') (r := r)
      as (H1 & H2 & H3); [| |exact H|].
    + intros p Hp. rewrite at0_splice by lia. destruct (Z.ltb_spec p (delta + sstart g + len out)); [lia|].
      rewrite andb_false_r. apply Hz. lia.
    + eapply Forall_impl; [exact HF|]. cbn. intros g' Hg'. by rewrite (Hv _ Hi).
    + split_and!; [apply H1|intros id; by rewrite (proj2 H1), (Hv _ Hi)|done|]. intros buf' Hb'. destruct (H3 buf' Hb') as [Hl Hat].
      split; [lia|]. intros p Hp. rewrite Hat, at0_splice by lia.
      destruct (Z.leb_spec (delta + send g) p), (Z.leb_spec (delta + lo) p), (Z.ltb_spec p (delta + hi)),
        (Z.leb_spec (delta + sstart g) p), (Z.ltb_spec p (delta + sstart g + len out)); cbn [andb]; try lia; try done.
      replace p with (delta + (p - delta)) at 2 by lia. rewrite Hw by lia. rewrite Hout, at0_slice by lia. f_equal. lia.
Qed.

Lemma chunkRows_ok sv d i c : Forall (row_ok sv) (slice_ref d) -> Forall slice_ok (chunkRows d i c).
Proof.
  intros HF. apply Forall_fmap, Forall_forall. intros r [_ Hr]%list_elem_of_filter. rewrite Forall_forall in HF.
  destruct (HF r Hr) as (? & ? & ? & ? & ? & ? & b & ? & ? & ?). pose proof ChunkSize_val. unfold slice_ok. cbn. lia.
Qed.

(** One chunk of a read. *)
Lemma readChunk_ok sv io d i off cur end_ (s : S) buf :
  Forall (row_ok sv) (slice_ref d) -> sinv s /\ (forall id, sview s id = sv id) ->
  0 <= off <= cur -> cur < end_ <= maxOffset -> len buf = end_ - off ->
  (forall p, 0 <= p < end_ - off -> at0 buf p = if p <? cur - off then cell sv d i (off + p) else Byte.x00) ->
  let c := cur / ChunkSize in
  let nxt := Z.min end_ (c * ChunkSize + ChunkSize) in
  forall s' r, readSegs io 0 (c * ChunkSize - off) (resolve (chunkRows d i c) (cur - c * ChunkSize) (nxt - c * ChunkSize)) s buf = (s', r) ->
  (sinv s' /\ forall id, sview s' id = sv id) /\ ((forall k, storeUp (io k)) -> is_ok r = true) /\
  forall buf', r = Ok buf' -> len buf' = len buf /\
    forall p, 0 <= p < end_ - off -> at0 buf' p = if p <? nxt - off then cell sv d i (off + p) else Byte.x00.
Proof.
  intros HF Hv Ho Hce Hl Hbuf c nxt s' r H. pose proof ChunkSize_val as Hcv. pose proof ChunkSize_pos.
  pose proof (Z.div_mod cur ChunkSize). pose proof (Z.mod_pos_bound cur ChunkSize).
  assert (Hc : c * ChunkSize <= cur < c * ChunkSize + ChunkSize) by (unfold c; lia).
  assert (Hn : cur < nxt <= end_ /\ nxt <= c * ChunkSize + ChunkSize) by (unfold nxt; lia).
  destruct (resolve_spec (chunkRows d i c) (cur - c * ChunkSize) (nxt - c * ChunkSize)) as [Ht Ha];
    [by eapply chunkRows_ok|lia|lia|lia|].
  destruct (tiles_bounds _ _ _ Ht) as [Htb _].
  edestruct (readSegs_ok io 0 (c * ChunkSize - off) _ s buf _ _ (fun p => cell sv d i (off + p)) (proj1 Hv) Ht) as (Hs1 & Hs2 & Hs3);
    [lia|lia| | |exact H|].
  - intros p Hp. rewrite Hbuf by lia. by destruct (Z.ltb_spec p (cur - off)); [lia|].
  - rewrite Forall_forall in Ha, Htb |- *. intros g Hg. specialize (Ha g Hg). destruct (Htb g Hg) as (Hg1 & Hg2 & Hg3).
    destruct (seg_bytes sv d i c g HF Ha) as [Hh Hd]; [lia..|]. split.
    + intros Hz x Hx. rewrite <- (Hh Hz x Hx). f_equal. lia.
    + intros Hz. destruct (Hd Hz) as (b & Hb & Hb1 & Hb2 & Hb3). exists b. rewrite (proj2 Hv). split_and!; try done.
      intros x Hx. rewrite <- (Hb3 x Hx). f_equal. lia.
  - split_and!; [apply Hs1|intros id; rewrite (proj2 Hs1); apply Hv|done|]. intros buf' Hb. destruct (Hs3 _ Hb) as [Hl' Hat]. split; [done|].
    intros p Hp. rewrite Hat by lia.
    destruct (Z.leb_spec (c * ChunkSize - off + (cur - c * ChunkSize)) p), (Z.ltb_spec p (c * ChunkSize - off + (nxt - c * ChunkSize))),
      (Z.ltb_spec p (nxt - off)); cbn [andb]; try lia; try done.
    + rewrite Hbuf by lia. by destruct (Z.ltb_spec p (cur - off)); [lia|].
    + rewrite Hbuf by lia. by destruct (Z.ltb_spec p (cur - off)); [|lia].
Qed.

Lemma readLoop_ok fuel v turn sv d i off cur end_ (s : S) buf :
  Forall (row_ok sv) (slice_ref d) -> sinv s /\ (forall id, sview s id = sv id) ->
  0 <= off <= cur -> cur <= end_ <= maxOffset -> len buf = end_ - off ->
  (forall p, 0 <= p < end_ - off -> at0 buf p = if p <? cur - off then cell sv d i (off + p) else Byte.x00) ->
  (cur < end_ -> (end_ - 1) / ChunkSize - cur / ChunkSize < Z.of_nat fuel) ->
  forall s' r, readLoop fuel v turn d i off cur end_ s buf = (s', r) ->
  (sinv s' /\ forall id, sview s' id = sv id) /\
  ((forall k, rowsUp v k = true) -> (forall k j, storeUp (rStore v k j)) -> is_ok r = true) /\
  forall buf', r = Ok buf' -> buf' = bytesOf (fun p => cell sv d i (off + p)) (end_ - off).
Proof.
  intros HF. revert turn cur s buf. induction fuel as [|fuel IH]; intros turn cur s buf Hv Ho Hce Hl Hbuf Hfu s' r H; cbn [readLoop] in H.
  all: destruct (Z.leb_spec end_ cur) as [Hdone|Hmore];
    [injection H as <- <-; split; [done|]; split; [done|]; intros buf' [= <-]; apply bytes_ext; [rewrite bytesOf_len by lia; done|];
     intros p Hp; rewrite bytesOf_at, Hbuf by lia; by destruct (Z.ltb_spec p (cur - off)); [|lia]|].
  { specialize (Hfu Hmore). assert (cur / ChunkSize <= (end_ - 1) / ChunkSize) by (apply Z.div_le_mono; [apply ChunkSize_pos|lia]). lia. }
  destruct (offset_index cur) as (Hq & _ & Hi & Hm & Hsum); [lia|]. rewrite Hq in H. set (c := cur / ChunkSize) in *.
  pose proof ChunkSize_val as Hcv.
  replace (if end_ <? _ then end_ else _) with (Z.min end_ (c * ChunkSize + ChunkSize)) in H
    by (destruct (Z.ltb_spec end_ (c * ChunkSize + ChunkSize)); lia).
  set (nxt := Z.min _ _) in H. assert (Hn : cur < nxt <= end_ /\ nxt <= c * ChunkSize + ChunkSize) by (unfold nxt; lia).
  rewrite !u32_small in H by lia. unfold ReadSlices in H.
  destruct (rowsUp v turn) eqn:Eu; cbn [negb orb] in H; [|injection H as <- <-; split; [done|]; split; [|done]; intros Hr; by rewrite Hr in Eu].
  replace (int4 c) with true in H by (symmetry; unfold int4; rewrite andb_true_iff, Z.leb_le, Z.ltb_lt; lia). cbn [negb] in H.
  destruct (readSegs _ _ _ _ _ _) as [s1 r1] eqn:Es.
  assert (Hce2 : cur < end_ <= maxOffset) by lia.
  destruct (readChunk_ok sv (rStore v turn) d i off cur end_ s buf HF Hv Ho Hce2 Hl Hbuf _ _ Es) as (H1 & H2 & H3).
  destruct r1 as [buf1|e1]; [|injection H as <- <-; split; [done|]; split; [|done]; intros _ Hs; by apply H2].
  destruct (H3 _ eq_refl) as [Hl1 Hb1]. change (Z.min _ _) with nxt in Hb1. apply (IH (turn + 1)%nat nxt s1 buf1); [exact H1|lia|lia|lia|exact Hb1| |exact H].
  intros Hlt. assert (Hnx : nxt = (c + 1) * ChunkSize) by (unfold nxt in *; lia).
  rewrite Hnx, Z.div_mul by lia. specialize (Hfu Hmore). lia.
Qed.

(** Reading makes the store see no new id. *)
Lemma readSegs_touched io j delta sgs (s : S) buf s' r :
  readSegs io j delta sgs s buf = (s', r) -> sinv s -> sinv s' /\ forall id, stouched s' id -> stouched s id.
Proof.
  revert j s buf. induction sgs as [|g sgs IH]; intros j s buf H Hi; cbn [readSegs] in H; [by injection H as <- <-|].
  destruct (sid g =? 0); [by eapply IH|].
  pose proof (sReadAt_inv (io j) (sid g) (srcOff g) (send g - sstart g) s Hi) as Hi1.
  pose proof (fun x => sReadAt_touched (io j) (sid g) (srcOff g) (send g - sstart g) s x Hi) as Ht1.
  destruct (sReadAt _ _ _ _ s) as [s1 [out|e]]; cbn [fst] in *; [|by injection H as <- <-].
  destruct (IH _ _ _ H Hi1) as [H1 H2]. auto.
Qed.

Lemma readLoop_touched fuel v turn d i off cur end_ (s : S) buf s' r :
  readLoop fuel v turn d i off cur end_ s buf = (s', r) -> sinv s -> forall id, stouched s' id -> stouched s id.
Proof.
  revert turn cur s buf. induction fuel as [|fuel IH]; intros turn cur s buf H Hi; cbn [readLoop] in H;
    (destruct (end_ <=? cur); [by injection H as <- <-|]); [by injection H as <- <-|].
  destruct (ReadSlices _ _ _ _) as [rows|e]; [|by injection H as <- <-].
  destruct (readSegs _ _ _ _ _ _) as [s1 r1] eqn:Es. destruct (readSegs_touched _ _ _ _ _ _ _ _ Es Hi) as [Hi1 Ht1].
  destruct r1; [|by injection H as <- <-]. intros id Hid. eapply Ht1, IH; [exact H|done|done].
Qed.

Lemma fileRead_ok v i off n (f f' : files S) r :
  Read v i off n f = (f', r) -> files_ok f -> 0 <= off -> 0 <= n -> off + n <= maxOffset ->
  (files_ok f' /\ fcontents f' = fcontents f /\ fmeta f' = fmeta f) /\
  (forall out, r = Ok out -> exists l, fcontents f !! i = Some l /\ out = readOf l off n) /\
  (attrUp v = true -> (forall k, rowsUp v k = true) -> (forall k j, storeUp (rStore v k j)) -> is_Some (fcontents f !! i) -> is_ok r = true).
Proof.
  unfold Read, GetAttr. intros H Hok Ho Hn Hm. unfold fcontents at 3 4. rewrite contents_lookup.
  destruct (attrUp v); cbn [negb] in H; [|by injection H as <- <-].
  destruct (node (mdb (fmeta f)) !! i) as [a|] eqn:Ea; [|injection H as <- <-; split_and!; try done; by intros _ _ _ [? ?]].
  destruct (ok_lens _ _ _ (proj2 Hok) _ _ Ea) as [Hp _]. cbn [fmap option_fmap option_map].
  destruct (Z.leb_spec (Length a) off) as [Hpast|Hin]; cbn [orb] in H.
  { injection H as <- <-. split_and!; try done. intros out [= <-]. eexists. split; [done|]. unfold readOf. rewrite slice_past; [done|].
    by rewrite bytesOf_len. }
  destruct (Z.eqb_spec n 0) as [->|Hn0].
  { injection H as <- <-. split_and!; try done. intros out [= <-]. eexists. split; [done|]. unfold readOf, slice.
    rewrite bytesOf_len by done. by replace (Z.to_nat _) with 0%nat by lia. }
  replace (if Length a <? off + n then _ else _) with (Z.min (off + n) (Length a)) in H
    by (destruct (Z.ltb_spec (Length a) (off + n)); lia).
  set (end_ := Z.min _ _) in H. destruct (readLoop _ _ _ _ _ _ _ _ _ _) as [s1 r1] eqn:El. injection H as <- <-.
  assert (He : off < end_ <= off + n /\ end_ <= Length a) by (unfold end_; lia). pose proof ChunkSize_pos as Hcp.
  edestruct (readLoop_ok (chunkFuel (end_ - off)) v 0%nat (sview (fchunks f)) (mdb (fmeta f)) i off off end_ (fchunks f) (zeros (end_ - off))) as (H1 & H2 & H3);
    [exact (proj1 (ok_rows _ _ _ (proj2 Hok)))|split; [apply Hok|done]|lia|lia|rewrite zeros_len; lia| | |exact El|].
  - intros p Hp'. rewrite at0_zeros. by destruct (Z.ltb_spec p (off - off)); [lia|].
  - intros _. unfold chunkFuel. pose proof (Z.div_mod (end_ - 1) ChunkSize). pose proof (Z.mod_pos_bound (end_ - 1) ChunkSize).
    pose proof (Z.div_mod off ChunkSize). pose proof (Z.mod_pos_bound off ChunkSize).
    pose proof (Z.div_mod (end_ - off) ChunkSize). pose proof (Z.mod_pos_bound (end_ - off) ChunkSize).
    assert (0 <= (end_ - off) / ChunkSize) by (apply Z.div_pos; lia). nia.
  - split; [|split; [|auto]].
    + destruct (fs_ok_ext (sview (fchunks f)) (sview s1) (eng (fmeta f)) (eng (fmeta f)) (mdb (fmeta f)) (mdb (fmeta f))) as [Hok' Hc']; try done; [|apply Hok|].
      * apply Forall_forall. intros r _. apply H1.
      * split_and!; try done. split; [|done]. split; [apply H1|]. intros id Hid. apply (proj1 Hok). eapply readLoop_touched; [exact El|apply Hok|done].
    + intros out ->. eexists. split; [done|]. rewrite (H3 _ eq_refl). unfold readOf. rewrite bytesOf_len by done. change (Z.min _ _) with end_.
      apply bytes_ext; rewrite bytesOf_len by lia; [rewrite slice_len by (rewrite ?bytesOf_len; lia); done|].
      intros k Hk. rewrite bytesOf_at, at0_slice, bytesOf_at by lia. done.
Qed.

(** ** Truncate and clone *)

Lemma Truncate_ok io v i size (f f' : files S) e :
  Truncate io v i size f = (f', e) -> files_ok f -> 0 <= size < 2 ^ 63 ->
  files_ok f' /\ ((e <> None /\ fcontents f' = fcontents f) \/
    exists l, fcontents f !! i = Some l /\ fcontents f' = <[i := resizeTo l size]> (fcontents f)).
Proof.
  unfold Truncate. intros H Hok Hs. destruct (walAppend _ _ _) as [f1 ok] eqn:Ea. apply walAppend_same in Ea as [Em Es].
  assert (Hf1 : files_ok f1 /\ fcontents f1 = fcontents f) by (unfold files_ok, fcontents in *; by rewrite Em, Es).
  destruct Hf1 as [Hok2 Hc2]. destruct ok; [|injection H as <- <-; split; [done|]; by left].
  unfold MetaTruncate in H. destruct (mutating _ _ _ _) as [m em] eqn:Eu.
  destruct (mutating_cases _ _ _ _ _ _ Eu) as (c & o & Hen & [[Hd Hn]|Hb]).
  - destruct (unapplied_ok f1 m c o Hok2 Hen Hd) as [Hok3 Hc3]. rewrite Hc2 in Hc3.
    destruct em; injection H as <- <-; split; try done. by left.
  - destruct (truncateBody_ok _ _ _ _ _ Hb) as (cur & Hc & Hnode & Hrows & Hx). cbn in Hc, Hnode, Hrows, Hx.
    destruct Hok2 as [Hsi [H1 H2 H3 H4 H5]]. destruct (H3 _ _ Hc) as [Hl0 _].
    destruct (contents_truncate (sview (fchunks f1)) _ (mdb (fmeta f1)) (mdb m) i size cur H2 Hc Hl0 ltac:(lia) Hnode Hrows) as [Hct Hend].
    assert (Hok3 : files_ok (set_meta m f1)).
    { split; [by eapply store_ok_tx; [exact Hen|exact Hx|]|]. cbn. rewrite Hen. split; [by eapply truncRows_ok|done| | |cbn; by rewrite Hx].
      - intros j a Hj. rewrite Hnode in Hj. destruct (decide (j = i)) as [->|].
        + rewrite lookup_insert_eq in Hj. injection Hj as <-. cbn. lia.
        + rewrite lookup_insert_ne in Hj by done. eauto.
      - rewrite Hrows. unfold used. cbn. rewrite Hx. by apply (truncRows_ids (used (eng (fmeta f1)) (mdb (fmeta f1)))). }
    rewrite <- Hc2. destruct em; injection H as <- <-; (split; [done|]); right; (eexists; split; [|exact Hct]);
      unfold fcontents; by rewrite contents_lookup, Hc.
Qed.

Lemma Clone_ok v order src dst (f f' : files S) e :
  Clone v order src dst f = (f', e) -> files_ok f -> keepsOrder order ->
  Forall (fun r => srIno r <> dst) (slice_ref (mdb (fmeta f))) ->
  files_ok f' /\ ((e <> None /\ fcontents f' = fcontents f) \/
    exists l, fcontents f !! src = Some l /\ is_Some (fcontents f !! dst) /\ fcontents f' = <[dst := l]> (fcontents f)).
Proof.
  unfold Clone, MetaClone. intros H Hok Ho Hd. destruct (mutating _ _ _ _) as [m em] eqn:Eu.
  destruct (mutating_cases _ _ _ _ _ _ Eu) as (c & o & Hen & [[Hdb Hn]|Hb]).
  - destruct (unapplied_ok f m c o Hok Hen Hdb) as [Hok3 Hc3]. destruct em; injection H as <- <-; split; try done. by left.
  - destruct Hok as [Hsi [H1 H2 H3 H4 H5]].
    destruct (cloneBody_ok (sview (fchunks f)) _ _ _ _ _ _ Hb Ho H1 Hd) as (sa & da & Hsa & Hda & Hnode & Hrows & Hrok & Hx). cbn in Hsa, Hda, Hnode, Hrows, Hx.
    destruct (contents_clone (sview (fchunks f)) order _ src dst (mdb (fmeta f)) (mdb m) sa da H2 (proj1 H1) Ho Hd Hsa (proj1 (H3 _ _ Hsa)) Hnode Hrows) as [Hct Hend].
    assert (Hok3 : files_ok (set_meta m f)).
    { split; [by eapply store_ok_tx; [exact Hen|exact Hx|]|]. cbn. rewrite Hen. split; [done|done| | |cbn; by rewrite Hx].
      - intros j a Hj. rewrite Hnode in Hj. destruct (decide (j = dst)) as [->|].
        + rewrite lookup_insert_eq in Hj. injection Hj as <-. cbn. eauto.
        + rewrite lookup_insert_ne in Hj by done. eauto.
      - rewrite Hrows. unfold used. cbn. rewrite Hx. apply Forall_app. split; [exact H4|]. destruct (Ho (filter (fun r => srIno r = src) (slice_ref (mdb (fmeta f))))) as [-> _].
        apply Forall_fmap, Forall_forall. intros r [_ Hr]%list_elem_of_filter. rewrite Forall_forall in H4. exact (H4 r Hr). }
    destruct em; injection H as <- <-; (split; [done|]); right; (eexists; split_and!; [| |exact Hct]);
      unfold fcontents; rewrite contents_lookup; [by rewrite Hsa|by rewrite Hda|by rewrite Hsa|by rewrite Hda].
Qed.

(** ** Histories *)

Inductive flabel :=
| LWrite (i off : Z) (data : bytes) (n : Z) (ok : bool)
| LRead (i off n : Z) (out : option bytes)
| LTruncate (i size : Z) (ok : bool)
| LClone (src dst : Z) (ok : bool)
| LInternal.

Definition okOf (e : option err) : bool := match e with None => true | Some _ => false end.
Definition outOf (r : result bytes) : option bytes := match r with Ok b => Some b | Err _ => None end.

(** Calls of the data path, each in any environment.  A clone goes to a file
    without slices, as its contract asks.  In between the store works on its
    own, and the process may stop and start again, losing its memory and with
    any state of the log. *)
Inductive fstep : files S -> flabel -> files S -> Prop :=
| f_write v i off data class f f' n e :
    0 <= off -> off + len data <= maxOffset -> Write v i off data class f = (f', (n, e)) ->
    fstep f (LWrite i off data n (okOf e)) f'
| f_read v i off n f f' r :
    0 <= off -> 0 <= n -> off + n <= maxOffset -> Read v i off n f = (f', r) -> fstep f (LRead i off n (outOf r)) f'
| f_truncate io v i size f f' e :
    0 <= size < 2 ^ 63 -> Truncate io v i size f = (f', e) -> fstep f (LTruncate i size (okOf e)) f'
| f_clone v order src dst f f' e :
    keepsOrder order -> Forall (fun r => srIno r <> dst) (slice_ref (mdb (fmeta f))) ->
    Clone v order src dst f = (f', e) -> fstep f (LClone src dst (okOf e)) f'
| f_store s f : sStep (fchunks f) s -> fstep f LInternal (set_chunks s f)
| f_restart region session n s w f :
    sStep (fchunks f) s -> fstep f LInternal (MkFiles (MkMeta (OpenEngine region session n) (mdb (fmeta f))) s w).

Inductive fsteps : files S -> list flabel -> files S -> Prop :=
| fs_nil f : fsteps f [] f
| fs_snoc f ls f1 l f2 : fsteps f ls f1 -> fstep f1 l f2 -> fsteps f (ls ++ [l]) f2.
End Refine.

(** The same calls on byte sequences. *)
Inductive astep : afs -> flabel -> afs -> Prop :=
| a_write A A' i off data n k ok :
    0 <= n <= k -> k <= len data -> (ok = true -> n = len data) -> writes i off (slice data 0 k) A A' ->
    astep A (LWrite i off data n ok) A'
| a_read A i off n l : A !! i = Some l -> astep A (LRead i off n (Some (readOf l off n))) A
| a_read_err A i off n : astep A (LRead i off n None) A
| a_truncate A i size l ok : A !! i = Some l -> astep A (LTruncate i size ok) (<[i := resizeTo l size]> A)
| a_truncate_err A i size : astep A (LTruncate i size false) A
| a_clone A src dst l ok : A !! src = Some l -> is_Some (A !! dst) -> astep A (LClone src dst ok) (<[dst := l]> A)
| a_clone_err A src dst : astep A (LClone src dst false) A
| a_internal A : astep A LInternal A.

Inductive asteps : afs -> list flabel -> afs -> Prop :=
| as_nil A : asteps A [] A
| as_snoc A ls A1 l A2 : asteps A ls A1 -> astep A1 l A2 -> asteps A (ls ++ [l]) A2.

(** A new process starts without the id range its predecessor reserved. *)
Lemma used_restart e d region session n j : used e d j -> used (OpenEngine region session n) d j.
Proof. unfold used. cbn. lia. Qed.

Lemma fs_ok_restart sv e d region session n : fs_ok sv e d -> fs_ok sv (OpenEngine region session n) d.
Proof.
  intros [H1 H2 H3 H4 H5]. split; try done; [|cbn; lia]. eapply Forall_impl; [exact H4|]. intros r. apply used_restart.
Qed.

Lemma store_step_ok {S} `{!SliceStore S, !SliceStoreLaws S} (f : files S) s :
  sStep (fchunks f) s -> files_ok f -> files_ok (set_chunks s f) /\ fcontents (set_chunks s f) = fcontents f.
Proof.
  intros Hst [[Hi Ht] H]. destruct (fs_ok_keeps (sview (fchunks f)) (sview s) (eng (fmeta f)) (mdb (fmeta f))) as [? ?]; try done.
  - apply Forall_forall. intros r _ b. by apply sStep_keeps.
  - split; [|done]. split; [|done]. split; [by eapply sStep_inv|]. intros id Hid. by eapply Ht, sStep_touched.
Qed.

Lemma fstep_simulates {S} `{!SliceStore S, !SliceStoreLaws S} (f f' : files S) l :
  fstep f l f' -> files_ok f -> files_ok f' /\ astep (fcontents f) l (fcontents f').
Proof.
  destruct 1 as [v i off data class f f' n e Ho Hm H|v i off n f f' r Ho Hn Hm H|io v i size f f' e Hs H|v order src dst f f' e Hor Hd H|s f Hst|region session n s w f Hst]; intros Hok.
  - apply Write_ok in H as (Hok' & k & Hk & Hn & He & Hw); [|done..]. split; [done|]. apply a_write with k; try lia; [|done].
    intros E. destruct e; [done|]. by apply He.
  - apply fileRead_ok in H as ((Hok' & Hc & _) & Hr & _); [|done..]. split; [done|]. rewrite Hc. destruct r as [out|e]; [|constructor].
    destruct (Hr out eq_refl) as (l & Hl & ->). by constructor.
  - destruct (Truncate_ok _ _ _ _ _ _ _ H Hok Hs) as (Hok' & [[He Hc]|(l & Hl & Hc)]); (split; [done|]); rewrite Hc; [|by constructor].
    destruct e; [constructor|done].
  - destruct (Clone_ok _ _ _ _ _ _ _ H Hok Hor Hd) as (Hok' & [[He Hc]|(l & Hl & Hl2 & Hc)]); (split; [done|]); rewrite Hc; [|by constructor].
    destruct e; [constructor|done].
  - destruct (store_step_ok f s Hst Hok) as [Hok' ->]. split; [done|constructor].
  - destruct (store_step_ok f s Hst Hok) as [[Hs Hok'] Hc]. split.
    + split; [eapply store_ok_meta; [|exact Hs]; intros j; apply used_restart|by eapply fs_ok_restart].
    + change (fcontents (MkFiles _ _ _)) with (fcontents (set_chunks s f)). rewrite Hc. constructor.
Qed.

(** ** The empty file system *)

(** A fresh database with an empty regular file. *)
Definition emptyFile : Attr := MkAttr TypeFile 420 0 0 0 0 0 0 0 0 1 0 0 RootInode 0 "".
Definition freshMeta (inos : list Z) : meta :=
  MkMeta (OpenEngine 0 0 "") (set_node (list_to_map ((fun i => (i, emptyFile)) <$> inos)) (bootstrap (MkNow 0 0) emptyDb)).

(** A store in memory, as a SliceStore: up or down per call. *)
#[global] Instance mapStore : SliceStore (gmap Z bytes) := {
  storeIO := bool;
  sWrite up id b _ s := if up then (<[id := b]> s, None) else (s, Some (EOther "down"));
  sReadAt up id off n s :=
    (s, if negb up then Err (EOther "down")
        else match s !! id with
             | Some b => Ok (slice b off (Z.min (off + n) (len b)))
             | None => Err (EOther "not found")
             end) }.

#[global] Instance mapStore_laws : SliceStoreLaws (gmap Z bytes).
Proof.
  refine {| sinv _ := True; sview s i := s !! i; stouched s i := is_Some (s !! i); storeUp up := up = true; sStep := eq |}; cbn.
  - done.
  - by intros s s' id b _ <-.
  - by intros s s' id _ <-.
  - done.
  - intros up id b c s s' _ _. destruct up; [|done]. intros [= <-]. apply lookup_insert_eq.
  - intros up id b c s j x _ Hj Hx. destruct up; [|done]. cbn. by rewrite lookup_insert_ne.
  - intros up id b c s j _. destruct up; [|by right]. cbn. destruct (decide (j = id)) as [->|Hj]; [by left|]. rewrite lookup_insert_ne by done. by right.
  - by intros ? ? ? ? ? _ ->.
  - done.
  - done.
  - done.
  - intros up id off n s b out _ -> _. by destruct up; intros [= <-].
  - by intros ? ? ? ? ? b _ -> ->.
Defined.

Lemma files_init {S} `{!SliceStore S, !SliceStoreLaws S} inos (s : S) w :
  sinv s -> (forall id, ~ stouched s id) -> files_ok (MkFiles (freshMeta inos) s w).
Proof.
  intros Hs Hno. split; [split; [done|]; intros id Hid; by apply Hno in Hid|]. cbn. split.
  - split; constructor.
  - intros i a k _ _. done.
  - intros i a H. cbn in H. apply elem_of_list_to_map_2 in H. apply list_elem_of_fmap in H as (j & [= -> ->] & _). done.
  - constructor.
  - cbn. lia.
Qed.


(** ** With everything up *)

Definition walReady (w : option (WAL * wdir)) : Prop :=
  match w with None => True | Some (w, d) => exists p, wCur w = Some p /\ is_Some (d !! p) end.

Lemma appendFrame_up w d r : walReady (Some (w, d)) -> exists w' d' n, appendFrame ioUp w d r = (w', d', Ok n) /\ walReady (Some (w', d')).
Proof.
  intros (p & Hp & [fl Hf]). unfold appendFrame. cbn [wCur]. rewrite Hp, Hf. cbn. eexists _, _, _. split; [done|].
  exists p. rewrite lookup_insert_eq. eauto.
Qed.

Lemma Append_up w d r : walReady (Some (w, d)) -> exists w' d' n, Append ioUp w d r = (w', d', Ok n) /\ walReady (Some (w', d')).
Proof.
  intros H. unfold Append. destruct (match wCur w with Some _ => _ | None => _ end); [|by apply appendFrame_up].
  unfold rollLocked. cbn [ioUp createOk dirSyncOk negb]. apply appendFrame_up. eexists. split; [done|].
  generalize (if syncOk ioUp then syncFile d (wCur w) else d). intros d1.
  destruct (d1 !! segName _) eqn:E; [rewrite E|rewrite lookup_insert_eq]; eauto.
Qed.

Section Up.
  Context {S : Type} `{!SliceStore S, !SliceStoreLaws S}.

Lemma walAppend_up r (f : files S) : walReady (fwal f) -> exists f', walAppend ioUp r f = (f', true) /\ walReady (fwal f').
Proof.
  intros H. unfold walAppend. destruct (fwal f) as [[w d]|] eqn:E; [|exists f; by rewrite E].
  destruct (Append_up w d r H) as (w' & d' & n & -> & H'). eexists. split; [done|]. done.
Qed.

(** A healthy environment: no coordinator, and nothing fails. *)
Definition allUp (v : nat -> wenv S) : Prop :=
  forall k, slUp (v k) = true /\ storeUp (wStore (v k)) /\ wLog (v k) = ioUp /\ Enabled (wMeta (v k)) = false /\ mfate (wMeta (v k)) = Commits.

Definition isFile (f : files S) (i : Z) : Prop := exists a, node (mdb (fmeta f)) !! i = Some a /\ Typ a = TypeFile.

Lemma writeBody_up t i indx pos s d a :
  node d !! i = Some a -> Typ a = TypeFile -> forallb int4 [indx; pos; sSize s; Off s; Len s] = true ->
  exists d' a', writeBody t i indx pos s d = TxOk d' /\ node d' !! i = Some a' /\ Typ a' = TypeFile.
Proof.
  intros Ha Ht H4. unfold writeBody. rewrite Ha, Ht, H4. cbn [Z.eqb negb]. change (TypeFile =? TypeFile) with true. cbn [negb].
  destruct (existsb _ _); eexists _, _; (split; [done|]); [done|]. cbn. rewrite lookup_insert_eq. done.
Qed.

Lemma writeSlice_up v k i indx pos id b class (f : files S) :
  allUp v -> files_ok f -> isFile f i -> walReady (fwal f) -> 0 <= indx < 2 ^ 31 -> 0 <= pos < ChunkSize -> len b <= ChunkSize ->
  exists f', writeSlice (v k) i indx pos id b class f = (f', None) /\ isFile f' i /\ walReady (fwal f').
Proof.
  intros Hup Hok (a & Ha & Ht) Hw Hi Hp Hl. destruct (Hup k) as (_ & Hst & Hlog & Hen & Hfate). pose proof ChunkSize_val. pose proof (len_nonneg b).
  unfold writeSlice. pose proof (sWrite_up (wStore (v k)) id b class (fchunks f) (proj1 (proj1 Hok)) Hst) as Hs.
  destruct (sWrite _ _ _ _ _) as [s e]. cbn in Hs. subst e. rewrite Hlog.
  destruct (walAppend_up (MkRec 0 OpWrite i indx pos id (u32 (len b)) 0 (u32 (len b))) (set_chunks s f) Hw) as (f1 & E & Hw1).
  rewrite E. apply walAppend_same in E as [Em _]. cbn in Em. rewrite u32_small by lia.
  unfold MetaWrite. rewrite mutating_single, Hfate by done. unfold withTx.
  destruct (writeBody_up (mnow (wMeta (v k))) i indx pos (MkSlice 0 id (len b) 0 (len b)) (mdb (fmeta f1)) a) as (d' & a' & -> & Ha' & Ht').
  - by rewrite Em.
  - done.
  - cbn. unfold int4. repeat (rewrite ?andb_true_iff, ?Z.leb_le, ?Z.ltb_lt). lia.
  - eexists. split; [done|]. split; [by exists a'|done].
Qed.

Lemma writeLoop_up v fuel turn i off data class total (f : files S) :
  allUp v -> (length data <= fuel)%nat -> files_ok f -> isFile f i -> walReady (fwal f) -> 0 <= off -> off + len data <= maxOffset ->
  exists f', writeLoop fuel v turn i off data class total f = (f', (total + len data, None)) /\ isFile f' i /\ walReady (fwal f').
Proof.
  intros Hup. revert turn off data total f. induction fuel as [|fuel IH]; intros turn off data total f Hfu Hok Hf Hw Ho Hm.
  { destruct data; [|cbn in Hfu; lia]. exists f. cbn. by rewrite Z.add_0_r. }
  destruct data as [|x data]; [exists f; cbn; by rewrite Z.add_0_r|].
  cbn [writeLoop]. set (dd := x :: data) in *. pose proof (len_nonneg data).
  assert (Hdl : len dd = 1 + len data) by apply len_cons.
  destruct (offset_index off) as (Hq & Hr & Hi & Hp & Hsum); [lia|]. rewrite Hq, Hr.
  set (m := if _ <? len dd then _ else _).
  assert (Hmm : 1 <= m <= len dd /\ off mod ChunkSize + m <= ChunkSize) by
    (subst m; destruct (Z.ltb_spec (ChunkSize - off mod ChunkSize) (len dd)); lia).
  assert (Hml : len (slice dd 0 m) = m) by (rewrite slice_len; lia).
  destruct (NewSlice _ _) as [m1 [id|en]] eqn:En.
  2:{ exfalso. destruct (Hup turn) as [Hsl _]. rewrite Hsl in En. unfold NewSlice in En. by destruct (_ <=? _). }
  destruct (NewSlice_ok _ _ _ _ En) as (Hid & Hnu & Hu & Hmono & Hrange & Hnode & Hrows); [apply (proj2 Hok)|].
  destruct (fs_ok_fresh (sview (fchunks f)) (fmeta f) m1 (proj2 Hok) Hnode Hrows Hmono Hrange) as [Hok1 Hc1].
  destruct (writeSlice_up v turn i (off / ChunkSize) (off mod ChunkSize) id (slice dd 0 m) class (set_meta m1 f)) as (f1 & Es & Hf1 & Hw1);
    [done|split; [eapply store_ok_meta; [exact Hmono|apply Hok]|done]| |done|lia|lia|lia|].
  { destruct Hf as (a & Ha & Ht). exists a. cbn. by rewrite Hnode. }
  rewrite Es.
  assert (Hok2 : files_ok f1).
  { eapply writeSlice_ok; [exact Es|split; [eapply store_ok_meta; [exact Hmono|apply Hok]|done]| |done| |done| |lia|lia|lia].
    - intros E. rewrite E in Hml. change (0 = m) in Hml. lia.
    - intros Hst. by apply Hnu, (proj1 Hok).
    - cbn. rewrite Hrows. eapply Forall_impl; [exact (ok_used _ _ _ (proj2 Hok))|]. cbn. intros r Hr' Heq. by rewrite Heq in Hr'. }
  assert (Hsl : len (slice dd m (len dd)) = len dd - m) by (apply slice_len; lia).
  assert (Hsf : (length (slice dd m (len dd)) <= fuel)%nat) by (clear -Hsl Hfu Hmm; unfold len in *; lia).
  destruct (IH (turn + 1)%nat (off + m) _ (total + m) f1 Hsf Hok2 Hf1 Hw1 ltac:(lia) ltac:(lia)) as (f' & E & Hf' & Hw').
  exists f'. rewrite E, slice_len by lia. split; [|done]. do 2 f_equal. lia.
Qed.
End Up.

(** C28: reading one's writes: with nothing failing, a write to a regular file
    reports all its bytes written, and any later read returns exactly what the
    write left — its own data where they overlap, zeros in a gap past the old
    end, the old bytes elsewhere — and always succeeds. *)
Theorem write_then_read {S} `{!SliceStore S, !SliceStoreLaws S} v i off data class (f : files S) l rv roff n :
  allUp v -> files_ok f -> isFile f i -> walReady (fwal f) -> 0 <= off -> off + len data <= maxOffset ->
  fcontents f !! i = Some l ->
  attrUp rv = true -> (forall k, rowsUp rv k = true) -> (forall k j, storeUp (rStore rv k j)) ->
  0 <= roff -> 0 <= n -> roff + n <= maxOffset ->
  exists f' f'', Write v i off data class f = (f', (len data, None)) /\
    Read rv i roff n f' = (f'', Ok (readOf (overwrite l off data) roff n)).
Proof.
  intros Hup Hok Hf Hw Ho Hm Hl Ha Hr Hs Hro Hn Hrm.
  destruct (writeLoop_up v (length data) 0 i off data class 0 f) as (f' & Ew & Hf' & _); [done..|].
  fold (Write v i off data class f) in Ew.
  destruct (Write_ok _ _ _ _ _ _ _ _ _ Ew Hok Ho Hm) as (Hok' & k & _ & _ & Hk & Hwr). destruct (Hk eq_refl) as [_ ->].
  rewrite slice_all in Hwr.
  assert (Hl' : fcontents f' !! i = Some (overwrite l off data)).
  { destruct data as [|x data]; [cbn in Hwr; by rewrite Hwr|]. destruct Hwr as (l' & Hl' & ->). rewrite lookup_insert_eq. congruence. }
  destruct (Read rv i roff n f') as [f'' r] eqn:Er. destruct (fileRead_ok _ _ _ _ _ _ _ Er Hok' Hro Hn Hrm) as (_ & Hout & Hsucc).
  exists f', f''. split; [done|]. rewrite Er. rewrite Hl' in Hsucc. specialize (Hsucc Ha Hr Hs (mk_is_Some _ _ eq_refl)).
  destruct r as [out|]; [|done]. destruct (Hout out eq_refl) as (l' & Hl2 & ->). congruence.
Qed.

Definition demoV (k : nat) : wenv (gmap Z bytes) := MkWEnv (S := gmap Z bytes) true true ioUp (MkEnv false noopOwner 0 Commits (MkNow 7 0)).
Definition demoR : renv (gmap Z bytes) := MkREnv (S := gmap Z bytes) true (fun _ => true) (fun _ _ => true).
Definition demoF : files (gmap Z bytes) := MkFiles (freshMeta [2; 3]) ∅ None.

Lemma demoF_ok : files_ok demoF.
Proof. apply files_init; [done|]. intros id [x Hx]. by rewrite lookup_empty in Hx. Defined.

(** Five bytes across a chunk boundary, read back from two bytes before them. *)
Lemma write_then_read_witness :
  let data := [Byte.x61; Byte.x62; Byte.x63; Byte.x64; Byte.x65] in
  exists f' f'', Write demoV 2 (ChunkSize - 2) data 0 demoF = (f', (5, None)) /\
    Read demoR 2 (ChunkSize - 4) 10 f' = (f'', Ok (readOf (overwrite [] (ChunkSize - 2) data) (ChunkSize - 4) 10)).
Proof.
  intros data. apply (write_then_read demoV 2 (ChunkSize - 2) data 0 demoF [] demoR (ChunkSize - 4) 10).
  - intros k. done.
  - exact demoF_ok.
  - exists emptyFile. split; reflexivity.
  - exact I.
  - vm_compute. done.
  - vm_compute. done.
  - vm_compute. done.
  - done.
  - done.
  - done.
  - vm_compute. done.
  - done.
  - vm_compute. done.
Defined.

