(* ===== verification/DiskCache.v ===== *)
(** The disk cache and write-back staging of mlfs (mlfs/internal/cache/cache.go)
    in front of a chunk store (the [Store] and [BatchWriter] interfaces of
    mlfs/internal/chunkstore/chunkstore.go).

    A write is staged: a checksummed file is written, synced, renamed into the
    staging directory and the directory synced before the call returns.  Drains
    upload staged files to the backing store, copy them to the clean cache and
    remove them; reads look in the clean cache, then in staging, then in the
    backing store.  The clean cache is an LRU with limits.

    A directory is what a crash would find in it ([synced]) and the operations
    since its last sync, any of which a crash may lose.  Files are keyed by the
    slice id their name is the numeral of ([Decimal]); temporary files, which no
    reader looks at, are left out.  Each call takes what its environment
    answers.  A write that fails part way leaves bytes behind; the type [torn]
    says of them that they verify only if they are the whole file, which is
    what the SHA-256 header is for.  Uploads a drain runs in parallel are of
    different slices; here they happen one after the other. *)

From stdpp Require Import sorting.
From S2P Require Import Prelude GoStrings Decimal Sha256 Overlay Wal MetaDb FileMeta FileIO.

(** ** The backing store *)

Record BatchItem := MkItem { bID : Z; bData : bytes; bClass : Z }.

Class ChunkStore (B : Type) := {
  bIO : Type;
  bWrite : bIO -> Z -> bytes -> Z -> B -> B * option err;
  bRead : bIO -> Z -> B -> B * result bytes;
  bExists : bIO -> Z -> B -> result bool;
  bRemove : bIO -> Z -> B -> B * option err;
  bWriteBatch : option (bIO -> list BatchItem -> B -> B * option err);
  bReadBatch : option (bIO -> list Z -> B -> B * (Z * Z) * result (gmap Z bytes)) }.

(** ** Checksummed files *)

Definition checksumLen : Z := 32.

(** What [writeChecksummed] writes. *)
Definition checksummed (data : bytes) : bytes := sha256 data ++ data.

Definition readChecksummed (raw : bytes) : option bytes :=
  if len raw <? checksumLen then None
  else let body := slice raw checksumLen (len raw) in
       if bool_decide (sha256 body = slice raw 0 checksumLen) then Some body else None.

Definition stagedHashPrefix : bytes :=
  [Byte.x6d; Byte.x6c; Byte.x66; Byte.x73; Byte.x2d; Byte.x73; Byte.x74; Byte.x61; Byte.x67; Byte.x65; Byte.x64; Byte.x2d; Byte.x76; Byte.x31; Byte.x00].

Definition stagedSum (class : byte) (data : bytes) : bytes := sha256 (stagedHashPrefix ++ [class] ++ data).

(** What [writeStaged] writes. *)
Definition staged (class : byte) (data : bytes) : bytes := stagedSum class data ++ [class] ++ data.

(** [readStaged] on the bytes of a file: the class and the data, also of a file
    in the format without a class; [None] is [errCorrupt]. *)
Definition readStaged (raw : bytes) : option (byte * bytes) :=
  let legacy := (fun body => (Byte.x00, body)) <$> readChecksummed raw in
  if checksumLen + 1 <=? len raw then
    let cb := default Byte.x00 (raw !! Z.to_nat checksumLen) in
    let body := slice raw (checksumLen + 1) (len raw) in
    if bool_decide (stagedSum cb body = slice raw 0 checksumLen) then Some (cb, body) else legacy
  else legacy.

(** ** Directories *)

Inductive dirOp := PutFile (id : Z) (raw : bytes) | DelFile (id : Z).

Record jdir := MkDir { synced : gmap Z bytes; pending : list dirOp }.

Definition applyOp (m : gmap Z bytes) (op : dirOp) : gmap Z bytes :=
  match op with PutFile id raw => <[id := raw]> m | DelFile id => delete id m end.

(** What the process sees. *)
Definition listing (d : jdir) : gmap Z bytes := foldl applyOp (synced d) (pending d).

Definition dirDo (op : dirOp) (d : jdir) : jdir := MkDir (synced d) (pending d ++ [op]).
Definition fsyncDir (d : jdir) : jdir := MkDir (listing d) [].

(** [os.Remove], whose error is dropped. *)
Definition osRemove (ok : bool) (id : Z) (d : jdir) : jdir := if ok then dirDo (DelFile id) d else d.

(** [os.ReadDir] sorts by name. *)
#[global] Instance name_le_dec : RelDecision (fun a b : Z => str_ltb (FormatUint b) (FormatUint a) = false).
Proof. intros a b. apply _. Defined.

Definition readDir (d : jdir) : list Z :=
  merge_sort (fun a b => str_ltb (FormatUint b) (FormatUint a) = false) (fst <$> map_to_list (listing d)).

(** ** Configuration and state *)

(** [minFree total] is [int64(MinFreeFraction * float64(total))]. *)
Record Config := MkConfig {
  MaxBytes : Z; MaxItems : Z; minFree : option (Z -> Z); OnCorrupt : bool; UploadConcurrency : Z; batchBudget : Z }.

Record lruEntry := MkEntry { entId : Z; entSize : Z }.

Section Cache.
  Context {B : Type} {CS : ChunkStore B}.

(** The LRU list, most recent first; [index] is the position of an id in it.
    [corrupt] holds the quarantined files. *)
Record DiskCache := MkCache {
  staging : jdir; clean : jdir; corrupt : list (Z * bytes); lru : list lruEntry; curBytes : Z; backing : B }.

Definition set_staging (d : jdir) (c : DiskCache) : DiskCache := MkCache d (clean c) (corrupt c) (lru c) (curBytes c) (backing c).
Definition set_clean (d : jdir) (c : DiskCache) : DiskCache := MkCache (staging c) d (corrupt c) (lru c) (curBytes c) (backing c).
Definition set_lru (l : list lruEntry) (n : Z) (c : DiskCache) : DiskCache := MkCache (staging c) (clean c) (corrupt c) l n (backing c).
Definition set_backing (b : B) (c : DiskCache) : DiskCache := MkCache (staging c) (clean c) (corrupt c) (lru c) (curBytes c) b.

(** ** What a call meets *)

Record torn := MkTorn {
  leftOf :> bytes -> bytes;
  left_ok : forall data body, readChecksummed (leftOf (checksummed data)) = Some body -> body = data }.

Inductive fileWrite := WriteOk | OpenFails | WriteFails (t : torn).
Inductive stageIO := StageOk | StageWrite | StageRename | StageSync.
Inductive quarIO := QuarOk | QuarRename | QuarSync.

(** [popFree] is what [statfs] says: available and total. *)
Record popIO := MkPop { popWrite : fileWrite; popFree : option (Z * Z); popRm : Z -> bool }.

Record readIO := MkRead { rdClean : bool; rdRm : bool; rdStaged : bool; rdBack : bIO; rdPop : popIO }.

Record drainIO := MkDrain { drRead : bool; drQuar : quarIO; drBack : bIO; drPop : popIO; drRm : bool }.

Variable cfg : Config.

(** ** The LRU *)

Definition addLRU (id size : Z) (c : DiskCache) : DiskCache :=
  let old := filter (fun e => entId e = id) (lru c) in
  let kept := filter (fun e => entId e <> id) (lru c) in
  set_lru (MkEntry id size :: kept) (curBytes c - foldr Z.add 0 (entSize <$> old) + size) c.

Definition touch (id : Z) (c : DiskCache) : DiskCache :=
  set_lru (filter (fun e => entId e = id) (lru c) ++ filter (fun e => entId e <> id) (lru c)) (curBytes c) c.

Definition freeSpaceEvictBytes (free : option (Z * Z)) (cur : Z) : Z :=
  match minFree cfg, free with
  | Some want, Some (avail, total) =>
      if total <=? 0 then 0
      else if want total <=? avail then 0 else Z.min (want total - avail) cur
  | _, _ => 0
  end.

Definition overLimits (target freed cur n : Z) : bool :=
  ((0 <? MaxBytes cfg) && (MaxBytes cfg <? cur)) || ((0 <? MaxItems cfg) && (MaxItems cfg <? n)) ||
  ((0 <? target) && (freed <? target)).

(** The loop of [evict]; [old] is the LRU list, least recent first. *)
Fixpoint evictFrom (rm : Z -> bool) (target freed cur : Z) (old : list lruEntry) (d : jdir) : list lruEntry * Z * jdir :=
  if overLimits target freed cur (len old) then
    match old with
    | [] => ([], cur, d)
    | e :: old => evictFrom rm target (freed + entSize e) (cur - entSize e) old (osRemove (rm (entId e)) (entId e) d)
    end
  else (old, cur, d).

Definition evict (rm : Z -> bool) (free : option (Z * Z)) (c : DiskCache) : DiskCache :=
  let '(old, cur, d) := evictFrom rm (freeSpaceEvictBytes free (curBytes c)) 0 (curBytes c) (reverse (lru c)) (clean c) in
  set_clean d (set_lru (reverse old) cur c).

Definition populate (io : popIO) (id : Z) (data : bytes) (c : DiskCache) : DiskCache * option err :=
  match popWrite io with
  | OpenFails => (c, Some (EOther "open"))
  | WriteFails t => (set_clean (dirDo (PutFile id (t (checksummed data))) (clean c)) c, Some (EOther "write"))
  | WriteOk =>
      let c := set_clean (dirDo (PutFile id (checksummed data)) (clean c)) c in
      (evict (popRm io) (popFree io) (addLRU id (len data + checksumLen) c), None)
  end.

(** ** Reads and writes *)

(** A failure after the rename leaves the entry in place, not yet durable. *)
Definition stage (io : stageIO) (id : Z) (data : bytes) (class : Z) (c : DiskCache) : DiskCache * option err :=
  let put := dirDo (PutFile id (staged (Z_byte class) data)) (staging c) in
  match io with
  | StageWrite => (c, Some (EOther "stage"))
  | StageRename => (c, Some (EOther "stage rename"))
  | StageSync => (set_staging put c, Some (EOther "stage fsync dir"))
  | StageOk => (set_staging (fsyncDir put) c, None)
  end.

(** [Write]; the nudge to the uploader has no effect of its own. *)
Definition CacheWrite (io : stageIO) (id : Z) (data : bytes) (class : Z) (c : DiskCache) : DiskCache * option err :=
  stage io id data class c.

(** [readLocal] on the clean cache: a file that does not verify is dropped. *)
Definition readLocal (ok rm : bool) (id : Z) (c : DiskCache) : DiskCache * result (option bytes) :=
  if negb ok then (c, Err (EOther "read"))
  else match listing (clean c) !! id with
       | None => (c, Ok None)
       | Some raw => match readChecksummed raw with
                     | Some data => (c, Ok (Some data))
                     | None => (set_clean (osRemove rm id (clean c)) c, Ok None)
                     end
       end.

(** The miss path: fetch and populate. *)
Definition readMiss (io : readIO) (id : Z) (c : DiskCache) : DiskCache * result bytes :=
  match bRead (rdBack io) id (backing c) with
  | (b, Err e) => (set_backing b c, Err e)
  | (b, Ok data) => match populate (rdPop io) id data (set_backing b c) with
                    | (c, Some e) => (c, Err e)
                    | (c, None) => (c, Ok data)
                    end
  end.

(** The staging copy, then the miss path; a staging file that does not verify
    is left to the drain. *)
Definition readStagedOr (io : readIO) (id : Z) (c : DiskCache) : DiskCache * result bytes :=
  if negb (rdStaged io) then (c, Err (EOther "read"))
  else match listing (staging c) !! id ≫= readStaged with
       | Some (_, data) => (c, Ok data)
       | None => readMiss io id c
       end.

Definition CacheRead (io : readIO) (id : Z) (c : DiskCache) : DiskCache * result bytes :=
  match readLocal (rdClean io) (rdRm io) id c with
  | (c, Err e) => (c, Err e)
  | (c, Ok (Some data)) => (touch id c, Ok data)
  | (c, Ok None) => readStagedOr io id c
  end.

(** [ReadAt] into a buffer of [n] bytes: the bytes copied. *)
Definition CacheReadAt (io : readIO) (id off n : Z) (c : DiskCache) : DiskCache * result bytes :=
  match CacheRead io id c with
  | (c, Err e) => (c, Err e)
  | (c, Ok data) => (c, Ok (if len data <=? off then [] else slice data off (Z.min (off + n) (len data))))
  end.

(** *** Batched reads *)

(** What the calls of a batch meet, and the orders in which the concurrent
    reads finish and the fetched map is ranged over. *)
Record batchEnv := MkBatchEnv { beRead : Z -> readIO; beBack : bIO; bePop : Z -> popIO; beOrder : list Z -> list Z; beRange : list (Z * bytes) -> list (Z * bytes) }.

Definition readLocalAny (io : readIO) (id : Z) (c : DiskCache) : DiskCache * option bytes :=
  let fromStaging c := if rdStaged io then snd <$> (listing (staging c) !! id ≫= readStaged) else None in
  match readLocal (rdClean io) (rdRm io) id c with
  | (c, Ok (Some data)) => (touch id c, Some data)
  | (c, Ok None) | (c, Err _) => (c, fromStaging c)
  end.

Fixpoint splitLocal (v : batchEnv) (ids : list Z) (c : DiskCache) (out : gmap Z bytes) (misses : list Z) : DiskCache * gmap Z bytes * list Z :=
  match ids with
  | [] => (c, out, misses)
  | id :: ids => match readLocalAny (beRead v id) id c with
                 | (c, Some data) => splitLocal v ids c (<[id := data]> out) misses
                 | (c, None) => splitLocal v ids c out (misses ++ [id])
                 end
  end.

(** The misses of a backing store that cannot batch, one read each. *)
Fixpoint readEach (v : batchEnv) (ids : list Z) (c : DiskCache) (out : gmap Z bytes) (stats : Z * Z) : DiskCache * gmap Z bytes * (Z * Z) :=
  match ids with
  | [] => (c, out, stats)
  | id :: ids => match CacheRead (beRead v id) id c with
                 | (c, Ok data) => readEach v ids c (<[id := data]> out) (stats.1 + 1, stats.2 + len data)
                 | (c, Err _) => readEach v ids c out stats
                 end
  end.

Fixpoint populateAll (v : batchEnv) (fetched : list (Z * bytes)) (c : DiskCache) (out : gmap Z bytes) : DiskCache * gmap Z bytes :=
  match fetched with
  | [] => (c, out)
  | (id, data) :: fetched => populateAll v fetched (populate (bePop v id) id data c).1 (<[id := data]> out)
  end.

Definition CacheReadBatch (v : batchEnv) (ids : list Z) (c : DiskCache) : DiskCache * gmap Z bytes * (Z * Z) * option err :=
  let '(c, out, misses) := splitLocal v ids c ∅ [] in
  match misses, bReadBatch with
  | [], _ => (c, out, (0, 0), None)
  | _, None => let '(c, out, stats) := readEach v (beOrder v misses) c out (0, 0) in (c, out, stats, None)
  | _, Some rb =>
      match rb (beBack v) misses (backing c) with
      | (b, stats, Err e) => (set_backing b c, out, stats, Some e)
      | (b, stats, Ok fetched) =>
          let '(c, out) := populateAll v (beRange v (map_to_list fetched)) (set_backing b c) out in (c, out, stats, None)
      end
  end.

Definition CachedLocally (id : Z) (c : DiskCache) : bool :=
  bool_decide (is_Some (listing (clean c) !! id)) || bool_decide (is_Some (listing (staging c) !! id)).

Definition CacheExists (io : bIO) (id : Z) (c : DiskCache) : result bool :=
  if CachedLocally id c then Ok true else bExists io id (backing c).

Definition CacheRemove (rm1 rm2 : bool) (io : bIO) (id : Z) (c : DiskCache) : DiskCache * option err :=
  let old := filter (fun e => entId e = id) (lru c) in
  let c := set_lru (filter (fun e => entId e <> id) (lru c)) (curBytes c - foldr Z.add 0 (entSize <$> old)) c in
  let c := set_staging (osRemove rm2 id (staging c)) (set_clean (osRemove rm1 id (clean c)) c) in
  let '(b, e) := bRemove io id (backing c) in (set_backing b c, e).

(** ** Draining *)

(** [quarantine]: rename into corrupt/, sync that directory. *)
Definition quarantine (io : quarIO) (id : Z) (c : DiskCache) : DiskCache * option err :=
  let moved := match listing (staging c) !! id with
               | None => c
               | Some raw => MkCache (dirDo (DelFile id) (staging c)) (clean c) (corrupt c ++ [(id, raw)]) (lru c) (curBytes c) (backing c)
               end in
  match io with
  | QuarRename => (c, Some (EOther "quarantine"))
  | QuarSync => (moved, Some (EOther "quarantine fsync dir"))
  | QuarOk => match listing (staging c) !! id with None => (c, Some (EOther "quarantine")) | Some _ => (moved, None) end
  end.

(** After a successful upload: promote to the clean cache, whatever comes of
    it, and drop the staging file. *)
Definition promote (io : drainIO) (id : Z) (data : bytes) (c : DiskCache) : DiskCache :=
  let '(c, _) := populate (drPop io) id data c in set_staging (osRemove (drRm io) id (staging c)) c.

(** What reading a staging file yields: nothing there, data, or an error. *)
Inductive stagedFile := Vanished | Intact (class : byte) (data : bytes) | Unreadable.

Definition openStaged (ok : bool) (id : Z) (c : DiskCache) : stagedFile :=
  match listing (staging c) !! id with
  | None => if ok then Vanished else Unreadable
  | Some raw => if negb ok then Unreadable
                else match readStaged raw with Some (class, data) => Intact class data | None => Unreadable end
  end.

(** [drainOne]: whether the entry was quarantined, and the error. *)
Definition drainOne (io : drainIO) (id : Z) (c : DiskCache) : DiskCache * bool * option err :=
  match openStaged (drRead io) id c with
  | Vanished => (c, false, None)
  | Unreadable => match quarantine (drQuar io) id c with
                  | (c, Some e) => (c, false, Some e)
                  | (c, None) => (c, true, None)
                  end
  | Intact class data =>
      match bWrite (drBack io) id data (byte_Z class) (backing c) with
      | (b, Some e) => (set_backing b c, false, Some e)
      | (b, None) => (promote io id data (set_backing b c), false, None)
      end
  end.

(** One after the other, stopping at the first error. *)
Fixpoint drainSerial (io : Z -> drainIO) (ids : list Z) (n : nat) (c : DiskCache) : DiskCache * nat * option err :=
  match ids with
  | [] => (c, n, None)
  | id :: ids => match drainOne (io id) id c with
                 | (c, q, Some e) => (c, n, Some e)
                 | (c, q, None) => drainSerial io ids (if q then S n else n) c
                 end
  end.

(** All of them, keeping the first error. *)
Fixpoint drainAll (io : Z -> drainIO) (ids : list Z) (n : nat) (er : option err) (c : DiskCache) : DiskCache * nat * option err :=
  match ids with
  | [] => (c, n, er)
  | id :: ids => let '(c, q, e) := drainOne (io id) id c in
                 drainAll io ids (if q then S n else n) (match er with Some _ => er | None => e end) c
  end.

(** Upload a batch, then promote its members. *)
Definition flushItems (io : Z -> drainIO) (wb : bIO -> list BatchItem -> B -> B * option err) (bio : bIO) (batch : list BatchItem) (c : DiskCache)
    : DiskCache * option err :=
  match wb bio batch (backing c) with
  | (b, Some e) => (set_backing b c, Some e)
  | (b, None) => (fold_left (fun c it => promote (io (bID it)) (bID it) (bData it) c) batch (set_backing b c), None)
  end.

(** [drainBatched]: a batch is uploaded once it holds [batchBudget] bytes.  A
    failed quarantine gives up at once, with the batch not uploaded. *)
Fixpoint drainBatches (io : Z -> drainIO) (wb : bIO -> list BatchItem -> B -> B * option err) (bio : nat -> bIO)
    (ids : list Z) (batch : list BatchItem) (size : Z) (k n : nat) (er : option err) (c : DiskCache) : DiskCache * nat * option err :=
  match ids with
  | [] => match batch with
          | [] => (c, n, er)
          | _ => let '(c, e) := flushItems io wb (bio k) batch c in (c, n, match er with Some _ => er | None => e end)
          end
  | id :: ids =>
      match openStaged (drRead (io id)) id c with
      | Vanished => drainBatches io wb bio ids batch size k n er c
      | Unreadable => match quarantine (drQuar (io id)) id c with
                      | (c, Some e) => (c, n, Some e)
                      | (c, None) => drainBatches io wb bio ids batch size k (S n) er c
                      end
      | Intact class data =>
          let batch := batch ++ [MkItem id data (byte_Z class)] in
          let size := size + len data in
          if batchBudget cfg <=? size then
            let '(c, e) := flushItems io wb (bio k) batch c in
            drainBatches io wb bio ids [] 0 (S k) n (match er with Some _ => er | None => e end) c
          else drainBatches io wb bio ids batch size k n er c
      end
  end.

Definition ErrStagingCorrupt : err := EOther "staging corrupt".

(** What a drain meets: whether the directory can be listed, each entry's
    environment, each batch's, and the order parallel uploads finish in. *)
Record drainEnv := MkDrainEnv { dList : bool; dOne : Z -> drainIO; dBatch : nat -> bIO; dOrder : list Z -> list Z }.

Definition drainStaging (v : drainEnv) (c : DiskCache) : DiskCache * option err :=
  if negb (dList v) then (c, Some (EOther "readdir"))
  else
    let ids := readDir (staging c) in
    let '(c, n, er) := match bWriteBatch with
                       | Some wb => drainBatches (dOne v) wb (dBatch v) ids [] 0 0 0 None c
                       | None => if UploadConcurrency cfg <=? 1 then drainSerial (dOne v) ids 0 c
                                 else drainAll (dOne v) (dOrder v ids) 0 None c
                       end in
    (c, match er with
        | Some e => Some e
        | None => if (0 <? n)%nat && negb (OnCorrupt cfg) then Some ErrStagingCorrupt else None
        end).

(** ** Opening *)

(** [New] on the directories a previous process left: list the clean cache,
    then drain.  A quarantine does not keep the mount from coming up. *)
Definition scanCache (rm : Z -> bool) (free : option (Z * Z)) (c : DiskCache) : DiskCache :=
  evict rm free (fold_left (fun c id => addLRU id (from_option len 0 (listing (clean c) !! id)) c) (readDir (clean c)) (set_lru [] 0 c)).

Definition New (rm : Z -> bool) (free : option (Z * Z)) (v : drainEnv) (c : DiskCache) : DiskCache * option err :=
  let '(c, e) := drainStaging v (scanCache rm free c) in
  (c, match e with Some e => if bool_decide (e = ErrStagingCorrupt) then None else Some e | None => None end).

(** A crash forgets the memory and any of the operations since the last sync
    of a directory. *)
Definition crashDir (d d' : jdir) : Prop :=
  exists ops, ops `sublist_of` pending d /\ d' = MkDir (foldl applyOp (synced d) ops) [].

Definition cacheCrash (c c' : DiskCache) : Prop :=
  crashDir (staging c) (staging c') /\ crashDir (clean c) (clean c') /\ corrupt c' = corrupt c /\ lru c' = [] /\ curBytes c' = 0 /\
  backing c' = backing c.
End Cache.
