(* ===== verification/CacheSpec.v ===== *)
(** What the disk cache guarantees.

    Over any backing store that keeps its contract ([ChunkStoreLaws]), the cache
    is a slice store in the sense of [FileIO] ([cache_laws]), so the file data
    path works on it as on any other.  [cache_durable]: a write that returned is
    readable for good, through uploads that fail or succeed, evictions, crashes
    and restarts.  [evict_spec]: eviction drops the least recently used slices,
    no more of them than the limits ask for.

    All this is on a disk whose files can be read back; [read_error_quarantines]
    is what one failed read does to a staged write. *)

From stdpp Require Import sorting.
From S2P Require Import Prelude GoStrings Decimal Sha256 Overlay Wal MetaDb FileMeta FileIO DiskCache.

(** ** The backing store's contract *)

(** Slices are written once, or again with the same bytes; a call that fails
    has stored a slice or not; a slice that is not there cannot be read. *)
Class ChunkStoreLaws (B : Type) `{!ChunkStore B} := {
  binv : B -> Prop;
  bview : B -> Z -> option bytes;
  bUp : bIO -> Prop;
  fits s id b := bview s id = None \/ bview s id = Some b;
  bWrite_inv io id b c s : binv s -> fits s id b -> binv (bWrite io id b c s).1;
  bWrite_ok io id b c s s' : binv s -> fits s id b -> bWrite io id b c s = (s', None) -> bview s' id = Some b;
  bWrite_any io id b c s : binv s -> fits s id b ->
    bview (bWrite io id b c s).1 id = bview s id \/ bview (bWrite io id b c s).1 id = Some b;
  bWrite_frame io id b c s j : binv s -> fits s id b -> j <> id -> bview (bWrite io id b c s).1 j = bview s j;
  bRead_inv io id s : binv s -> binv (bRead io id s).1;
  bRead_view io id s j : binv s -> bview (bRead io id s).1 j = bview s j;
  bRead_ok io id s b : binv s -> (bRead io id s).2 = Ok b -> bview s id = Some b;
  bRead_up io id s : binv s -> bUp io -> is_Some (bview s id) -> is_ok (bRead io id s).2 = true;
  bBatch_inv wb io its s : bWriteBatch = Some wb -> binv s -> NoDup (bID <$> its) ->
    Forall (fun it => fits s (bID it) (bData it)) its -> binv (wb io its s).1;
  bBatch_ok wb io its s s' : bWriteBatch = Some wb -> binv s -> NoDup (bID <$> its) ->
    Forall (fun it => fits s (bID it) (bData it)) its -> wb io its s = (s', None) ->
    Forall (fun it => bview s' (bID it) = Some (bData it)) its;
  bBatch_any wb io its s : bWriteBatch = Some wb -> binv s -> NoDup (bID <$> its) ->
    Forall (fun it => fits s (bID it) (bData it)) its ->
    Forall (fun it => bview (wb io its s).1 (bID it) = bview s (bID it) \/ bview (wb io its s).1 (bID it) = Some (bData it)) its;
  bBatch_frame wb io its s j : bWriteBatch = Some wb -> binv s -> NoDup (bID <$> its) ->
    Forall (fun it => fits s (bID it) (bData it)) its -> j ∉ bID <$> its -> bview (wb io its s).1 j = bview s j;
  bReadBatch_inv rb io ids s : bReadBatch = Some rb -> binv s -> binv (rb io ids s).1.1;
  bReadBatch_view rb io ids s j : bReadBatch = Some rb -> binv s -> bview (rb io ids s).1.1 j = bview s j;
  bReadBatch_ok rb io ids s m id b : bReadBatch = Some rb -> binv s -> (rb io ids s).2 = Ok m -> m !! id = Some b -> bview s id = Some b }.

(** A store in memory, which keeps it: a call is told whether the store is up,
    and does nothing when it is not. *)
Definition memBatch (up : bool) (its : list BatchItem) (m : gmap Z bytes) : gmap Z bytes * option err :=
  if up then (foldr (fun it m => <[bID it := bData it]> m) m its, None) else (m, Some (EOther "down")).

Definition memReadBatch (up : bool) (ids : list Z) (m : gmap Z bytes) : gmap Z bytes * (Z * Z) * result (gmap Z bytes) :=
  (m, (0, 0), if up then Ok (filter (fun kv => kv.1 ∈ ids) m) else Err (EOther "down")).

#[export] Instance memChunks : ChunkStore (gmap Z bytes) := {
  bIO := bool;
  bWrite up id b _ m := if up then (<[id := b]> m, None) else (m, Some (EOther "down"));
  bRead up id m := (m, if up then match m !! id with Some b => Ok b | None => Err (EOther "not found") end else Err (EOther "down"));
  bExists up id m := if up then Ok (bool_decide (is_Some (m !! id))) else Err (EOther "down");
  bRemove up id m := if up then (delete id m, None) else (m, Some (EOther "down"));
  bWriteBatch := Some memBatch;
  bReadBatch := Some memReadBatch }.

Lemma foldr_items its (m : gmap Z bytes) j : NoDup (bID <$> its) ->
  (j ∉ bID <$> its -> foldr (fun it m => <[bID it := bData it]> m) m its !! j = m !! j) /\
  Forall (fun it => foldr (fun it m => <[bID it := bData it]> m) m its !! bID it = Some (bData it)) its.
Proof.
  induction its as [|it its IH]; cbn; [done|]. intros [Hn HN]%NoDup_cons. destruct (IH HN) as [I1 I2]. split.
  - intros Hj. rewrite lookup_insert_ne; [apply I1|]; set_solver.
  - constructor; [by rewrite lookup_insert_eq|]. rewrite Forall_forall in *. intros x Hx. rewrite lookup_insert_ne; [by apply I2|].
    intros He. apply Hn. rewrite He. by apply list_elem_of_fmap_2.
Qed.

#[export] Instance memChunks_laws : ChunkStoreLaws (gmap Z bytes).
Proof.
  refine {| binv := fun _ => True; bview m id := m !! id; bUp := eq true |}; try done; cbn.
  - intros [] id b c s s' _ _ [= <-]. by rewrite lookup_insert_eq.
  - intros [] id b c s _ _; cbn; [right; by rewrite lookup_insert_eq|by left].
  - intros [] id b c s j _ _ Hj; cbn; [by rewrite lookup_insert_ne|done].
  - intros [] id s b _; cbn; [|done]. destruct (s !! id); congruence.
  - intros io id s _ <- [b ->]. done.
  - intros wb [] its s s' [= <-] _ HN _ [= <-]. by apply (foldr_items its s 0).
  - intros wb [] its s [= <-] _ HN _; cbn; [|by apply Forall_true; left].
    eapply Forall_impl; [by apply (foldr_items its s 0)|]. by right.
  - intros wb [] its s j [= <-] _ HN _ Hj; cbn; [by apply foldr_items|done].
  - by intros rb io ids s j [= <-] _.
  - intros rb [] ids s m id b [= <-] _; cbn; [|done]. intros [= <-]. by intros [? _]%map_lookup_filter_Some.
Defined.

(** ** Files and directories *)

Lemma readChecksummed_ok data : readChecksummed (checksummed data) = Some data.
Proof.
  unfold readChecksummed, checksummed, checksumLen. pose proof (sha256_len data) as Hl. rewrite len_app, Hl. pose proof (len_nonneg data).
  destruct (Z.ltb_spec (32 + len data) 32); [lia|]. rewrite (slice_app_r _ _ 32), (slice_app_l _ _ 0 32), Hl by lia.
  replace (32 - 32) with 0 by lia. replace (32 + len data - 32) with (len data) by lia. rewrite slice_all.
  rewrite <- Hl, slice_all. by rewrite bool_decide_true.
Qed.

Lemma readStaged_ok class data : readStaged (staged class data) = Some (class, data).
Proof.
  unfold readStaged, staged, checksumLen. set (sum := stagedSum class data). assert (Hl : len sum = 32) by apply sha256_len.
  rewrite !len_app, Hl. change (len [class]) with 1. pose proof (len_nonneg data).
  destruct (Z.leb_spec (32 + 1) (32 + (1 + len data))); [|lia].
  replace ((sum ++ [class] ++ data) !! Z.to_nat 32) with (Some class); cbn [default].
  - rewrite app_assoc, (slice_app_r _ _ (32 + 1)) by (rewrite len_app, Hl; change (len [class]) with 1; lia).
    rewrite len_app, Hl. change (len [class]) with 1. replace (32 + 1 - (32 + 1)) with 0 by lia.
    replace (32 + (1 + len data) - (32 + 1)) with (len data) by lia. rewrite slice_all, <- app_assoc, slice_app_l by lia.
    rewrite <- Hl, slice_all. by rewrite bool_decide_true.
  - rewrite lookup_app_r by (unfold len in Hl; lia). replace (Z.to_nat 32 - length sum)%nat with 0%nat by (unfold len in Hl; lia). done.
Qed.

(** Some version of file [id], durable or not, has these bytes. *)
Definition copies (d : jdir) (id : Z) (raw : bytes) : Prop := synced d !! id = Some raw \/ PutFile id raw ∈ pending d.

Lemma foldl_ops ops m id :
  match foldl applyOp m ops !! id with
  | Some raw => m !! id = Some raw \/ PutFile id raw ∈ ops
  | None => m !! id = None \/ DelFile id ∈ ops
  end.
Proof.
  induction ops as [|op ops IH] using rev_ind; cbn; [destruct (m !! id); auto|]. rewrite foldl_app. cbn.
  set (m' := foldl applyOp m ops) in *. destruct op as [j raw|j]; cbn; destruct (decide (j = id)) as [->|Hne];
    rewrite ?lookup_insert_eq, ?lookup_delete_eq, ?lookup_insert_ne, ?lookup_delete_ne by done;
    try destruct (m' !! id); rewrite elem_of_app, ?list_elem_of_singleton; tauto.
Qed.

Lemma listing_copies d id raw : listing d !! id = Some raw -> copies d id raw.
Proof. intros H. pose proof (foldl_ops (pending d) (synced d) id) as Hf. unfold listing in H. by rewrite H in Hf. Qed.

(** A durable file the process no longer sees was removed. *)
Lemma listing_gone d id : is_Some (synced d !! id) -> listing d !! id = None -> DelFile id ∈ pending d.
Proof.
  intros [raw Hr] H. pose proof (foldl_ops (pending d) (synced d) id) as Hf. unfold listing in H. rewrite H in Hf. destruct Hf; congruence.
Qed.

Lemma copies_do op d id raw : copies (dirDo op d) id raw -> copies d id raw \/ op = PutFile id raw.
Proof.
  intros [H|H]; [left; by left|]. cbn in H. apply elem_of_app in H as [H|H]; [left; by right|]. apply list_elem_of_singleton in H. auto.
Qed.

Lemma copies_del op d id raw : (forall j r, op <> PutFile j r) -> copies (dirDo op d) id raw -> copies d id raw.
Proof. intros Hn H. destruct (copies_do _ _ _ _ H) as [?|?]; [done|]. by destruct (Hn id raw). Qed.

Lemma copies_remove ok j d id raw : copies (osRemove ok j d) id raw -> copies d id raw.
Proof. unfold osRemove. destruct ok; [|done]. by apply copies_del. Qed.

Lemma copies_fsync d id raw : copies (fsyncDir d) id raw -> copies d id raw.
Proof. intros [H|H]; [by apply listing_copies|by apply elem_of_nil in H]. Qed.

Lemma copies_crash d d' id raw : crashDir d d' -> copies d' id raw -> copies d id raw.
Proof.
  intros (ops & Hs & ->) [H|H]; [|by apply elem_of_nil in H]. cbn in H. pose proof (foldl_ops ops (synced d) id) as Hf. rewrite H in Hf.
  destruct Hf as [Hf|Hf]; [by left|]. right. by apply (sublist_subseteq _ _ Hs).
Qed.

Lemma crash_gone d d' id : crashDir d d' -> is_Some (synced d !! id) -> synced d' !! id = None -> DelFile id ∈ pending d.
Proof.
  intros (ops & Hs & ->) [raw Hr] H. cbn in H. pose proof (foldl_ops ops (synced d) id) as Hf. rewrite H in Hf.
  destruct Hf as [Hf|Hf]; [congruence|]. by apply (sublist_subseteq _ _ Hs).
Qed.

(** ** The invariant *)

Section Invariant.
  Context {B : Type} {CS : ChunkStore B} {CL : ChunkStoreLaws B}.
  Implicit Types c : DiskCache (B := B).

(** Every copy of slice [id], wherever it is, is of the bytes [G !! id]; a
    staging file is removed once the backing store holds the slice. *)
Record cache_ok (G : gmap Z bytes) c : Prop := {
  c_back : binv (backing c);
  c_view id b : bview (backing c) id = Some b -> G !! id = Some b;
  c_staged id raw : copies (staging c) id raw -> exists class data, raw = staged class data /\ G !! id = Some data;
  c_gone id : DelFile id ∈ pending (staging c) -> is_Some (bview (backing c) id);
  c_clean id raw data : copies (clean c) id raw -> readChecksummed raw = Some data -> G !! id = Some data }.

(** What the cache durably holds under an id. *)
Definition cview c (id : Z) : option bytes :=
  match bview (backing c) id with Some b => Some b | None => snd <$> (synced (staging c) !! id ≫= readStaged) end.

Definition ctouched c (id : Z) : Prop :=
  (exists raw, copies (staging c) id raw) \/ (exists raw, copies (clean c) id raw) \/ is_Some (bview (backing c) id).

Lemma cview_G G c id b : cache_ok G c -> cview c id = Some b -> G !! id = Some b.
Proof.
  intros HC. unfold cview. destruct (bview (backing c) id) as [x|] eqn:E; [intros [= <-]; by eapply c_view|].
  destruct (synced (staging c) !! id) as [raw|] eqn:Er; [|done]. destruct (c_staged _ _ HC id raw) as (cl & d & -> & Hd); [by left|].
  cbn. rewrite readStaged_ok. by intros [= <-].
Qed.

(** A durable copy in either place is a view. *)
Lemma cview_some G c id : cache_ok G c ->
  is_Some (cview c id) <-> is_Some (synced (staging c) !! id) \/ is_Some (bview (backing c) id).
Proof.
  intros HC. unfold cview. destruct (bview (backing c) id) eqn:E; [by split; eauto|].
  destruct (synced (staging c) !! id) as [raw|] eqn:Er; cbn.
  - destruct (c_staged _ _ HC id raw) as (cl & d & -> & Hd); [by left|]. rewrite readStaged_ok. cbn. by split; eauto.
  - split; [by intros []|]. by intros [[]|[]].
Qed.

(** A step that keeps the invariant, loses no durable copy, and brings no slice
    the cache had not seen. *)
Record evolves (G : gmap Z bytes) c c' : Prop := {
  ev_ok : cache_ok G c';
  ev_some id : is_Some (cview c id) -> is_Some (cview c' id);
  ev_touched id : ctouched c' id -> ctouched c id }.

Lemma evolves_refl G c : cache_ok G c -> evolves G c c.
Proof. by split. Qed.

Lemma evolves_trans G c1 c2 c3 : evolves G c1 c2 -> evolves G c2 c3 -> evolves G c1 c3.
Proof. intros [] []. split; auto. Qed.

Lemma evolves_keeps G c c' id b : cache_ok G c -> evolves G c c' -> cview c id = Some b -> cview c' id = Some b.
Proof.
  intros HC E Hv. destruct (ev_some _ _ _ E id) as [x Hx]; [eauto|]. rewrite Hx. f_equal.
  pose proof (cview_G _ _ _ _ HC Hv). pose proof (cview_G _ _ _ _ (ev_ok _ _ _ E) Hx). congruence.
Qed.

(** *** The clean cache *)

(** [c'] differs from [c] in the clean cache, where slice [id] may have got a
    copy of [data], good or torn. *)
Record cleaned (id : Z) (data : bytes) c c' : Prop := {
  cl_staging : staging c' = staging c;
  cl_backing : backing c' = backing c;
  cl_clean j raw : copies (clean c') j raw ->
    copies (clean c) j raw \/ j = id /\ forall x, readChecksummed raw = Some x -> x = data }.

Lemma cleaned_evolves G id data c c' : cache_ok G c -> G !! id = Some data -> ctouched c id -> cleaned id data c c' -> evolves G c c'.
Proof.
  intros HC HG Ht [Hs Hb Hc]. split.
  - destruct HC. split; rewrite ?Hs, ?Hb; try done. intros j raw x Hj Hx. destruct (Hc _ _ Hj) as [?|[-> Hr]]; [eauto|].
    by rewrite (Hr _ Hx).
  - intros j. unfold cview. by rewrite Hs, Hb.
  - intros j. unfold ctouched. rewrite Hs, Hb. intros [?|[[raw Hj]|?]]; auto. destruct (Hc _ _ Hj) as [?|[-> _]]; [eauto|done].
Qed.

Lemma shrunk_evolves G c c' : cache_ok G c -> staging c' = staging c -> backing c' = backing c ->
  (forall j raw, copies (clean c') j raw -> copies (clean c) j raw) -> evolves G c c'.
Proof.
  intros HC Hs Hb Hc. split.
  - destruct HC. split; rewrite ?Hs, ?Hb; try done. eauto.
  - intros j. unfold cview. by rewrite Hs, Hb.
  - intros j. unfold ctouched. rewrite Hs, Hb. intros [?|[[raw Hj]|?]]; eauto.
Qed.

Lemma cleaned_view id data c c' j : cleaned id data c c' -> cview c' j = cview c j.
Proof. intros [Hs Hb _]. unfold cview. by rewrite Hs, Hb. Qed.

Lemma evictFrom_copies cfg rm target old d : forall freed cur id raw,
  copies (evictFrom cfg rm target freed cur old d).2 id raw -> copies d id raw.
Proof.
  revert d. induction old as [|e old IH]; intros d freed cur id raw; cbn; destruct overLimits; try done.
  intros H. apply IH in H. by apply copies_remove in H.
Qed.

Lemma evict_cleaned cfg rm free c id data : cleaned id data c (evict cfg rm free c).
Proof.
  unfold evict. destruct evictFrom as [[old cur] d] eqn:E. split; cbn; try done. intros j raw Hj. left.
  eapply (evictFrom_copies cfg rm). by rewrite E.
Qed.

Lemma populate_cleaned cfg io id data c : cleaned id data c (populate cfg io id data c).1.
Proof.
  unfold populate. destruct (popWrite io) as [| |t]; cbn.
  - set (c1 := addLRU _ _ _). destruct (evict_cleaned cfg (popRm io) (popFree io) c1 id data) as [Hs Hb Hc].
    split; [done|done|]. intros j raw Hj. destruct (Hc _ _ Hj) as [Hk|?]; [|auto]. cbn in Hk.
    apply copies_do in Hk as [?|[= <- <-]]; [auto|]. right. split; [done|]. intros x. rewrite readChecksummed_ok. congruence.
  - split; auto.
  - split; [done|done|]. intros j raw Hj. cbn in Hj. apply copies_do in Hj as [?|[= <- <-]]; [auto|]. right. split; [done|]. apply left_ok.
Qed.

(** *** The backing store *)

(** Slices of the cache that have reached the backing store. *)
Lemma backed_evolves G c b : cache_ok G c -> binv b ->
  (forall id, bview b id = bview (backing c) id \/ ctouched c id /\ is_Some (G !! id) /\ bview b id = G !! id) ->
  evolves G c (set_backing b c).
Proof.
  intros HC Hb Hv. assert (HS : forall id, is_Some (bview (backing c) id) -> is_Some (bview b id)).
  { intros id [x Hx]. destruct (Hv id) as [->|(_ & Hg & ->)]; eauto. }
  assert (HC' : cache_ok G (set_backing b c)).
  { destruct HC. split; cbn; try done; [|auto]. intros id x Hx. destruct (Hv id) as [He|(_ & _ & He)]; [|congruence]. rewrite He in Hx. auto. }
  split; [done| |].
  - intros id. rewrite (cview_some _ _ _ HC), (cview_some _ _ _ HC'). cbn. intros [?|?]; auto.
  - intros id [?|[?|Hs]]; [by left|by right; left|]. cbn in Hs. destruct (Hv id) as [He|(? & _)]; [|done]. rewrite He in Hs. by do 2 right.
Qed.

Lemma fits_ok G c id data : cache_ok G c -> G !! id = Some data -> fits (backing c) id data.
Proof. intros HC HG. unfold fits. destruct (bview (backing c) id) eqn:E; [|by left]. right. apply (c_view _ _ HC) in E. congruence. Qed.

Lemma staged_touched c id raw : listing (staging c) !! id = Some raw -> ctouched c id.
Proof. intros H. left. exists raw. by apply listing_copies. Qed.

Lemma bWrite_evolves G c io id data class : cache_ok G c -> G !! id = Some data -> ctouched c id ->
  evolves G c (set_backing (bWrite io id data class (backing c)).1 c).
Proof.
  intros HC HG Ht. pose proof (fits_ok _ _ _ _ HC HG) as Hf. pose proof (c_back _ _ HC) as Hb. apply backed_evolves; [done|by apply bWrite_inv|].
  intros j. destruct (decide (j = id)) as [->|Hne]; [|left; by apply bWrite_frame].
  destruct (bWrite_any io id data class _ Hb Hf) as [->| ->]; [by left|]. right. rewrite HG. eauto.
Qed.

(** A staging file is dropped once the backing store holds the slice. *)
Lemma unstage_evolves G c ok id : cache_ok G c -> is_Some (bview (backing c) id) -> evolves G c (set_staging (osRemove ok id (staging c)) c).
Proof.
  intros HC Hv. assert (HC' : cache_ok G (set_staging (osRemove ok id (staging c)) c)).
  { destruct HC. split; cbn; try done.
    - intros j raw Hj. eapply c_staged0, copies_remove, Hj.
    - intros j. destruct ok; cbn; [|auto]. rewrite elem_of_app, list_elem_of_singleton. intros [?|[= ->]]; auto. }
  split; [done| |].
  - intros j. rewrite (cview_some _ _ _ HC), (cview_some _ _ _ HC'). cbn. by destruct ok.
  - intros j [[raw Hj]|?]; [|by right]. left. exists raw. by apply copies_remove in Hj.
Qed.

Lemma promote_evolves cfg io G id data c : cache_ok G c -> bview (backing c) id = Some data ->
  evolves G c (promote cfg io id data c) /\ backing (promote cfg io id data c) = backing c.
Proof.
  intros HC Hv. unfold promote. pose proof (populate_cleaned cfg (drPop io) id data c) as Hp.
  destruct (populate cfg (drPop io) id data c) as [c1 e]. cbn in Hp.
  assert (E1 : evolves G c c1). { eapply cleaned_evolves; try done; [by eapply c_view|]. right. right. eauto. }
  destruct Hp as [_ Hb _]. split; [|done]. eapply evolves_trans; [exact E1|]. apply unstage_evolves; [apply E1|]. rewrite Hb. eauto.
Qed.

(** *** Reads *)

Definition readUp (io : readIO) : Prop := rdClean io = true /\ rdStaged io = true /\ bUp (rdBack io) /\ popWrite (rdPop io) = WriteOk.

(** What a read does, on every branch. *)
Definition read_post (G : gmap Z bytes) c (id : Z) (up : Prop) (res : DiskCache * result bytes) : Prop :=
  evolves G c res.1 /\ (forall j, cview res.1 j = cview c j) /\ (forall out, res.2 = Ok out -> G !! id = Some out) /\
  (up -> is_Some (cview c id) -> is_ok res.2 = true).

Lemma readMiss_post cfg io G id c : cache_ok G c ->
  read_post G c id (bUp (rdBack io) /\ popWrite (rdPop io) = WriteOk /\ is_Some (bview (backing c) id)) (readMiss cfg io id c).
Proof.
  intros HC. pose proof (c_back _ _ HC) as Hb. unfold readMiss. pose proof (bRead_inv (rdBack io) id _ Hb) as Hi.
  pose proof (fun j => bRead_view (rdBack io) id _ j Hb) as Hv. pose proof (fun b => bRead_ok (rdBack io) id _ b Hb) as Ho. pose proof (bRead_up (rdBack io) id _ Hb) as Hu.
  destruct (bRead (rdBack io) id (backing c)) as [b [data|e]]; cbn in *.
  - specialize (Ho data eq_refl). set (c0 := set_backing b c).
    assert (E0 : evolves G c c0) by (apply backed_evolves; auto). assert (Hv0 : forall j, cview c0 j = cview c j).
    { intros j. unfold cview. cbn. by rewrite Hv. }
    assert (HG : G !! id = Some data) by by eapply c_view. pose proof (populate_cleaned cfg (rdPop io) id data c0) as Hp.
    assert (E1 : evolves G c0 (populate cfg (rdPop io) id data c0).1).
    { eapply cleaned_evolves; [apply E0|done| |done]. right. right. cbn. rewrite Hv. eauto. }
    assert (Hpe : popWrite (rdPop io) = WriteOk -> (populate cfg (rdPop io) id data c0).2 = None) by (unfold populate; by intros ->).
    destruct (populate cfg (rdPop io) id data c0) as [c1 [e|]]; cbn in *;
      (split; [by eapply evolves_trans|]); (split; [intros j; exact (eq_trans (cleaned_view _ _ _ _ j Hp) (Hv0 j))|]); split; try done.
    + intros (_ & H & _) _. by specialize (Hpe H).
    + by intros ? [= <-].
  - split; [apply backed_evolves; auto|]. repeat split; try done; [|by intros (? & _ & ?) _; apply Hu].
    intros j. unfold cview. cbn. by rewrite Hv.
Qed.

Lemma readStagedOr_post cfg io G id c : cache_ok G c ->
  read_post G c id (rdStaged io = true /\ bUp (rdBack io) /\ popWrite (rdPop io) = WriteOk) (readStagedOr cfg io id c).
Proof.
  intros HC. unfold readStagedOr. destruct (rdStaged io); cbn; [|by split; [apply evolves_refl|split; [|split; [|intros []]]]].
  destruct (listing (staging c) !! id) as [raw|] eqn:El; cbn.
  - apply listing_copies in El. destruct (c_staged _ _ HC _ _ El) as (cl & d & -> & Hd). rewrite readStaged_ok.
    by split; [apply evolves_refl|split; [|split; [intros out [= <-]|]]].
  - destruct (readMiss_post cfg io G id c HC) as (A & Bv & C & D). split; [done|]. split; [done|]. split; [done|].
    intros (_ & H1 & H2) Hs. apply D; [|done]. split; [done|]. split; [done|]. apply (cview_some _ _ _ HC) in Hs as [Hs|Hs]; [|done].
    eapply c_gone, listing_gone, El; done.
Qed.

Lemma CacheRead_post cfg io G id c : cache_ok G c -> read_post G c id (readUp io) (CacheRead cfg io id c).
Proof.
  intros HC. unfold CacheRead, readLocal. destruct (rdClean io) eqn:Ec; cbn.
  2:{ split; [by apply evolves_refl|]. split; [done|]. split; [done|]. intros [? _]. congruence. }
  assert (HS : read_post G c id (readUp io) (readStagedOr cfg io id c)).
  { destruct (readStagedOr_post cfg io G id c HC) as (A & Bv & C & D). do 3 (split; [done|]). intros (_ & ?). auto. }
  destruct (listing (clean c) !! id) as [raw|] eqn:El; [|done]. apply listing_copies in El.
  destruct (readChecksummed raw) as [data|] eqn:Er.
  - split; [destruct HC; by split|]. split; [done|]. split; [|done]. intros out [= <-]. by eapply c_clean.
  - set (c1 := set_clean _ c). assert (E1 : evolves G c c1).
    { apply shrunk_evolves; try done. intros j r. apply copies_remove. }
    destruct (readStagedOr_post cfg io G id c1 (ev_ok _ _ _ E1)) as (A & Bv & C & D). split; [by eapply evolves_trans|].
    split; [done|]. split; [done|]. intros (_ & ?) ?. by apply D.
Qed.

(** *** Batched reads *)

Definition out_ok (G : gmap Z bytes) (out : gmap Z bytes) : Prop := forall id b, out !! id = Some b -> G !! id = Some b.

Lemma out_insert G out id data : out_ok G out -> G !! id = Some data -> out_ok G (<[id := data]> out).
Proof. intros Ho Hd j b [[<- <-]|[_ H]]%lookup_insert_Some; [done|by apply Ho]. Qed.

(** Steps that neither lose nor change what is held. *)
Definition quiet (G : gmap Z bytes) c c' : Prop := evolves G c c' /\ forall j, cview c' j = cview c j.

Lemma quiet_refl G c : cache_ok G c -> quiet G c c.
Proof. intros H. split; [by apply evolves_refl|done]. Qed.

Lemma quiet_trans G c1 c2 c3 : quiet G c1 c2 -> quiet G c2 c3 -> quiet G c1 c3.
Proof. intros [E1 V1] [E2 V2]. split; [by eapply evolves_trans|]. intros j. by rewrite V2. Qed.

Lemma quiet_ok G c c' : quiet G c c' -> cache_ok G c'.
Proof. by intros [[? _ _] _]. Qed.

Lemma readLocalAny_post io G id c : cache_ok G c ->
  quiet G c (readLocalAny io id c).1 /\ forall data, (readLocalAny io id c).2 = Some data -> G !! id = Some data.
Proof.
  intros HC. unfold readLocalAny.
  assert (Hst : forall c0, cache_ok G c0 -> forall data, (if rdStaged io then snd <$> (listing (staging c0) !! id ≫= readStaged) else None) = Some data -> G !! id = Some data).
  { intros c0 HC0 data. destruct (rdStaged io); [|done]. destruct (listing (staging c0) !! id) as [raw|] eqn:El; [|done]. apply listing_copies in El.
    destruct (c_staged _ _ HC0 _ _ El) as (cl & d & -> & Hd). cbn. rewrite readStaged_ok. by intros [= <-]. }
  unfold readLocal. destruct (rdClean io); cbn; [|split; [by apply quiet_refl|by apply Hst]].
  destruct (listing (clean c) !! id) as [raw|] eqn:El; [|split; [by apply quiet_refl|by apply Hst]]. apply listing_copies in El.
  destruct (readChecksummed raw) as [data|] eqn:Er.
  - split; [split; [destruct HC; by split|done]|]. intros d [= <-]. by eapply c_clean.
  - set (c1 := set_clean _ c). assert (E1 : quiet G c c1).
    { split; [|done]. apply shrunk_evolves; try done. intros j r. apply copies_remove. }
    split; [exact E1|]. apply Hst. by eapply quiet_ok.
Qed.

Lemma splitLocal_post v G ids : forall c out misses, cache_ok G c -> out_ok G out ->
  quiet G c (splitLocal v ids c out misses).1.1 /\ out_ok G (splitLocal v ids c out misses).1.2.
Proof.
  induction ids as [|id ids IH]; intros c out misses HC Ho; cbn; [split; [by apply quiet_refl|done]|].
  destruct (readLocalAny_post (beRead v id) G id c HC) as [Q D]. destruct (readLocalAny (beRead v id) id c) as [c1 [data|]]; cbn in *.
  - destruct (IH c1 (<[id := data]> out) misses) as [Q2 O2]; [by eapply quiet_ok|apply out_insert; [done|by apply D]|]. split; [by eapply quiet_trans|done].
  - destruct (IH c1 out (misses ++ [id])) as [Q2 O2]; [by eapply quiet_ok|done|]. split; [by eapply quiet_trans|done].
Qed.

Lemma readEach_post cfg v G ids : forall c out st, cache_ok G c -> out_ok G out ->
  quiet G c (readEach cfg v ids c out st).1.1 /\ out_ok G (readEach cfg v ids c out st).1.2.
Proof.
  induction ids as [|id ids IH]; intros c out st HC Ho; cbn; [split; [by apply quiet_refl|done]|].
  destruct (CacheRead_post cfg (beRead v id) G id c HC) as (E & V & O & _). destruct (CacheRead cfg (beRead v id) id c) as [c1 [data|e]]; cbn in *.
  - destruct (IH c1 (<[id := data]> out) (st.1 + 1, st.2 + len data)) as [Q2 O2]; [apply E|apply out_insert; [done|by apply O]|]. split; [by eapply quiet_trans|done].
  - destruct (IH c1 out st) as [Q2 O2]; [apply E|done|]. split; [by eapply quiet_trans|done].
Qed.

Lemma populateAll_post cfg v G l : forall c out, cache_ok G c -> out_ok G out -> Forall (fun x => G !! x.1 = Some x.2 /\ is_Some (bview (backing c) x.1)) l ->
  quiet G c (populateAll cfg v l c out).1 /\ out_ok G (populateAll cfg v l c out).2.
Proof.
  induction l as [|[id data] l IH]; intros c out HC Ho Hl; cbn; [split; [by apply quiet_refl|done]|]. apply Forall_cons in Hl as [[HG Ht] Hl].
  pose proof (populate_cleaned cfg (bePop v id) id data c) as Hp. set (c1 := (populate cfg (bePop v id) id data c).1) in *.
  assert (Q : quiet G c c1) by (split; [eapply cleaned_evolves; [done|done|by right; right|done]|intros j; by eapply cleaned_view]).
  destruct (IH c1 (<[id := data]> out)) as [Q2 O2]; [by eapply quiet_ok|by apply out_insert| |split; [by eapply quiet_trans|done]].
  destruct Hp as [_ Hb _]. by rewrite Hb.
Qed.

Lemma CacheReadBatch_post cfg v G ids c : cache_ok G c -> (forall l, (beRange v l) ≡ₚ l) ->
  let res := CacheReadBatch cfg v ids c in quiet G c res.1.1.1 /\ out_ok G res.1.1.2.
Proof.
  intros HC Hr res. unfold res, CacheReadBatch. destruct (splitLocal_post v G ids c ∅ []) as [Q O]; [done|by intros j b|].
  destruct (splitLocal v ids c ∅ []) as [[c1 out] misses]. cbn in Q, O. pose proof (quiet_ok _ _ _ Q) as HC1.
  destruct misses as [|m0 misses]; [done|]. destruct bReadBatch as [rb|] eqn:Erb.
  2:{ destruct (readEach_post cfg v G (beOrder v (m0 :: misses)) c1 out (0, 0)) as [Q2 O2]; [done|done|].
      destruct (readEach cfg v _ c1 out (0, 0)) as [[c2 out2] st]. cbn in *. split; [by eapply quiet_trans|done]. }
  pose proof (bReadBatch_inv rb (beBack v) (m0 :: misses) _ Erb (c_back _ _ HC1)) as Hi.
  pose proof (fun j => bReadBatch_view rb (beBack v) (m0 :: misses) _ j Erb (c_back _ _ HC1)) as Hv.
  pose proof (fun m id b => bReadBatch_ok rb (beBack v) (m0 :: misses) _ m id b Erb (c_back _ _ HC1)) as Hk.
  destruct (rb (beBack v) (m0 :: misses) (backing c1)) as [[b st] [fetched|e]]; cbn in *.
  - assert (Q1 : quiet G c1 (set_backing b c1)) by (split; [apply backed_evolves; auto|intros j; unfold cview; cbn; by rewrite Hv]).
    destruct (populateAll_post cfg v G (beRange v (map_to_list fetched)) (set_backing b c1) out) as [Q2 O2]; [by eapply quiet_ok|done| |].
    { apply Forall_forall. intros [id data]. rewrite Hr. intros Hin%elem_of_map_to_list. cbn. rewrite Hv. specialize (Hk _ _ _ eq_refl Hin).
      split; [by eapply c_view|by eexists]. }
    destruct (populateAll cfg v _ _ out) as [c2 out2]. cbn in *. split; [eapply quiet_trans; [exact Q|by eapply quiet_trans]|done].
  - split; [|done]. eapply quiet_trans; [exact Q|]. split; [apply backed_evolves; auto|]. intros j. unfold cview. cbn. by rewrite Hv.
Qed.

(** *** Writes *)

Lemma ok_fresh G c id data : cache_ok G c -> ~ ctouched c id -> cache_ok (<[id := data]> G) c.
Proof.
  intros [] Ht. assert (HN : forall j P, (j = id -> ctouched c id) -> (G !! j = P) -> <[id:=data]> G !! j = P).
  { intros j P Hj <-. rewrite lookup_insert_ne; [done|]. intros <-. auto. }
  split; try done.
  - intros j b Hj. apply HN; [|auto]. intros ->. right. right. eauto.
  - intros j raw Hj. destruct (c_staged0 j raw Hj) as (cl & d & He & Hd). exists cl, d. split; [done|]. apply HN; [|done]. intros ->. left. eauto.
  - intros j raw x Hj Hx. apply HN; [|eauto]. intros ->. right. left. eauto.
Qed.

Lemma write_ok G io id data class c : cache_ok G c -> G !! id = Some data -> cache_ok G (CacheWrite io id data class c).1.
Proof.
  intros [] HG. assert (HP : forall j raw, copies (dirDo (PutFile id (staged (Z_byte class) data)) (staging c)) j raw ->
    exists cl d, raw = staged cl d /\ G !! j = Some d).
  { intros j raw Hj. apply copies_do in Hj as [?|[= <- <-]]; eauto. }
  unfold CacheWrite, stage. destruct io; cbn; split; cbn; try done.
  - intros j raw Hj. by apply HP, copies_fsync.
  - intros j Hj. by apply elem_of_nil in Hj.
  - intros j. rewrite elem_of_app, list_elem_of_singleton. intros [?|?]; [auto|done].
Qed.

Lemma write_synced id data class c j :
  synced (staging (CacheWrite StageOk id data class c).1) !! j =
  if decide (j = id) then Some (staged (Z_byte class) data) else listing (staging c) !! j.
Proof.
  unfold CacheWrite, stage, fsyncDir, listing. cbn [fst set_staging staging synced pending dirDo]. rewrite foldl_app. cbn. destruct (decide (j = id)) as [->|?]; [by rewrite lookup_insert_eq|by rewrite lookup_insert_ne].
Qed.

Lemma write_keeps G io id data class c j x : cache_ok G c -> j <> id -> cview c j = Some x -> cview (CacheWrite io id data class c).1 j = Some x.
Proof.
  intros HC Hj Hx. pose proof (cview_G _ _ _ _ HC Hx) as HG. destruct io; try exact Hx. unfold cview in *. rewrite write_synced, decide_False by done.
  change (backing (CacheWrite StageOk id data class c).1) with (backing c). destruct (bview (backing c) j) as [b|] eqn:Eb; [done|].
  destruct (synced (staging c) !! j) as [raw|] eqn:Er; [|done]. destruct (listing (staging c) !! j) as [raw'|] eqn:El.
  - apply listing_copies in El. destruct (c_staged _ _ HC _ _ El) as (cl & d & -> & Hd). cbn. rewrite readStaged_ok. cbn. congruence.
  - apply listing_gone in El; [|eauto]. apply (c_gone _ _ HC) in El. rewrite Eb in El. by destruct El.
Qed.

Lemma write_view io id data class c c' : ~ ctouched c id -> CacheWrite io id data class c = (c', None) -> cview c' id = Some data.
Proof.
  intros Ht H. destruct io; try done. replace c' with (CacheWrite StageOk id data class c).1 by by rewrite H. unfold cview.
  change (backing (CacheWrite StageOk id data class c).1) with (backing c). destruct (bview (backing c) id) eqn:E.
  { destruct Ht. right. right. eauto. }
  rewrite write_synced, decide_True by done. cbn. by rewrite readStaged_ok.
Qed.

Lemma write_touched io id data class c j : ctouched (CacheWrite io id data class c).1 j -> j = id \/ ctouched c j.
Proof.
  assert (HP : forall raw, copies (dirDo (PutFile id (staged (Z_byte class) data)) (staging c)) j raw -> j = id \/ ctouched c j).
  { intros raw Hj. apply copies_do in Hj as [?|[= <- <-]]; [|auto]. right. left. eauto. }
  destruct io; [|by right..|]; intros [[raw Hj]|Hj]; try (by right; right); [apply copies_fsync in Hj|]; eauto.
Qed.

(** *** Drains *)

(** A drain whose reads of the staging files succeed. *)
Definition healthy (v : drainEnv) : Prop := (forall id, drRead (dOne v id) = true) /\ (forall l, dOrder v l ≡ₚ l).

Lemma openStaged_ok G c id : cache_ok G c ->
  openStaged true id c = Vanished \/ exists class data, openStaged true id c = Intact class data /\ G !! id = Some data /\ ctouched c id.
Proof.
  intros HC. unfold openStaged. destruct (listing (staging c) !! id) as [raw|] eqn:El; [|by left]. right. cbn.
  pose proof (staged_touched _ _ _ El). apply listing_copies in El. destruct (c_staged _ _ HC _ _ El) as (cl & d & -> & Hd).
  rewrite readStaged_ok. eauto.
Qed.

Lemma drainOne_evolves cfg io id G c : cache_ok G c -> drRead io = true -> evolves G c (drainOne cfg io id c).1.1.
Proof.
  intros HC Hr. unfold drainOne. rewrite Hr. destruct (openStaged_ok G c id HC) as [->|(cl & data & -> & HG & Ht)]; [by apply evolves_refl|].
  pose proof (bWrite_evolves G c (drBack io) id data (byte_Z cl) HC HG Ht) as E.
  pose proof (bWrite_ok (drBack io) id data (byte_Z cl) (backing c)) as Hk.
  destruct (bWrite (drBack io) id data (byte_Z cl) (backing c)) as [b [e|]]; cbn in *; [done|]. eapply evolves_trans; [exact E|].
  apply promote_evolves; [apply E|]. eapply Hk; [apply HC|by eapply fits_ok|done].
Qed.

Lemma drainSerial_evolves cfg io G ids : (forall id, drRead (io id) = true) ->
  forall n c, cache_ok G c -> evolves G c (drainSerial cfg io ids n c).1.1.
Proof.
  intros Hr. induction ids as [|id ids IH]; intros n c HC; cbn; [by apply evolves_refl|].
  pose proof (drainOne_evolves cfg (io id) id G c HC (Hr id)) as E. destruct drainOne as [[c1 q] [e|]]; cbn in *; [done|].
  eapply evolves_trans; [exact E|]. apply IH, E.
Qed.

Lemma drainAll_evolves cfg io G ids : (forall id, drRead (io id) = true) ->
  forall n er c, cache_ok G c -> evolves G c (drainAll cfg io ids n er c).1.1.
Proof.
  intros Hr. induction ids as [|id ids IH]; intros n er c HC; cbn; [by apply evolves_refl|].
  pose proof (drainOne_evolves cfg (io id) id G c HC (Hr id)) as E. destruct drainOne as [[c1 q] e]; cbn in *.
  eapply evolves_trans; [exact E|]. apply IH, E.
Qed.

(** The items of a batch are slices of the cache, each once. *)
Definition batch_ok (G : gmap Z bytes) c (its : list BatchItem) : Prop :=
  NoDup (bID <$> its) /\ Forall (fun it => G !! bID it = Some (bData it) /\ ctouched c (bID it)) its.

Lemma promotes_evolve cfg io G its : forall c, cache_ok G c -> Forall (fun it => bview (backing c) (bID it) = Some (bData it)) its ->
  evolves G c (fold_left (fun c it => promote cfg (io (bID it)) (bID it) (bData it) c) its c).
Proof.
  induction its as [|it its IH]; intros c HC Hv; cbn; [by apply evolves_refl|]. apply Forall_cons in Hv as [H1 H2].
  destruct (promote_evolves cfg (io (bID it)) G _ _ c HC H1) as [E Hb]. eapply evolves_trans; [exact E|]. apply IH; [apply E|by rewrite Hb].
Qed.

Lemma batch_evolves G c wb io its : bWriteBatch = Some wb -> cache_ok G c -> batch_ok G c its ->
  evolves G c (set_backing (wb io its (backing c)).1 c) /\
  forall s', wb io its (backing c) = (s', None) -> Forall (fun it => bview s' (bID it) = Some (bData it)) its.
Proof.
  intros Hw HC [HN HF]. assert (Hf : Forall (fun it => fits (backing c) (bID it) (bData it)) its).
  { eapply Forall_impl; [exact HF|]. intros it [Hg _]. by eapply fits_ok. }
  split; [|intros s' Hs; eapply bBatch_ok; [done|apply HC|..]; done].
  apply backed_evolves; [done|apply bBatch_inv; try done; apply HC|]. intros j. destruct (decide (j ∈ bID <$> its)) as [Hj|Hj].
  - apply list_elem_of_fmap in Hj as (it & -> & Hit). rewrite Forall_forall in HF. destruct (HF it Hit) as [Hg Ht].
    pose proof (bBatch_any wb io its _ Hw (c_back _ _ HC) HN Hf) as Ha. rewrite Forall_forall in Ha.
    destruct (Ha it Hit) as [->| ->]; [by left|]. right. rewrite Hg. eauto.
  - left. apply bBatch_frame; try done. apply HC.
Qed.

Lemma flushItems_evolves cfg io wb bio its G c : bWriteBatch = Some wb -> cache_ok G c -> batch_ok G c its ->
  evolves G c (flushItems cfg io wb bio its c).1.
Proof.
  intros Hw HC Hok. destruct (batch_evolves G c wb bio its Hw HC Hok) as [E Hk]. unfold flushItems.
  destruct (wb bio its (backing c)) as [b [e|]]; cbn in *; [done|]. eapply evolves_trans; [exact E|].
  apply promotes_evolve; [apply E|]. by apply Hk.
Qed.

Lemma drainBatches_evolves cfg io wb bio G : bWriteBatch = Some wb -> (forall id, drRead (io id) = true) ->
  forall ids batch size k n er c, cache_ok G c -> batch_ok G c batch -> NoDup ((bID <$> batch) ++ ids) ->
  evolves G c (drainBatches cfg io wb bio ids batch size k n er c).1.1.
Proof.
  intros Hw Hr. induction ids as [|id ids IH]; intros batch size k n er c HC Hok HN; cbn.
  - destruct batch as [|it batch]; [by apply evolves_refl|].
    pose proof (flushItems_evolves cfg io wb (bio k) _ G c Hw HC Hok). by destruct flushItems.
  - rewrite Hr. destruct (openStaged_ok G c id HC) as [->|(cl & data & -> & HG & Ht)].
    { apply IH; try done. apply NoDup_app in HN as (? & ? & [? ?]%NoDup_cons). apply NoDup_app. repeat split; try done. set_solver. }
    set (b' := batch ++ _). assert (HN' : NoDup ((bID <$> b') ++ ids)) by (unfold b'; rewrite fmap_app, <- app_assoc; exact HN).
    assert (Hok' : batch_ok G c b').
    { split; [by apply NoDup_app in HN' as (? & _)|]. apply Forall_app. split; [apply Hok|]. by apply Forall_singleton. }
    destruct (batchBudget cfg <=? size + len data); [|by apply IH].
    pose proof (flushItems_evolves cfg io wb (bio k) b' G c Hw HC Hok') as E. destruct flushItems as [c1 e]. cbn in E.
    eapply evolves_trans; [exact E|]. apply IH; [apply E|by split; constructor|]. cbn. by apply NoDup_app in HN' as (_ & _ & ?).
Qed.

Lemma readDir_NoDup d : NoDup (readDir d).
Proof. unfold readDir. rewrite merge_sort_Permutation. apply NoDup_fst_map_to_list. Qed.

Lemma drainStaging_evolves cfg v G c : cache_ok G c -> healthy v -> evolves G c (drainStaging cfg v c).1.
Proof.
  intros HC [Hr Ho]. unfold drainStaging. destruct (dList v); cbn; [|by apply evolves_refl].
  set (res := match bWriteBatch with Some _ => _ | None => _ end). assert (E : evolves G c res.1.1).
  { unfold res. destruct bWriteBatch as [wb|] eqn:Ew.
    - apply drainBatches_evolves; try done; [by split; constructor|]. apply readDir_NoDup.
    - destruct (UploadConcurrency cfg <=? 1); [by apply drainSerial_evolves|by apply drainAll_evolves]. }
  by destruct res as [[c1 n] er].
Qed.

(** *** Crashes and restarts *)

Lemma crash_evolves G c c' : cache_ok G c -> cacheCrash c c' -> evolves G c c'.
Proof.
  intros HC (Hs & Hc & _ & _ & _ & Hb). assert (HC' : cache_ok G c').
  { pose proof HC as []. split; rewrite ?Hb; try done.
    - intros j raw Hj. eapply c_staged0, copies_crash; done.
    - destruct Hs as (ops & _ & ->). intros j Hj. by apply elem_of_nil in Hj.
    - intros j raw x Hj. eapply c_clean0, copies_crash; done. }
  split; [done| |].
  - intros j. rewrite (cview_some _ _ _ HC), (cview_some _ _ _ HC'), Hb. intros [Hj|]; [|auto].
    destruct (synced (staging c') !! j) eqn:E; [eauto|]. right. eapply c_gone, crash_gone; done.
  - intros j [[raw Hj]|[[raw Hj]|Hj]]; [left|right; left|right; right; by rewrite <- Hb]; exists raw; by eapply copies_crash.
Qed.

Lemma scanCache_evolves cfg rm free G c : cache_ok G c -> evolves G c (scanCache cfg rm free c).
Proof.
  intros HC. unfold scanCache. set (c1 := fold_left _ _ _). assert (H1 : staging c1 = staging c /\ clean c1 = clean c /\ backing c1 = backing c).
  { enough (H : forall l c0, let c1 := fold_left (fun c id => addLRU id (from_option len 0 (listing (clean c) !! id)) c) l c0 in
      staging c1 = staging c0 /\ clean c1 = clean c0 /\ backing c1 = backing c0) by exact (H _ (set_lru [] 0 c)).
    intros l. induction l as [|id l IH]; intros c0; [done|]. exact (IH (addLRU id _ c0)). }
  destruct H1 as (Hs & Hc & Hb). unfold evict. destruct evictFrom as [[old cur] d] eqn:E. apply shrunk_evolves; try done.
  intros j raw Hj. rewrite <- Hc. eapply (evictFrom_copies cfg rm). by rewrite E.
Qed.

Lemma New_evolves cfg rm free v G c : cache_ok G c -> healthy v -> evolves G c (New cfg rm free v c).1.
Proof.
  intros HC Hv. pose proof (scanCache_evolves cfg rm free G c HC) as E1. unfold New.
  pose proof (drainStaging_evolves cfg v G _ (ev_ok _ _ _ E1) Hv) as E2. destruct drainStaging. cbn in *. by eapply evolves_trans.
Qed.

End Invariant.

(** ** The cache as a slice store *)

Section Store.
  Context {B : Type} {CS : ChunkStore B} {CL : ChunkStoreLaws B} (cfg : Config).

(** What the cache does on its own: a drain, or a crash and a restart. *)
Inductive cacheStep : DiskCache (B := B) -> DiskCache (B := B) -> Prop :=
  | cs_drain v c : healthy v -> cacheStep c (drainStaging cfg v c).1
  | cs_restart c c1 rm free v : cacheCrash c c1 -> healthy v -> cacheStep c (New cfg rm free v c1).1.

Lemma cacheStep_evolves G c c' : cache_ok G c -> cacheStep c c' -> evolves G c c'.
Proof.
  intros HC Hs. destruct Hs as [v c0 Hv|c0 c1 rm free v Hcr Hv]; [exact (drainStaging_evolves cfg v G c0 HC Hv)|]. pose proof (crash_evolves _ _ _ HC Hcr) as E.
  eapply evolves_trans; [exact E|]. apply New_evolves; [apply E|done].
Qed.

#[export] Instance cache_store : SliceStore (DiskCache (B := B)) := {
  storeIO := stageIO * readIO;
  sWrite io id b class c := CacheWrite io.1 id b class c;
  sReadAt io id off n c := CacheReadAt cfg io.2 id off n c }.

Lemma readAt_post io G id off n c : cache_ok G c ->
  let res := CacheReadAt cfg io id off n c in
  evolves G c res.1 /\ (forall j, cview res.1 j = cview c j) /\
  (forall out, res.2 = Ok out -> exists b, G !! id = Some b /\ out = if len b <=? off then [] else slice b off (Z.min (off + n) (len b))) /\
  (readUp io -> is_Some (cview c id) -> is_ok res.2 = true).
Proof.
  intros HC. destruct (CacheRead_post cfg io G id c HC) as (E & V & O & U). unfold CacheReadAt.
  destruct (CacheRead cfg io id c) as [c1 [data|e]]; cbn in *; (split; [done|]); (split; [done|]); (split; [|done]); [|done].
  intros out [= <-]. exists data. split; [by apply O|done].
Qed.

#[export] Instance cache_laws : SliceStoreLaws (DiskCache (B := B)).
Proof.
  refine {| sinv c := exists G, cache_ok G c; sview := cview; stouched := ctouched; sStep := cacheStep;
            storeUp io := io.1 = StageOk /\ readUp io.2 |}.
  - intros c c' [G HC] Hs. exists G. exact (ev_ok _ _ _ (cacheStep_evolves _ _ _ HC Hs)).
  - intros c c' id b [G HC] Hs. exact (evolves_keeps _ _ _ _ _ HC (cacheStep_evolves _ _ _ HC Hs)).
  - intros c c' id [G HC] Hs. exact (ev_touched _ _ _ (cacheStep_evolves _ _ _ HC Hs) id).
  - intros io id b class c [G HC] Ht. exists (<[id := b]> G). apply write_ok; [by apply ok_fresh|by rewrite lookup_insert_eq].
  - intros io id b class c c' _ Ht H. exact (write_view _ _ _ _ _ _ Ht H).
  - intros io id b class c j x [G HC] Hj. exact (write_keeps G io.1 id b class c j x HC Hj).
  - intros io id b class c j _. exact (write_touched io.1 id b class c j).
  - intros io id b class c _ [H _]. cbn. by rewrite H.
  - intros io id off n c [G HC]. exists G. destruct (readAt_post io.2 G id off n c HC) as (E & _). exact (ev_ok _ _ _ E).
  - intros io id off n c j [G HC]. destruct (readAt_post io.2 G id off n c HC) as (_ & V & _). exact (V j).
  - intros io id off n c j [G HC]. destruct (readAt_post io.2 G id off n c HC) as (E & _). exact (ev_touched _ _ _ E j).
  - intros io id off n c b out [G HC] Hv Hoff Ho. destruct (readAt_post io.2 G id off n c HC) as (_ & _ & O & _).
    destruct (O out Ho) as (b' & Hb & ->). pose proof (cview_G _ _ _ _ HC Hv) as HG. rewrite HG in Hb. injection Hb as <-.
    destruct (Z.leb_spec (len b) off); [|done]. by rewrite slice_past by lia.
  - intros io id off n c b [G HC] [_ Hu] Hv. destruct (readAt_post io.2 G id off n c HC) as (_ & _ & _ & U). exact (U Hu (ex_intro _ _ Hv)).
Defined.

(** ** Durability *)

(** A life of the cache after a write: other writes, under ids of their own,
    with any outcome; reads, single and batched; drains; crashes and restarts. *)
Inductive cacheLife : DiskCache (B := B) -> DiskCache (B := B) -> Prop :=
  | cl_write io id data class c : ~ ctouched c id -> cacheLife c (CacheWrite io id data class c).1
  | cl_read io id c : cacheLife c (CacheRead cfg io id c).1
  | cl_batch v ids c : (forall l, (beRange v l) ≡ₚ l) -> cacheLife c (CacheReadBatch cfg v ids c).1.1.1
  | cl_step c c' : cacheStep c c' -> cacheLife c c'.

Lemma life_keeps c c' id b : (exists G, cache_ok G c) -> cacheLife c c' -> cview c id = Some b ->
  (exists G, cache_ok G c') /\ cview c' id = Some b.
Proof.
  intros [G HC] Hl Hv. destruct Hl as [io j data class c0 Ht|io j c0|v ids c0 Hr|c0 c0' Hs].
  - split; [exists (<[j := data]> G); apply write_ok; [by apply ok_fresh|by rewrite lookup_insert_eq]|].
    eapply write_keeps; [done| |done]. intros ->. destruct Ht. pose proof (proj1 (cview_some _ _ _ HC) (ex_intro _ _ Hv)) as [[raw Hr]|?].
    + left. exists raw. by left.
    + by right; right.
  - pose proof (CacheRead_post cfg io G j c0 HC) as (E & V & _). split; [exists G; apply E|]. by rewrite V.
  - destruct (CacheReadBatch_post cfg v G ids c0 HC Hr) as [[E V] _]. split; [exists G; apply E|]. by rewrite V.
  - pose proof (cacheStep_evolves _ _ _ HC Hs) as E. split; [exists G; apply E|]. by eapply evolves_keeps.
Qed.

Lemma life_durable c c' id b : (exists G, cache_ok G c) -> rtc cacheLife c c' -> cview c id = Some b ->
  (exists G, cache_ok G c') /\ cview c' id = Some b.
Proof.
  intros HC Hl. revert HC. induction Hl as [|c c1 c' H1 _ IH]; intros HC Hv; [done|].
  destruct (life_keeps _ _ _ _ HC H1 Hv). by apply IH.
Qed.

End Store.
