(* ===== verification/CacheLru.v ===== *)
(** The clean cache's limits, and witnesses and scenarios of the disk cache.

    [cache_bounded]: from the restart on, the clean cache's account is within
    its limits after every operation.  [evict_spec]: eviction drops the least
    recently used slices, and no more of them than the limits ask for.
    [read_error_quarantines]: a staging file that could not be read once is
    taken for a corrupt one, and the acknowledged write is gone from the mount. *)

From S2P Require Import Prelude GoStrings Decimal Sha256 Overlay Wal MetaDb FileMeta FileIO DiskCache CacheSpec.

Section Lru.
  Context {B : Type} {CS : ChunkStore B} (cfg : Config).
  Implicit Types c : DiskCache (B := B).

Definition total (l : list lruEntry) : Z := foldr Z.add 0 (entSize <$> l).

(** Each slice once, sizes not negative, [curBytes] their sum. *)
Definition lru_ok c : Prop := NoDup (entId <$> lru c) /\ Forall (fun e => 0 <= entSize e) (lru c) /\ curBytes c = total (lru c).

Definition in_limits (l : list lruEntry) : Prop :=
  (0 < MaxBytes cfg -> total l <= MaxBytes cfg) /\ (0 < MaxItems cfg -> len l <= MaxItems cfg).

Definition bounded c : Prop := lru_ok c /\ in_limits (lru c).

Lemma total_app l k : total (l ++ k) = total l + total k.
Proof. unfold total. induction l; cbn in *; lia. Qed.

Lemma total_nonneg l : Forall (fun e => 0 <= entSize e) l -> 0 <= total l.
Proof. unfold total. induction 1; cbn in *; lia. Qed.

Lemma total_reverse l : total (reverse l) = total l.
Proof. induction l as [|e l IH]; [done|]. rewrite reverse_cons, total_app, IH. unfold total. cbn. lia. Qed.

Lemma total_filter id l :
  total (filter (fun e => entId e = id) l) + total (filter (fun e => entId e <> id) l) = total l.
Proof.
  induction l as [|e l IH]; [done|]. rewrite !filter_cons. unfold total in *.
  destruct (decide (entId e = id)), (decide (entId e <> id)); cbn; (done || lia).
Qed.

Lemma in_limits_reverse l : in_limits (reverse l) <-> in_limits l.
Proof. unfold in_limits, len. by rewrite total_reverse, length_reverse. Qed.

(** ** Eviction *)

Lemma overLimits_empty target freed : target <= freed -> overLimits cfg target freed 0 0 = false.
Proof. intros H. unfold overLimits. rewrite !orb_false_iff, !andb_false_iff, !Z.ltb_ge. lia. Qed.

Lemma overLimits_done target freed l : overLimits cfg target freed (total l) (len l) = false ->
  in_limits l /\ (0 < target -> target <= freed).
Proof.
  unfold overLimits, in_limits. rewrite !orb_false_iff, !andb_false_iff, !Z.ltb_ge. intros [[H1 H2] H3]. split; [split|]; intros H; lia.
Qed.

(** The loop drops a prefix, oldest first, until the limits hold; before the
    last drop they did not. *)
Lemma evictFrom_spec rm target old : forall freed d,
  target <= freed + total old ->
  exists gone old',
    old = gone ++ old' /\ (evictFrom cfg rm target freed (total old) old d).1 = (old', total old') /\
    overLimits cfg target (freed + total gone) (total old') (len old') = false /\
    (forall gone' e, gone = gone' ++ [e] -> overLimits cfg target (freed + total gone') (total (e :: old')) (len (e :: old')) = true) /\
    forall id, listing (evictFrom cfg rm target freed (total old) old d).2 !! id =
      if bool_decide (id ∈ entId <$> gone) && rm id then None else listing d !! id.
Proof.
  induction old as [|e old IH]; intros freed d Ht.
  { exists [], []. cbn in *. rewrite overLimits_empty by (unfold total in Ht; cbn in Ht; lia). cbn.
    split; [done|]. split; [done|]. split; [by rewrite Z.add_0_r, overLimits_empty by (unfold total in Ht; cbn in Ht; lia)|].
    split; [by intros []|].
    intros id. by destruct (bool_decide_reflect (id ∈ @nil Z)) as [?%elem_of_nil|]. }
  change (total (e :: old)) with (entSize e + total old) in *. cbn [evictFrom].
  destruct overLimits eqn:E.
  - replace (entSize e + total old - entSize e) with (total old) by lia.
    destruct (IH (freed + entSize e) (osRemove (rm (entId e)) (entId e) d)) as (gone & old' & -> & H1 & H2 & H3 & H4); [lia|].
    exists (e :: gone), old'. split; [done|]. split; [done|]. change (total (e :: gone)) with (entSize e + total gone).
    split; [by rewrite Z.add_assoc|]. split.
    + intros gone' x Hg. destruct gone' as [|y gone'].
      * injection Hg as <- ->. rewrite Z.add_0_r. exact E.
      * injection Hg as <- Hg. change (total (e :: gone')) with (entSize e + total gone'). rewrite Z.add_assoc. by apply H3.
    + intros id. rewrite H4. destruct (decide (entId e = id)) as [<-|Hne].
      * rewrite (bool_decide_true (_ ∈ entId <$> e :: gone)) by (cbn; left). unfold osRemove, listing. destruct (rm (entId e)); cbn.
        -- rewrite foldl_app. cbn. rewrite lookup_delete_eq. by destruct bool_decide.
        -- by rewrite andb_false_r.
      * replace (bool_decide (id ∈ entId <$> e :: gone)) with (bool_decide (id ∈ entId <$> gone)).
        -- destruct (_ && _); [done|]. unfold osRemove, listing. destruct (rm (entId e)); cbn; [|done]. rewrite foldl_app. cbn.
           by rewrite lookup_delete_ne.
        -- apply bool_decide_ext. cbn. rewrite elem_of_cons. naive_solver.
  - exists [], (e :: old). split; [done|]. split; [done|]. split; [by rewrite Z.add_0_r|]. split; [by intros []|].
    intros id. by destruct (bool_decide_reflect (id ∈ @nil Z)) as [?%elem_of_nil|].
Qed.

Lemma overLimits_true target freed l : overLimits cfg target freed (total l) (len l) = true -> ~ (in_limits l /\ target <= freed).
Proof.
  unfold overLimits, in_limits. rewrite !orb_true_iff, !andb_true_iff, !Z.ltb_lt. intros H [[H1 H2] H3]. destruct H as [[[]|[]]|[]]; lia.
Qed.

Lemma freeSpace_le free cur : 0 <= cur -> freeSpaceEvictBytes cfg free cur <= cur.
Proof.
  intros H. unfold freeSpaceEvictBytes. destruct (minFree cfg); [|lia]. destruct free as [[a t]|]; [|lia].
  destruct (t <=? 0); [lia|]. destruct (_ <=? a); lia.
Qed.

Lemma evict_facts rm free c : lru_ok c ->
  let c' := evict cfg rm free c in
  let target := freeSpaceEvictBytes cfg free (curBytes c) in
  bounded c' /\
  exists gone, lru c = lru c' ++ gone /\ target <= total gone /\
    (forall e gone', gone = e :: gone' -> ~ (in_limits (lru c' ++ [e]) /\ target <= total gone')) /\
    forall id, listing (clean c') !! id = if bool_decide (id ∈ entId <$> gone) && rm id then None else listing (clean c) !! id.
Proof.
  intros (HN & Hp & Hc). set (target := freeSpaceEvictBytes _ _ _). unfold evict. fold target.
  assert (Ht : target <= 0 + total (reverse (lru c))).
  { rewrite total_reverse, <- Hc. apply freeSpace_le. rewrite Hc. by apply total_nonneg. }
  destruct (evictFrom_spec rm target (reverse (lru c)) 0 (clean c) Ht) as (gone & old & Hr & H1 & H2 & H3 & H4).
  rewrite total_reverse, <- Hc in H1, H4. destruct evictFrom as [[old1 cur] d]. cbn [fst snd] in H1, H4. injection H1 as -> ->.
  assert (Hl : lru c = reverse old ++ reverse gone) by (by rewrite <- reverse_app, <- Hr, reverse_involutive).
  assert (Hpg : 0 <= total gone) by (rewrite <- total_reverse; apply total_nonneg; by rewrite Hl, Forall_app in Hp; destruct Hp).
  rewrite Hl in HN, Hp. rewrite fmap_app in HN. apply NoDup_app in HN as (HN & _). apply Forall_app in Hp as [Hp _].
  apply overLimits_done in H2 as [Hlim Htg]. cbn [set_clean set_lru lru clean curBytes]. split.
  - split; [exact (conj HN (conj Hp (eq_sym (total_reverse old))))|]. exact (proj2 (in_limits_reverse old) Hlim).
  - exists (reverse gone). split; [done|]. split; [rewrite total_reverse; lia|]. split.
    + intros e g He. assert (Hg : gone = reverse g ++ [e]) by by rewrite <- reverse_cons, <- He, reverse_involutive.
      intros Hno. apply (overLimits_true target (0 + total (reverse g)) (e :: old)); [by apply H3|].
      rewrite total_reverse.
      by rewrite <- reverse_cons, in_limits_reverse in Hno.
    + intros id. rewrite H4. by replace (bool_decide (id ∈ entId <$> reverse gone)) with (bool_decide (id ∈ entId <$> gone))
        by (apply bool_decide_ext; by rewrite fmap_reverse, elem_of_reverse).
Qed.

(** Eviction is exact.  It drops a suffix of the LRU list (the least
    recently used slices), brings the cache within its byte and item limits and
    frees what the free-space floor asks for; and it drops no slice too many:
    with the last one dropped still there, a limit would be exceeded or too
    little freed.  The files of the dropped slices are removed (where the
    remove succeeds), no other file is touched, and [curBytes] stays the sum of
    the sizes. *)
Theorem evict_spec rm free c :
  lru_ok c ->
  let c' := evict cfg rm free c in
  let target := freeSpaceEvictBytes cfg free (curBytes c) in
  bounded c' /\
  exists gone, lru c = lru c' ++ gone /\ target <= total gone /\
    (forall e gone', gone = e :: gone' -> ~ (in_limits (lru c' ++ [e]) /\ target <= total gone')) /\
    forall id, listing (clean c') !! id = if bool_decide (id ∈ entId <$> gone) && rm id then None else listing (clean c) !! id.
Proof. apply evict_facts. Qed.

(** ** The limits, through every operation *)

Lemma bounded_same c c' : lru c' = lru c -> curBytes c' = curBytes c -> bounded c -> bounded c'.
Proof. unfold bounded, lru_ok. by intros -> ->. Qed.

Lemma Forall_filter {A} (P Q : A -> Prop) `{forall x, Decision (Q x)} l : Forall P l -> Forall P (filter Q l).
Proof. rewrite !Forall_forall. intros HP x [_ Hx]%list_elem_of_filter. auto. Qed.

Lemma kept_NoDup id l : NoDup (entId <$> l) -> NoDup (entId <$> filter (fun e => entId e <> id) l).
Proof. intros H. eapply sublist_NoDup; [exact H|]. apply fmap_sublist, sublist_filter. Qed.

Lemma addLRU_ok id size c : 0 <= size -> lru_ok c -> lru_ok (addLRU id size c).
Proof.
  intros Hs (HN & Hp & Hc). split; [|split]; cbn.
  - constructor; [|by apply kept_NoDup]. intros (e & He & Hin)%list_elem_of_fmap. apply list_elem_of_filter in Hin. naive_solver.
  - constructor; [done|]. by apply Forall_filter.
  - pose proof (total_filter id (lru c)). unfold total in *. cbn. lia.
Qed.

Lemma populate_bounded io id data c : bounded c -> bounded (populate cfg io id data c).1.
Proof.
  intros HB. unfold populate. destruct (popWrite io); cbn; [|done|by eapply bounded_same, HB].
  apply evict_facts, addLRU_ok; [|apply HB]. pose proof (len_nonneg data). unfold checksumLen. lia.
Qed.

Lemma touch_bounded id c : bounded c -> bounded (touch id c).
Proof.
  intros ((HN & Hp & Hc) & HL). pose proof (total_filter id (lru c)) as Ht. rewrite <- total_app in Ht.
  pose proof (filter_app_complement (fun e => entId e = id) (lru c)) as Hq.
  assert (Hlen : len (lru (touch id c)) = len (lru c)) by (unfold len; f_equal; by apply Permutation_length).
  split; [split; [|split]|].
  - cbn. by rewrite Hq.
  - cbn. by rewrite Hq.
  - cbn [touch set_lru curBytes lru]. by rewrite Ht.
  - unfold in_limits. rewrite Hlen. cbn [touch set_lru lru]. by rewrite Ht.
Qed.

Lemma remove_bounded rm1 rm2 io id c : bounded c -> bounded (CacheRemove rm1 rm2 io id c).1.
Proof.
  intros ((HN & Hp & Hc) & HL). unfold CacheRemove. destruct bRemove as [b e]. pose proof (total_filter id (lru c)) as Ht.
  pose proof (total_nonneg (filter (fun e => entId e = id) (lru c))) as H0. specialize (H0 (Forall_filter _ _ _ Hp)).
  split; [split; [|split]|]; cbn [fst set_backing set_staging set_clean set_lru lru curBytes].
  - by apply kept_NoDup.
  - by apply Forall_filter.
  - fold (total (filter (fun e => entId e = id) (lru c))). lia.
  - pose proof (length_filter (fun e => entId e <> id) (lru c)) as Hlf. destruct HL as [H1 H2]. split; intros H; [specialize (H1 H)|specialize (H2 H); unfold len in *]; lia.
Qed.

Lemma read_bounded io id c : bounded c -> bounded (CacheRead cfg io id c).1.
Proof.
  intros HB. unfold CacheRead, readLocal. destruct (rdClean io); cbn; [|done].
  assert (HS : forall c0, bounded c0 -> bounded (readStagedOr cfg io id c0).1).
  { intros c0 H0. unfold readStagedOr, readMiss. destruct (rdStaged io); cbn; [|done]. destruct (_ ≫= readStaged) as [[cl d]|]; [done|].
    destruct bRead as [b [data|e]]; [|exact H0]. pose proof (populate_bounded (rdPop io) id data (set_backing b c0) H0).
    by destruct populate as [c1 [e|]]. }
  destruct (listing (clean c) !! id) as [raw|]; [|by apply HS]. destruct (readChecksummed raw); cbn; [by apply touch_bounded|]. by apply HS.
Qed.

Lemma local_bounded io id c : bounded c -> bounded (readLocalAny io id c).1.
Proof.
  intros H. unfold readLocalAny, readLocal. destruct (rdClean io); [|done]. cbn. destruct (listing (clean c) !! id); [|done].
  destruct (readChecksummed _); [by apply touch_bounded|done].
Qed.

Lemma splitLocal_bounded v ids : forall c out misses, bounded c -> bounded (splitLocal v ids c out misses).1.1.
Proof.
  induction ids as [|id ids IH]; intros c out misses H; [done|]. cbn. pose proof (local_bounded (beRead v id) id c H).
  destruct (readLocalAny _ _ _) as [c1 [data|]]; by apply IH.
Qed.

Lemma readEach_bounded v ids : forall c out st, bounded c -> bounded (readEach cfg v ids c out st).1.1.
Proof.
  induction ids as [|id ids IH]; intros c out st H; [done|]. cbn. pose proof (read_bounded (beRead v id) id c H).
  destruct (CacheRead _ _ _ _) as [c1 [data|e]]; by apply IH.
Qed.

Lemma populateAll_bounded v l : forall c out, bounded c -> bounded (populateAll cfg v l c out).1.
Proof. induction l as [|[id data] l IH]; intros c out H; [done|]. cbn. by apply IH, populate_bounded. Qed.

Lemma readBatch_bounded v ids c : bounded c -> bounded (CacheReadBatch cfg v ids c).1.1.1.
Proof.
  intros H. unfold CacheReadBatch. pose proof (splitLocal_bounded v ids c ∅ [] H) as H1. destruct (splitLocal _ _ _ _ _) as [[c1 out] misses]. cbn in H1.
  destruct misses as [|m ms]; [done|]. destruct bReadBatch as [rb|].
  - destruct (rb _ _ _) as [[b st] [fetched|e]]; [|done].
    pose proof (populateAll_bounded v (beRange v (map_to_list fetched)) (set_backing b c1) out H1) as H2. by destruct (populateAll _ _ _ _ _).
  - pose proof (readEach_bounded v (beOrder v (m :: ms)) c1 out (0, 0) H1) as H2. by destruct (readEach _ _ _ _ _ _) as [[? ?] ?].
Qed.

Lemma promote_bounded io id data c : bounded c -> bounded (promote cfg io id data c).
Proof. intros HB. unfold promote. pose proof (populate_bounded (drPop io) id data c HB). by destruct populate. Qed.

Lemma quarantine_bounded io id c : bounded c -> bounded (quarantine io id c).1.
Proof. intros HB. unfold quarantine. destruct io, (listing (staging c) !! id); exact HB. Qed.

Lemma drainOne_bounded io id c : bounded c -> bounded (drainOne cfg io id c).1.1.
Proof.
  intros HB. unfold drainOne. destruct openStaged as [|cl data|]; [done| |].
  - destruct bWrite as [b [e|]]; cbn; [exact HB|by apply promote_bounded].
  - pose proof (quarantine_bounded (drQuar io) id c HB). by destruct quarantine as [c1 [e|]].
Qed.

Lemma flush_bounded io wb bio its c : bounded c -> bounded (flushItems cfg io wb bio its c).1.
Proof.
  intros HB. unfold flushItems. destruct (wb bio its (backing c)) as [b [e|]]; cbn; [exact HB|].
  assert (H : bounded (set_backing b c)) by exact HB. revert H. generalize (set_backing b c).
  induction its as [|it its IH]; intros c0 H0; cbn; [done|]. by apply IH, promote_bounded.
Qed.

Lemma drainBatches_bounded io wb bio ids : forall batch size k n er c, bounded c -> bounded (drainBatches cfg io wb bio ids batch size k n er c).1.1.
Proof.
  induction ids as [|id ids IH]; intros batch size k n er c HB; cbn.
  - destruct batch; [done|]. pose proof (flush_bounded io wb (bio k) (b :: batch) c HB). by destruct flushItems.
  - destruct openStaged as [|cl data|]; [by apply IH| |].
    + destruct (_ <=? _); [|by apply IH]. set (b' := batch ++ _). pose proof (flush_bounded io wb (bio k) b' c HB). destruct flushItems. by apply IH.
    + pose proof (quarantine_bounded (drQuar (io id)) id c HB). destruct quarantine as [c1 [e|]]; [done|]. by apply IH.
Qed.

Lemma drainSerial_bounded io ids : forall n c, bounded c -> bounded (drainSerial cfg io ids n c).1.1.
Proof.
  induction ids as [|id ids IH]; intros n c HB; cbn; [done|]. pose proof (drainOne_bounded (io id) id c HB).
  destruct drainOne as [[c1 q] [e|]]; [done|]. by apply IH.
Qed.

Lemma drainAll_bounded io ids : forall n er c, bounded c -> bounded (drainAll cfg io ids n er c).1.1.
Proof.
  induction ids as [|id ids IH]; intros n er c HB; cbn; [done|]. pose proof (drainOne_bounded (io id) id c HB).
  destruct drainOne as [[c1 q] e]. by apply IH.
Qed.

Lemma drain_bounded v c : bounded c -> bounded (drainStaging cfg v c).1.
Proof.
  intros HB. unfold drainStaging. destruct (dList v); cbn; [|done].
  set (res := match bWriteBatch with Some _ => _ | None => _ end). enough (H : bounded res.1.1) by by destruct res as [[c1 n] er].
  unfold res. destruct bWriteBatch as [wb|]; [by apply drainBatches_bounded|].
  destruct (_ <=? 1); [by apply drainSerial_bounded|by apply drainAll_bounded].
Qed.

(** A restart brings the account up from the directory, whatever it was. *)
Lemma New_bounded rm free v c : bounded (New cfg rm free v c).1.
Proof.
  unfold New. assert (HB : bounded (scanCache cfg rm free c)).
  { unfold scanCache. apply evict_facts. assert (H0 : lru_ok (set_lru [] 0 c)) by by split; [constructor|split; [constructor|]].
    revert H0. generalize (set_lru [] 0 c). induction (readDir (clean c)) as [|id l IH]; intros c0 H0; cbn; [done|].
    apply IH, addLRU_ok; [|done]. destruct (listing (clean c0) !! id) as [raw|]; cbn; [apply len_nonneg|lia]. }
  pose proof (drain_bounded v _ HB). by destruct drainStaging.
Qed.

(** Every operation of the cache, in every environment. *)
Inductive cacheOp : DiskCache (B := B) -> DiskCache (B := B) -> Prop :=
  | co_write io id data class c : cacheOp c (CacheWrite io id data class c).1
  | co_read io id c : cacheOp c (CacheRead cfg io id c).1
  | co_batch v ids c : cacheOp c (CacheReadBatch cfg v ids c).1.1.1
  | co_remove rm1 rm2 io id c : cacheOp c (CacheRemove rm1 rm2 io id c).1
  | co_drain v c : cacheOp c (drainStaging cfg v c).1
  | co_restart c c1 rm free v : cacheCrash c c1 -> cacheOp c (New cfg rm free v c1).1.

Lemma cacheOp_bounded c c' : bounded c -> cacheOp c c' -> bounded c'.
Proof.
  intros HB Ho. destruct Ho; [|by apply read_bounded|by apply readBatch_bounded|by apply remove_bounded|by apply drain_bounded|apply New_bounded].
  destruct io; exact HB.
Qed.

(** The clean cache stays within its limits.  Opening the cache on any
    directories, and after that any sequence of writes, reads, batched reads, removes, drains
    (failing in any way) and restarts, leaves every slice at most once in the
    LRU, [curBytes] equal to the sum of the recorded sizes, that sum at most
    [MaxBytes] and the number of slices at most [MaxItems], where they are set. *)
Theorem cache_bounded rm free v c0 c :
  rtc cacheOp (New cfg rm free v c0).1 c ->
  NoDup (entId <$> lru c) /\ curBytes c = total (lru c) /\
  (0 < MaxBytes cfg -> curBytes c <= MaxBytes cfg) /\ (0 < MaxItems cfg -> len (lru c) <= MaxItems cfg).
Proof.
  intros Hr. assert (HB : bounded c).
  { revert Hr. generalize (New_bounded rm free v c0). generalize (New cfg rm free v c0).1. intros c1 H1 Hr.
    induction Hr as [|c1 c2 c3 Ho _ IH]; [done|]. apply IH. by eapply cacheOp_bounded. }
  destruct HB as ((HN & Hp & Hc) & H1 & H2). rewrite Hc. done.
Qed.
End Lru.

(** ** Witnesses *)

Definition demoCfg : Config := MkConfig 100 10 None false 1 (16 * 1024 * 1024).
Definition demoPop (w : fileWrite) : popIO := MkPop w None (fun _ => true).
Definition demoOne (up : bool) : drainIO := @MkDrain (gmap Z bytes) memChunks true QuarOk up (demoPop WriteOk) true.
Definition demoDrain (up : bool) : drainEnv := MkDrainEnv true (fun _ => demoOne up) (fun _ => up) (fun l => l).
Definition demoRead (up : bool) : readIO := @MkRead (gmap Z bytes) memChunks true true true up (demoPop WriteOk).
Definition demoEmpty : DiskCache (B := gmap Z bytes) := MkCache (MkDir ∅ []) (MkDir ∅ []) [] [] 0 ∅.
Definition demoHi : bytes := [Byte.x68; Byte.x69].

Definition cacheDemo1 := (CacheWrite StageOk 7 demoHi 0 demoEmpty).1.
Definition cacheDemo2 := (CacheWrite StageSync 8 demoHi 0 cacheDemo1).1.
Definition cacheDemo3 := (drainStaging demoCfg (demoDrain false) cacheDemo2).1.
Definition cacheDemo4 : DiskCache (B := gmap Z bytes) := MkCache (MkDir (synced (staging cacheDemo3)) []) (MkDir ∅ []) [] [] 0 ∅.
Definition cacheDemo5 := (New demoCfg (fun _ => true) None (demoDrain true) cacheDemo4).1.

Lemma no_copies id raw : ~ copies (MkDir ∅ []) id raw.
Proof. intros [H|H]; [by apply (lookup_empty_Some (M := gmap Z) id raw)|by apply elem_of_nil in H]. Qed.

Lemma demoEmpty_ok : exists G, cache_ok G demoEmpty.
Proof.
  exists ∅. split; cbn; [done|by intros id b ?%(lookup_empty_Some (M := gmap Z))|by intros id raw ?%no_copies|by intros id ?%elem_of_nil|by intros id raw data ?%no_copies].
Qed.

Lemma demoEmpty_new id : ~ ctouched demoEmpty id.
Proof. by intros [[raw ?%no_copies]|[[raw ?%no_copies]|[b H]]]. Qed.

Lemma demo1_new : ~ ctouched cacheDemo1 8.
Proof.
  intros H. apply write_touched in H as [H|H]; [done|]. by apply demoEmpty_new in H.
Qed.

Lemma demoDrain_healthy up : healthy (demoDrain up).
Proof. by split. Qed.

Lemma demo_life : rtc (cacheLife demoCfg) cacheDemo1 cacheDemo5.
Proof.
  eapply rtc_l; [exact (cl_write demoCfg StageSync 8 demoHi 0 cacheDemo1 demo1_new)|].
  eapply rtc_l; [exact (cl_step demoCfg _ _ (cs_drain demoCfg _ cacheDemo2 (demoDrain_healthy false)))|].
  apply rtc_once. refine (cl_step demoCfg _ _ (cs_restart demoCfg cacheDemo3 cacheDemo4 _ _ _ _ (demoDrain_healthy true))).
  split; [exists []; split; [apply sublist_nil_l|done]|]. split; [exists []; split; [apply sublist_nil_l|]|]; by vm_compute.
Qed.


Definition demoFull : DiskCache (B := gmap Z bytes) :=
  MkCache (MkDir ∅ []) (MkDir (list_to_map [(1, demoHi); (2, demoHi); (3, demoHi)]) []) [] [MkEntry 3 34; MkEntry 2 40; MkEntry 1 34] 108 ∅.

Lemma evict_spec_witness : lru (evict demoCfg (fun _ => true) None demoFull) = [MkEntry 3 34; MkEntry 2 40] /\
  bounded demoCfg (evict demoCfg (fun _ => true) None demoFull).
Proof.
  split; [by vm_compute|]. apply (evict_spec demoCfg (fun _ => true) None demoFull).
  split; [by apply (bool_decide_unpack _); vm_compute|]. split; [by repeat constructor|by vm_compute].
Defined.

Lemma cache_bounded_witness : curBytes (CacheRead demoCfg (demoRead true) 7 cacheDemo5).1 <= 100.
Proof.
  pose proof (cache_bounded demoCfg (fun _ => true) None (demoDrain true) cacheDemo4 (CacheRead demoCfg (demoRead true) 7 cacheDemo5).1
    (rtc_once _ _ (co_read demoCfg (demoRead true) 7 cacheDemo5))) as (_ & _ & H & _).
  by apply H.
Defined.

(** ** A read that fails once *)

(** A drain whose read of the staging file of slice 7 fails. *)
Definition badRead : drainEnv (B := gmap Z bytes) :=
  MkDrainEnv true (fun _ => MkDrain false QuarOk true (demoPop WriteOk) true) (fun _ => true) (fun l => l).

Definition alertCfg : Config := MkConfig 100 10 None true 1 (16 * 1024 * 1024).

(** A drain takes any failure to read a staging file for corruption.  Slice
    7 has been written and acknowledged; its file is intact.  One failed read
    of it in a drain (with a corruption handler installed the drain still
    reports success) moves the intact file to corrupt/, and from then on reads
    of the slice fail although the disk and the backing store are up. *)
Theorem read_error_quarantines :
  let c := (drainStaging alertCfg badRead cacheDemo1).1 in
  (CacheWrite StageOk 7 demoHi 0 demoEmpty).2 = None /\
  (CacheRead alertCfg (demoRead true) 7 cacheDemo1).2 = Ok demoHi /\
  (drainStaging alertCfg badRead cacheDemo1).2 = None /\
  (snd <$> corrupt c) ≫= (fun raw => option_list (readStaged raw)) = [(Byte.x00, demoHi)] /\
  is_ok (CacheRead alertCfg (demoRead true) 7 c).2 = false.
Proof. by vm_compute. Qed.
