(* ===== verification/CasStore.v ===== *)
(** Slices in casstore (mlfs/internal/chunkstore/chunkstore.go): the slice
    store mlfs keeps its data in, each slice a snapshot under the key [s/<id>].

    The operations are those of [ChunkedWrite] and [ChunkedRead] under these
    keys.  [sliceKey] and [parseSliceKey] are inverse to each other, so the
    slices of a store are its snapshots.  [CasWrite_slice] and
    [CasWriteBatch_slices] are what a write leaves, [CasRead_slice] that it reads
    back, [CasRemove_snaps] what a removal takes. *)

From S2P Require Import Prelude GoStrings Decimal Sha256 PackFormat BlobStore Manifest SnapStore DedupIndex Reclaim ChunkedRead ChunkedWrite PutSpec PutGet BatchSpec BatchGet GC GCSpec MetaOps Lifecycle.
From Stdlib Require Import Ascii.
From S2P Require Import DiskCache.

Definition ClassDefault : Z := 0.
Definition ClassUncompressed : Z := 1.

Definition sliceKey (id : Z) : SnapshotKey := MkKey "" "" "" ("s/" +:+ FormatUint id).

(** [strings.CutPrefix(ownerKey, "s/")], then [ParseUint]. *)
Definition parseSliceKey (ownerKey : string) : option Z :=
  match ownerKey with
  | String "s"%char (String "/"%char rest) => ParseUint rest
  | _ => None
  end.

Definition metaForClass (class : Z) : SnapshotMetadata :=
  MkMeta (MkKey "" "" "" "") "" 0 0 "" ""
    (if class =? ClassUncompressed then {["store_uncompressed" := "1"]} else ∅).

Section CasStore.
  Context {Clib : CodecLib} {Sto : Storage} {U : SnapshotStore} {D : DedupStore} {Sp : Splitter} {J : ManifestCodec}.
  Variable cs : ChunkedStore.

Definition errOf {A} (r : result A) : option err := match r with Ok _ => None | Err e => Some e end.

(** [bytes.NewReader(data)], as the put's read loop sees it. *)
Definition reader (data : bytes) : rdStream := bytesReader (length data) data.

Definition CasWrite (id : Z) (data : bytes) (class : Z) (w : world) : world * option err :=
  let '(w, r) := Put cs w (sliceKey id) (metaForClass class) (reader data) in (w, errOf r).

Definition CasWriteBatch (items : list BatchItem) (w : world) : world * option err :=
  match items with
  | [] => (w, None)
  | _ => let batch := (fun it => ChunkedWrite.MkItem (sliceKey (bID it)) (metaForClass (bClass it)) (bData it)) <$> items in
         let '(w, r) := PutBatch cs w batch in (w, errOf r)
  end.

(** [RegisterSlice] and [SliceChunks]: the manifest only. *)
Definition RegisterSlice (id : Z) (chunks : list ChunkLocation) (class : Z) (u : sstore) : sstore * option err :=
  let '(u, r) := RegisterManifest cs u (sliceKey id) (metaForClass class) chunks in (u, errOf r).

Definition SliceChunks (id : Z) (u : sstore) : result (list ChunkLocation) := ManifestChunks u (sliceKey id).

(** [Read]: [io.ReadAll] on the latest version; [sz] are the sizes it reads
    with, [fuel] bounds the reads. *)
Definition CasRead (fuel : nat) (sz : nat -> nat) (fc : gmap string packFraming) (id : Z) (w : world) : option (result bytes) :=
  match GetLatest fc w (sliceKey id) with
  | Err e => Some (Err e)
  | Ok (rd, _) => (readAllFrom fuel (wBlobs w) rd sz 0).2
  end.

Definition CasReadAt (fuel : nat) (sz : nat -> nat) (fc : gmap string packFraming) (id off n : Z) (w : world) : option (result bytes) :=
  match CasRead fuel sz fc id w with
  | Some (Ok data) => Some (Ok (if len data <=? off then [] else slice data off (Z.min (off + n) (len data))))
  | r => r
  end.

(** [ReadBatch]: [korder], [border] and [rorder] are the orders in which the
    batched read and the loop over its result range over their maps. *)
Definition CasReadBatch (korder : list (SnapshotKey * bytes) -> list (SnapshotKey * bytes)) (border : list packBucket -> list packBucket)
  (rorder : list (SnapshotKey * bytes) -> list (SnapshotKey * bytes)) (bg : batchGetter) (fc : gmap string packFraming) (ids : list Z) (w : world)
  : gmap string packFraming * result (gmap Z bytes * BatchReadStats) :=
  match ids with
  | [] => (fc, Ok (∅, MkStats 0 0))
  | _ =>
      let byKey : gmap SnapshotKey Z := foldl (fun m id => <[sliceKey id := id]> m) ∅ ids in
      match GetLatestBatch korder border bg fc (wBlobs w) (wUps w) (sliceKey <$> ids) with
      | (fc, Err e) => (fc, Err e)
      | (fc, Ok (res, stats)) =>
          (fc, Ok (foldl (fun out kb => match byKey !! kb.1 with Some id => <[id := kb.2]> out | None => out end) ∅ (rorder (map_to_list res)), stats))
      end
  end.

Definition CasExists (id : Z) (u : sstore) : result bool :=
  match sGetLatestMetadata u (sliceKey id) with
  | Ok _ => Ok true
  | Err e => if bool_decide (e = ErrNoSnapshot) then Ok false else Err e
  end.

(** The rows [fn] is called with. *)
Definition sliceIdOf (x : SnapshotKey * string * SnapshotMetadata) : option (Z * Z) :=
  (fun id => (id, CreatedAt x.2)) <$> parseSliceKey (OwnerKey x.1.1).

Definition WalkSliceIDs (u : sstore) : list (Z * Z) * option err :=
  let '(rows, e) := sWalk u in (omap sliceIdOf rows, e).

Fixpoint deleteVersions (key : SnapshotKey) (versions : list string) (u : sstore) : sstore * option err :=
  match versions with
  | [] => (u, None)
  | v :: versions => match sDelete u key v with
                     | (u, Err e) => (u, Some e)
                     | (u, Ok _) => deleteVersions key versions u
                     end
  end.

Definition CasRemove (id : Z) (u : sstore) : sstore * option err :=
  match sList u (sliceKey id) with
  | Ok l => deleteVersions (sliceKey id) (Version <$> l) u
  | Err e => if bool_decide (e = ErrNoSnapshot) then (u, None) else (u, Some e)
  end.
End CasStore.

(** ** Keys *)

Lemma parseSliceKey_sliceKey id : 0 <= id < 2 ^ 64 -> parseSliceKey (OwnerKey (sliceKey id)) = Some id.
Proof. intros H. apply ParseUint_format; lia. Qed.

Lemma parseSliceKey_range s id : parseSliceKey s = Some id -> 0 <= id < 2 ^ 64.
Proof.
  intros H. assert (exists r, ParseUint r = Some id) as [r Hr]; [|by apply ParseUint_digit in Hr as (? & ? & _ & _ & ?)].
  unfold parseSliceKey in H. destruct s as [|a [|b rest]]; [done| |]; repeat (case_match; try discriminate H); by exists rest.
Qed.

Lemma sliceKey_inj id id' : 0 <= id < 2 ^ 64 -> 0 <= id' < 2 ^ 64 -> sliceKey id = sliceKey id' -> id = id'.
Proof.
  intros H H' E. apply (f_equal (fun k => parseSliceKey (OwnerKey k))) in E. rewrite !parseSliceKey_sliceKey in E by done. by injection E.
Qed.

(** ** Slices *)

Section Slices.
  Context {Clib : CodecLib} {Claws : CodecLaws} {Sto : Storage} {L : StorageLaws Sto}
          {U : SnapshotStore} {SL : SnapshotStoreLaws U} {SR : SnapshotStoreReliable U}
          {D : DedupStore} {DL : DedupStoreLaws D} {A : PackAssocStore D}
          {Sp : Splitter} {Spl : SplitterLaws Sp} {J : ManifestCodec} {JL : ManifestCodecLaws}.
  Variable cs : ChunkedStore.

(** The slice has a manifest, and every version of it holds these bytes. *)
Definition slice_at (w : world) (id : Z) (data : bytes) : Prop :=
  (exists v, is_Some (snaps (wUps w) !! (sliceKey id, v))) /\
  forall v b md, snaps (wUps w) !! (sliceKey id, v) = Some (b, md) -> holds w (sliceKey id) v md data.

(** Nothing is stored under the id, or the same bytes. *)
Definition slice_free (w : world) (id : Z) (data : bytes) : Prop :=
  slice_at w id data \/ forall v, snaps (wUps w) !! (sliceKey id, v) = None.

(** Versions come to a slice only with its bytes. *)
Lemma slice_at_grow w w' id data :
  blobs (wBlobs w) ⊆ blobs (wBlobs w') -> slice_free w id data -> (exists v, is_Some (snaps (wUps w') !! (sliceKey id, v))) ->
  (forall v b md, snaps (wUps w') !! (sliceKey id, v) = Some (b, md) ->
     snaps (wUps w) !! (sliceKey id, v) = Some (b, md) \/ holds w' (sliceKey id) v md data) ->
  slice_at w' id data.
Proof.
  intros Hb Hf Hex Hv. split; [done|]. intros v b md H. destruct (Hv v b md H) as [Ho|]; [|done].
  destruct Hf as [[_ Hf]|Hf]; [|by rewrite Hf in Ho]. eapply holds_mono; [left|exact Hb|by eapply Hf]. by rewrite H, Ho.
Qed.

Lemma CasWrite_slice id data class w w' :
  put_ready cs w (sliceKey id) (metaForClass class) (chunksOf (reader data)) -> json_safe (domainFor cs (sliceKey id)) ->
  slice_free w id data -> CasWrite cs id data class w = (w', None) -> slice_at w' id data.
Proof.
  intros Hr Hj Hf. unfold CasWrite. destruct (Put cs w (sliceKey id) (metaForClass class) (reader data)) as [w1 [md'|e]] eqn:Hp; [|done].
  intros [= <-]. destruct (holds_put cs w _ _ _ w1 md' Hr Hj Hp) as (d & Hin & Hh).
  unfold reader in Hin. rewrite (bytesReader_input (length data) data) in Hin by done. injection Hin as <-.
  destruct (Put_adds _ _ _ _ _ _ _ Hp) as (Hb & _ & _). destruct (Put_upstream _ _ _ _ _ _ _ Hp) as (md0 & b0 & Hu & _).
  apply sput_ok in Hu as (_ & Hu & _). eapply slice_at_grow; [done|done|exists (Version md'); by rewrite Hu, lookup_insert_eq|].
  intros v b md H. rewrite Hu in H. apply lookup_insert_Some in H as [[[= <-] [= <- <-]]|[_ ?]]; [by right|by left].
Qed.

Lemma CasWriteBatch_slices dom its w w' it :
  world_ok w -> batch_conditions cs dom w ((fun it => ChunkedWrite.MkItem (sliceKey (bID it)) (metaForClass (bClass it)) (bData it)) <$> its) ->
  json_safe dom -> Forall (fun it => 0 <= bID it < 2 ^ 64) its -> NoDup (bID <$> its) ->
  CasWriteBatch cs its w = (w', None) -> it ∈ its -> slice_free w (bID it) (bData it) -> slice_at w' (bID it) (bData it).
Proof.
  intros Hw Hc Hj Hr HN. unfold CasWriteBatch. set (batch := _ <$> its) in *. intros Hp Hit Hf.
  assert (Hb : exists mds, PutBatch cs w batch = (w', Ok mds)).
  { destruct its as [|i0 its]; [by apply elem_of_nil in Hit|]. fold batch in Hp. destruct (PutBatch cs w batch) as [w1 [mds|e]]; [|done].
    injection Hp as <-. by exists mds. }
  clear Hp. destruct Hb as [mds Hp]. pose proof (PutBatch_written cs dom w batch w' mds Hc Hp) as Hwr.
  destruct (batch_world cs dom w batch w' (Ok mds) Hw Hc Hj Hp) as (_ & Hbl & _ & Hnew & _).
  eapply slice_at_grow; [done|done| |].
  - apply list_elem_of_lookup in Hit as [i Hi].
    assert (Hbi : batch !! i = Some (ChunkedWrite.MkItem (sliceKey (bID it)) (metaForClass (bClass it)) (bData it))) by (unfold batch; by rewrite list_lookup_fmap, Hi).
    destruct (Forall2_lookup_l _ _ _ _ _ Hwr Hbi) as (md & _ & m & _ & Hs). exists (Version md). exact (mk_is_Some _ _ Hs).
  - intros v b md H. destruct (Hnew _ v b md H) as [?|(m & it' & Hin & Hk & Hm & -> & Hu & _)]; [by left|right].
    apply list_elem_of_fmap in Hin as (it2 & -> & Hin). rewrite Forall_forall in Hr. cbn in Hk.
    apply sliceKey_inj in Hk; [|by apply Hr..]. assert (it2 = it) as ->.
    { apply list_elem_of_lookup in Hin as [i1 H1]. apply list_elem_of_lookup in Hit as [i2 H2].
      assert (i1 = i2) as ->; [|congruence]. eapply (NoDup_lookup (bID <$> its)); [done|by rewrite list_lookup_fmap, H1|rewrite list_lookup_fmap, H2; cbn; congruence]. }
    destruct Hm as (Hfm & Ht & Hcs). exists (json_Marshal m), m, (itemChunks (ChunkedWrite.MkItem (sliceKey (bID it)) (metaForClass (bClass it)) (bData it))).
    split; [done|]. split; [done|]. split; [done|]. split; [by rewrite Ht|]. apply item_concat.
Qed.

(** A slice reads back, given enough reads. *)
Lemma CasRead_slice {Rel : StorageReliable Sto} fc w id data sz :
  slice_at w id data -> cache_ok (wBlobs w) fc -> (forall i, 0 < sz i)%nat ->
  exists n, forall fuel, (n < fuel)%nat -> CasRead fuel sz fc id w = Some (Ok data).
Proof.
  intros [[v Hv] Hall] Hfc Hsz. destruct (slatest_total (wUps w) (sliceKey id) v Hv) as (b & md & Hl).
  pose proof (slatest_sound _ _ _ _ Hl) as (b' & Hb & Hbb & _). assert (b' = b) as -> by (destruct Hbb as [[= ->]|[e ?]]; done).
  destruct (Hall _ _ _ Hb) as (b2 & m & ch & Hin & Hj & Hf & Hr & <-). rewrite Hb in Hin. injection Hin as <-.
  destruct (openManifest_backed fc (wBlobs w) b m md ch Hj Hf Hr Hfc) as (rd & Ho & Hrd).
  exists (length (concat ch) + length (Chunks (rManifest rd)))%nat. intros fuel Hfuel. unfold CasRead, GetLatest.
  rewrite Hl. cbn [mbind result_bind]. rewrite Ho. destruct (Hrd sz fuel Hsz Hfuel) as [rd' ->]. done.
Qed.

(** What a batch read has under an id is what a single read of it yields. *)
Lemma byKey_spec ids k id : foldl (fun (m : gmap SnapshotKey Z) id => <[sliceKey id := id]> m) ∅ ids !! k = Some id -> k = sliceKey id /\ id ∈ ids.
Proof.
  induction ids as [|x ids IH] using rev_ind; [done|]. rewrite foldl_app. cbn. rewrite elem_of_app, list_elem_of_singleton.
  intros [[<- <-]|[_ H]]%lookup_insert_Some; [auto|]. destruct (IH H). auto.
Qed.

Lemma rekey_spec (byKey : gmap SnapshotKey Z) l : forall (out : gmap Z bytes) id b,
  foldl (fun (out : gmap Z bytes) (kb : SnapshotKey * bytes) => match byKey !! kb.1 with Some id => <[id := kb.2]> out | None => out end) out l !! id = Some b ->
  out !! id = Some b \/ exists k, (k, b) ∈ l /\ byKey !! k = Some id.
Proof.
  induction l as [|[k x] l IH]; intros out id b H; [by left|]. cbn in H. apply IH in H as [H|(k' & Hin & Hk)]; [|right; exists k'; split; [by right|done]].
  destruct (byKey !! k) as [j|] eqn:E; [|by left]. apply lookup_insert_Some in H as [[-> ->]|[_ H]]; [|by left]. right. exists k. split; [by left|done].
Qed.

Lemma CasReadBatch_agrees korder border rorder bg fc ids w fc' out st id data fc1 :
  (forall l, (korder l) ≡ₚ l) -> (forall l, (border l) ≡ₚ l) -> (forall l, (rorder l) ≡ₚ l) -> getter_ok bg ->
  CasReadBatch korder border rorder bg fc ids w = (fc', Ok (out, st)) -> out !! id = Some data ->
  id ∈ ids /\ forall fuel sz data', CasRead fuel sz fc1 id w = Some (Ok data') ->
    data' = data \/ exists x y, x <> y /\ sha256_hex x = sha256_hex y.
Proof.
  intros Hk Hb Hr Hg H Hout. unfold CasReadBatch in H. destruct ids as [|i0 ids]; [by injection H as <- <- <-|]. set (all := i0 :: ids) in *.
  destruct (GetLatestBatch korder border bg fc (wBlobs w) (wUps w) (sliceKey <$> all)) as [fc2 [[res st2]|e]] eqn:E; [|done]. injection H as <- <- <-.
  apply rekey_spec in Hout as [Hout|(k & Hin & Hby)]; [by rewrite lookup_empty in Hout|]. rewrite Hr in Hin. apply elem_of_map_to_list in Hin.
  apply (byKey_spec all) in Hby as [-> Hid]. split; [done|].
  destruct (batch_reads_agree korder border bg fc (wBlobs w) (wUps w) (wDedup w) (sliceKey <$> all) fc2 res st2 (sliceKey id) data fc1 Hk Hb Hg E Hin) as (_ & rd & md & Hl & Hrd).
  destruct w as [s u d]. cbn in *. intros fuel sz data'. unfold CasRead. rewrite Hl. cbn [wBlobs]. destruct (readAllFrom fuel s rd sz 0) as [rd' o] eqn:Ea.
  cbn. intros ->. by apply (Hrd fuel sz rd').
Qed.

(** ** Removal *)

Lemma deleteVersions_snaps key vs : forall u u' e, deleteVersions key vs u = (u', e) ->
  snaps u' ⊆ snaps u /\ (forall k v, (k, v) ∉ (key,.) <$> vs -> snaps u' !! (k, v) = snaps u !! (k, v)) /\
  (e = None -> forall v, v ∈ vs -> snaps u' !! (key, v) = None).
Proof.
  induction vs as [|v vs IH]; intros u u' e; cbn; [intros [= <- <-]; split; [done|]; split; [done|]; by intros _ v ?%elem_of_nil|].
  destruct (sDelete u key v) as [u1 [[]|e1]] eqn:Hd.
  - apply sdelete_ok in Hd. intros Hr. destruct (IH _ _ _ Hr) as (I1 & I2 & I3). rewrite Hd in I1. split; [|split].
    + etransitivity; [exact I1|apply delete_subseteq].
    + intros k v' Hk. apply not_elem_of_cons in Hk as [Hk1 Hk2]. rewrite I2 by done. rewrite Hd, lookup_delete_ne; [done|congruence].
    + intros He v' [->|Hv]%elem_of_cons; [|by apply I3]. destruct (snaps u' !! (key, v)) eqn:E; [|done].
      eapply lookup_weaken in E; [|exact I1]. by rewrite lookup_delete_eq in E.
  - intros [= <- <-]. apply sdelete_err in Hd as [->| ->]; (split; [done || apply delete_subseteq|]); (split; [|done]); [done|].
    intros k v' Hk. apply not_elem_of_cons in Hk as [Hk _]. rewrite lookup_delete_ne; [done|congruence].
Qed.

(** A removal takes versions of its slice only, and when it succeeds all of them. *)
Lemma CasRemove_snaps id u u' e : CasRemove id u = (u', e) ->
  snaps u' ⊆ snaps u /\ (forall k v, k <> sliceKey id -> snaps u' !! (k, v) = snaps u !! (k, v)) /\
  (e = None -> (forall v, snaps u' !! (sliceKey id, v) = None) \/ sList u (sliceKey id) = Err ErrNoSnapshot /\ u' = u).
Proof.
  unfold CasRemove. destruct (sList u (sliceKey id)) as [l|e0] eqn:Hl.
  - intros Hr. destruct (deleteVersions_snaps _ _ _ _ _ Hr) as (I1 & I2 & I3). split; [done|]. split.
    + intros k v Hk. apply I2. intros (v' & [= -> _] & _)%list_elem_of_fmap. done.
    + intros He. left. intros v. destruct (snaps u' !! (sliceKey id, v)) eqn:E; [|done]. assert (Hin : v ∈ Version <$> l).
      { apply (slist_sound _ _ _ Hl). eapply lookup_weaken in E; [|exact I1]. by rewrite E. }
      by rewrite (I3 He v Hin) in E.
  - destruct (bool_decide_reflect (e0 = ErrNoSnapshot)) as [->|]; intros [= <- <-]; (split; [done|]); (split; [done|]); [|done].
    intros _. by right.
Qed.
End Slices.
