(* ===== verification/WalReplay.v ===== *)
(** Recovery of file writes from the log (mlfs/internal/fileio/replay.go).

    [replay_recovers]: replaying a log of writes brings in exactly the writes
    whose metadata transaction was lost, and changes nothing else.

    With truncates in the log that is no longer so: a truncate is not
    idempotent when later writes have been committed, and the current segment of
    the log is replayed at every start.  [replay_truncate_loses] is the run. *)

From S2P Require Import Prelude GoStrings Overlay Wal MetaDb FileMeta FileIO FileSpec FileRefine.

(** The row a write record stands for. *)
Definition recRow (r : Record_) : sliceRow :=
  MkRow (rIno r) (rIndx r) (MkSlice (rOff r) (SliceID r) (rSize r) (SliceOff r) (SliceLen r)).

(** A record of [Files.Write] whose slice is in the store. *)
Record write_rec (sv : Z -> option bytes) (r : Record_) (b : bytes) : Prop := {
  wr_op : Op r = OpWrite;
  wr_stored : sv (SliceID r) = Some b;
  wr_nonempty : b <> [];
  wr_len : rSize r = len b /\ SliceOff r = 0 /\ SliceLen r = len b;
  wr_indx : 0 <= rIndx r < 2 ^ 31;
  wr_pos : 0 <= rOff r /\ rOff r + len b <= ChunkSize;
  wr_id : 1 <= SliceID r }.

Definition committed (d : db) (r : Record_) : Prop := exists x, x ∈ slice_ref d /\ rowKey x = (rIno r, SliceID r).

(** The write a record stands for, on byte sequences. *)
Definition redo (sv : Z -> option bytes) (A : afs) (r : Record_) : afs :=
  match A !! rIno r, sv (SliceID r) with
  | Some l, Some b => <[rIno r := overwrite l (rIndx r * ChunkSize + rOff r) b]> A
  | _, _ => A
  end.

Definition is_file (d : db) (i : Z) : Prop := exists a, node d !! i = Some a /\ Typ a = TypeFile.

Lemma checkpointSegs_up upTo d ss keep : exists d' keep', checkpointSegs ioUp upTo d ss keep = (d', Ok keep').
Proof.
  revert d keep. induction ss as [|s ss IH]; intros d keep; cbn; [eauto|].
  destruct (_ && _); [|apply IH]. destruct (d !! path s); apply IH.
Qed.

Section Replay.
  Context (sv : Z -> option bytes) (v : nat -> menv).
  Hypothesis Hup : forall k, Enabled (v k) = false /\ mfate (v k) = Commits.

Lemma replayOne_write r m res k :
  Op r = OpWrite -> forall d', writeBody (mnow (v k)) (rIno r) (rIndx r) (rOff r) (srRef (recRow r)) (mdb m) = TxOk d' ->
  replayOne v r (m, res, k) = (set_db d' m, MkReplay (Applied res + 1) (Skipped res), (k + 1)%nat, None).
Proof.
  intros Ho d' Hb. unfold replayOne. rewrite Ho. cbn [Z.eqb OpWrite Pos.eqb]. unfold MetaWrite. destruct (Hup k) as [He Hf].
  rewrite mutating_single, Hf by done. unfold withTx. unfold writeBody in *. cbn in Hb |- *. by rewrite Hb.
Qed.

(** A committed record changes nothing. *)
Lemma replay_committed r b m res k :
  write_rec sv r b -> committed (mdb m) r -> is_file (mdb m) (rIno r) ->
  replayOne v r (m, res, k) = (m, MkReplay (Applied res + 1) (Skipped res), (k + 1)%nat, None).
Proof.
  intros [Ho Hs Hn (H1 & H2 & H3) Hi Hp Hid] (x & Hx & Hk) (a & Ha & Ht). pose proof ChunkSize_val. pose proof (len_nonneg b).
  rewrite (replayOne_write _ _ _ _ Ho (mdb m)); [by destruct m|]. unfold writeBody. rewrite Ha, Ht. change (TypeFile =? TypeFile) with true.
  cbn. replace (negb _) with false.
  - replace (existsb _ _) with true; [done|]. symmetry. apply existsb_exists. exists x. split; [by apply list_elem_of_In|].
    unfold conflicts. injection Hk as Hk1 Hk2. cbn. by rewrite Hk1, Hk2, !Z.eqb_refl.
  - symmetry. apply negb_false_iff. unfold int4. rewrite H1, H2, H3. repeat (rewrite ?andb_true_iff, ?Z.leb_le, ?Z.ltb_lt). lia.
Qed.

(** A missing one is applied. *)
Lemma replay_missing r b m res k :
  write_rec sv r b -> fs_ok sv (eng m) (mdb m) -> used (eng m) (mdb m) (SliceID r) ->
  Forall (fun x => Id (srRef x) <> SliceID r) (slice_ref (mdb m)) -> is_file (mdb m) (rIno r) ->
  exists d', replayOne v r (m, res, k) = (set_db d' m, MkReplay (Applied res + 1) (Skipped res), (k + 1)%nat, None) /\
    fs_ok sv (eng m) d' /\ contents sv d' = redo sv (contents sv (mdb m)) r /\ nextslice d' = nextslice (mdb m) /\
    slice_ref d' = slice_ref (mdb m) ++ [recRow r] /\ (forall i, is_file (mdb m) i -> is_file d' i).
Proof.
  intros [Ho Hs Hn (H1 & H2 & H3) Hi Hp Hid] Hok Hu Hf (a & Ha & Ht). pose proof ChunkSize_val. pose proof (len_nonneg b).
  assert (Hrow : srRef (recRow r) = MkSlice (rOff r) (SliceID r) (len b) 0 (len b)) by (unfold recRow; cbn; by rewrite H1, H2, H3).
  destruct (writeBody_up (mnow (v k)) (rIno r) (rIndx r) (rOff r) (srRef (recRow r)) (mdb m) a Ha Ht) as (d' & _ & Hb & _).
  { rewrite Hrow. cbn. unfold int4. repeat (rewrite ?andb_true_iff, ?Z.leb_le, ?Z.ltb_lt). lia. }
  exists d'. split; [by apply replayOne_write|].
  destruct (writeBody_ok _ _ _ _ _ _ _ Hb) as (cur & Hc & Hnd & Hsl & Hx); [by rewrite Hrow|rewrite Hrow; cbn; nia|].
  assert (Hb' : writeBody (mnow (v k)) (rIno r) (rIndx r) (rOff r) (MkSlice 0 (SliceID r) (len b) 0 (len b)) (set_ownership (ownership (mdb m)) (mdb m)) = TxOk d').
  { rewrite <- Hb, Hrow. by destruct (mdb m). }
  destruct (write_applied _ _ _ _ _ _ _ _ _ b _ Hok Hb') as (Hok' & Hw & _); try done; [lia..|].
  split_and!; [done| |done| |].
  - unfold redo. rewrite Hs, contents_lookup, Ha. cbn. destruct b as [|y b]; [done|]. destruct Hw as (l & Hl & ->).
    rewrite contents_lookup, Ha in Hl. by injection Hl as <-.
  - by rewrite Hsl.
  - intros i (a' & Ha' & Ht'). destruct (decide (i = rIno r)) as [->|Hne].
    + eexists. rewrite Hnd, lookup_insert_eq. split; [done|]. by simplify_eq.
    + exists a'. by rewrite Hnd, lookup_insert_ne.
Qed.

Lemma replay_done rs m res k :
  Forall (fun r => (exists b, write_rec sv r b) /\ committed (mdb m) r /\ is_file (mdb m) (rIno r)) rs ->
  replayRecords (replayOne v) rs (m, res, k) = (m, MkReplay (Applied res + len rs) (Skipped res), (k + length rs)%nat, None).
Proof.
  revert res k. induction rs as [|r rs IH]; intros res k HF; cbn [replayRecords].
  - change (len []) with 0. rewrite Z.add_0_r, Nat.add_0_r. by destruct res.
  - apply Forall_cons in HF as [([b Hr] & Hc & Hf) HF]. rewrite (replay_committed r b) by done. rewrite IH by done. cbn [Applied Skipped length].
    rewrite len_cons, <- Z.add_assoc. by replace (k + 1 + length rs)%nat with (k + S (length rs))%nat by lia.
Qed.

Lemma replay_rest rs m res k :
  fs_ok sv (eng m) (mdb m) -> NoDup (SliceID <$> rs) ->
  Forall (fun r => (exists b, write_rec sv r b) /\ used (eng m) (mdb m) (SliceID r) /\ is_file (mdb m) (rIno r) /\
                   Forall (fun x => Id (srRef x) <> SliceID r) (slice_ref (mdb m))) rs ->
  exists d', replayRecords (replayOne v) rs (m, res, k) = (set_db d' m, MkReplay (Applied res + len rs) (Skipped res), (k + length rs)%nat, None) /\
    fs_ok sv (eng m) d' /\ contents sv d' = fold_left (redo sv) rs (contents sv (mdb m)).
Proof.
  revert m res k. induction rs as [|r rs IH]; intros m res k Hok HN HF; cbn [replayRecords].
  - exists (mdb m). split; [|done]. change (len []) with 0. rewrite Z.add_0_r, Nat.add_0_r. by destruct res, m.
  - apply Forall_cons in HF as [([b Hr] & Hu & Hf & Hn) HF]. apply NoDup_cons in HN as [Hnin HN].
    destruct (replay_missing r b m res k Hr Hok Hu Hn Hf) as (d1 & -> & Hok1 & Hc1 & Hx & Hs & Hfi).
    destruct (IH (set_db d1 m) (MkReplay (Applied res + 1) (Skipped res)) (k + 1)%nat Hok1 HN) as (d' & -> & Hok' & Hc').
    + apply Forall_forall. intros r' Hr'. rewrite Forall_forall in HF. destruct (HF r' Hr') as (Hb' & Hu' & Hf' & Hn'). split_and!; [done| |by apply Hfi|].
      * unfold used in *. cbn. by rewrite Hx.
      * cbn. rewrite Hs. apply Forall_app. split; [done|]. apply Forall_singleton. cbn. intros E. apply Hnin. rewrite E. by apply list_elem_of_fmap_2.
    + exists d'. split; [|split; [done|]; cbn [fold_left]; by rewrite <- Hc1]. cbn [Applied Skipped length].
      rewrite len_cons, <- Z.add_assoc. by replace (k + 1 + length rs)%nat with (k + S (length rs))%nat by lia.
Qed.
End Replay.


(** A write staged and logged, its transaction lost; the next start brings it
    back. *)
Definition lostV (k : nat) : wenv (gmap Z bytes) :=
  MkWEnv (S := gmap Z bytes) true true ioUp (MkEnv false noopOwner 0 Fails (MkNow 7 0)).
Definition startWal : option (WAL * wdir) :=
  match Open ioUp 4096 ∅ with (d, Ok w) => Some (w, d) | _ => None end.
Definition crashed : files (gmap Z bytes) :=
  (Write lostV 2 1 [Byte.x62] 0 (Write demoV 2 0 [Byte.x61] 0 (MkFiles (freshMeta [2]) ∅ startWal)).1).1.
(** The database after the crash, seen by a new engine, and the log as the
    new process opens it. *)
Definition restarted : meta := MkMeta (OpenEngine 0 1 "") (mdb (fmeta crashed)).
Definition reopened : WAL * wdir :=
  match fwal crashed with
  | Some (_, wd) => match Open ioUp 4096 wd with (wd, Ok w) => (w, wd) | (wd, Err _) => (MkWAL 0 0 [] None 0, wd) end
  | None => (MkWAL 0 0 [] None 0, ∅)
  end.

(** What [Replay] hands over, when every segment can be opened. *)
Lemma replay_flat {St} (fn : Record_ -> St -> St * option err) w wd st :
  Forall (fun s => is_Some (wd !! path s)) (segs w) ->
  Replay fn ioUp w wd st = replayRecords fn (mjoin ((fun s => from_option (fun f => records (content f)) [] (wd !! path s)) <$> segs w)) st.
Proof.
  unfold Replay. generalize (segs w). intros ss. revert st. induction ss as [|s ss IH]; intros st HF; [done|].
  apply Forall_cons in HF as [[f Hf] HF]. cbn. unfold replaySegment. rewrite Hf. cbn [from_option ioUp openOk].
  set (rest := mjoin _) in *. generalize (records (content f)). intros rs. revert st. induction rs as [|r rs IHr]; intros st; cbn; [auto|].
  destruct (fn r st) as [st1 [e|]]; auto.
Qed.

Lemma crashed_ok : files_ok crashed.
Proof.
  unfold crashed. set (f0 := MkFiles _ _ _). assert (H0 : files_ok f0) by (apply files_init; [done|]; intros id [x Hx]; by rewrite lookup_empty in Hx).
  destruct (Write demoV 2 0 [Byte.x61] 0 f0) as [f1 [n1 e1]] eqn:E1.
  destruct (Write_ok _ _ _ _ _ _ _ _ _ E1 H0) as [H1 _]; [lia|vm_compute; done|]. cbn [fst].
  destruct (Write lostV 2 1 [Byte.x62] 0 f1) as [f2 [n2 e2]] eqn:E2.
  destruct (Write_ok _ _ _ _ _ _ _ _ _ E2 H1) as [H2 _]; [lia|vm_compute; done|]. exact H2.
Qed.


(** ** Truncates in the log *)

Definition demoM : menv := MkEnv false noopOwner 0 Commits (MkNow 7 0).
Definition abc : bytes := [Byte.x61; Byte.x62; Byte.x63].
Definition xyz : bytes := [Byte.x78; Byte.x79; Byte.x7a].

(** "abc" written, cut to one byte, "xyz" written over it; every call
    succeeds. *)
Definition beforeStop : files (gmap Z bytes) :=
  (Write demoV 2 0 xyz 0 (Truncate ioUp demoM 2 1 (Write demoV 2 0 abc 0 (MkFiles (freshMeta [2]) ∅ startWal)).1).1).1.

(** Close the log, open it in the next process, replay. *)
Definition nextStart : meta * (ReplayResult * option err) :=
  match fwal beforeStop with
  | Some (w, wd) =>
      match WClose ioUp w wd with
      | (_, wd, _) =>
          match Open ioUp 4096 wd with
          | (wd, Ok w) => let '(m, _, r) := ReplayWAL ioUp (fun _ => demoM) w wd (MkMeta (OpenEngine 0 1 "") (mdb (fmeta beforeStop))) in (m, r)
          | (_, Err e) => (fmeta beforeStop, (MkReplay 0 0, Some e))
          end
      end
  | None => (fmeta beforeStop, (MkReplay 0 0, None))
  end.

(** Replay is not idempotent when the log holds a truncate: a file holds
    "xyz" when the process stops cleanly, every write committed; the next
    start replays the log, reports success, and the file holds "x". *)
Theorem replay_truncate_loses :
  fcontents beforeStop !! 2 = Some xyz /\ nextStart.2 = (MkReplay 3 0, None) /\
  contents (sview (fchunks beforeStop)) (mdb nextStart.1) !! 2 = Some [Byte.x78].
Proof. vm_compute. done. Qed.
