(* ===== verification/FileScenarios.v ===== *)
(** Runs of the data path that lose or misplace bytes. *)

From S2P Require Import Prelude GoStrings Overlay Wal MetaDb FileMeta FileIO FileSpec FileRefine.

Definition oneV (k : nat) : wenv (gmap Z bytes) :=
  MkWEnv (S := gmap Z bytes) true true ioUp (MkEnv false noopOwner 0 Commits (MkNow 7 0)).
Definition oneR : renv (gmap Z bytes) := MkREnv (S := gmap Z bytes) true (fun _ => true) (fun _ _ => true).
Definition oneM : menv := MkEnv false noopOwner 0 Commits (MkNow 7 0).
Definition oneC (k : nat) : cenv (gmap Z bytes) := MkCEnv (S := gmap Z bytes) oneR oneV oneM id.

Definition two : files (gmap Z bytes) := MkFiles (freshMeta [2; 3]) ∅ None.

(** "a" at the start of file 2. *)
Definition withA : files (gmap Z bytes) := (Write oneV 2 0 [Byte.x61] 0 two).1.

(** The chunk index is cut to 32 bits: a write of one byte at offset 2^58
    reports success and lands on byte 0 of the file, over what was there, and
    the file does not grow. *)
Theorem write_offset_wraps :
  fcontents withA !! 2 = Some [Byte.x61] /\
  (Write oneV 2 (2 ^ 58) [Byte.x5a] 0 withA).2 = (1, None) /\
  fcontents (Write oneV 2 (2 ^ 58) [Byte.x5a] 0 withA).1 !! 2 = Some [Byte.x5a].
Proof. vm_compute. done. Qed.

(** File 2 is one chunk long, and is copied twice into file 3, side by side. *)
Definition chunkLong : files (gmap Z bytes) := (Truncate ioUp oneM 2 ChunkSize withA).1.
Definition firstCopy := CopyFileRange true true oneC oneM 2 3 0 0 ChunkSize chunkLong.
Definition secondCopy := CopyFileRange true true oneC oneM 2 3 0 ChunkSize ChunkSize firstCopy.1.

(** Copying a chunk to two places of one file loses the second copy: the
    rows of the second are dropped as duplicates of the first ones' slices.
    Both calls report every byte copied; the first copy reads "a", the second
    reads zero. *)
Theorem copy_range_twice_loses :
  firstCopy.2 = (ChunkSize, None) /\ secondCopy.2 = (ChunkSize, None) /\
  (Read oneR 3 0 1 secondCopy.1).2 = Ok [Byte.x61] /\ (Read oneR 3 ChunkSize 1 secondCopy.1).2 = Ok [Byte.x00].
Proof. vm_compute. done. Qed.

(** "ab" with "X" written over its first byte. *)
Definition overlaid : files (gmap Z bytes) :=
  (Write oneV 2 0 [Byte.x58] 0 (Write oneV 2 0 [Byte.x61; Byte.x62] 0 two).1).1.

(** A clone depends on the order the server returns rows in: the copy is
    INSERT ... SELECT without ORDER BY, and overlay order is insertion order.
    A server that returns the rows of file 2 ("Xb") newest first leaves "ab" in
    the clone. *)
Theorem clone_order_matters :
  fcontents overlaid !! 2 = Some [Byte.x58; Byte.x62] /\
  (Clone oneM reverse 2 3 overlaid).2 = None /\
  fcontents (Clone oneM reverse 2 3 overlaid).1 !! 3 = Some [Byte.x61; Byte.x62] /\
  fcontents (Clone oneM id 2 3 overlaid).1 !! 3 = Some [Byte.x58; Byte.x62].
Proof. vm_compute. done. Qed.
