(* ===== verification/MetaTree.v ===== *)
(** The directory tree (mlfs/internal/meta: ops.go, rename.go, open.go, perms.go,
    xattr.go, gc.go).

    Nodes and edges as tables; each operation is the transaction the code runs,
    with its guards in order, and the handle bookkeeping around it.  [isOpen]
    is this engine's own table of open handles. *)

From S2P Require Import Prelude GoStrings Overlay MetaDb FileMeta.

Definition with_nlink (n : Z) (a : Attr) : Attr :=
  MkAttr (Typ a) (Mode a) (Uid a) (Gid a) (Atime a) (Mtime a) (Ctime a) (Atimensec a) (Mtimensec a) (Ctimensec a)
         n (Length a) (Rdev a) (Parent a) (StoreClass a) (ContentHash a).
Definition with_parent (p : Z) (a : Attr) : Attr :=
  MkAttr (Typ a) (Mode a) (Uid a) (Gid a) (Atime a) (Mtime a) (Ctime a) (Atimensec a) (Mtimensec a) (Ctimensec a)
         (Nlink a) (Length a) (Rdev a) p (StoreClass a) (ContentHash a).
Definition add_nlink (n : Z) (a : Attr) : Attr := with_nlink (Nlink a + n) a.

(** UPDATE node SET ... WHERE inode = i. *)
Definition updNode (i : Z) (g : Attr -> Attr) (d : db) : db := set_node (alter g i (node d)) d.
Definition delEdge (p : Z) (name : string) (d : db) : db := set_edge (delete (p, name) (edge d)) d.
Definition putEdge (p : Z) (name : string) (i typ : Z) (d : db) : db := set_edge (<[(p, name) := (i, typ)]> (edge d)) d.

(** Rows of an inode, by table. *)
Definition delSymlink (i : Z) (d : db) : db := set_symlink (delete i (symlink d)) d.
Definition delNode (i : Z) (d : db) : db := set_node (delete i (node d)) d.
Definition delSlices (i : Z) (d : db) : db := set_slices (filter (fun r => srIno r <> i) (slice_ref d)) d.
Definition delXattrs (i : Z) (d : db) : db := set_xattr (filter (fun kv => kv.1.1 <> i) (xattr d)) d.

Definition deleteInodeRows (i : Z) (d : db) : db := delXattrs i (delSlices i (delSymlink i (delNode i d))).

(** SELECT count( * ) FROM edge WHERE parent = i. *)
Definition children (i : Z) (d : db) : gmap (Z * string) (Z * Z) := filter (fun kv => kv.1.1 = i) (edge d).
Definition childCount (i : Z) (d : db) : nat := size (children i d).

Definition isDirT (t : Z) : bool := t =? TypeDirectory.

(** ** Lookup and listing *)

Definition Lookup (up : bool) (parent : Z) (name : string) (d : db) : (Z * Attr) + errno :=
  if negb up then inr EIO
  else match edge d !! (parent, name) with
       | None => inr ENOENT
       | Some (i, _) => match node d !! i with Some a => inl (i, a) | None => inr EIO end
       end.

Definition ReadLink (up : bool) (inode : Z) (d : db) : string + errno :=
  if negb up then inr EIO else match symlink d !! inode with Some t => inl t | None => inr ENOENT end.

(** An [Entry]; attributes only with [plus]. *)
Record Entry := MkEntry { eInode : Z; eName : string; eAttr : option Attr }.

Definition Readdir (up : bool) (inode : Z) (plus : bool) (d : db) : list Entry + errno :=
  if negb up then inr EIO
  else match node d !! inode with
       | None => inr ENOENT
       | Some self =>
           if negb (isDirT (Typ self)) then inr ENOTDIR
           else
             let attr i := if plus then node d !! i else None in
             let names := sortStrings ((fun kv => kv.1.2) <$> map_to_list (children inode d)) in
             inl (MkEntry inode "." (attr inode) :: MkEntry (Parent self) ".." (attr (Parent self)) ::
                  ((fun n => let i := from_option fst 0 (edge d !! (inode, n)) in MkEntry i n (attr i)) <$> names))
       end.

(** ** Creation *)

Record Context := MkCtx { cUid : Z; cGid : Z; cPid : Z }.

Definition newAttr (t : instant) (typ mode rdev : Z) (target : string) (parent : Z) (c : Context) : Attr :=
  MkAttr typ mode (cUid c) (cGid c) (tsec t) (tsec t) (tsec t) (tnsec t) (tnsec t) (tnsec t)
         (if isDirT typ then 2 else 1) (if typ =? TypeSymlink then strlen target else 0) rdev parent 0 "".

Definition createBody (t : instant) (inode parent : Z) (name : string) (typ mode rdev : Z) (target : string) (op : changeOp)
    (c : Context) (d : db) : txr :=
  match node d !! parent with
  | None => TxAbort ENOENT
  | Some pa =>
      if negb (isDirT (Typ pa)) then TxAbort ENOTDIR
      else match edge d !! (parent, name) with
           | Some _ => TxAbort EEXIST
           | None =>
               match node d !! inode with
               | Some _ => TxSql
               | None =>
                   let d := set_node (<[inode := newAttr t typ mode rdev target parent c]> (node d)) (putEdge parent name inode typ d) in
                   if (typ =? TypeSymlink) && bool_decide (is_Some (symlink d !! inode)) then TxSql
                   else
                     let d := if typ =? TypeSymlink then set_symlink (<[inode := target]> (symlink d)) d else d in
                     let d := updNode parent (fun a => touchM t (if isDirT typ then add_nlink 1 a else a)) d in
                     TxOk (appendChangelog t inode op (PNode parent name typ) d)
               end
           end
  end.

(** [create]: [up] is for the inode counter. *)
Definition create (up : bool) (v : menv) (parent : Z) (name : string) (typ mode rdev : Z) (target : string) (op : changeOp)
    (c : Context) (m : meta) : meta * (Z * Attr + errno) :=
  match nextInode up m with
  | (m, Err _) => (m, inr EIO)
  | (m, Ok inode) =>
      match mutating v parent (createBody (mnow v) inode parent name typ mode rdev target op c) m with
      | (m, Some e) => (m, inr e)
      | (m, None) => (m, inl (inode, newAttr (mnow v) typ mode rdev target parent c))
      end
  end.

Definition Mkdir (up : bool) (v : menv) (parent : Z) (name : string) (mode : Z) (c : Context) (m : meta) : meta * (Z * Attr + errno) :=
  create up v parent name TypeDirectory mode 0 "" opMkdir c m.
Definition Mknod (up : bool) (v : menv) (parent : Z) (name : string) (typ mode rdev : Z) (c : Context) (m : meta) : meta * (Z * Attr + errno) :=
  create up v parent name typ mode rdev "" opMknod c m.
Definition Create (up : bool) (v : menv) (parent : Z) (name : string) (mode : Z) (c : Context) (m : meta) : meta * (Z * Attr + errno) :=
  create up v parent name TypeFile mode 0 "" opMknod c m.
Definition Symlink (up : bool) (v : menv) (parent : Z) (name target : string) (c : Context) (m : meta) : meta * (Z * Attr + errno) :=
  create up v parent name TypeSymlink 511 0 target opSymlink c m.

(** ** Removal *)

Definition isOpen (e : engine) (i : Z) : bool := 0 <? default 0 (openRefs e !! i).

Definition unlinkBody (t : instant) (open : Z -> bool) (parent : Z) (name : string) (d : db) : txr :=
  match edge d !! (parent, name) with
  | None => TxAbort ENOENT
  | Some (inode, typ) =>
      if isDirT typ then TxAbort EISDIR
      else
        let d := delEdge parent name d in
        match node d !! inode with
        | None => TxSql
        | Some a =>
            let d := updNode inode (fun a => touchC t (add_nlink (-1) a)) d in
            let d := if (Nlink a - 1 <=? 0) && negb (open inode) then deleteInodeRows inode d else d in
            let d := updNode parent (touchM t) d in
            TxOk (appendChangelog t inode opUnlink (PName parent name) d)
        end
  end.

(** The inode an unlink detaches while it is open. *)
Definition unlinkSustain (open : Z -> bool) (parent : Z) (name : string) (d : db) : option Z :=
  '(inode, _) ← edge d !! (parent, name);
  a ← node d !! inode;
  if (Nlink a - 1 <=? 0) && open inode then Some inode else None.

Definition markSustained (i : Z) (m : meta) : meta :=
  MkMeta (set_open (openRefs (eng m)) ({[ i ]} ∪ sustained (eng m)) (eng m)) (mdb m).

Definition Unlink (v : menv) (parent : Z) (name : string) (m : meta) : meta * status :=
  let open := isOpen (eng m) in
  let sustain := unlinkSustain open parent name (mdb m) in
  match mutating v parent (unlinkBody (mnow v) open parent name) m with
  | (m, Some e) => (m, Some e)
  | (m, None) => (from_option (fun i => markSustained i m) m sustain, None)
  end.

Definition rmdirBody (t : instant) (parent : Z) (name : string) (d : db) : txr :=
  match edge d !! (parent, name) with
  | None => TxAbort ENOENT
  | Some (inode, typ) =>
      if negb (isDirT typ) then TxAbort ENOTDIR
      else if bool_decide (childCount inode d <> 0%nat) then TxAbort ENOTEMPTY
      else
        let d := delXattrs inode (delNode inode (delEdge parent name d)) in
        let d := updNode parent (fun a => touchM t (add_nlink (-1) a)) d in
        TxOk (appendChangelog t inode opRmdir (PName parent name) d)
  end.

Definition Rmdir (v : menv) (parent : Z) (name : string) (m : meta) : meta * status :=
  mutating v parent (rmdirBody (mnow v) parent name) m.

(** ** Hard links *)

Definition linkBody (t : instant) (inode newParent : Z) (newName : string) (d : db) : txr :=
  match node d !! inode with
  | None => TxAbort ENOENT
  | Some cur =>
      if isDirT (Typ cur) then TxAbort EPERM
      else match node d !! newParent with
           | None => TxAbort ENOENT
           | Some pa =>
               if negb (isDirT (Typ pa)) then TxAbort ENOTDIR
               else match edge d !! (newParent, newName) with
                    | Some _ => TxAbort EEXIST
                    | None =>
                        let d := putEdge newParent newName inode (Typ cur) d in
                        let d := updNode inode (fun a => touchC t (add_nlink 1 a)) d in
                        let d := updNode newParent (touchM t) d in
                        TxOk (appendChangelog t inode opLink (PName newParent newName) d)
                    end
           end
  end.

Definition Link (v : menv) (inode newParent : Z) (newName : string) (m : meta) : meta * (option Attr + errno) :=
  let cur := node (mdb m) !! inode in
  match mutating v newParent (linkBody (mnow v) inode newParent newName) m with
  | (m, Some e) => (m, inr e)
  | (m, None) => (m, inl ((fun a => touchC (mnow v) (add_nlink 1 a)) <$> cur))
  end.

(** ** Rename *)

Definition RenameNoReplace : Z := 1.
Definition RenameExchange : Z := 2.
Definition RenameWhiteout : Z := 4.

(** Operations under two scopes: fence both when they differ.  The flag says
    that they do. *)
Definition scopeKey (h : held) : string := from_option fst "" h.

Definition mutating2 (v1 v2 : menv) (i1 i2 : Z) (body : db -> txr) (m : meta) : meta * status * bool :=
  match acquireScope v1 i1 m with
  | (m, inr e) => (m, Some e, false)
  | (m, inl h1) =>
      match acquireScope v2 i2 m with
      | (m, inr e) => (m, Some e, false)
      | (m, inl h2) =>
          let n := nodeID (eng m) in
          let cross := negb (bool_decide (scopeKey h2 = scopeKey h1)) in
          let '(d, e) := withTx (mfate v2) (fenceInTx n h1 (if cross then fenceInTx n h2 body else body)) (mdb m) in
          (set_db d m, e, cross)
      end
  end.

(** mtime and ctime of [distinctParents]. *)
Definition touchParents (t : instant) (p1 p2 : Z) (d : db) : db :=
  if p1 =? p2 then updNode p1 (touchM t) d else updNode p2 (touchM t) (updNode p1 (touchM t) d).

(** Moving the edge once the destination is free; [dd] is the change of the
    destination parent's link count so far. *)
Definition moveEdge (t : instant) (p1 : Z) (n1 : string) (p2 : Z) (n2 : string) (srcIno srcType dd : Z) (d : db) : db :=
  let d := putEdge p2 n2 srcIno srcType (delEdge p1 n1 d) in
  let d := updNode srcIno (fun a => touchC t (with_parent p2 a)) d in
  let moves := isDirT srcType && negb (p1 =? p2) in
  let d := updNode p2 (add_nlink (dd + if moves then 1 else 0)) d in
  let d := updNode p1 (add_nlink (if moves then -1 else 0)) d in
  appendChangelog t srcIno opRename (PRename false p1 n1 p2 n2) (touchParents t p1 p2 d).

Definition renameBody (t : instant) (noReplace : bool) (p1 : Z) (n1 : string) (p2 : Z) (n2 : string) (d : db) : txr :=
  match edge d !! (p1, n1) with
  | None => TxAbort ENOENT
  | Some (srcIno, srcType) =>
      match edge d !! (p2, n2) with
      | None => TxOk (moveEdge t p1 n1 p2 n2 srcIno srcType 0 d)
      | Some (dstIno, dstType) =>
          if noReplace then TxAbort EEXIST
          else if dstIno =? srcIno then TxOk d
          else if isDirT dstType && negb (isDirT srcType) then TxAbort EISDIR
          else if negb (isDirT dstType) && isDirT srcType then TxAbort ENOTDIR
          else if isDirT dstType then
            if bool_decide (childCount dstIno d <> 0%nat) then TxAbort ENOTEMPTY
            else TxOk (moveEdge t p1 n1 p2 n2 srcIno srcType (-1) (delEdge p2 n2 (delNode dstIno d)))
          else match node d !! dstIno with
               | None => TxSql
               | Some a =>
                   let d := updNode dstIno (fun a => touchC t (add_nlink (-1) a)) d in
                   let d := if Nlink a - 1 <=? 0 then delSymlink dstIno (delNode dstIno d) else d in
                   TxOk (moveEdge t p1 n1 p2 n2 srcIno srcType 0 (delEdge p2 n2 d))
               end
      end
  end.

Definition exchangeBody (t : instant) (p1 : Z) (n1 : string) (p2 : Z) (n2 : string) (d : db) : txr :=
  match edge d !! (p1, n1), edge d !! (p2, n2) with
  | Some (srcIno, srcType), Some (dstIno, dstType) =>
      if srcIno =? dstIno then TxOk d
      else
        let d := putEdge p2 n2 srcIno srcType (putEdge p1 n1 dstIno dstType d) in
        let d := updNode srcIno (fun a => touchC t (with_parent p2 a)) d in
        let d := updNode dstIno (fun a => touchC t (with_parent p1 a)) d in
        let delta := (if isDirT srcType then 1 else 0) - (if isDirT dstType then 1 else 0) in
        let d := if p1 =? p2 then d else updNode p2 (add_nlink delta) (updNode p1 (add_nlink (- delta)) d) in
        TxOk (appendChangelog t srcIno opRename (PRename true p1 n1 p2 n2) (touchParents t p1 p2 d))
  | _, _ => TxAbort ENOENT
  end.

(** Dispatch on the flags; afterwards the scope memo is flushed when the move
    crossed scopes, and the result is the source's inode and attributes. *)
Definition Rename (v1 v2 : menv) (up : bool) (p1 : Z) (n1 : string) (p2 : Z) (n2 : string) (flags : Z) (m : meta)
    : meta * (Z * option Attr + errno) :=
  let exchange := Z.testbit flags 1 in
  if exchange && negb (flags =? RenameExchange) then (m, inr EINVAL)
  else if negb exchange && negb (Z.land flags (Z.lnot RenameNoReplace) =? 0) then (m, inr ENOSYS)
  else
    let body := if exchange then exchangeBody (mnow v2) p1 n1 p2 n2
                else renameBody (mnow v2) (negb (Z.land flags RenameNoReplace =? 0)) p1 n1 p2 n2 in
    let srcIno := from_option fst 0 (edge (mdb m) !! (p1, n1)) in
    match mutating2 v1 v2 p1 p2 body m with
    | (m, Some e, _) => (m, inr e)
    | (m, None, cross) =>
        let m := if cross then flushScopeCache m else m in
        (m, inl (srcIno, match GetAttr up srcIno (mdb m) with inl a => Some a | inr _ => None end))
    end.

(** ** Attributes *)

Definition SetMode : Z := 1.
Definition SetUID : Z := 2.
Definition SetGID : Z := 4.
Definition SetSize : Z := 8.
Definition SetAtime : Z := 16.
Definition SetMtime : Z := 32.

Definition hasBit (set bit : Z) : bool := negb (Z.land set bit =? 0).

Definition MayExec : Z := 1.
Definition MayWrite : Z := 2.
Definition MayRead : Z := 4.

(** A [nil] context is [None]. *)
Definition accessAttr (c : option Context) (a : Attr) (mask : Z) : status :=
  match c with
  | None => None
  | Some c =>
      if cUid c =? 0 then None
      else
        let perm := if cUid c =? Uid a then Z.land (Z.shiftr (Mode a) 6) 7
                    else if cGid c =? Gid a then Z.land (Z.shiftr (Mode a) 3) 7
                    else Z.land (Mode a) 7 in
        if Z.land mask perm =? mask then None else Some EACCES
  end.

Definition Access (up : bool) (inode mask : Z) (c : option Context) (d : db) : status :=
  match GetAttr up inode d with inl a => accessAttr c a mask | inr e => Some e end.

Definition setidBits : Z := 3072.

Definition authorizeSetAttr (c : option Context) (cur : Attr) (set : Z) (attr : Attr) : status :=
  match c with
  | None => None
  | Some c =>
      if cUid c =? 0 then None
      else
        let owner := cUid c =? Uid cur in
        let privDropOnly := (Z.ldiff (Mode attr) (Mode cur) =? 0) && (Z.ldiff (Z.ldiff (Mode cur) (Mode attr)) setidBits =? 0) in
        if hasBit set SetMode && negb owner && negb privDropOnly then Some EPERM
        else if hasBit set SetUID && negb (Uid attr =? Uid cur) then Some EPERM
        else if hasBit set SetGID && negb owner then Some EPERM
        else None
  end.

Definition applySet (t : instant) (set : Z) (attr cur : Attr) : Attr :=
  MkAttr (Typ cur) (if hasBit set SetMode then Mode attr else Mode cur)
    (if hasBit set SetUID then Uid attr else Uid cur) (if hasBit set SetGID then Gid attr else Gid cur)
    (if hasBit set SetAtime then Atime attr else Atime cur) (if hasBit set SetMtime then Mtime attr else Mtime cur) (tsec t)
    (if hasBit set SetAtime then Atimensec attr else Atimensec cur) (if hasBit set SetMtime then Mtimensec attr else Mtimensec cur) (tnsec t)
    (Nlink cur) (if hasBit set SetSize then Length attr else Length cur) (Rdev cur) (Parent cur) (StoreClass cur) (ContentHash cur).

Definition setattrBody (t : instant) (inode set : Z) (attr : Attr) (c : option Context) (d : db) : txr :=
  match node d !! inode with
  | None => TxAbort ENOENT
  | Some cur =>
      match authorizeSetAttr c cur set attr with
      | Some e => TxAbort e
      | None => TxOk (appendChangelog t inode opSetattr (PSet set) (set_node (<[inode := applySet t set attr cur]> (node d)) d))
      end
  end.

Definition SetAttr (v : menv) (up : bool) (inode set : Z) (attr : Attr) (c : option Context) (m : meta) : meta * (option Attr + errno) :=
  match mutating v inode (setattrBody (mnow v) inode set attr c) m with
  | (m, Some e) => (m, inr e)
  | (m, None) => (m, inl (match GetAttr up inode (mdb m) with inl a => Some a | inr _ => None end))
  end.

(** ** Open handles *)

Definition OpenRef (i : Z) (m : meta) : meta :=
  MkMeta (set_open (<[i := default 0 (openRefs (eng m) !! i) + 1]> (openRefs (eng m))) (sustained (eng m)) (eng m)) (mdb m).

Definition OpenFile (up : bool) (i : Z) (m : meta) : meta * (Attr + errno) :=
  match GetAttr up i (mdb m) with inr e => (m, inr e) | inl a => (OpenRef i m, inl a) end.

(** [Close]; [f] is the fate of the final deletion. *)
Definition CloseFile (f : fate) (i : Z) (m : meta) : meta * status :=
  let n := default 0 (openRefs (eng m) !! i) in
  let n := if 0 <? n then n - 1 else n in
  let last := n =? 0 in
  let doDelete := last && bool_decide (i ∈ sustained (eng m)) in
  let refs := if last then delete i (openRefs (eng m)) else <[i := n]> (openRefs (eng m)) in
  let e := set_open refs (if doDelete then sustained (eng m) ∖ {[ i ]} else sustained (eng m)) (eng m) in
  if doDelete then let '(d, s) := withTx f (fun d => TxOk (deleteInodeRows i d)) (mdb m) in (MkMeta e d, s)
  else (MkMeta e (mdb m), None).

(** ** Reaping *)

Definition zombies (d : db) : list Z :=
  (fun ia => ia.1) <$> filter (fun ia => Nlink ia.2 <= 0 /\ ia.1 <> RootInode /\ map_Forall (fun _ e => e.1 <> ia.1) (edge d)) (map_to_list (node d)).

Definition ReapOrphanedInodes (f : fate) (d : db) : db * result nat :=
  match withTx f (fun d => TxOk (fold_left (fun d i => deleteInodeRows i d) (zombies d) d)) d with
  | (d', None) => (d', Ok (length (zombies d)))
  | (d', Some _) => (d', Err (EOther "sql"))
  end.

(** ** Extended attributes *)

Definition XattrCreate : Z := 1.
Definition XattrReplace : Z := 2.

Definition GetXAttr (up : bool) (inode : Z) (name : string) (d : db) : string + errno :=
  if negb up then inr EIO else match xattr d !! (inode, name) with Some v => inl v | None => inr ENODATA end.

Definition ListXAttr (up : bool) (inode : Z) (d : db) : list string + errno :=
  if negb up then inr EIO
  else inl (sortStrings ((fun kv => kv.1.2) <$> map_to_list (filter (fun kv => kv.1.1 = inode) (xattr d)))).

Definition setxattrBody (inode : Z) (name value : string) (flags : Z) (d : db) : txr :=
  match node d !! inode with
  | None => TxAbort ENOENT
  | Some _ =>
      let exists_ := bool_decide (is_Some (xattr d !! (inode, name))) in
      if hasBit flags XattrCreate && exists_ then TxAbort EEXIST
      else if hasBit flags XattrReplace && negb exists_ then TxAbort ENODATA
      else TxOk (set_xattr (<[(inode, name) := value]> (xattr d)) d)
  end.

Definition SetXAttr (f : fate) (inode : Z) (name value : string) (flags : Z) (d : db) : db * status :=
  withTx f (setxattrBody inode name value flags) d.

Definition RemoveXAttr (up : bool) (inode : Z) (name : string) (d : db) : db * status :=
  if negb up then (d, Some EIO)
  else match xattr d !! (inode, name) with
       | Some _ => (set_xattr (delete (inode, name) (xattr d)) d, None)
       | None => (d, Some ENODATA)
       end.
