(* ===== verification/TreeSpec.v ===== *)
(** The directory tree stays a tree.

    [tree] is the invariant, on a node view (type, link count, parent) and the
    edge table: every edge joins existing nodes, a directory has one name, its
    parent field is where that name is, and it climbs to the root; link counts
    are what they count.  Every operation preserves it, the moves provided the
    destination is a directory that does not lie below what moves (which the
    kernel checks before it calls a file system).

    [tree_invariant] is the statement over histories of operations. *)

From S2P Require Import Prelude GoStrings Overlay MetaDb FileMeta MetaTree.

Abbreviation edges := (gmap (Z * string) (Z * Z)).
Abbreviation nodes := (Z -> option (Z * Z * Z)).

(** ** Counting edges *)

Definition linksTo (i : Z) (E : edges) : Z := Z.of_nat (size (filter (fun kv => kv.2.1 = i) E)).
Definition subdirs (p : Z) (E : edges) : Z := Z.of_nat (size (filter (fun kv => kv.1.1 = p /\ kv.2.2 = TypeDirectory) E)).

Section Count.
  Context (P : (Z * string) * (Z * Z) -> Prop) `{!forall x, Decision (P x)}.

Lemma count_insert (E : edges) k x : E !! k = None ->
  Z.of_nat (size (filter P (<[k := x]> E))) = Z.of_nat (size (filter P E)) + if decide (P (k, x)) then 1 else 0.
Proof.
  intros Hk. destruct (decide (P (k, x))) as [Hp|Hp].
  - rewrite map_filter_insert_True by done. rewrite map_size_insert_None; [lia|]. apply map_lookup_filter_None. by left.
  - rewrite map_filter_insert_False by done. rewrite delete_id by done. lia.
Qed.

Lemma count_delete (E : edges) k x : E !! k = Some x ->
  Z.of_nat (size (filter P (delete k E))) = Z.of_nat (size (filter P E)) - if decide (P (k, x)) then 1 else 0.
Proof.
  intros Hk. rewrite <- (insert_delete_id E k x Hk) at 2. rewrite count_insert by apply lookup_delete_eq. lia.
Qed.

Lemma count_pos (E : edges) k x : E !! k = Some x -> P (k, x) -> 1 <= Z.of_nat (size (filter P E)).
Proof. intros Hk Hp. pose proof (count_delete E k x Hk) as Hd. rewrite decide_True in Hd by done. lia. Qed.

Lemma count_zero (E : edges) : Z.of_nat (size (filter P E)) = 0 <-> forall k x, E !! k = Some x -> ~ P (k, x).
Proof.
  split.
  - intros Hz k x Hk Hp. pose proof (count_pos E k x Hk Hp). lia.
  - intros Hn. replace (size _) with 0%nat; [done|]. symmetry. apply map_size_empty_iff, map_empty. intros k.
    apply map_lookup_filter_None. destruct (E !! k) as [x|] eqn:Ek; [right|by left]. intros y [= <-]. by apply Hn.
Qed.

Lemma count_one (E : edges) : 1 <= Z.of_nat (size (filter P E)) -> exists k x, E !! k = Some x /\ P (k, x).
Proof.
  intros Hz. destruct (map_choose (filter P E)) as (k & x & Hk).
  - intros He. rewrite He, map_size_empty in Hz. lia.
  - apply map_lookup_filter_Some in Hk. eauto.
Qed.
End Count.

(** ** The invariant *)

(** [i] climbs to the root along parents without meeting [X]. *)
Inductive climbs (N : nodes) (X : Z -> Prop) : Z -> Prop :=
| climbs_root : ~ X RootInode -> climbs N X RootInode
| climbs_up i l q : ~ X i -> N i = Some (TypeDirectory, l, q) -> climbs N X q -> climbs N X i.

Definition nowhere : Z -> Prop := fun _ => False.

Record tree (N : nodes) (E : edges) : Prop := {
  t_root : exists l, N RootInode = Some (TypeDirectory, l, RootInode);
  t_edge : forall p n i t, E !! (p, n) = Some (i, t) ->
    i <> RootInode /\ (exists l q, N p = Some (TypeDirectory, l, q)) /\
    exists l q, N i = Some (t, l, q) /\ (t = TypeDirectory -> q = p);
  t_dir : forall i l q, N i = Some (TypeDirectory, l, q) -> l = 2 + subdirs i E /\ (i <> RootInode -> linksTo i E = 1);
  t_file : forall i t l q, N i = Some (t, l, q) -> t <> TypeDirectory -> l = linksTo i E;
  t_climbs : forall i l q, N i = Some (TypeDirectory, l, q) -> climbs N nowhere i }.

(** A change of the nodes outside [X] that keeps directories and parents keeps
    the climbs that avoid [X]. *)
Lemma climbs_change N N' X X' i :
  climbs N X i -> (forall j, ~ X j -> X' j -> False) ->
  (forall j l q, ~ X j -> N j = Some (TypeDirectory, l, q) -> exists l', N' j = Some (TypeDirectory, l', q)) -> climbs N' X' i.
Proof.
  intros H HX HN. induction H as [Hr|i l q Hi Hn H IH]; [constructor; eauto|].
  destruct (HN _ _ _ Hi Hn) as [l' Hn']. eapply climbs_up; eauto.
Qed.

(** A directory's name is where its parent field says. *)
Lemma dir_edge N E i l q : tree N E -> N i = Some (TypeDirectory, l, q) -> i <> RootInode -> exists n, E !! (q, n) = Some (i, TypeDirectory).
Proof.
  intros HT Hi Hr. destruct (t_dir _ _ HT _ _ _ Hi) as [_ H1]. specialize (H1 Hr).
  destruct (count_one (fun kv => kv.2.1 = i) E) as ([p n] & [j t] & He & Hj); [unfold linksTo in H1; lia|]. cbn in Hj. subst j.
  destruct (t_edge _ _ HT _ _ _ _ He) as (_ & _ & l' & q' & Hi' & Hq). simplify_eq. rewrite Hq in * by done. eauto.
Qed.

(** A directory without entries is nobody's parent, so no climb passes it. *)
Lemma childless_parent N E i j l q :
  tree N E -> i <> RootInode -> (forall m x, E !! (i, m) <> Some x) -> N j = Some (TypeDirectory, l, q) -> q <> i.
Proof.
  intros HT Hir Hch Hj ->. destruct (t_root _ _ HT) as [lr Hr]. destruct (decide (j = RootInode)) as [->|Hjr]; [congruence|].
  destruct (dir_edge _ _ _ _ _ HT Hj Hjr) as [m Hm]. by apply (Hch m _ Hm).
Qed.

Lemma climbs_past N N' X i k :
  climbs N X k -> k <> i -> (forall j l q, N j = Some (TypeDirectory, l, q) -> q <> i) ->
  (forall j l q, j <> i -> N j = Some (TypeDirectory, l, q) -> exists l', N' j = Some (TypeDirectory, l', q)) -> climbs N' X k.
Proof.
  intros H Hk Hpar Hup. induction H as [|k l q Hx Hn H IH]; [by constructor|]. destruct (Hup _ _ _ Hk Hn) as [l' Hl'].
  eapply climbs_up; [done|exact Hl'|]. apply IH. by eapply Hpar.
Qed.

(** Edges to and from nodes that are not there. *)
Lemma no_links N E i : tree N E -> N i = None -> linksTo i E = 0 /\ subdirs i E = 0.
Proof.
  intros HT Hi. unfold linksTo, subdirs. split; apply count_zero; intros [p n] [j t] He; cbn;
    destruct (t_edge _ _ HT _ _ _ _ He) as (_ & (l & q & Hp) & l' & q' & Hj & _); [|intros [? _]]; congruence.
Qed.

(** What matters of a node is its view. *)
Lemma tree_ext N N' E : tree N E -> (forall i, N' i = N i) -> tree N' E.
Proof.
  intros [H1 H2 H3 H4 H5] HN. split.
  - by rewrite HN.
  - intros p n i t He. rewrite !HN. eauto.
  - intros i l q. rewrite HN. eauto.
  - intros i t l q. rewrite HN. eauto.
  - intros i l q. rewrite HN. intros Hi. eapply climbs_change; [by eapply H5|done|]. intros j l' q' _ Hj. rewrite HN. eauto.
Qed.

Section Counts.
  Context (E : edges) (p : Z) (n : string) (j t : Z).

Lemma linksTo_insert i : E !! (p, n) = None -> linksTo i (<[(p, n) := (j, t)]> E) = linksTo i E + if decide (j = i) then 1 else 0.
Proof. intros H. unfold linksTo. by rewrite count_insert. Qed.
Lemma linksTo_delete i : E !! (p, n) = Some (j, t) -> linksTo i (delete (p, n) E) = linksTo i E - if decide (j = i) then 1 else 0.
Proof. intros H. unfold linksTo. by rewrite (count_delete _ _ _ (j, t)). Qed.
Lemma subdirs_insert q : E !! (p, n) = None ->
  subdirs q (<[(p, n) := (j, t)]> E) = subdirs q E + if decide (p = q /\ t = TypeDirectory) then 1 else 0.
Proof. intros H. unfold subdirs. by rewrite count_insert. Qed.
Lemma subdirs_delete q : E !! (p, n) = Some (j, t) ->
  subdirs q (delete (p, n) E) = subdirs q E - if decide (p = q /\ t = TypeDirectory) then 1 else 0.
Proof. intros H. unfold subdirs. by rewrite (count_delete _ _ _ (j, t)). Qed.
Lemma linksTo_pos : E !! (p, n) = Some (j, t) -> 1 <= linksTo j E.
Proof. intros H. by eapply count_pos. Qed.
End Counts.

(** ** Steps of the tree *)

(** A change of the nodes, point by point. *)
Definition nset (i : Z) (x : option (Z * Z * Z)) (N : nodes) : nodes := fun j => if decide (j = i) then x else N j.

Lemma nset_eq i x N : nset i x N i = x.
Proof. unfold nset. by rewrite decide_True. Qed.
Lemma nset_ne i j x N : j <> i -> nset i x N j = N j.
Proof. intros H. unfold nset. by rewrite decide_False. Qed.

(** The cases of a node view after changes at [i], [j]. *)
Lemma nset2_inv i j x y N k z : nset i x (nset j y N) k = z ->
  (k = i /\ x = z) \/ (k <> i /\ k = j /\ y = z) \/ (k <> i /\ k <> j /\ N k = z).
Proof. unfold nset. repeat case_decide; auto. Qed.
Lemma nset_inv i x N k z : nset i x N k = z -> (k = i /\ x = z) \/ (k <> i /\ N k = z).
Proof. unfold nset. case_decide; auto. Qed.

Ltac counts := repeat case_decide; intuition (subst; try congruence; lia).

Section Steps.
  Context (N : nodes) (E : edges) (HT : tree N E).

Lemma tree_add p n i t lp pp :
  E !! (p, n) = None -> N i = None -> N p = Some (TypeDirectory, lp, pp) ->
  tree (nset p (Some (TypeDirectory, lp + (if decide (t = TypeDirectory) then 1 else 0), pp))
         (nset i (Some (t, if decide (t = TypeDirectory) then 2 else 1, p)) N)) (<[(p, n) := (i, t)]> E).
Proof.
  intros He Hi Hp. destruct (no_links _ _ _ HT Hi) as [Hl0 Hs0]. assert (Hip : i <> p) by congruence.
  destruct (t_root _ _ HT) as [lr Hr]. assert (Hir : i <> RootInode) by congruence.
  set (N' := nset p _ _).
  assert (Hp' : N' p = Some (TypeDirectory, lp + (if decide (t = TypeDirectory) then 1 else 0), pp)) by apply nset_eq.
  assert (Hi' : N' i = Some (t, if decide (t = TypeDirectory) then 2 else 1, p)) by (unfold N'; by rewrite nset_ne, nset_eq).
  assert (Hup : forall j t' l q, N j = Some (t', l, q) -> exists l', N' j = Some (t', l', q)).
  { intros j t' l q Hj. unfold N', nset. repeat case_decide; simplify_eq; eauto. }
  assert (Hc : forall k l q, N k = Some (TypeDirectory, l, q) -> climbs N' nowhere k).
  { intros k l q Hk. eapply climbs_change; [by eapply (t_climbs _ _ HT)|done|]. intros. by eapply Hup. }
  split.
  - destruct (Hup _ _ _ _ Hr); eauto.
  - intros p' n' j t' Hj. destruct (decide ((p, n) = (p', n'))) as [[= <- <-]|Hne].
    + rewrite lookup_insert_eq in Hj. injection Hj as <- <-. rewrite Hp', Hi'. eauto 10.
    + rewrite lookup_insert_ne in Hj by done. destruct (t_edge _ _ HT _ _ _ _ Hj) as (Hjr & (l1 & q1 & H1) & l2 & q2 & H2 & Hq).
      destruct (Hup _ _ _ _ H1), (Hup _ _ _ _ H2). eauto 10.
  - intros j l q Hj. rewrite linksTo_insert, subdirs_insert by done.
    apply nset2_inv in Hj as [[-> Hj]|[(? & -> & Hj)|(? & ? & Hj)]]; [|injection Hj as -> <- <-|destruct (t_dir _ _ HT _ _ _ Hj); counts].
    + injection Hj as <- <-. destruct (t_dir _ _ HT _ _ _ Hp). counts.
    + rewrite Hl0, Hs0. counts.
  - intros j t' l q Hj Ht. rewrite linksTo_insert by done.
    apply nset2_inv in Hj as [[-> Hj]|[(? & -> & Hj)|(? & ? & Hj)]]; [congruence| |].
    + injection Hj as -> <- <-. rewrite Hl0. counts.
    + rewrite (t_file _ _ HT _ _ _ _ Hj Ht). counts.
  - intros j l q Hj. destruct (decide (j = i)) as [->|Hji].
    + eapply climbs_up; [by intros []|exact Hj|]. rewrite Hi' in Hj. injection Hj as -> <- <-. eauto.
    + apply nset2_inv in Hj as [[-> Hj]|[(? & -> & Hj)|(? & ? & Hj)]]; [eauto|done|eauto].
Qed.

(** Changes that only touch a file's link count or remove the file. *)
Lemma tree_file E' i t l q x :
  N i = Some (t, l, q) -> t <> TypeDirectory ->
  (forall j, linksTo j E' = linksTo j E + if decide (j = i) then (linksTo i E' - linksTo i E) else 0) ->
  (forall j, subdirs j E' = subdirs j E) ->
  (forall p n j t', E' !! (p, n) = Some (j, t') ->
     (exists l q, N p = Some (TypeDirectory, l, q)) /\ (E !! (p, n) = Some (j, t') \/ (j = i /\ t' = t))) ->
  (x = Some (t, linksTo i E', q) \/ (x = None /\ linksTo i E' = 0)) -> tree (nset i x N) E'.
Proof.
  intros Hi Ht Hl Hs He Hx. destruct (t_root _ _ HT) as [lr Hr].
  assert (Hir : i <> RootInode) by congruence.
  assert (Hd : forall j l q, N j = Some (TypeDirectory, l, q) -> nset i x N j = Some (TypeDirectory, l, q))
    by (intros j l' q' Hj; rewrite nset_ne; [done|congruence]).
  split.
  - eauto.
  - intros p n j t' Hj. destruct (He _ _ _ _ Hj) as [(lp & pp & Hp) Hor].
    assert (Hje : j = i -> linksTo i E' <> 0) by (intros ->; pose proof (linksTo_pos _ _ _ _ _ Hj); lia).
    destruct Hor as [Hold|[-> ->]].
    + destruct (t_edge _ _ HT _ _ _ _ Hold) as (Hjr & _ & l2 & q2 & H2 & Hq). split; [done|]. split; [eauto|].
      destruct (decide (j = i)) as [->|]; [rewrite nset_eq|rewrite nset_ne by done; eauto].
      destruct Hx as [->|[-> Hz]]; [|by destruct (Hje eq_refl)]. simplify_eq. by eexists _, _.
    + split; [done|]. split; [eauto|]. rewrite nset_eq. destruct Hx as [->|[-> Hz]]; [|by destruct (Hje eq_refl)]. by eexists _, _.
  - intros j l' q' Hj. apply nset_inv in Hj as [[-> Hj]|[Hne Hj]].
    + destruct Hx as [->|[-> _]]; [|done]. by injection Hj as ->.
    + rewrite Hs, Hl, decide_False, Z.add_0_r by done. by eapply (t_dir _ _ HT).
  - intros j t' l' q' Hj Ht'. apply nset_inv in Hj as [[-> Hj]|[Hne Hj]].
    + destruct Hx as [->|[-> _]]; [|done]. by injection Hj as -> <- ->.
    + rewrite Hl, decide_False, Z.add_0_r by done. by eapply (t_file _ _ HT).
  - intros j l' q' Hj. apply nset_inv in Hj as [[-> Hj]|[Hne Hj]].
    + destruct Hx as [->|[-> _]]; [|done]. by injection Hj as ->.
    + eapply climbs_change; [by eapply (t_climbs _ _ HT)|done|]. intros k l2 q2 _ Hk. eauto.
Qed.

Lemma tree_link p n i t l q lp pp :
  E !! (p, n) = None -> N i = Some (t, l, q) -> t <> TypeDirectory -> N p = Some (TypeDirectory, lp, pp) ->
  tree (nset i (Some (t, l + 1, q)) N) (<[(p, n) := (i, t)]> E).
Proof.
  intros He Hi Ht Hp. eapply tree_file; [exact Hi|done| | | |].
  - intros j. rewrite !linksTo_insert by done. counts.
  - intros j. rewrite subdirs_insert by done. counts.
  - intros p' n' j t' Hj. destruct (decide ((p, n) = (p', n'))) as [[= <- <-]|Hne].
    + rewrite lookup_insert_eq in Hj. injection Hj as <- <-. split; [eauto|by right].
    + rewrite lookup_insert_ne in Hj by done. destruct (t_edge _ _ HT _ _ _ _ Hj) as (_ & H1 & _). auto.
  - left. rewrite linksTo_insert by done. rewrite decide_True by done. by rewrite (t_file _ _ HT _ _ _ _ Hi Ht).
Qed.

Lemma tree_unlink p n i t l q x :
  E !! (p, n) = Some (i, t) -> N i = Some (t, l, q) -> t <> TypeDirectory ->
  (x = Some (t, l - 1, q) \/ (x = None /\ l - 1 <= 0)) -> tree (nset i x N) (delete (p, n) E).
Proof.
  intros He Hi Ht Hx. pose proof (linksTo_pos _ _ _ _ _ He). pose proof (t_file _ _ HT _ _ _ _ Hi Ht) as Hl.
  eapply tree_file; [exact Hi|done| | | |].
  - intros j. rewrite !(linksTo_delete _ _ _ _ _ _ He). counts.
  - intros j. rewrite (subdirs_delete _ _ _ _ _ _ He). counts.
  - intros p' n' j t' [Hne Hj]%lookup_delete_Some. destruct (t_edge _ _ HT _ _ _ _ Hj) as (_ & H1 & _). auto.
  - rewrite (linksTo_delete _ _ _ _ _ _ He), decide_True by done. destruct Hx as [->|[-> Hx]]; [left|right; split; [done|lia]]. by rewrite Hl.
Qed.

Lemma tree_drop i t l q : linksTo i E = 0 -> N i = Some (t, l, q) -> i <> RootInode -> tree (nset i None N) E.
Proof.
  intros Hl Hi Hr. assert (Ht : t <> TypeDirectory) by (intros ->; destruct (t_dir _ _ HT _ _ _ Hi) as [_ H1]; specialize (H1 Hr); lia).
  eapply tree_file; [exact Hi|done| |done| |by right].
  - intros j. counts.
  - intros p n j t' Hj. destruct (t_edge _ _ HT _ _ _ _ Hj) as (_ & H1 & _). auto.
Qed.

Lemma tree_rmdir p n i lp pp :
  E !! (p, n) = Some (i, TypeDirectory) -> (forall m x, E !! (i, m) <> Some x) -> N p = Some (TypeDirectory, lp, pp) ->
  p <> i /\ tree (nset p (Some (TypeDirectory, lp - 1, pp)) (nset i None N)) (delete (p, n) E).
Proof.
  intros He Hch Hp. destruct (t_edge _ _ HT _ _ _ _ He) as (Hir & _ & li & qi & Hi & Hq). specialize (Hq eq_refl). subst qi.
  assert (Hpi : p <> i) by (intros ->; by apply (Hch n (i, TypeDirectory))). split; [done|].
  destruct (t_root _ _ HT) as [lr Hr]. set (N' := nset p _ _).
  assert (Hup : forall j t' l q, j <> i -> N j = Some (t', l, q) -> exists l', N' j = Some (t', l', q)).
  { intros j t' l q Hne Hj. unfold N', nset. repeat case_decide; simplify_eq; eauto. }
  assert (Hc : forall k, k <> i -> climbs N nowhere k -> climbs N' nowhere k).
  { intros k Hk H. eapply climbs_past; [exact H|exact Hk| |eauto]. intros j l q. by apply (childless_parent _ _ _ _ _ _ HT). }
  split.
  - destruct (Hup RootInode _ _ _ (not_eq_sym Hir) Hr); eauto.
  - intros p' n' j t' [Hne Hj]%lookup_delete_Some. destruct (t_edge _ _ HT _ _ _ _ Hj) as (Hjr & (l1 & q1 & H1) & l2 & q2 & H2 & Hq).
    assert (Hp'i : p' <> i) by (intros ->; by apply (Hch n' (j, t'))).
    assert (Hji : j <> i).
    { intros ->. destruct (t_dir _ _ HT _ _ _ Hi) as [_ H1']. specialize (H1' Hir).
      assert (linksTo i (delete (p, n) E) = 0) as Hz by (rewrite (linksTo_delete _ _ _ _ _ _ He), decide_True by done; lia).
      assert (Hj' : delete (p, n) E !! (p', n') = Some (i, t')) by (by rewrite lookup_delete_ne). pose proof (linksTo_pos _ _ _ _ _ Hj'). lia. }
    destruct (Hup _ _ _ _ Hp'i H1), (Hup _ _ _ _ Hji H2). eauto 10.
  - intros j l q Hj. rewrite (linksTo_delete _ _ _ _ _ _ He), (subdirs_delete _ _ _ _ _ _ He).
    apply nset2_inv in Hj as [[-> Hj]|[(? & -> & Hj)|(? & ? & Hj)]]; [injection Hj as <- <-|done|].
    + destruct (t_dir _ _ HT _ _ _ Hp). counts.
    + destruct (t_dir _ _ HT _ _ _ Hj). counts.
  - intros j t' l q Hj Ht. rewrite (linksTo_delete _ _ _ _ _ _ He).
    apply nset2_inv in Hj as [[-> Hj]|[(? & -> & Hj)|(? & ? & Hj)]]; [congruence|done|]. rewrite (t_file _ _ HT _ _ _ _ Hj Ht). counts.
  - intros j l q Hj. apply nset2_inv in Hj as [[-> Hj]|[(? & -> & Hj)|(? & ? & Hj)]]; [|done|]; (apply Hc; [done|]); by eapply (t_climbs _ _ HT).
Qed.

(** Moving things: directories in [X] get a new parent that climbs to the root
    without meeting [X]; everything else stays where it is. *)
Lemma tree_relocate (X : Z -> Prop) N' E' :
  (forall j, linksTo j E' = linksTo j E) ->
  (forall j, N j = None -> N' j = None) ->
  (forall j t l q, N j = Some (t, l, q) -> t <> TypeDirectory -> exists q', N' j = Some (t, l, q')) ->
  (forall j l q, N j = Some (TypeDirectory, l, q) -> exists q', N' j = Some (TypeDirectory, l + (subdirs j E' - subdirs j E), q') /\
     (q' = q \/ (X j /\ climbs N X q')) /\ (~ X j -> q' = q)) ->
  (forall j, X j \/ ~ X j) -> ~ X RootInode ->
  (forall p n i t, E' !! (p, n) = Some (i, t) -> i <> RootInode /\ (exists l q, N p = Some (TypeDirectory, l, q)) /\
     (exists l q, N i = Some (t, l, q)) /\ (t = TypeDirectory -> exists l, N' i = Some (TypeDirectory, l, p))) ->
  (forall j l q, X j -> N j = Some (TypeDirectory, l, q) -> exists l' q', N' j = Some (TypeDirectory, l', q') /\ climbs N X q') ->
  tree N' E'.
Proof.
  intros Hl Hnone Hfile Hdir Hdec Hroot Hedge Hmoved. destruct (t_root _ _ HT) as [lr Hr].
  assert (Havoid : forall q, climbs N X q -> climbs N' nowhere q).
  { intros q Hq. eapply climbs_change; [exact Hq|done|]. intros j l q' Hj Hn. destruct (Hdir _ _ _ Hn) as (q2 & Hn' & _ & Hq2).
    rewrite Hq2 in Hn' by done. eauto. }
  assert (Hc : forall j, climbs N nowhere j -> climbs N' nowhere j).
  { intros j H. induction H as [|j l q _ Hn H IH]; [by constructor|]. destruct (Hdec j) as [Hx|Hx].
    - destruct (Hmoved _ _ _ Hx Hn) as (l' & q' & Hn' & Hcl). eapply climbs_up; [by intros []|exact Hn'|]. by apply Havoid.
    - destruct (Hdir _ _ _ Hn) as (q' & Hn' & _ & Hq'). rewrite Hq' in Hn' by done. by eapply climbs_up; [intros []|exact Hn'|]. }
  assert (Hback : forall j t l' q', N' j = Some (t, l', q') -> exists l q, N j = Some (t, l, q) /\
    l' = if decide (t = TypeDirectory) then l + (subdirs j E' - subdirs j E) else l).
  { intros j t l' q' Hj. destruct (N j) as [[[tj lj] qj]|] eqn:En; [|by rewrite Hnone in Hj].
    destruct (decide (tj = TypeDirectory)) as [->|Ht].
    - destruct (Hdir _ _ _ En) as (q2 & Hn' & _). rewrite Hn' in Hj. injection Hj as <- <- <-. eexists _, _. split; [done|]. by rewrite decide_True.
    - destruct (Hfile _ _ _ _ En Ht) as [q2 Hn']. rewrite Hn' in Hj. injection Hj as <- <- <-. eexists _, _. split; [done|]. by rewrite decide_False. }
  split.
  - destruct (Hdir _ _ _ Hr) as (q' & Hn' & _ & Hq'). rewrite Hq' in Hn' by done. eauto.
  - intros p n i t He. destruct (Hedge _ _ _ _ He) as (Hir & (lp & pp & Hp) & (li & qi & Hi) & Hd). split; [done|].
    split; [destruct (Hdir _ _ _ Hp) as (q' & Hn' & _); eauto|].
    destruct (decide (t = TypeDirectory)) as [->|Ht].
    + destruct (Hd eq_refl) as [l' Hl']. eauto.
    + destruct (Hfile _ _ _ _ Hi Ht) as [q' Hn']. eexists _, _. split; [exact Hn'|done].
  - intros j l q Hj. destruct (Hback _ _ _ _ Hj) as (l0 & q0 & H0 & Heq). rewrite decide_True in Heq by done.
    destruct (t_dir _ _ HT _ _ _ H0). rewrite Hl. split; [lia|done].
  - intros j t l q Hj Ht. destruct (Hback _ _ _ _ Hj) as (l0 & q0 & H0 & Heq). rewrite decide_False in Heq by done.
    rewrite Hl, Heq. by eapply (t_file _ _ HT).
  - intros j l q Hj. destruct (Hback _ _ _ _ Hj) as (l0 & q0 & H0 & _). apply Hc. by eapply (t_climbs _ _ HT).
Qed.

(** A directory has one name. *)
Lemma dir_name_unique p n p' n' i t : E !! (p, n) = Some (i, t) -> E !! (p', n') = Some (i, TypeDirectory) -> (p, n) = (p', n').
Proof.
  intros He Hd. destruct (decide ((p, n) = (p', n'))) as [|Hne]; [done|]. exfalso.
  destruct (t_edge _ _ HT _ _ _ _ Hd) as (Hir & _ & l & q & Hi & _). destruct (t_dir _ _ HT _ _ _ Hi) as [_ H1]. specialize (H1 Hir).
  assert (He' : delete (p', n') E !! (p, n) = Some (i, t)) by (by rewrite lookup_delete_ne).
  pose proof (linksTo_pos _ _ _ _ _ He') as Hp. rewrite (linksTo_delete _ _ _ _ _ _ Hd), decide_True in Hp by done. lia.
Qed.

Lemma linksTo_replace (F : edges) p n j t j' t' i : F !! (p, n) = Some (j, t) ->
  linksTo i (<[(p, n) := (j', t')]> F) = linksTo i F - (if decide (j = i) then 1 else 0) + (if decide (j' = i) then 1 else 0).
Proof. intros H. rewrite <- insert_delete_eq, linksTo_insert by apply lookup_delete_eq. by rewrite (linksTo_delete _ _ _ _ _ _ H). Qed.
Lemma subdirs_replace (F : edges) p n j t j' t' q : F !! (p, n) = Some (j, t) ->
  subdirs q (<[(p, n) := (j', t')]> F) = subdirs q F - (if decide (p = q /\ t = TypeDirectory) then 1 else 0) + (if decide (p = q /\ t' = TypeDirectory) then 1 else 0).
Proof. intros H. rewrite <- insert_delete_eq, subdirs_insert by apply lookup_delete_eq. by rewrite (subdirs_delete _ _ _ _ _ _ H). Qed.

(** What a relocation does to a node: a new parent for some, the link counts of
    directories. *)
Definition moved (par : Z -> Z -> Z) (dl : Z -> Z) : nodes := fun j => '(t, l, q) ← N j; Some (t, l + dl j, par j q).

Lemma tree_move p1 n1 p2 n2 s t :
  E !! (p1, n1) = Some (s, t) -> E !! (p2, n2) = None -> (exists l q, N p2 = Some (TypeDirectory, l, q)) ->
  (t = TypeDirectory -> climbs N (eq s) p2) ->
  tree (moved (fun j q => if decide (j = s) then p2 else q)
          (fun j => if decide (t = TypeDirectory) then (if decide (j = p2) then 1 else 0) - (if decide (j = p1) then 1 else 0) else 0))
       (<[(p2, n2) := (s, t)]> (delete (p1, n1) E)).
Proof.
  intros He1 He2 Hp2 Hcl. destruct (t_edge _ _ HT _ _ _ _ He1) as (Hsr & (l1 & q1 & Hp1) & ls & qs & Hs & _).
  assert (He2' : delete (p1, n1) E !! (p2, n2) = None) by (by apply lookup_delete_None; right).
  assert (Hsub : forall j, subdirs j (<[(p2, n2) := (s, t)]> (delete (p1, n1) E)) - subdirs j E =
    if decide (t = TypeDirectory) then (if decide (j = p2) then 1 else 0) - (if decide (j = p1) then 1 else 0) else 0).
  { intros j. rewrite subdirs_insert, (subdirs_delete _ _ _ _ _ _ He1) by done. counts. }
  apply (tree_relocate (fun j => t = TypeDirectory /\ j = s)).
  - intros j. rewrite linksTo_insert, (linksTo_delete _ _ _ _ _ _ He1) by done. lia.
  - intros j Hj. unfold moved. by rewrite Hj.
  - intros j t' l q Hj Ht'. unfold moved. rewrite Hj. cbn. eexists. do 3 f_equal. destruct (decide (t = TypeDirectory)); [|lia].
    destruct Hp2 as (l2 & q2 & Hp2). rewrite !decide_False by congruence. lia.
  - intros j l q Hj. unfold moved. rewrite Hj. cbn. rewrite <- Hsub. eexists. split; [done|].
    destruct (decide (j = s)) as [->|Hjs]; [|split; [by left|done]]. assert (Ht : t = TypeDirectory) by congruence.
    split; [|naive_solver]. right. split; [done|]. eapply climbs_change; [by apply Hcl|naive_solver|]. intros k l' q' _ Hk. eauto.
  - intros j. destruct (decide (t = TypeDirectory)), (decide (j = s)); naive_solver.
  - naive_solver.
  - intros p n i t' Hi. destruct (decide ((p2, n2) = (p, n))) as [[= <- <-]|Hne].
    + rewrite lookup_insert_eq in Hi. injection Hi as <- <-. split_and!; [done|done|eauto|]. intros ->.
      unfold moved. rewrite Hs. cbn. eexists. by rewrite (decide_True (P := s = s)).
    + rewrite lookup_insert_ne in Hi by done. apply lookup_delete_Some in Hi as [Hne1 Hi].
      destruct (t_edge _ _ HT _ _ _ _ Hi) as (Hir & Hp & li & qi & Hii & Hq). split_and!; [done|done|eauto|]. intros ->.
      unfold moved. rewrite Hii. cbn. rewrite Hq by done. destruct (decide (i = s)) as [->|]; [exfalso|eauto].
      by destruct Hne1; eapply dir_name_unique.
  - intros j l q [-> ->] Hj. unfold moved. rewrite Hj. cbn. rewrite (decide_True (P := s = s)) by done. eexists _, _. split; [done|].
    eapply climbs_change; [by apply Hcl|naive_solver|]. intros k l' q' _ Hk. eauto.
Qed.

Lemma tree_exchange p1 n1 p2 n2 s ts d td :
  E !! (p1, n1) = Some (s, ts) -> E !! (p2, n2) = Some (d, td) -> s <> d ->
  let X j := (ts = TypeDirectory /\ j = s) \/ (td = TypeDirectory /\ j = d) in
  (ts = TypeDirectory -> climbs N X p2) -> (td = TypeDirectory -> climbs N X p1) ->
  let delta := (if decide (ts = TypeDirectory) then 1 else 0) - (if decide (td = TypeDirectory) then 1 else 0) in
  tree (moved (fun j q => if decide (j = s) then p2 else if decide (j = d) then p1 else q)
          (fun j => (if decide (j = p2) then delta else 0) - (if decide (j = p1) then delta else 0)))
       (<[(p2, n2) := (s, ts)]> (<[(p1, n1) := (d, td)]> E)).
Proof.
  intros He1 He2 Hsd X Hc2 Hc1 delta. assert (Hk : (p1, n1) <> (p2, n2)) by congruence.
  destruct (t_edge _ _ HT _ _ _ _ He1) as (Hsr & (l1 & q1 & Hp1) & ls & qs & Hs & _).
  destruct (t_edge _ _ HT _ _ _ _ He2) as (Hdr & (l2 & q2 & Hp2) & ld & qd & Hd & _).
  assert (He2' : <[(p1, n1) := (d, td)]> E !! (p2, n2) = Some (d, td)) by (by rewrite lookup_insert_ne).
  assert (Hsub : forall j, subdirs j (<[(p2, n2) := (s, ts)]> (<[(p1, n1) := (d, td)]> E)) - subdirs j E =
    (if decide (j = p2) then delta else 0) - (if decide (j = p1) then delta else 0)).
  { intros j. rewrite (subdirs_replace _ _ _ _ _ _ _ _ He2'), (subdirs_replace _ _ _ _ _ _ _ _ He1). unfold delta. counts. }
  assert (Hdecide : forall j, X j \/ ~ X j).
  { intros j. unfold X. destruct (decide (ts = TypeDirectory)), (decide (td = TypeDirectory)), (decide (j = s)), (decide (j = d)); naive_solver. }
  apply (tree_relocate X).
  - intros j. rewrite (linksTo_replace _ _ _ _ _ _ _ _ He2'), (linksTo_replace _ _ _ _ _ _ _ _ He1). counts.
  - intros j Hj. unfold moved. by rewrite Hj.
  - intros j t' l q Hj Ht'. unfold moved. rewrite Hj. cbn. eexists. do 3 f_equal. rewrite !decide_False by congruence. lia.
  - intros j l q Hj. unfold moved. rewrite Hj. cbn. rewrite <- Hsub. eexists. split; [done|]. unfold X.
    destruct (decide (j = s)) as [->|Hjs]; [assert (ts = TypeDirectory) by congruence; split; [right|]; naive_solver|].
    destruct (decide (j = d)) as [->|Hjd]; [assert (td = TypeDirectory) by congruence; split; [right|]; naive_solver|].
    split; [by left|done].
  - done.
  - unfold X. naive_solver.
  - intros p n i t Hi. destruct (decide ((p2, n2) = (p, n))) as [[= <- <-]|Hne2].
    { rewrite lookup_insert_eq in Hi. injection Hi as <- <-. split_and!; [done|eauto|eauto|]. intros ->.
      unfold moved. rewrite Hs. cbn. eexists. by rewrite (decide_True (P := s = s)). }
    rewrite lookup_insert_ne in Hi by done. destruct (decide ((p1, n1) = (p, n))) as [[= <- <-]|Hne1].
    { rewrite lookup_insert_eq in Hi. injection Hi as <- <-. split_and!; [done|eauto|eauto|]. intros ->.
      unfold moved. rewrite Hd. cbn. eexists. by rewrite (decide_False (P := d = s)), (decide_True (P := d = d)). }
    rewrite lookup_insert_ne in Hi by done. destruct (t_edge _ _ HT _ _ _ _ Hi) as (Hir & Hp & li & qi & Hii & Hq).
    split_and!; [done|done|eauto|]. intros ->. unfold moved. rewrite Hii. cbn. rewrite Hq by done.
    destruct (decide (i = s)) as [->|]; [by destruct Hne1; eapply dir_name_unique|].
    destruct (decide (i = d)) as [->|]; [by destruct Hne2; eapply dir_name_unique|]. eauto.
  - intros j l q Hx Hj. unfold moved. rewrite Hj. cbn. eexists _, _. split; [done|].
    destruct Hx as [[Ht ->]|[Ht ->]]; [rewrite (decide_True (P := s = s)) by done; auto|].
    rewrite (decide_False (P := d = s)), (decide_True (P := d = d)) by done. auto.
Qed.
End Steps.
