(* ===== verification/TreeOps.v ===== *)
(** The operations of [MetaTree] keep the tree ([TreeSpec]), one by one and over
    histories; what follows for lookups and for the scope walk. *)

From S2P Require Import Prelude GoStrings Overlay MetaDb FileMeta MetaTree TreeSpec.

(** The view of a node the invariant is about. *)
Definition view (a : Attr) : Z * Z * Z := (Typ a, Nlink a, Parent a).
Definition nv (d : db) : nodes := fun i => view <$> node d !! i.
Definition tree_ok (d : db) : Prop := tree (nv d) (edge d).

Lemma nv_Some d i t l q : nv d i = Some (t, l, q) <-> exists a, node d !! i = Some a /\ Typ a = t /\ Nlink a = l /\ Parent a = q.
Proof. unfold nv, view. destruct (node d !! i); cbn; naive_solver. Qed.
Lemma nv_None d i : nv d i = None <-> node d !! i = None.
Proof. unfold nv. destruct (node d !! i); cbn; naive_solver. Qed.
Lemma nv_node d i a : node d !! i = Some a -> nv d i = Some (view a).
Proof. unfold nv. by intros ->. Qed.

Lemma isDirT_spec t : isDirT t = bool_decide (t = TypeDirectory).
Proof. unfold isDirT. destruct (Z.eqb_spec t TypeDirectory); [by rewrite bool_decide_true|by rewrite bool_decide_false]. Qed.
Lemma isDirT_true t : isDirT t = true <-> t = TypeDirectory.
Proof. rewrite isDirT_spec. apply bool_decide_eq_true. Qed.
Lemma isDirT_false t : isDirT t = false <-> t <> TypeDirectory.
Proof. rewrite isDirT_spec. apply bool_decide_eq_false. Qed.

(** ** Views after updates *)

Lemma nv_upd i g d j : nv (updNode i g d) j = if decide (j = i) then (fun a => view (g a)) <$> node d !! i else nv d j.
Proof.
  unfold nv, updNode. cbn. case_decide; subst; [|by rewrite lookup_alter_ne].
  rewrite lookup_alter_eq. by destruct (node d !! i).
Qed.
Lemma nv_keep i g d j : (forall a, view (g a) = view a) -> nv (updNode i g d) j = nv d j.
Proof. intros H. rewrite nv_upd. case_decide; subst; [|done]. unfold nv. destruct (node d !! i); cbn; [|done]. by rewrite H. Qed.
Lemma nv_log t i op p d j : nv (appendChangelog t i op p d) j = nv d j.
Proof. done. Qed.
Lemma nv_parents t p1 p2 d j : nv (touchParents t p1 p2 d) j = nv d j.
Proof. unfold touchParents. destruct (p1 =? p2); by rewrite !nv_keep. Qed.
Lemma edge_parents t p1 p2 d : edge (touchParents t p1 p2 d) = edge d.
Proof. unfold touchParents. by destruct (p1 =? p2). Qed.

(** A change that leaves views and edges alone. *)
Lemma tree_same d d' : tree_ok d -> edge d' = edge d -> (forall j, nv d' j = nv d j) -> tree_ok d'.
Proof. intros HT He Hn. unfold tree_ok. rewrite He. by eapply tree_ext. Qed.

Lemma insert_view d i a a' : node d !! i = Some a -> view a' = view a -> forall j, view <$> <[i := a']> (node d) !! j = nv d j.
Proof.
  intros Ha Hv j. unfold nv. destruct (decide (j = i)) as [->|Hj]; [by rewrite lookup_insert_eq, Ha; cbn; rewrite Hv|by rewrite lookup_insert_ne].
Qed.

(** ** Each transaction *)

Lemma create_tree t i p n typ mode rdev target op c d d' :
  createBody t i p n typ mode rdev target op c d = TxOk d' -> tree_ok d -> tree_ok d'.
Proof.
  unfold createBody. intros H HT. destruct (node d !! p) as [pa|] eqn:Ep; [|done].
  destruct (isDirT (Typ pa)) eqn:Et; [|done]. apply isDirT_true in Et. cbn [negb] in H.
  destruct (edge d !! (p, n)) eqn:Ee; [done|]. destruct (node d !! i) eqn:Ei; [done|].
  destruct (_ && _); [done|]. injection H as <-. unfold tree_ok.
  replace (edge _) with (<[(p, n) := (i, typ)]> (edge d)) by (by destruct (typ =? TypeSymlink)).
  eapply tree_ext; [apply (tree_add _ _ HT p n i typ (Nlink pa) (Parent pa) Ee)|].
  - by apply nv_None.
  - rewrite (nv_node _ _ _ Ep). unfold view. by rewrite Et.
  - intros j. rewrite nv_log, nv_upd. assert (Hip : i <> p) by congruence. unfold nset.
    destruct (decide (j = p)) as [->|Hj].
    + replace (node _ !! p) with (Some pa) by (destruct (typ =? TypeSymlink); cbn; by rewrite lookup_insert_ne).
      cbn. unfold view. rewrite isDirT_spec. destruct (decide (typ = TypeDirectory)) as [Hd|Hd].
      * rewrite bool_decide_true by done. cbn. by rewrite Et.
      * rewrite bool_decide_false by done. cbn. by rewrite Et, Z.add_0_r.
    + unfold nv. replace (node _ !! j) with (<[i := newAttr t typ mode rdev target p c]> (node d) !! j) by (by destruct (typ =? TypeSymlink)).
      destruct (decide (j = i)) as [->|Hji]; [|by rewrite lookup_insert_ne]. rewrite lookup_insert_eq. cbn. unfold view. cbn.
      rewrite isDirT_spec. destruct (decide (typ = TypeDirectory)); [by rewrite bool_decide_true|by rewrite bool_decide_false].
Qed.

Lemma nv_deleteRows i d j : nv (deleteInodeRows i d) j = if decide (j = i) then None else nv d j.
Proof. unfold nv. cbn. case_decide; subst; [by rewrite lookup_delete_eq|by rewrite lookup_delete_ne]. Qed.

Lemma unlink_tree t open p n d d' : unlinkBody t open p n d = TxOk d' -> tree_ok d -> tree_ok d'.
Proof.
  unfold unlinkBody. intros H HT. destruct (edge d !! (p, n)) as [[i typ]|] eqn:Ee; [|done].
  destruct (isDirT typ) eqn:Et; [done|]. apply isDirT_false in Et. cbn [delEdge node set_edge] in H.
  destruct (node d !! i) as [a|] eqn:Ei; [|done]. injection H as <-.
  destruct (t_edge _ _ HT _ _ _ _ Ee) as (_ & _ & l & q & Hi & _). rewrite (nv_node _ _ _ Ei) in Hi. injection Hi as Hti <- <-.
  set (gone := (Nlink a - 1 <=? 0) && negb (open i)).
  unfold tree_ok. replace (edge _) with (delete (p, n) (edge d)) by (by destruct gone).
  eapply tree_ext; [apply (tree_unlink _ _ HT p n i typ (Nlink a) (Parent a) (if gone then None else Some (typ, Nlink a - 1, Parent a)) Ee)|].
  - rewrite (nv_node _ _ _ Ei). unfold view. by rewrite Hti.
  - done.
  - destruct gone eqn:Eg; [right|by left]. split; [done|]. unfold gone in Eg. apply andb_true_iff in Eg as [Eg _]. lia.
  - intros j. rewrite nv_log, nv_keep by done. unfold nset. destruct gone; rewrite ?nv_deleteRows, ?nv_upd.
    + by destruct (decide (j = i)).
    + case_decide; [|done]. cbn. rewrite Ei. cbn. unfold view. cbn. by rewrite Hti.
Qed.

Lemma childless d i : childCount i d = 0%nat -> forall m x, edge d !! (i, m) <> Some x.
Proof.
  unfold childCount, children. intros H m x Hm. apply map_size_empty_iff in H.
  assert (Hl : filter (fun kv => kv.1.1 = i) (edge d) !! (i, m) = Some x) by (by apply map_lookup_filter_Some). by rewrite H in Hl.
Qed.

Lemma rmdir_tree t p n d d' : rmdirBody t p n d = TxOk d' -> tree_ok d -> tree_ok d'.
Proof.
  unfold rmdirBody. intros H HT. destruct (edge d !! (p, n)) as [[i typ]|] eqn:Ee; [|done].
  destruct (isDirT typ) eqn:Et; [|done]. apply isDirT_true in Et as ->. cbn [negb] in H.
  case_bool_decide as Hc; [done|]. injection H as <-.
  assert (Hch := childless d i ltac:(destruct (childCount i d); [done|by destruct Hc])).
  destruct (t_edge _ _ HT _ _ _ _ Ee) as (_ & (lp & pp & Hp) & _).
  destruct (tree_rmdir _ _ HT p n i lp pp Ee Hch Hp) as [Hpi HT']. eapply tree_ext; [exact HT'|].
  intros j. rewrite nv_log, nv_upd. unfold nset. apply nv_Some in Hp as (pa & Ep & Ht & Hl & Hq).
  destruct (decide (j = p)) as [->|Hj].
  - replace (node _ !! p) with (Some pa) by (cbn; by rewrite lookup_delete_ne). cbn. unfold view. cbn. by rewrite Ht, <- Hl, Hq.
  - unfold nv. cbn. case_decide; subst; [by rewrite lookup_delete_eq|by rewrite lookup_delete_ne].
Qed.

Lemma link_tree t i p n d d' : linkBody t i p n d = TxOk d' -> tree_ok d -> tree_ok d'.
Proof.
  unfold linkBody. intros H HT. destruct (node d !! i) as [a|] eqn:Ei; [|done]. destruct (isDirT (Typ a)) eqn:Et; [done|]. apply isDirT_false in Et.
  destruct (node d !! p) as [pa|] eqn:Ep; [|done]. destruct (isDirT (Typ pa)) eqn:Etp; [|done]. apply isDirT_true in Etp. cbn [negb] in H.
  destruct (edge d !! (p, n)) eqn:Ee; [done|]. injection H as <-.
  eapply tree_ext; [apply (tree_link _ _ HT p n i (Typ a) (Nlink a) (Parent a) (Nlink pa) (Parent pa) Ee)|].
  - by rewrite (nv_node _ _ _ Ei).
  - done.
  - rewrite (nv_node _ _ _ Ep). unfold view. by rewrite Etp.
  - intros j. rewrite nv_log, nv_keep, nv_upd by done. unfold nset. case_decide; [|done]. cbn. by rewrite Ei.
Qed.

(** ** Moves *)

(** What the kernel checks before a rename: the destination is a directory that
    does not lie below a directory that moves there. *)
Definition mayMove (d : db) (p1 : Z) (n1 : string) (p2 : Z) : Prop :=
  (exists l q, nv d p2 = Some (TypeDirectory, l, q)) /\
  forall s, edge d !! (p1, n1) = Some (s, TypeDirectory) -> climbs (nv d) (eq s) p2.

(** And for an exchange: neither parent lies below either directory. *)
Definition mayExchange (d : db) (p1 : Z) (n1 : string) (p2 : Z) (n2 : string) : Prop :=
  forall s ts e te, edge d !! (p1, n1) = Some (s, ts) -> edge d !! (p2, n2) = Some (e, te) ->
    let X j := (ts = TypeDirectory /\ j = s) \/ (te = TypeDirectory /\ j = e) in
    (ts = TypeDirectory -> climbs (nv d) X p2) /\ (te = TypeDirectory -> climbs (nv d) X p1).

Lemma nv_map i g gv d j : (forall a, view (g a) = gv (view a)) -> nv (updNode i g d) j = (if decide (j = i) then gv <$> nv d j else nv d j).
Proof. intros H. rewrite nv_upd. case_decide; [|done]. subst. unfold nv. destruct (node d !! i); cbn; [by rewrite H|done]. Qed.

Lemma nv_add i n d j : nv (updNode i (add_nlink n) d) j = '(t, l, q) ← nv d j; Some (t, l + (if decide (j = i) then n else 0), q).
Proof.
  rewrite (nv_map _ _ (fun v => (v.1.1, v.1.2 + n, v.2))) by done. destruct (nv d j) as [[[t l] q]|]; case_decide; cbn; try done.
  by rewrite Z.add_0_r.
Qed.
Lemma nv_reparent i t p d j : nv (updNode i (fun a => touchC t (with_parent p a)) d) j = '(ty, l, q) ← nv d j; Some (ty, l, if decide (j = i) then p else q).
Proof. rewrite (nv_map _ _ (fun v => (v.1, p))) by done. destruct (nv d j) as [[[ty l] q]|]; case_decide; done. Qed.

Lemma nv_moveEdge t p1 n1 p2 n2 s ty dd d j :
  nv (moveEdge t p1 n1 p2 n2 s ty dd d) j =
  '(tj, l, q) ← nv d j;
  Some (tj, l + (if decide (j = p2) then dd else 0) +
        (if decide (ty = TypeDirectory) then (if decide (j = p2) then 1 else 0) - (if decide (j = p1) then 1 else 0) else 0),
        if decide (j = s) then p2 else q).
Proof.
  unfold moveEdge. rewrite nv_log, nv_parents, !nv_add, nv_reparent, isDirT_spec.
  change (nv (putEdge p2 n2 s ty (delEdge p1 n1 d)) j) with (nv d j). destruct (nv d j) as [[[tj l] q]|]; [|done]. cbn. do 3 f_equal.
  destruct (decide (ty = TypeDirectory)); [rewrite bool_decide_true by done|rewrite bool_decide_false by done]; cbn [andb];
    destruct (Z.eqb_spec p1 p2); cbn [negb]; repeat case_decide; subst; try done; lia.
Qed.

Lemma edge_moveEdge t p1 n1 p2 n2 s ty dd d : edge (moveEdge t p1 n1 p2 n2 s ty dd d) = <[(p2, n2) := (s, ty)]> (delete (p1, n1) (edge d)).
Proof. unfold moveEdge. cbn. by rewrite edge_parents. Qed.

(** [tree_move] on a database: [N] is the tree before the edge moves. *)
Lemma moveEdge_tree N t p1 n1 p2 n2 s ty dd d :
  tree N (edge d) -> (forall j, N j = '(tj, l, q) ← nv d j; Some (tj, l + (if decide (j = p2) then dd else 0), q)) ->
  edge d !! (p1, n1) = Some (s, ty) -> edge d !! (p2, n2) = None -> (exists l q, N p2 = Some (TypeDirectory, l, q)) ->
  (ty = TypeDirectory -> climbs N (eq s) p2) -> tree_ok (moveEdge t p1 n1 p2 n2 s ty dd d).
Proof.
  intros HT HN He1 He2 Hp2 Hc. unfold tree_ok. rewrite edge_moveEdge. eapply tree_ext; [by eapply (tree_move _ _ HT p1 n1 p2 n2)|].
  intros j. rewrite nv_moveEdge. unfold moved. rewrite HN. by destruct (nv d j) as [[[tj l] q]|].
Qed.

Lemma rename_tree t nr p1 n1 p2 n2 d d' :
  renameBody t nr p1 n1 p2 n2 d = TxOk d' -> mayMove d p1 n1 p2 -> tree_ok d -> tree_ok d'.
Proof.
  unfold renameBody. intros H [Hp2 Hcl] HT. destruct (edge d !! (p1, n1)) as [[s ty]|] eqn:E1; [|done].
  destruct (edge d !! (p2, n2)) as [[e te]|] eqn:E2.
  2:{ injection H as <-. eapply (moveEdge_tree (nv d)); [exact HT| |done|done|done|by intros ->; apply Hcl].
      intros j. destruct (nv d j) as [[[tj l] q]|]; [|done]. cbn. case_decide; by rewrite Z.add_0_r. }
  destruct nr; [done|]. destruct (Z.eqb_spec e s); [by injection H as <-|].
  assert (Hk : (p1, n1) <> (p2, n2)) by congruence.
  destruct (isDirT te) eqn:Ete, (isDirT ty) eqn:Ety; cbn [negb andb] in H; try done.
  - (* an empty directory makes way *)
    apply isDirT_true in Ete as ->, Ety as ->. case_bool_decide as Hc; [done|]. injection H as <-.
    assert (Hch := childless d e ltac:(destruct (childCount e d); [done|by destruct Hc])).
    destruct Hp2 as (lp & pp & Hp2). destruct (tree_rmdir _ _ HT p2 n2 e lp pp E2 Hch Hp2) as [Hpe HT'].
    destruct (t_edge _ _ HT _ _ _ _ E2) as (Her & _).
    eapply moveEdge_tree; [exact HT'| |cbn; by rewrite lookup_delete_ne|cbn; apply lookup_delete_eq|eexists _, _; apply nset_eq|].
    + intros j. unfold nset, nv. cbn. case_decide; [subst j|].
      * rewrite lookup_delete_ne by done. fold (nv d p2). rewrite Hp2. cbn. done.
      * case_decide; [subst; by rewrite lookup_delete_eq|]. rewrite lookup_delete_ne by done.
        destruct (node d !! j); cbn; [by rewrite Z.add_0_r|done].
    + intros _. eapply (climbs_past _ _ _ e); [by apply Hcl|done| |].
      * intros j l q. by apply (childless_parent _ _ _ _ _ _ HT).
      * intros j l q Hj Hn. unfold nset. case_decide; [subst; simplify_eq; eauto|]. rewrite decide_False by done. eauto.
  - (* a file is replaced *)
    apply isDirT_false in Ete, Ety. destruct (node d !! e) as [a|] eqn:Ea; [|done]. injection H as <-.
    destruct (t_edge _ _ HT _ _ _ _ E2) as (_ & _ & l & q & Hi & _). rewrite (nv_node _ _ _ Ea) in Hi. injection Hi as Hti <- <-.
    set (gone := Nlink a - 1 <=? 0).
    assert (HT' : tree (nset e (if gone then None else Some (te, Nlink a - 1, Parent a)) (nv d)) (delete (p2, n2) (edge d))).
    { apply (tree_unlink _ _ HT p2 n2 e te (Nlink a) (Parent a)); [done| |done|].
      - rewrite (nv_node _ _ _ Ea). unfold view. by rewrite Hti.
      - unfold gone. destruct (Z.leb_spec (Nlink a - 1) 0); [by right|by left]. }
    eapply moveEdge_tree.
    + replace (edge _) with (delete (p2, n2) (edge d)) by (by destruct gone). exact HT'.
    + intros j. unfold nset. destruct gone; unfold nv; cbn.
      * case_decide; [subst; by rewrite lookup_delete_eq|]. rewrite lookup_delete_ne, lookup_alter_ne by done.
        destruct (node d !! j); cbn; [|done]. case_decide; by rewrite Z.add_0_r.
      * case_decide; [subst j; rewrite lookup_alter_eq, Ea; cbn; rewrite Hti; case_decide; by rewrite ?Z.add_0_r|].
        rewrite lookup_alter_ne by done. destruct (node d !! j); cbn; [|done]. case_decide; by rewrite Z.add_0_r.
    + replace (edge _) with (delete (p2, n2) (edge d)) by (by destruct gone). by rewrite lookup_delete_ne.
    + replace (edge _) with (delete (p2, n2) (edge d)) by (by destruct gone). apply lookup_delete_eq.
    + destruct Hp2 as (lp & pp & Hp2). exists lp, pp. rewrite nset_ne; [done|]. intros ->.
      rewrite (nv_node _ _ _ Ea) in Hp2. unfold view in Hp2. congruence.
    + done.
Qed.

Lemma exchange_tree t p1 n1 p2 n2 d d' :
  exchangeBody t p1 n1 p2 n2 d = TxOk d' -> mayExchange d p1 n1 p2 n2 -> tree_ok d -> tree_ok d'.
Proof.
  unfold exchangeBody. intros H Hm HT. destruct (edge d !! (p1, n1)) as [[s ts]|] eqn:E1; [|done].
  destruct (edge d !! (p2, n2)) as [[e te]|] eqn:E2; [|done]. destruct (Z.eqb_spec s e); [by injection H as <-|].
  injection H as <-. destruct (Hm _ _ _ _ E1 E2) as [Hc2 Hc1]. unfold tree_ok.
  replace (edge _) with (<[(p2, n2) := (s, ts)]> (<[(p1, n1) := (e, te)]> (edge d)))
    by (cbn; rewrite edge_parents; by destruct (p1 =? p2)).
  eapply tree_ext; [by apply (tree_exchange _ _ HT p1 n1 p2 n2 s ts e te)|].
  intros j. rewrite nv_log, nv_parents, !isDirT_spec. unfold moved.
  set (d0 := updNode e _ _). assert (H0 : nv d0 j = '(ty, l, q) ← nv d j; Some (ty, l, if decide (j = s) then p2 else if decide (j = e) then p1 else q)).
  { unfold d0. rewrite !nv_reparent. change (nv (putEdge _ _ _ _ _) j) with (nv d j). destruct (nv d j) as [[[ty l] q]|]; [|done]. cbn.
    do 2 f_equal. repeat case_decide; subst; done. }
  destruct (Z.eqb_spec p1 p2) as [->|Hp]; rewrite ?nv_add, ?H0; (destruct (nv d j) as [[[ty l] q]|]; [|done]); cbn; do 3 f_equal.
  - repeat case_decide; lia.
  - repeat case_decide; repeat case_bool_decide; subst; try done; lia.
Qed.

(** ** Transactions that keep views and edges *)

Lemma write_tree t i indx off s d d' : writeBody t i indx off s d = TxOk d' -> edge d' = edge d /\ forall j, nv d' j = nv d j.
Proof.
  unfold writeBody. destruct (node d !! i) as [a|] eqn:Ea; [|done]. destruct (negb _); [done|]. destruct (negb _); [done|].
  destruct (existsb _ _); intros [= <-]; split; try done. by eapply insert_view.
Qed.
Lemma truncate_tree t i size d d' : truncateBody t i size d = TxOk d' -> edge d' = edge d /\ forall j, nv d' j = nv d j.
Proof.
  unfold truncateBody. destruct (node d !! i) as [a|] eqn:Ea; [|done]. destruct (_ =? _); [done|].
  intros [= <-]. split; [done|]. by eapply insert_view.
Qed.
Lemma clone_tree order t src dst d d' : cloneBody order t src dst d = TxOk d' -> edge d' = edge d /\ forall j, nv d' j = nv d j.
Proof.
  unfold cloneBody. destruct (node d !! src) as [sa|]; [|done]. destruct (node d !! dst) as [da|] eqn:Ea; [|done].
  destruct (negb _); [done|]. intros [= <-]. split; [done|]. by eapply insert_view.
Qed.
Lemma cloneRange_tree order t src dst si di n d d' :
  cloneRangeBody order t src dst si di n d = TxOk d' -> edge d' = edge d /\ forall j, nv d' j = nv d j.
Proof.
  unfold cloneRangeBody. destruct (node d !! src) as [sa|]; [|done]. destruct (node d !! dst) as [da|]; [|done].
  destruct (negb _); [done|]. destruct (negb _); [done|]. by intros [= <-].
Qed.
Lemma setattr_tree t i set attr c d d' : setattrBody t i set attr c d = TxOk d' -> edge d' = edge d /\ forall j, nv d' j = nv d j.
Proof.
  unfold setattrBody. destruct (node d !! i) as [a|] eqn:Ea; [|done]. destruct (authorizeSetAttr _ _ _ _); [done|].
  intros [= <-]. split; [done|]. by eapply insert_view.
Qed.

(** ** Open and unlinked *)

(** An inode without a name. *)
Definition nameless (d : db) (i : Z) : Prop := i <> RootInode /\ is_Some (nv d i) /\ linksTo i (edge d) = 0.

(** Names are only made for inodes that have one or are new, and only inodes
    with a name lose their node. *)
Definition namesFrom (d d' : db) : Prop :=
  (forall p n i t, edge d' !! (p, n) = Some (i, t) -> nv d i = None \/ exists p' n' t', edge d !! (p', n') = Some (i, t')) /\
  (forall i, nv d' i = None -> nv d i = None \/ exists p n t, edge d !! (p, n) = Some (i, t)).

Lemma nameless_from d d' i : namesFrom d d' -> nameless d i -> nameless d' i.
Proof.
  intros [H1 H2] (Hr & Hi & Hl). assert (Hno : forall p n t, edge d !! (p, n) <> Some (i, t)).
  { intros p n t He. pose proof (linksTo_pos _ _ _ _ _ He). lia. }
  split_and!; [done| |].
  - destruct (nv d' i) eqn:E; [eauto|]. destruct (H2 _ E) as [E'|(p & n & t & He)]; [rewrite E' in Hi; by destruct Hi|by destruct (Hno p n t)].
  - apply count_zero. intros [p n] [j t] He Hj. cbn in Hj. subst j.
    destruct (H1 _ _ _ _ He) as [E'|(p' & n' & t' & He')]; [rewrite E' in Hi; by destruct Hi|by destruct (Hno p' n' t')].
Qed.

Lemma namesFrom_same d d' : edge d' = edge d -> (forall j, nv d' j = nv d j) -> namesFrom d d'.
Proof. intros He Hn. split; [rewrite He; eauto|]. intros i. rewrite Hn. auto. Qed.

Lemma create_names t i p n typ mode rdev target op c d d' :
  createBody t i p n typ mode rdev target op c d = TxOk d' -> namesFrom d d'.
Proof.
  unfold createBody. intros H. destruct (node d !! p) as [pa|] eqn:Ep; [|done]. destruct (negb _); [done|].
  destruct (edge d !! (p, n)) eqn:Ee; [done|]. destruct (node d !! i) eqn:Ei; [done|]. destruct (_ && _); [done|]. injection H as <-. split.
  - replace (edge _) with (<[(p, n) := (i, typ)]> (edge d)) by (by destruct (typ =? TypeSymlink)).
    intros p' n' j t' [[[= <- <-] [= <- <-]]|[_ He]]%lookup_insert_Some; [left; by apply nv_None|eauto 6].
  - intros j. rewrite nv_log, nv_upd. case_decide; subst.
    + replace (node _ !! p) with (Some pa) by (destruct (typ =? TypeSymlink); cbn; rewrite lookup_insert_ne; congruence). done.
    + unfold nv. replace (node _ !! j) with (<[i := newAttr t typ mode rdev target p c]> (node d) !! j) by (by destruct (typ =? TypeSymlink)).
      destruct (decide (j = i)) as [->|Hj]; [by rewrite lookup_insert_eq|rewrite lookup_insert_ne by done; auto].
Qed.

Lemma unlink_names t open p n d d' : unlinkBody t open p n d = TxOk d' -> namesFrom d d'.
Proof.
  unfold unlinkBody. intros H. destruct (edge d !! (p, n)) as [[i typ]|] eqn:Ee; [|done]. destruct (isDirT typ); [done|].
  cbn [delEdge node set_edge] in H. destruct (node d !! i) as [a|] eqn:Ei; [|done]. injection H as <-.
  set (gone := (Nlink a - 1 <=? 0) && negb (open i)). split.
  - replace (edge _) with (delete (p, n) (edge d)) by (by destruct gone). intros p' n' j t' [_ He]%lookup_delete_Some. eauto 6.
  - intros j. rewrite nv_log, nv_keep by done. destruct gone; rewrite ?nv_deleteRows, ?nv_upd.
    + case_decide; subst; [eauto 6|auto].
    + case_decide; subst; [cbn; rewrite Ei; done|auto].
Qed.

Lemma rmdir_names t p n d d' : rmdirBody t p n d = TxOk d' -> namesFrom d d'.
Proof.
  unfold rmdirBody. intros H. destruct (edge d !! (p, n)) as [[i typ]|] eqn:Ee; [|done]. destruct (negb _); [done|].
  case_bool_decide; [done|]. injection H as <-. split; [cbn; intros p' n' j t' [_ He]%lookup_delete_Some; eauto 6|].
  intros j. rewrite nv_log. destruct (decide (j = i)) as [->|Hj]; [eauto 6|].
  rewrite nv_upd. unfold nv. cbn. case_decide; subst; rewrite lookup_delete_ne by done; [destruct (node d !! p); [done|auto]|auto].
Qed.

Lemma link_names t i p n d d' : linkBody t i p n d = TxOk d' -> ~ nameless d i -> tree_ok d -> namesFrom d d'.
Proof.
  unfold linkBody. intros H Hno HT. destruct (node d !! i) as [a|] eqn:Ei; [|done]. destruct (isDirT (Typ a)) eqn:Et; [done|]. apply isDirT_false in Et.
  destruct (node d !! p) as [pa|] eqn:Ep; [|done]. destruct (negb _); [done|]. destruct (edge d !! (p, n)) eqn:Ee; [done|]. injection H as <-.
  destruct (t_root _ _ HT) as [lr Hr]. assert (Hir : i <> RootInode) by (intros ->; rewrite (nv_node _ _ _ Ei) in Hr; unfold view in Hr; congruence).
  split.
  - cbn. intros p' n' j t' [[[= <- <-] [= <- <-]]|[_ He]]%lookup_insert_Some; [right|eauto 6].
    destruct (count_one (fun kv => kv.2.1 = i) (edge d)) as ([p' n'] & [j t'] & He & Hj); [|cbn in Hj; subst; eauto].
    destruct (Z.le_gt_cases 1 (linksTo i (edge d))); [done|]. destruct Hno. split_and!; [done|rewrite (nv_node _ _ _ Ei); eauto|].
    unfold linksTo in *. lia.
  - intros j. rewrite nv_log, nv_keep, nv_upd by done. case_decide; subst; [cbn; by rewrite Ei|auto].
Qed.

Lemma rename_names t nr p1 n1 p2 n2 d d' : renameBody t nr p1 n1 p2 n2 d = TxOk d' -> namesFrom d d'.
Proof.
  unfold renameBody. intros H. destruct (edge d !! (p1, n1)) as [[s ty]|] eqn:E1; [|done].
  assert (Hmove : forall dd d0, (forall k x, edge d0 !! k = Some x -> edge d !! k = Some x) ->
    (forall i, nv d0 i = None -> nv d i = None \/ exists p n t, edge d !! (p, n) = Some (i, t)) ->
    namesFrom d (moveEdge t p1 n1 p2 n2 s ty dd d0)).
  { intros dd d0 He Hn. split.
    - rewrite edge_moveEdge. intros p n i t' [[_ [= <- <-]]|[_ [_ Hi]%lookup_delete_Some]]%lookup_insert_Some; [eauto 6|].
      right. eauto.
    - intros i. rewrite nv_moveEdge. destruct (nv d0 i) as [[[tj l] q]|] eqn:Ei; [done|]. auto. }
  destruct (edge d !! (p2, n2)) as [[e te]|] eqn:E2; [|injection H as <-; by apply Hmove; auto].
  destruct nr; [done|]. destruct (_ =? _); [injection H as <-; by apply namesFrom_same|].
  destruct (_ && _); [done|]. destruct (_ && _); [done|]. destruct (isDirT te).
  - case_bool_decide; [done|]. injection H as <-. apply Hmove.
    + intros k x. cbn. by intros [_ He]%lookup_delete_Some.
    + intros i. unfold nv. cbn. destruct (decide (i = e)) as [->|Hi]; [eauto 6|rewrite lookup_delete_ne by done; auto].
  - destruct (node d !! e) as [a|] eqn:Ea; [|done]. injection H as <-. apply Hmove.
    + intros k x. destruct (_ <=? _); cbn; by intros [_ He]%lookup_delete_Some.
    + intros i. destruct (decide (i = e)) as [->|Hi]; [eauto 6|]. destruct (_ <=? _); unfold nv; cbn;
        rewrite ?lookup_delete_ne, lookup_alter_ne by done; auto.
Qed.

Lemma exchange_names t p1 n1 p2 n2 d d' : exchangeBody t p1 n1 p2 n2 d = TxOk d' -> namesFrom d d'.
Proof.
  unfold exchangeBody. intros H. destruct (edge d !! (p1, n1)) as [[s ts]|] eqn:E1; [|done].
  destruct (edge d !! (p2, n2)) as [[e te]|] eqn:E2; [|done]. destruct (_ =? _); [injection H as <-; by apply namesFrom_same|].
  injection H as <-. split.
  - replace (edge _) with (<[(p2, n2) := (s, ts)]> (<[(p1, n1) := (e, te)]> (edge d)))
      by (cbn; rewrite edge_parents; by destruct (p1 =? p2)).
    intros p n i t' [[_ [= <- <-]]|[_ [[_ [= <- <-]]|[_ Hi]]%lookup_insert_Some]]%lookup_insert_Some; eauto 6.
  - intros i. rewrite nv_log, nv_parents. set (d0 := updNode e _ _).
    assert (H0 : nv d0 i = None -> nv d i = None).
    { unfold d0. rewrite !nv_reparent. change (nv (putEdge _ _ _ _ _) i) with (nv d i). by destruct (nv d i) as [[[ty l] q]|]. }
    destruct (p1 =? p2); [auto|]. rewrite !nv_add. destruct (nv d0 i) as [[[ty l] q]|]; [done|auto].
Qed.

(** ** Histories *)

Lemma mutating2_cases v1 v2 i1 i2 body m m' e x :
  mutating2 v1 v2 i1 i2 body m = (m', e, x) ->
  exists c o, eng m' = set_cache c (eng m) /\
    ((mdb m' = set_ownership o (mdb m) /\ e <> None) \/ body (set_ownership o (mdb m)) = TxOk (mdb m')).
Proof.
  unfold mutating2. destruct (acquireScope v1 i1 m) as [m1 [h1|e1]] eqn:E1; destruct (acquireScope_meta _ _ _ _ _ E1) as (c1 & o1 & ->).
  2:{ intros [= <- <- _]. exists c1, o1. split; [done|]. by left. }
  destruct (acquireScope v2 i2 _) as [m2 [h2|e2]] eqn:E2; destruct (acquireScope_meta _ _ _ _ _ E2) as (c2 & o2 & ->).
  2:{ intros [= <- <- _]. exists c2, o2. split; [done|]. left. done. }
  destruct (withTx _ _ _) as [d er] eqn:Et. intros [= <- <- _]. exists c2, o2. split; [done|].
  destruct (withTx_cases _ _ _ _ _ Et) as [[-> ?]|Hb]; [by left|right].
  unfold fenceInTx in Hb. destruct (checkFence _ h1 _); [|done]. destruct (negb _); [|exact Hb]. by destruct (checkFence _ h2 _).
Qed.

(** The operations of an engine, each in any environment; links go to files
    that have a name, moves are the ones the kernel lets through, and the
    reaper runs with no file open. *)
Inductive mstep : meta -> meta -> Prop :=
| s_create up v p n typ mode rdev target op c m m' r : create up v p n typ mode rdev target op c m = (m', r) -> mstep m m'
| s_unlink v p n m m' e : Unlink v p n m = (m', e) -> mstep m m'
| s_rmdir v p n m m' e : Rmdir v p n m = (m', e) -> mstep m m'
| s_link v i p n m m' r : ~ nameless (mdb m) i -> Link v i p n m = (m', r) -> mstep m m'
| s_rename v1 v2 up p1 n1 p2 n2 flags m m' r :
    (if Z.testbit flags 1 then mayExchange (mdb m) p1 n1 p2 n2 else mayMove (mdb m) p1 n1 p2) ->
    Rename v1 v2 up p1 n1 p2 n2 flags m = (m', r) -> mstep m m'
| s_setattr v up i set attr c m m' r : SetAttr v up i set attr c m = (m', r) -> mstep m m'
| s_write v i indx off s m m' e : MetaWrite v i indx off s m = (m', e) -> mstep m m'
| s_truncate v i size m m' e : MetaTruncate v i size m = (m', e) -> mstep m m'
| s_clone v order src dst m m' e : MetaClone v order src dst m = (m', e) -> mstep m m'
| s_cloneRange v order src dst si di n m m' e : CloneRange v order src dst si di n m = (m', e) -> mstep m m'
| s_setxattr f i name value flags m d e : SetXAttr f i name value flags (mdb m) = (d, e) -> mstep m (set_db d m)
| s_newslice up m m' r : NewSlice up m = (m', r) -> mstep m m'
| s_open i m : mstep m (OpenRef i m)
| s_close f i m m' e : CloseFile f i m = (m', e) -> mstep m m'
| s_reap f m d r : sustained (eng m) = ∅ -> ReapOrphanedInodes f (mdb m) = (d, r) -> mstep m (set_db d m).

Inductive msteps : meta -> meta -> Prop :=
| ms_nil m : msteps m m
| ms_snoc m m1 m2 : msteps m m1 -> mstep m1 m2 -> msteps m m2.

Definition tree_inv (m : meta) : Prop := tree_ok (mdb m) /\ forall i, i ∈ sustained (eng m) -> nameless (mdb m) i.

(** What a transaction must do to keep the invariant. *)
Definition keeps (body : db -> txr) (d : db) : Prop := forall d', body d = TxOk d' -> tree_ok d' /\ namesFrom d d'.

Lemma applied_inv m m' c o body :
  eng m' = set_cache c (eng m) ->
  ((mdb m' = set_ownership o (mdb m)) \/ body (set_ownership o (mdb m)) = TxOk (mdb m')) ->
  keeps body (set_ownership o (mdb m)) -> tree_inv m -> tree_inv m'.
Proof.
  intros He Hb Hk [HT Hs]. unfold tree_inv. rewrite He. cbn [sustained set_cache]. destruct Hb as [->|Hb]; [by split|].
  destruct (Hk _ Hb) as [HT' Hn]. split; [done|]. intros i Hi. eapply nameless_from; [exact Hn|]. exact (Hs i Hi).
Qed.

Lemma mutating_inv v i body m m' e :
  mutating v i body m = (m', e) -> (forall o, keeps body (set_ownership o (mdb m))) -> tree_inv m -> tree_inv m'.
Proof.
  intros H Hk Hi. destruct (mutating_cases _ _ _ _ _ _ H) as (c & o & He & Hb). eapply applied_inv; [exact He| |by apply Hk|done].
  destruct Hb as [[? _]|?]; [by left|by right].
Qed.

Lemma keeps_same body d : tree_ok d -> (forall d', body d = TxOk d' -> edge d' = edge d /\ forall j, nv d' j = nv d j) -> keeps body d.
Proof. intros HT H d' Hb. destruct (H d' Hb). split; [by eapply tree_same|by apply namesFrom_same]. Qed.

(** An open file losing its last name keeps its node, without a name. *)
Lemma unlink_sustains t open p n d d' i :
  unlinkBody t open p n d = TxOk d' -> unlinkSustain open p n d = Some i -> tree_ok d -> nameless d' i.
Proof.
  unfold unlinkBody, unlinkSustain. intros H Hs HT. destruct (edge d !! (p, n)) as [[j typ]|] eqn:Ee; [|done].
  destruct (isDirT typ) eqn:Et; [done|]. apply isDirT_false in Et. cbn [delEdge node set_edge] in H. cbn in Hs.
  destruct (node d !! j) as [a|] eqn:Ej; [|done]. cbn in Hs. destruct (Z.leb_spec (Nlink a - 1) 0) as [Hl|]; [|done].
  destruct (open j) eqn:Eo; [|done]. injection Hs as ->. cbn [andb negb] in H. injection H as <-.
  destruct (t_edge _ _ HT _ _ _ _ Ee) as (Hr & _ & l & q & Hi & _). rewrite (nv_node _ _ _ Ej) in Hi. injection Hi as Hti <- <-.
  pose proof (t_file _ _ HT i typ (Nlink a) (Parent a)) as Hf. rewrite (nv_node _ _ _ Ej) in Hf. unfold view in Hf. rewrite Hti in Hf.
  specialize (Hf eq_refl Et). pose proof (linksTo_pos _ _ _ _ _ Ee). split_and!; [done| |].
  - rewrite nv_log, nv_keep, nv_upd, decide_True by done. cbn. rewrite Ej. eauto.
  - cbn. rewrite (linksTo_delete _ _ _ _ _ _ Ee), decide_True by done. lia.
Qed.

Lemma delete_inv i d : tree_ok d -> nameless d i -> tree_ok (deleteInodeRows i d) /\ forall j, j <> i -> nameless d j -> nameless (deleteInodeRows i d) j.
Proof.
  intros HT (Hr & [[[t l] q] Hi] & Hl). split.
  - eapply tree_ext; [by eapply (tree_drop _ _ HT i)|]. intros j. by rewrite nv_deleteRows.
  - intros j Hj (Hr' & Hi' & Hl'). split_and!; [done| |done]. by rewrite nv_deleteRows, decide_False.
Qed.

Lemma close_inv f i m m' e : CloseFile f i m = (m', e) -> tree_inv m -> tree_inv m'.
Proof.
  unfold CloseFile. intros H [HT Hs]. destruct (_ && bool_decide (i ∈ sustained (eng m))) eqn:Ed.
  - destruct (withTx _ _ _) as [d st] eqn:Et. injection H as <- <-. apply andb_true_iff in Ed as [_ Hin%bool_decide_eq_true].
    destruct (delete_inv i (mdb m) HT (Hs i Hin)) as [HT' Hn'].
    destruct (withTx_cases _ _ _ _ _ Et) as [[-> _]|[= <-]]; (split; [done|]); cbn; intros j Hj; assert (j ∈ sustained (eng m) /\ j <> i) as [? ?] by set_solver; auto.
  - injection H as <- <-. split; [done|]. cbn. auto.
Qed.

Lemma reap_inv l d : tree_ok d -> NoDup l -> Forall (nameless d) l -> tree_ok (fold_left (fun d i => deleteInodeRows i d) l d).
Proof.
  revert d. induction l as [|i l IH]; intros d HT HN HF; [done|]. cbn. apply NoDup_cons in HN as [Hi HN]. apply Forall_cons in HF as [Hn HF].
  destruct (delete_inv i d HT Hn) as [HT' Hn']. apply IH; [done|done|]. rewrite Forall_forall in HF |- *. intros j Hj. apply Hn'; [congruence|auto].
Qed.

Lemma zombies_nameless d : NoDup (zombies d) /\ Forall (nameless d) (zombies d).
Proof.
  unfold zombies. split; [apply NoDup_fmap_filter, NoDup_fst_map_to_list|].
  apply Forall_fmap, Forall_forall. intros [i a] [(_ & Hr & He) Hi]%list_elem_of_filter. apply elem_of_map_to_list in Hi. cbn in *. split_and!; [done| |].
  - rewrite (nv_node _ _ _ Hi). eauto.
  - apply count_zero. intros k x Hk. exact (He k x Hk).
Qed.

Lemma mstep_inv m m' : mstep m m' -> tree_inv m -> tree_inv m'.
Proof.
  intros H Hinv. pose proof Hinv as [HT Hs].
  destruct H as [up v p n typ mode rdev target op c m m' r H|v p n m m' e H|v p n m m' e H|v i p n m m' r Hnl H|v1 v2 up p1 n1 p2 n2 flags m m' r Hg H
    |v up i set attr c m m' r H|v i indx off s m m' e H|v i size m m' e H|v order src dst m m' e H|v order src dst si di n m m' e H
    |f i name value flags m d e H|up m m' r H|i m|f i m m' e H|f m d r Hsus H].
  - unfold create in H. destruct (nextInode up m) as [m1 r1] eqn:Ei.
    assert (Hi1 : tree_inv m1 /\ (forall o, tree_ok (set_ownership o (mdb m1)))).
    { unfold nextInode in Ei. destruct (_ <=? _); [destruct up|]; injection Ei as <- _; (split; [split; [exact HT|exact Hs]|intros o; exact HT]). }
    destruct Hi1 as [Hi1 HT1]. destruct r1 as [inode|]; [|by injection H as <- <-].
    destruct (mutating _ _ _ _) as [m2 st] eqn:Em. assert (m' = m2) as -> by (destruct st; by injection H as <- <-).
    eapply mutating_inv; [exact Em| |done]. intros o d' Hb. split; [by eapply create_tree|by eapply create_names].
  - unfold Unlink in H. destruct (mutating _ _ _ _) as [m2 st] eqn:Em.
    assert (Hi2 : tree_inv m2) by (eapply mutating_inv; [exact Em| |done]; intros o d' Hb; split; [by eapply unlink_tree|by eapply unlink_names]).
    destruct st; [by injection H as <- <-|]. injection H as <- <-. destruct (unlinkSustain _ _ _ _) as [i|] eqn:Es; [|done]. cbn.
    destruct Hi2 as [HT2 Hs2]. split; [done|]. cbn. intros j [->%elem_of_singleton|Hj]%elem_of_union; [|auto].
    destruct (mutating_cases _ _ _ _ _ _ Em) as (c & o & _ & [[_ ?]|Hb]); [done|]. by eapply unlink_sustains; [exact Hb|exact Es|].
  - eapply mutating_inv; [exact H| |done]. intros o d' Hb. split; [by eapply rmdir_tree|by eapply rmdir_names].
  - unfold Link in H. destruct (mutating _ _ _ _) as [m2 st] eqn:Em. assert (m' = m2) as -> by (destruct st; by injection H as <- <-).
    eapply mutating_inv; [exact Em| |done]. intros o d' Hb. split; [by eapply link_tree|]. by eapply link_names.
  - unfold Rename in H. destruct (_ && _); [by injection H as <- <-|]. destruct (_ && _); [by injection H as <- <-|].
    destruct (mutating2 _ _ _ _ _ _) as [[m2 st] cross] eqn:Em. destruct (mutating2_cases _ _ _ _ _ _ _ _ _ Em) as (c & o & He & Hb).
    assert (Hi2 : tree_inv m2).
    { eapply applied_inv; [exact He|destruct Hb as [[? _]|Hb]; [by left|right; exact Hb]| |done]. intros d' Hd.
      destruct (Z.testbit flags 1).
      - split; [eapply exchange_tree; [exact Hd|exact Hg|exact HT]|by eapply exchange_names].
      - split; [eapply rename_tree; [exact Hd|exact Hg|exact HT]|by eapply rename_names]. }
    destruct st; [by injection H as <- <-|]. injection H as <- <-. by destruct cross.
  - unfold SetAttr in H. destruct (mutating _ _ _ _) as [m2 st] eqn:Em. assert (m' = m2) as -> by (destruct st; by injection H as <- <-).
    eapply mutating_inv; [exact Em| |done]. intros o. apply keeps_same; [done|]. intros d'. apply setattr_tree.
  - eapply mutating_inv; [exact H| |done]. intros o. apply keeps_same; [done|]. intros d'. apply write_tree.
  - eapply mutating_inv; [exact H| |done]. intros o. apply keeps_same; [done|]. intros d'. apply truncate_tree.
  - eapply mutating_inv; [exact H| |done]. intros o. apply keeps_same; [done|]. intros d'. apply clone_tree.
  - unfold CloneRange in H. destruct (_ =? _); [by injection H as <- <-|].
    eapply mutating_inv; [exact H| |done]. intros o. apply keeps_same; [done|]. intros d'. apply cloneRange_tree.
  - unfold SetXAttr in H. destruct (withTx_cases _ _ _ _ _ H) as [[-> _]|Hb]; [by destruct m|]. unfold setxattrBody in Hb.
    destruct (node (mdb m) !! i); [|done]. destruct (_ && _); [done|]. destruct (_ && _); [done|]. injection Hb as <-. by split.
  - unfold NewSlice in H. destruct (_ <=? _); [destruct up|]; injection H as <- _; by split.
  - by split.
  - by eapply close_inv.
  - unfold ReapOrphanedInodes in H. destruct (withTx _ _ _) as [d1 st] eqn:Et.
    assert (d = d1) as -> by (destruct st; by injection H as <- <-).
    destruct (withTx_cases _ _ _ _ _ Et) as [[-> _]|[= <-]]; [by destruct m|]. destruct (zombies_nameless (mdb m)).
    split; [by apply reap_inv|]. cbn. rewrite Hsus. by intros i Hi%not_elem_of_empty.
Qed.

Definition newEngine (region session : Z) (n : string) (t : instant) : meta := MkMeta (OpenEngine region session n) (bootstrap t emptyDb).

Lemma tree_init region session n t : tree_inv (newEngine region session n t).
Proof.
  assert (Hn : forall i x, nv (bootstrap t emptyDb) i = Some x -> i = RootInode /\ x = (TypeDirectory, 2, RootInode)).
  { intros i x. unfold nv. change (node (bootstrap t emptyDb)) with (<[RootInode := rootAttr (tsec t)]> (∅ : gmap Z Attr)).
    destruct (decide (i = RootInode)) as [->|Hi]; [by intros [= <-]|].
    rewrite lookup_insert_ne by done. by rewrite lookup_empty. }
  split; [split|by intros i Hi%not_elem_of_empty].
  - eexists. reflexivity.
  - intros p m i ty H. cbn in H. by rewrite lookup_empty in H.
  - intros i l q Hi. destruct (Hn _ _ Hi) as [-> [= -> ->]]. done.
  - intros i ty l q Hi Ht. by destruct (Hn _ _ Hi) as [_ [= -> _ _]].
  - intros i l q Hi. destruct (Hn _ _ Hi) as [-> _]. apply climbs_root. by intros [].
Qed.

Lemma msteps_inv m m' : msteps m m' -> tree_inv m -> tree_inv m'.
Proof. induction 1 as [|m m1 m2 H IH Hs]; [done|]. intros Hi. eapply mstep_inv; [exact Hs|auto]. Qed.


Definition rootCtx : Context := MkCtx 0 0 0.
Definition okEnv : menv := MkEnv false noopOwner 0 Commits (MkNow 7 0).

(** mkdir /a, mkdir /b, create /a/f, link /b/g, rename /a to /b/a. *)
Definition demo0 : meta := newEngine 0 0 "" (MkNow 1 0).
Definition demo1 : meta := (create true okEnv 1 "a" TypeDirectory 493 0 "" opMkdir rootCtx demo0).1.
Definition demo2 : meta := (create true okEnv 1 "b" TypeDirectory 493 0 "" opMkdir rootCtx demo1).1.
Definition demo3 : meta := (create true okEnv 2 "f" TypeFile 420 0 "" opMknod rootCtx demo2).1.
Definition demo4 : meta := (Link okEnv 4 3 "g" demo3).1.
Definition treeDemo : meta := (Rename okEnv okEnv true 1 "a" 3 "a" 0 demo4).1.

Lemma treeDemo_steps : msteps demo0 treeDemo.
Proof.
  apply (ms_snoc _ demo4); [apply (ms_snoc _ demo3); [apply (ms_snoc _ demo2); [apply (ms_snoc _ demo1); [apply (ms_snoc _ demo0); [constructor|]|]|]|]|].
  - exact (s_create _ _ _ _ _ _ _ _ _ _ demo0 demo1 _ (surjective_pairing _)).
  - exact (s_create _ _ _ _ _ _ _ _ _ _ demo1 demo2 _ (surjective_pairing _)).
  - exact (s_create _ _ _ _ _ _ _ _ _ _ demo2 demo3 _ (surjective_pairing _)).
  - refine (s_link _ _ _ _ demo3 demo4 _ _ (surjective_pairing _)). intros (_ & _ & Hl). vm_compute in Hl. done.
  - refine (s_rename _ _ _ _ _ _ _ _ demo4 treeDemo _ _ (surjective_pairing _)). split.
    + exists 2, 1. vm_compute. reflexivity.
    + intros s Hs. vm_compute in Hs. injection Hs as <-. apply (climbs_up _ _ 3 2 1); [done|vm_compute; reflexivity|]. by apply climbs_root.
Defined.


(** ** The scope walk *)

Lemma walk_more q d i c k : scopeWalk q d i c = Ok k -> forall q', (q <= q')%nat -> scopeWalk q' d i c = Ok k.
Proof.
  revert c. induction q as [|q IH]; intros c H q' Hq; [done|]. destruct q' as [|q']; [lia|]. cbn in H |- *.
  destruct (node d !! c); [|done]. destruct (_ || _); [done|]. apply IH; [done|lia].
Qed.

Lemma walk_climbs d i c : climbs (nv d) nowhere c -> tree_ok d -> exists q k, scopeWalk q d i c = Ok k.
Proof.
  intros H HT. induction H as [|c l p _ Hc H IH].
  - destruct (t_root _ _ HT) as [l Hr]. apply nv_Some in Hr as (a & Ha & _ & _ & Hp). exists 1%nat. cbn. rewrite Ha, Hp. eauto.
  - destruct IH as (q & k & Hk). apply nv_Some in Hc as (a & Ha & _ & _ & Hp). exists (S q). cbn. rewrite Ha, Hp.
    destruct (_ || _); eauto.
Qed.


