(* ===== verification/TreeScenarios.v ===== *)
(** Runs of the metadata engine in which a rename breaks what the rest of the
    engine keeps: rows of a replaced file, a directory under itself, and the
    one writer per scope. *)

From S2P Require Import Prelude GoStrings Overlay MetaDb Leases FileMeta MetaTree TreeSpec TreeOps.

(** /f and /g, one slice written to /g, which is open. *)
Definition twoFiles : meta :=
  let m := (create true okEnv 1 "f" TypeFile 420 0 "" opMknod rootCtx demo0).1 in
  let m := (create true okEnv 1 "g" TypeFile 420 0 "" opMknod rootCtx m).1 in
  let m := (MetaWrite okEnv 3 0 0 (MkSlice 0 77 5 0 5) m).1 in
  (OpenFile true 3 m).1.

Definition unlinked : meta := (CloseFile Commits 3 (Unlink okEnv 1 "g" twoFiles).1).1.
Definition replaced : meta := (Rename okEnv okEnv true 1 "f" 1 "g" 0 twoFiles).1.
Definition replacedClosed : meta := (CloseFile Commits 3 replaced).1.

(** Renaming over a file forgets its handles and its slices.  Unlinking
    the open /g keeps its node until the last close and then frees its slice;
    renaming /f over it deletes the node under the handle, and the slice stays
    live for the collector after the close and after the orphan reaper. *)
Theorem rename_replace_leaks :
  is_Some (node (mdb (Unlink okEnv 1 "g" twoFiles).1) !! 3) /\ LiveSliceIDs (mdb unlinked) = [] /\
  GetAttr true 3 (mdb replaced) = inr ENOENT /\
  LiveSliceIDs (ReapOrphanedInodes Commits (mdb replacedClosed)).1 = [77].
Proof. vm_compute. split_and!; eauto. Qed.

(** /a and /a/b, and then /a renamed to /a/b/c. *)
Definition nested : meta :=
  (create true okEnv 2 "b" TypeDirectory 493 0 "" opMkdir rootCtx (create true okEnv 1 "a" TypeDirectory 493 0 "" opMkdir rootCtx demo0).1).1.
Definition cycle := Rename okEnv okEnv true 1 "a" 3 "c" 0 nested.

Lemma cycle_walks q : forall i, scopeWalk q (mdb cycle.1) i 2 = Err (EOther "sql") /\ scopeWalk q (mdb cycle.1) i 3 = Err (EOther "sql").
Proof.
  induction q as [|q IH]; intros i; [done|].
  destruct (node (mdb cycle.1) !! 2) as [a|] eqn:Ea; [|by vm_compute in Ea].
  destruct (node (mdb cycle.1) !! 3) as [b|] eqn:Eb; [|by vm_compute in Eb].
  assert (Parent a = 3) by (vm_compute in Ea; by injection Ea as <-).
  assert (Parent b = 2) by (vm_compute in Eb; by injection Eb as <-).
  cbn [scopeWalk]. rewrite Ea, Eb. replace (Parent a) with 3. replace (Parent b) with 2. cbn. destruct (IH i). done.
Qed.

(** The engine renames a directory under itself: the call succeeds, the
    subtree has no path from the root, and the scope walk from it never ends:
    however many queries are answered, it asks for one more. *)
Theorem rename_under_itself :
  (exists r, cycle.2 = inl r) /\ Lookup true 1 "a" (mdb cycle.1) = inr ENOENT /\
  (forall q i, scopeWalk q (mdb cycle.1) i 2 = Err (EOther "sql")) /\ ~ tree_ok (mdb cycle.1).
Proof.
  assert (Hw : forall q i, scopeWalk q (mdb cycle.1) i 2 = Err (EOther "sql")) by (intros q i; apply cycle_walks).
  split_and!; [by eexists; vm_compute|by vm_compute|done|]. intros HT.
  destruct (nv (mdb cycle.1) 2) as [[[ty l] p]|] eqn:E; [|by vm_compute in E].
  assert (ty = TypeDirectory) as -> by (vm_compute in E; by injection E as <- _ _).
  destruct (walk_climbs _ 2 2 (t_climbs _ _ HT _ _ _ E) HT) as (q & k & Hk). by rewrite Hw in Hk.
Qed.

(** Two nodes on one database, each leasing scopes for a minute. *)
Definition leaseEnv (n : string) : menv :=
  MkEnv true (fun s o => match AcquireOrResume Commits (MkNow 10 0) s n 60000 o with
                         | (o, Ok (l, ok)) => (o, Ok (Generation l, ok))
                         | (o, Err e) => (o, Err e)
                         end) 10 Commits (MkNow 10 0).

(** /a, /b and /a/f; node B has written /a/f, then node A renames /a to /b/a. *)
Definition engB : engine := eng (MetaWrite (leaseEnv "B") 4 0 0 (MkSlice 0 50 1 0 1) (MkMeta (OpenEngine 0 1 "B") (mdb demo3))).1.
Definition dbB : db := mdb (MetaWrite (leaseEnv "B") 4 0 0 (MkSlice 0 50 1 0 1) (MkMeta (OpenEngine 0 1 "B") (mdb demo3))).1.
Definition movedByA := Rename (leaseEnv "A") (leaseEnv "A") true 1 "a" 3 "a" 0 (MkMeta (OpenEngine 0 2 "A") dbB).
Definition writeA := MetaWrite (leaseEnv "A") 4 0 0 (MkSlice 0 51 1 0 1) movedByA.1.
Definition writeB := MetaWrite (leaseEnv "B") 4 0 0 (MkSlice 0 52 1 0 1) (MkMeta engB (mdb writeA.1)).

(** A move across scopes leaves two writers: node B holds the scope of /a
    and has memoized it for the file; node A moves /a under /b without that
    lease and writes the file under the scope of /b; then B writes it under the
    old scope.  All three pass their fences, and at the end two nodes hold
    unexpired leases under which they write one file. *)
Theorem rename_two_writers :
  (exists r, movedByA.2 = inl r) /\ writeA.2 = None /\ writeB.2 = None /\
  (scopeOf 10 4 movedByA.1).2 = Ok (scopeKeyForInode 3) /\ (scopeOf 10 4 (MkMeta engB (mdb writeA.1))).2 = Ok (scopeKeyForInode 2) /\
  OwnerNode <$> (ownership (mdb writeB.1) !! scopeKeyForInode 3) = Some "A" /\
  OwnerNode <$> (ownership (mdb writeB.1) !! scopeKeyForInode 2) = Some "B".
Proof. split_and!; [by eexists; vm_compute|vm_compute; reflexivity..]. Qed.
