(* ===== verification/RefStore.v ===== *)
(** The gateway's object index and staging area (blobgw/gateway/gateway.go,
    memory.go).

    [ObjectInfo] is a row of the index, [RefStore] the index interface and
    [StagingStore] the upload area; both have the in-memory implementations of
    memory.go as instances.  Listings are newest first with ties broken by ref,
    paged by an opaque cursor, base64 of the last row's creation time and ref.
    [cursor_round] is the cursor's round trip and [pages_cover] the theorem
    about paging: following the cursors yields every row of the prefix exactly
    once and in order, for every page size.

    Times are instants in nanoseconds.  Their RFC 3339 text is [time]'s, a
    class with the two facts the cursor needs: parsing inverts formatting, and
    the text has no bar. *)

From stdpp Require Import sorting.
From S2P Require Import Prelude GoStrings Decimal Sha256 ChunkedWrite GoText.
From Stdlib Require Import Ascii.

(** ** Rows *)

Record ObjectInfo := MkInfo {
  Ref : string; Domain : string; ContentHash : string; oSize : Z; ContentType : string; oCreated : Z;
  oVersion : string; UserMeta : gmap string string; Pending : bool; StagingKey : string;
  ExpectedHash : string; ExpectedSize : Z;
}.

Class RefStore := {
  rstore : Type;
  rPut : rstore -> ObjectInfo -> rstore * result unit;
  rGet : rstore -> string -> string -> result (option ObjectInfo);
  rDelete : rstore -> string -> string -> rstore * result unit;
  rList : rstore -> string -> string -> Z -> result (list ObjectInfo);
  rListPage : rstore -> string -> string -> string -> Z -> result (list ObjectInfo * string);
  rListStalePending : rstore -> string -> Z -> Z -> result (list ObjectInfo);
}.

(** ** Orders *)

(** Newest first, ties broken by ref. *)
Definition before (a b : ObjectInfo) : bool :=
  if oCreated a =? oCreated b then str_ltb (Ref a) (Ref b) else oCreated b <? oCreated a.

(** Oldest first, ties broken by ref. *)
Definition older (a b : ObjectInfo) : bool :=
  if oCreated a =? oCreated b then str_ltb (Ref a) (Ref b) else oCreated a <? oCreated b.

(** [sort.Slice] by a strict order that is total on the rows at hand. *)
Definition notAfter (less : ObjectInfo -> ObjectInfo -> bool) (a b : ObjectInfo) : Prop := less b a = false.

#[global] Instance notAfter_dec less : RelDecision (notAfter less).
Proof. intros a b. unfold notAfter. apply _. Defined.

Definition sortBy (less : ObjectInfo -> ObjectInfo -> bool) (l : list ObjectInfo) : list ObjectInfo :=
  merge_sort (notAfter less) l.

Definition capped {A} (limit : Z) (l : list A) : list A := if 0 <? limit then slice l 0 limit else l.

(** ** Cursors *)

Class TimeText := {
  timeFormat : Z -> string;
  timeParse : string -> option Z;
}.

(** Instants that an int64 of nanoseconds since 1970 holds; their years have
    four digits. *)
Definition validTime (t : Z) : Prop := 0 <= t < 2 ^ 63.

Class TimeTextLaws (T : TimeText) : Prop := {
  time_round : forall t, validTime t -> timeParse (timeFormat t) = Some t;
  time_no_bar : forall t, "|"%char ∉ chars (timeFormat t);
}.

Definition defaultPageSize : Z := 1000.

Section Cursor.
  Context {T : TimeText}.

Definition EncodeListCursor (createdAt : Z) (ref : string) : string :=
  of_chars (EncodeToString RawURLEncoding (chars (timeFormat createdAt +:+ "|" +:+ ref))).

(** The zero time of an empty token is never compared: the caller tests the
    token first. *)
Definition DecodeListCursor (token : string) : result (Z * string) :=
  if decide (token = "") then Ok (0, "")
  else match DecodeString RawURLEncoding (chars token) with
       | None => Err (EOther "invalid list cursor")
       | Some raw =>
           match Cut (of_chars raw) "|" with
           | None => Err (EOther "invalid list cursor: missing separator")
           | Some (ts, r) =>
               match timeParse ts with
               | None => Err (EOther "invalid list cursor timestamp")
               | Some t => Ok (t, r)
               end
           end
       end.

(** *** The in-memory index *)

Record MemoryRefStore := MemRefs { memRows : gmap string (gmap string ObjectInfo) }.

Definition memRefPut (m : MemoryRefStore) (info : ObjectInfo) : MemoryRefStore * result unit :=
  if decide (Ref info = "") then (m, Err ErrInvalidRef)
  else (MemRefs (<[Domain info := <[Ref info := info]> (default ∅ (memRows m !! Domain info))]> (memRows m)), Ok tt).

Definition memRefGet (m : MemoryRefStore) (domain ref : string) : result (option ObjectInfo) :=
  Ok (default ∅ (memRows m !! domain) !! ref).

Definition memRefDelete (m : MemoryRefStore) (domain ref : string) : MemoryRefStore * result unit :=
  (MemRefs (alter (delete ref) domain (memRows m)), Ok tt).

(** The rows of a domain under a prefix, in the iteration order of the map. *)
Definition under (m : MemoryRefStore) (domain prefix : string) : list ObjectInfo :=
  snd <$> filter (fun kv => HasPrefix kv.1 prefix = true) (map_to_list (default ∅ (memRows m !! domain))).

Definition memRefList (m : MemoryRefStore) (domain prefix : string) (limit : Z) : result (list ObjectInfo) :=
  Ok (capped limit (sortBy before (under m domain prefix))).

(** Strictly after the cursor: created earlier, or then with a larger ref. *)
Definition afterCursor (t : Z) (ref : string) (info : ObjectInfo) : bool :=
  (oCreated info <? t) || ((oCreated info =? t) && str_ltb ref (Ref info)).

Definition pageOf (all : list ObjectInfo) (limit : Z) : list ObjectInfo * string :=
  let pageSize := if limit <=? 0 then defaultPageSize else limit in
  if pageSize <? len all then
    match all !! Z.to_nat (pageSize - 1) with
    | Some lastRow => (slice all 0 pageSize, EncodeListCursor (oCreated lastRow) (Ref lastRow))
    | None => (all, "")
    end
  else (all, "").

Definition memRefListPage (m : MemoryRefStore) (domain prefix after : string) (limit : Z)
  : result (list ObjectInfo * string) :=
  c ← DecodeListCursor after;
  let all := sortBy before (under m domain prefix) in
  let all := if decide (after = "") then all else filter (fun i => afterCursor c.1 c.2 i = true) all in
  Ok (pageOf all limit).

Definition memRefStale (m : MemoryRefStore) (domain : string) (olderThan limit : Z) : result (list ObjectInfo) :=
  let rows := snd <$> map_to_list (default ∅ (memRows m !! domain)) in
  Ok (capped limit (sortBy older (filter (fun i => Pending i = true /\ oCreated i <= olderThan) rows))).

#[export] Instance mem_refs : RefStore := {|
  rstore := MemoryRefStore;
  rPut := memRefPut; rGet := memRefGet; rDelete := memRefDelete;
  rList := memRefList; rListPage := memRefListPage; rListStalePending := memRefStale;
|}.
End Cursor.

(** ** What an index promises *)

(** The rows of a domain under a prefix, newest first. *)
Definition listing (rows : gmap (string * string) ObjectInfo) (domain prefix : string) (l : list ObjectInfo) : Prop :=
  StronglySorted (fun a b => before a b = true) l /\
  forall i, i ∈ l <-> rows !! (domain, Ref i) = Some i /\ HasPrefix (Ref i) prefix = true.

Class RefStoreLaws (R : RefStore) {T : TimeText} := {
  rrows : rstore -> gmap (string * string) ObjectInfo;
  rvalid : rstore -> Prop;
  rput_valid : forall s i s' res, rPut s i = (s', res) -> rvalid s -> rvalid s';
  rdelete_valid : forall s d r s' res, rDelete s d r = (s', res) -> rvalid s -> rvalid s';
  rrows_key : forall s d r i, rvalid s -> rrows s !! (d, r) = Some i -> Domain i = d /\ Ref i = r;
  rput_ok : forall s i s', rPut s i = (s', Ok tt) -> rrows s' = <[(Domain i, Ref i) := i]> (rrows s);
  rput_err : forall s i s' e, rPut s i = (s', Err e) ->
    rrows s' = rrows s \/ rrows s' = <[(Domain i, Ref i) := i]> (rrows s);
  rget_ok : forall s d r o, rGet s d r = Ok o -> o = rrows s !! (d, r);
  rdelete_ok : forall s d r s', rDelete s d r = (s', Ok tt) -> rrows s' = delete (d, r) (rrows s);
  rdelete_err : forall s d r s' e, rDelete s d r = (s', Err e) ->
    rrows s' = rrows s \/ rrows s' = delete (d, r) (rrows s);
  rlist_ok : forall s d p limit l, rvalid s -> rList s d p limit = Ok l ->
    exists all, listing (rrows s) d p all /\ l = capped limit all;
  rpage_ok : forall s d p after limit l next, rvalid s -> rListPage s d p after limit = Ok (l, next) ->
    exists c all rest, DecodeListCursor after = Ok c /\ listing (rrows s) d p all /\
      (if decide (after = "") then all else filter (fun i => afterCursor c.1 c.2 i = true) all) = l ++ rest /\
      (next = "" -> rest = []) /\
      (next <> "" -> exists l' x, l = l' ++ [x] /\ next = EncodeListCursor (oCreated x) (Ref x));
  rstale_ok : forall s d t limit l i, rvalid s -> rListStalePending s d t limit = Ok l -> i ∈ l ->
    rrows s !! (d, Ref i) = Some i /\ Pending i = true /\ oCreated i <= t;
  rstale_all : forall s d t l i, rvalid s -> rListStalePending s d t 0 = Ok l ->
    rrows s !! (d, Ref i) = Some i -> Pending i = true -> oCreated i <= t -> i ∈ l;
}.

(** The index is up. *)
Class RefStoreReliable (R : RefStore) {T : TimeText} {L : RefStoreLaws R} : Prop := {
  rput_total : forall s i, Ref i <> "" -> is_ok (rPut s i).2 = true;
  rget_total : forall s d r, rGet s d r = Ok (rrows s !! (d, r));
  rdelete_total : forall s d r, is_ok (rDelete s d r).2 = true;
  rpage_total : forall s d p after limit, is_ok (DecodeListCursor after) = true ->
    is_ok (rListPage s d p after limit) = true;
  rstale_total : forall s d t limit, is_ok (rListStalePending s d t limit) = true;
}.

(** ** The order of listings *)

Lemma before_trans a b c : before a b = true -> before b c = true -> before a c = true.
Proof.
  unfold before. destruct (Z.eqb_spec (oCreated a) (oCreated b)), (Z.eqb_spec (oCreated b) (oCreated c)),
    (Z.eqb_spec (oCreated a) (oCreated c)); rewrite ?Z.ltb_lt; try lia. apply str_ltb_trans.
Qed.

Lemma before_irrefl a : before a a = false.
Proof. unfold before. rewrite Z.eqb_refl. apply str_ltb_irrefl. Qed.

Lemma before_total a b : Ref a <> Ref b -> before a b = true \/ before b a = true.
Proof.
  intros Hn. unfold before. rewrite (Z.eqb_sym (oCreated b)). destruct (Z.eqb_spec (oCreated a) (oCreated b)).
  - destruct (str_ltb (Ref a) (Ref b)) eqn:E1; [by left|]. destruct (str_ltb (Ref b) (Ref a)) eqn:E2; [by right|].
    by destruct (Hn (str_ltb_total _ _ E1 E2)).
  - rewrite !Z.ltb_lt. lia.
Qed.

#[global] Instance before_notAfter_trans : Transitive (notAfter before).
Proof.
  intros a b c. unfold notAfter, before. destruct (Z.eqb_spec (oCreated b) (oCreated a)), (Z.eqb_spec (oCreated c) (oCreated b)),
    (Z.eqb_spec (oCreated c) (oCreated a)); rewrite ?Z.ltb_ge; try lia. apply (str_le_trans (Ref a) (Ref b) (Ref c)).
Qed.

#[global] Instance before_notAfter_total : Total (notAfter before).
Proof.
  intros a b. unfold notAfter. destruct (before b a) eqn:E; [|by left]. right. destruct (before a b) eqn:E2; [|done].
  pose proof (before_trans _ _ _ E E2) as H. by rewrite before_irrefl in H.
Qed.

(** Being after a row's cursor is coming later in the listing. *)
Lemma afterCursor_before x i : afterCursor (oCreated x) (Ref x) i = before x i.
Proof.
  unfold afterCursor, before. rewrite (Z.eqb_sym (oCreated i)). destruct (Z.eqb_spec (oCreated x) (oCreated i)) as [E|E]; [|by rewrite orb_false_r].
  destruct (Z.ltb_spec (oCreated i) (oCreated x)); [lia|done].
Qed.

Section Pages.
  Context {T : TimeText} {TL : TimeTextLaws T}.

Lemma cursor_nonempty t ref : EncodeListCursor t ref <> "".
Proof.
  unfold EncodeListCursor. intros E. apply (f_equal (fun s => DecodeString RawURLEncoding (chars s))) in E.
  rewrite chars_of, base64_round in E by apply url_alphabet. apply (f_equal (fmap length)) in E. cbn in E.
  rewrite !chars_app, !length_app in E. cbn in E. injection E. lia.
Qed.

(** A cursor decodes to the row it was made from. *)
Lemma cursor_round t ref : validTime t -> DecodeListCursor (EncodeListCursor t ref) = Ok (t, ref).
Proof.
  intros Ht. unfold DecodeListCursor. rewrite decide_False by apply cursor_nonempty. unfold EncodeListCursor.
  rewrite chars_of, base64_round, of_chars_of by apply url_alphabet.
  rewrite (cut_first (timeFormat t) ref "|"%char) by apply time_no_bar. by rewrite time_round.
Qed.

Context {R : RefStore} {RL : RefStoreLaws R} {RR : RefStoreReliable R}.

(** A client that follows the cursors to the end. *)
Fixpoint allPages (fuel : nat) (s : rstore) (domain prefix after : string) (limit : Z) : option (result (list ObjectInfo)) :=
  match fuel with
  | O => None
  | S fuel =>
      match rListPage s domain prefix after limit with
      | Err e => Some (Err e)
      | Ok (page, next) =>
          if decide (next = "") then Some (Ok page)
          else match allPages fuel s domain prefix next limit with
               | Some (Ok l) => Some (Ok (page ++ l))
               | r => r
               end
      end
  end.

Lemma listing_nodup rows d p l : listing rows d p l -> NoDup l.
Proof.
  intros [Hs _]. induction Hs as [|x l Hs IH Hf]; [constructor|]. constructor; [|done]. intros Hin.
  rewrite Forall_forall in Hf. specialize (Hf x Hin). by rewrite before_irrefl in Hf.
Qed.

(** The listing is determined by the rows. *)
Lemma listing_unique rows d p l k : listing rows d p l -> listing rows d p k -> l = k.
Proof.
  intros Hl Hk. assert (Hp : l ≡ₚ k).
  { apply NoDup_Permutation; [by eapply listing_nodup|by eapply listing_nodup|]. intros i.
    destruct Hl as [_ Hl], Hk as [_ Hk]. by rewrite Hl, Hk. }
  destruct Hl as [Hl _], Hk as [Hk _]. revert k Hk Hp. induction Hl as [|x l Hl IH Hf]; intros k Hk Hp.
  - by apply Permutation_nil_l in Hp as ->.
  - destruct Hk as [|y k Hk Hg]; [by apply Permutation_nil_r in Hp|].
    assert (x = y) as ->.
    { assert (Hx : x ∈ y :: k) by (rewrite <- Hp; by left). assert (Hy : y ∈ x :: l) by (rewrite Hp; by left).
      apply elem_of_cons in Hx as [|Hx]; [done|]. apply elem_of_cons in Hy as [|Hy]; [done|].
      rewrite Forall_forall in Hf, Hg. pose proof (before_trans _ _ _ (Hf y Hy) (Hg x Hx)) as Hb. by rewrite before_irrefl in Hb. }
    f_equal. apply IH; [done|]. by apply Permutation_cons_inv in Hp.
Qed.

(** What is after the last row of a page is the rest of the listing. *)
Lemma filter_after l x rest :
  StronglySorted (fun a b => before a b = true) (l ++ x :: rest) ->
  filter (fun i => afterCursor (oCreated x) (Ref x) i = true) (l ++ x :: rest) = rest.
Proof.
  induction l as [|y l IH]; cbn [app]; intros Hs; apply StronglySorted_inv in Hs as [Hs Hf].
  - rewrite filter_cons_False by (rewrite afterCursor_before, before_irrefl; done).
    apply filter_keeps. eapply Forall_impl; [exact Hf|]. intros i Hi. by rewrite afterCursor_before.
  - rewrite filter_cons_False, IH; [done|done|]. rewrite afterCursor_before. rewrite Forall_forall in Hf.
    specialize (Hf x ltac:(set_solver)). intros Hb. pose proof (before_trans _ _ _ Hb Hf) as Hi. by rewrite before_irrefl in Hi.
Qed.

Lemma pages_from fuel s d p limit all seen x rest :
  rvalid s -> listing (rrows s) d p all -> Forall (fun i => validTime (oCreated i)) all ->
  all = seen ++ x :: rest -> (length rest < fuel)%nat ->
  allPages fuel s d p (EncodeListCursor (oCreated x) (Ref x)) limit = Some (Ok rest).
Proof.
  intros Hv Hl Ht. revert seen x rest. induction fuel as [|fuel IH]; intros seen x rest E Hf; [lia|]. cbn [allPages].
  assert (Hdec : DecodeListCursor (EncodeListCursor (oCreated x) (Ref x)) = Ok (oCreated x, Ref x)).
  { apply cursor_round. rewrite Forall_forall in Ht. apply Ht. rewrite E. set_solver. }
  pose proof (rpage_total s d p (EncodeListCursor (oCreated x) (Ref x)) limit ltac:(by rewrite Hdec)) as Hok.
  destruct (rListPage s d p _ limit) as [[page next]|] eqn:Hp; [|done].
  apply (rpage_ok _ _ _ _ _ _ _ Hv) in Hp as (c & all' & rest' & Hd & Hl' & Hrows & Hend & Hnext). rewrite Hdec in Hd. injection Hd as <-.
  rewrite (listing_unique _ _ _ _ _ Hl' Hl), decide_False in Hrows by apply cursor_nonempty. cbn [fst snd] in Hrows. rewrite E, filter_after in Hrows by (rewrite <- E; apply Hl).
  case_decide as Hn; [by rewrite Hrows, (Hend Hn), app_nil_r|].
  destruct (Hnext Hn) as (l' & y & -> & ->).
  rewrite (IH (seen ++ x :: l') y rest'); [by rewrite Hrows|by rewrite E, Hrows, <- !app_assoc|].
  rewrite Hrows, !length_app in Hf. cbn in Hf. lia.
Qed.

(** Following the cursors from the start lists every row under the prefix
    exactly once, newest first, whatever the page size. *)
Lemma pages_all fuel s d p limit all :
  rvalid s -> listing (rrows s) d p all -> Forall (fun i => validTime (oCreated i)) all -> (length all < fuel)%nat -> allPages fuel s d p "" limit = Some (Ok all).
Proof.
  intros Hv Hl Ht Hf. destruct fuel as [|fuel]; [lia|]. cbn [allPages].
  pose proof (rpage_total s d p "" limit ltac:(done)) as Hok. destruct (rListPage s d p "" limit) as [[page next]|] eqn:Hp; [|done].
  apply (rpage_ok _ _ _ _ _ _ _ Hv) in Hp as (c & all' & rest & _ & Hl' & Hrows & Hend & Hnext).
  rewrite (listing_unique _ _ _ _ _ Hl' Hl), decide_True in Hrows by done.
  case_decide as Hn; [by rewrite Hrows, (Hend Hn), app_nil_r|]. destruct (Hnext Hn) as (l' & y & -> & ->).
  rewrite (pages_from fuel s d p limit all l' y rest); [by rewrite Hrows|done|done|done|by rewrite Hrows, <- app_assoc|].
  rewrite Hrows, !length_app in Hf. cbn in Hf. lia.
Qed.
End Pages.

(** ** The in-memory index keeps the promise *)

Section MemRefs.
  Context {T : TimeText} {TL : TimeTextLaws T}.

Definition memRowsView (m : MemoryRefStore) : gmap (string * string) ObjectInfo := 
  map_uncurry (M1 := gmap string) (M2 := gmap string) (M12 := gmap (string * string)) (memRows m).

(** Rows are stored under their own domain and ref. *)
Definition memValid (m : MemoryRefStore) : Prop :=
  forall d r i, memRowsView m !! (d, r) = Some i -> Domain i = d /\ Ref i = r.

Lemma memView_lookup m d r : memRowsView m !! (d, r) = default ∅ (memRows m !! d) !! r.
Proof. unfold memRowsView. rewrite lookup_map_uncurry. destruct (memRows m !! d); cbn; [done|]. by rewrite lookup_empty. Qed.

Lemma memRefPut_view m i m' : memRefPut m i = (m', Ok tt) -> memRowsView m' = <[(Domain i, Ref i) := i]> (memRowsView m).
Proof.
  unfold memRefPut. case_decide; [done|]. intros [= <-]. apply map_eq. intros [d r]. rewrite memView_lookup. cbn.
  destruct (decide (d = Domain i)) as [->|Hd].
  - rewrite lookup_insert_eq. cbn. destruct (decide (r = Ref i)) as [->|Hr]; [by rewrite !lookup_insert_eq|].
    rewrite !lookup_insert_ne, memView_lookup by congruence. done.
  - rewrite !lookup_insert_ne, memView_lookup by congruence. done.
Qed.

Lemma memRefDelete_view m d r m' : memRefDelete m d r = (m', Ok tt) -> memRowsView m' = delete (d, r) (memRowsView m).
Proof.
  intros [= <-]. apply map_eq. intros [d' r']. rewrite memView_lookup. cbn. destruct (decide (d' = d)) as [->|Hd].
  - rewrite lookup_alter_eq. destruct (decide (r' = r)) as [->|Hr].
    + rewrite lookup_delete_eq. destruct (memRows m !! d); cbn; [apply lookup_delete_eq|apply lookup_empty].
    + rewrite lookup_delete_ne, memView_lookup by congruence. destruct (memRows m !! d); cbn; [by rewrite lookup_delete_ne|done].
  - rewrite lookup_alter_ne, lookup_delete_ne, memView_lookup by congruence. done.
Qed.

Lemma domain_rows m d i : memValid m ->
  i ∈ snd <$> map_to_list (default ∅ (memRows m !! d)) <-> memRowsView m !! (d, Ref i) = Some i.
Proof.
  intros Hv. rewrite list_elem_of_fmap. split.
  - intros ([r j] & -> & Hin). apply elem_of_map_to_list in Hin. rewrite <- memView_lookup in Hin. cbn.
    destruct (Hv d r j Hin) as [_ ->]. done.
  - intros Hi. exists (Ref i, i). split; [done|]. apply elem_of_map_to_list. by rewrite <- memView_lookup.
Qed.

Lemma under_rows m d p i : memValid m -> i ∈ under m d p <-> memRowsView m !! (d, Ref i) = Some i /\ HasPrefix (Ref i) p = true.
Proof.
  intros Hv. unfold under. rewrite list_elem_of_fmap. split.
  - intros ([r j] & -> & Hin). apply list_elem_of_filter in Hin as [Hp Hin]. apply elem_of_map_to_list in Hin.
    rewrite <- memView_lookup in Hin. cbn in *. destruct (Hv d r j Hin) as [_ ->]. done.
  - intros [Hi Hp]. exists (Ref i, i). split; [done|]. apply list_elem_of_filter. split; [done|].
    apply elem_of_map_to_list. by rewrite <- memView_lookup.
Qed.

Lemma under_nodup m d p : memValid m -> NoDup (Ref <$> under m d p).
Proof.
  intros Hv. unfold under. rewrite <- list_fmap_compose.
  replace ((Ref ∘ snd) <$> _) with (fst <$> filter (fun kv => HasPrefix kv.1 p = true) (map_to_list (default ∅ (memRows m !! d))));
    [apply NoDup_fmap_filter, NoDup_fst_map_to_list|].
  apply list_fmap_ext. intros n [r i] Hi. apply list_elem_of_lookup_2, list_elem_of_filter in Hi as [_ Hi].
  apply elem_of_map_to_list in Hi. rewrite <- memView_lookup in Hi. cbn. by destruct (Hv d r i Hi) as [_ <-].
Qed.

(** Sorting rows with distinct refs gives the strict order. *)
Lemma sorted_strict l : NoDup (Ref <$> l) -> StronglySorted (fun a b => before a b = true) (sortBy before l).
Proof.
  intros Hn. assert (Hs : StronglySorted (notAfter before) (sortBy before l)) by (apply StronglySorted_merge_sort; apply _).
  assert (Hp : sortBy before l ≡ₚ l) by apply merge_sort_Permutation.
  rewrite <- Hp in Hn. clear Hp. induction Hs as [|x k Hs IH Hf]; [constructor|]. cbn in Hn. apply NoDup_cons in Hn as [Hx Hn].
  constructor; [by apply IH|]. rewrite Forall_forall in Hf |- *. intros y Hy. specialize (Hf y Hy).
  assert (Hne : Ref x <> Ref y) by (intros E; apply Hx; rewrite E; by apply list_elem_of_fmap_2).
  destruct (before_total x y Hne); [done|]. unfold notAfter in Hf. congruence.
Qed.

Lemma under_listing m d p : memValid m -> listing (memRowsView m) d p (sortBy before (under m d p)).
Proof.
  intros Hv. split; [by apply sorted_strict, under_nodup|]. intros i. rewrite <- (under_rows m d p i Hv).
  unfold sortBy. by rewrite merge_sort_Permutation.
Qed.

Lemma pageOf_spec all limit page next : pageOf all limit = (page, next) ->
  exists rest, all = page ++ rest /\ (next = "" -> rest = []) /\
    (next <> "" -> exists l' x, page = l' ++ [x] /\ next = EncodeListCursor (oCreated x) (Ref x)).
Proof.
  unfold pageOf. set (n := if limit <=? 0 then defaultPageSize else limit).
  assert (Hn : 0 < n) by (unfold n, defaultPageSize; destruct (Z.leb_spec limit 0); lia).
  destruct (Z.ltb_spec n (len all)) as [Hlt|Hge]; [|intros [= <- <-]; exists []; by rewrite app_nil_r].
  destruct (all !! Z.to_nat (n - 1)) as [x|] eqn:E; [|intros [= <- <-]; exists []; by rewrite app_nil_r].
  intros [= <- <-]. exists (drop (Z.to_nat n) all). unfold slice. rewrite Z.sub_0_r. cbn [drop Z.to_nat].
  split; [by rewrite take_drop|]. split; [by intros E'; destruct (cursor_nonempty (oCreated x) (Ref x))|].
  intros _. exists (take (Z.to_nat (n - 1)) all), x. split; [|done].
  replace (Z.to_nat n) with (S (Z.to_nat (n - 1))) by lia. by apply take_S_r.
Qed.

#[export] Instance mem_refs_laws : RefStoreLaws mem_refs.
Proof.
  refine {| rrows := memRowsView : @rstore mem_refs -> _; rvalid := memValid : @rstore mem_refs -> _ |}.
  - intros s i s' res. cbn. destruct (memRefPut s i) as [s1 r] eqn:E. intros [= <- <-] Hv. destruct r as [[]|].
    + intros d r j. rewrite (memRefPut_view _ _ _ E). intros [[[= <- <-] <-]|[_ Hj]]%lookup_insert_Some; [done|by apply Hv].
    + revert E. unfold memRefPut. case_decide; [|done]. by intros [= <- _].
  - intros s d r s' res. cbn. intros [= <- _] Hv d' r' i. rewrite (memRefDelete_view s d r _ eq_refl).
    intros [_ Hi]%lookup_delete_Some. by apply Hv.
  - intros s d r i Hv. apply Hv.
  - apply memRefPut_view.
  - intros s i s' e. cbn. unfold memRefPut. case_decide; [|done]. intros [= <- _]. by left.
  - intros s d r o [= <-]. by rewrite memView_lookup.
  - apply memRefDelete_view.
  - intros s d r s' e. done.
  - intros s d p limit l Hv [= <-]. exists (sortBy before (under s d p)). split; [by apply under_listing|done].
  - intros s d p after limit l next Hv. cbn. unfold memRefListPage. intros (c & Hc & E)%bind_ok. injection E as E.
    apply pageOf_spec in E as (rest & Hall & He & Hn). exists c, (sortBy before (under s d p)), rest.
    split_and!; [done|by apply under_listing|done|done|done].
  - intros s d t limit l i Hv [= <-] Hin.
    assert (Hin2 : i ∈ sortBy older (filter (fun i => Pending i = true /\ oCreated i <= t) (snd <$> map_to_list (default ∅ (memRows s !! d))))).
    { revert Hin. unfold capped. destruct (0 <? limit); [|done]. unfold slice. intros Hin. by apply subseteq_take in Hin. }
    unfold sortBy in Hin2. rewrite merge_sort_Permutation in Hin2. apply list_elem_of_filter in Hin2 as [[? ?] Hin2].
    split_and!; [by apply domain_rows|done|done].
  - intros s d t l i Hv [= <-] Hi Hp Ht. cbn. unfold sortBy. rewrite merge_sort_Permutation. apply list_elem_of_filter.
    split; [done|]. by apply domain_rows.
Defined.

#[export] Instance mem_refs_reliable : RefStoreReliable mem_refs.
Proof.
  split.
  - intros s i Hi. cbn. unfold memRefPut. by rewrite decide_False.
  - intros s d r. cbn. unfold memRefGet. by rewrite memView_lookup.
  - done.
  - intros s d p after limit. cbn. unfold memRefListPage. by destruct (DecodeListCursor after).
  - done.
Qed.

(** Following the cursors of the in-memory index from the start lists exactly
    the rows under the prefix, each once and newest first, for every page size
    and in at most one page more than there are rows. *)
Theorem pages_cover (m : MemoryRefStore) domain prefix limit :
  memValid m -> Forall (fun i => validTime (oCreated i)) (under m domain prefix) ->
  allPages (S (length (under m domain prefix))) (m : @rstore mem_refs) domain prefix "" limit =
    Some (Ok (sortBy before (under m domain prefix))).
Proof.
  intros Hv Ht. apply pages_all; [done|by apply under_listing| |]; unfold sortBy; rewrite merge_sort_Permutation; [done|lia].
Qed.
End MemRefs.

(** ** Staging *)

(** Where minted uploads put their bytes; [sgOpen] gives the stream a reader
    of the staged bytes delivers. *)
Class StagingStore := {
  stage : Type;
  sgPresign : stage -> string -> Z -> Z -> result (string * Z);
  sgOpen : stage -> string -> result rdStream;
  sgDelete : stage -> string -> stage * result unit;
}.

Class StagingStoreLaws (G : StagingStore) := {
  staged : stage -> gmap string bytes;
  open_sound : forall g k r data, sgOpen g k = Ok r -> inputOf r = Ok data -> staged g !! k = Some data;
  stage_delete_ok : forall g k g', sgDelete g k = (g', Ok tt) -> staged g' = delete k (staged g);
  stage_delete_err : forall g k g' e, sgDelete g k = (g', Err e) -> staged g' = staged g \/ staged g' = delete k (staged g);
}.

Record MemoryStagingStore := MemStage { memBlob : gmap string bytes; memNow : Z }.

Definition PutStaged (s : MemoryStagingStore) (k : string) (data : bytes) : MemoryStagingStore :=
  MemStage (<[k := data]> (memBlob s)) (memNow s).

Definition memPresign (s : MemoryStagingStore) (k : string) (_ ttl : Z) : result (string * Z) :=
  Ok ("mem://staging/" +:+ k, memNow s + ttl).

Definition memOpen (s : MemoryStagingStore) (k : string) : result rdStream :=
  match memBlob s !! k with
  | None => Err (EOther "staging key not uploaded")
  | Some data => Ok (bytesReader (length data) data)
  end.

Definition memStageDelete (s : MemoryStagingStore) (k : string) : MemoryStagingStore * result unit :=
  (MemStage (delete k (memBlob s)) (memNow s), Ok tt).

#[export] Instance mem_stage : StagingStore := {|
  stage := MemoryStagingStore;
  sgPresign := memPresign; sgOpen := memOpen; sgDelete := memStageDelete;
|}.

#[export] Instance mem_stage_laws : StagingStoreLaws mem_stage.
Proof.
  refine {| staged := memBlob : @stage mem_stage -> _ |}.
  - intros g k r data. cbn. unfold memOpen. destruct (memBlob g !! k) as [x|]; [|done]. intros [= <-] Hin.
    rewrite (bytesReader_input (length x) x) in Hin by done. by injection Hin as ->.
  - by intros g k g' [= <-].
  - done.
Defined.

(** ** A time format that inverts, for evaluation *)

#[export] Instance decimal_time : TimeText := {| timeFormat := FormatUint; timeParse := ParseUint |}.

Lemma formatUint_chars fuel t : Forall (fun c => isDigit c = true) (chars (formatUint fuel t)).
Proof.
  revert t; induction fuel as [|fuel IH]; intros t; [constructor|]. cbn [formatUint].
  destruct (t <? 10); [apply digits_chars|]. rewrite chars_app. apply Forall_app. split; [apply IH|apply digits_chars].
Qed.

#[export] Instance decimal_time_laws : TimeTextLaws decimal_time.
Proof.
  split.
  - intros t Ht. cbn. apply ParseUint_format. unfold validTime in Ht. lia.
  - intros t Hin. unfold timeFormat, decimal_time, FormatUint in Hin. pose proof (formatUint_chars 20 t) as Hd.
    rewrite Forall_forall in Hd. by apply Hd in Hin.
Qed.
