(* ===== verification/Gateway.v ===== *)
(** The object gateway (blobgw/gateway/gateway.go, register.go, classify.go).

    A gateway serves the objects of one dedup domain: the bytes and the user
    metadata are the latest snapshot of the key [(domain, ref)] in the chunked
    store, the index row carries the rest.  The state is the chunked store's
    world, the index and the staging area; every operation is the whole
    handler, each call of the two stores in the order of the code and each
    error returned where the code returns it.  Clock readings and random ids
    are arguments.

    GatewaySpec shows that the operations implement a map from refs to
    objects. *)

From S2P Require Import Prelude GoStrings Decimal Sha256 PackFormat BlobStore Manifest SnapStore DedupIndex ChunkedRead ChunkedWrite GoText RefStore.

(** ** Error classes *)

Inductive Kind := KindInternal | KindNotFound | KindInvalidRef | KindNotStaged | KindIntegrity.

Definition Classify (e : err) : Kind :=
  match e with
  | ErrNotFound => KindNotFound
  | ErrInvalidRef => KindInvalidRef
  | ErrNotStaged => KindNotStaged
  | ErrIntegrity => KindIntegrity
  | _ => KindInternal
  end.

(** ** User metadata in snapshot tags *)

Definition metaTagPrefix : string := "u.".

Definition encodeUserTags (userMeta : gmap string string) : gmap string string :=
  list_to_map ((fun kv => (metaTagPrefix +:+ kv.1, kv.2)) <$> map_to_list userMeta).

Definition decodeUserTags (tags : gmap string string) : gmap string string :=
  list_to_map (omap (fun kv => (fun k => (k, kv.2)) <$> CutPrefix kv.1 metaTagPrefix) (map_to_list tags)).

(** ** The finalize gate *)

(** [None] when what the caller asked to verify matches. *)
Definition checkIntegrity (expectedHash : string) (expectedSize gotSize : Z) (gotHash : string) : option string :=
  if (0 <? expectedSize) && (gotSize =? 0) then Some "staged object is empty"
  else if (0 <? expectedSize) && negb (gotSize =? expectedSize) then Some "size mismatch"
  else if bool_decide (expectedHash <> "") && negb (EqualFold expectedHash gotHash) then Some "hash mismatch"
  else None.

(** What a [hashingCounter] has seen when the reader behind it is drained. *)
Fixpoint drained (r : rdStream) : bytes :=
  match r with
  | [] => []
  | (b, RdMore) :: r => b ++ drained r
  | (b, _) :: _ => b
  end.

Lemma drained_input r data : inputOf r = Ok data -> drained r = data.
Proof.
  revert data; induction r as [|[b [| |e]] r IH]; cbn; intros data.
  - by intros [= <-].
  - destruct (inputOf r) as [rest|]; [|done]. cbn. intros [= <-]. by rewrite (IH rest).
  - by intros [= <-].
  - done.
Qed.

(** ** The gateway *)

(** [gwStaging] and [gwValidator] say whether the optional collaborators are
    there. *)
Record Gateway := MkGateway { gwStore : ChunkedStore; gwDomain : string; gwStaging : bool; gwValidator : bool }.

Record MintOptions := MkMint {
  moType : string; moMeta : gmap string string; moMaxSize : Z; moTTL : Z; moHash : string; moSize : Z }.

Record StagedUpload := MkUpload { suRef : string; suURL : string; suKey : string; suExpires : Z }.

Record StagingGCResult := MkSweep { PendingScanned : Z; SlotsReclaimed : Z; StagingDeleteErrors : Z }.

Section Gateway.
  Context {Clib : CodecLib} {Sto : Storage} {U : SnapshotStore} {D : DedupStore} {Sp : Splitter} {J : ManifestCodec}
          {T : TimeText} {R : RefStore} {G : StagingStore}.

Record gst := GS { gsWorld : world; gsRefs : rstore; gsStage : stage }.

Definition withUps (st : gst) (u : sstore) : gst :=
  GS (W (wBlobs (gsWorld st)) u (wDedup (gsWorld st))) (gsRefs st) (gsStage st).

Definition withRefs (st : gst) (x : rstore * result unit) : gst * result unit :=
  (GS (gsWorld st) x.1 (gsStage st), x.2).

Definition gwKey (g : Gateway) (ref : string) : SnapshotKey := MkKey (gwDomain g) "" "" ref.

Definition noKey : SnapshotKey := MkKey "" "" "" "".

(** [snapshot.SnapshotMetadata{Format: contentType, Tags: encodeUserTags(m)}]. *)
Definition userSnap (contentType : string) (m : gmap string string) : SnapshotMetadata :=
  MkMeta noKey "" 0 0 "" contentType (encodeUserTags m).

(** [newID]: the clock and six random bytes are inputs. *)
Definition newID (prefix : string) (now : Z) (buf : bytes) : string :=
  prefix +:+ "-" +:+ timeFormat now +:+ "-" +:+ hex_encode buf.

Definition PutWithMeta (now : Z) (g : Gateway) (st : gst) (ref contentType : string) (userMeta : gmap string string)
  (r : rdStream) : gst * result ObjectInfo :=
  if decide (ref = "") then (st, Err ErrInvalidRef)
  else
    match Put (gwStore g) (gsWorld st) (gwKey g ref) (userSnap contentType userMeta) r with
    | (w, Err e) => (GS w (gsRefs st) (gsStage st), Err e)
    | (w, Ok sm) =>
        let info := MkInfo ref (gwDomain g) (sha256_hex (drained r)) (len (drained r)) contentType now (Version sm)
                      userMeta false "" "" 0 in
        match rPut (gsRefs st) info with
        | (refs, Err e) => (GS w refs (gsStage st), Err e)
        | (refs, Ok _) => (GS w refs (gsStage st), Ok info)
        end
    end.

Definition gwPut (now : Z) (g : Gateway) (st : gst) (ref contentType : string) (r : rdStream) : gst * result ObjectInfo :=
  PutWithMeta now g st ref contentType ∅ r.

(** A missing snapshot under a row is a missing object. *)
Definition noSnapshot (e : err) : err := if decide (e = ErrNoSnapshot) then ErrNotFound else e.

(** The row of a ref that can be read: known and not pending. *)
Definition lookupRef (g : Gateway) (st : gst) (ref : string) : result ObjectInfo :=
  o ← rGet (gsRefs st) (gwDomain g) ref;
  match o with
  | Some info => if Pending info then Err ErrNotFound else Ok info
  | None => Err ErrNotFound
  end.

Definition setVersionMeta (info : ObjectInfo) (version : string) (m : gmap string string) : ObjectInfo :=
  MkInfo (Ref info) (Domain info) (ContentHash info) (oSize info) (ContentType info) (oCreated info) version m
    (Pending info) (StagingKey info) (ExpectedHash info) (ExpectedSize info).

Definition setMeta (info : ObjectInfo) (m : gmap string string) : ObjectInfo := setVersionMeta info (oVersion info) m.

(** New user tags, and the empty value, which deletes, for the old ones that
    are not among them. *)
Definition metaOverlay (old : gmap string string) (userMeta : gmap string string) : gmap string string :=
  encodeUserTags userMeta ∪ ((fun _ => "") <$> filter (fun kv => HasPrefix kv.1 metaTagPrefix = true) old).

Definition SetUserMeta (g : Gateway) (st : gst) (ref : string) (userMeta : gmap string string) : gst * result unit :=
  match lookupRef g st ref with
  | Err e => (st, Err e)
  | Ok info =>
      match sGetLatestMetadata (wUps (gsWorld st)) (gwKey g ref) with
      | Err e => (st, Err (noSnapshot e))
      | Ok sm =>
          match UpdateLatestMeta (wUps (gsWorld st)) (gwKey g ref) (metaOverlay (Tags sm) userMeta) with
          | (u, Err e) => (withUps st u, Err (noSnapshot e))
          | (u, Ok newSM) =>
              withRefs (withUps st u) (rPut (gsRefs st) (setVersionMeta info (Version newSM) userMeta))
          end
      end
  end.

Definition gwGet (fc : gmap string packFraming) (g : Gateway) (st : gst) (ref : string)
  : result (chunkStreamReader * ObjectInfo) :=
  info ← lookupRef g st ref;
  match GetLatest fc (gsWorld st) (gwKey g ref) with
  | Err e => Err (noSnapshot e)
  | Ok (rd, sm) => Ok (rd, setMeta info (decodeUserTags (Tags sm)))
  end.

Definition gwHead (g : Gateway) (st : gst) (ref : string) : result ObjectInfo :=
  info ← lookupRef g st ref;
  match sGetLatestMetadata (wUps (gsWorld st)) (gwKey g ref) with
  | Err e => Err (noSnapshot e)
  | Ok sm => Ok (setMeta info (decodeUserTags (Tags sm)))
  end.

(** Deletes the versions in turn and stops at the first failure. *)
Fixpoint deleteVersions (u : sstore) (key : SnapshotKey) (versions : list SnapshotMetadata) : sstore * result unit :=
  match versions with
  | [] => (u, Ok tt)
  | v :: versions => match sDelete u key (Version v) with
                     | (u, Err e) => (u, Err e)
                     | (u, Ok _) => deleteVersions u key versions
                     end
  end.

Definition gwDelete (g : Gateway) (st : gst) (ref : string) : gst * result unit :=
  let key := gwKey g ref in
  let versions := match sList (wUps (gsWorld st)) key with
                  | Err ErrNoSnapshot => Ok []
                  | r => r
                  end in
  match versions with
  | Err e => (st, Err e)
  | Ok versions =>
      match deleteVersions (wUps (gsWorld st)) key versions with
      | (u, Err e) => (withUps st u, Err e)
      | (u, Ok _) => withRefs (withUps st u) (rDelete (gsRefs st) (gwDomain g) ref)
      end
  end.

Definition gwList (g : Gateway) (st : gst) (prefix : string) (limit : Z) : result (list ObjectInfo) :=
  rList (gsRefs st) (gwDomain g) prefix limit.

Definition gwListPage (g : Gateway) (st : gst) (prefix after : string) (limit : Z) : result (list ObjectInfo * string) :=
  rListPage (gsRefs st) (gwDomain g) prefix after limit.

(** [DeletePrefix]'s inner loop: [cancelled n] is the context's state before
    the [n]-th ref; a failed ref is counted and passed over. *)
Record sweepCount := MkCount { visited : nat; deleted : Z; failed : Z }.

Fixpoint deletePage (cancelled : nat -> option err) (g : Gateway) (st : gst) (page : list ObjectInfo) (c : sweepCount)
  : gst * sweepCount * option err :=
  match page with
  | [] => (st, c, None)
  | info :: page =>
      match cancelled (visited c) with
      | Some e => (st, c, Some e)
      | None =>
          match gwDelete g st (Ref info) with
          | (st, Err _) => deletePage cancelled g st page (MkCount (S (visited c)) (deleted c) (failed c + 1))
          | (st, Ok _) => deletePage cancelled g st page (MkCount (S (visited c)) (deleted c + 1) (failed c))
          end
      end
  end.

Fixpoint deletePages (fuel : nat) (cancelled : nat -> option err) (g : Gateway) (st : gst) (prefix after : string)
  (c : sweepCount) : gst * option (Z * option err) :=
  match fuel with
  | O => (st, None)
  | S fuel =>
      match gwListPage g st prefix after 0 with
      | Err e => (st, Some (deleted c, Some e))
      | Ok (page, next) =>
          match deletePage cancelled g st page c with
          | (st, c, Some e) => (st, Some (deleted c, Some e))
          | (st, c, None) =>
              if decide (next = "") then
                (st, Some (deleted c, if 0 <? failed c then Some (EOther "delete-prefix: refs failed") else None))
              else deletePages fuel cancelled g st prefix next c
          end
      end
  end.

Definition DeletePrefix (fuel : nat) (cancelled : nat -> option err) (g : Gateway) (st : gst) (prefix : string)
  : gst * option (Z * option err) :=
  if decide (prefix = "") then (st, Some (0, Some ErrInvalidRef))
  else deletePages fuel cancelled g st prefix "" (MkCount O 0 0).

(** ** Stage, then finalize *)

Definition MintRefWithOptions (now idNow : Z) (refBuf upBuf : bytes) (g : Gateway) (st : gst) (ref : string) (opts : MintOptions)
  : gst * result StagedUpload :=
  if negb (gwStaging g) then (st, Err (EOther "blobgw: staging not configured"))
  else
    let ref := if decide (ref = "") then newID "ref" idNow refBuf else ref in
    let stagingKey := gwDomain g +:+ "/staging/" +:+ ref +:+ "/" +:+ newID "up" idNow upBuf in
    match sgPresign (gsStage st) stagingKey (moMaxSize opts) (moTTL opts) with
    | Err e => (st, Err e)
    | Ok (url, exp) =>
        let pending := MkInfo ref (gwDomain g) "" 0 (moType opts) now "" (moMeta opts) true stagingKey
                         (moHash opts) (moSize opts) in
        match rPut (gsRefs st) pending with
        | (refs, Err e) => (GS (gsWorld st) refs (gsStage st), Err e)
        | (refs, Ok _) => (GS (gsWorld st) refs (gsStage st), Ok (MkUpload ref url stagingKey exp))
        end
    end.

Definition MintRefWithMeta (now idNow : Z) (refBuf upBuf : bytes) (g : Gateway) (st : gst) (ref contentType : string)
  (userMeta : gmap string string) (maxSize ttl : Z) : gst * result StagedUpload :=
  MintRefWithOptions now idNow refBuf upBuf g st ref (MkMint contentType userMeta maxSize ttl "" 0).

Definition MintRef (now idNow : Z) (refBuf upBuf : bytes) (g : Gateway) (st : gst) (ref contentType : string) (maxSize ttl : Z)
  : gst * result StagedUpload :=
  MintRefWithMeta now idNow refBuf upBuf g st ref contentType ∅ maxSize ttl.

(** [rc] drained through the store, then the gate, then the row. *)
Definition finalizeFrom (now : Z) (g : Gateway) (st : gst) (ref : string) (info : ObjectInfo) (r : rdStream)
  : gst * result ObjectInfo :=
  match Put (gwStore g) (gsWorld st) (gwKey g ref) (userSnap (ContentType info) (UserMeta info)) r with
  | (w, Err e) => (GS w (gsRefs st) (gsStage st), Err e)
  | (w, Ok sm) =>
      let gotHash := sha256_hex (drained r) in
      let gotSize := len (drained r) in
      match checkIntegrity (ExpectedHash info) (ExpectedSize info) gotSize gotHash with
      | Some _ =>
          let u := (sDelete (wUps w) (gwKey g ref) (Version sm)).1 in
          let sg := (sgDelete (gsStage st) (StagingKey info)).1 in
          (GS (W (wBlobs w) u (wDedup w)) (gsRefs st) sg, Err ErrIntegrity)
      | None =>
          let final := MkInfo ref (gwDomain g) gotHash gotSize (ContentType info) now (Version sm) (UserMeta info)
                         false "" (ExpectedHash info) (ExpectedSize info) in
          match rPut (gsRefs st) final with
          | (refs, Err e) => (GS w refs (gsStage st), Err e)
          | (refs, Ok _) => (GS w refs (sgDelete (gsStage st) (StagingKey info)).1, Ok final)
          end
      end
  end.

Definition Finalize (now : Z) (g : Gateway) (st : gst) (ref : string) : gst * result ObjectInfo :=
  if negb (gwStaging g) then (st, Err (EOther "blobgw: staging not configured"))
  else
    match rGet (gsRefs st) (gwDomain g) ref with
    | Err e => (st, Err e)
    | Ok None => (st, Err ErrNotFound)
    | Ok (Some info) =>
        if negb (Pending info) then (st, Ok info)
        else if decide (StagingKey info = "") then (st, Err ErrNotStaged)
        else match sgOpen (gsStage st) (StagingKey info) with
             | Err e => (st, Err e)
             | Ok r => finalizeFrom now g st ref info r
             end
    end.

(** *** Sweeping abandoned uploads *)

Fixpoint sweepStale (cancelled : nat -> option err) (g : Gateway) (st : gst) (stale : list ObjectInfo) (n : nat)
  (res : StagingGCResult) : gst * StagingGCResult * option err :=
  match stale with
  | [] => (st, res, None)
  | info :: stale =>
      match cancelled n with
      | Some e => (st, res, Some e)
      | None =>
          let '(sg, bad) := if decide (StagingKey info = "") then (gsStage st, false)
                            else let '(sg, r) := sgDelete (gsStage st) (StagingKey info) in (sg, negb (is_ok r)) in
          let errs := StagingDeleteErrors res + (if bad then 1 else 0) in
          match rDelete (gsRefs st) (gwDomain g) (Ref info) with
          | (refs, Err e) =>
              (GS (gsWorld st) refs sg, MkSweep (PendingScanned res) (SlotsReclaimed res) errs, Some e)
          | (refs, Ok _) => sweepStale cancelled g (GS (gsWorld st) refs sg) stale (S n)
                              (MkSweep (PendingScanned res) (SlotsReclaimed res + 1) errs)
          end
      end
  end.

(** [StagingGC.RunOnce]. *)
Definition stagingRunOnce (cancelled : nat -> option err) (now ttl : Z) (g : Gateway) (st : gst)
  : gst * StagingGCResult * option err :=
  if negb (gwStaging g) then (st, MkSweep 0 0 0, None)
  else match rListStalePending (gsRefs st) (gwDomain g) (now - ttl) 0 with
       | Err e => (st, MkSweep 0 0 0, Some e)
       | Ok stale => sweepStale cancelled g st stale O (MkSweep (len stale) 0 0)
       end.

(** ** Binding refs to chunks that are already there *)

Fixpoint distinctHashes (seen : list string) (chunks : list ChunkLocation) : list string :=
  match chunks with
  | [] => []
  | c :: chunks => if decide (ChunkHash c ∈ seen) then distinctHashes seen chunks
                   else ChunkHash c :: distinctHashes (ChunkHash c :: seen) chunks
  end.

Definition checkChunk (found : gmap string PackRef) (c : ChunkLocation) : result unit :=
  match found !! ChunkHash c with
  | None => Err ErrChunkNotInDomain
  | Some authoritative => if decide (locRef c = authoritative) then Ok tt else Err ErrChunkPackMismatch
  end.

(** After the comparison the overwrite with the index's position changes
    nothing. *)
Definition validateAndNormaliseChunks (g : Gateway) (st : gst) (chunks : list ChunkLocation) : result unit :=
  if negb (gwValidator g) || bool_decide (chunks = []) then Ok tt
  else
    found ← dLookupBatch (wDedup (gsWorld st)) (gwDomain g) (distinctHashes [] chunks);
    _ ← mapR (checkChunk found) chunks; Ok tt.

Definition RegisterRef (now : Z) (g : Gateway) (st : gst) (ref : string) (chunks : list ChunkLocation)
  (contentHash : string) (size : Z) (contentType : string) (userMeta : gmap string string) : gst * result ObjectInfo :=
  if decide (ref = "") then (st, Err ErrInvalidRef)
  else
    match validateAndNormaliseChunks g st chunks with
    | Err e => (st, Err e)
    | Ok _ =>
        match RegisterManifest (gwStore g) (wUps (gsWorld st)) (gwKey g ref) (userSnap contentType userMeta) chunks with
        | (u, Err e) => (withUps st u, Err e)
        | (u, Ok sm) =>
            let info := MkInfo ref (gwDomain g) contentHash size contentType now (Version sm) userMeta false "" "" 0 in
            match rPut (gsRefs st) info with
            | (refs, Ok _) => (GS (gsWorld (withUps st u)) refs (gsStage st), Ok info)
            | (refs, Err e) =>
                let u' := (sDelete u (gwKey g ref) (Version sm)).1 in
                (GS (gsWorld (withUps st u')) refs (gsStage st), Err e)
            end
        end
    end.

Definition RefChunks (g : Gateway) (st : gst) (ref : string) : result (list ChunkLocation) :=
  _ ← lookupRef g st ref;
  match ManifestChunks (wUps (gsWorld st)) (gwKey g ref) with
  | Err e => Err (noSnapshot e)
  | Ok locs => Ok locs
  end.
End Gateway.
