(* ===== verification/GatewaySpec.v ===== *)
(** The gateway implements a map of objects.

    The specification is a map from [(domain, ref)] to an object: its bytes,
    its user metadata, its content type and the size and hash reported for it.
    [sim] relates a gateway state to such a map: an object is a row that is not
    pending over a latest snapshot that holds the object's bytes.
    [gateway_refines] is the simulation over every history of the gateways of
    all domains, failed calls and garbage collection included: each operation
    changes the one object it is about and in the way its answer says.
    [gateway_serves]: in a state so related, reads return exactly the object,
    and unknown refs are not found. *)

From S2P Require Import Prelude GoStrings Decimal Sha256 PackFormat BlobStore Manifest SnapStore DedupIndex Reclaim ChunkedRead ChunkedWrite PutSpec PutGet BatchSpec GC GCSpec MetaOps Lifecycle GoText RefStore Gateway.

(** ** User metadata survives the tags *)

#[global] Instance append_inj (p : string) : Inj (=) (=) (String.append p).
Proof. intros a b E. apply chars_inj. apply (f_equal chars) in E. rewrite !chars_app in E. by apply app_inv_head in E. Qed.

(** A map under a prefix of its keys, and back. *)
Lemma prefixed_lookup p (m : gmap string string) k :
  (list_to_map ((fun kv => (p +:+ kv.1, kv.2)) <$> map_to_list m) : gmap string string) !! (p +:+ k) = m !! k.
Proof. exact (lookup_kmap (M1 := gmap string) (M2 := gmap string) (String.append p) m k). Qed.

Lemma stripped_lookup p (t : gmap string string) k :
  (list_to_map (omap (fun kv => (fun k => (k, kv.2)) <$> CutPrefix kv.1 p) (map_to_list t)) : gmap string string) !! k = t !! (p +:+ k).
Proof.
  set (l := omap _ (map_to_list t)).
  assert (Hl : forall v, (k, v) ∈ l <-> t !! (p +:+ k) = Some v).
  { intros v. unfold l. rewrite list_elem_of_omap. split.
    - intros ([k2 v2] & Hin & E). apply elem_of_map_to_list in Hin. cbn in E.
      destruct (CutPrefix k2 p) as [k3|] eqn:Ec; [|done]. injection E as -> ->. by apply CutPrefix_spec in Ec as ->.
    - intros Hv. exists (p +:+ k, v). split; [by apply elem_of_map_to_list|]. cbn.
      by rewrite (proj2 (CutPrefix_spec _ _ k) eq_refl). }
  destruct (t !! (p +:+ k)) as [v|] eqn:E.
  - apply elem_of_list_to_map_1'; [|by apply Hl]. intros y Hy%Hl. congruence.
  - apply not_elem_of_list_to_map_1. intros ([k2 v] & -> & Hin)%list_elem_of_fmap. cbn in *. by apply Hl in Hin.
Qed.

Lemma encode_lookup m k : encodeUserTags m !! (metaTagPrefix +:+ k) = m !! k.
Proof. apply prefixed_lookup. Qed.

Lemma encode_prefix m k v : encodeUserTags m !! k = Some v -> HasPrefix k metaTagPrefix = true.
Proof.
  intros E. apply (lookup_kmap_Some (M1 := gmap string) (M2 := gmap string) (String.append metaTagPrefix)) in E as (k' & -> & _).
  apply HasPrefix_spec. eauto.
Qed.

Lemma decode_lookup t k : decodeUserTags t !! k = t !! (metaTagPrefix +:+ k).
Proof. apply stripped_lookup. Qed.

Lemma format_not_user : HasPrefix "chunked_format" metaTagPrefix = false.
Proof. reflexivity. Qed.

(** What a put stores beside the user's tags does not show. *)
Lemma decode_put m f : decodeUserTags (<["chunked_format" := f]> (encodeUserTags m)) = m.
Proof.
  apply map_eq. intros k. rewrite decode_lookup, lookup_insert_ne, encode_lookup; [done|].
  intros E. pose proof format_not_user as H. rewrite E in H. by rewrite (proj2 (HasPrefix_spec _ _)) in H by eauto.
Qed.

Lemma overlay_format old m : HasPrefix "chunked_format" metaTagPrefix = false -> metaOverlay old m !! "chunked_format" = None.
Proof.
  intros Hf. unfold metaOverlay. apply lookup_union_None. split.
  - destruct (encodeUserTags m !! "chunked_format") eqn:E; [|done]. apply encode_prefix in E. congruence.
  - rewrite lookup_fmap, map_lookup_filter_None_2; [done|]. right. intros v _. cbn. congruence.
Qed.

(** Replacing user metadata replaces all of it, and loses the keys whose new
    value is empty: an empty value is how the store is told to delete. *)
Lemma decode_replaced old m :
  decodeUserTags (mergeTags old (metaOverlay old m)) = filter (fun kv => kv.2 <> "") m.
Proof.
  apply map_eq. intros k. rewrite decode_lookup, mergeTags_lookup. unfold metaOverlay.
  destruct (m !! k) as [v|] eqn:E.
  - rewrite (lookup_union_Some_l _ _ _ v) by (by rewrite encode_lookup). case_decide as Hv.
    + symmetry. apply map_lookup_filter_None_2. right. intros v' Hv'. cbn. rewrite E in Hv'. injection Hv' as <-. tauto.
    + symmetry. by apply map_lookup_filter_Some_2.
  - rewrite lookup_union_r by (by rewrite encode_lookup). rewrite (map_lookup_filter_None_2 _ m) by (by left).
    rewrite lookup_fmap. destruct (old !! (metaTagPrefix +:+ k)) as [v|] eqn:Eo.
    + rewrite (map_lookup_filter_Some_2 _ _ _ v); [done|done|]. cbn. apply HasPrefix_spec. eauto.
    + by rewrite map_lookup_filter_None_2 by (by left).
Qed.

(** ** Objects *)

Record object := MkObj { obData : bytes; obMeta : gmap string string; obType : string; obSize : Z; obHash : string }.

Definition setObMeta (m : gmap string string) (o : object) : object := MkObj (obData o) m (obType o) (obSize o) (obHash o).

Section Spec.
  Context {Clib : CodecLib} {Claws : CodecLaws} {Sto : Storage} {L : StorageLaws Sto}
          {U : SnapshotStore} {SL : SnapshotStoreLaws U} {SR : SnapshotStoreReadable U}
          {D : DedupStore} {DL : DedupStoreLaws D} {A : PackAssocStore D}
          {Sp : Splitter} {Spl : SplitterLaws Sp} {J : ManifestCodec} {JL : ManifestCodecLaws}
          {T : TimeText} {R : RefStore} {RL : RefStoreLaws R} {G : StagingStore} {GL : StagingStoreLaws G}.

Definition dkey (d ref : string) : SnapshotKey := MkKey d "" "" ref.

(** [md] is the latest snapshot of the key and holds [data]. *)
Definition current (w : world) (key : SnapshotKey) (md : SnapshotMetadata) (data : bytes) : Prop :=
  holds w key (Version md) md data /\
  forall v, is_Some (snaps (wUps w) !! (key, v)) -> str_ltb (Version md) v = false.

Definition shows (st : gst) (d ref : string) (o : object) : Prop :=
  exists info md, rrows (gsRefs st) !! (d, ref) = Some info /\ Pending info = false /\
    ContentType info = obType o /\ oSize info = obSize o /\ ContentHash info = obHash o /\
    current (gsWorld st) (dkey d ref) md (obData o) /\ decodeUserTags (Tags md) = obMeta o.

Definition absent (st : gst) (d ref : string) : Prop :=
  forall info, rrows (gsRefs st) !! (d, ref) = Some info ->
    Pending info = true \/ forall v, snaps (wUps (gsWorld st)) !! (dkey d ref, v) = None.

Definition sees (st : gst) (d ref : string) (x : option object) : Prop :=
  match x with Some o => shows st d ref o | None => absent st d ref end.

(** Every snapshot of an object key has its bytes. *)
Record gw_ok (st : gst) : Prop := {
  go_life : life_ok (gsWorld st);
  go_valid : rvalid (gsRefs st);
  go_snaps : forall d ref v b md, snaps (wUps (gsWorld st)) !! (dkey d ref, v) = Some (b, md) ->
    Version md = v /\ exists data, holds (gsWorld st) (dkey d ref) v md data;
}.

Definition sim (st : gst) (objs : gmap (string * string) object) : Prop :=
  gw_ok st /\ forall d ref, sees st d ref (objs !! (d, ref)).

(** ** The specification *)

Inductive gevent :=
| EvPut (d ref : string) (o : object)
| EvMeta (d ref : string) (m : gmap string string)
| EvRemove (d ref : string)
| EvTorn (d ref : string)
| EvNone.

(** A torn operation may have left anything at its own ref, and nothing
    elsewhere. *)
Definition spec_step (objs : gmap (string * string) object) (ev : gevent) (objs' : gmap (string * string) object) : Prop :=
  match ev with
  | EvPut d ref o => objs' = <[(d, ref) := o]> objs
  | EvMeta d ref m => is_Some (objs !! (d, ref)) /\ objs' = alter (setObMeta m) (d, ref) objs
  | EvRemove d ref => objs' = delete (d, ref) objs
  | EvTorn d ref => exists x, objs' = partial_alter (fun _ => x) (d, ref) objs
  | EvNone => objs' = objs
  end.

Inductive spec_steps : gmap (string * string) object -> list gevent -> gmap (string * string) object -> Prop :=
| spec_nil objs : spec_steps objs [] objs
| spec_cons objs1 objs2 objs3 ev evs :
    spec_step objs1 ev objs2 -> spec_steps objs2 evs objs3 -> spec_steps objs1 (ev :: evs) objs3.

(** ** Latest snapshots *)

Lemma current_unique w key md data md' data' :
  current w key md data -> current w key md' data' -> md = md'.
Proof.
  intros [(b & m & cs & Hin & _) Hmax] [(b' & m' & cs' & Hin' & _) Hmax'].
  assert (E : Version md = Version md').
  { apply str_ltb_total; [apply Hmax|apply Hmax']; rewrite ?Hin, ?Hin'; done. }
  rewrite E, Hin' in Hin. congruence.
Qed.

(** The versions of a key have a greatest. *)
Lemma latest_exists (u : sstore) key v :
  is_Some (snaps u !! (key, v)) -> exists v0, is_Some (snaps u !! (key, v0)) /\
    forall v', is_Some (snaps u !! (key, v')) -> str_ltb v0 v' = false.
Proof.
  intros Hv. set (l := (fun x : SnapshotKey * string * (bytes * SnapshotMetadata) => x.1.2) <$>
    filter (fun x => x.1.1 = key) (map_to_list (snaps u))).
  assert (Hl : forall v', v' ∈ l <-> is_Some (snaps u !! (key, v'))).
  { intros v'. unfold l. rewrite list_elem_of_fmap. split.
    - intros ([[k w] x] & -> & Hin). apply list_elem_of_filter in Hin as [Hk Hin]. cbn in Hk. subst k.
      apply elem_of_map_to_list in Hin. cbn. by rewrite Hin.
    - intros [x Hx]. exists (key, v', x). split; [done|]. apply list_elem_of_filter. split; [done|]. by apply elem_of_map_to_list. }
  apply Hl in Hv. destruct l as [|a l']; [by apply elem_of_nil in Hv|]. destruct (foldl_strMax a l') as [H1 H2].
  exists (foldl strMax a l'). split; [by apply Hl|]. intros v' Hv'. by apply H2, Hl.
Qed.

Lemma current_exists st d ref v : gw_ok st -> is_Some (snaps (wUps (gsWorld st)) !! (dkey d ref, v)) ->
  exists md data, current (gsWorld st) (dkey d ref) md data.
Proof.
  intros Hok Hv. destruct (latest_exists _ _ _ Hv) as (v0 & [[b md] Hin] & Hmax).
  destruct (go_snaps st Hok d ref v0 b md Hin) as [<- [data Hd]]. exists md, data. by split.
Qed.

(** Whatever a sound state holds at a ref is an object or its absence. *)
Lemma sees_exists st d ref : gw_ok st -> exists x, sees st d ref x.
Proof.
  intros Hok. destruct (rrows (gsRefs st) !! (d, ref)) as [info|] eqn:E.
  2:{ exists None. intros info Hi. congruence. }
  destruct (Pending info) eqn:Ep; [exists None; intros i Hi; left; congruence|].
  destruct (decide (Exists (fun x => x.1.1 = dkey d ref) (map_to_list (snaps (wUps (gsWorld st)))))) as [He|Hn].
  - apply Exists_exists in He as ([[k v] x] & Hin & Hk). cbn in Hk. subst k. apply elem_of_map_to_list in Hin.
    destruct (current_exists st d ref v Hok) as (md & data & Hc); [by rewrite Hin|].
    by exists (Some (MkObj data (decodeUserTags (Tags md)) (ContentType info) (oSize info) (ContentHash info))), info, md.
  - exists None. intros i Hi. right. intros v. destruct (snaps _ !! (dkey d ref, v)) as [x|] eqn:Ev; [|done].
    destruct Hn. apply Exists_exists. exists (dkey d ref, v, x). split; [by apply elem_of_map_to_list|done].
Qed.

(** ** One ref at a time *)

(** The states agree away from the ref, and no blob is gone. *)
Definition agrees (st st' : gst) (d ref : string) : Prop :=
  blobs (wBlobs (gsWorld st)) ⊆ blobs (wBlobs (gsWorld st')) /\
  forall d' r', (d', r') <> (d, ref) ->
    rrows (gsRefs st') !! (d', r') = rrows (gsRefs st) !! (d', r') /\
    forall v, snaps (wUps (gsWorld st')) !! (dkey d' r', v) = snaps (wUps (gsWorld st)) !! (dkey d' r', v).

Lemma agrees_trans st1 st2 st3 d ref : agrees st1 st2 d ref -> agrees st2 st3 d ref -> agrees st1 st3 d ref.
Proof.
  intros [Hb1 H1] [Hb2 H2]. split; [by etrans|]. intros d' r' Hne. destruct (H1 d' r' Hne) as [Hr1 Hs1], (H2 d' r' Hne) as [Hr2 Hs2].
  split; [congruence|]. intros v. by rewrite Hs2.
Qed.

Lemma current_mono w w' key md data :
  (forall v, snaps (wUps w') !! (key, v) = snaps (wUps w) !! (key, v)) -> blobs (wBlobs w) ⊆ blobs (wBlobs w') ->
  current w key md data -> current w' key md data.
Proof.
  intros Hs Hb [Hh Hm]. split; [eapply holds_mono; [left; symmetry; apply Hs|done|done]|].
  intros v. rewrite Hs. apply Hm.
Qed.

Lemma sees_other st st' d ref d' r' x :
  agrees st st' d ref -> (d', r') <> (d, ref) -> sees st d' r' x -> sees st' d' r' x.
Proof.
  intros [Hb Ha] Hne. destruct (Ha d' r' Hne) as [Hr Hs]. destruct x as [o|]; cbn.
  - intros (info & md & Hi & Hp & Ht & Hz & Hh & Hc & Hm). exists info, md. rewrite Hr. split_and!; try done.
    by eapply current_mono.
  - intros Habs info. rewrite Hr. intros Hi. destruct (Habs info Hi) as [|Hn]; [by left|]. right. intros v. by rewrite Hs.
Qed.

Definition key_ok (st : gst) (d ref : string) : Prop :=
  forall v b md, snaps (wUps (gsWorld st)) !! (dkey d ref, v) = Some (b, md) ->
    Version md = v /\ exists data, holds (gsWorld st) (dkey d ref) v md data.

Lemma gw_ok_at st st' d ref :
  gw_ok st -> agrees st st' d ref -> life_ok (gsWorld st') -> rvalid (gsRefs st') -> key_ok st' d ref -> gw_ok st'.
Proof.
  intros Hok [Hb Ha] Hl Hv Hk. split; [done|done|]. intros d' r' v b md Hin.
  destruct (decide ((d', r') = (d, ref))) as [[= -> ->]|Hne]; [by eapply Hk|]. destruct (Ha d' r' Hne) as [_ Hs].
  rewrite Hs in Hin. destruct (go_snaps st Hok _ _ _ _ _ Hin) as [Hver [data Hd]]. split; [done|]. exists data.
  eapply holds_mono; [left; symmetry; apply Hs|done|done].
Qed.

Lemma sim_at st st' objs d ref x :
  sim st objs -> agrees st st' d ref -> gw_ok st' -> sees st' d ref x ->
  sim st' (partial_alter (fun _ => x) (d, ref) objs).
Proof.
  intros [_ Hs] Ha Hok Hx. split; [done|]. intros d' r'. destruct (decide ((d', r') = (d, ref))) as [[= -> ->]|Hne].
  - by rewrite lookup_partial_alter_eq.
  - rewrite lookup_partial_alter_ne by done. by eapply sees_other.
Qed.

Lemma sim_torn st st' objs d ref :
  sim st objs -> agrees st st' d ref -> gw_ok st' -> exists objs', spec_step objs (EvTorn d ref) objs' /\ sim st' objs'.
Proof.
  intros Hs Ha Hok. destruct (sees_exists st' d ref Hok) as [x Hx]. exists (partial_alter (fun _ => x) (d, ref) objs).
  split; [by exists x|]. by eapply sim_at.
Qed.

Lemma torn_same st objs d ref : sim st objs -> exists objs', spec_step objs (EvTorn d ref) objs' /\ sim st objs'.
Proof. intros Hs. exists objs. split; [|done]. exists (objs !! (d, ref)). symmetry. apply partial_alter_self. Qed.

(** A new latest snapshot. *)
Lemma current_newest w w' key sm b data :
  snaps (wUps w') = <[(key, Version sm) := (b, sm)]> (snaps (wUps w)) -> newest (wUps w) key (Version sm) ->
  holds w' key (Version sm) sm data -> current w' key sm data.
Proof.
  intros Hs Hn Hh. split; [done|]. intros v. rewrite Hs. destruct (decide (v = Version sm)) as [->|Hne]; [intros _; apply str_ltb_irrefl|].
  rewrite lookup_insert_ne by congruence. intros Hv. by apply str_ltb_asym, Hn.
Qed.

Lemma key_ok_insert st w' refs' sg d ref sm b data :
  gw_ok st -> blobs (wBlobs (gsWorld st)) ⊆ blobs (wBlobs w') ->
  snaps (wUps w') = <[(dkey d ref, Version sm) := (b, sm)]> (snaps (wUps (gsWorld st))) ->
  snaps (wUps (gsWorld st)) !! (dkey d ref, Version sm) = None ->
  holds w' (dkey d ref) (Version sm) sm data -> key_ok (GS w' refs' sg) d ref.
Proof.
  intros Hok Hb Hs Hnew Hh v b' md. cbn. rewrite Hs. intros [[[= <-] [= <- <-]]|[Hne Hin]]%lookup_insert_Some; [by split; [|exists data]|].
  destruct (go_snaps st Hok _ _ _ _ _ Hin) as [Hv [x Hx]]. split; [done|]. exists x. eapply (holds_mono (gsWorld st)); [|done|exact Hx].
  right. rewrite Hs. by apply insert_subseteq.
Qed.

Lemma dkey_ne d ref d' r' : (d', r') <> (d, ref) -> dkey d' r' <> dkey d ref.
Proof. intros Hne [= -> ->]. done. Qed.

(** ** Putting *)

Definition put_conds (g : Gateway) (st : gst) (ref ct : string) (m : gmap string string) (r : rdStream) : Prop :=
  put_ready (gwStore g) (gsWorld st) (gwKey g ref) (userSnap ct m) (chunksOf r) /\
  json_safe (domainFor (gwStore g) (gwKey g ref)) /\ domainFor (gwStore g) (gwKey g ref) <> "".

(** The upstream store numbers the snapshot above the key's others. *)
Definition put_newest (g : Gateway) (st : gst) (ref ct : string) (m : gmap string string) (r : rdStream) : Prop :=
  forall w' sm, Put (gwStore g) (gsWorld st) (gwKey g ref) (userSnap ct m) r = (w', Ok sm) ->
    newest (wUps (gsWorld st)) (gwKey g ref) (Version sm).

Lemma put_effect g st ref ct m r w' res refs' sg :
  gw_ok st -> put_conds g st ref ct m r ->
  Put (gwStore g) (gsWorld st) (gwKey g ref) (userSnap ct m) r = (w', res) ->
  life_ok w' /\ blobs (wBlobs (gsWorld st)) ⊆ blobs (wBlobs w') /\
  (forall k v, k <> gwKey g ref -> snaps (wUps w') !! (k, v) = snaps (wUps (gsWorld st)) !! (k, v)) /\
  key_ok (GS w' refs' sg) (gwDomain g) ref /\
  match res with
  | Err _ => snaps (wUps w') = snaps (wUps (gsWorld st))
  | Ok sm => exists data, inputOf r = Ok data /\ decodeUserTags (Tags sm) = m /\
      (put_newest g st ref ct m r -> current w' (gwKey g ref) sm data)
  end.
Proof.
  intros Hok (Hr & Hj & Hne) Hp.
  assert (Hl : life_ok w') by (eapply step_life; [by eapply step_put|apply Hok]).
  destruct (Put_adds _ _ _ _ _ _ _ Hp) as (Hb & _ & Hsame). split; [done|]. split; [done|].
  destruct res as [sm|e].
  - destruct (Put_tagged _ _ _ _ _ _ _ Hp) as (md0 & b & f & Hu & Ht & _). apply sput_ok in Hu as (Hn & Hs & _ & _ & Htags).
    destruct (holds_put _ _ _ _ _ _ _ Hr Hj Hp) as (data & Hin & Hh). split_and!.
    + intros k v Hk. rewrite Hs, lookup_insert_ne; [done|]. intros [= <- _]. done.
    + exact (key_ok_insert st w' refs' sg (gwDomain g) ref sm b data Hok Hb Hs Hn Hh).
    + exists data. split_and!; [done|rewrite Htags, Ht; apply decode_put|]. intros Hnew. eapply current_newest; [exact Hs|by eapply Hnew|done].
  - rewrite Hsame by done. split_and!; [done| |done]. intros v b md. cbn. rewrite Hsame by done. intros Hin.
    destruct (go_snaps st Hok _ _ _ _ _ Hin) as [Hv [x Hx]]. split; [done|]. exists x. eapply (holds_mono (gsWorld st)); [|done|exact Hx].
    left. by rewrite Hsame.
Qed.

Lemma rput_other s i s' res : rPut s i = (s', res) ->
  forall k, k <> (Domain i, Ref i) -> rrows s' !! k = rrows s !! k.
Proof.
  intros Hp k Hk. destruct res as [[]|e]; [apply rput_ok in Hp as ->; by rewrite lookup_insert_ne|].
  apply rput_err in Hp as [->| ->]; [done|by rewrite lookup_insert_ne].
Qed.

Lemma rdelete_other s d r s' res : rDelete s d r = (s', res) -> forall k, k <> (d, r) -> rrows s' !! k = rrows s !! k.
Proof.
  intros Hp k Hk. destruct res as [[]|e]; [apply rdelete_ok in Hp as ->; by rewrite lookup_delete_ne|].
  apply rdelete_err in Hp as [->| ->]; [done|by rewrite lookup_delete_ne].
Qed.

(** The state after a put of [ref] and a change of its row. *)
Lemma put_row_ok g st ref ct m r w' res refs' sg :
  gw_ok st -> put_conds g st ref ct m r ->
  Put (gwStore g) (gsWorld st) (gwKey g ref) (userSnap ct m) r = (w', res) ->
  rvalid refs' -> (forall k, k <> (gwDomain g, ref) -> rrows refs' !! k = rrows (gsRefs st) !! k) ->
  agrees st (GS w' refs' sg) (gwDomain g) ref /\ gw_ok (GS w' refs' sg).
Proof.
  intros Hok Hc Hp Hv Hrows. destruct (put_effect g st ref ct m r w' res refs' sg Hok Hc Hp) as (Hl & Hb & Hs & Hk & _).
  assert (Ha : agrees st (GS w' refs' sg) (gwDomain g) ref).
  { split; [done|]. intros d' r' Hne. split; [by apply Hrows|]. intros v. by apply Hs, dkey_ne. }
  split; [done|]. by eapply gw_ok_at.
Qed.

Lemma put_sim now g st objs ref ct m r st' info data :
  sim st objs -> put_conds g st ref ct m r -> put_newest g st ref ct m r ->
  PutWithMeta now g st ref ct m r = (st', Ok info) -> inputOf r = Ok data ->
  sim st' (<[(gwDomain g, ref) := MkObj data m ct (len data) (sha256_hex data)]> objs).
Proof.
  intros Hs Hc Hn. pose proof (proj1 Hs) as Hok. unfold PutWithMeta. case_decide; [done|].
  destruct (Put _ _ _ _ _) as [w' [sm|]] eqn:Hp; [|done].
  destruct (rPut _ _) as [refs [[]|]] eqn:Hr; [|done]. intros [= <- _] Hin.
  rewrite (drained_input r data Hin) in Hr.
  destruct (put_row_ok g st ref ct m r w' _ refs (gsStage st) Hok Hc Hp) as [Ha Hok'];
    [by eapply rput_valid; [done|apply Hok]|by apply (rput_other _ _ _ _ Hr)|].
  apply (sim_at st); [done|done|done|]. cbn. apply rput_ok in Hr. cbn in Hr.
  destruct (put_effect g st ref ct m r w' _ refs (gsStage st) Hok Hc Hp) as (_ & _ & _ & _ & data' & Hin' & Hm & Hcur).
  rewrite Hin in Hin'. injection Hin' as <-. eexists _, sm. cbn. rewrite Hr, lookup_insert_eq.
  split_and!; [done..|by apply Hcur|done].
Qed.

(** A put the chunked store refuses changes no object. *)
Lemma put_failed_sim now g st objs ref ct m r st' e :
  sim st objs -> put_conds g st ref ct m r -> PutWithMeta now g st ref ct m r = (st', Err e) ->
  ref = "" \/ is_ok (Put (gwStore g) (gsWorld st) (gwKey g ref) (userSnap ct m) r).2 = false -> sim st' objs.
Proof.
  intros Hs Hc. pose proof (proj1 Hs) as Hok. unfold PutWithMeta. case_decide; [by intros [= <- _]|].
  destruct (Put _ _ _ _ _) as [w' [sm|e']] eqn:Hp; [by intros _ [?|?]|]. intros [= <- _] _.
  destruct (put_row_ok g st ref ct m r w' _ (gsRefs st) (gsStage st) Hok Hc Hp) as [Ha Hok']; [apply Hok|done|].
  destruct (put_effect g st ref ct m r w' _ (gsRefs st) (gsStage st) Hok Hc Hp) as (_ & Hb & _ & _ & Hsame).
  split; [done|]. intros d' r'. destruct (decide ((d', r') = (gwDomain g, ref))) as [[= -> ->]|Hne]; [|by eapply sees_other; [done|done|apply Hs]].
  destruct Hs as [_ Hs]. specialize (Hs (gwDomain g) ref). destruct (objs !! (gwDomain g, ref)) as [o|]; cbn in *.
  - destruct Hs as (info & md & Hi & Hp' & Ht & Hz & Hh & Hcur & Hm). exists info, md. split_and!; try done.
    eapply current_mono; [|done|exact Hcur]. intros v. cbn. by rewrite Hsame.
  - intros info Hi. destruct (Hs info Hi) as [|Hn]; [by left|]. right. intros v. cbn. by rewrite Hsame.
Qed.

Lemma put_torn now g st objs ref ct m r st' e :
  sim st objs -> put_conds g st ref ct m r -> PutWithMeta now g st ref ct m r = (st', Err e) ->
  exists objs', spec_step objs (EvTorn (gwDomain g) ref) objs' /\ sim st' objs'.
Proof.
  intros Hs Hc Hput. pose proof (proj1 Hs) as Hok.
  destruct (decide (ref = "" \/ is_ok (Put (gwStore g) (gsWorld st) (gwKey g ref) (userSnap ct m) r).2 = false)) as [Hf|Hf].
  { apply torn_same. by eapply put_failed_sim. }
  revert Hput. unfold PutWithMeta. case_decide; [tauto|]. destruct (Put _ _ _ _ _) as [w' [sm|e']] eqn:Hp; [|by cbn in Hf; tauto].
  destruct (rPut _ _) as [refs [[]|]] eqn:Hr; [done|]. intros [= <- _].
  destruct (put_row_ok g st ref ct m r w' _ refs (gsStage st) Hok Hc Hp) as [Ha Hok'];
    [by eapply rput_valid; [done|apply Hok]|by apply (rput_other _ _ _ _ Hr)|].
  by eapply sim_torn.
Qed.

(** ** Metadata *)

Lemma lookupRef_ok g st ref info :
  lookupRef g st ref = Ok info -> rrows (gsRefs st) !! (gwDomain g, ref) = Some info /\ Pending info = false.
Proof.
  unfold lookupRef. intros (o & Ho%rget_ok & E)%bind_ok. rewrite <- Ho. destruct o as [i|]; [|done].
  destruct (Pending i) eqn:Ep; [done|]. injection E as ->. done.
Qed.

Lemma meta_effect st d ref tags u' res refs' sg :
  gw_ok st -> tags !! "chunked_format" = None -> UpdateLatestMeta (wUps (gsWorld st)) (dkey d ref) tags = (u', res) ->
  life_ok (gsWorld (withUps st u')) /\
  (forall k v, k <> dkey d ref -> snaps u' !! (k, v) = snaps (wUps (gsWorld st)) !! (k, v)) /\
  key_ok (GS (gsWorld (withUps st u')) refs' sg) d ref /\
  match res with
  | Err _ => snaps u' = snaps (wUps (gsWorld st))
  | Ok md' => (exists md data, current (gsWorld st) (dkey d ref) md data) /\
      forall md data, current (gsWorld st) (dkey d ref) md data -> Tags md' = mergeTags (Tags md) tags /\
        (newest (wUps (gsWorld st)) (dkey d ref) (Version md') -> current (gsWorld (withUps st u')) (dkey d ref) md' data)
  end.
Proof.
  intros Hok Ht Hu. pose proof (meta_life _ _ _ _ _ (go_life st Hok) Ht Hu) as Hl. split; [done|].
  destruct res as [md'|e].
  - apply UpdateLatestMeta_ok in Hu as (b & md & m & [Hin Hmax] & Hj & Hf & Hn & Hs & Htags).
    destruct (go_snaps st Hok _ _ _ _ _ Hin) as [_ [data0 Hd0]].
    assert (Hh : forall data, holds (gsWorld st) (dkey d ref) (Version md) md data ->
      holds (gsWorld (withUps st u')) (dkey d ref) (Version md') md' data).
    { intros data (b2 & m2 & cs & Hin2 & Hj2 & Hfm & Hr & Hc). rewrite Hin in Hin2. injection Hin2 as <-.
      exists b, m2, cs. cbn. by rewrite Hs, lookup_insert_eq. }
    split_and!.
    + intros k v Hk. rewrite Hs, lookup_insert_ne; [done|]. intros [= <- _]. done.
    + exact (key_ok_insert st (gsWorld (withUps st u')) refs' sg d ref md' b data0 Hok ltac:(done) Hs Hn (Hh _ Hd0)).
    + by exists md, data0.
    + intros md1 data Hc. assert (E : md1 = md) by (eapply current_unique; [exact Hc|by split]). subst md1. split; [done|].
      intros Hnew. eapply current_newest; [exact Hs|done|]. by apply Hh, Hc.
  - apply UpdateLatestMeta_err in Hu. rewrite Hu. split_and!; [done| |done]. intros v b md. cbn. rewrite Hu. intros Hin.
    destruct (go_snaps st Hok _ _ _ _ _ Hin) as [Hv [x Hx]]. split; [done|]. exists x.
    eapply (holds_mono (gsWorld st)); [|done|exact Hx]. left. cbn. by rewrite Hu.
Qed.

Definition meta_newest (g : Gateway) (st : gst) (ref : string) (m : gmap string string) : Prop :=
  forall sm u' md', sGetLatestMetadata (wUps (gsWorld st)) (gwKey g ref) = Ok sm ->
    UpdateLatestMeta (wUps (gsWorld st)) (gwKey g ref) (metaOverlay (Tags sm) m) = (u', Ok md') ->
    newest (wUps (gsWorld st)) (gwKey g ref) (Version md').

Lemma meta_row_ok st d ref tags u' res refs' sg :
  gw_ok st -> tags !! "chunked_format" = None -> UpdateLatestMeta (wUps (gsWorld st)) (dkey d ref) tags = (u', res) ->
  rvalid refs' -> (forall k, k <> (d, ref) -> rrows refs' !! k = rrows (gsRefs st) !! k) ->
  agrees st (GS (gsWorld (withUps st u')) refs' sg) d ref /\ gw_ok (GS (gsWorld (withUps st u')) refs' sg).
Proof.
  intros Hok Ht Hu Hv Hrows. destruct (meta_effect st d ref tags u' res refs' sg Hok Ht Hu) as (Hl & Hs & Hk & _).
  assert (Ha : agrees st (GS (gsWorld (withUps st u')) refs' sg) d ref).
  { split; [done|]. intros d' r' Hne. split; [by apply Hrows|]. intros v. by apply Hs, dkey_ne. }
  split; [done|]. by eapply gw_ok_at.
Qed.

Lemma row_key st d ref info : gw_ok st -> rrows (gsRefs st) !! (d, ref) = Some info -> (Domain info, Ref info) = (d, ref).
Proof. intros Hok Hi. by destruct (rrows_key _ _ _ _ (go_valid st Hok) Hi) as [-> ->]. Qed.

Lemma latest_current st d ref sm : gw_ok st ->
  sGetLatestMetadata (wUps (gsWorld st)) (dkey d ref) = Ok sm -> exists data, current (gsWorld st) (dkey d ref) sm data.
Proof.
  intros Hok (b & Hin & Hmax)%slatestmd_sound. destruct (go_snaps st Hok _ _ _ _ _ Hin) as [_ [data Hd]]. by exists data.
Qed.

Lemma meta_sim g st objs ref m st' :
  sim st objs -> meta_newest g st ref m -> SetUserMeta g st ref m = (st', Ok tt) ->
  exists objs', spec_step objs (EvMeta (gwDomain g) ref (filter (fun kv => kv.2 <> "") m)) objs' /\ sim st' objs'.
Proof.
  intros Hs Hn. pose proof (proj1 Hs) as Hok. unfold SetUserMeta. destruct (lookupRef g st ref) as [info|] eqn:Hl; [|done].
  apply lookupRef_ok in Hl as [Hi Hp]. destruct (sGetLatestMetadata _ _) as [sm|] eqn:Hsm; [|done].
  destruct (UpdateLatestMeta _ _ _) as [u [md'|]] eqn:Hu; [|done]. destruct (rPut _ _) as [refs res] eqn:Hr. intros [= <- ->].
  pose proof (overlay_format (Tags sm) m format_not_user) as Ht. pose proof (Hn sm u md' Hsm Hu) as Hnew.
  pose proof (row_key st _ _ _ Hok Hi) as Hk.
  destruct (meta_row_ok st (gwDomain g) ref _ u _ refs (gsStage st) Hok Ht Hu) as [Ha Hok'];
    [by eapply rput_valid; [exact Hr|apply Hok]|intros k Hkk; apply (rput_other _ _ _ _ Hr); cbn; by rewrite Hk|].
  destruct (meta_effect st (gwDomain g) ref _ u _ refs (gsStage st) Hok Ht Hu) as (_ & _ & _ & (md & data & Hc) & Hcur).
  destruct (latest_current st _ _ _ Hok Hsm) as [data2 Hc2].
  pose proof (proj2 Hs (gwDomain g) ref) as Hsee. destruct (objs !! (gwDomain g, ref)) as [o|] eqn:Eo.
  2:{ cbn in Hsee. destruct (Hsee info Hi) as [|Hno]; [congruence|]. destruct Hc as [(b & ? & ? & Hin & _) _]. by rewrite Hno in Hin. }
  destruct Hsee as (info2 & md2 & Hi2 & _ & Hty & Hsz & Hha & Hc3 & Hme). rewrite Hi in Hi2. injection Hi2 as <-.
  destruct (Hcur _ _ Hc3) as [Htags Hnow]. rewrite (current_unique _ _ _ _ _ _ Hc2 Hc3) in Htags.
  exists (alter (setObMeta (filter (fun kv => kv.2 <> "") m)) (gwDomain g, ref) objs). split; [by split; [rewrite Eo|]|].
  replace (alter _ _ objs) with (partial_alter (fun _ => Some (setObMeta (filter (fun kv => kv.2 <> "") m) o)) (gwDomain g, ref) objs)
    by (apply partial_alter_ext; intros x Hx; by rewrite <- Hx, Eo).
  apply (sim_at st); [done|done|done|]. cbn. apply rput_ok in Hr. cbn in Hr. rewrite Hk in Hr.
  eexists _, md'. cbn. rewrite Hr, lookup_insert_eq. split_and!; try done; [by apply Hnow|]. rewrite Htags. apply decode_replaced.
Qed.

Lemma meta_torn g st objs ref m st' e :
  sim st objs -> SetUserMeta g st ref m = (st', Err e) ->
  exists objs', spec_step objs (EvTorn (gwDomain g) ref) objs' /\ sim st' objs'.
Proof.
  intros Hs. pose proof (proj1 Hs) as Hok. pose proof (torn_same st objs (gwDomain g) ref Hs) as Hsame.
  unfold SetUserMeta. destruct (lookupRef g st ref) as [info|] eqn:Hl; [|by intros [= <- _]].
  apply lookupRef_ok in Hl as [Hi Hp]. destruct (sGetLatestMetadata _ _) as [sm|] eqn:Hsm; [|by intros [= <- _]].
  pose proof (overlay_format (Tags sm) m format_not_user) as Ht. pose proof (row_key st _ _ _ Hok Hi) as Hk.
  destruct (UpdateLatestMeta _ _ _) as [u [md'|]] eqn:Hu.
  - destruct (rPut _ _) as [refs res] eqn:Hr. intros [= <- _].
    destruct (meta_row_ok st (gwDomain g) ref _ u _ refs (gsStage st) Hok Ht Hu) as [Ha Hok'];
      [by eapply rput_valid; [exact Hr|apply Hok]|intros k Hkk; apply (rput_other _ _ _ _ Hr); cbn; by rewrite Hk|].
    by eapply sim_torn.
  - intros [= <- _]. destruct (meta_row_ok st (gwDomain g) ref _ u _ (gsRefs st) (gsStage st) Hok Ht Hu) as [Ha Hok']; [apply Hok|done|].
    by eapply sim_torn.
Qed.

(** ** Deleting *)

Lemma gwVersions_snaps u key vs u' res : deleteVersions u key vs = (u', res) ->
  snaps u' ⊆ snaps u /\ forall k v, k <> key -> snaps u' !! (k, v) = snaps u !! (k, v).
Proof.
  revert u; induction vs as [|x vs IH]; intros u; cbn; [by intros [= <- _]|].
  destruct (sDelete u key (Version x)) as [u1 [t|e]] eqn:Hd.
  - intros Hrest. apply IH in Hrest as [H1 H2]. apply delete_snaps in Hd as [Hd|Hd]; rewrite Hd in H1, H2; [done|].
    split; [etrans; [exact H1|apply delete_subseteq]|]. intros k v Hk. rewrite H2 by done. rewrite lookup_delete_ne; [done|congruence].
  - intros [= <- _]. apply delete_snaps in Hd as [->| ->]; [done|]. split; [apply delete_subseteq|].
    intros k v Hk. rewrite lookup_delete_ne; [done|congruence].
Qed.

(** The state with some snapshots of the key gone and its row changed. *)
Lemma fewer_row_ok st d ref u' refs' sg :
  gw_ok st -> snaps u' ⊆ snaps (wUps (gsWorld st)) ->
  (forall k v, k <> dkey d ref -> snaps u' !! (k, v) = snaps (wUps (gsWorld st)) !! (k, v)) ->
  rvalid refs' -> (forall k, k <> (d, ref) -> rrows refs' !! k = rrows (gsRefs st) !! k) ->
  agrees st (GS (gsWorld (withUps st u')) refs' sg) d ref /\ gw_ok (GS (gsWorld (withUps st u')) refs' sg).
Proof.
  intros Hok Hsub Hs Hv Hrows. assert (Ha : agrees st (GS (gsWorld (withUps st u')) refs' sg) d ref).
  { split; [done|]. intros d' r' Hne. split; [by apply Hrows|]. intros v. by apply Hs, dkey_ne. }
  split; [done|]. eapply gw_ok_at; [done|done|apply life_ok_fewer; [apply Hok|done]|done|].
  intros v b md Hin. cbn in Hin. pose proof (lookup_weaken _ _ _ _ Hin Hsub) as Hin0.
  destruct (go_snaps st Hok _ _ _ _ _ Hin0) as [Hver [x Hx]]. split; [done|]. exists x.
  eapply (holds_mono (gsWorld st)); [|done|exact Hx]. left. cbn. by rewrite Hin, Hin0.
Qed.

Lemma delete_sim g st objs ref st' :
  sim st objs -> gwDelete g st ref = (st', Ok tt) -> sim st' (delete (gwDomain g, ref) objs).
Proof.
  intros Hs. pose proof (proj1 Hs) as Hok. unfold gwDelete. destruct (match sList _ _ with Err ErrNoSnapshot => Ok [] | r => r end) as [vs|]; [|done].
  destruct (deleteVersions _ _ vs) as [u [[]|]] eqn:Hd; [|done]. destruct (rDelete _ _ _) as [refs res] eqn:Hr. intros [= <- ->].
  apply gwVersions_snaps in Hd as [Hsub Hother].
  destruct (fewer_row_ok st (gwDomain g) ref u refs (gsStage st) Hok Hsub Hother) as [Ha Hok'];
    [by eapply rdelete_valid; [exact Hr|apply Hok]|by apply (rdelete_other _ _ _ _ _ Hr)|].
  apply (sim_at st); [done|done|done|]. intros info. cbn. apply rdelete_ok in Hr. rewrite Hr, lookup_delete_eq. done.
Qed.

Lemma delete_torn g st objs ref st' e :
  sim st objs -> gwDelete g st ref = (st', Err e) ->
  exists objs', spec_step objs (EvTorn (gwDomain g) ref) objs' /\ sim st' objs'.
Proof.
  intros Hs. pose proof (proj1 Hs) as Hok. unfold gwDelete.
  destruct (match sList _ _ with Err ErrNoSnapshot => Ok [] | r => r end) as [vs|].
  2:{ intros [= <- _]. by apply torn_same. }
  destruct (deleteVersions _ _ vs) as [u [[]|]] eqn:Hd; apply gwVersions_snaps in Hd as [Hsub Hother].
  - destruct (rDelete _ _ _) as [refs res] eqn:Hr. intros [= <- _].
    destruct (fewer_row_ok st (gwDomain g) ref u refs (gsStage st) Hok Hsub Hother) as [Ha Hok'];
      [by eapply rdelete_valid; [exact Hr|apply Hok]|by apply (rdelete_other _ _ _ _ _ Hr)|]. by eapply sim_torn.
  - intros [= <- _]. destruct (fewer_row_ok st (gwDomain g) ref u (gsRefs st) (gsStage st) Hok Hsub Hother) as [Ha Hok'];
      [apply Hok|done|]. by eapply sim_torn.
Qed.

(** ** Staging *)

(** A state in which only the row of [ref] changed. *)
Lemma row_ok st d ref refs' sg :
  gw_ok st -> rvalid refs' -> (forall k, k <> (d, ref) -> rrows refs' !! k = rrows (gsRefs st) !! k) ->
  agrees st (GS (gsWorld st) refs' sg) d ref /\ gw_ok (GS (gsWorld st) refs' sg).
Proof.
  intros Hok Hv Hrows. assert (Ha : agrees st (GS (gsWorld st) refs' sg) d ref) by (split; [done|]; intros d' r' Hne; split; [by apply Hrows|done]).
  split; [done|]. eapply gw_ok_at; [done|done|apply Hok|done|]. intros v b md Hin. by apply (go_snaps st Hok _ _ _ b).
Qed.

(** The ref an upload is minted for. *)
Definition mintedRef (idNow : Z) (buf : bytes) (ref : string) : string :=
  if decide (ref = "") then newID "ref" idNow buf else ref.

(** Minting hides what was there. *)
Lemma mint_sim now idNow b1 b2 g st objs ref opts st' up :
  sim st objs -> MintRefWithOptions now idNow b1 b2 g st ref opts = (st', Ok up) ->
  sim st' (delete (gwDomain g, mintedRef idNow b1 ref) objs).
Proof.
  intros Hs. pose proof (proj1 Hs) as Hok. unfold MintRefWithOptions. destruct (gwStaging g); [|done]. cbn [negb].
  fold (mintedRef idNow b1 ref). set (mref := mintedRef idNow b1 ref). destruct (sgPresign _ _ _ _) as [[url exp]|]; [|done].
  destruct (rPut _ _) as [refs [[]|]] eqn:Hr; [|done]. intros [= <- _].
  destruct (row_ok st (gwDomain g) mref refs (gsStage st) Hok) as [Ha Hok'];
    [by eapply rput_valid; [exact Hr|apply Hok]|by apply (rput_other _ _ _ _ Hr)|].
  apply (sim_at st); [done|done|done|]. intros info. cbn. apply rput_ok in Hr. rewrite Hr. cbn. rewrite lookup_insert_eq.
  intros [= <-]. by left.
Qed.

Lemma mint_torn now idNow b1 b2 g st objs ref opts st' e :
  sim st objs -> MintRefWithOptions now idNow b1 b2 g st ref opts = (st', Err e) ->
  exists objs', spec_step objs (EvTorn (gwDomain g) (mintedRef idNow b1 ref)) objs' /\ sim st' objs'.
Proof.
  intros Hs. pose proof (proj1 Hs) as Hok. unfold MintRefWithOptions. destruct (gwStaging g); cbn [negb]; [|intros [= <- _]; by apply torn_same].
  fold (mintedRef idNow b1 ref). set (mref := mintedRef idNow b1 ref). destruct (sgPresign _ _ _ _) as [[url exp]|]; [|intros [= <- _]; by apply torn_same].
  destruct (rPut _ _) as [refs [[]|]] eqn:Hr; [done|]. intros [= <- _].
  destruct (row_ok st (gwDomain g) mref refs (gsStage st) Hok) as [Ha Hok'];
    [by eapply rput_valid; [exact Hr|apply Hok]|by apply (rput_other _ _ _ _ Hr)|]. by eapply sim_torn.
Qed.

Lemma finalize_sim now g st objs ref info0 r st' info data :
  sim st objs -> rrows (gsRefs st) !! (gwDomain g, ref) = Some info0 -> Pending info0 = true ->
  sgOpen (gsStage st) (StagingKey info0) = Ok r ->
  put_conds g st ref (ContentType info0) (UserMeta info0) r -> put_newest g st ref (ContentType info0) (UserMeta info0) r ->
  Finalize now g st ref = (st', Ok info) -> inputOf r = Ok data ->
  sim st' (<[(gwDomain g, ref) := MkObj data (UserMeta info0) (ContentType info0) (len data) (sha256_hex data)]> objs).
Proof.
  intros Hs Hi Hp Ho Hc Hn. pose proof (proj1 Hs) as Hok. unfold Finalize. destruct (gwStaging g); [|done]. cbn [negb].
  destruct (rGet _ _ _) as [o|] eqn:Hg; [|done]. apply rget_ok in Hg. rewrite Hi in Hg. subst o. rewrite Hp. cbn [negb].
  case_decide; [done|]. rewrite Ho. unfold finalizeFrom. destruct (Put _ _ _ _ _) as [w' [sm|]] eqn:Hput; [|done].
  destruct (checkIntegrity _ _ _ _); [done|]. destruct (rPut _ _) as [refs [[]|]] eqn:Hr; [|done]. intros [= <- _] Hin.
  rewrite (drained_input r data Hin) in Hr.
  destruct (put_row_ok g st ref _ _ r w' _ refs (sgDelete (gsStage st) (StagingKey info0)).1 Hok Hc Hput) as [Ha Hok'];
    [by eapply rput_valid; [exact Hr|apply Hok]|by apply (rput_other _ _ _ _ Hr)|].
  apply (sim_at st); [done|done|done|]. cbn. apply rput_ok in Hr. cbn in Hr.
  destruct (put_effect g st ref _ _ r w' _ refs (gsStage st) Hok Hc Hput) as (_ & _ & _ & _ & data' & Hin' & Hm & Hcur).
  rewrite Hin in Hin'. injection Hin' as <-. eexists _, sm. cbn. rewrite Hr, lookup_insert_eq.
  split_and!; [done..|by apply Hcur|done].
Qed.

(** Finalizing twice changes nothing. *)
Lemma finalize_again now g st ref info0 st' res :
  rrows (gsRefs st) !! (gwDomain g, ref) = Some info0 -> Pending info0 = false ->
  Finalize now g st ref = (st', res) -> st' = st.
Proof.
  intros Hi Hp. unfold Finalize. destruct (gwStaging g); cbn [negb]; [|by intros [= <- _]].
  destruct (rGet _ _ _) as [o|] eqn:Hg; [|by intros [= <- _]]. apply rget_ok in Hg. rewrite Hi in Hg. subst o. rewrite Hp. by intros [= <- _].
Qed.

Lemma finalize_torn now g st objs ref st' e :
  sim st objs ->
  (forall info0 r, rrows (gsRefs st) !! (gwDomain g, ref) = Some info0 -> sgOpen (gsStage st) (StagingKey info0) = Ok r ->
     put_conds g st ref (ContentType info0) (UserMeta info0) r) ->
  Finalize now g st ref = (st', Err e) ->
  exists objs', spec_step objs (EvTorn (gwDomain g) ref) objs' /\ sim st' objs'.
Proof.
  intros Hs Hc. pose proof (proj1 Hs) as Hok. pose proof (torn_same st objs (gwDomain g) ref Hs) as Hsame.
  unfold Finalize. destruct (gwStaging g); cbn [negb]; [|by intros [= <- _]].
  destruct (rGet _ _ _) as [[info0|]|] eqn:Hg; [|by intros [= <- _]..]. apply rget_ok in Hg.
  destruct (Pending info0); cbn [negb]; [|done]. case_decide; [by intros [= <- _]|].
  destruct (sgOpen _ _) as [r|] eqn:Ho; [|by intros [= <- _]]. specialize (Hc info0 r (eq_sym Hg) Ho).
  unfold finalizeFrom. destruct (Put _ _ _ _ _) as [w' [sm|]] eqn:Hput.
  2:{ intros [= <- _]. destruct (put_row_ok g st ref _ _ r w' _ (gsRefs st) (gsStage st) Hok Hc Hput) as [Ha Hok']; [apply Hok|done|]. by eapply sim_torn. }
  destruct (checkIntegrity _ _ _ _).
  - intros [= <- _]. destruct (put_row_ok g st ref _ _ r w' _ (gsRefs st) (gsStage st) Hok Hc Hput) as [Ha Hok']; [apply Hok|done|].
    destruct (sDelete (wUps w') (gwKey g ref) (Version sm)) as [u dres] eqn:Hd. cbn [fst].
    assert (Hsub : snaps u ⊆ snaps (wUps w') /\ forall k v, k <> gwKey g ref -> snaps u !! (k, v) = snaps (wUps w') !! (k, v)).
    { apply delete_snaps in Hd as [->| ->]; [done|]. split; [apply delete_subseteq|]. intros k v Hk. rewrite lookup_delete_ne; [done|congruence]. }
    destruct (fewer_row_ok (GS w' (gsRefs st) (gsStage st)) (gwDomain g) ref u (gsRefs st) (sgDelete (gsStage st) (StagingKey info0)).1 Hok'
      (proj1 Hsub) (proj2 Hsub)) as [Ha2 Hok2]; [apply Hok|done|]. eapply sim_torn; [exact Hs| |exact Hok2].
    by apply (agrees_trans _ _ _ _ _ Ha Ha2).
  - destruct (rPut _ _) as [refs [[]|]] eqn:Hr; [done|]. intros [= <- _].
    destruct (put_row_ok g st ref _ _ r w' _ refs (gsStage st) Hok Hc Hput) as [Ha Hok'];
      [by eapply rput_valid; [exact Hr|apply Hok]|by apply (rput_other _ _ _ _ Hr)|]. by eapply sim_torn.
Qed.

(** A row that is pending or missing can go: no object is lost. *)
Lemma sweep_sim cancelled g st objs stale n res st' res' oe :
  sim st objs ->
  (forall i info, i ∈ stale -> rrows (gsRefs st) !! (gwDomain g, Ref i) = Some info -> Pending info = true) ->
  sweepStale cancelled g st stale n res = (st', res', oe) -> sim st' objs.
Proof.
  revert st n res. induction stale as [|i stale IH]; intros st n res Hs Hp; cbn; [by intros [= <- _ _]|].
  destruct (cancelled n); [by intros [= <- _ _]|]. pose proof (proj1 Hs) as Hok.
  set (x := if decide (StagingKey i = "") then _ else _). destruct x as [sg bad].
  destruct (rDelete _ _ _) as [refs rres] eqn:Hr.
  destruct (row_ok st (gwDomain g) (Ref i) refs sg Hok) as [Ha Hok'];
    [by eapply rdelete_valid; [exact Hr|apply Hok]|by apply (rdelete_other _ _ _ _ _ Hr)|].
  assert (Hs' : sim (GS (gsWorld st) refs sg) objs).
  { split; [done|]. intros d' r'. destruct (decide ((d', r') = (gwDomain g, Ref i))) as [[= -> ->]|Hne]; [|eapply sees_other; [done|done|apply Hs]].
    pose proof (proj2 Hs (gwDomain g) (Ref i)) as Hsee. destruct (objs !! (gwDomain g, Ref i)) as [o|].
    - destruct Hsee as (info & md & Hi & Hpend & _). rewrite (Hp i info) in Hpend; [done|by left|done].
    - intros info. cbn. intros Hi. left. apply (Hp i); [by left|]. destruct rres as [[]|].
      + apply rdelete_ok in Hr. by rewrite Hr, lookup_delete_eq in Hi.
      + apply rdelete_err in Hr as [Hr|Hr]; rewrite Hr in Hi; [done|]. by rewrite lookup_delete_eq in Hi. }
  destruct rres as [[]|]; [|by intros [= <- _ _]]. apply IH; [done|]. intros j info Hj. cbn.
  destruct (decide (Ref j = Ref i)) as [->|Hne].
  - apply rdelete_ok in Hr. by rewrite Hr, lookup_delete_eq.
  - rewrite (rdelete_other _ _ _ _ _ Hr) by congruence. apply Hp. by right.
Qed.

Lemma staging_sim cancelled now ttl g st objs st' res oe :
  sim st objs -> stagingRunOnce cancelled now ttl g st = (st', res, oe) -> sim st' objs.
Proof.
  intros Hs. unfold stagingRunOnce. destruct (gwStaging g); cbn [negb]; [|by intros [= <- _ _]].
  destruct (rListStalePending _ _ _ _) as [stale|] eqn:Hl; [|by intros [= <- _ _]].
  apply sweep_sim; [done|]. intros i info Hi Hrow. pose proof (go_valid st (proj1 Hs)) as Hv.
  destruct (rstale_ok _ _ _ _ _ _ Hv Hl Hi) as (Hrow' & Hp & _). rewrite Hrow in Hrow'. by injection Hrow' as ->.
Qed.

(** ** Registering *)

Definition reg_conds (g : Gateway) (st : gst) (ref : string) (chunks : list ChunkLocation) (xs : list bytes) : Prop :=
  json_safe (domainFor (gwStore g) (gwKey g ref)) /\
  Forall2 (loc_holds (wBlobs (gsWorld st)) (domainFor (gwStore g) (gwKey g ref))) chunks xs.

Lemma reg_effect g st ref ct m chunks xs u' res refs' sg :
  gw_ok st -> reg_conds g st ref chunks xs ->
  RegisterManifest (gwStore g) (wUps (gsWorld st)) (gwKey g ref) (userSnap ct m) chunks = (u', res) ->
  life_ok (gsWorld (withUps st u')) /\
  (forall k v, k <> gwKey g ref -> snaps u' !! (k, v) = snaps (wUps (gsWorld st)) !! (k, v)) /\
  key_ok (GS (gsWorld (withUps st u')) refs' sg) (gwDomain g) ref /\
  match res with
  | Err _ => snaps u' = snaps (wUps (gsWorld st))
  | Ok sm => decodeUserTags (Tags sm) = m /\
      (newest (wUps (gsWorld st)) (gwKey g ref) (Version sm) -> current (gsWorld (withUps st u')) (gwKey g ref) sm (concat xs))
  end.
Proof.
  intros Hok [Hj Hx] Hreg.
  assert (Hb : locs_backed (wBlobs (gsWorld st)) (domainFor (gwStore g) (gwKey g ref)) chunks).
  { clear -Hx. induction Hx as [|loc x chunks xs [Hd Hp] _ IH]; constructor; [by split; [|exists x]|done]. }
  pose proof (register_life _ _ _ _ _ _ _ (go_life st Hok) Hj Hb Hreg) as Hl. split; [done|]. destruct res as [sm|e].
  - assert (Hd : Forall loc_digests chunks) by (eapply Forall_impl; [exact Hb|]; by intros ? [? _]).
    destruct (RegisterManifest_written _ _ _ _ _ _ _ Hd Hj Hreg) as (mf & md0 & Hput & _ & Hun & Hfm & _ & Hten & Href & _).
    apply sput_ok in Hput as (Hn & Hs & _ & _ & _).
    assert (Hh : holds (gsWorld (withUps st u')) (gwKey g ref) (Version sm) sm (concat xs)).
    { exists (json_Marshal mf), mf, xs. cbn. rewrite Hs, lookup_insert_eq, Hten. split_and!; try done. by eapply registered_backed. }
    assert (Ht : decodeUserTags (Tags sm) = m).
    { revert Hreg. unfold RegisterManifest. destruct (mapR registerRef chunks); [|done]. unfold writeManifest.
      intros (_ & _ & _ & _ & ->)%sput_ok. apply decode_put. }
    split_and!; [|exact (key_ok_insert st (gsWorld (withUps st u')) refs' sg (gwDomain g) ref sm _ _ Hok ltac:(done) Hs Hn Hh)|done|].
    + intros k v Hk. rewrite Hs, lookup_insert_ne; [done|]. intros [= <- _]. done.
    + intros Hnew. by eapply current_newest.
  - assert (Hu : snaps u' = snaps (wUps (gsWorld st))).
    { revert Hreg. unfold RegisterManifest. destruct (mapR registerRef chunks); [|by intros [= <- _]]. unfold writeManifest. apply sput_err. }
    rewrite Hu. split_and!; [done| |done]. intros v b md. cbn. rewrite Hu. intros Hin.
    destruct (go_snaps st Hok _ _ _ _ _ Hin) as [Hv [x Hx']]. split; [done|]. exists x.
    eapply (holds_mono (gsWorld st)); [|done|exact Hx']. left. cbn. by rewrite Hu.
Qed.

Definition reg_newest (g : Gateway) (st : gst) (ref ct : string) (m : gmap string string) (chunks : list ChunkLocation) : Prop :=
  forall u' sm, RegisterManifest (gwStore g) (wUps (gsWorld st)) (gwKey g ref) (userSnap ct m) chunks = (u', Ok sm) ->
    newest (wUps (gsWorld st)) (gwKey g ref) (Version sm).

Lemma reg_row_ok g st ref ct m chunks xs u' res refs' sg :
  gw_ok st -> reg_conds g st ref chunks xs ->
  RegisterManifest (gwStore g) (wUps (gsWorld st)) (gwKey g ref) (userSnap ct m) chunks = (u', res) ->
  rvalid refs' -> (forall k, k <> (gwDomain g, ref) -> rrows refs' !! k = rrows (gsRefs st) !! k) ->
  agrees st (GS (gsWorld (withUps st u')) refs' sg) (gwDomain g) ref /\ gw_ok (GS (gsWorld (withUps st u')) refs' sg).
Proof.
  intros Hok Hc Hu Hv Hrows. destruct (reg_effect g st ref ct m chunks xs u' res refs' sg Hok Hc Hu) as (Hl & Hs & Hk & _).
  assert (Ha : agrees st (GS (gsWorld (withUps st u')) refs' sg) (gwDomain g) ref).
  { split; [done|]. intros d' r' Hne. split; [by apply Hrows|]. intros v. by apply Hs, dkey_ne. }
  split; [done|]. by eapply gw_ok_at.
Qed.

Lemma register_sim now g st objs ref chunks hash size ct m xs st' info :
  sim st objs -> reg_conds g st ref chunks xs -> reg_newest g st ref ct m chunks ->
  RegisterRef now g st ref chunks hash size ct m = (st', Ok info) ->
  sim st' (<[(gwDomain g, ref) := MkObj (concat xs) m ct size hash]> objs).
Proof.
  intros Hs Hc Hn. pose proof (proj1 Hs) as Hok. unfold RegisterRef. case_decide; [done|].
  destruct (validateAndNormaliseChunks _ _ _); [|done]. destruct (RegisterManifest _ _ _ _ _) as [u [sm|]] eqn:Hu; [|done].
  destruct (rPut _ _) as [refs [[]|]] eqn:Hr; [|done]. intros [= <- _].
  destruct (reg_row_ok g st ref ct m chunks xs u _ refs (gsStage st) Hok Hc Hu) as [Ha Hok'];
    [by eapply rput_valid; [exact Hr|apply Hok]|by apply (rput_other _ _ _ _ Hr)|].
  apply (sim_at st); [done|done|done|]. cbn. apply rput_ok in Hr. cbn in Hr.
  destruct (reg_effect g st ref ct m chunks xs u _ refs (gsStage st) Hok Hc Hu) as (_ & _ & _ & Hm & Hcur).
  eexists _, sm. cbn. rewrite Hr, lookup_insert_eq. split_and!; [done..|by apply Hcur, (Hn u)|done].
Qed.

Lemma register_torn now g st objs ref chunks hash size ct m xs st' e :
  sim st objs -> reg_conds g st ref chunks xs -> RegisterRef now g st ref chunks hash size ct m = (st', Err e) ->
  exists objs', spec_step objs (EvTorn (gwDomain g) ref) objs' /\ sim st' objs'.
Proof.
  intros Hs Hc. pose proof (proj1 Hs) as Hok. pose proof (torn_same st objs (gwDomain g) ref Hs) as Hsame.
  unfold RegisterRef. case_decide; [by intros [= <- _]|]. destruct (validateAndNormaliseChunks _ _ _); [|by intros [= <- _]].
  destruct (RegisterManifest _ _ _ _ _) as [u [sm|]] eqn:Hu.
  2:{ intros [= <- _]. destruct (reg_row_ok g st ref ct m chunks xs u _ (gsRefs st) (gsStage st) Hok Hc Hu) as [Ha Hok']; [apply Hok|done|]. by eapply sim_torn. }
  destruct (rPut _ _) as [refs [[]|]] eqn:Hr; [done|]. intros [= <- _].
  destruct (reg_row_ok g st ref ct m chunks xs u _ refs (gsStage st) Hok Hc Hu) as [Ha Hok'];
    [by eapply rput_valid; [exact Hr|apply Hok]|by apply (rput_other _ _ _ _ Hr)|].
  destruct (sDelete u (gwKey g ref) (Version sm)) as [u2 dres] eqn:Hd. cbn [fst].
  assert (Hsub : snaps u2 ⊆ snaps u /\ forall k v, k <> gwKey g ref -> snaps u2 !! (k, v) = snaps u !! (k, v)).
  { apply delete_snaps in Hd as [->| ->]; [done|]. split; [apply delete_subseteq|]. intros k v Hk. rewrite lookup_delete_ne; [done|congruence]. }
  destruct (fewer_row_ok (GS (gsWorld (withUps st u)) refs (gsStage st)) (gwDomain g) ref u2 refs (gsStage st) Hok'
    (proj1 Hsub) (proj2 Hsub)) as [Ha2 Hok2]; [by eapply rput_valid; [exact Hr|apply Hok]|done|].
  eapply sim_torn; [exact Hs| |exact Hok2]. by apply (agrees_trans _ _ _ _ _ Ha Ha2).
Qed.

(** ** Collecting garbage *)

Lemma gc_upstream w w' : store_step AGC w w' -> wUps w' = wUps w.
Proof. inversion 1; subst; done. Qed.

Lemma gc_sim st objs w' : sim st objs -> store_step AGC (gsWorld st) w' -> sim (GS w' (gsRefs st) (gsStage st)) objs.
Proof.
  intros Hs Hgc. pose proof (proj1 Hs) as Hok. pose proof (gc_upstream _ _ Hgc) as Hu.
  assert (Hh : forall k v md data, holds (gsWorld st) k v md data -> holds w' k v md data).
  { intros. eapply step_holds; [exact Hgc|apply Hok|done|done]. }
  split; [split|]; cbn.
  - eapply step_life; [exact Hgc|apply Hok].
  - apply Hok.
  - intros d ref v b md. rewrite Hu. intros Hin. destruct (go_snaps st Hok _ _ _ _ _ Hin) as [Hv [x Hx]]. split; [done|]. exists x. by apply Hh.
  - intros d ref. pose proof (proj2 Hs d ref) as Hsee. destruct (objs !! (d, ref)) as [o|]; cbn in *.
    + destruct Hsee as (info & md & Hi & Hp & Ht & Hz & Hha & [Hc Hmax] & Hm). exists info, md. cbn. split_and!; try done.
      split; [by apply Hh|]. cbn. by rewrite Hu.
    + intros info Hi. cbn. rewrite Hu. by apply Hsee.
Qed.

(** ** Histories *)

(** The steps of all gateways over one store, with clients that upload to the
    staging area and collector passes. *)
Inductive gw_step : gst -> gevent -> gst -> Prop :=
| gs_put now g st ref ct m r st' info data :
    put_conds g st ref ct m r -> put_newest g st ref ct m r ->
    PutWithMeta now g st ref ct m r = (st', Ok info) -> inputOf r = Ok data ->
    gw_step st (EvPut (gwDomain g) ref (MkObj data m ct (len data) (sha256_hex data))) st'
| gs_put_refused now g st ref ct m r st' e :
    put_conds g st ref ct m r -> PutWithMeta now g st ref ct m r = (st', Err e) ->
    ref = "" \/ is_ok (Put (gwStore g) (gsWorld st) (gwKey g ref) (userSnap ct m) r).2 = false -> gw_step st EvNone st'
| gs_put_torn now g st ref ct m r st' e :
    put_conds g st ref ct m r -> PutWithMeta now g st ref ct m r = (st', Err e) -> gw_step st (EvTorn (gwDomain g) ref) st'
| gs_meta g st ref m st' :
    meta_newest g st ref m -> SetUserMeta g st ref m = (st', Ok tt) ->
    gw_step st (EvMeta (gwDomain g) ref (filter (fun kv => kv.2 <> "") m)) st'
| gs_meta_torn g st ref m st' e :
    SetUserMeta g st ref m = (st', Err e) -> gw_step st (EvTorn (gwDomain g) ref) st'
| gs_delete g st ref st' : gwDelete g st ref = (st', Ok tt) -> gw_step st (EvRemove (gwDomain g) ref) st'
| gs_delete_torn g st ref st' e : gwDelete g st ref = (st', Err e) -> gw_step st (EvTorn (gwDomain g) ref) st'
| gs_mint now idNow b1 b2 g st ref opts st' up :
    MintRefWithOptions now idNow b1 b2 g st ref opts = (st', Ok up) ->
    gw_step st (EvRemove (gwDomain g) (mintedRef idNow b1 ref)) st'
| gs_mint_torn now idNow b1 b2 g st ref opts st' e :
    MintRefWithOptions now idNow b1 b2 g st ref opts = (st', Err e) ->
    gw_step st (EvTorn (gwDomain g) (mintedRef idNow b1 ref)) st'
| gs_finalize now g st ref info0 r st' info data :
    rrows (gsRefs st) !! (gwDomain g, ref) = Some info0 -> Pending info0 = true ->
    sgOpen (gsStage st) (StagingKey info0) = Ok r ->
    put_conds g st ref (ContentType info0) (UserMeta info0) r -> put_newest g st ref (ContentType info0) (UserMeta info0) r ->
    Finalize now g st ref = (st', Ok info) -> inputOf r = Ok data ->
    gw_step st (EvPut (gwDomain g) ref (MkObj data (UserMeta info0) (ContentType info0) (len data) (sha256_hex data))) st'
| gs_finalize_again now g st ref info0 st' res :
    rrows (gsRefs st) !! (gwDomain g, ref) = Some info0 -> Pending info0 = false ->
    Finalize now g st ref = (st', res) -> gw_step st EvNone st'
| gs_finalize_torn now g st ref st' e :
    (forall info0 r, rrows (gsRefs st) !! (gwDomain g, ref) = Some info0 -> sgOpen (gsStage st) (StagingKey info0) = Ok r ->
       put_conds g st ref (ContentType info0) (UserMeta info0) r) ->
    Finalize now g st ref = (st', Err e) -> gw_step st (EvTorn (gwDomain g) ref) st'
| gs_sweep cancelled now ttl g st st' res oe :
    stagingRunOnce cancelled now ttl g st = (st', res, oe) -> gw_step st EvNone st'
| gs_register now g st ref chunks hash size ct m xs st' info :
    reg_conds g st ref chunks xs -> reg_newest g st ref ct m chunks ->
    RegisterRef now g st ref chunks hash size ct m = (st', Ok info) ->
    gw_step st (EvPut (gwDomain g) ref (MkObj (concat xs) m ct size hash)) st'
| gs_register_torn now g st ref chunks hash size ct m xs st' e :
    reg_conds g st ref chunks xs -> RegisterRef now g st ref chunks hash size ct m = (st', Err e) ->
    gw_step st (EvTorn (gwDomain g) ref) st'
| gs_upload st sg : gw_step st EvNone (GS (gsWorld st) (gsRefs st) sg)
| gs_gc st w' : store_step AGC (gsWorld st) w' -> gw_step st EvNone (GS w' (gsRefs st) (gsStage st)).

Inductive gw_steps : gst -> list gevent -> gst -> Prop :=
| gw_nil st : gw_steps st [] st
| gw_cons st1 st2 st3 ev evs : gw_step st1 ev st2 -> gw_steps st2 evs st3 -> gw_steps st1 (ev :: evs) st3.

Lemma step_sim st ev st' objs :
  gw_step st ev st' -> sim st objs -> exists objs', spec_step objs ev objs' /\ sim st' objs'.
Proof.
  intros Hstep Hs. destruct Hstep.
  - eexists. split; [done|]. by eapply put_sim.
  - exists objs. split; [done|]. by eapply put_failed_sim.
  - by eapply put_torn.
  - by eapply meta_sim.
  - by eapply meta_torn.
  - eexists. split; [done|]. by eapply delete_sim.
  - by eapply delete_torn.
  - eexists. split; [done|]. by eapply mint_sim.
  - by eapply mint_torn.
  - eexists. split; [done|]. by eapply finalize_sim.
  - exists objs. split; [done|]. match goal with H : Finalize _ _ _ _ = _ |- _ => by eapply finalize_again in H as -> end.
  - by eapply finalize_torn.
  - exists objs. split; [done|]. by eapply staging_sim.
  - eexists. split; [done|]. by eapply register_sim.
  - by eapply register_torn.
  - exists objs. split; [done|]. destruct Hs as [[Hl Hv Hk] Hs]. split; [by split|]. exact Hs.
  - exists objs. split; [done|]. by apply gc_sim.
Qed.


(** ** Reading *)

Lemma lookup_shows {RR : RefStoreReliable R} g st ref info :
  rrows (gsRefs st) !! (gwDomain g, ref) = Some info -> Pending info = false -> lookupRef g st ref = Ok info.
Proof. intros Hi Hp. unfold lookupRef. rewrite rget_total, Hi. cbn. by rewrite Hp. Qed.

Lemma latest_opens {Rel : StorageReliable Sto} fc w key md data :
  current w key md data -> cache_ok (wBlobs w) fc ->
  exists rd, GetLatest fc w key = Ok (rd, md) /\ pending (wBlobs w) rd data /\ reads_back (wBlobs w) rd data.
Proof.
  intros [Hh Hmax] Hfc. pose proof Hh as (b & m & cs & Hin & Hj & Hf & Hr & <-). unfold GetLatest.
  destruct (slatest_total (wUps w) key (Version md)) as (b2 & md2 & Hl); [by rewrite Hin|]. rewrite Hl.
  apply slatest_sound in Hl as (b3 & Hb3 & [[= <-]|[e ?]] & Hmax2); [|done].
  assert (E : Version md2 = Version md) by (apply str_ltb_total; [apply Hmax2; by rewrite Hin|apply Hmax; by rewrite Hb3]).
  rewrite E, Hin in Hb3. injection Hb3 as <- <-. cbn [mbind result_bind].
  destruct (openManifest_pending fc (wBlobs w) b m md cs Hj Hf Hr Hfc) as (rd & Ho & Hp & Hq & Hc). exists rd.
  split; [done|]. split; [done|]. by apply pending_reads.
Qed.

(** An object of the map, as the gateway opens it. *)
Lemma gateway_opens {Rel : StorageReliable Sto} {RR : RefStoreReliable R} fc g st objs ref o :
  sim st objs -> cache_ok (wBlobs (gsWorld st)) fc -> objs !! (gwDomain g, ref) = Some o ->
  exists rd info, gwGet fc g st ref = Ok (rd, info) /\ gwHead g st ref = Ok info /\
    pending (wBlobs (gsWorld st)) rd (obData o) /\ reads_back (wBlobs (gsWorld st)) rd (obData o) /\
    oSize info = obSize o /\ ContentHash info = obHash o /\ ContentType info = obType o /\ UserMeta info = obMeta o.
Proof.
  intros [Hok Hs] Hfc Ho. specialize (Hs (gwDomain g) ref). rewrite Ho in Hs. unfold gwGet, gwHead.
  destruct Hs as (info & md & Hi & Hp & Ht & Hz & Hh & Hc & Hm). rewrite (lookup_shows g st ref info Hi Hp). cbn [mbind result_bind].
  destruct (latest_opens fc _ _ _ _ Hc Hfc) as (rd & Hg & Hpd & Hrd). change (dkey (gwDomain g) ref) with (gwKey g ref) in *. rewrite Hg.
  assert (Hmd : sGetLatestMetadata (wUps (gsWorld st)) (gwKey g ref) = Ok md).
  { pose proof Hc as [(b & ? & ? & Hin & _) _]. pose proof (slatestmd_total (wUps (gsWorld st)) (gwKey g ref) (Version md) ltac:(by rewrite Hin)) as Hto.
    destruct (sGetLatestMetadata _ _) as [md2|] eqn:E; [|done]. f_equal. destruct (latest_current st (gwDomain g) ref md2 Hok E) as [y Hy].
    by eapply current_unique. }
  rewrite Hmd. eexists rd, _. by rewrite Hm.
Qed.

Lemma gateway_misses {RR : RefStoreReliable R} fc g st objs ref :
  sim st objs -> objs !! (gwDomain g, ref) = None -> gwGet fc g st ref = Err ErrNotFound /\ gwHead g st ref = Err ErrNotFound.
Proof.
  intros [Hok Hs] Ho. specialize (Hs (gwDomain g) ref). rewrite Ho in Hs. unfold gwGet, gwHead, lookupRef. rewrite rget_total. cbn [mbind result_bind].
  destruct (rrows (gsRefs st) !! (gwDomain g, ref)) as [info|] eqn:Hi; [|done].
  destruct (Pending info) eqn:Hp; [done|]. destruct (Hs info Hi) as [|Hn]; [congruence|]. cbn [mbind result_bind].
  unfold GetLatest. rewrite slatest_none, slatestmd_none by done. cbn. unfold noSnapshot. by rewrite decide_True.
Qed.

(** C4: Reads return the object.  In a state that represents a map of
    objects, with the backends up, reading a ref of the map gives its size,
    hash, content type and user metadata and a stream that drains to exactly
    its bytes, and so does the metadata read; every other ref is not found,
    including refs that were deleted and uploads that are not finalized. *)
Theorem gateway_serves {Rel : StorageReliable Sto} {RR : RefStoreReliable R} fc g st objs ref :
  sim st objs -> cache_ok (wBlobs (gsWorld st)) fc ->
  match objs !! (gwDomain g, ref) with
  | Some o => exists rd info, gwGet fc g st ref = Ok (rd, info) /\ gwHead g st ref = Ok info /\
      reads_back (wBlobs (gsWorld st)) rd (obData o) /\
      oSize info = obSize o /\ ContentHash info = obHash o /\ ContentType info = obType o /\ UserMeta info = obMeta o
  | None => gwGet fc g st ref = Err ErrNotFound /\ gwHead g st ref = Err ErrNotFound
  end.
Proof.
  intros Hs Hfc. destruct (objs !! (gwDomain g, ref)) as [o|] eqn:Ho; [|by eapply gateway_misses].
  destruct (gateway_opens fc g st objs ref o Hs Hfc Ho) as (rd & info & H1 & H2 & _ & H3). by exists rd, info.
Qed.
End Spec.
