(* ===== verification/GatewayWithin.v ===== *)
(** What a gateway operation leaves alone.

    [within d ref] relates two states that differ at most in the row and the
    snapshots of one ref of one domain, and in blobs and staged bytes that were
    added or consumed: it holds of every operation of the gateway, however it
    ends and whatever the backends do.  Composed over the refs an operation
    touches, it is what keeps the front ends of different tenants apart. *)

From S2P Require Import Prelude GoStrings Decimal Sha256 PackFormat BlobStore Manifest SnapStore DedupIndex Reclaim ChunkedRead ChunkedWrite PutSpec PutGet BatchSpec GC GCSpec MetaOps Lifecycle GoText RefStore Gateway GatewaySpec.

Section Within.
  Context {Clib : CodecLib} {Claws : CodecLaws} {Sto : Storage} {L : StorageLaws Sto}
          {U : SnapshotStore} {SL : SnapshotStoreLaws U}
          {D : DedupStore} {DL : DedupStoreLaws D} {A : PackAssocStore D}
          {Sp : Splitter} {Spl : SplitterLaws Sp} {J : ManifestCodec} {JL : ManifestCodecLaws}
          {T : TimeText} {R : RefStore} {RL : RefStoreLaws R} {G : StagingStore} {GL : StagingStoreLaws G}.

Record within (d ref : string) (st st' : gst) : Prop := {
  wi_valid : rvalid (gsRefs st');
  wi_blobs : blobs (wBlobs (gsWorld st)) ⊆ blobs (wBlobs (gsWorld st'));
  wi_rows : forall k, k <> (d, ref) -> rrows (gsRefs st') !! k = rrows (gsRefs st) !! k;
  wi_snaps : forall k v, k <> dkey d ref -> snaps (wUps (gsWorld st')) !! (k, v) = snaps (wUps (gsWorld st)) !! (k, v);
}.

Lemma within_refl d ref st : rvalid (gsRefs st) -> within d ref st st.
Proof. by split. Qed.

Lemma within_trans d ref st1 st2 st3 : within d ref st1 st2 -> within d ref st2 st3 -> within d ref st1 st3.
Proof. intros [? ? Hr1 Hs1] [? ? Hr2 Hs2]. split; [done|by etrans|intros; by rewrite Hr2, Hr1|intros; by rewrite Hs2, Hs1]. Qed.

(** The chunked store's put. *)
Lemma Put_within c w key md r w' res : Put c w key md r = (w', res) ->
  blobs (wBlobs w) ⊆ blobs (wBlobs w') /\ forall k v, k <> key -> snaps (wUps w') !! (k, v) = snaps (wUps w) !! (k, v).
Proof.
  intros Hp. destruct (Put_adds _ _ _ _ _ _ _ Hp) as (Hb & _ & Hsame). split; [done|]. intros k v Hk. destruct res as [sm|e].
  - destruct (Put_tagged _ _ _ _ _ _ _ Hp) as (md0 & b & f & (_ & Hs & _)%sput_ok & _). rewrite Hs. apply lookup_insert_ne. congruence.
  - by rewrite Hsame.
Qed.

Lemma put_within now g st ref ct m r st' res : rvalid (gsRefs st) ->
  PutWithMeta now g st ref ct m r = (st', res) -> within (gwDomain g) ref st st'.
Proof.
  intros Hv. unfold PutWithMeta. case_decide; [intros [= <- _]; by apply within_refl|].
  destruct (Put _ _ _ _ _) as [w' [sm|e]] eqn:Hp; apply Put_within in Hp as [Hb Hs]; [|by intros [= <- _]; split].
  destruct (rPut _ _) as [refs' res'] eqn:Hr. intros Eq. assert (st' = GS w' refs' (gsStage st)) as -> by (destruct res'; congruence).
  split; cbn; [by eapply rput_valid|done|by apply (rput_other _ _ _ _ Hr)|done].
Qed.

Lemma meta_within g st ref m st' res : rvalid (gsRefs st) -> SetUserMeta g st ref m = (st', res) -> within (gwDomain g) ref st st'.
Proof.
  intros Hv. unfold SetUserMeta. destruct (lookupRef g st ref) as [info|] eqn:Hl; [|intros [= <- _]; by apply within_refl].
  apply lookupRef_ok in Hl as [Hi _]. destruct (rrows_key _ _ _ _ Hv Hi) as [Hd Hrf].
  destruct (sGetLatestMetadata _ _) as [sm|]; [|intros [= <- _]; by apply within_refl].
  destruct (UpdateLatestMeta _ _ _) as [u [md'|e]] eqn:Hu.
  - apply UpdateLatestMeta_ok in Hu as (b & md & m0 & _ & _ & _ & _ & Hs & _). destruct (rPut _ _) as [refs' res'] eqn:Hr. intros [= <- _].
    split; cbn; [by eapply rput_valid|done| |].
    + intros k Hk. apply (rput_other _ _ _ _ Hr). cbn. congruence.
    + intros k v Hk. rewrite Hs. apply lookup_insert_ne. intros [= <- _]. done.
  - apply UpdateLatestMeta_err in Hu. intros [= <- _]. split; cbn; [done..|]. intros k v _. by rewrite Hu.
Qed.

Lemma delete_within g st ref : rvalid (gsRefs st) -> within (gwDomain g) ref st (gwDelete g st ref).1.
Proof.
  intros Hv. unfold gwDelete. destruct (match sList _ _ with Err ErrNoSnapshot => Ok [] | r => r end) as [vs|]; [|by apply within_refl].
  destruct (deleteVersions _ _ vs) as [u res] eqn:Hd. apply gwVersions_snaps in Hd as [_ Hs].
  destruct res as [t|e]; [|by split]. destruct (rDelete _ _ _) as [refs' res'] eqn:Hr.
  split; cbn; [by eapply rdelete_valid|done|by apply (rdelete_other _ _ _ _ _ Hr)|done].
Qed.

Lemma mint_within now idNow b1 b2 g st ref opts st' res : rvalid (gsRefs st) ->
  MintRefWithOptions now idNow b1 b2 g st ref opts = (st', res) -> within (gwDomain g) (mintedRef idNow b1 ref) st st'.
Proof.
  intros Hv. unfold MintRefWithOptions. destruct (negb _); [intros [= <- _]; by apply within_refl|]. cbv zeta. fold (mintedRef idNow b1 ref).
  destruct (sgPresign _ _ _ _) as [[url exp]|]; [|intros [= <- _]; by apply within_refl].
  destruct (rPut _ _) as [refs' res'] eqn:Hr. intros Eq. assert (st' = GS (gsWorld st) refs' (gsStage st)) as -> by (destruct res'; congruence).
  split; cbn; [by eapply rput_valid|done|by apply (rput_other _ _ _ _ Hr)|done].
Qed.

Lemma finalize_within now g st ref st' res : rvalid (gsRefs st) -> Finalize now g st ref = (st', res) -> within (gwDomain g) ref st st'.
Proof.
  intros Hv. unfold Finalize. destruct (negb _); [intros [= <- _]; by apply within_refl|].
  destruct (rGet _ _ _) as [[info|]|]; [|intros [= <- _]; by apply within_refl..].
  destruct (negb _); [intros [= <- _]; by apply within_refl|]. case_decide; [intros [= <- _]; by apply within_refl|].
  destruct (sgOpen _ _) as [r|]; [|intros [= <- _]; by apply within_refl]. unfold finalizeFrom.
  destruct (Put _ _ _ _ _) as [w' [sm|e]] eqn:Hp; apply Put_within in Hp as [Hb Hs]; [|by intros [= <- _]; split].
  destruct (checkIntegrity _ _ _ _).
  - destruct (sDelete (wUps w') _ _) as [u' res'] eqn:Hd. intros [= <- _]. split; cbn; [done..|]. intros k v Hk.
    apply delete_snaps in Hd as [-> | ->]; [by apply Hs|]. rewrite lookup_delete_ne; [by apply Hs|]. intros [= E1 _]. by apply Hk.
  - destruct (rPut _ _) as [refs' res'] eqn:Hr. intros Eq.
    assert (Hst : gsWorld st' = w' /\ gsRefs st' = refs') by (by destruct res'; injection Eq as <- _). destruct Hst as [Hw Hrf].
    split; rewrite ?Hw, ?Hrf; [by eapply rput_valid|done|by apply (rput_other _ _ _ _ Hr)|done].
Qed.
End Within.
