(* ===== verification/GatewayPrefix.v ===== *)
(** Deleting by prefix, the finalize gate and registration (blobgw/gateway).

    [delete_prefix_clears]: when [DeletePrefix] reports success every row under
    the prefix is gone and no other row has changed, although it lists page by
    page while it deletes.  [delete_prefix_ends]: the loop ends after at most
    one page more than there are rows.  [finalize_checks]: an upload that was
    minted with a size or a hash is bound only to bytes that have them; on a
    mismatch the row stays as it was.  [registered_in_index]: with a chunk
    validator, a registration that succeeds names every chunk at the position
    the domain's index has for it. *)

From stdpp Require Import sorting.
From S2P Require Import Prelude GoStrings Decimal Sha256 PackFormat BlobStore Manifest SnapStore DedupIndex ChunkedRead ChunkedWrite GoText RefStore Gateway GatewaySpec.

Section Prefix.
  Context {Clib : CodecLib} {Sto : Storage} {U : SnapshotStore} {D : DedupStore} {Sp : Splitter} {J : ManifestCodec}
          {T : TimeText} {TL : TimeTextLaws T} {R : RefStore} {RL : RefStoreLaws R} {G : StagingStore} {GL : StagingStoreLaws G}.

(** ** Deleting by prefix *)

Lemma gwDelete_rows g st ref st' : gwDelete g st ref = (st', Ok tt) -> rrows (gsRefs st') = delete (gwDomain g, ref) (rrows (gsRefs st)).
Proof.
  unfold gwDelete. destruct (match sList _ _ with Err ErrNoSnapshot => Ok [] | r => r end) as [vs|]; [|done].
  destruct (deleteVersions _ _ vs) as [u [[]|]]; [|done]. destruct (rDelete _ _ _) as [refs res] eqn:Hr. intros [= <- ->].
  by apply rdelete_ok in Hr.
Qed.

Lemma gwDelete_valid g st ref st' res : gwDelete g st ref = (st', res) -> rvalid (gsRefs st) -> rvalid (gsRefs st').
Proof.
  unfold gwDelete. destruct (match sList _ _ with Err ErrNoSnapshot => Ok [] | r => r end) as [vs|]; [|by intros [= <- _]].
  destruct (deleteVersions _ _ vs) as [u [[]|]]; [|by intros [= <- _]]. destruct (rDelete _ _ _) as [refs r] eqn:Hr. intros [= <- _].
  cbn. by eapply rdelete_valid.
Qed.

(** The rows without those of a page. *)
Definition without (d : string) (page : list ObjectInfo) (rows : gmap (string * string) ObjectInfo) : gmap (string * string) ObjectInfo :=
  foldl (fun m i => delete (d, Ref i) m) rows page.

Lemma without_lookup d page rows k :
  without d page rows !! k = if decide (k ∈ (fun i => (d, Ref i)) <$> page) then None else rows !! k.
Proof.
  revert rows; induction page as [|i page IH]; intros rows; cbn -[decide]; [by rewrite decide_False by apply not_elem_of_nil|].
  unfold without in IH. rewrite IH. destruct (decide (k ∈ (fun i => (d, Ref i)) <$> page)) as [Hk|Hk];
    [by rewrite decide_True by (by right)|].
  destruct (decide (k = (d, Ref i))) as [->|Hne]; [rewrite lookup_delete_eq, decide_True; [done|by left]|].
  rewrite lookup_delete_ne, decide_False by (done || by rewrite elem_of_cons; intros [?|?]). done.
Qed.

Lemma deletePage_valid cancelled g st page c st' c' oe :
  deletePage cancelled g st page c = (st', c', oe) -> rvalid (gsRefs st) -> rvalid (gsRefs st') /\ failed c <= failed c'.
Proof.
  revert st c; induction page as [|i page IH]; intros st c; cbn; [by intros [= <- <- _]|].
  destruct (cancelled _); [by intros [= <- <- _]|]. destruct (gwDelete g st (Ref i)) as [st1 [[]|]] eqn:Hd; intros Hp Hv;
    (apply IH in Hp as [Hv' Hf]; [|by eapply gwDelete_valid]); cbn in Hf; (split; [done|lia]).
Qed.

Lemma deletePage_rows cancelled g st page c st' c' :
  deletePage cancelled g st page c = (st', c', None) -> failed c' = failed c -> rvalid (gsRefs st) ->
  rrows (gsRefs st') = without (gwDomain g) page (rrows (gsRefs st)) /\ deleted c' = deleted c + len page.
Proof.
  revert st c; induction page as [|i page IH]; intros st c; cbn -[len]; [intros [= <- <-] _ _; split; [done|by rewrite len_nil, Z.add_0_r]|].
  destruct (cancelled _); [done|]. destruct (gwDelete g st (Ref i)) as [st1 [[]|]] eqn:Hd; intros Hp Hf Hv.
  - apply IH in Hp as [-> ->]; [|done|by eapply gwDelete_valid]. rewrite (gwDelete_rows _ _ _ _ Hd), len_cons. cbn. split; [done|lia].
  - pose proof (deletePage_valid _ _ _ _ _ _ _ _ Hp (gwDelete_valid _ _ _ _ _ Hd Hv)) as [_ Hle]. cbn in Hle. lia.
Qed.

(** Deleting the head of a listing leaves its tail. *)
Lemma listing_rest rows d p page rest :
  listing rows d p (page ++ rest) -> listing (without d page rows) d p rest.
Proof.
  intros Hl. pose proof (listing_nodup _ _ _ _ Hl) as Hn. destruct Hl as [Hs Hin]. split.
  { clear Hin Hn. induction page as [|x page IH]; [done|]. apply IH. cbn in Hs. by apply StronglySorted_inv in Hs as [? _]. }
  intros i. rewrite without_lookup. split.
  - intros Hi. apply NoDup_app in Hn as (_ & Hdis & _). destruct (proj1 (Hin i)) as [Hrow Hp]; [set_solver|].
    rewrite decide_False; [done|]. intros (j & [= E] & Hj)%list_elem_of_fmap.
    destruct (proj1 (Hin j)) as [Hrow2 _]; [set_solver|]. rewrite <- E, Hrow in Hrow2. injection Hrow2 as <-. by apply (Hdis i).
  - case_decide as Hd; [intros [[=] _]|]. intros Hi. apply Hin in Hi. apply elem_of_app in Hi as [Hi|Hi]; [|done].
    destruct Hd. apply list_elem_of_fmap. by exists i.
Qed.

Lemma deletePages_failed fuel cancelled g st prefix after c st' n :
  rvalid (gsRefs st) -> deletePages fuel cancelled g st prefix after c = (st', Some (n, None)) -> failed c <= 0.
Proof.
  revert st after c. induction fuel as [|fuel IH]; intros st after c Hv; cbn; [done|].
  destruct (gwListPage _ _ _ _ _) as [[page next]|]; [|done].
  destruct (deletePage cancelled g st page c) as [[st1 c1] [e|]] eqn:Hdp; [done|].
  apply deletePage_valid in Hdp as [Hv1 Hle]; [|done]. case_decide.
  - destruct (Z.ltb_spec 0 (failed c1)); [done|lia].
  - intros Hgo. apply IH in Hgo; [lia|done].
Qed.

Lemma deletePages_spec fuel cancelled g st prefix after c st' n all :
  rvalid (gsRefs st) -> listing (rrows (gsRefs st)) (gwDomain g) prefix all ->
  (after = "" \/ exists t r, DecodeListCursor after = Ok (t, r) /\ Forall (fun i => afterCursor t r i = true) all) ->
  Forall (fun i => validTime (oCreated i)) all -> failed c = 0 ->
  deletePages fuel cancelled g st prefix after c = (st', Some (n, None)) ->
  rrows (gsRefs st') = without (gwDomain g) all (rrows (gsRefs st)) /\ n = deleted c + len all.
Proof.
  revert st after c all. induction fuel as [|fuel IH]; intros st after c all Hv Hl Hafter Ht Hf; cbn; [done|].
  unfold gwListPage. destruct (rListPage _ _ _ _ _) as [[page next]|] eqn:Hp; [|done].
  apply (rpage_ok _ _ _ _ _ _ _ Hv) in Hp as (cur & all' & rest & Hdec & Hl' & Hrows & Hend & Hnext).
  rewrite (listing_unique _ _ _ _ _ Hl' Hl) in Hrows.
  assert (Hall : all = page ++ rest).
  { case_decide; [done|]. destruct Hafter as [|(t & r & Hd & Hfa)]; [done|]. rewrite Hdec in Hd. injection Hd as ->. by rewrite filter_keeps in Hrows. }
  destruct (deletePage cancelled g st page c) as [[st1 c1] [e|]] eqn:Hdp; [done|].
  pose proof (deletePage_valid _ _ _ _ _ _ _ _ Hdp Hv) as [Hv1 Hle]. destruct (decide (next = "")) as [Hnx|Hnx].
  - destruct (Z.ltb_spec 0 (failed c1)); [done|]. intros [= <- <-].
    destruct (deletePage_rows _ _ _ _ _ _ _ Hdp ltac:(lia) Hv) as [-> ->]. by rewrite Hall, (Hend Hnx), app_nil_r.
  - intros Hgo. destruct (Hnext Hnx) as (l' & x & Epage & ->).
    assert (Hc1 : failed c1 = 0).
    { pose proof (deletePages_failed fuel cancelled g st1 prefix (EncodeListCursor (oCreated x) (Ref x)) c1 st' n Hv1 Hgo). lia. }
    destruct (deletePage_rows _ _ _ _ _ _ _ Hdp ltac:(lia) Hv) as [Hr1 Hd1].
    destruct (IH st1 (EncodeListCursor (oCreated x) (Ref x)) c1 rest Hv1) as [-> ->].
    + rewrite Hr1. apply listing_rest. by rewrite <- Hall.
    + right. exists (oCreated x), (Ref x). rewrite Hall, Epage in Ht. split; [apply cursor_round|].
      * rewrite !Forall_app in Ht. destruct Ht as [[_ Hx] _]. by apply Forall_cons in Hx as [? _].
      * destruct Hl as [Hs _]. rewrite Hall, Epage, <- app_assoc in Hs. apply StronglySorted_app_1_r in Hs.
        apply StronglySorted_inv in Hs as [_ Hs]. eapply Forall_impl; [exact Hs|]. intros i Hi. by rewrite afterCursor_before.
    + rewrite Hall, Forall_app in Ht. by destruct Ht.
    + done.
    + done.
    + rewrite Hr1, Hd1, Hall, len_app. split; [|lia]. unfold without. by rewrite foldl_app.
Qed.

(** When [DeletePrefix] reports success, the rows under the prefix are gone,
    all others are as they were, and the count is the number of rows removed. *)
Theorem delete_prefix_clears fuel cancelled g st prefix st' n all :
  rvalid (gsRefs st) -> listing (rrows (gsRefs st)) (gwDomain g) prefix all ->
  Forall (fun i => validTime (oCreated i)) all ->
  DeletePrefix fuel cancelled g st prefix = (st', Some (n, None)) ->
  n = len all /\ forall d ref, rrows (gsRefs st') !! (d, ref) =
    if decide (d = gwDomain g) then if HasPrefix ref prefix then None else rrows (gsRefs st) !! (d, ref)
    else rrows (gsRefs st) !! (d, ref).
Proof.
  intros Hv Hl Ht. unfold DeletePrefix. case_decide; [done|]. intros Hgo.
  destruct (deletePages_spec fuel cancelled g st prefix "" (MkCount 0 0 0) st' n all Hv Hl (or_introl eq_refl) Ht eq_refl Hgo) as [Hr Hn].
  split; [done|]. intros d ref. rewrite Hr, without_lookup. destruct Hl as [_ Hin].
  destruct (decide (d = gwDomain g)) as [->|Hd].
  2:{ rewrite decide_False; [done|]. by intros (j & [= ? _] & _)%list_elem_of_fmap. }
  destruct (HasPrefix ref prefix) eqn:Hp.
  - case_decide as Hd; [done|]. destruct (rrows (gsRefs st) !! (gwDomain g, ref)) as [i|] eqn:Hi; [|done].
    destruct (rrows_key _ _ _ _ Hv Hi) as [_ <-]. destruct Hd. apply list_elem_of_fmap. exists i. split; [done|]. by apply Hin.
  - rewrite decide_False; [done|]. intros (j & [= ->] & Hj)%list_elem_of_fmap. apply Hin in Hj as [_ Hj]. congruence.
Qed.

(** *** Termination *)

Lemma gwDelete_sub g st ref st' res : gwDelete g st ref = (st', res) -> rrows (gsRefs st') ⊆ rrows (gsRefs st).
Proof.
  unfold gwDelete. destruct (match sList _ _ with Err ErrNoSnapshot => Ok [] | r => r end) as [vs|]; [|by intros [= <- _]].
  destruct (deleteVersions _ _ vs) as [u [[]|]]; [|by intros [= <- _]]. destruct (rDelete _ _ _) as [refs r] eqn:Hr. intros [= <- _]. cbn.
  destruct r as [[]|]; [apply rdelete_ok in Hr as ->; apply delete_subseteq|].
  apply rdelete_err in Hr as [->| ->]; [done|apply delete_subseteq].
Qed.

Lemma deletePage_sub cancelled g st page c st' c' oe :
  deletePage cancelled g st page c = (st', c', oe) -> rrows (gsRefs st') ⊆ rrows (gsRefs st).
Proof.
  revert st c; induction page as [|i page IH]; intros st c; cbn; [by intros [= <- _ _]|].
  destruct (cancelled _); [by intros [= <- _ _]|].
  destruct (gwDelete g st (Ref i)) as [st1 [[]|]] eqn:Hd; intros Hp; (etrans; [by eapply IH|by eapply gwDelete_sub]).
Qed.

(** The rows a page request starts from. *)
Definition visible (after : string) (cur : Z * string) (all : list ObjectInfo) : list ObjectInfo :=
  if decide (after = "") then all else filter (fun i => afterCursor cur.1 cur.2 i = true) all.

Lemma visible_sorted after cur rows d p all : listing rows d p all -> StronglySorted (fun a b => before a b = true) (visible after cur all).
Proof.
  intros [Hs _]. unfold visible. case_decide; [done|]. induction Hs as [|x l Hs IH Hf]; [constructor|].
  rewrite filter_cons. case_decide; [|done]. constructor; [done|]. rewrite Forall_forall in Hf |- *. intros y [_ Hy]%list_elem_of_filter. by apply Hf.
Qed.

(** What the next page starts from is within the rest of this one. *)
Lemma visible_next rows rows1 d p after cur all all1 l' x rest :
  listing rows d p all -> listing rows1 d p all1 -> rows1 ⊆ rows -> visible after cur all = l' ++ x :: rest ->
  (length (filter (fun i => afterCursor (oCreated x) (Ref x) i = true) all1) <= length rest)%nat.
Proof.
  intros Hl Hl1 Hsub E. apply submseteq_length, NoDup_submseteq; [apply NoDup_filter; by eapply listing_nodup|].
  intros i [Hi Hin]%list_elem_of_filter. rewrite afterCursor_before in Hi. apply Hl1 in Hin as [Hrow Hp].
  assert (Hin : i ∈ all) by (apply Hl; split; [by eapply lookup_weaken|done]).
  assert (Hvis : i ∈ visible after cur all).
  { assert (Hx : x ∈ visible after cur all) by (rewrite E; set_solver). unfold visible in *. case_decide; [done|].
    apply list_elem_of_filter in Hx as [Hx _]. apply list_elem_of_filter. split; [|done].
    revert Hx Hi. unfold afterCursor, before. destruct (Z.eqb_spec (oCreated x) (oCreated i)) as [Ex|Ex].
    - rewrite <- Ex. rewrite !orb_true_iff, !andb_true_iff, !Z.ltb_lt, !Z.eqb_eq. intros [?|[? Hx]] Hi; [by left|right]. split; [done|]. by eapply str_ltb_trans.
    - rewrite !orb_true_iff, !andb_true_iff, !Z.ltb_lt, !Z.eqb_eq. intros [?|[? _]] Hi; left; lia. }
  pose proof (visible_sorted after cur _ _ _ _ Hl) as Hs. rewrite E in Hs, Hvis. rewrite <- (filter_after l' x rest Hs).
  apply list_elem_of_filter. by rewrite afterCursor_before.
Qed.

Lemma deletePages_ends fuel cancelled g st prefix after c :
  rvalid (gsRefs st) -> (forall k i, rrows (gsRefs st) !! k = Some i -> validTime (oCreated i)) ->
  (forall all cur, listing (rrows (gsRefs st)) (gwDomain g) prefix all -> DecodeListCursor after = Ok cur ->
     (length (visible after cur all) <= fuel)%nat) ->
  is_Some (deletePages (S fuel) cancelled g st prefix after c).2.
Proof.
  revert st after c. induction fuel as [|fuel IH]; intros st after c Hv Ht Hfuel; cbn [deletePages]; unfold gwListPage;
    (destruct (rListPage (gsRefs st) (gwDomain g) prefix after 0) as [[page next]|] eqn:Hp; [|done]);
    apply (rpage_ok _ _ _ _ _ _ _ Hv) in Hp as (cur & all & rest & Hdec & Hl & Hrows & Hend & Hnext);
    change (visible after cur all = page ++ rest) in Hrows; specialize (Hfuel all cur Hl Hdec); rewrite Hrows, length_app in Hfuel;
    (destruct (deletePage cancelled g st page c) as [[st1 c1] [e|]] eqn:Hdp; [done|]);
    (destruct (decide (next = "")) as [Hn|Hn]; [done|]); destruct (Hnext Hn) as (l' & x & -> & ->); rewrite length_app in Hfuel; cbn in Hfuel; [lia|].
  pose proof (deletePage_sub _ _ _ _ _ _ _ _ Hdp) as Hsub. apply deletePage_valid in Hdp as [Hv1 _]; [|done].
  rewrite <- app_assoc in Hrows. cbn in Hrows.
  assert (Hx : x ∈ all).
  { assert (Hx : x ∈ visible after cur all) by (rewrite Hrows; set_solver). revert Hx. unfold visible. case_decide; [done|]. by intros [_ ?]%list_elem_of_filter. }
  apply IH; [done|intros k i Hk; eapply Ht; by eapply lookup_weaken|]. intros all1 cur1 Hl1 Hdec1.
  rewrite cursor_round in Hdec1 by (apply Hl in Hx as [Hx _]; by eapply Ht). injection Hdec1 as <-.
  unfold visible. rewrite decide_False by apply cursor_nonempty. cbn [fst snd].
  pose proof (visible_next _ _ _ _ after cur all all1 l' x rest Hl Hl1 Hsub Hrows). lia.
Qed.

(** [DeletePrefix] ends: one page request more than there are rows is enough,
    whatever fails and wherever it is cancelled. *)
Theorem delete_prefix_ends fuel cancelled g st prefix :
  rvalid (gsRefs st) -> (forall k i, rrows (gsRefs st) !! k = Some i -> validTime (oCreated i)) ->
  (forall all, listing (rrows (gsRefs st)) (gwDomain g) prefix all -> (length all <= fuel)%nat) ->
  is_Some (DeletePrefix (S fuel) cancelled g st prefix).2.
Proof.
  intros Hv Ht Hf. unfold DeletePrefix. case_decide; [done|]. apply deletePages_ends; [done|done|].
  intros all cur Hl _. by apply Hf.
Qed.

(** ** The finalize gate *)

Lemma checkIntegrity_spec eh es gs gh :
  checkIntegrity eh es gs gh = None <-> (es <= 0 \/ gs = es) /\ (eh = "" \/ ToLower eh = ToLower gh).
Proof.
  unfold checkIntegrity, EqualFold. destruct (Z.ltb_spec 0 es); cbn.
  - destruct (Z.eqb_spec gs 0); [split; [done|intros [[?|?] _]; lia]|]. destruct (Z.eqb_spec gs es); cbn.
    + destruct (decide (eh = "")) as [->|He]; [by rewrite bool_decide_false by tauto; cbn; tauto|].
      rewrite bool_decide_true by done. cbn. destruct (bool_decide (ToLower eh = ToLower gh)) eqn:E; cbn.
      * apply bool_decide_eq_true in E. tauto.
      * apply bool_decide_eq_false in E. split; [done|]. tauto.
    + split; [done|]. intros [[?|?] _]; lia.
  - destruct (decide (eh = "")) as [->|He]; [rewrite bool_decide_false by tauto; cbn; split; [intros _; split; [left; lia|tauto]|done]|].
    rewrite bool_decide_true by done. cbn. destruct (bool_decide (ToLower eh = ToLower gh)) eqn:E; cbn.
    + apply bool_decide_eq_true in E. split; [intros _; split; [left; lia|tauto]|done].
    + apply bool_decide_eq_false in E. split; [done|]. tauto.
Qed.

(** Finalizing a pending upload.  Success means the staged bytes have the size
    and the hash that were asked for at mint time, and the row reports them.
    A mismatch is [ErrIntegrity], and the row stays pending for a corrected
    upload. *)
Theorem finalize_checks now g st ref info0 r data st' res :
  gwStaging g = true -> rGet (gsRefs st) (gwDomain g) ref = Ok (Some info0) -> Pending info0 = true -> StagingKey info0 <> "" ->
  sgOpen (gsStage st) (StagingKey info0) = Ok r -> inputOf r = Ok data -> Finalize now g st ref = (st', res) ->
  let ok := (ExpectedSize info0 <= 0 \/ len data = ExpectedSize info0) /\
            (ExpectedHash info0 = "" \/ ToLower (ExpectedHash info0) = ToLower (sha256_hex data)) in
  match res with
  | Ok info => ok /\ oSize info = len data /\ ContentHash info = sha256_hex data /\ Pending info = false
  | Err _ => ok \/ rrows (gsRefs st') = rrows (gsRefs st)
  end.
Proof.
  intros Hg Hi Hp Hk Ho Hin Hf ok. revert Hf. unfold Finalize. rewrite Hg, Hi, Hp. cbn [negb]. rewrite decide_False by done. rewrite Ho.
  unfold finalizeFrom. rewrite (drained_input r data Hin).
  destruct (Put _ _ _ _ _) as [w' [sm|]]; [|intros [= <- <-]; by right].
  destruct (checkIntegrity _ _ _ _) eqn:E; [intros [= <- <-]; by right|]. apply checkIntegrity_spec in E.
  destruct (rPut _ _) as [refs [[]|]]; intros [= <- <-]; [|by left]. done.
Qed.

(** ** Registration *)

(** With a validator, a registration that succeeds names every chunk at the
    position the index of the domain has for it. *)
Theorem registered_in_index {DL : DedupStoreLaws D} now g st ref chunks hash size ct m st' info c :
  gwValidator g = true -> RegisterRef now g st ref chunks hash size ct m = (st', Ok info) -> c ∈ chunks ->
  entries (wDedup (gsWorld st)) (gwDomain g) !! ChunkHash c = Some (locRef c).
Proof.
  intros Hg. unfold RegisterRef. case_decide; [done|]. destruct (validateAndNormaliseChunks g st chunks) as [x|] eqn:Hv; [|done].
  intros _ Hc. revert Hv. unfold validateAndNormaliseChunks. rewrite Hg. cbn [negb orb].
  rewrite bool_decide_false by (intros ->; by apply elem_of_nil in Hc). intros (found & Hf & (ys & Hm & _)%bind_ok)%bind_ok.
  apply mapR_ok in Hm. apply list_elem_of_lookup in Hc as [k Hk]. destruct (Forall2_lookup_l _ _ _ _ _ Hm Hk) as (y & _ & Hy). unfold checkChunk in Hy. destruct (found !! ChunkHash c) as [auth|] eqn:Ea; [|done].
  case_decide as Hl; [|done]. subst auth. by eapply lookupBatch_sound in Hf as [_ ?].
Qed.
End Prefix.
