(* ===== verification/GatewayScenarios.v ===== *)
(** Gateway runs on the in-memory stores: the witnesses of GatewaySpec, and
    three runs in which objects are lost or misreported.

    [remint_loses]: starting an upload for a ref that has an object hides the
    object at once, and when the upload is abandoned the staging sweep deletes
    the row, while the object's snapshots stay for ever.  [skewed_put]: a put
    whose row write fails leaves the new bytes under the old size and hash.
    [empty_value_dropped]: replacing metadata loses keys with empty values. *)

From S2P Require Import Prelude GoStrings Decimal Sha256 PackFormat BlobStore Manifest SnapStore DedupIndex PackAssoc Reclaim ChunkedRead ChunkedWrite PutSpec PutGet BatchSpec GC GCSpec MetaOps Lifecycle GoText RefStore Gateway GatewaySpec Scenarios.

Definition gx_gw : Gateway := MkGateway ex_cfg "t" true true.

Definition gx_st0 : @gst mem_storage mem_snaps mem_dedup mem_refs mem_stage :=
  GS ex_w0 (MemRefs ∅ : @rstore mem_refs) (MemStage ∅ 0 : @stage mem_stage).

Definition gx_meta : gmap string string := <["k" := "v"]> ∅.

(** ** The empty gateway *)

Lemma gx_sim0 : sim gx_st0 ∅.
Proof.
  split; [split|].
  - apply ex_life0.
  - intros d r i Hi. by rewrite memView_lookup in Hi.
  - intros d ref v b md Hin. change (memSnapsView (MkSnaps ∅) !! (dkey d ref, v) = Some (b, md)) in Hin. by rewrite memSnaps_empty in Hin.
  - intros d ref. rewrite lookup_empty. intros info Hi. change (memRowsView (MemRefs ∅) !! (d, ref) = Some info) in Hi.
    by rewrite memView_lookup in Hi.
Qed.

Lemma gx_conds ref ct m : put_conds (Sp := ex_sp) gx_gw gx_st0 ref ct m ex_in.
Proof. split; [apply ex_ready_any|]. split; [exact I|]. vm_compute. discriminate. Qed.

Lemma gx_newest0 ref ct m : put_newest (Sp := ex_sp) gx_gw gx_st0 ref ct m ex_in.
Proof.
  intros w' sm _ v [x Hx]. change (memSnapsView (MkSnaps ∅) !! (gwKey gx_gw ref, v) = Some x) in Hx. by rewrite memSnaps_empty in Hx.
Qed.

(** Versions are compared by listing them. *)
Lemma newest_check (u : memSnaps) k v :
  forallb (fun v' => str_ltb v' v) (versionsOf u k) = true -> newest (u : @sstore mem_snaps) k v.
Proof.
  intros H v' [x Hx]. rewrite forallb_forall in H. apply H, list_elem_of_In, versionsOf_in.
  change (memSnapsView u !! (k, v') = Some x) in Hx. rewrite memSnapsView_lookup in Hx. destruct (snapMap u !! (k, v')); [done|done].
Qed.

Definition meta_newestb (g : Gateway) (st : @gst mem_storage mem_snaps mem_dedup mem_refs mem_stage) (ref : string)
  (m : gmap string string) : bool :=
  match sGetLatestMetadata (wUps (gsWorld st)) (gwKey g ref) with
  | Err _ => true
  | Ok sm => match UpdateLatestMeta (wUps (gsWorld st)) (gwKey g ref) (metaOverlay (Tags sm) m) with
             | (_, Err _) => true
             | (_, Ok md') => forallb (fun v' => str_ltb v' (Version md')) (versionsOf (wUps (gsWorld st)) (gwKey g ref))
             end
  end.

Lemma meta_newest_check g st ref m : meta_newestb g st ref m = true -> meta_newest g st ref m.
Proof.
  unfold meta_newestb. intros H sm u' md' Hsm Hu. rewrite Hsm, Hu in H. by apply newest_check.
Qed.

(** ** Put, set metadata, mint *)

#[local] Abbreviation gx_put := (PutWithMeta (Sp := ex_sp) 5 gx_gw gx_st0 "o" "text/plain" gx_meta ex_in).
#[local] Abbreviation gx_st1 := (gx_put.1).
#[local] Abbreviation gx_info := (MkInfo "" "" "" 0 "" 0 "" ∅ false "" "" 0).
Definition gx_new : gmap string string := <["k" := ""]> (<["n" := "w"]> ∅).
#[local] Abbreviation gx_set := (SetUserMeta gx_gw gx_st1 "o" gx_new).
#[local] Abbreviation gx_st2 := (gx_set.1).
#[local] Abbreviation gx_opts := (MkMint "text/plain" ∅ 0 60 "" 0).
#[local] Abbreviation gx_mint := (MintRefWithOptions 10 10 [] [] gx_gw gx_st2 "o" gx_opts).
#[local] Abbreviation gx_st3 := (gx_mint.1).
Definition gx_obj : object := MkObj ex_data gx_meta "text/plain" (len ex_data) (sha256_hex ex_data).

Lemma unit_pair {S} (p : S * result unit) : is_ok p.2 = true -> p = (p.1, Ok tt).
Proof. by destruct p as [x [[]|]]. Qed.

Lemma gx_put_ok : gx_put = (gx_st1, Ok (ok_or gx_info gx_put.2)).
Proof. apply ok_pair. vm_compute. reflexivity. Qed.

Lemma gx_input : inputOf ex_in = Ok ex_data.
Proof. vm_compute. reflexivity. Qed.

Lemma gx_set_ok : gx_set = (gx_st2, Ok tt).
Proof. apply unit_pair. vm_compute. reflexivity. Qed.

Lemma gx_mint_ok : gx_mint = (gx_st3, Ok (ok_or (MkUpload "" "" "" 0) gx_mint.2)).
Proof. apply ok_pair. vm_compute. reflexivity. Qed.

Lemma gx_meta_newest : meta_newest gx_gw gx_st1 "o" gx_new.
Proof. apply meta_newest_check. vm_compute. reflexivity. Qed.

Lemma gx_sim1 : sim gx_st1 (<[("t", "o") := gx_obj]> ∅).
Proof.
  exact (put_sim (Sp := ex_sp) 5 gx_gw gx_st0 ∅ "o" "text/plain" gx_meta ex_in gx_st1 _ ex_data gx_sim0 (gx_conds _ _ _) (gx_newest0 _ _ _) gx_put_ok gx_input).
Qed.

Definition gx_events : list gevent :=
  [EvPut "t" "o" gx_obj; EvMeta "t" "o" (filter (fun kv => kv.2 <> "") gx_new); EvRemove "t" (mintedRef 10 [] "o")].

Lemma gx_history : gw_steps (Sp := ex_sp) gx_st0 gx_events gx_st3.
Proof.
  eapply gw_cons; [exact (gs_put (Sp := ex_sp) 5 gx_gw gx_st0 "o" "text/plain" gx_meta ex_in gx_st1 _ ex_data (gx_conds _ _ _) (gx_newest0 _ _ _) gx_put_ok gx_input)|].
  eapply gw_cons; [exact (gs_meta (Sp := ex_sp) gx_gw gx_st1 "o" gx_new gx_st2 gx_meta_newest gx_set_ok)|].
  eapply gw_cons; [exact (gs_mint (Sp := ex_sp) 10 10 [] [] gx_gw gx_st2 "o" gx_opts gx_st3 _ gx_mint_ok)|]. constructor.
Qed.


Lemma gateway_serves_witness :
  exists rd info, gwGet ∅ gx_gw gx_st1 "o" = Ok (rd, info) /\ gwHead gx_gw gx_st1 "o" = Ok info /\
    reads_back (wBlobs (gsWorld gx_st1)) rd ex_data /\
    oSize info = len ex_data /\ ContentHash info = sha256_hex ex_data /\ ContentType info = "text/plain" /\ UserMeta info = gx_meta.
Proof.
  apply (gateway_serves ∅ gx_gw gx_st1 (<[("t", "o") := gx_obj]> ∅) "o" gx_sim1). apply cache_ok_empty.
Defined.

(** ** Runs that lose or misreport objects *)

(** Open a ref and drain it. *)
Definition gwRead (g : Gateway) (st : @gst mem_storage mem_snaps mem_dedup mem_refs mem_stage) (ref : string)
  : option (result bytes) * result (Z * string) :=
  match gwGet ∅ g st ref with
  | Ok (rd, info) => ((readAllFrom 100 (wBlobs (gsWorld st)) rd (fun _ => 64%nat) 0).2, Ok (oSize info, ContentHash info))
  | Err e => (Some (Err e), Err e)
  end.

(** An upload started for a ref that has an object and then abandoned: the
    object is not found from the start of the upload on, the staging sweep
    deletes its row, and its snapshot stays behind, unreachable. *)
Theorem remint_loses :
  let st1 := (PutWithMeta (Sp := ex_sp) 5 gx_gw gx_st0 "o" "text/plain" gx_meta ex_in).1 in
  let st2 := (MintRefWithOptions 10 10 [] [] gx_gw st1 "o" (MkMint "text/plain" ∅ 0 60 "" 0)).1 in
  let st3 := (stagingRunOnce (fun _ => None) 100 60 gx_gw st2).1.1 in
  gwRead gx_gw st1 "o" = (Some (Ok ex_data), Ok (25, sha256_hex ex_data)) /\
  gwRead gx_gw st2 "o" = (Some (Err ErrNotFound), Err ErrNotFound) /\
  gwRead gx_gw st3 "o" = (Some (Err ErrNotFound), Err ErrNotFound) /\
  rList (gsRefs st3) "t" "" 0 = Ok [] /\ versionsOf (wUps (gsWorld st3)) (gwKey gx_gw "o") = ["v"].
Proof. vm_compute. repeat split. Qed.

(** An index whose writes fail. *)
Definition refs_down : RefStore := {|
  rstore := MemoryRefStore;
  rPut := fun m _ => (m, Err (EOther "ref store down")); rGet := memRefGet; rDelete := memRefDelete;
  rList := memRefList; rListPage := memRefListPage; rListStalePending := memRefStale;
|}.

Definition gx_in2 : rdStream := [(slice ex_data 0 3, RdEOF)].

(** A put whose row write fails reports the failure and has replaced the
    bytes: reads serve the new bytes under the old size and hash. *)
Theorem skewed_put :
  let st1 := (PutWithMeta (Sp := ex_sp) 5 gx_gw gx_st0 "o" "text/plain" gx_meta ex_in).1 in
  let second := PutWithMeta (Sp := ex_sp) (R := refs_down) 6 gx_gw
                  (GS (gsWorld st1) (gsRefs st1 : @rstore refs_down) (gsStage st1)) "o" "text/plain" gx_meta gx_in2 in
  let st2 := GS (gsWorld second.1) (gsRefs second.1 : @rstore mem_refs) (gsStage second.1) in
  is_ok second.2 = false /\ gwRead gx_gw st2 "o" = (Some (Ok (slice ex_data 0 3)), Ok (25, sha256_hex ex_data)).
Proof. vm_compute. repeat split. Qed.

(** A metadata key set to the empty value is gone. *)
Theorem empty_value_dropped :
  let st1 := (PutWithMeta (Sp := ex_sp) 5 gx_gw gx_st0 "o" "text/plain" (<["k" := ""]> ∅) ex_in).1 in
  let st2 := (SetUserMeta gx_gw st1 "o" (<["k" := ""]> ∅)).1 in
  (UserMeta <$> gwHead gx_gw st1 "o") = Ok (<["k" := ""]> ∅) /\ (UserMeta <$> gwHead gx_gw st2 "o") = Ok ∅.
Proof. vm_compute. repeat split. Qed.
