(* ===== verification/S3Crypto.v ===== *)
(** MD5 and HMAC-SHA256 for the S3 front end.

    [md5] is [crypto/md5] (object and part ETags), [hmacRaw] and [hmacHex] are
    the helpers of blobgw-s3/s3/sigv4.go over [crypto/hmac].  Both run; the
    published test vectors check them.  No theorem assumes either is
    injective. *)

From S2P Require Import Prelude GoStrings Sha256 GoText.
From Stdlib Require Import Ascii.

(** A Go string as bytes, and back. *)
Definition sbytes (s : string) : bytes := (fun c => Z_byte (octet c)) <$> chars s.
Definition bstring (b : bytes) : string := of_chars ((fun x => ascii_of (byte_Z x)) <$> b).

Lemma octet_ascii z : 0 <= z < 256 -> octet (ascii_of z) = z.
Proof. intros Hz. unfold octet, ascii_of. rewrite N_ascii_embedding by lia. lia. Qed.

Lemma bstring_of s : bstring (sbytes s) = s.
Proof.
  unfold bstring, sbytes. rewrite <- (of_chars_of s) at 2. f_equal. rewrite <- list_fmap_compose.
  induction (chars s) as [|c l IH]; [done|]. cbn. rewrite IH. f_equal.
  rewrite byte_Z_of, Z.mod_small by apply octet_range. apply ascii_octet.
Qed.

Lemma sbytes_of b : sbytes (bstring b) = b.
Proof.
  unfold bstring, sbytes. rewrite chars_of, <- list_fmap_compose. induction b as [|x b IH]; [done|]. cbn. rewrite IH. f_equal.
  rewrite octet_ascii by apply byte_Z_range. apply Z_byte_of.
Qed.

Lemma sbytes_app s t : sbytes (s +:+ t) = sbytes s ++ sbytes t.
Proof. unfold sbytes. by rewrite chars_app, fmap_app. Qed.

(** ** MD5 *)

Definition md5_k : list Z :=
  [0xd76aa478; 0xe8c7b756; 0x242070db; 0xc1bdceee; 0xf57c0faf; 0x4787c62a; 0xa8304613; 0xfd469501;
   0x698098d8; 0x8b44f7af; 0xffff5bb1; 0x895cd7be; 0x6b901122; 0xfd987193; 0xa679438e; 0x49b40821;
   0xf61e2562; 0xc040b340; 0x265e5a51; 0xe9b6c7aa; 0xd62f105d; 0x02441453; 0xd8a1e681; 0xe7d3fbc8;
   0x21e1cde6; 0xc33707d6; 0xf4d50d87; 0x455a14ed; 0xa9e3e905; 0xfcefa3f8; 0x676f02d9; 0x8d2a4c8a;
   0xfffa3942; 0x8771f681; 0x6d9d6122; 0xfde5380c; 0xa4beea44; 0x4bdecfa9; 0xf6bb4b60; 0xbebfbc70;
   0x289b7ec6; 0xeaa127fa; 0xd4ef3085; 0x04881d05; 0xd9d4d039; 0xe6db99e5; 0x1fa27cf8; 0xc4ac5665;
   0xf4292244; 0x432aff97; 0xab9423a7; 0xfc93a039; 0x655b59c3; 0x8f0ccc92; 0xffeff47d; 0x85845dd1;
   0x6fa87e4f; 0xfe2ce6e0; 0xa3014314; 0x4e0811a1; 0xf7537e82; 0xbd3af235; 0x2ad7d2bb; 0xeb86d391].

Definition md5_shifts : list Z :=
  mjoin (replicate 4 [7; 12; 17; 22]) ++ mjoin (replicate 4 [5; 9; 14; 20]) ++
  mjoin (replicate 4 [4; 11; 16; 23]) ++ mjoin (replicate 4 [6; 10; 15; 21]).

Definition rotl (n x : Z) : Z := Z.lor (w32 (Z.shiftl x n)) (Z.shiftr x (32 - n)).
Definition not32 (x : Z) : Z := Z.lxor x (2 ^ 32 - 1).

(** The round function and the message word of step [i]. *)
Definition md5_f (i : Z) (b c d : Z) : Z :=
  if i <? 16 then Z.lor (Z.land b c) (Z.land (not32 b) d)
  else if i <? 32 then Z.lor (Z.land d b) (Z.land (not32 d) c)
  else if i <? 48 then Z.lxor (Z.lxor b c) d
  else Z.lxor c (Z.lor b (not32 d)).

Definition md5_g (i : Z) : Z :=
  if i <? 16 then i else if i <? 32 then (5 * i + 1) mod 16 else if i <? 48 then (3 * i + 5) mod 16 else (7 * i) mod 16.

Record mstate := MS { ma : Z; mb : Z; mc : Z; md : Z }.

Definition md5_step (ws : list Z) (s : mstate) (x : Z * (Z * Z)) : mstate :=
  let '(i, (k, sh)) := x in
  let f := w32 (md5_f i (mb s) (mc s) (md s) + ma s + k + nth (Z.to_nat (md5_g i)) ws 0) in
  MS (md s) (w32 (mb s + rotl sh f)) (mb s) (mc s).

Definition md5_schedule : list (Z * (Z * Z)) := zip (seqZ 0 64) (zip md5_k md5_shifts).

Fixpoint le_words (n : nat) (b : bytes) : list Z :=
  match n with
  | O => []
  | S n => be_uint (reverse (take 4 b)) :: le_words n (drop 4 b)
  end.

Definition md5_block (s : mstate) (block : bytes) : mstate :=
  let t := foldl (md5_step (le_words 16 block)) s md5_schedule in
  MS (w32 (ma s + ma t)) (w32 (mb s + mb t)) (w32 (mc s + mc t)) (w32 (md s + md t)).

Fixpoint md5_blocks (n : nat) (b : bytes) (s : mstate) : mstate :=
  match n with
  | O => s
  | S n => md5_blocks n (drop 64 b) (md5_block s (take 64 b))
  end.

Definition md5_pad (b : bytes) : bytes :=
  b ++ Byte.x80 :: replicate (Z.to_nat ((55 - len b) mod 64)) Byte.x00 ++ reverse (be_append 8 (8 * len b)).

(** [md5.Sum]. *)
Definition md5 (b : bytes) : bytes :=
  let p := md5_pad b in
  let s := md5_blocks (Z.to_nat (len p / 64)) p (MS 0x67452301 0xefcdab89 0x98badcfe 0x10325476) in
  mjoin ((fun w => reverse (be_append 4 w)) <$> [ma s; mb s; mc s; md s]).

Lemma md5_len b : len (md5 b) = 16.
Proof. unfold md5. cbv zeta. destruct (md5_blocks _ _ _) as [a b1 c d]. reflexivity. Qed.

Lemma md5_vectors :
  hex_encode (md5 []) = "d41d8cd98f00b204e9800998ecf8427e" /\
  hex_encode (md5 (sbytes "message digest")) = "f96b697d7cb7938d525a2f31aaf161d0".
Proof. vm_compute. split; reflexivity. Qed.

(** ** HMAC-SHA256 *)

Definition xorb (k x : byte) : byte := Z_byte (Z.lxor (byte_Z k) (byte_Z x)).

Definition hmac_key (key : bytes) : bytes :=
  let k := if 64 <? len key then sha256 key else key in
  k ++ replicate (64 - length k) Byte.x00.

Definition hmac_sha256 (key data : bytes) : bytes :=
  let k := hmac_key key in
  sha256 ((xorb Byte.x5c <$> k) ++ sha256 ((xorb Byte.x36 <$> k) ++ data)).

Definition hmacRaw (key : bytes) (data : string) : bytes := hmac_sha256 key (sbytes data).
Definition hmacHex (key : bytes) (data : string) : string := hex_encode (hmacRaw key data).
Definition hexSHA256 (b : bytes) : string := sha256_hex b.

Lemma hmac_len k d : len (hmac_sha256 k d) = 32.
Proof. apply sha256_len. Qed.

Lemma hmac_vector :
  hmacHex (sbytes "Jefe") "what do ya want for nothing?" = "5bdcc146bf60754e6a042426089575c75a003f089d2739839dec58b964ec3843".
Proof. vm_compute. reflexivity. Qed.

#[global] Opaque md5 hmac_sha256.
