(* ===== verification/S3Auth.v ===== *)
(** S3 requests and AWS Signature Version 4 (blobgw-s3/s3/sigv4.go, errors.go,
    credentials.go, buckets.go, and the authentication of handler.go).

    A request is verified by rebuilding its canonical form, deriving the string
    to sign and the signing key, and comparing HMACs.  [auth_round]: the header a
    client writes for a scope is parsed back to that scope.  [freshness_spec]:
    which dates pass the clock check.  What a signature proves is in S3Sig;
    [registry_crosses_tenants] of S3Scenarios shows what the bucket registry
    lets a credential reach. *)

From S2P Require Import Prelude GoStrings Decimal Sha256 ChunkedWrite GoText S3Crypto.
From Stdlib Require Import Ascii.

(** ** Error codes *)

Definition errNoSuchKey : err := ApiError "NoSuchKey" 404.
Definition errNoSuchBucket : err := ApiError "NoSuchBucket" 404.
Definition errBucketNotEmpty : err := ApiError "BucketNotEmpty" 409.
Definition errBucketAlreadyOwned : err := ApiError "BucketAlreadyOwnedByYou" 409.
Definition errInvalidRange : err := ApiError "InvalidRange" 416.
Definition errNoSuchUpload : err := ApiError "NoSuchUpload" 404.
Definition errInvalidPart : err := ApiError "InvalidPart" 400.
Definition errMalformedXML : err := ApiError "MalformedXML" 400.
Definition errAccessDenied : err := ApiError "AccessDenied" 403.
Definition errSignatureDoesNotMatch : err := ApiError "SignatureDoesNotMatch" 403.
Definition errInvalidAccessKeyID : err := ApiError "InvalidAccessKeyId" 403.
Definition errMissingSecurityHeader : err := ApiError "MissingSecurityHeader" 400.
Definition errAuthorizationHeaderForm : err := ApiError "AuthorizationHeaderMalformed" 400.
Definition errInvalidRequest : err := ApiError "InvalidRequest" 400.
Definition errInvalidArgument : err := ApiError "InvalidArgument" 400.
Definition errEntityTooLarge : err := ApiError "EntityTooLarge" 400.
Definition errBadDigest : err := ApiError "BadDigest" 400.
Definition errContentSHA256Mismatch : err := ApiError "XAmzContentSHA256Mismatch" 400.
Definition errRequestTimeTooSkewed : err := ApiError "RequestTimeTooSkewed" 403.
Definition errMethodNotAllowed : err := ApiError "MethodNotAllowed" 405.
Definition errNotImplemented : err := ApiError "NotImplemented" 501.
Definition errInternal : err := ApiError "InternalError" 500.

(** ** Requests *)

(** [rPath] and [rQuery] are decoded, header names canonical. *)
Record request := MkReq {
  rMethod : string; rPath : string; rQuery : gmap string (list string); rHeader : gmap string (list string);
  rHost : string; rBody : rdStream }.

(** The bytes of a header field name. *)
Definition tokenChar (c : ascii) : bool :=
  let n := octet c in
  ((48 <=? n) && (n <=? 57)) || ((65 <=? n) && (n <=? 90)) || ((97 <=? n) && (n <=? 122)) ||
  bool_decide (c ∈ chars "!#$%&'*+-.^_`|~").

Fixpoint canonCase (upper : bool) (l : list ascii) : list ascii :=
  match l with
  | [] => []
  | c :: l =>
      let n := octet c in
      let c' := if upper && (97 <=? n) && (n <=? 122) then ascii_of (n - 32)
                else if negb upper && (65 <=? n) && (n <=? 90) then ascii_of (n + 32) else c in
      c' :: canonCase (bool_decide (c' = "-"%char)) l
  end.

(** [http.CanonicalHeaderKey]; a name with bytes no field name has is left
    alone. *)
Definition CanonicalHeaderKey (s : string) : string :=
  if forallb tokenChar (chars s) then of_chars (canonCase true (chars s)) else s.

Definition headerValues (r : request) (k : string) : list string := default [] (rHeader r !! CanonicalHeaderKey k).
Definition headerGet (r : request) (k : string) : string := default "" (head (headerValues r k)).
Definition queryGet (r : request) (k : string) : string := default "" (head (default [] (rQuery r !! k))).

(** ** The canonical request *)

Definition algorithm : string := "AWS4-HMAC-SHA256".
Definition unsignedPayload : string := "UNSIGNED-PAYLOAD".
Definition streamingPayload : string := "STREAMING-AWS4-HMAC-SHA256-PAYLOAD".
Definition amzDateHeader : string := "X-Amz-Date".
Definition amzContentSHA : string := "X-Amz-Content-Sha256".
Definition authorizationHeader : string := "Authorization".

Definition upperHex (z : Z) : ascii := ascii_of (if z <? 10 then 48 + z else 55 + z).

Definition unreserved (c : ascii) : bool :=
  let n := octet c in
  ((65 <=? n) && (n <=? 90)) || ((97 <=? n) && (n <=? 122)) || ((48 <=? n) && (n <=? 57)) ||
  bool_decide (c ∈ chars "-_.~").

Definition encodeChar (encodeSlash : bool) (c : ascii) : list ascii :=
  if unreserved c then [c]
  else if bool_decide (c = "/"%char) && negb encodeSlash then [c]
  else ["%"%char; upperHex (octet c / 16); upperHex (octet c mod 16)].

Definition awsURIEncode (s : string) (encodeSlash : bool) : string := of_chars (mjoin (encodeChar encodeSlash <$> chars s)).

Definition canonicalURI (r : request) : string :=
  if decide (rPath r = "") then "/"
  else Join ((fun s => awsURIEncode s false) <$> Split (rPath r) "/"%char) "/".

Definition queryPairs (r : request) : list (string * string) :=
  mjoin ((fun k => (fun v => (k, v)) <$> sortStrings (default [] (rQuery r !! k))) <$>
         sortStrings ((map_to_list (rQuery r)).*1)).

Definition canonicalQuery (r : request) : string :=
  Join ((fun kv => awsURIEncode kv.1 true +:+ "=" +:+ awsURIEncode kv.2 true) <$> queryPairs r) "&".

Definition collapseWhitespace (s : string) : string := Join (Fields s) " ".

Definition headerLine (r : request) (h : string) : string :=
  let lower := ToLower h in
  let v := if decide (lower = "host") then rHost r else Join (headerValues r h) "," in
  lower +:+ ":" +:+ collapseWhitespace v +:+ of_chars [ascii_of 10].

Definition canonicalHeaders (r : request) (signedHeaders : list string) : string :=
  foldr (fun h s => headerLine r h +:+ s) "" signedHeaders.

Definition newline : string := of_chars [ascii_of 10].

Definition canonicalRequest (r : request) (signedHeaders : list string) (payloadHash : string) : string :=
  rMethod r +:+ newline +:+ canonicalURI r +:+ newline +:+ canonicalQuery r +:+ newline +:+
  canonicalHeaders r signedHeaders +:+ newline +:+ Join signedHeaders ";" +:+ newline +:+ payloadHash.

Definition stringToSign (amzDate credScope canonReq : string) : string :=
  Join [algorithm; amzDate; credScope; hexSHA256 (sbytes canonReq)] newline.

Definition signingKey (secret date region service : string) : bytes :=
  let kDate := hmacRaw (sbytes ("AWS4" +:+ secret)) date in
  let kRegion := hmacRaw kDate region in
  let kService := hmacRaw kRegion service in
  hmacRaw kService "aws4_request".

(** ** The Authorization header *)

Record authScope := MkScope {
  accessKeyID : string; asDate : string; asRegion : string; asService : string;
  signedHeaders : list string; asSignature : string }.

Definition credentialScope (s : authScope) : string := Join [asDate s; asRegion s; asService s; "aws4_request"] "/".

(** The fields found so far: credential, signed headers, signature; a later
    one of the same name replaces an earlier. *)
Definition authPart (acc : string * string * string) (part : string) : string * string * string :=
  let part := TrimSpace part in
  let '(cred, signed, sig) := acc in
  match CutPrefix part "Credential=" with
  | Some v => (v, signed, sig)
  | None => match CutPrefix part "SignedHeaders=" with
            | Some v => (cred, v, sig)
            | None => match CutPrefix part "Signature=" with
                      | Some v => (cred, signed, v)
                      | None => acc
                      end
            end
  end.

Definition parseAuthorization (header : string) : result authScope :=
  if decide (header = "") then Err errMissingSecurityHeader
  else
    match CutPrefix header (algorithm +:+ " ") with
    | None => Err errAuthorizationHeaderForm
    | Some rest =>
        let '(cred, signed, sig) := foldl authPart ("", "", "") (Split rest ","%char) in
        if decide (cred = "" \/ signed = "" \/ sig = "") then Err errAuthorizationHeaderForm
        else match Split cred "/"%char with
             | [ak; date; region; service; terminator] =>
                 if decide (terminator = "aws4_request") then
                   Ok (MkScope ak date region service (Split signed ";"%char) sig)
                 else Err errAuthorizationHeaderForm
             | _ => Err errAuthorizationHeaderForm
             end
    end.

Definition verifySeedSignature (r : request) (scope : authScope) (secretKey payloadHash : string) : result string :=
  let canonReq := canonicalRequest r (signedHeaders scope) payloadHash in
  let sts := stringToSign (headerGet r amzDateHeader) (credentialScope scope) canonReq in
  let key := signingKey secretKey (asDate scope) (asRegion scope) (asService scope) in
  let want := hmacHex key sts in
  if decide (want = asSignature scope) then Ok want else Err errSignatureDoesNotMatch.

(** ** Freshness *)

(** [time.Parse] with the layout "20060102T150405Z": two-digit fields, the
    ranges of a calendar date, and a fraction after the seconds, which Parse
    accepts although the layout has none.  In nanoseconds since 1970. *)
Definition getnum (l : list ascii) : option (Z * list ascii) :=
  match l with
  | a :: b :: l =>
      match digitVal a, digitVal b with
      | Some x, Some y => if (x <? 10) && (y <? 10) then Some (10 * x + y, l) else None
      | _, _ => None
      end
  | _ => None
  end.

Definition isLeap (y : Z) : bool := (y mod 4 =? 0) && (negb (y mod 100 =? 0) || (y mod 400 =? 0)).
Definition daysIn (y m : Z) : Z :=
  if m =? 2 then (if isLeap y then 29 else 28) else if (m =? 4) || (m =? 6) || (m =? 9) || (m =? 11) then 30 else 31.

(** Days from 1970-01-01. *)
Definition daysFrom1970 (y m d : Z) : Z :=
  365 * y + (y + 3) / 4 - (y + 99) / 100 + (y + 399) / 400 - 719528 +
  foldr (fun k s => daysIn y k + s) 0 (seqZ 1 (m - 1)) + (d - 1).

Fixpoint leadingDigits (l : list ascii) : list Z * list ascii :=
  match l with
  | [] => ([], [])
  | c :: l' =>
      match digitVal c with
      | Some v => if v <? 10 then let '(ds, r) := leadingDigits l' in (v :: ds, r) else ([], l)
      | None => ([], l)
      end
  end.

(** The first nine digits of a fraction. *)
Definition nanoseconds (ds : list Z) : Z := foldl (fun n d => 10 * n + d) 0 (take 9 (ds ++ replicate 9 0)).

Definition fraction (l : list ascii) : Z * list ascii :=
  match l with
  | c :: l' =>
      if bool_decide (c = "."%char \/ c = ","%char) then
        match leadingDigits l' with ([], _) => (0, l) | (ds, r) => (nanoseconds ds, r) end
      else (0, l)
  | [] => (0, l)
  end.

Definition expect (c : ascii) (l : list ascii) : option (list ascii) :=
  match l with x :: l => if decide (x = c) then Some l else None | [] => None end.

Definition amzParse (s : string) : option Z :=
  '(y1, l) ← getnum (chars s); '(y2, l) ← getnum l; '(mo, l) ← getnum l; '(d, l) ← getnum l;
  l ← expect "T"%char l; '(h, l) ← getnum l; '(mi, l) ← getnum l; '(se, l) ← getnum l;
  let '(ns, l) := fraction l in
  l ← expect "Z"%char l;
  let y := 100 * y1 + y2 in
  if bool_decide (l = []) && (1 <=? mo) && (mo <=? 12) && (1 <=? d) && (d <=? daysIn y mo) && (h <? 24) && (mi <? 60) && (se <? 60) then
    Some ((((daysFrom1970 y mo d * 24 + h) * 60 + mi) * 60 + se) * 1000000000 + ns)
  else None.

Example amz_times :
  amzParse "20130524T000000Z" = Some (1369353600 * 1000000000) /\
  amzParse "20240229T235959.25Z" = Some (1709251199 * 1000000000 + 250000000) /\
  amzParse "00000101T000000Z" = Some (-62167219200 * 1000000000) /\ amzParse "20130229T000000Z" = None.
Proof. vm_compute. auto. Qed.

Definition maxClockSkew : Z := 15 * 60 * 1000000000.

(** [Time.Sub] saturates at the ends of int64; negation wraps. *)
Definition minDuration : Z := - 2 ^ 63.
Definition durationSub (a b : Z) : Z := Z.max minDuration (Z.min (2 ^ 63 - 1) (a - b)).
Definition durationNeg (d : Z) : Z := if d =? minDuration then minDuration else - d.

Definition checkRequestTime (amzDate : string) (now : Z) : result unit :=
  if decide (amzDate = "") then Err errMissingSecurityHeader
  else match amzParse amzDate with
       | None => Err errAuthorizationHeaderForm
       | Some t =>
           let skew := durationSub now t in
           let skew := if skew <? 0 then durationNeg skew else skew in
           if maxClockSkew <? skew then Err errRequestTimeTooSkewed else Ok tt
       end.

(** ** Credentials and buckets *)

Record Credential := MkCred { AccessKeyID : string; SecretKey : string; crDomain : string }.

(** [NewMemoryCredentialStore]: a later duplicate replaces an earlier. *)
Definition credentialStore (creds : list Credential) : gmap string Credential :=
  foldl (fun m c => <[AccessKeyID c := c]> m) ∅ creds.

Record bucketRecord := MkBucket { bkDomain : string; bkCreated : Z }.

Definition credentialDomainResolve (cred : Credential) (bucket : string) : option string :=
  if decide (bucket = "" \/ crDomain cred = "") then None else Some (crDomain cred).

(** The default resolver: the registry's domain if there is a registry and it
    knows the bucket, else the credential's. *)
Definition resolveBucket (buckets : option (gmap string bucketRecord)) (cred : Credential) (bucket : string) : option string :=
  match buckets with
  | Some m => match m !! bucket with
              | Some rec => Some (bkDomain rec)
              | None => credentialDomainResolve cred bucket
              end
  | None => credentialDomainResolve cred bucket
  end.

Definition authenticateService (creds : gmap string Credential) (now : Z) (r : request) : result Credential :=
  scope ← parseAuthorization (headerGet r authorizationHeader);
  match creds !! accessKeyID scope with
  | None => Err errInvalidAccessKeyID
  | Some cred =>
      _ ← checkRequestTime (headerGet r amzDateHeader) now;
      let payloadHash := headerGet r amzContentSHA in
      if decide (payloadHash = "") then Err errAuthorizationHeaderForm
      else _ ← verifySeedSignature r scope (SecretKey cred) payloadHash; Ok cred
  end.

Definition authenticate (creds : gmap string Credential) (resolve : Credential -> string -> option string) (now : Z)
  (r : request) (bucket : string) : result (Credential * string) :=
  cred ← authenticateService creds now r;
  match resolve cred bucket with
  | None => Err errAccessDenied
  | Some domain => Ok (cred, domain)
  end.

(** ** Freshness, as it is *)

(** The clock check accepts exactly the dates within fifteen minutes of the
    server's clock, and the dates more than 292 years ahead of it: there the
    difference saturates at the least duration, whose negation is itself. *)
Theorem freshness_spec amzDate now t :
  amzDate <> "" -> amzParse amzDate = Some t ->
  checkRequestTime amzDate now = Ok tt <-> Z.abs (now - t) <= maxClockSkew \/ 2 ^ 63 <= t - now.
Proof.
  intros Hd Hp. unfold checkRequestTime. rewrite decide_False by done. rewrite Hp.
  unfold durationSub, durationNeg, minDuration, maxClockSkew. cbv zeta.
  destruct (Z.ltb_spec (Z.max (- 2 ^ 63) (Z.min (2 ^ 63 - 1) (now - t))) 0);
    [destruct (Z.eqb_spec (Z.max (- 2 ^ 63) (Z.min (2 ^ 63 - 1) (now - t))) (- 2 ^ 63))|];
    (match goal with |- context [?a <? ?b] => destruct (Z.ltb_spec a b) end); (split; [intros E; try discriminate E|intros E; try reflexivity]); lia.
Qed.

(** ** Splitting what was joined *)

Definition sep1 (c : ascii) : string := String.String c "".

Lemma splitAt_app l k c : c ∉ l -> splitAt (l ++ c :: k) c = l :: splitAt k c.
Proof.
  induction l as [|x l IH]; cbn; [by rewrite decide_True|]. rewrite not_elem_of_cons. intros [Hx Hl].
  rewrite decide_False by done. by rewrite IH.
Qed.

Lemma Join_cons x xs sep : xs <> [] -> Join (x :: xs) sep = x +:+ sep +:+ Join xs sep.
Proof. by destruct xs. Qed.

Lemma Split_Join xs c : xs <> [] -> Forall (fun x => c ∉ chars x) xs -> Split (Join xs (sep1 c)) c = xs.
Proof.
  intros Hne Hf. unfold Split. assert (H : splitAt (chars (Join xs (sep1 c))) c = chars <$> xs).
  { induction Hf as [|x xs Hx Hf IH]; [done|]. destruct xs as [|y ys]; [cbn; by rewrite splitAt_plain|].
    rewrite Join_cons, !chars_app by done. change (chars (sep1 c)) with [c]. cbn [app]. rewrite splitAt_app by done. by rewrite IH. }
  rewrite H, <- list_fmap_compose. rewrite <- (list_fmap_id xs) at 2. apply list_fmap_ext. intros _ x _. apply of_chars_of.
Qed.

(** ** Trimming what needs no trimming *)

Definition visibleChar (c : ascii) : Prop := 33 <= octet c <= 126.

Lemma spaces_ends sp : sp ∈ spaces -> exists a b l k, sp = a :: l /\ sp = k ++ [b] /\ ~ visibleChar a /\ ~ visibleChar b.
Proof.
  intros Hin. assert (H : forallb (fun sp => match sp, last sp with
    | a :: _, Some b => negb ((33 <=? octet a) && (octet a <=? 126)) && negb ((33 <=? octet b) && (octet b <=? 126))
    | _, _ => false end) spaces = true) by (vm_compute; reflexivity).
  rewrite forallb_forall in H. specialize (H sp (proj1 (list_elem_of_In _ _) Hin)). destruct sp as [|a l]; [done|]. destruct (last (a :: l)) as [b|] eqn:E; [|done].
  apply last_Some in E as [k E]. rewrite andb_true_iff, !negb_true_iff, !andb_false_iff, !Z.leb_gt in H.
  exists a, b, l, k. unfold visibleChar. split; [done|]. split; [done|]. lia.
Qed.

Lemma leadingSpace_none a l : visibleChar a -> leadingSpace (a :: l) = None.
Proof.
  intros Ha. unfold leadingSpace. destruct (filter _ spaces) as [|sp sps] eqn:E; [done|].
  assert (Hin : sp ∈ filter (fun sp => sp `prefix_of` a :: l) spaces) by (rewrite E; by left).
  apply list_elem_of_filter in Hin as [Hp Hin]. destruct (spaces_ends sp Hin) as (x & _ & k & _ & -> & _ & Hx & _).
  destruct Hp as [t Ht]. injection Ht as -> _. done.
Qed.

Lemma trailingSpace_none a l : visibleChar a -> trailingSpace (l ++ [a]) = None.
Proof.
  intros Ha. unfold trailingSpace. destruct (filter _ spaces) as [|sp sps] eqn:E; [done|].
  assert (Hin : sp ∈ filter (fun sp => sp `suffix_of` l ++ [a]) spaces) by (rewrite E; by left).
  apply list_elem_of_filter in Hin as [[t Ht] Hin]. destruct (spaces_ends sp Hin) as (_ & x & _ & k & _ & -> & _ & Hx).
  rewrite app_assoc in Ht. by apply app_inj_tail in Ht as [_ ->].
Qed.

(** A string that starts and ends visibly is its own trim. *)
Lemma TrimSpace_id s a l b k : chars s = a :: l -> chars s = k ++ [b] -> visibleChar a -> visibleChar b -> TrimSpace s = s.
Proof.
  intros H1 H2 Ha Hb. unfold TrimSpace. assert (E : trimLeft (String.length s) (chars s) = chars s).
  { destruct (String.length s); [done|]. cbn. by rewrite H1, leadingSpace_none. }
  rewrite E. rewrite H2 at 1. destruct (length (k ++ [b])) eqn:El; [by rewrite length_app in El; cbn in El; lia|].
  cbn. rewrite H2, trailingSpace_none by done. rewrite <- H2. apply of_chars_of.
Qed.

(** ** The header round trip *)

Definition clean (s : string) : Prop :=
  s <> "" /\ Forall (fun c => visibleChar c /\ c <> ","%char /\ c <> "/"%char /\ c <> ";"%char) (chars s).

Definition cleanb (s : string) : bool :=
  negb (bool_decide (s = "")) &&
  forallb (fun c => (33 <=? octet c) && (octet c <=? 126) && negb (bool_decide (c ∈ [","%char; "/"%char; ";"%char]))) (chars s).

Lemma clean_check s : cleanb s = true -> clean s.
Proof.
  unfold cleanb. intros [Hne H]%andb_true_iff. apply negb_true_iff, bool_decide_eq_false in Hne. split; [done|]. apply Forall_forall. intros c Hc.
  rewrite forallb_forall in H. specialize (H c (proj1 (list_elem_of_In _ _) Hc)).
  rewrite !andb_true_iff, !Z.leb_le, negb_true_iff, bool_decide_eq_false, !not_elem_of_cons in H. unfold visibleChar. tauto.
Qed.

Lemma clean_all l : forallb cleanb l = true -> Forall clean l.
Proof.
  intros H. apply Forall_forall. intros s Hs. apply clean_check. rewrite forallb_forall in H. apply H. by apply list_elem_of_In.
Qed.

Definition clean_scope (s : authScope) : Prop :=
  clean (accessKeyID s) /\ clean (asDate s) /\ clean (asRegion s) /\ clean (asService s) /\
  signedHeaders s <> [] /\ Forall clean (signedHeaders s) /\ clean (asSignature s).

(** The header as clients write it. *)
Definition formatAuth (s : authScope) : string :=
  algorithm +:+ " " +:+ Join
    ["Credential=" +:+ Join [accessKeyID s; asDate s; asRegion s; asService s; "aws4_request"] "/";
     " SignedHeaders=" +:+ Join (signedHeaders s) ";"; " Signature=" +:+ asSignature s] ",".

Lemma clean_last s : clean s -> exists k b, chars s = k ++ [b] /\ visibleChar b.
Proof.
  intros [Hne Hf]. destruct (chars s) as [|c l] eqn:E using rev_ind; [by destruct Hne; apply chars_inj; rewrite E|].
  apply Forall_app in Hf as [_ Hb]. apply Forall_cons in Hb as [[Hb _] _]. eauto.
Qed.

Lemma Join_last xs x sep : exists p, Join (xs ++ [x]) sep = p +:+ x.
Proof.
  induction xs as [|y xs [p Hp]]; [by exists ""|]. cbn [app]. rewrite Join_cons by (by destruct xs). rewrite Hp.
  exists (y +:+ sep +:+ p). apply chars_inj. by rewrite !chars_app, <- !app_assoc.
Qed.

Lemma clean_no s c : clean s -> c ∈ [","%char; "/"%char; ";"%char] -> c ∉ chars s.
Proof.
  intros [_ Hf] Hc Hin. rewrite Forall_forall in Hf. destruct (Hf c Hin) as (_ & H1 & H2 & H3).
  rewrite !elem_of_cons, elem_of_nil in Hc. tauto.
Qed.

Lemma Join_no xs sep c : Forall (fun x => c ∉ chars x) xs -> c ∉ chars sep -> c ∉ chars (Join xs sep).
Proof.
  intros Hf Hs. induction Hf as [|x xs Hx Hf IH]; [by intros ?%elem_of_nil|]. destruct xs as [|y ys]; [done|].
  rewrite Join_cons, !chars_app, !elem_of_app by done. tauto.
Qed.

(** A trimmed part keeps its name and value; one blank in front goes. *)
Lemma trim_part name v : (exists a l, chars name = a :: l /\ visibleChar a) -> (exists p w, v = p +:+ w /\ clean w) ->
  TrimSpace (name +:+ v) = name +:+ v /\ TrimSpace (" " +:+ name +:+ v) = name +:+ v.
Proof.
  intros (a & l & Ha & Hva) (p & w & -> & Hw). destruct (clean_last w Hw) as (k & b & Hk & Hb).
  assert (H1 : chars (name +:+ p +:+ w) = a :: (l ++ chars (p +:+ w))) by (by rewrite chars_app, Ha).
  assert (H2 : chars (name +:+ p +:+ w) = (chars name ++ chars p ++ k) ++ [b]) by (by rewrite !chars_app, Hk, !app_assoc).
  set (s := name +:+ p +:+ w) in *. split; [by eapply TrimSpace_id|].
  assert (Ht : TrimSpace s = s) by (by eapply TrimSpace_id). rewrite <- Ht at 2. unfold TrimSpace.
  change (chars (" " +:+ s)) with (" "%char :: chars s). change (String.length (" " +:+ s)) with (S (String.length s)).
  cbn [trimLeft]. change (leadingSpace (" "%char :: chars s)) with (Some [" "%char]). done.
Qed.

Lemma visible_name (name : string) : forallb (fun c => (33 <=? octet c) && (octet c <=? 126)) (take 1 (chars name)) = true -> name <> "" ->
  exists a l, chars name = a :: l /\ visibleChar a.
Proof.
  destruct name as [|a name]; [done|]. cbn. rewrite !andb_true_iff, !Z.leb_le. intros [[? ?] _] _. exists a, (chars name). done.
Qed.

(** A character a literal does not have. *)
Ltac no_char := let H := fresh "H" in intros H; apply (bool_decide_eq_true_2 _) in H; vm_compute in H; discriminate H.

(** The header a client writes for a scope is read back as that scope. *)
Lemma auth_round s : clean_scope s -> parseAuthorization (formatAuth s) = Ok s.
Proof.
  intros (Hak & Hda & Hre & Hse & Hne & Hsh & Hsig). destruct s as [ak date region service sh sig]. cbn in *.
  unfold parseAuthorization, formatAuth. cbn [accessKeyID asDate asRegion asService signedHeaders asSignature].
  set (cred := Join [ak; date; region; service; "aws4_request"] "/"). set (rest := Join _ ",").
  rewrite decide_False by done.
  replace (CutPrefix (algorithm +:+ " " +:+ rest) (algorithm +:+ " ")) with (Some rest) by (symmetry; by apply CutPrefix_spec).
  assert (Hcl : Forall (fun c => clean c) [ak; date; region; service; "aws4_request"]).
  { repeat constructor; try done; try apply Hak; try apply Hda; try apply Hre; try apply Hse; unfold visibleChar; vm_compute; try done; intuition discriminate. }
  assert (Hsplit : Split rest "," = ["Credential=" +:+ cred; " SignedHeaders=" +:+ Join sh ";"; " Signature=" +:+ sig]).
  { unfold rest. change "," with (sep1 ","%char). apply Split_Join; [done|].
    assert (Hj : forall xs sep, Forall clean xs -> (","%char ∉ chars sep) -> ","%char ∉ chars (Join xs sep)).
    { intros xs sep Hx Hs. apply Join_no; [|done]. eapply Forall_impl; [exact Hx|]. intros x Hc. apply clean_no; [done|]. by left. }
    repeat constructor; rewrite chars_app, elem_of_app; (intros [Hc|Hc]; [revert Hc; no_char|revert Hc]).
    - apply Hj; [done|no_char].
    - apply Hj; [done|no_char].
    - apply clean_no; [done|by left]. }
  rewrite Hsplit. cbn [foldl].
  destruct (Join_last [ak; date; region; service] "aws4_request" "/") as [pc Hpc].
  destruct (trim_part "Credential=" cred) as [T1 _]; [by apply visible_name|exists pc, "aws4_request"; split; [done|]|].
  { rewrite Forall_forall in Hcl. apply Hcl. set_solver. }
  destruct (trim_part "SignedHeaders=" (Join sh ";")) as [_ T2]; [by apply visible_name|..].
  { destruct sh as [|x sh _] using rev_ind; [done|]. destruct (Join_last sh x ";") as [p Hp]. exists p, x. split; [done|].
    apply Forall_app in Hsh as [_ Hx]. by apply Forall_cons in Hx as [? _]. }
  destruct (trim_part "Signature=" sig) as [_ T3]; [by apply visible_name|by exists "", sig|].
  change (" " +:+ "SignedHeaders=" +:+ Join sh ";") with (" SignedHeaders=" +:+ Join sh ";") in T2.
  change (" " +:+ "Signature=" +:+ sig) with (" Signature=" +:+ sig) in T3.
  unfold authPart at 3. rewrite T1. rewrite (proj2 (CutPrefix_spec _ _ cred) eq_refl).
  unfold authPart at 2. rewrite T2. change (CutPrefix ("SignedHeaders=" +:+ Join sh ";") "Credential=") with (@None string).
  rewrite (proj2 (CutPrefix_spec _ _ (Join sh ";")) eq_refl).
  unfold authPart. rewrite T3. change (CutPrefix ("Signature=" +:+ sig) "Credential=") with (@None string).
  change (CutPrefix ("Signature=" +:+ sig) "SignedHeaders=") with (@None string). rewrite (proj2 (CutPrefix_spec _ _ sig) eq_refl).
  rewrite decide_False.
  2:{ intros [E|[E|E]]; [change (Join ([ak; date; region; service] ++ ["aws4_request"]) "/" = "") in E; rewrite Hpc in E; by destruct pc| |by destruct Hsig].
      destruct sh as [|x sh _] using rev_ind; [done|]. destruct (Join_last sh x ";") as [p Hp]. rewrite Hp in E.
      apply Forall_app in Hsh as [_ Hx]. apply Forall_cons in Hx as [[Hx _] _]. by destruct p. }
  unfold cred. change "/" with (sep1 "/"%char) at 1. rewrite Split_Join; [|done|].
  2:{ eapply Forall_impl; [exact Hcl|]. intros x Hx. apply clean_no; [done|]. set_solver. }
  rewrite decide_True by done. change ";" with (sep1 ";"%char) at 1. rewrite Split_Join; [done|done|].
  eapply Forall_impl; [exact Hsh|]. intros x Hx. apply clean_no; [done|]. set_solver.
Qed.
