(* ===== verification/S3Sig.v ===== *)
(** What an AWS Signature Version 4 signature protects (blobgw-s3/s3/sigv4.go).

    The canonical request is an injective encoding: its lines are the method, the
    escaped path, the escaped and sorted query, the signed headers, their names
    and the payload hash, and no part can hold a line end of its own.
    [signature_binds]: two authenticated requests with one signature agree on all
    of them, or exhibit a collision of SHA-256 or of HMAC-SHA-256.
    [signed_accepted]: a request whose header is made by the signing rules is
    authenticated. *)

From S2P Require Import Prelude GoStrings Decimal Sha256 ChunkedWrite GoText Manifest S3Crypto S3Auth.
From Stdlib Require Import Ascii.

(** ** Lines *)

Definition nl : ascii := ascii_of 10.
Definition one_line (s : string) : Prop := nl ∉ chars s.

Lemma first_sep {A} (n : A) a b c d : (n ∉ a) -> (n ∉ c) -> a ++ n :: b = c ++ n :: d -> a = c /\ b = d.
Proof.
  revert c. induction a as [|x a IH]; intros [|y c]; rewrite ?not_elem_of_cons; intros Ha Hc E; injection E; [naive_solver..|].
  intros E' ->. edestruct (IH c) as [-> ->]; naive_solver.
Qed.

Lemma last_sep {A} (n : A) a b c d : (n ∉ b) -> (n ∉ d) -> a ++ n :: b = c ++ n :: d -> a = c /\ b = d.
Proof.
  intros Hb Hd E. apply (f_equal reverse) in E. rewrite !reverse_app, !reverse_cons, <- !app_assoc in E. cbn in E.
  apply first_sep in E as [E1 E2]; [|by rewrite elem_of_reverse..]. split; by apply (inj reverse).
Qed.

Lemma chars_newline : chars newline = [nl].
Proof. done. Qed.

Lemma first_line a b c d : one_line a -> one_line c -> a +:+ newline +:+ b = c +:+ newline +:+ d -> a = c /\ b = d.
Proof.
  intros Ha Hc E. apply (f_equal chars) in E. rewrite !chars_app, !chars_newline in E. apply first_sep in E as [E1 E2]; [|done..].
  split; by apply chars_inj.
Qed.

Lemma last_line a b c d : one_line b -> one_line d -> a +:+ newline +:+ b = c +:+ newline +:+ d -> a = c /\ b = d.
Proof.
  intros Ha Hc E. apply (f_equal chars) in E. rewrite !chars_app, !chars_newline in E. apply last_sep in E as [E1 E2]; [|done..].
  split; by apply chars_inj.
Qed.

Lemma str_app_assoc (a b c : string) : a +:+ b +:+ c = (a +:+ b) +:+ c.
Proof. apply chars_inj. by rewrite !chars_app, app_assoc. Qed.

Lemma one_line_app a b : one_line a -> one_line b -> one_line (a +:+ b).
Proof. unfold one_line. rewrite chars_app, elem_of_app. tauto. Qed.

Lemma one_line_join xs sep : Forall one_line xs -> one_line sep -> one_line (Join xs sep).
Proof. intros Hx Hs. by apply Join_no. Qed.

(** ** Escaping *)

(** The reverse of [awsURIEncode]. *)
Fixpoint unescape (l : list ascii) : list ascii :=
  match l with
  | [] => []
  | c :: l' =>
      if decide (c = "%"%char) then
        match l' with
        | h :: k :: l'' => ascii_of (default 0 (digitVal h) * 16 + default 0 (digitVal k)) :: unescape l''
        | _ => [c]
        end
      else c :: unescape l'
  end.

Lemma mjoin_cons {A} (x : list A) xs : mjoin (x :: xs) = x ++ mjoin xs.
Proof. done. Qed.

Lemma unescape_char b c l : unescape (encodeChar b c ++ l) = c :: unescape l.
Proof. destruct b, c as [[] [] [] [] [] [] [] []]; reflexivity. Qed.

Lemma escape_inj b s t : awsURIEncode s b = awsURIEncode t b -> s = t.
Proof.
  unfold awsURIEncode. intros E. apply (f_equal chars) in E. rewrite !chars_of in E. apply chars_inj.
  apply (f_equal unescape) in E. revert E. assert (H : forall l, unescape (mjoin (encodeChar b <$> l)) = l).
  { induction l as [|c l IH]; [done|]. rewrite fmap_cons, mjoin_cons. by rewrite unescape_char, IH. }
  by rewrite !H.
Qed.

(** The bytes an escaped string may have. *)
Definition escapedChar (b : bool) (c : ascii) : bool :=
  unreserved c || bool_decide (c = "%"%char) || (bool_decide (c = "/"%char) && negb b).

Lemma escaped_char b c : forallb (escapedChar b) (encodeChar b c) = true.
Proof. destruct b, c as [[] [] [] [] [] [] [] []]; vm_compute; reflexivity. Qed.

Lemma escape_no c b s : escapedChar b c = false -> c ∉ chars (awsURIEncode s b).
Proof.
  intros Hc Hin. unfold awsURIEncode in Hin. rewrite chars_of in Hin. apply list_elem_of_join in Hin as (l & Hin & Hl).
  apply list_elem_of_fmap in Hl as (x & -> & _). pose proof (escaped_char b x) as H. rewrite forallb_forall in H.
  specialize (H c (proj1 (list_elem_of_In _ _) Hin)). congruence.
Qed.

Lemma one_line_escape s b : one_line (awsURIEncode s b).
Proof. apply escape_no. by destruct b. Qed.

(** The canonical path is the path escaped as a whole. *)
Lemma canonical_path (r : request) : rPath r <> "" -> canonicalURI r = awsURIEncode (rPath r) false.
Proof.
  intros Hp. unfold canonicalURI. rewrite decide_False by done. apply chars_inj. unfold awsURIEncode at 2. rewrite chars_of.
  unfold Split. rewrite <- list_fmap_compose. clear Hp. induction (chars (rPath r)) as [|c l IH]; [done|].
  cbn [splitAt]. destruct (decide (c = "/"%char)) as [->|Hc].
  - rewrite fmap_cons, Join_cons by (destruct l; cbn; repeat case_decide; try done; by destruct (splitAt l _)).
    rewrite !chars_app, IH. done.
  - destruct (splitAt l "/") as [|w ws] eqn:E; [by destruct l; cbn in E; repeat case_decide; try done; destruct (splitAt l "/")|].
    rewrite fmap_cons in IH |- *. rewrite fmap_cons, mjoin_cons, <- IH.
    assert (Hw : forall s : string, forall t, chars (s +:+ t) = chars s ++ chars t) by (intros; apply chars_app).
    destruct ws as [|w' ws]; cbn [fmap list_fmap Join compose]; unfold awsURIEncode; rewrite ?chars_app, ?chars_of;
      rewrite fmap_cons, mjoin_cons; by rewrite ?app_assoc.
Qed.

Lemma path_inj (r1 r2 : request) : rPath r1 <> "" -> rPath r2 <> "" -> canonicalURI r1 = canonicalURI r2 -> rPath r1 = rPath r2.
Proof. intros H1 H2. rewrite !canonical_path by done. apply escape_inj. Qed.

Lemma one_line_uri (r : request) : one_line (canonicalURI r).
Proof.
  destruct (decide (rPath r = "")) as [E|E]; [unfold canonicalURI; rewrite decide_True by done; no_char|].
  rewrite canonical_path by done. apply one_line_escape.
Qed.

(** ** The query *)

Definition queryPart (kv : string * string) : string := awsURIEncode kv.1 true +:+ "=" +:+ awsURIEncode kv.2 true.

Lemma queryPart_no c kv : escapedChar true c = false -> c <> "="%char -> c ∉ chars (queryPart kv).
Proof.
  intros Hc He. unfold queryPart. rewrite !chars_app, !elem_of_app. intros [H|[H|H]].
  - by apply escape_no in H.
  - by apply list_elem_of_singleton in H.
  - by apply escape_no in H.
Qed.

Lemma queryPart_inj kv kv' : queryPart kv = queryPart kv' -> kv = kv'.
Proof.
  intros E. apply (f_equal chars) in E. unfold queryPart in E. rewrite !chars_app in E.
  apply (first_sep "="%char) in E as [E1 E2]; [|by apply escape_no..]. apply chars_inj, escape_inj in E1, E2.
  destruct kv, kv'. cbn in *. congruence.
Qed.

Lemma query_inj (r1 r2 : request) : canonicalQuery r1 = canonicalQuery r2 -> queryPairs r1 = queryPairs r2.
Proof.
  unfold canonicalQuery. change (fun kv : string * string => awsURIEncode kv.1 true +:+ "=" +:+ awsURIEncode kv.2 true) with queryPart.
  generalize (queryPairs r1) (queryPairs r2). change "&" with (sep1 "&"%char). intros l1 l2 E.
  assert (Hs : forall l, l <> [] -> Split (Join (queryPart <$> l) (sep1 "&"%char)) "&" = queryPart <$> l).
  { intros l Hl. apply Split_Join; [by destruct l|]. apply Forall_fmap, Forall_true. intros kv. by apply queryPart_no. }
  assert (Hn : forall kv l, Join (queryPart <$> kv :: l) (sep1 "&"%char) <> "").
  { intros kv l H. apply (f_equal chars) in H. destruct (decide (l = [])) as [->|Hl].
    - cbn in H. unfold queryPart in H. rewrite !chars_app in H. by destruct (chars (awsURIEncode kv.1 true)).
    - rewrite fmap_cons, Join_cons, !chars_app in H by (by destruct l). by destruct (chars (queryPart kv)). }
  destruct l1 as [|x l1], l2 as [|y l2]; [done|by destruct (Hn y l2)|by destruct (Hn x l1)|].
  apply (f_equal (fun s => Split s "&"%char)) in E. rewrite !Hs in E by done.
  revert E. apply list_fmap_eq_inj. intros ??. apply queryPart_inj.
Qed.

Lemma one_line_query (r : request) : one_line (canonicalQuery r).
Proof. apply one_line_join; [|no_char]. apply Forall_fmap, Forall_true. intros kv. by apply queryPart_no. Qed.

(** ** The headers *)

Lemma leading_newline l : leadingSpace (nl :: l) <> None.
Proof.
  unfold leadingSpace. destruct (filter _ spaces) eqn:E; [|done]. intros _.
  assert (H : [nl] ∈ filter (fun sp => sp `prefix_of` nl :: l) spaces).
  { apply list_elem_of_filter. split; [by exists l|]. apply (bool_decide_eq_true_1 _). vm_compute. reflexivity. }
  rewrite E in H. by apply elem_of_nil in H.
Qed.

Lemma fields_lines fuel l word : (nl ∉ word) -> Forall (fun w => nl ∉ w) (fieldsFrom fuel l word).
Proof.
  revert l word. induction fuel as [|fuel IH]; intros l word Hw;
    (assert (Hc : Forall (fun w => nl ∉ w) (match word with [] => [] | _ => [word] end)) by (destruct word; auto)); [exact Hc|].
  cbn [fieldsFrom]. destruct (leadingSpace l) as [sp|] eqn:E.
  - apply Forall_app. split; [done|]. apply IH. apply not_elem_of_nil.
  - destruct l as [|c l]; [done|]. apply IH. rewrite elem_of_app, list_elem_of_singleton. intros [H|<-]; [done|].
    by apply leading_newline in E.
Qed.

Lemma one_line_collapse s : one_line (collapseWhitespace s).
Proof.
  apply one_line_join; [|no_char]. unfold Fields. apply Forall_fmap. eapply Forall_impl; [apply fields_lines, not_elem_of_nil|].
  intros w Hw. unfold one_line. cbn. by rewrite chars_of.
Qed.

(** The value of a signed header that the signature covers. *)
Definition signedValue (r : request) (h : string) : string :=
  collapseWhitespace (if decide (ToLower h = "host") then rHost r else Join (headerValues r h) ",").

Lemma headers_inj (r1 r2 : request) hs : canonicalHeaders r1 hs = canonicalHeaders r2 hs ->
  Forall (fun h => signedValue r1 h = signedValue r2 h) hs.
Proof.
  induction hs as [|h hs IH]; [done|]. cbn [canonicalHeaders foldr]. intros E.
  assert (Hl : forall r, headerLine r h = ToLower h +:+ ":" +:+ signedValue r h +:+ newline) by done.
  rewrite !Hl, <- !str_app_assoc in E. apply (inj _) in E. apply (inj _) in E.
  apply first_line in E as [E1 E2]; [|apply one_line_collapse..]. constructor; [done|]. by apply IH.
Qed.

(** ** The canonical request *)

Lemma hex_inj a b : hex_encode a = hex_encode b -> a = b.
Proof.
  assert (Hd : forall x y : byte, hex_digit (byte_Z x / 16) = hex_digit (byte_Z y / 16) ->
    hex_digit (byte_Z x mod 16) = hex_digit (byte_Z y mod 16) -> x = y).
  { intros x y. assert (Hn : forall v w, 0 <= v < 16 -> 0 <= w < 16 -> hex_digit v = hex_digit w -> v = w).
    { intros v w Hv Hw E. unfold hex_digit in E. apply (f_equal N_of_ascii) in E.
      destruct (Z.ltb_spec v 10), (Z.ltb_spec w 10); rewrite !N_ascii_embedding in E by lia; lia. }
    pose proof (byte_Z_range x). pose proof (byte_Z_range y). intros E1 E2. apply Hn in E1; [|div_solve..]. apply Hn in E2; [|div_solve..].
    rewrite <- (Z_byte_of x), <- (Z_byte_of y). f_equal. div_solve. }
  revert b. induction a as [|x a IH]; intros [|y b] E; [done..|]. cbn [hex_encode] in E. injection E as E1 E2 E3.
  f_equal; auto.
Qed.

Lemma splitAt_no l c : Forall (fun w => c ∉ w) (splitAt l c).
Proof.
  induction l as [|x l IH]; cbn [splitAt]; [by repeat constructor; apply not_elem_of_nil|].
  case_decide; [constructor; [apply not_elem_of_nil|done]|].
  destruct (splitAt l c) as [|w ws]; [repeat constructor; by rewrite list_elem_of_singleton|].
  apply Forall_cons in IH as [Hw Hws]. constructor; [|done]. rewrite not_elem_of_cons. done.
Qed.

Lemma Split_no s c : Forall (fun w => c ∉ chars w) (Split s c).
Proof. unfold Split. apply Forall_fmap. eapply Forall_impl; [apply splitAt_no|]. intros w. cbn. by rewrite chars_of. Qed.

Lemma Split_nonempty s c : Split s c <> [].
Proof. unfold Split. destruct (chars s) as [|x l]; [done|]. cbn [splitAt]. case_decide; [done|]. by destruct (splitAt l c). Qed.

Lemma Join_inj c xs ys : xs <> [] -> ys <> [] -> Forall (fun x => c ∉ chars x) xs -> Forall (fun x => c ∉ chars x) ys ->
  Join xs (sep1 c) = Join ys (sep1 c) -> xs = ys.
Proof. intros Hx Hy Fx Fy E. apply (f_equal (fun s => Split s c)) in E. by rewrite !Split_Join in E. Qed.

(** What a parsed header has: header names without semicolons, scope parts
    without slashes. *)
Lemma parse_parts h s : parseAuthorization h = Ok s ->
  signedHeaders s <> [] /\ Forall (fun x => ";"%char ∉ chars x) (signedHeaders s) /\
  Forall (fun x => "/"%char ∉ chars x) [asDate s; asRegion s; asService s].
Proof.
  unfold parseAuthorization. case_decide; [done|]. destruct (CutPrefix h _) as [rest|]; [|done].
  destruct (foldl authPart _ _) as [[cred signed] sig]. case_decide; [done|].
  pose proof (Split_no cred "/") as Hs. destruct (Split cred "/") as [|ak [|d [|re [|se [|t [|]]]]]]; try done.
  case_decide; [|done]. intros [= <-]. cbn [signedHeaders asDate asRegion asService].
  split; [apply Split_nonempty|]. split; [apply Split_no|].
  do 2 (apply Forall_cons in Hs as [? Hs]). repeat (apply Forall_cons in Hs as [? Hs]). by repeat constructor.
Qed.

(** What the grammar of HTTP gives: the parts that go into the canonical request
    as they are have no line ends, and the path is not empty. *)
Record wire (r : request) (s : authScope) : Prop := {
  w_method : one_line (rMethod r); w_path : rPath r <> ""; w_date : one_line (headerGet r amzDateHeader);
  w_payload : one_line (headerGet r amzContentSHA); w_headers : Forall one_line (signedHeaders s) }.

Definition one_lineb (s : string) : bool := negb (bool_decide (nl ∈ chars s)).

Lemma one_line_check s : one_lineb s = true -> one_line s.
Proof. unfold one_lineb. by rewrite negb_true_iff, bool_decide_eq_false. Qed.

Definition wireb (r : request) (s : authScope) : bool :=
  one_lineb (rMethod r) && negb (bool_decide (rPath r = "")) && one_lineb (headerGet r amzDateHeader) &&
  one_lineb (headerGet r amzContentSHA) && forallb one_lineb (signedHeaders s).

Lemma wire_check r s : wireb r s = true -> wire r s.
Proof.
  unfold wireb. rewrite !andb_true_iff, negb_true_iff, bool_decide_eq_false. intros [[[[H1 H2] H3] H4] H5].
  split; try (by apply one_line_check); [done|]. apply Forall_forall. intros h Hh. apply one_line_check.
  rewrite forallb_forall in H5. apply H5. by apply list_elem_of_In.
Qed.

(** The parts of two requests that a signature covers agree. *)
Record same_signed (r1 : request) (s1 : authScope) (r2 : request) (s2 : authScope) : Prop := {
  same_method : rMethod r1 = rMethod r2; same_path : rPath r1 = rPath r2; same_query : queryPairs r1 = queryPairs r2;
  same_headers : signedHeaders s1 = signedHeaders s2;
  same_values : Forall (fun h => signedValue r1 h = signedValue r2 h) (signedHeaders s1);
  same_payload : headerGet r1 amzContentSHA = headerGet r2 amzContentSHA;
  same_date : headerGet r1 amzDateHeader = headerGet r2 amzDateHeader;
  same_scope : (asDate s1, asRegion s1, asService s1) = (asDate s2, asRegion s2, asService s2) }.

Definition canonicalOf (r : request) (s : authScope) : string := canonicalRequest r (signedHeaders s) (headerGet r amzContentSHA).

Definition toSign (r : request) (s : authScope) : string :=
  stringToSign (headerGet r amzDateHeader) (credentialScope s) (canonicalOf r s).

Definition keyOf (c : Credential) (s : authScope) : bytes := signingKey (SecretKey c) (asDate s) (asRegion s) (asService s).

Lemma canonical_inj r1 s1 r2 s2 : wire r1 s1 -> wire r2 s2 ->
  signedHeaders s1 <> [] -> Forall (fun x => ";"%char ∉ chars x) (signedHeaders s1) ->
  signedHeaders s2 <> [] -> Forall (fun x => ";"%char ∉ chars x) (signedHeaders s2) ->
  canonicalOf r1 s1 = canonicalOf r2 s2 ->
  rMethod r1 = rMethod r2 /\ rPath r1 = rPath r2 /\ queryPairs r1 = queryPairs r2 /\ signedHeaders s1 = signedHeaders s2 /\
  Forall (fun h => signedValue r1 h = signedValue r2 h) (signedHeaders s1) /\
  headerGet r1 amzContentSHA = headerGet r2 amzContentSHA.
Proof.
  intros [M1 P1 D1 L1 H1] [M2 P2 D2 L2 H2] N1 C1 N2 C2 E. unfold canonicalOf, canonicalRequest in E.
  apply first_line in E as [Em E]; [|done..]. apply first_line in E as [Eu E]; [|apply one_line_uri..].
  apply first_line in E as [Eq E]; [|apply one_line_query..].
  rewrite !str_app_assoc in E. rewrite <- !(str_app_assoc _ newline (headerGet _ _)) in E.
  apply last_line in E as [E Ep]; [|done..]. rewrite <- !str_app_assoc in E.
  apply last_line in E as [Eh Ej]; [|by apply one_line_join; [|no_char]..].
  change ";" with (sep1 ";"%char) in Ej. apply Join_inj in Ej; [|done..]. rewrite Ej in Eh |- *.
  split_and!; [done|by apply path_inj|by apply query_inj|done|by apply headers_inj|done].
Qed.

(** ** Collisions *)

Definition sha_collision (a b : string) : Prop := a <> b /\ sha256 (sbytes a) = sha256 (sbytes b).
Definition hmac_collision (k1 : bytes) (m1 : string) (k2 : bytes) (m2 : string) : Prop :=
  (k1, m1) <> (k2, m2) /\ hmac_sha256 k1 (sbytes m1) = hmac_sha256 k2 (sbytes m2).

Lemma hex_char c b : c ∈ chars (hex_encode b) -> isHexChar c = true.
Proof. intros Hin. pose proof (hex_encode_hex b) as Hh. rewrite forallb_forall in Hh. apply Hh. by apply list_elem_of_In. Qed.

Lemma one_line_hex b : one_line (hex_encode b).
Proof.
  intros Hin. by apply hex_char in Hin.
Qed.

(** One string to sign is made of one date, one scope and one digest. *)
Lemma toSign_inj r1 s1 r2 s2 : wire r1 s1 -> wire r2 s2 ->
  Forall (fun x => "/"%char ∉ chars x) [asDate s1; asRegion s1; asService s1] ->
  Forall (fun x => "/"%char ∉ chars x) [asDate s2; asRegion s2; asService s2] ->
  toSign r1 s1 = toSign r2 s2 ->
  headerGet r1 amzDateHeader = headerGet r2 amzDateHeader /\
  (asDate s1, asRegion s1, asService s1) = (asDate s2, asRegion s2, asService s2) /\
  sha256 (sbytes (canonicalOf r1 s1)) = sha256 (sbytes (canonicalOf r2 s2)).
Proof.
  intros W1 W2 F1 F2 E. unfold toSign, stringToSign in E. cbn [Join] in E. apply (inj _), (inj _) in E.
  apply first_line in E as [Ed E]; [|by apply w_date in W1|by apply w_date in W2].
  unfold hexSHA256 in E. rewrite !sha256_hex_eq in E. apply last_line in E as [Es Eh]; [|apply one_line_hex..]. split; [done|]. split; [|by apply hex_inj].
  unfold credentialScope in Es. change "/" with (sep1 "/"%char) in Es. apply Join_inj in Es; [congruence|done..| |].
  - apply (Forall_app_2 _ [_; _; _] [_]); [done|]. repeat constructor. no_char.
  - apply (Forall_app_2 _ [_; _; _] [_]); [done|]. repeat constructor. no_char.
Qed.

Lemma authenticated_inv creds now r c : authenticateService creds now r = Ok c ->
  exists s, parseAuthorization (headerGet r authorizationHeader) = Ok s /\ creds !! accessKeyID s = Some c /\
    checkRequestTime (headerGet r amzDateHeader) now = Ok tt /\ hmacHex (keyOf c s) (toSign r s) = asSignature s.
Proof.
  unfold authenticateService. destruct (parseAuthorization _) as [s|]; [|done]. cbn [mbind result_bind].
  destruct (creds !! accessKeyID s) as [c'|] eqn:Ec; [|done]. destruct (checkRequestTime _ _) as [[]|]; [|done].
  cbn [mbind result_bind]. case_decide; [done|]. unfold verifySeedSignature. cbv zeta. case_decide; [|done].
  intros [= <-]. by exists s.
Qed.

(** C21: a signature covers the request.  When two requests that the server
    authenticates carry one signature, they have the same method, path, query
    parameters, signed header names and values, payload hash, date and credential
    scope; or else the two canonical requests are a collision of SHA-256, or the
    two signing keys and strings to sign a collision of HMAC-SHA-256. *)
Theorem signature_binds creds now1 now2 r1 r2 c1 c2 s1 s2 :
  authenticateService creds now1 r1 = Ok c1 -> authenticateService creds now2 r2 = Ok c2 ->
  parseAuthorization (headerGet r1 authorizationHeader) = Ok s1 ->
  parseAuthorization (headerGet r2 authorizationHeader) = Ok s2 ->
  wire r1 s1 -> wire r2 s2 -> asSignature s1 = asSignature s2 ->
  same_signed r1 s1 r2 s2 \/ sha_collision (canonicalOf r1 s1) (canonicalOf r2 s2) \/
  hmac_collision (keyOf c1 s1) (toSign r1 s1) (keyOf c2 s2) (toSign r2 s2).
Proof.
  intros A1 A2 P1 P2 W1 W2 E. apply authenticated_inv in A1 as (s1' & P1' & _ & _ & S1). apply authenticated_inv in A2 as (s2' & P2' & _ & _ & S2).
  assert (s1' = s1) as -> by congruence. assert (s2' = s2) as -> by congruence. rewrite E, <- S2 in S1. apply hex_inj in S1.
  destruct (decide ((keyOf c1 s1, toSign r1 s1) = (keyOf c2 s2, toSign r2 s2))) as [Ek|Hk]; [|right; right; exact (conj Hk S1)].
  destruct (parse_parts _ _ P1) as (N1 & C1 & F1). destruct (parse_parts _ _ P2) as (N2 & C2 & F2).
  apply (f_equal snd) in Ek as Et. cbn [snd] in Et. destruct (toSign_inj _ _ _ _ W1 W2 F1 F2 Et) as (Ed & Es & Eh).
  destruct (decide (canonicalOf r1 s1 = canonicalOf r2 s2)) as [Ec|Hc]; [|right; left; exact (conj Hc Eh)].
  destruct (canonical_inj _ _ _ _ W1 W2 N1 C1 N2 C2 Ec) as (? & ? & ? & ? & ? & ?). left. constructor; assumption.
Qed.

(** ** Signing *)

(** What a client does: sign under the scope, and add the header. *)
Definition signScope (r : request) (c : Credential) (s : authScope) : authScope :=
  MkScope (AccessKeyID c) (asDate s) (asRegion s) (asService s) (signedHeaders s) (hmacHex (keyOf c s) (toSign r s)).

Definition withHeader (r : request) (k v : string) : request :=
  MkReq (rMethod r) (rPath r) (rQuery r) (<[k := [v]]> (rHeader r)) (rHost r) (rBody r).

Definition signRequest (r : request) (c : Credential) (s : authScope) : request :=
  withHeader r authorizationHeader (formatAuth (signScope r c s)).

Lemma hex_clean b : b <> [] -> clean (hex_encode b).
Proof.
  intros Hb. split; [by destruct b|]. apply Forall_forall. intros c Hc%hex_char.
  assert (Hx : isHexChar c = true -> (33 <=? octet c) && (octet c <=? 126) && bool_decide (c ∉ [","%char; "/"%char; ";"%char]) = true).
  { destruct c as [[] [] [] [] [] [] [] []]; vm_compute; intros ?; (reflexivity || discriminate). }
  apply Hx in Hc. rewrite !andb_true_iff, !Z.leb_le, bool_decide_eq_true, !not_elem_of_cons in Hc. unfold visibleChar. tauto.
Qed.

Lemma hmacHex_clean key m : clean (hmacHex key m).
Proof.
  apply hex_clean. pose proof (hmac_len key (sbytes m)) as Hl. unfold hmacRaw. by destruct (hmac_sha256 _ _).
Qed.

Lemma headerGet_other r k v h : CanonicalHeaderKey h <> k -> headerValues (withHeader r k v) h = headerValues r h.
Proof. intros Hk. unfold headerValues, withHeader. cbn. by rewrite lookup_insert_ne by done. Qed.

Lemma names_check k hs : forallb (fun h => negb (bool_decide (CanonicalHeaderKey h = k))) hs = true ->
  Forall (fun h => CanonicalHeaderKey h <> k) hs.
Proof.
  intros H. apply Forall_forall. intros h Hh. rewrite forallb_forall in H. specialize (H h (proj1 (list_elem_of_In _ _) Hh)).
  by rewrite negb_true_iff, bool_decide_eq_false in H.
Qed.

Lemma headers_unsigned r v hs : Forall (fun h => CanonicalHeaderKey h <> authorizationHeader) hs ->
  canonicalHeaders (withHeader r authorizationHeader v) hs = canonicalHeaders r hs.
Proof.
  induction 1 as [|h hs Hh _ IH]; [done|]. cbn [canonicalHeaders foldr]. unfold canonicalHeaders in IH. rewrite IH. f_equal.
  unfold headerLine. by rewrite headerGet_other.
Qed.

Lemma toSign_signed r c s : Forall (fun h => CanonicalHeaderKey h <> authorizationHeader) (signedHeaders s) ->
  toSign (signRequest r c s) (signScope r c s) = toSign r s.
Proof.
  intros Hs. unfold toSign, canonicalOf, canonicalRequest, signRequest, headerGet.
  rewrite !headerGet_other by (vm_compute; discriminate). cbn [signScope signedHeaders]. by rewrite headers_unsigned.
Qed.

(** A request signed by the rules is authenticated.  For a known
    credential, a scope and header names free of the header's separators, and a
    fresh date, the request with the Authorization header that the client builds
    is authenticated as that credential. *)
Theorem signed_accepted creds now r c s :
  creds !! AccessKeyID c = Some c -> clean (AccessKeyID c) -> Forall clean [asDate s; asRegion s; asService s] ->
  signedHeaders s <> [] -> Forall clean (signedHeaders s) ->
  Forall (fun h => CanonicalHeaderKey h <> authorizationHeader) (signedHeaders s) ->
  checkRequestTime (headerGet r amzDateHeader) now = Ok tt -> headerGet r amzContentSHA <> "" ->
  authenticateService creds now (signRequest r c s) = Ok c.
Proof.
  intros Hc Hk Hsc Hne Hsh Hau Ht Hp. unfold authenticateService.
  assert (Hx : forall k v h, CanonicalHeaderKey h <> k -> headerGet (withHeader r k v) h = headerGet r h).
  { intros k v h Hh. unfold headerGet. by rewrite headerGet_other. }
  assert (Ha : headerGet (signRequest r c s) authorizationHeader = formatAuth (signScope r c s)).
  { unfold headerGet, headerValues, signRequest, withHeader. cbn [rHeader].
    change (CanonicalHeaderKey authorizationHeader) with authorizationHeader. by rewrite lookup_insert_eq. }
  assert (Hcl : clean_scope (signScope r c s)).
  { do 3 (apply Forall_cons in Hsc as [? Hsc]). do 6 (split; [assumption|]). apply hmacHex_clean. }
  rewrite Ha, (auth_round _ Hcl). cbn [mbind result_bind signScope accessKeyID]. rewrite Hc.
  assert (Hd : headerGet (signRequest r c s) amzDateHeader = headerGet r amzDateHeader) by (apply Hx; vm_compute; discriminate).
  assert (Hy : headerGet (signRequest r c s) amzContentSHA = headerGet r amzContentSHA) by (apply Hx; vm_compute; discriminate).
  rewrite Hd, Ht. cbn [mbind result_bind]. rewrite Hy, decide_False by done.
  unfold verifySeedSignature. cbv zeta. rewrite <- Hy. fold (canonicalOf (signRequest r c s) (signScope r c s)).
  fold (toSign (signRequest r c s) (signScope r c s)). rewrite toSign_signed by done. by rewrite decide_True.
Qed.
