(* ===== verification/S3Stream.v ===== *)
(** Request bodies of the S3 front end (blobgw-s3/s3/streaming.go and the body
    readers of handler.go).

    An aws-chunked body is decoded chunk by chunk, each with a signature that
    covers the signature before it.  [stream_roundtrip]: what a client encodes is
    decoded to its chunks.  [stream_authentic]: a body in which every MAC under
    the request's key is one of the client's decodes to a prefix of the client's
    chunks, and to all of them when it ends well, unless HMAC-SHA-256 or SHA-256
    collides on the strings at hand.  The size ceiling and the digest check are
    transformers of reader streams. *)

From S2P Require Import Prelude GoStrings Decimal Sha256 ChunkedWrite GoText RefStore Manifest Gateway S3Crypto S3Auth S3Sig.
From Stdlib Require Import Ascii.

(** ** Bytes of a body *)

(** How a stream ends after its bytes: [None] is end of file. *)
Fixpoint endOf (r : rdStream) : option err :=
  match r with
  | [] => None
  | (_, RdMore) :: r => endOf r
  | (_, RdEOF) :: _ => None
  | (_, RdErr e) :: _ => Some e
  end.

(** The error of a buffered read that wants more bytes than there are; wrapping
    keeps the reader's own error. *)
Definition shortRead (fin : option err) : err := default (EOther "unexpected EOF") fin.

Definition lf : byte := Z_byte 10.
Definition cr : byte := Z_byte 13.

(** [bufio.Reader.ReadString('\n')]: the line with its end, and the rest. *)
Fixpoint readLine (l : bytes) : option (bytes * bytes) :=
  match l with
  | [] => None
  | b :: l => if decide (b = lf) then Some ([b], l)
              else match readLine l with Some (line, rest) => Some (b :: line, rest) | None => None end
  end.

(** ** The decoder *)

Definition streamingChunkAlgo : string := "AWS4-HMAC-SHA256-PAYLOAD".
Definition emptyStringSHA256 : string := "e3b0c44298fc1c149afbf4c8996fb92427ae41e4649b934ca495991b7852b855".
Definition maxChunkSize : Z := 16 * 2 ^ 20.

Record chunkReader := MkCR {
  crBody : bytes; crEnd : option err; crKey : bytes; crDate : string; crScope : string; crPrev : string }.

Definition newChunkReader (body : rdStream) (key : bytes) (amzDate credScope seedSig : string) : chunkReader :=
  MkCR (drained body) (endOf body) key amzDate credScope seedSig.

Definition parseChunkHeader (header : string) : result (Z * string) :=
  match Cut header ";" with
  | None => Err (EOther "s3 chunk: header missing chunk-signature")
  | Some (sizeStr, rest) =>
      match ParseInt 16 (TrimSpace sizeStr) with
      | None => Err (EOther "s3 chunk: bad size")
      | Some size =>
          if size <? 0 then Err (EOther "s3 chunk: bad size")
          else if maxChunkSize <? size then Err errEntityTooLarge
          else match CutPrefix (TrimSpace rest) "chunk-signature=" with
               | None => Err (EOther "s3 chunk: header missing chunk-signature")
               | Some sig => Ok (size, sig)
               end
      end
  end.

Definition chunkString (amzDate credScope prev : string) (data : bytes) : string :=
  Join [streamingChunkAlgo; amzDate; credScope; prev; emptyStringSHA256; hexSHA256 data] newline.

Definition chunkSignature (c : chunkReader) (data : bytes) : string :=
  hmacHex (crKey c) (chunkString (crDate c) (crScope c) (crPrev c) data).

Definition expectCRLF (fin : option err) (l : bytes) : result bytes :=
  match l with
  | a :: b :: l => if decide (a = cr /\ b = lf) then Ok l else Err (EOther "s3 chunk: malformed chunk terminator")
  | _ => Err (shortRead fin)
  end.

(** The chunk's data and the reader after it. *)
Definition readChunk (c : chunkReader) : result (bytes * chunkReader) :=
  match readLine (crBody c) with
  | None => Err (shortRead (crEnd c))
  | Some (line, rest) =>
      '(size, chunkSig) ← parseChunkHeader (of_chars (TrimRightCRLF (chars (bstring line))));
      if len rest <? size then Err (shortRead (crEnd c))
      else
        let data := slice rest 0 size in
        rest ← expectCRLF (crEnd c) (slice rest size (len rest));
        let want := chunkSignature c data in
        if decide (want = chunkSig) then Ok (data, MkCR rest (crEnd c) (crKey c) (crDate c) (crScope c) want)
        else Err errSignatureDoesNotMatch
  end.

(** The chunks a reader delivers, and how it ends. *)
Fixpoint decodeChunks (fuel : nat) (c : chunkReader) : list bytes * option err :=
  match fuel with
  | O => ([], Some (shortRead (crEnd c)))
  | S fuel =>
      match readChunk c with
      | Err e => ([], Some e)
      | Ok (data, c) => if decide (data = []) then ([], None)
                        else let '(ds, fin) := decodeChunks fuel c in (data :: ds, fin)
      end
  end.

(** Every chunk takes a byte at least. *)
Definition decode (c : chunkReader) : list bytes * option err := decodeChunks (S (length (crBody c))) c.

Definition endStatus (fin : option err) : rdStatus := match fin with None => RdEOF | Some e => RdErr e end.

(** The reads of the gateway's buffer from the decoder. *)
Definition chunkReads (c : chunkReader) : rdStream :=
  let '(ds, fin) := decode c in foldr (fun d r => bytesReader (length d) d ++ r) [([], endStatus fin)] ds.

(** ** The other body readers *)

(** [io.LimitReader]. *)
Fixpoint limitReader (n : Z) (r : rdStream) : rdStream :=
  if n <=? 0 then [([], RdEOF)]
  else match r with
       | [] => []
       | (b, s) :: r => if len b <=? n then (b, s) :: match s with RdMore => limitReader (n - len b) r | _ => [] end
                        else [(slice b 0 n, RdMore); ([], RdEOF)]
       end.

(** [sha256VerifyReader] at end of file. *)
Definition digestStatus (want : string) (seen : bytes) : rdStatus :=
  let got := sha256_hex seen in
  if negb (strlen want =? strlen got) then RdErr errBadDigest
  else if decide (got = want) then RdEOF else RdErr errContentSHA256Mismatch.

Fixpoint verifyReader (want : string) (seen : bytes) (r : rdStream) : rdStream :=
  match r with
  | [] => [([], digestStatus want seen)]
  | (b, RdMore) :: r => (b, RdMore) :: verifyReader want (seen ++ b) r
  | (b, RdEOF) :: _ => [(b, digestStatus want (seen ++ b))]
  | (b, RdErr e) :: _ => [(b, RdErr e)]
  end.

(** The body a put consumes. *)
Definition objectBody (maxObj : Z) (r : request) (cred : Credential) : result rdStream :=
  scope ← parseAuthorization (headerGet r authorizationHeader);
  let contentSHA := headerGet r amzContentSHA in
  '(body, verifyHash) ←
    (if decide (contentSHA = streamingPayload) then
       seed ← verifySeedSignature r scope (SecretKey cred) streamingPayload;
       let key := signingKey (SecretKey cred) (asDate scope) (asRegion scope) (asService scope) in
       Ok (chunkReads (newChunkReader (rBody r) key (headerGet r amzDateHeader) (credentialScope scope) seed), "")
     else if decide (contentSHA = unsignedPayload \/ contentSHA = "") then Ok (rBody r, "")
     else Ok (rBody r, ToLower contentSHA));
  let body := if 0 <? maxObj then limitReader maxObj body else body in
  Ok (if decide (verifyHash = "") then body else verifyReader verifyHash [] body).

(** ** Decoding ends *)

Lemma readLine_app l line rest : readLine l = Some (line, rest) -> l = line ++ rest /\ line <> [].
Proof.
  revert line; induction l as [|b l IH]; intros line; cbn [readLine]; [done|]. case_decide; [by intros [= <- <-]|].
  destruct (readLine l) as [[line' rest']|]; [|done]. intros [= <- <-]. destruct (IH line') as [-> _]; done.
Qed.

Lemma readLine_line l rest : (lf ∉ l) -> readLine (l ++ lf :: rest) = Some (l ++ [lf], rest).
Proof.
  induction l as [|b l IH]; cbn [app readLine]; [by rewrite decide_True|]. rewrite not_elem_of_cons. intros [Hb Hl].
  rewrite decide_False by done. by rewrite IH.
Qed.

Lemma expectCRLF_len fin l l' : expectCRLF fin l = Ok l' -> l = cr :: lf :: l'.
Proof. destruct l as [|a [|b l]]; [done..|]. cbn. case_decide as H; [|done]. destruct H as [-> ->]. by intros [= ->]. Qed.

(** What a chunk read means: a header line that declares the size and the
    signature of the data after it. *)
Lemma readChunk_inv c data c' : readChunk c = Ok (data, c') ->
  exists line, crBody c = line ++ data ++ cr :: lf :: crBody c' /\ line <> [] /\
    parseChunkHeader (of_chars (TrimRightCRLF (chars (bstring line)))) = Ok (len data, chunkSignature c data) /\
    c' = MkCR (crBody c') (crEnd c) (crKey c) (crDate c) (crScope c) (chunkSignature c data).
Proof.
  unfold readChunk. destruct (readLine (crBody c)) as [[line rest]|] eqn:El; [|done]. apply readLine_app in El as [El Hne].
  destruct (parseChunkHeader _) as [[size sig]|e] eqn:Ep; [|done]. cbn [mbind result_bind]. destruct (Z.ltb_spec (len rest) size) as [|Hs]; [done|].
  destruct (expectCRLF _ _) as [l'|e] eqn:Ec; [|done]. cbn [mbind result_bind]. cbv zeta. case_decide as Hd; [|done]. intros [= <- <-].
  apply expectCRLF_len in Ec. assert (H0 : 0 <= size).
  { unfold parseChunkHeader in Ep. destruct (Cut _ _) as [[a b]|]; [|done]. destruct (ParseInt _ _) as [z|]; [|done].
    destruct (Z.ltb_spec z 0); [done|]. destruct (maxChunkSize <? z); [done|]. destruct (CutPrefix _ _); [|done]. by injection Ep as <- _. }
  exists line. cbn [crBody]. split; [|split; [done|split; [|done]]].
  - rewrite El, <- Ec. f_equal. rewrite slice_split by lia. by rewrite slice_all.
  - rewrite Ep. f_equal. f_equal; [|done]. rewrite slice_len; lia.
Qed.

Lemma readChunk_shrinks c data c' : readChunk c = Ok (data, c') -> (length (crBody c') < length (crBody c))%nat.
Proof. intros (line & -> & Hne & _)%readChunk_inv. rewrite !length_app. cbn [length]. lia. Qed.

(** More fuel than bytes changes nothing. *)
Lemma decode_fuel n c : (length (crBody c) < n)%nat -> decodeChunks n c = decode c.
Proof.
  unfold decode. intros Hn. assert (Hm : (length (crBody c) < S (length (crBody c)))%nat) by lia. revert Hm Hn.
  generalize (S (length (crBody c))). intros m. revert n c. induction m as [|m IH]; intros [|n] c Hm Hn; [lia..|]. cbn [decodeChunks].
  destruct (readChunk c) as [[data c']|e] eqn:E; [|done]. apply readChunk_shrinks in E. case_decide; [done|].
  rewrite (IH n c') by lia. done.
Qed.

Lemma decode_step c : decode c =
  match readChunk c with
  | Err e => ([], Some e)
  | Ok (data, c') => if decide (data = []) then ([], None) else let '(ds, fin) := decode c' in (data :: ds, fin)
  end.
Proof.
  unfold decode at 1. cbn [decodeChunks]. destruct (readChunk c) as [[data c']|e] eqn:E; [|done]. apply readChunk_shrinks in E.
  case_decide; [done|]. by rewrite decode_fuel.
Qed.

(** ** What a client sends *)

Definition chunkHeader (size : Z) (sig : string) : string := of_chars (formatHex 16 size) +:+ ";" +:+ "chunk-signature=" +:+ sig.

Definition encodeChunk (data : bytes) (sig : string) : bytes :=
  sbytes (chunkHeader (len data) sig) ++ cr :: lf :: data ++ [cr; lf].

(** The signatures of a chain of chunks. *)
Fixpoint chain (key : bytes) (date scope prev : string) (cs : list bytes) : list string :=
  match cs with
  | [] => []
  | c :: cs => let sig := hmacHex key (chunkString date scope prev c) in sig :: chain key date scope sig cs
  end.

(** The empty chunk ends the stream. *)
Definition encodeStream (key : bytes) (date scope seed : string) (cs : list bytes) : bytes :=
  concat (zip_with encodeChunk (cs ++ [[]]) (chain key date scope seed (cs ++ [[]]))).

(** *** Reading the header back *)

Lemma digitsVal_snoc base acc l c : digitsVal base acc (l ++ [c]) =
  match digitsVal base acc l with
  | Some v => match digitVal c with Some d => if d <? base then Some (base * v + d) else None | None => None end
  | None => None
  end.
Proof.
  revert acc; induction l as [|x l IH]; intros acc; cbn [app digitsVal].
  - destruct (digitVal c) as [d|]; [|done]. by destruct (d <? base).
  - destruct (digitVal x) as [d|]; [|done]. destruct (d <? base); [apply IH|done].
Qed.

Lemma hexChar_val z : 0 <= z < 16 -> digitVal (hexChar z) = Some z /\ isHexChar (hexChar z) = true.
Proof.
  intros Hz. assert (H : forallb (fun z => bool_decide (digitVal (hexChar z) = Some z) && isHexChar (hexChar z)) (seqZ 0 16) = true) by (vm_compute; reflexivity).
  rewrite forallb_forall in H. specialize (H z (proj1 (list_elem_of_In _ _) (proj2 (elem_of_seqZ _ _ _) Hz))).
  by apply andb_true_iff in H as [H%bool_decide_eq_true ?].
Qed.

Lemma formatHex_spec fuel n : (0 < fuel)%nat -> 0 <= n < 16 ^ Z.of_nat fuel ->
  digitsVal 16 0 (formatHex fuel n) = Some n /\ Forall (fun c => isHexChar c = true) (formatHex fuel n) /\ formatHex fuel n <> [].
Proof.
  revert n; induction fuel as [|fuel IH]; intros n Hf Hn; [lia|]. cbn [formatHex]. destruct (Z.ltb_spec n 16).
  - destruct (hexChar_val n) as [E1 E2]; [lia|]. cbn [digitsVal]. rewrite E1. destruct (Z.ltb_spec n 16); [|lia].
    split; [done|]. split; [|done]. by constructor.
  - assert (Hq : 0 <= n / 16 < 16 ^ Z.of_nat fuel).
    { rewrite Nat2Z.inj_succ, Z.pow_succ_r in Hn by lia. div_solve. }
    destruct fuel as [|fuel]; [cbn in Hq; div_solve|]. destruct (IH (n / 16)) as (E & Hh & _); [lia|done|].
    destruct (hexChar_val (n mod 16)) as [E1 E2]; [div_solve|]. rewrite digitsVal_snoc, E, E1.
    destruct (Z.ltb_spec (n mod 16) 16); [|div_solve]. split; [f_equal; div_solve|]. split; [|by destruct (formatHex _ _)].
    apply Forall_app. split; [done|]. by constructor.
Qed.

Lemma hex_not (c d : ascii) : isHexChar c = true -> isHexChar d = false -> c <> d.
Proof. intros H1 H2 ->. congruence. Qed.

Lemma hex_visible c : isHexChar c = true -> visibleChar c.
Proof.
  intros H. assert (Hx : isHexChar c = true -> (33 <=? octet c) && (octet c <=? 126) = true)
    by (destruct c as [[] [] [] [] [] [] [] []]; vm_compute; intros ?; (reflexivity || discriminate)).
  apply Hx in H. rewrite andb_true_iff, !Z.leb_le in H. exact H.
Qed.

Lemma ParseInt_hex l n : l <> [] -> Forall (fun c => isHexChar c = true) l -> digitsVal 16 0 l = Some n -> n < 2 ^ 63 ->
  ParseInt 16 (of_chars l) = Some n.
Proof.
  intros Hne Hh E Hn. unfold ParseInt. rewrite chars_of. destruct l as [|c l]; [done|]. apply Forall_cons in Hh as [Hc _].
  assert (Hlt : (n <? 2 ^ 63) = true) by (by apply Z.ltb_lt).
  destruct c as [[] [] [] [] [] [] [] []]; try discriminate Hc; cbv beta zeta iota; rewrite E; by rewrite Hlt.
Qed.

Lemma TrimSpace_hex l : l <> [] -> Forall (fun c => isHexChar c = true) l -> TrimSpace (of_chars l) = of_chars l.
Proof.
  intros Hne Hh. destruct l as [|a l]; [done|]. destruct (exists_last (l := a :: l)) as (k & b & Ek); [done|].
  apply (TrimSpace_id _ a l b k); rewrite ?chars_of; try done.
  - apply Forall_cons in Hh as [Ha _]. by apply hex_visible.
  - rewrite Ek in Hh. apply Forall_app in Hh as [_ Hb]. apply Forall_cons in Hb as [Hb _]. by apply hex_visible.
Qed.

Lemma header_round size sig : 0 <= size <= maxChunkSize -> clean sig ->
  parseChunkHeader (chunkHeader size sig) = Ok (size, sig).
Proof.
  intros Hs Hsig. destruct (formatHex_spec 16 size) as (E & Hh & Hne); [lia|unfold maxChunkSize in Hs; lia|].
  unfold parseChunkHeader, chunkHeader. change ";" with (String.String ";"%char ""). rewrite cut_first.
  2:{ rewrite chars_of. intros Hin. rewrite Forall_forall in Hh. by apply Hh in Hin. }
  rewrite TrimSpace_hex, (ParseInt_hex _ size) by (done || (unfold maxChunkSize in Hs; lia)).
  destruct (Z.ltb_spec size 0); [lia|]. destruct (Z.ltb_spec maxChunkSize size); [lia|].
  destruct (trim_part "chunk-signature=" sig) as [-> _]; [by apply visible_name|by exists "", sig|].
  by rewrite (proj2 (CutPrefix_spec _ _ sig) eq_refl).
Qed.

Lemma TrimRightCRLF_end l b : isCRLF b = false -> TrimRightCRLF ((l ++ [b]) ++ [ascii_of 13; ascii_of 10]) = l ++ [b].
Proof.
  intros Hb. unfold TrimRightCRLF. rewrite !reverse_app.
  change (reverse [ascii_of 13; ascii_of 10] ++ reverse [b] ++ reverse l) with (ascii_of 10 :: ascii_of 13 :: b :: reverse l).
  assert (E : dropCRLF (ascii_of 10 :: ascii_of 13 :: b :: reverse l) = b :: reverse l).
  { cbn [dropCRLF]. change (isCRLF (ascii_of 10)) with true. change (isCRLF (ascii_of 13)) with true. by rewrite Hb. }
  by rewrite E, reverse_cons, reverse_involutive.
Qed.

Lemma clean_end sig : clean sig -> exists k b, chars sig = k ++ [b] /\ isCRLF b = false.
Proof.
  intros (k & b & E & Hb)%clean_last. exists k, b. split; [done|]. unfold isCRLF. apply bool_decide_eq_false.
  unfold visibleChar in Hb. intros [->| ->]; vm_compute in Hb; destruct Hb as [Hb _]; by destruct Hb.
Qed.

Lemma one_line_bytes s : one_line s -> lf ∉ sbytes s.
Proof.
  unfold one_line, sbytes. intros Hn (c & E & Hc)%list_elem_of_fmap. apply Hn. replace nl with c; [done|].
  apply (f_equal byte_Z) in E. unfold lf in E. rewrite !byte_Z_of, !Z.mod_small in E by (apply octet_range || lia).
  unfold nl. rewrite E. symmetry. apply ascii_octet.
Qed.

Lemma clean_line s : clean s -> one_line s.
Proof.
  intros [_ Hf] Hin. rewrite Forall_forall in Hf. destruct (Hf nl Hin) as [[Hv _] _]. by vm_compute in Hv.
Qed.

(** One encoded chunk is one read. *)
Lemma readChunk_encoded c data rest : len data <= maxChunkSize ->
  crBody c = encodeChunk data (chunkSignature c data) ++ rest ->
  readChunk c = Ok (data, MkCR rest (crEnd c) (crKey c) (crDate c) (crScope c) (chunkSignature c data)).
Proof.
  intros Hd Hb. pose proof (len_nonneg data). set (sig := chunkSignature c data) in *. unfold readChunk. rewrite Hb. unfold encodeChunk.
  assert (Hsig : clean sig) by (apply hmacHex_clean).
  assert (Hl : one_line (chunkHeader (len data) sig)).
  { unfold chunkHeader. repeat apply one_line_app; [|no_char|no_char|by apply clean_line].
    intros Hin. rewrite chars_of in Hin. destruct (formatHex_spec 16 (len data)) as (_ & Hh & _); [lia|unfold maxChunkSize in Hd; lia|].
    rewrite Forall_forall in Hh. by apply Hh in Hin. }
  replace ((sbytes (chunkHeader (len data) sig) ++ cr :: lf :: data ++ [cr; lf]) ++ rest)
    with ((sbytes (chunkHeader (len data) sig) ++ [cr]) ++ lf :: (data ++ cr :: lf :: rest)) by (by rewrite <- !app_assoc; cbn; rewrite <- app_assoc).
  rewrite readLine_line by (rewrite elem_of_app, list_elem_of_singleton; intros [?|E]; [by apply one_line_bytes in Hl|by vm_compute in E]).
  set (line := (sbytes _ ++ [cr]) ++ [lf]).
  assert (Hline : of_chars (TrimRightCRLF (chars (bstring line))) = chunkHeader (len data) sig).
  { destruct (clean_end sig Hsig) as (k & b & Ek & Hbk).
    assert (Hc : chars (bstring line) = chars (chunkHeader (len data) sig) ++ [ascii_of 13; ascii_of 10]).
    { unfold line, bstring. rewrite chars_of, !fmap_app, <- app_assoc. f_equal.
      pose proof (bstring_of (chunkHeader (len data) sig)) as Hx. apply (f_equal chars) in Hx. unfold bstring in Hx. by rewrite chars_of in Hx. }
    rewrite Hc. unfold chunkHeader. rewrite !chars_app, Ek, !app_assoc, TrimRightCRLF_end by done.
    apply chars_inj. by rewrite chars_of, !chars_app, Ek, !app_assoc. }
  rewrite Hline, header_round by (done || lia). cbn [mbind result_bind]. rewrite len_app.
  pose proof (len_nonneg (cr :: lf :: rest)). destruct (Z.ltb_spec (len data + len (cr :: lf :: rest)) (len data)); [lia|].
  rewrite slice_prefix, <- len_app, slice_suffix by done. cbn [expectCRLF]. rewrite decide_True by done. cbn [mbind result_bind]. cbv zeta.
  by rewrite decide_True.
Qed.

(** ** The stream *)

Definition chunk_ok (c : bytes) : Prop := c <> [] /\ len c <= maxChunkSize.

Lemma decode_encoded key date scope fin cs : Forall chunk_ok cs -> forall prev rest,
  decode (MkCR (encodeStream key date scope prev cs ++ rest) fin key date scope prev) = (cs, None).
Proof.
  unfold encodeStream. induction 1 as [|c cs [Hne Hc] _ IH]; intros prev rest; rewrite decode_step.
  - cbn [app chain zip_with]. rewrite (readChunk_encoded _ [] rest); [|by vm_compute|cbn [crBody]; by rewrite List.concat_cons, app_nil_r].
    by rewrite decide_True.
  - cbn [app chain zip_with]. set (sig := hmacHex key (chunkString date scope prev c)).
    rewrite (readChunk_encoded _ c (concat (zip_with encodeChunk (cs ++ [[]]) (chain key date scope sig (cs ++ [[]]))) ++ rest));
      [|done|cbn [crBody]; by rewrite List.concat_cons, <- app_assoc].
    rewrite decide_False by done. cbn [crEnd crKey crDate crScope]. change (chunkSignature _ c) with sig. by rewrite IH.
Qed.

Lemma inputOf_app r l : (forall b s, (b, s) ∈ r -> s = RdMore) -> inputOf (r ++ l) = (rest ← inputOf l; Ok (drained r ++ rest)).
Proof.
  induction r as [|[b s] r IH]; intros Hr; cbn [app]; [by destruct (inputOf l)|]. rewrite (Hr b s) by (by left).
  cbn [inputOf drained]. rewrite IH by (intros ???; eapply Hr; by right). destruct (inputOf l); cbn; [by rewrite app_assoc|done].
Qed.

Lemma bytesReader_more fuel d b s : (b, s) ∈ bytesReader fuel d -> s = RdMore.
Proof.
  revert d; induction fuel as [|fuel IH]; intros d; cbn; [by intros ?%elem_of_nil|]. destruct d; [by intros ?%elem_of_nil|].
  intros [[= _ ->]|H]%elem_of_cons; [done|by eapply IH].
Qed.

(** What the gateway reads from a decoder. *)
Lemma chunkReads_input c ds fin : decode c = (ds, fin) ->
  inputOf (chunkReads c) = match fin with None => Ok (concat ds) | Some e => Err e end.
Proof.
  intros E. unfold chunkReads. rewrite E. clear E. induction ds as [|d ds IH]; [by destruct fin|]. cbn [foldr].
  rewrite inputOf_app, IH by apply bytesReader_more. destruct fin; [done|]. cbn [mbind result_bind]. rewrite List.concat_cons.
  do 2 f_equal. apply drained_input. by apply bytesReader_input.
Qed.

(** The chunked encoding round-trips.  A body that begins with what a
    client encodes for a list of non-empty chunks of at most 16 MiB, under the
    request's key, date, scope and seed signature, is decoded to those chunks: the
    gateway reads their concatenation, whatever follows the final chunk. *)
Theorem stream_roundtrip body key date scope seed cs rest :
  Forall chunk_ok cs -> drained body = encodeStream key date scope seed cs ++ rest ->
  inputOf (chunkReads (newChunkReader body key date scope seed)) = Ok (concat cs).
Proof.
  intros Hcs Hb. apply (chunkReads_input _ cs None). unfold newChunkReader. rewrite Hb. by apply decode_encoded.
Qed.

(** ** Authenticity *)

(** [s] stands somewhere in the body. *)
Definition occurs (s : string) (body : bytes) : Prop := exists x y, body = x ++ sbytes s ++ y.

Lemma occurs_app s x b y : occurs s b -> occurs s (x ++ b ++ y).
Proof. intros (u & v & ->). exists (x ++ u), (v ++ y). by rewrite !app_assoc. Qed.

Lemma trimLeft_suffix fuel l : exists p, l = p ++ trimLeft fuel l.
Proof.
  revert l; induction fuel as [|fuel IH]; intros l; [by exists []|]. cbn. destruct (leadingSpace l) as [sp|]; [|by exists []].
  destruct (IH (drop (length sp) l)) as [p E]. exists (take (length sp) l ++ p). by rewrite <- app_assoc, <- E, take_drop.
Qed.

Lemma trimRight_prefix fuel l : exists q, l = trimRight fuel l ++ q.
Proof.
  revert l; induction fuel as [|fuel IH]; intros l; [exists []; by rewrite app_nil_r|]. cbn.
  destruct (trailingSpace l) as [sp|]; [|exists []; by rewrite app_nil_r].
  destruct (IH (take (length l - length sp) l)) as [q E]. exists (q ++ drop (length l - length sp) l).
  by rewrite app_assoc, <- E, take_drop.
Qed.

Lemma TrimSpace_part s : exists p q, s = p +:+ TrimSpace s +:+ q.
Proof.
  unfold TrimSpace. destruct (trimLeft_suffix (String.length s) (chars s)) as [p Ep]. set (l := trimLeft _ _) in *.
  destruct (trimRight_prefix (length l) l) as [q Eq]. exists (of_chars p), (of_chars q). apply chars_inj.
  rewrite !chars_app, !chars_of. by rewrite <- Eq, <- Ep.
Qed.

Lemma TrimRightCRLF_part l : exists q, l = TrimRightCRLF l ++ q.
Proof.
  unfold TrimRightCRLF. assert (H : exists p, reverse l = p ++ dropCRLF (reverse l)).
  { induction (reverse l) as [|c k [p IH]]; [by exists []|]. cbn. destruct (isCRLF c); [|by exists []]. exists (c :: p). cbn. by rewrite <- IH. }
  destruct H as [p H]. exists (reverse p). apply (f_equal reverse) in H. by rewrite reverse_involutive, reverse_app in H.
Qed.

(** An accepted signature stands in the body. *)
Lemma accepted_occurs c data c' : readChunk c = Ok (data, c') -> occurs (chunkSignature c data) (crBody c).
Proof.
  intros (line & -> & _ & Hp & _)%readChunk_inv. apply (occurs_app _ [] line).
  destruct (TrimRightCRLF_part (chars (bstring line))) as [q Eq]. set (h := TrimRightCRLF _) in *.
  unfold parseChunkHeader in Hp. destruct (Cut (of_chars h) ";") as [[a b]|] eqn:Ec; [|done]. apply cut_spec in Ec.
  destruct (ParseInt _ _) as [z|]; [|done]. destruct (z <? 0); [done|]. destruct (maxChunkSize <? z); [done|].
  destruct (CutPrefix _ _) as [sig|] eqn:Es; [|done]. injection Hp as _ <-. apply CutPrefix_spec in Es.
  destruct (TrimSpace_part b) as (p & t & Eb). rewrite Es in Eb.
  assert (El : bstring line = ((a +:+ ";" +:+ p +:+ "chunk-signature=") +:+ sig) +:+ (t +:+ of_chars q)).
  { apply chars_inj. rewrite Eq. apply (f_equal chars) in Ec. rewrite chars_of in Ec. rewrite Ec, Eb. rewrite !chars_app, chars_of, <- !app_assoc. done. }
  exists (sbytes (a +:+ ";" +:+ p +:+ "chunk-signature=")), (sbytes (t +:+ of_chars q)).
  rewrite <- (sbytes_of line), El, !sbytes_app. by rewrite <- !app_assoc.
Qed.

(** The chunks whose signatures were accepted: the final empty one too. *)
Definition accepted (ds : list bytes) (fin : option err) : list bytes := ds ++ match fin with None => [[]] | Some _ => [] end.

Lemma decode_accepted body fin0 key date scope prev ds fin :
  decode (MkCR body fin0 key date scope prev) = (ds, fin) ->
  Forall (fun s => occurs s body) (chain key date scope prev (accepted ds fin)) /\ Forall (fun d => d <> []) ds.
Proof.
  revert body prev fin. induction ds as [|d ds IH]; intros body prev fin; rewrite decode_step;
    (destruct (readChunk _) as [[data c']|e] eqn:E; [|intros [= <-]; done || (intros [=]; done)]);
    pose proof (accepted_occurs _ _ _ E) as Ho; pose proof (readChunk_inv _ _ _ E) as (line & Eb & _ & _ & Ec);
    cbn [crBody crEnd crKey crDate crScope] in *; case_decide as Hd.
  - intros [= <-]. subst data. cbn. split; [|done]. by constructor.
  - by destruct (decode c').
  - done.
  - destruct (decode c') as [ds' fin'] eqn:Ed. intros [= <- <- <-]. rewrite Ec in Ed. apply IH in Ed as [Ho' Hn].
    split; [|by constructor]. cbn [accepted app chain]. constructor; [exact Ho|]. eapply Forall_impl; [exact Ho'|].
    intros s Hs. cbn. rewrite Eb. replace (line ++ data ++ cr :: lf :: crBody c') with ((line ++ data ++ [cr; lf]) ++ crBody c' ++ [])
      by (by rewrite app_nil_r, <- !app_assoc). by apply occurs_app.
Qed.

Lemma chain_lookup key date scope prev cs j s : chain key date scope prev cs !! j = Some s ->
  exists p c, (prev :: chain key date scope prev cs) !! j = Some p /\ cs !! j = Some c /\ s = hmacHex key (chunkString date scope p c).
Proof.
  revert prev j; induction cs as [|c cs IH]; intros prev [|j]; cbn [chain lookup list_lookup]; try done.
  - intros [= <-]. by exists prev, c.
  - intros Hj. apply IH in Hj as (p & c' & Hp & Hc & ->). by exists p, c'.
Qed.

Lemma chunkString_inj date scope p1 d1 p2 d2 : chunkString date scope p1 d1 = chunkString date scope p2 d2 ->
  p1 = p2 /\ sha256 d1 = sha256 d2.
Proof.
  unfold chunkString, hexSHA256. cbn [Join]. rewrite !sha256_hex_eq. intros E. do 6 (apply (inj _) in E).
  rewrite !(str_app_assoc p1), !(str_app_assoc p2), !(str_app_assoc (_ +:+ newline)) in E.
  apply last_line in E as [E Eh]; [|apply one_line_hex..]. rewrite <- !str_app_assoc in E.
  apply last_line in E as [E _]; [|no_char..]. split; [done|by apply hex_inj].
Qed.

(** Two strings of chunks, one accepted and one the client's, that collide. *)
Definition stream_collision (key : bytes) (date scope seed : string) (vs cs : list bytes) : Prop :=
  exists i j p v q c, vs !! i = Some v /\ cs !! j = Some c /\
    (seed :: chain key date scope seed vs) !! i = Some p /\ (seed :: chain key date scope seed cs) !! j = Some q /\
    (hmac_collision key (chunkString date scope p v) key (chunkString date scope q c) \/
     (v <> c /\ sha256 v = sha256 c)).

Lemma chain_take key date scope prev cs k : take k (chain key date scope prev cs) = chain key date scope prev (take k cs).
Proof. revert prev k; induction cs as [|c cs IH]; intros prev [|k]; cbn [chain take]; try done. by rewrite IH. Qed.

Lemma chain_length key date scope prev cs : length (chain key date scope prev cs) = length cs.
Proof. revert prev; induction cs as [|c cs IH]; intros prev; cbn [chain length]; [done|]. by rewrite IH. Qed.

(** Chains that agree on [k] chunks agree on the [k]-th signature to chain from. *)
Lemma chain_agree key date scope seed vs full k : take k vs = take k full ->
  take (S k) (seed :: chain key date scope seed vs) = take (S k) (seed :: chain key date scope seed full).
Proof. intros E. cbn [take]. by rewrite !chain_take, E. Qed.

(** Following the client's chain: when the first [k] accepted chunks are the
    client's, so is the next one. *)
Lemma follow_step key date scope seed full vs k v : NoDup (seed :: chain key date scope seed full) ->
  Forall (fun s => s ∈ chain key date scope seed full) (chain key date scope seed vs) ->
  take k vs = take k full -> vs !! k = Some v ->
  full !! k = Some v \/ stream_collision key date scope seed vs full.
Proof.
  intros Hnd Hin Hk Hv. destruct (lookup_lt_is_Some_2 (chain key date scope seed vs) k) as [s Hs].
  { rewrite chain_length. by eapply lookup_lt_Some. }
  rewrite Forall_lookup in Hin. destruct (list_elem_of_lookup_1 _ _ (Hin k s Hs)) as [j Hj].
  apply chain_lookup in Hs as (p & v' & Hp & Hv' & Es). assert (v' = v) as -> by congruence.
  apply chain_lookup in Hj as (q & c & Hq & Hc & Es').
  assert (Hcol : forall P, (P -> full !! k = Some v) -> (~ P -> stream_collision key date scope seed vs full) -> Decision P ->
    full !! k = Some v \/ stream_collision key date scope seed vs full).
  { intros P H1 H2 Hd. destruct (decide P); [left; auto|right; auto]. }
  apply (Hcol (chunkString date scope p v = chunkString date scope q c /\ v = c)); [| |apply _].
  - intros [[-> _]%chunkString_inj ->]. replace k with j; [done|]. eapply (NoDup_lookup _ _ _ q Hnd Hq).
    rewrite <- (lookup_take_lt _ (S k)) by lia. rewrite <- (chain_agree _ _ _ _ vs) by done. by rewrite lookup_take_lt by lia.
  - intros Hne. exists k, j, p, v, q, c. do 4 (split; [done|]). destruct (decide (chunkString date scope p v = chunkString date scope q c)) as [E|E].
    + right. apply chunkString_inj in E as H. destruct H as [_ H]. split; [|done]. intros ->. by apply Hne.
    + left. split; [congruence|]. apply hex_inj. exact (eq_trans (eq_sym Es) Es').
Qed.

Lemma follow_chain key date scope seed full vs : NoDup (seed :: chain key date scope seed full) ->
  Forall (fun s => s ∈ chain key date scope seed full) (chain key date scope seed vs) ->
  vs `prefix_of` full \/ stream_collision key date scope seed vs full.
Proof.
  intros Hnd Hin. assert (H : forall k, (k <= length vs)%nat -> take k vs = take k full \/ stream_collision key date scope seed vs full).
  { induction k as [|k IH]; intros Hk; [by left|]. destruct IH as [E|?]; [lia| |by right].
    destruct (lookup_lt_is_Some_2 vs k) as [v Hv]; [lia|].
    destruct (follow_step key date scope seed full vs k v) as [Hf|?]; try done; [|by right]. left.
    by rewrite (take_S_r _ _ v Hv), (take_S_r _ _ v Hf), E. }
  destruct (H (length vs)) as [E|?]; [lia| |by right]. left. rewrite firstn_all in E. exists (drop (length vs) full).
  rewrite E at 1. by rewrite take_drop.
Qed.

(** C20: chunk signatures protect the stream.  Let a client have signed a stream
    of non-empty chunks under the request's key and seed signature, its
    signatures all different, and let a body hold no MAC under that key but
    the client's.  The chunks decoded from the body are the client's first ones in
    their order, and all of them when decoding ends without an error; or else an
    accepted chunk and one of the client's exhibit a collision of HMAC-SHA-256 or
    of SHA-256. *)
Theorem stream_authentic body key date scope seed cs ds fin :
  Forall (fun c => c <> []) cs -> NoDup (seed :: chain key date scope seed (cs ++ [[]])) ->
  (forall m, occurs (hmacHex key m) (drained body) -> hmacHex key m ∈ chain key date scope seed (cs ++ [[]])) ->
  decode (newChunkReader body key date scope seed) = (ds, fin) ->
  (ds `prefix_of` cs /\ (fin = None -> ds = cs)) \/
  stream_collision key date scope seed (accepted ds fin) (cs ++ [[]]).
Proof.
  intros Hcs Hnd Hmac Hd. apply decode_accepted in Hd as [Ho Hne].
  destruct (follow_chain key date scope seed (cs ++ [[]]) (accepted ds fin)) as [Hp|?]; [done| |left|by right].
  { apply Forall_lookup. intros i s Hs. rewrite Forall_lookup in Ho. specialize (Ho i s Hs).
    apply chain_lookup in Hs as (p & c & _ & _ & ->). by apply Hmac. }
  assert (Hlast : forall l, Forall (fun d => d <> []) l -> l `prefix_of` cs ++ [[]] -> l `prefix_of` cs).
  { intros l Hl [k E]. destruct k as [|x k _] using rev_ind.
    - rewrite app_nil_r in E. rewrite <- E in Hl. apply Forall_app in Hl as [_ Hl]. by apply Forall_cons in Hl as [? _].
    - rewrite app_assoc in E. apply app_inj_tail in E as [-> _]. by exists k. }
  unfold accepted in Hp. destruct fin as [e|].
  - rewrite app_nil_r in Hp. split; [by apply Hlast|done].
  - assert (ds = cs) as ->; [|by split].
    destruct Hp as [k E]. destruct k as [|x k _] using rev_ind.
    + rewrite app_nil_r in E. by apply app_inj_tail in E as [? _].
    + rewrite app_assoc in E. apply app_inj_tail in E as [E _]. rewrite E in Hcs.
      rewrite <- app_assoc in Hcs. apply Forall_app in Hcs as [_ Hcs]. by apply Forall_cons in Hcs as [? _].
Qed.
