(* ===== verification/S3Objects.v ===== *)
(** Objects over S3 (blobgw-s3/s3/handler.go, metadata.go, range.go, keys.go and
    the error documents of errors.go).

    PutObject, GetObject, HeadObject and DeleteObject over the gateway: the
    metadata an object carries for S3, byte ranges, response headers and error
    mapping.  A response is a status, headers and a body; documents are kept as
    values, before XML.  The clocks, the buffer sizes the response writer offers
    and the framing cache are in the environment [s3env]. *)

From S2P Require Import Prelude GoStrings Decimal Sha256 PackFormat BlobStore Manifest SnapStore DedupIndex ChunkedRead ChunkedWrite StreamCopy GoText RefStore Gateway S3Crypto S3Auth S3Stream.
From Stdlib Require Import Ascii.

(** ** Dates *)

(** The civil date of a day number, counted from 1970-01-01. *)
Definition civil (days : Z) : Z * Z * Z :=
  let z := days + 719468 in
  let era := z / 146097 in
  let doe := z mod 146097 in
  let yoe := (doe - doe / 1460 + doe / 36524 - doe / 146096) / 365 in
  let doy := doe - (365 * yoe + yoe / 4 - yoe / 100) in
  let mp := (5 * doy + 2) / 153 in
  let m := if mp <? 10 then mp + 3 else mp - 9 in
  (yoe + era * 400 + (if m <=? 2 then 1 else 0), m, doy - (153 * mp + 2) / 5 + 1).

Definition monthName (m : Z) : string :=
  default "" (["Jan"; "Feb"; "Mar"; "Apr"; "May"; "Jun"; "Jul"; "Aug"; "Sep"; "Oct"; "Nov"; "Dec"] !! Z.to_nat (m - 1)).
Definition dayName (d : Z) : string := default "" (["Sun"; "Mon"; "Tue"; "Wed"; "Thu"; "Fri"; "Sat"] !! Z.to_nat d).

Definition secondOf (t : Z) : Z := t / 1000000000.
Definition clockText (t : Z) : string :=
  let s := secondOf t mod 86400 in
  digits 2 (s / 3600) +:+ ":" +:+ digits 2 (s / 60 mod 60) +:+ ":" +:+ digits 2 (s mod 60).

(** [Format(http.TimeFormat)] and the ISO 8601 form of listings, of an instant
    in nanoseconds. *)
Definition httpTime (t : Z) : string :=
  let days := secondOf t / 86400 in
  let '(y, m, d) := civil days in
  dayName ((days + 4) mod 7) +:+ ", " +:+ digits 2 d +:+ " " +:+ monthName m +:+ " " +:+ digits 4 y +:+ " " +:+ clockText t +:+ " GMT".

Definition isoTime (t : Z) : string :=
  let '(y, m, d) := civil (secondOf t / 86400) in
  digits 4 y +:+ "-" +:+ digits 2 m +:+ "-" +:+ digits 2 d +:+ "T" +:+ clockText t +:+ "." +:+ digits 3 (t / 1000000 mod 1000) +:+ "Z".

Example date_texts :
  httpTime (784111777 * 1000000000) = "Sun, 06 Nov 1994 08:49:37 GMT" /\
  isoTime (1709251199 * 1000000000 + 250999999) = "2024-02-29T23:59:59.250Z" /\ isoTime 0 = "1970-01-01T00:00:00.000Z".
Proof. vm_compute. auto. Qed.

(** ** Metadata *)

Definition etagMetaKey : string := "s3.etag".
Definition userMetaPrefix : string := "s3.meta.".

Definition buildObjectMeta (etag : string) (userMeta : gmap string string) : gmap string string :=
  list_to_map ((fun kv => (userMetaPrefix +:+ kv.1, kv.2)) <$> map_to_list userMeta) ∪
  (if decide (etag = "") then ∅ else {[etagMetaKey := etag]}).

Definition etagFromMeta (meta : gmap string string) : string := default "" (meta !! etagMetaKey).

Definition userMetaFromMeta (meta : gmap string string) : gmap string string :=
  list_to_map (omap (fun kv => (fun k => (k, kv.2)) <$> CutPrefix kv.1 userMetaPrefix) (map_to_list meta)).

(** The x-amz-meta- headers of a request, by their lower-case suffixes. *)
Definition metaHeader (kv : string * list string) : option (string * string) :=
  match CutPrefix (ToLower kv.1) "x-amz-meta-", kv.2 with
  | Some suffix, v :: _ => Some (suffix, v)
  | _, _ => None
  end.

Definition userMetadata (hdr : gmap string (list string)) : gmap string string := list_to_map (omap metaHeader (map_to_list hdr)).

(** ** Ranges *)

Record byteRange := MkRange { rgStart : Z; rgEnd : Z }.
Definition noRange : byteRange := MkRange 0 0.
Definition rangeLength (r : byteRange) : Z := rgEnd r - rgStart r + 1.

(** The range, whether there is one, and whether it can be satisfied. *)
Definition parseRange (header : string) (size : Z) : byteRange * bool * bool :=
  match CutPrefix (TrimSpace header) "bytes=" with
  | None => (noRange, false, true)
  | Some spec =>
      if Contains spec "," then (noRange, false, true)
      else
        match Cut spec "-" with
        | None => (noRange, false, true)
        | Some (startStr, endStr) =>
            if decide (startStr = "" /\ endStr = "") then (noRange, false, true)
            else if decide (startStr = "") then
              match ParseInt 10 endStr with
              | None => (noRange, false, true)
              | Some n =>
                  if n <? 0 then (noRange, false, true)
                  else if n =? 0 then (noRange, true, false)
                  else
                    let n := if size <=? n then size else n in
                    if size =? 0 then (noRange, true, false) else (MkRange (size - n) (size - 1), true, true)
              end
            else if decide (endStr = "") then
              match ParseInt 10 startStr with
              | None => (noRange, false, true)
              | Some start =>
                  if start <? 0 then (noRange, false, true)
                  else if size <=? start then (noRange, true, false)
                  else (MkRange start (size - 1), true, true)
              end
            else
              match ParseInt 10 startStr, ParseInt 10 endStr with
              | Some start, Some end_ =>
                  if (start <? 0) || (end_ <? 0) || (end_ <? start) then (noRange, false, true)
                  else if size <=? start then (noRange, true, false)
                  else (MkRange start (if size <=? end_ then size - 1 else end_), true, true)
              | _, _ => (noRange, false, true)
              end
        end
  end.

(** ** Keys in listings *)

(** The bytes [url.PathEscape] leaves alone. *)
Definition pathSafe (c : ascii) : bool := unreserved c || bool_decide (c ∈ chars "$&+=:@").

Definition PathEscape (s : string) : string :=
  of_chars (mjoin ((fun c => if pathSafe c then [c] else ["%"%char; upperHex (octet c / 16); upperHex (octet c mod 16)]) <$> chars s)).

Definition encodeKey (key : string) (encodeURL : bool) : string := if encodeURL then PathEscape key else key.

Definition encodeContinuationToken (lastKey : string) : string := of_chars (EncodeToString StdEncoding (chars lastKey)).

Definition decodeContinuationToken (tok : string) : option string := of_chars <$> DecodeString StdEncoding (chars tok).

(** ** Responses *)

Definition header := gmap string string.

(** [Header.Set]. *)
Definition setHeader (k v : string) (h : header) : header := <[CanonicalHeaderKey k := v]> h.

Definition quoted (s : string) : string := sep1 (ascii_of 34) +:+ s +:+ sep1 (ascii_of 34).

Record listEntry := MkEntry { leKey : string; leModified : string; leETag : string; leSize : Z; leClass : string }.

Record listBucketResult := MkList {
  lrName : string; lrPrefix : string; lrDelimiter : string; lrMaxKeys : Z; lrEncoding : string; lrKeyCount : Z; lrTruncated : bool;
  lrToken : string; lrNextToken : string; lrStartAfter : string; lrMarker : string; lrNextMarker : string;
  lrContents : list listEntry; lrPrefixes : list string }.

Inductive respBody :=
| NoBody
| Data (b : bytes)
| ErrorDoc (code message resource : string)
| ListDoc (d : listBucketResult)
| BucketsDoc (owner : string) (buckets : list (string * string))
| InitiateDoc (bucket key uploadID : string)
| CompleteDoc (location bucket key etag : string)
| PartsDoc (bucket key uploadID : string) (maxParts : Z) (parts : list (Z * string * Z))
| UploadsDoc (bucket : string) (maxUploads : Z).

Record response := MkResp { rsStatus : Z; rsHeader : header; rsBody : respBody }.

Definition errMessage (code : string) : string :=
  default code ((list_to_map [
    ("NoSuchKey", "The specified key does not exist.");
    ("NoSuchBucket", "The specified bucket does not exist.");
    ("BucketNotEmpty", "The bucket you tried to delete is not empty.");
    ("BucketAlreadyOwnedByYou", "Your previous request to create the named bucket succeeded and you already own it.");
    ("InvalidRange", "The requested range is not satisfiable.");
    ("NoSuchUpload", "The specified multipart upload does not exist. The upload ID might be invalid, or the multipart upload might have been aborted or completed.");
    ("InvalidPart", "One or more of the specified parts could not be found. The part might not have been uploaded, or the specified ETag might not have matched the part's ETag.");
    ("MalformedXML", "The XML you provided was not well-formed or did not validate against our published schema.");
    ("AccessDenied", "Access Denied");
    ("SignatureDoesNotMatch", "The request signature we calculated does not match the signature you provided. Check your key and signing method.");
    ("InvalidAccessKeyId", "The AWS Access Key Id you provided does not exist in our records.");
    ("EntityTooLarge", "Your proposed upload exceeds the maximum allowed size.");
    ("BadDigest", "The Content-MD5 or checksum value you specified did not match what the server received.");
    ("XAmzContentSHA256Mismatch", "The provided 'x-amz-content-sha256' header does not match what was computed.");
    ("RequestTimeTooSkewed", "The difference between the request time and the current time is too large.");
    ("MissingSecurityHeader", "Your request was missing a required header.");
    ("AuthorizationHeaderMalformed", "The authorization header you provided is invalid.");
    ("InternalError", "We encountered an internal error. Please try again.")] : gmap string string) !! code).

(** [writeError] on the headers set so far; anything but an S3 error is an
    internal one. *)
Definition writeError (h : header) (resource : string) (e : err) : response :=
  let '(code, status) := match e with ApiError code status => (code, status) | _ => ("InternalError", 500) end in
  MkResp status (setHeader "Content-Type" "application/xml" h) (ErrorDoc code (errMessage code) resource).

Definition writeXML (status : Z) (d : respBody) : response :=
  MkResp status (setHeader "Content-Type" "application/xml" ∅) d.

Definition mapGatewayErr (e : err) : err :=
  match e with
  | ApiError _ _ => e
  | _ => match Classify e with
         | KindNotFound => errNoSuchKey
         | KindInvalidRef => errInvalidArgument
         | _ => errInternal
         end
  end.

Definition writeObjectHeaders (info : ObjectInfo) : header :=
  let ct := if decide (ContentType info = "") then "application/octet-stream" else ContentType info in
  let h := setHeader "Last-Modified" (httpTime (oCreated info)) (setHeader "Accept-Ranges" "bytes" (setHeader "Content-Type" ct ∅)) in
  let etag := etagFromMeta (UserMeta info) in
  let h := if decide (etag = "") then h else setHeader "ETag" (quoted etag) h in
  foldl (fun h kv => setHeader ("x-amz-meta-" +:+ kv.1) kv.2 h) h (map_to_list (userMetaFromMeta (UserMeta info))).

(** ** The handlers *)

(** The gateway's clock, the room of each read the response writer makes and
    the framings known. *)
Record s3env := MkEnv { eNow : Z; eSizes : nat -> nat; eFramings : gmap string packFraming }.

Section Objects.
  Context {Clib : CodecLib} {Sto : Storage} {U : SnapshotStore} {D : DedupStore} {Sp : Splitter} {J : ManifestCodec}
          {T : TimeText} {R : RefStore} {G : StagingStore}.

Definition putObject (maxObj : Z) (e : s3env) (g : Gateway) (st : gst) (r : request) (key : string) (cred : Credential) : gst * response :=
  match objectBody maxObj r cred with
  | Err err => (st, writeError ∅ (rPath r) err)
  | Ok body =>
      let ct := headerGet r "Content-Type" in
      let ct := if decide (ct = "") then "application/octet-stream" else ct in
      match gwPut (eNow e) g st key ct body with
      | (st, Err err) => (st, writeError ∅ (rPath r) (mapGatewayErr err))
      | (st, Ok _) =>
          let etag := hex_encode (md5 (drained body)) in
          match SetUserMeta g st key (buildObjectMeta etag (userMetadata (rHeader r))) with
          | (st, Err err) => (st, writeError ∅ (rPath r) (mapGatewayErr err))
          | (st, Ok _) => (st, MkResp 200 (setHeader "ETag" (quoted etag) ∅) NoBody)
          end
      end
  end.

(** The body of a 206: skip to the start, then copy the length. *)
Definition sendRange (s : storage) (rd : chunkStreamReader) (sz : nat -> nat) (rng : byteRange) : bytes :=
  if 0 <? rgStart rng then
    let '(_, rd, ok) := copyN s rd sz (rgStart rng) in
    if ok then (copyN s rd sz (rangeLength rng)).1.1 else []
  else (copyN s rd sz (rangeLength rng)).1.1.

Definition getObject (e : s3env) (g : Gateway) (st : gst) (r : request) (key : string) (withBody : bool) : response :=
  if negb withBody then
    match gwHead g st key with
    | Err err => writeError ∅ (rPath r) (mapGatewayErr err)
    | Ok info => MkResp 200 (setHeader "Content-Length" (FormatInt (oSize info)) (writeObjectHeaders info)) NoBody
    end
  else
    match gwGet (eFramings e) g st key with
    | Err err => writeError ∅ (rPath r) (mapGatewayErr err)
    | Ok (rd, info) =>
        let '(rng, ranged, satisfiable) := parseRange (headerGet r "Range") (oSize info) in
        if ranged && negb satisfiable then
          writeError (setHeader "Content-Range" ("bytes */" +:+ FormatInt (oSize info)) ∅) (rPath r) errInvalidRange
        else if negb ranged then
          MkResp 200 (setHeader "Content-Length" (FormatInt (oSize info)) (writeObjectHeaders info))
            (Data (copyAll (wBlobs (gsWorld st)) rd (eSizes e)))
        else
          MkResp 206
            (setHeader "Content-Range"
               ("bytes " +:+ FormatInt (rgStart rng) +:+ "-" +:+ FormatInt (rgEnd rng) +:+ "/" +:+ FormatInt (oSize info))
               (setHeader "Content-Length" (FormatInt (rangeLength rng)) (writeObjectHeaders info)))
            (Data (sendRange (wBlobs (gsWorld st)) rd (eSizes e) rng))
    end.

Definition deleteObject (g : Gateway) (st : gst) (r : request) (key : string) : gst * response :=
  match gwDelete g st key with
  | (st, Err err) => (st, writeError ∅ (rPath r) (mapGatewayErr err))
  | (st, Ok _) => (st, MkResp 204 ∅ NoBody)
  end.
End Objects.
