(* ===== verification/S3Range.v ===== *)
(** Byte ranges: what [parseRange] makes of the header (blobgw-s3/s3/range.go).

    [parse_bounds]: a satisfiable range lies within the object.  [parse_from_to],
    [parse_from] and [parse_suffix]: the three forms of the header and their
    clamping, for every number of int64. *)

From S2P Require Import Prelude GoStrings Decimal Sha256 GoText S3Crypto S3Auth S3Stream S3Objects.
From Stdlib Require Import Ascii.

Lemma parse_bounds header size rng ranged : 0 <= size ->
  parseRange header size = (rng, ranged, true) -> ranged = true -> 0 <= rgStart rng <= rgEnd rng /\ rgEnd rng < size.
Proof.
  intros Hz. unfold parseRange. destruct (CutPrefix _ _) as [spec|]; [|by intros [= <- <-]].
  destruct (Contains _ _); [by intros [= <- <-]|]. destruct (Cut _ _) as [[a b]|]; [|by intros [= <- <-]].
  case_decide; [by intros [= <- <-]|]. case_decide; [|case_decide].
  - destruct (ParseInt 10 b) as [n|]; [|by intros [= <- <-]]. destruct (Z.ltb_spec n 0); [by intros [= <- <-]|].
    destruct (Z.eqb_spec n 0); [done|]. cbv zeta. destruct (Z.eqb_spec size 0); [done|].
    destruct (Z.leb_spec size n); intros [= <- <-] _; cbn; lia.
  - destruct (ParseInt 10 a) as [n|]; [|by intros [= <- <-]]. destruct (Z.ltb_spec n 0); [by intros [= <- <-]|].
    destruct (Z.leb_spec size n); [done|]. intros [= <- <-] _. cbn. lia.
  - destruct (ParseInt 10 a) as [n|]; [|by intros [= <- <-]]. destruct (ParseInt 10 b) as [m|]; [|by intros [= <- <-]].
    destruct (Z.ltb_spec n 0); [by intros [= <- <-]|]. destruct (Z.ltb_spec m 0); [by intros [= <- <-]|]. cbn [orb].
    destruct (Z.ltb_spec m n); [by intros [= <- <-]|]. destruct (Z.leb_spec size n); [done|].
    destruct (Z.leb_spec size m); intros [= <- <-] _; cbn; lia.
Qed.

(** ** Numbers *)

Lemma digit_val c : isDigit c = true -> exists d, digitVal c = Some d /\ 0 <= d < 10 /\ d = octet c - 48.
Proof.
  intros Hd. assert (H : isDigit c = true -> bool_decide (digitVal c = Some (octet c - 48)) && (48 <=? octet c) && (octet c <=? 57) = true)
    by (destruct c as [[] [] [] [] [] [] [] []]; vm_compute; intros ?; (reflexivity || discriminate)).
  apply H in Hd. rewrite !andb_true_iff, !Z.leb_le, bool_decide_eq_true in Hd. exists (octet c - 48). intuition lia.
Qed.

Lemma digitsVal_decimal acc l : Forall (fun c => isDigit c = true) l ->
  digitsVal 10 acc l = Some (foldl (fun n c => 10 * n + (octet c - 48)) acc l).
Proof.
  revert acc; induction l as [|c l IH]; intros acc; [done|]. intros [Hc Hl]%Forall_cons. cbn [digitsVal foldl].
  destruct (digit_val c Hc) as (d & -> & Hd & E). destruct (Z.ltb_spec d 10); [|lia]. rewrite IH by done. by rewrite E.
Qed.

Lemma FormatInt_digits z : 0 <= z < 2 ^ 63 ->
  Forall (fun c => isDigit c = true) (chars (FormatInt z)) /\ FormatInt z <> "" /\ ParseInt 10 (FormatInt z) = Some z.
Proof.
  intros Hz. unfold FormatInt. destruct (Z.ltb_spec z 0); [lia|]. destruct (formatUint_spec 20 z) as (H1 & H2 & H3); [cbn; lia|].
  change (formatUint 20 z) with (FormatUint z) in *. split; [done|].
  assert (H4 : chars (FormatUint z) <> []) by (by apply H3). split; [by intros E; rewrite E in H4|].
  unfold ParseInt. destruct (chars (FormatUint z)) as [|c l] eqn:El; [done|]. rewrite <- El in *.
  pose proof (digitsVal_decimal 0 _ H2) as Hv. change (foldl _ 0 (chars (FormatUint z))) with (decimal (chars (FormatUint z))) in Hv. rewrite H1 in Hv.
  assert (Hlt : (z <? 2 ^ 63) = true) by (apply Z.ltb_lt; lia). rewrite El in *. apply Forall_cons in H2 as [Hc _].
  destruct c as [[] [] [] [] [] [] [] []]; try discriminate Hc; cbv beta zeta iota; rewrite Hv; by rewrite Hlt.
Qed.

(** The characters of a range: digits and the dash. *)
Definition rangeChar (c : ascii) : bool := isDigit c || bool_decide (c = "-"%char).

Lemma range_visible c : rangeChar c = true -> visibleChar c.
Proof.
  intros H. assert (Hx : rangeChar c = true -> (33 <=? octet c) && (octet c <=? 126) = true)
    by (destruct c as [[] [] [] [] [] [] [] []]; vm_compute; intros ?; (reflexivity || discriminate)).
  apply Hx in H. rewrite andb_true_iff, !Z.leb_le in H. exact H.
Qed.

Lemma digit_range l : Forall (fun c => isDigit c = true) l -> Forall (fun c => rangeChar c = true) l.
Proof. intros Hl. eapply Forall_impl; [exact Hl|]. intros c Hc. unfold rangeChar. by rewrite Hc. Qed.

Lemma range_header s : s <> "" -> Forall (fun c => rangeChar c = true) (chars s) ->
  CutPrefix (TrimSpace ("bytes=" +:+ s)) "bytes=" = Some s /\ Contains s "," = false.
Proof.
  intros Hne Hf. split.
  - destruct (chars s) as [|b l _] eqn:E using rev_ind; [by destruct Hne; apply chars_inj; rewrite E|].
    apply Forall_app in Hf as [_ Hb]. apply Forall_cons in Hb as [Hb _].
    rewrite (TrimSpace_id _ "b"%char (chars ("ytes=" +:+ s)) b (chars "bytes=" ++ l)).
    + by apply CutPrefix_spec.
    + done.
    + by rewrite chars_app, E, app_assoc.
    + unfold visibleChar. vm_compute. done.
    + by apply range_visible.
  - unfold Contains. apply bool_decide_eq_false. intros [z Hz]. unfold Index in Hz.
    destruct (indexAt (chars s) (chars ",")) as [i|] eqn:Ei; [|done]. apply indexAt_Some in Ei as (k & Hk & _ & _).
    rewrite Hk in Hf. apply Forall_app in Hf as [_ Hf]. apply Forall_app in Hf as [Hf _]. by apply Forall_cons in Hf as [Hf _].
Qed.

Lemma digits_no_dash l : Forall (fun c => isDigit c = true) l -> "-"%char ∉ l.
Proof. intros Hf Hin. rewrite Forall_forall in Hf. by apply Hf in Hin. Qed.

(** What the header says, by its parts. *)
Lemma parse_parts_of a b :
  Forall (fun c => isDigit c = true) (chars a) -> Forall (fun c => isDigit c = true) (chars b) ->
  CutPrefix (TrimSpace ("bytes=" +:+ a +:+ "-" +:+ b)) "bytes=" = Some (a +:+ "-" +:+ b) /\
  Contains (a +:+ "-" +:+ b) "," = false /\ Cut (a +:+ "-" +:+ b) "-" = Some (a, b).
Proof.
  intros Ha Hb. destruct (range_header (a +:+ "-" +:+ b)) as [H1 H2].
  - by destruct a.
  - rewrite !chars_app. apply Forall_app. split; [by apply digit_range|]. constructor; [done|by apply digit_range].
  - split; [done|]. split; [done|]. apply cut_first. by apply digits_no_dash.
Qed.

(** bytes=a-b *)
Lemma parse_from_to a b size : 0 <= a <= b -> b < 2 ^ 63 ->
  parseRange ("bytes=" +:+ FormatInt a +:+ "-" +:+ FormatInt b) size =
  if size <=? a then (noRange, true, false) else (MkRange a (Z.min b (size - 1)), true, true).
Proof.
  intros Ha Hb. destruct (FormatInt_digits a) as (D1 & N1 & P1); [lia|]. destruct (FormatInt_digits b) as (D2 & N2 & P2); [lia|].
  destruct (parse_parts_of _ _ D1 D2) as (E1 & E2 & E3). unfold parseRange. rewrite E1, E2, E3.
  rewrite !decide_False by naive_solver. rewrite P1, P2.
  destruct (Z.ltb_spec a 0); [lia|]. destruct (Z.ltb_spec b 0); [lia|]. destruct (Z.ltb_spec b a); [lia|]. cbn [orb].
  destruct (Z.leb_spec size a); [done|]. destruct (Z.leb_spec size b); do 3 f_equal; lia.
Qed.

(** bytes=a- *)
Lemma parse_from a size : 0 <= a < 2 ^ 63 ->
  parseRange ("bytes=" +:+ FormatInt a +:+ "-") size =
  if size <=? a then (noRange, true, false) else (MkRange a (size - 1), true, true).
Proof.
  intros Ha. destruct (FormatInt_digits a) as (D1 & N1 & P1); [lia|].
  destruct (parse_parts_of _ "" D1 (List.Forall_nil _)) as (E1 & E2 & E3). unfold parseRange.
  change ("bytes=" +:+ FormatInt a +:+ "-") with ("bytes=" +:+ FormatInt a +:+ "-" +:+ "") in *. rewrite E1, E2, E3.
  rewrite decide_False by naive_solver. rewrite decide_False by done. rewrite decide_True by done. rewrite P1.
  destruct (Z.ltb_spec a 0); [lia|]. done.
Qed.

(** bytes=-n *)
Lemma parse_suffix n size : 0 <= n < 2 ^ 63 -> 0 <= size ->
  parseRange ("bytes=-" +:+ FormatInt n) size =
  if (n =? 0) || (size =? 0) then (noRange, true, false) else (MkRange (Z.max 0 (size - n)) (size - 1), true, true).
Proof.
  intros Hn Hz. destruct (FormatInt_digits n) as (D1 & N1 & P1); [lia|].
  destruct (parse_parts_of "" _ (List.Forall_nil _) D1) as (E1 & E2 & E3). unfold parseRange.
  change ("bytes=-" +:+ FormatInt n) with ("bytes=" +:+ "" +:+ "-" +:+ FormatInt n) in *. rewrite E1, E2, E3.
  rewrite decide_False by naive_solver. rewrite decide_True by done. rewrite P1.
  destruct (Z.ltb_spec n 0); [lia|]. destruct (Z.eqb_spec n 0); [done|]. cbv zeta. cbn [orb]. destruct (Z.eqb_spec size 0); [done|].
  destruct (Z.leb_spec size n); do 3 f_equal; lia.
Qed.
