(* ===== verification/S3List.v ===== *)
(** Listing objects over S3 (blobgw-s3/s3/list.go).

    [listObjects] takes every object of the domain under the prefix, sorts by key
    and cuts one page: after the cursor, without the reserved part objects, keys
    that have the delimiter after the prefix folded into common prefixes, at most
    [maxKeys] rows.  [list_pages_cover]: following continuation tokens without a
    delimiter lists every visible key once, in order.  [list_rollup]: a page that
    is not truncated shows exactly the visible keys, folded by the delimiter.
    Truncated pages with a delimiter are in S3Scenarios. *)

From stdpp Require Import sorting.
From S2P Require Import Prelude GoStrings Decimal Sha256 PackFormat BlobStore Manifest SnapStore DedupIndex ChunkedRead ChunkedWrite StreamCopy GoText RefStore Gateway S3Crypto S3Auth S3Stream S3Objects S3Range.
From Stdlib Require Import Ascii.

Definition maxKeysCap : Z := 1000.

(** The reserved refs of multipart parts. *)
Definition mpuPartPrefix : string := of_chars (ascii_of 0 :: chars "mpu" ++ [ascii_of 0]).

Record listParams := MkParams {
  lpPrefix : string; lpDelimiter : string; lpMaxKeys : Z; lpCursor : string; lpEncode : bool;
  lpToken : string; lpStartAfter : string; lpV2 : bool }.

Definition parseMaxKeys (v : string) : result Z :=
  if decide (v = "") then Ok maxKeysCap
  else match Atoi v with
       | None => Err errInvalidArgument
       | Some n => if n <? 0 then Err errInvalidArgument else Ok (if n <? maxKeysCap then n else maxKeysCap)
       end.

Definition parseListParams (r : request) : result listParams :=
  let isV2 := bool_decide (queryGet r "list-type" = "2") in
  let encode := EqualFold (queryGet r "encoding-type") "url" in
  maxKeys ← parseMaxKeys (queryGet r "max-keys");
  if isV2 then
    let tok := queryGet r "continuation-token" in
    let after := queryGet r "start-after" in
    cursor ← (if decide (tok = "") then Ok after
              else match decodeContinuationToken tok with Some c => Ok c | None => Err errInvalidArgument end);
    Ok (MkParams (queryGet r "prefix") (queryGet r "delimiter") maxKeys cursor encode tok after true)
  else Ok (MkParams (queryGet r "prefix") (queryGet r "delimiter") maxKeys (queryGet r "marker") encode "" "" false).

(** The common prefix a key folds into. *)
Definition rollup (p : listParams) (key : string) : option string :=
  if decide (lpDelimiter p = "") then None
  else
    let rest := TrimPrefix key (lpPrefix p) in
    match Index rest (lpDelimiter p) with
    | None => None
    | Some idx => Some (lpPrefix p +:+ str_slice rest 0 (idx + strlen (lpDelimiter p)))
    end.

(** The rows of a page so far; [laLast] is where the next one continues. *)
Record listAcc := MkAcc { laContents : list listEntry; laPrefixes : list string; laCount : Z; laLast : string }.

Section List.
  Context {Clib : CodecLib} {Sto : Storage} {U : SnapshotStore} {D : DedupStore} {Sp : Splitter} {J : ManifestCodec}
          {T : TimeText} {R : RefStore} {G : StagingStore}.

Definition skipped (p : listParams) (key : string) : bool :=
  HasPrefix key mpuPartPrefix || (negb (bool_decide (lpCursor p = "")) && negb (str_ltb (lpCursor p) key)).

Definition entryETag (g : Gateway) (st : gst) (key : string) : string :=
  match gwHead g st key with
  | Ok head => let e := etagFromMeta (UserMeta head) in if decide (e = "") then "" else quoted e
  | Err _ => ""
  end.

Definition entryOf (g : Gateway) (st : gst) (p : listParams) (info : ObjectInfo) : listEntry :=
  MkEntry (encodeKey (Ref info) (lpEncode p)) (isoTime (oCreated info)) (entryETag g st (Ref info)) (oSize info) "STANDARD".

(** The loop of [buildListResult]; prefixes are kept unencoded to recognise
    them again. *)
Fixpoint walkList (g : Gateway) (st : gst) (p : listParams) (infos : list ObjectInfo) (acc : listAcc) : listAcc * bool :=
  match infos with
  | [] => (acc, false)
  | info :: infos =>
      let key := Ref info in
      if skipped p key then walkList g st p infos acc
      else
        match rollup p key with
        | Some cp =>
            if decide (cp ∈ laPrefixes acc) then walkList g st p infos (MkAcc (laContents acc) (laPrefixes acc) (laCount acc) cp)
            else if lpMaxKeys p <=? laCount acc then (acc, true)
            else walkList g st p infos (MkAcc (laContents acc) (laPrefixes acc ++ [cp]) (laCount acc + 1) cp)
        | None =>
            if lpMaxKeys p <=? laCount acc then (acc, true)
            else walkList g st p infos (MkAcc (laContents acc ++ [entryOf g st p info]) (laPrefixes acc) (laCount acc + 1) key)
        end
  end.

Definition buildListResult (g : Gateway) (st : gst) (bucket : string) (p : listParams) (infos : list ObjectInfo) : listBucketResult :=
  let '(acc, truncated) := walkList g st p infos (MkAcc [] [] 0 "") in
  let enc k := encodeKey k (lpEncode p) in
  MkList bucket (enc (lpPrefix p)) (enc (lpDelimiter p)) (lpMaxKeys p) (if lpEncode p then "url" else "")
    (len (laContents acc) + len (laPrefixes acc)) truncated
    (if lpV2 p then lpToken p else "")
    (if truncated && lpV2 p then encodeContinuationToken (laLast acc) else "")
    (if lpV2 p then enc (lpStartAfter p) else "")
    (if lpV2 p then "" else enc (lpCursor p))
    (if truncated && negb (lpV2 p) then enc (laLast acc) else "")
    (laContents acc) (enc <$> laPrefixes acc).

Definition byRef (a b : ObjectInfo) : bool := str_ltb (Ref a) (Ref b).

Definition listObjects (g : Gateway) (st : gst) (r : request) (bucket : string) : response :=
  match parseListParams r with
  | Err e => writeError ∅ (rPath r) e
  | Ok p =>
      match gwList g st (lpPrefix p) 0 with
      | Err e => writeError ∅ (rPath r) (mapGatewayErr e)
      | Ok infos => writeXML 200 (ListDoc (buildListResult g st bucket p (sortBy byRef infos)))
      end
  end.
End List.

(** ** One page without a delimiter *)

Section Pages.
  Context {Clib : CodecLib} {Sto : Storage} {U : SnapshotStore} {D : DedupStore} {Sp : Splitter} {J : ManifestCodec}
          {T : TimeText} {R : RefStore} {RL : RefStoreLaws R} {G : StagingStore}.

Definition shown (p : listParams) (infos : list ObjectInfo) : list ObjectInfo :=
  filter (fun i => skipped p (Ref i) = false) infos.

Lemma walk_plain g st p infos acc : lpDelimiter p = "" -> laCount acc <= lpMaxKeys p ->
  let page := take (Z.to_nat (lpMaxKeys p - laCount acc)) (shown p infos) in
  walkList g st p infos acc =
  (MkAcc (laContents acc ++ (entryOf g st p <$> page)) (laPrefixes acc) (laCount acc + len page)
     (default (laLast acc) (Ref <$> last page)), bool_decide (length page < length (shown p infos))%nat).
Proof.
  intros Hd. cbv zeta. unfold shown. revert acc. induction infos as [|i infos IH]; intros acc Hc.
  { rewrite filter_nil, take_nil. cbn. rewrite app_nil_r, Z.add_0_r. by destruct acc. }
  cbn [walkList]. rewrite filter_cons. destruct (skipped p (Ref i)) eqn:Es.
  { rewrite decide_False by done. by apply IH. }
  rewrite decide_True by done. unfold rollup. rewrite (decide_True _ _ Hd).
  destruct (Z.leb_spec (lpMaxKeys p) (laCount acc)) as [Hf|Hf].
  { replace (Z.to_nat (lpMaxKeys p - laCount acc)) with O by lia. cbn. rewrite app_nil_r, Z.add_0_r. by destruct acc. }
  rewrite IH by (cbn; lia). cbn [laContents laPrefixes laCount laLast].
  replace (Z.to_nat (lpMaxKeys p - laCount acc)) with (S (Z.to_nat (lpMaxKeys p - (laCount acc + 1)))) by lia. cbn [take].
  set (rest := take _ _). f_equal; [f_equal|].
  - by rewrite <- app_assoc.
  - unfold len. cbn. lia.
  - by destruct rest as [|x l] using rev_ind; [|rewrite app_comm_cons, !last_snoc].
  - cbn. apply bool_decide_ext. lia.
Qed.

(** ** All pages *)

Definition listRequest (prefix : string) (n : Z) (tok : string) : request :=
  MkReq "GET" "/" (list_to_map [("list-type", ["2"]); ("prefix", [prefix]); ("max-keys", [FormatInt n]); ("continuation-token", [tok])])
    ∅ "" [].

(** A client that follows the continuation tokens. *)
Fixpoint listAll (fuel : nat) (g : Gateway) (st : gst) (bucket prefix : string) (n : Z) (tok : string) : option (list listEntry) :=
  match fuel with
  | O => None
  | S fuel =>
      match rsBody (listObjects g st (listRequest prefix n tok) bucket) with
      | ListDoc d =>
          if lrTruncated d then (fun rest => lrContents d ++ rest) <$> listAll fuel g st bucket prefix n (lrNextToken d)
          else Some (lrContents d)
      | _ => None
      end
  end.

Lemma parse_listRequest prefix n tok cur : 0 <= n < 2 ^ 63 ->
  (tok = "" /\ cur = "" \/ tok = encodeContinuationToken cur /\ tok <> "") ->
  parseListParams (listRequest prefix n tok) = Ok (MkParams prefix "" (Z.min n maxKeysCap) cur false tok "" true).
Proof.
  intros Hn Ht. destruct (FormatInt_digits n Hn) as (_ & Hne & Hp). unfold parseListParams, parseMaxKeys.
  change (queryGet (listRequest prefix n tok) "list-type") with "2". change (queryGet (listRequest prefix n tok) "encoding-type") with "".
  change (queryGet (listRequest prefix n tok) "max-keys") with (FormatInt n). change (queryGet (listRequest prefix n tok) "start-after") with "".
  change (queryGet (listRequest prefix n tok) "continuation-token") with tok. change (queryGet (listRequest prefix n tok) "prefix") with prefix.
  change (queryGet (listRequest prefix n tok) "delimiter") with "". cbv zeta.
  rewrite (decide_False (P := FormatInt n = "")) by done. unfold Atoi. rewrite Hp. destruct (Z.ltb_spec n 0); [lia|]. cbn [mbind result_bind].
  change (bool_decide ("2" = "2")) with true. cbv iota. change (EqualFold "" "url") with false.
  assert (Hm : (if n <? maxKeysCap then n else maxKeysCap) = Z.min n maxKeysCap) by (destruct (Z.ltb_spec n maxKeysCap); lia).
  rewrite Hm. destruct Ht as [[-> ->]|[-> Hne']]; [done|]. rewrite decide_False by done.
  unfold decodeContinuationToken, encodeContinuationToken. rewrite chars_of, base64_round by apply std_alphabet. cbn. by rewrite of_chars_of.
Qed.

Lemma token_nonempty k : k <> "" -> encodeContinuationToken k <> "".
Proof.
  intros Hk E. apply (f_equal (fun s => decodeContinuationToken s)) in E. unfold decodeContinuationToken, encodeContinuationToken in E.
  rewrite chars_of, base64_round in E by apply std_alphabet. cbn in E. rewrite of_chars_of in E. by injection E.
Qed.

(** *** The order of keys *)

Definition refs_sorted (l : list ObjectInfo) : Prop := StronglySorted (fun a b => byRef a b = true) l.

Lemma refs_nodup rows d prefix l : listing rows d prefix l -> NoDup (Ref <$> l).
Proof.
  intros Hl. pose proof (listing_nodup _ _ _ _ Hl) as Hn. destruct Hl as [_ Hl].
  apply NoDup_fmap_2_strong; [|done]. intros x y [Hx _]%Hl [Hy _]%Hl E. rewrite E in Hx. congruence.
Qed.

#[local] Instance byRef_total : Total (notAfter byRef).
Proof. intros a b. unfold notAfter, byRef. destruct (str_ltb (Ref b) (Ref a)) eqn:E; [|by left]. right. by apply str_ltb_asym. Qed.

#[local] Instance byRef_trans : Transitive (notAfter byRef).
Proof.
  intros a b c. unfold notAfter, byRef. intros H1 H2. destruct (str_ltb (Ref c) (Ref a)) eqn:E; [|done].
  destruct (str_ltb (Ref a) (Ref b)) eqn:E2; [by rewrite (str_ltb_trans _ _ _ E E2) in H2|].
  rewrite (str_ltb_total _ _ E2 H1) in E. congruence.
Qed.

Lemma sortBy_refs l : NoDup (Ref <$> l) -> refs_sorted (sortBy byRef l).
Proof.
  intros Hn. assert (Hs : StronglySorted (notAfter byRef) (sortBy byRef l)) by (apply StronglySorted_merge_sort; apply _).
  assert (Hp : sortBy byRef l ≡ₚ l) by apply merge_sort_Permutation. rewrite <- Hp in Hn. clear Hp. revert Hn Hs. generalize (sortBy byRef l). intros k Hn Hs. revert Hn.
  induction Hs as [|a k' _ IH Ha]; intros Hn; [constructor|]. rewrite fmap_cons in Hn. apply NoDup_cons in Hn as [Hni Hn].
  constructor; [by apply IH|]. rewrite Forall_forall in Ha |- *. intros b Hb. specialize (Ha b Hb). unfold notAfter, byRef in *.
  destruct (str_ltb (Ref a) (Ref b)) eqn:E; [done|]. destruct Hni. rewrite (str_ltb_total _ _ E Ha). by apply list_elem_of_fmap_2.
Qed.

Lemma sorted_filter (P : ObjectInfo -> Prop) `{!forall x, Decision (P x)} l : refs_sorted l -> refs_sorted (filter P l).
Proof.
  induction 1 as [|a l _ IH Ha]; [constructor|]. rewrite filter_cons. case_decide; [|done]. constructor; [done|].
  rewrite Forall_forall in *. intros b [_ Hb]%list_elem_of_filter. by apply Ha.
Qed.

(** What lies after the k-th key is what is left after k keys. *)
Lemma after_cursor l k x : refs_sorted l -> l !! k = Some x ->
  filter (fun i => str_ltb (Ref x) (Ref i) = true) l = drop (S k) l.
Proof.
  intros Hs. revert k; induction Hs as [|a l Hl IH Ha]; intros k; [done|]. rewrite filter_cons. destruct k as [|k]; cbn [lookup list_lookup drop].
  - intros [= ->]. rewrite str_ltb_irrefl, decide_False by done. by apply filter_keeps.
  - intros Hk. rewrite decide_False; [by apply IH|]. rewrite Forall_forall in Ha. specialize (Ha x ltac:(by eapply list_elem_of_lookup_2)).
    unfold byRef in Ha. apply str_ltb_asym in Ha. congruence.
Qed.

(** *** Following the tokens *)

(** The rows clients see, in the order of their keys. *)
Definition visible (infos : list ObjectInfo) : list ObjectInfo :=
  filter (fun i => HasPrefix (Ref i) mpuPartPrefix = false) (sortBy byRef infos).

Definition plainEntry (g : Gateway) (st : gst) (i : ObjectInfo) : listEntry := entryOf g st (MkParams "" "" 0 "" false "" "" true) i.

Lemma shown_start p l : lpCursor p = "" -> shown p l = filter (fun i => HasPrefix (Ref i) mpuPartPrefix = false) l.
Proof.
  intros Hc. unfold shown. apply list_filter_iff. intros i. unfold skipped. rewrite Hc, bool_decide_true by done. cbn [negb andb].
  by rewrite orb_false_r.
Qed.

Lemma shown_after p l : lpCursor p <> "" ->
  shown p l = filter (fun i => str_ltb (lpCursor p) (Ref i) = true) (filter (fun i => HasPrefix (Ref i) mpuPartPrefix = false) l).
Proof.
  intros Hc. unfold shown. rewrite list_filter_filter. apply list_filter_iff. intros i. unfold skipped.
  rewrite bool_decide_false by done. cbn [negb andb]. rewrite orb_false_iff, negb_false_iff. tauto.
Qed.

(** Where a listing is after [k] keys: at the start, or at the last of them. *)
Definition at_key (vis : list ObjectInfo) (k : nat) (cur : string) : Prop :=
  (k = O /\ cur = "") \/ (exists j x, k = S j /\ vis !! j = Some x /\ cur = Ref x /\ cur <> "").

Lemma shown_at p infos k : NoDup (Ref <$> infos) -> at_key (visible infos) k (lpCursor p) ->
  shown p (sortBy byRef infos) = drop k (visible infos).
Proof.
  intros Hn [[-> Hc]|(j & x & -> & Hx & Hc & Hne)]; [by apply shown_start|]. rewrite shown_after by done. fold (visible infos).
  rewrite Hc. apply after_cursor; [|done]. by apply sorted_filter, sortBy_refs.
Qed.

Lemma list_page g st bucket prefix n tok cur infos k : 0 <= n < 2 ^ 63 ->
  (tok = "" /\ cur = "" \/ tok = encodeContinuationToken cur /\ tok <> "") ->
  gwList g st prefix 0 = Ok infos -> NoDup (Ref <$> infos) -> at_key (visible infos) k cur ->
  let rest := drop k (visible infos) in let page := take (Z.to_nat (Z.min n maxKeysCap)) rest in
  exists d, rsBody (listObjects g st (listRequest prefix n tok) bucket) = ListDoc d /\
    lrContents d = (plainEntry g st <$> page) /\ lrTruncated d = bool_decide (length page < length rest)%nat /\
    (lrTruncated d = true -> lrNextToken d = encodeContinuationToken (default "" (Ref <$> last page))).
Proof.
  intros Hn Ht Hl Hnd Hk rest page. unfold listObjects. rewrite (parse_listRequest _ _ _ cur) by done. cbn [lpPrefix]. rewrite Hl.
  unfold buildListResult. rewrite walk_plain; [|done|cbn; unfold maxKeysCap; lia]. cbn [laCount laContents laPrefixes laLast lpMaxKeys].
  rewrite (shown_at _ infos k) by done. fold rest. rewrite Z.sub_0_r. fold page. cbn [writeXML rsBody app].
  eexists. split; [done|]. cbn [lrContents lrTruncated lrNextToken lpV2]. split; [done|]. split; [done|]. intros ->. done.
Qed.

Lemma list_pages_from g st bucket prefix n infos : 1 <= n < 2 ^ 63 -> gwList g st prefix 0 = Ok infos -> NoDup (Ref <$> infos) ->
  Forall (fun i => Ref i <> "") infos -> forall fuel k tok cur, (length (visible infos) < fuel + k)%nat ->
  (tok = "" /\ cur = "" \/ tok = encodeContinuationToken cur /\ tok <> "") -> at_key (visible infos) k cur ->
  listAll fuel g st bucket prefix n tok = Some (plainEntry g st <$> drop k (visible infos)) \/ (length (visible infos) < k)%nat.
Proof.
  intros Hn Hl Hnd Hne. induction fuel as [|fuel IH]; intros k tok cur Hf Ht Hk; [right; lia|left].
  destruct (list_page g st bucket prefix n tok cur infos k) as (d & Hd & Hc & Htr & Hnx); [lia|done..|].
  cbn [listAll]. rewrite Hd, Hc, Htr. set (rest := drop k (visible infos)) in *. set (m := Z.to_nat (Z.min n maxKeysCap)) in *.
  assert (Hm : (1 <= m)%nat) by (unfold m, maxKeysCap; lia). case_bool_decide as Hlt.
  2:{ f_equal. f_equal. apply take_ge. rewrite length_take in Hlt. lia. }
  rewrite length_take in Hlt. rewrite Hnx by exact Htr.
  assert (Hlast : exists x, rest !! (m - 1)%nat = Some x) by (apply lookup_lt_is_Some_2; lia). destruct Hlast as [x Hx].
  assert (El : last (take m rest) = Some x).
  { rewrite last_lookup, length_take, Nat.min_l by lia. rewrite lookup_take_lt by lia. by replace (Nat.pred m) with (m - 1)%nat by lia. }
  rewrite El. change (default "" (Ref <$> Some x)) with (Ref x).
  assert (Hv : visible infos !! (k + (m - 1))%nat = Some x) by (by unfold rest in Hx; rewrite lookup_drop in Hx).
  assert (Hxn : Ref x <> "").
  { rewrite Forall_forall in Hne. apply Hne. apply list_elem_of_lookup_2, list_elem_of_filter in Hv as [_ Hv].
    unfold sortBy in Hv. by rewrite merge_sort_Permutation in Hv. }
  destruct (IH (k + m)%nat (encodeContinuationToken (Ref x)) (Ref x)) as [E|E].
  - lia.
  - right. split; [done|]. by apply token_nonempty.
  - right. exists (k + (m - 1))%nat, x. split_and!; [lia|done..].
  - rewrite E. cbn. f_equal. rewrite <- fmap_app. f_equal. unfold rest. rewrite <- drop_drop. apply take_drop.
  - apply lookup_lt_Some in Hv. lia.
Qed.

(** C24: following continuation tokens lists everything once.  With the index
    answering and unchanged, a client that asks for pages of at most n keys, n
    positive, and passes on each continuation token until the listing is not
    truncated gets after at most one request per key the keys of the domain
    under the prefix, those of multipart parts left out: each exactly once and
    in increasing order, each with the size of its object. *)
Theorem list_pages_cover g st bucket prefix n infos fuel :
  rvalid (gsRefs st) -> gwList g st prefix 0 = Ok infos -> rrows (gsRefs st) !! (gwDomain g, "") = None ->
  1 <= n < 2 ^ 63 -> (length infos < fuel)%nat ->
  exists es, listAll fuel g st bucket prefix n "" = Some es /\
    StronglySorted (fun a b => str_ltb (leKey a) (leKey b) = true) es /\
    forall k z, (exists e, e ∈ es /\ leKey e = k /\ leSize e = z) <->
      HasPrefix k prefix = true /\ HasPrefix k mpuPartPrefix = false /\
      exists i, rrows (gsRefs st) !! (gwDomain g, k) = Some i /\ oSize i = z.
Proof.
  intros Hv Hl Hempty Hn Hf. destruct (rlist_ok _ _ _ _ _ Hv Hl) as (all & Hall & ->). change (capped 0 all) with all in *.
  pose proof (refs_nodup _ _ _ _ Hall) as Hnd. destruct Hall as [_ Hall].
  assert (Hlen : (length (visible all) <= length all)%nat).
  { unfold visible. etrans; [apply length_filter|]. unfold sortBy. by rewrite merge_sort_Permutation. }
  assert (Hne : Forall (fun i => Ref i <> "") all).
  { apply Forall_forall. intros i [Hi _]%Hall E. rewrite E in Hi. congruence. }
  destruct (list_pages_from g st bucket prefix n all Hn Hl Hnd Hne fuel 0 "" "") as [E|E]; [lia|by left|by left| |lia].
  exists (plainEntry g st <$> visible all). split; [done|]. split.
  - assert (Hs : refs_sorted (visible all)) by (by apply sorted_filter, sortBy_refs). clear -Hs.
    induction Hs as [|a l _ IH Ha]; cbn; constructor; [done|]. rewrite Forall_fmap. exact Ha.
  - intros k z. assert (Hin : forall i, i ∈ visible all <-> HasPrefix (Ref i) mpuPartPrefix = false /\ i ∈ all).
    { intros i. unfold visible. rewrite list_elem_of_filter. unfold sortBy. by rewrite merge_sort_Permutation. }
    split.
    + intros (e & (i & -> & [Hr [Hi Hp]%Hall]%Hin)%list_elem_of_fmap & <- & <-). cbn. eauto 6.
    + intros (Hp & Hr & i & Hi & <-). destruct (rrows_key _ _ _ _ Hv Hi) as [_ Hk]. rewrite <- Hk in Hp, Hr, Hi |- *.
      exists (plainEntry g st i). split; [|done]. apply list_elem_of_fmap_2, Hin. split; [done|]. by apply Hall.
Qed.

(** ** Folding by the delimiter *)

(** A key folds into the part up to and with the first delimiter after the
    prefix. *)
Lemma rollup_spec p key cp : HasPrefix key (lpPrefix p) = true -> rollup p key = Some cp ->
  exists rest, key = cp +:+ rest /\ exists a, cp = lpPrefix p +:+ a +:+ lpDelimiter p /\ lpDelimiter p <> "".
Proof.
  intros [t ->]%HasPrefix_spec. unfold rollup. case_decide as Hd; [done|]. unfold TrimPrefix. rewrite (proj2 (CutPrefix_spec _ _ t) eq_refl).
  change (default (lpPrefix p +:+ t) (Some t)) with t. cbv zeta. unfold Index. destruct (indexAt (chars t) (chars (lpDelimiter p))) as [i|] eqn:E; [|done]. intros [= <-].
  apply indexAt_Some in E as (k & Hk & Hle & _). set (del := lpDelimiter p) in *.
  assert (Hs : str_slice t 0 (Z.of_nat i + strlen del) = of_chars (take i (chars t)) +:+ del).
  { apply chars_inj. unfold str_slice. rewrite chars_app, !chars_of. rewrite Hk at 1. rewrite app_assoc.
    assert (Hl : Z.of_nat i + strlen del = len (take i (chars t) ++ chars del)).
    { rewrite len_app. unfold len at 1. rewrite length_take, Nat.min_l by done. unfold strlen, len. done. }
    rewrite Hl. apply slice_prefix. }
  exists (of_chars k). split.
  - rewrite Hs. apply chars_inj. rewrite !chars_app, !chars_of. rewrite Hk at 1. by rewrite !app_assoc.
  - exists (of_chars (take i (chars t))). rewrite Hs. done.
Qed.

Lemma walk_whole g st p infos acc acc' : NoDup (laPrefixes acc) -> walkList g st p infos acc = (acc', false) ->
  laContents acc' = laContents acc ++ (entryOf g st p <$> filter (fun i => rollup p (Ref i) = None) (shown p infos)) /\
  NoDup (laPrefixes acc') /\
  forall cp, cp ∈ laPrefixes acc' <-> cp ∈ laPrefixes acc \/ exists i, i ∈ shown p infos /\ rollup p (Ref i) = Some cp.
Proof.
  revert acc. induction infos as [|i infos IH]; intros acc Hnd; cbn [walkList].
  { intros [= <-]. unfold shown. rewrite !filter_nil. cbn. rewrite app_nil_r. split; [done|]. split; [done|]. intros cp.
    split; [by left|]. intros [?|(? & ?%elem_of_nil & _)]; done. }
  unfold shown. rewrite filter_cons. destruct (skipped p (Ref i)) eqn:Es; [rewrite decide_False by done; by apply IH|].
  rewrite decide_True by done. rewrite filter_cons. fold (shown p infos). destruct (rollup p (Ref i)) as [cp0|] eqn:Er.
  - rewrite (decide_False (P := Some cp0 = None)) by done. case_decide as Hin.
    + intros H. apply IH in H as (H1 & H2 & H3); [|done]. cbn in *. split; [done|]. split; [done|]. intros cp. rewrite H3.
      setoid_rewrite elem_of_cons. naive_solver.
    + destruct (_ <=? _); [done|]. intros H. apply IH in H as (H1 & H2 & H3).
      * cbn in *. split; [done|]. split; [done|]. intros cp. rewrite H3, elem_of_app, list_elem_of_singleton.
        setoid_rewrite elem_of_cons. naive_solver.
      * cbn. apply NoDup_app. split; [done|]. split; [|apply NoDup_singleton]. by intros x Hx ->%list_elem_of_singleton.
  - rewrite (decide_True (P := @None string = None)) by done. destruct (_ <=? _); [done|]. intros H. apply IH in H as (H1 & H2 & H3); [|done]. cbn in *.
    split; [by rewrite H1, <- app_assoc|]. split; [done|]. intros cp. rewrite H3. setoid_rewrite elem_of_cons. naive_solver.
Qed.

(** A page that is not truncated is exact.  It shows every visible key after
    the cursor that has no delimiter after the prefix, in the order of the keys,
    and as common prefixes, each once, exactly the parts into which the other
    visible keys fold. *)
Theorem list_rollup g st bucket p infos :
  lrTruncated (buildListResult g st bucket p infos) = false ->
  lrContents (buildListResult g st bucket p infos) = entryOf g st p <$> filter (fun i => rollup p (Ref i) = None) (shown p infos) /\
  exists cps, lrPrefixes (buildListResult g st bucket p infos) = (fun k => encodeKey k (lpEncode p)) <$> cps /\ NoDup cps /\
    forall cp, cp ∈ cps <-> exists i, i ∈ shown p infos /\ rollup p (Ref i) = Some cp.
Proof.
  unfold buildListResult. destruct (walkList g st p infos (MkAcc [] [] 0 "")) as [acc tr] eqn:E. cbn. intros ->.
  apply walk_whole in E as (H1 & H2 & H3); [|constructor]. cbn in *. split; [done|]. exists (laPrefixes acc). split; [done|]. split; [done|].
  intros cp. rewrite H3. split; [intros [?%elem_of_nil|?]; done|by right].
Qed.
End Pages.
