(* ===== verification/S3Multi.v ===== *)
(** Multipart uploads and buckets over S3 (blobgw-s3/s3/mpuops.go, multipart.go,
    bucketops.go, buckets.go), and the dispatch of requests (handler.go).

    An upload is a record of parts, each stored as an object under a reserved
    ref; Complete assembles the listed parts in part-number order into one object
    and deletes them.  The parts are read while the assembled object is put: a put
    never changes a stored blob, so they are read here from the state before it.
    [ServeHTTP] is the whole server: one request to a state and a response. *)

From stdpp Require Import sorting.
From S2P Require Import Prelude GoStrings Decimal Sha256 PackFormat BlobStore Manifest SnapStore DedupIndex ChunkedRead ChunkedWrite StreamCopy GoText RefStore Gateway S3Crypto S3Auth S3Stream S3Objects S3List.
From Stdlib Require Import Ascii.

(** ** Uploads *)

Definition maxPartNumber : Z := 10000.

Record uploadedPart := MkPart { upNumber : Z; upMD5 : bytes; upETag : string; upRef : string; upSize : Z }.

Record mpuUpload := MkMpu {
  muID : string; muBucket : string; muDomain : string; muKey : string; muType : string; muMeta : gmap string string;
  muCreated : Z; muParts : gmap Z uploadedPart }.

Definition mpuStore := gmap string mpuUpload.

(** [memoryMPUStore]. *)
Definition mpuCreate (s : mpuStore) (u : mpuUpload) : mpuStore := <[muID u := u]> s.

Definition setParts (parts : gmap Z uploadedPart) (u : mpuUpload) : mpuUpload :=
  MkMpu (muID u) (muBucket u) (muDomain u) (muKey u) (muType u) (muMeta u) (muCreated u) parts.

Definition mpuPutPart (s : mpuStore) (uploadID : string) (p : uploadedPart) : option mpuStore :=
  match s !! uploadID with
  | None => None
  | Some u => Some (<[uploadID := setParts (<[upNumber p := p]> (muParts u)) u]> s)
  end.

Definition byNumber (a b : uploadedPart) : Prop := upNumber a <= upNumber b.

#[global] Instance byNumber_dec : RelDecision byNumber.
Proof. intros a b. unfold byNumber. apply _. Defined.

Definition sortParts (l : list uploadedPart) : list uploadedPart := merge_sort byNumber l.

Definition sortedParts (u : mpuUpload) : list uploadedPart := sortParts (map_to_list (muParts u)).*2.

Definition mpuPartRef (uploadID : string) (partNumber : Z) : string :=
  mpuPartPrefix +:+ uploadID +:+ sep1 (ascii_of 0) +:+ digits 5 partNumber.

Definition multipartETag (parts : list uploadedPart) : string :=
  hex_encode (md5 (concat (upMD5 <$> parts))) +:+ "-" +:+ FormatInt (len parts).

Definition trimETag (etag : string) : string :=
  let l := chars etag in
  match l, last l with
  | a :: _, Some b =>
      if decide ((2 <= length l)%nat /\ a = ascii_of 34 /\ b = ascii_of 34) then of_chars (take (length l - 2) (drop 1 l)) else etag
  | _, _ => etag
  end.

(** [encoding/xml] on the CompleteMultipartUpload document: the part numbers and
    ETags it lists. *)
Class CompleteXML := { decodeComplete : bytes -> option (list (Z * string)) }.

(** The listed parts in the listed order, each known and with the right ETag. *)
Fixpoint resolveParts (u : mpuUpload) (want : list (Z * string)) : result (list uploadedPart) :=
  match want with
  | [] => Ok []
  | (n, etag) :: want =>
      match muParts u !! n with
      | None => Err errInvalidPart
      | Some p => if decide (upETag p = trimETag etag) then ps ← resolveParts u want; Ok (p :: ps) else Err errInvalidPart
      end
  end.

(** ** The server *)

Record handler := MkHandler {
  hRouter : string -> option Gateway; hCreds : gmap string Credential;
  hResolver : option (Credential -> string -> option string); hMaxObj : Z }.

(** What varies between requests: the handler's clock, the id of a new upload,
    and the rest of the environment. *)
Record serveEnv := MkServe { svNow : Z; svIdNow : Z; svIdBuf : bytes; svEnv : s3env }.

(** [New]: without a resolver, the registry decides if there is one. *)
Definition resolver (h : handler) (buckets : option (gmap string bucketRecord)) : Credential -> string -> option string :=
  default (resolveBucket buckets) (hResolver h).

Definition splitPath (p : string) : string * string :=
  let p := TrimPrefix p "/" in
  match Cut p "/" with
  | Some (bucket, key) => (bucket, key)
  | None => (p, "")
  end.

Section Server.
  Context {Clib : CodecLib} {Sto : Storage} {U : SnapshotStore} {D : DedupStore} {Sp : Splitter} {J : ManifestCodec}
          {T : TimeText} {R : RefStore} {G : StagingStore} {X : CompleteXML}.

Record s3st := S3St { ssGw : gst; ssBuckets : option (gmap string bucketRecord); ssMpu : mpuStore }.

Definition withGw (s : s3st) (st : gst) : s3st := S3St st (ssBuckets s) (ssMpu s).
Definition withMpu (s : s3st) (m : mpuStore) : s3st := S3St (ssGw s) (ssBuckets s) m.
Definition withBuckets (s : s3st) (b : gmap string bucketRecord) : s3st := S3St (ssGw s) (Some b) (ssMpu s).

Definition newUploadID (now : Z) (buf : bytes) : string := "mpu-" +:+ timeFormat now +:+ "-" +:+ hex_encode buf.

Definition createMultipartUpload (v : serveEnv) (s : s3st) (r : request) (domain bucket key : string) : s3st * response :=
  let ct := headerGet r "Content-Type" in
  let ct := if decide (ct = "") then "application/octet-stream" else ct in
  let id := newUploadID (svIdNow v) (svIdBuf v) in
  (withMpu s (mpuCreate (ssMpu s) (MkMpu id bucket domain key ct (userMetadata (rHeader r)) (svNow v) ∅)),
   writeXML 200 (InitiateDoc bucket key id)).

(** Another request may have ended the upload while the part was stored:
    [gone] says so. *)
Definition uploadPart (h : handler) (v : serveEnv) (gone : bool) (s : s3st) (r : request) (g : Gateway) (uploadID : string)
  (partNumber : Z) (cred : Credential) : s3st * response :=
  if (partNumber <? 1) || (maxPartNumber <? partNumber) then (s, writeError ∅ (rPath r) errInvalidArgument)
  else
    match ssMpu s !! uploadID with
    | None => (s, writeError ∅ (rPath r) errNoSuchUpload)
    | Some _ =>
        match objectBody (hMaxObj h) r cred with
        | Err e => (s, writeError ∅ (rPath r) e)
        | Ok body =>
            let ref := mpuPartRef uploadID partNumber in
            match gwPut (eNow (svEnv v)) g (ssGw s) ref "application/octet-stream" body with
            | (st, Err e) => (withGw s st, writeError ∅ (rPath r) (mapGatewayErr e))
            | (st, Ok info) =>
                let s := withMpu (withGw s st) (if gone then delete uploadID (ssMpu s) else ssMpu s) in
                let raw := md5 (drained body) in
                let etag := hex_encode raw in
                match mpuPutPart (ssMpu s) uploadID (MkPart partNumber raw etag ref (oSize info)) with
                | None => (withGw s (gwDelete g st ref).1, writeError ∅ (rPath r) errNoSuchUpload)
                | Some m => (withMpu s m, MkResp 200 (setHeader "ETag" (quoted etag) ∅) NoBody)
                end
            end
        end
    end.

Fixpoint openParts (e : s3env) (g : Gateway) (st : gst) (parts : list uploadedPart) : result (list chunkStreamReader) :=
  match parts with
  | [] => Ok []
  | p :: parts => x ← gwGet (eFramings e) g st (upRef p); rs ← openParts e g st parts; Ok (x.1 :: rs)
  end.

(** The parts go one by one; a failure leaves the object to later clean-up. *)
Definition deleteParts (g : Gateway) (st : gst) (parts : list uploadedPart) : gst :=
  foldl (fun st p => (gwDelete g st (upRef p)).1) st parts.

Definition completeMultipartUpload (h : handler) (v : serveEnv) (s : s3st) (r : request) (g : Gateway) (key uploadID : string)
  : s3st * response :=
  match ssMpu s !! uploadID with
  | None => (s, writeError ∅ (rPath r) errNoSuchUpload)
  | Some up =>
      match decodeComplete (drained (rBody r)) with
      | None => (s, writeError ∅ (rPath r) errMalformedXML)
      | Some [] => (s, writeError ∅ (rPath r) errInvalidPart)
      | Some want =>
          match resolveParts up want with
          | Err e => (s, writeError ∅ (rPath r) e)
          | Ok parts =>
              if (0 <? hMaxObj h) && (hMaxObj h <? foldr (fun p n => upSize p + n) 0 parts) then
                (s, writeError ∅ (rPath r) errEntityTooLarge)
              else
                let parts := sortParts parts in
                match openParts (svEnv v) g (ssGw s) parts with
                | Err e => (s, writeError ∅ (rPath r) (mapGatewayErr e))
                | Ok readers =>
                    let etag := multipartETag parts in
                    match PutWithMeta (eNow (svEnv v)) g (ssGw s) key (muType up) (buildObjectMeta etag (muMeta up))
                            (multiReader (wBlobs (gsWorld (ssGw s))) readers (eSizes (svEnv v))) with
                    | (st, Err e) => (withGw s st, writeError ∅ (rPath r) (mapGatewayErr e))
                    | (st, Ok _) =>
                        (withMpu (withGw s (deleteParts g st parts)) (delete uploadID (ssMpu s)),
                         writeXML 200 (CompleteDoc ("/" +:+ muBucket up +:+ "/" +:+ key) (muBucket up) key (quoted etag)))
                    end
                end
          end
      end
  end.

Definition abortMultipartUpload (s : s3st) (r : request) (g : Gateway) (uploadID : string) : s3st * response :=
  match ssMpu s !! uploadID with
  | None => (s, writeError ∅ (rPath r) errNoSuchUpload)
  | Some up => (withMpu (withGw s (deleteParts g (ssGw s) (sortedParts up))) (delete uploadID (ssMpu s)), MkResp 204 ∅ NoBody)
  end.

Definition listParts (s : s3st) (r : request) (bucket key uploadID : string) : response :=
  match ssMpu s !! uploadID with
  | None => writeError ∅ (rPath r) errNoSuchUpload
  | Some up => writeXML 200 (PartsDoc bucket key uploadID maxPartNumber ((fun p => (upNumber p, quoted (upETag p), upSize p)) <$> sortedParts up))
  end.

(** *** Buckets *)

Definition createBucket (v : serveEnv) (s : s3st) (r : request) (domain bucket : string) : s3st * response :=
  let ok := MkResp 200 (setHeader "Location" ("/" +:+ bucket) ∅) NoBody in
  match ssBuckets s with
  | None => (s, ok)
  | Some m => match m !! bucket with
              | Some _ => (s, writeError ∅ (rPath r) errBucketAlreadyOwned)
              | None => (withBuckets s (<[bucket := MkBucket domain (svNow v)]> m), ok)
              end
  end.

Definition headBucket (s : s3st) (bucket : string) : response :=
  match ssBuckets s with
  | None => MkResp 200 ∅ NoBody
  | Some m => match m !! bucket with Some _ => MkResp 200 ∅ NoBody | None => MkResp 404 ∅ NoBody end
  end.

Definition deleteBucket (s : s3st) (r : request) (g : Gateway) (bucket : string) : s3st * response :=
  match ssBuckets s with
  | None => (s, writeError ∅ (rPath r) errNotImplemented)
  | Some m =>
      match m !! bucket with
      | None => (s, writeError ∅ (rPath r) errNoSuchBucket)
      | Some _ =>
          match gwList g (ssGw s) "" 0 with
          | Err e => (s, writeError ∅ (rPath r) (mapGatewayErr e))
          | Ok infos =>
              if forallb (fun info => HasPrefix (Ref info) mpuPartPrefix) infos then (withBuckets s (delete bucket m), MkResp 204 ∅ NoBody)
              else (s, writeError ∅ (rPath r) errBucketNotEmpty)
          end
      end
  end.

Definition listBuckets (s : s3st) (cred : Credential) : response :=
  writeXML 200 (BucketsDoc (crDomain cred)
    match ssBuckets s with
    | None => []
    | Some m => (fun name => (name, isoTime (default 0 (bkCreated <$> m !! name)))) <$> sortStrings (map_to_list m).*1
    end).

(** *** Dispatch *)

Definition serveBucket (h : handler) (v : serveEnv) (s : s3st) (r : request) (g : Gateway) (domain bucket : string) : s3st * response :=
  if decide (rMethod r = "GET") then
    match rQuery r !! "uploads" with
    | Some _ => (s, writeXML 200 (UploadsDoc bucket maxPartNumber))
    | None => (s, listObjects g (ssGw s) r bucket)
    end
  else if decide (rMethod r = "PUT") then createBucket v s r domain bucket
  else if decide (rMethod r = "HEAD") then (s, headBucket s bucket)
  else if decide (rMethod r = "DELETE") then deleteBucket s r g bucket
  else (s, writeError ∅ (rPath r) errMethodNotAllowed).

Definition serveObject (h : handler) (v : serveEnv) (gone : bool) (s : s3st) (r : request) (g : Gateway) (domain bucket key : string)
  (cred : Credential) : s3st * response :=
  let uploadID := queryGet r "uploadId" in
  let onGw (x : gst * response) := (withGw s x.1, x.2) in
  if decide (rMethod r = "POST") then
    match rQuery r !! "uploads" with
    | Some _ => createMultipartUpload v s r domain bucket key
    | None => if decide (uploadID = "") then (s, writeError ∅ (rPath r) errInvalidRequest)
              else completeMultipartUpload h v s r g key uploadID
    end
  else if decide (rMethod r = "PUT") then
    if decide (uploadID = "") then onGw (putObject (hMaxObj h) (svEnv v) g (ssGw s) r key cred)
    else match Atoi (queryGet r "partNumber") with
         | None => (s, writeError ∅ (rPath r) errInvalidArgument)
         | Some n => uploadPart h v gone s r g uploadID n cred
         end
  else if decide (rMethod r = "GET") then
    if decide (uploadID = "") then (s, getObject (svEnv v) g (ssGw s) r key true)
    else (s, listParts s r bucket key uploadID)
  else if decide (rMethod r = "HEAD") then (s, getObject (svEnv v) g (ssGw s) r key false)
  else if decide (rMethod r = "DELETE") then
    if decide (uploadID = "") then onGw (deleteObject g (ssGw s) r key) else abortMultipartUpload s r g uploadID
  else (s, writeError ∅ (rPath r) errMethodNotAllowed).

Definition ServeHTTP (h : handler) (v : serveEnv) (gone : bool) (s : s3st) (r : request) : s3st * response :=
  let '(bucket, key) := splitPath (rPath r) in
  if decide (bucket = "") then
    if decide (rMethod r = "GET") then
      match authenticateService (hCreds h) (svNow v) r with
      | Err e => (s, writeError ∅ (rPath r) e)
      | Ok cred => (s, listBuckets s cred)
      end
    else (s, writeError ∅ (rPath r) errInvalidRequest)
  else
    match authenticate (hCreds h) (resolver h (ssBuckets s)) (svNow v) r bucket with
    | Err e => (s, writeError ∅ (rPath r) e)
    | Ok (cred, domain) =>
        match hRouter h domain with
        | None => (s, writeError ∅ (rPath r) errNoSuchBucket)
        | Some g =>
            if decide (key = "") then serveBucket h v s r g domain bucket
            else match ssBuckets s with
                 | Some m => match m !! bucket with
                             | None => (s, writeError ∅ (rPath r) errNoSuchBucket)
                             | Some _ => serveObject h v gone s r g domain bucket key cred
                             end
                 | None => serveObject h v gone s r g domain bucket key cred
                 end
        end
    end.
End Server.
