(* ===== verification/S3Spec.v ===== *)
(** What S3 clients can rely on.

    [get_object_ranges]: a GET answers with exactly the bytes its Range header
    asks for.  [s3_put_get]: what PutObject accepted, GetObject returns, with the
    ETag, the content type and the metadata.  [s3_put_rejected]: a body that
    fails its check changes no object, and the client learns which check.
    [multipart_assembles]: completing an upload makes the object that is the
    listed parts in part-number order.  [s3_confined]: a request changes nothing
    outside the domain its credentials and bucket resolve to. *)

From stdpp Require Import sorting.
From S2P Require Import Prelude GoStrings Decimal Sha256 PackFormat BlobStore Manifest SnapStore DedupIndex Reclaim ChunkedRead ChunkedWrite StreamCopy PutSpec PutGet BatchSpec GC GCSpec MetaOps Lifecycle GoText RefStore Gateway GatewaySpec GatewayWithin S3Crypto S3Auth S3Stream S3Objects S3Range S3List S3Multi.
From Stdlib Require Import Ascii.

(** ** Header names *)

Lemma lower_canonChar u c :
  let n := octet c in
  lowerChar (if u && (97 <=? n) && (n <=? 122) then ascii_of (n - 32)
             else if negb u && (65 <=? n) && (n <=? 90) then ascii_of (n + 32) else c) = lowerChar c.
Proof. destruct u, c as [[] [] [] [] [] [] [] []]; vm_compute; reflexivity. Qed.

Lemma lower_canon u l : lowerChar <$> canonCase u l = lowerChar <$> l.
Proof.
  revert u; induction l as [|c l IH]; intros u; [done|]. cbn [canonCase fmap list_fmap]. f_equal; [apply lower_canonChar|apply IH].
Qed.

Lemma ToLower_canonical s : ToLower (CanonicalHeaderKey s) = ToLower s.
Proof. unfold CanonicalHeaderKey. destruct (forallb _ _); [|done]. unfold ToLower. by rewrite chars_of, lower_canon. Qed.

Lemma ToLower_app a b : ToLower (a +:+ b) = ToLower a +:+ ToLower b.
Proof. unfold ToLower. by rewrite chars_app, fmap_app, of_chars_app. Qed.

Lemma ToLower_idem s : ToLower (ToLower s) = ToLower s.
Proof.
  unfold ToLower. rewrite chars_of. f_equal. rewrite <- list_fmap_compose. apply list_fmap_ext. intros _ c _. cbn.
  destruct c as [[] [] [] [] [] [] [] []]; vm_compute; reflexivity.
Qed.

Definition lowerKey (k : string) : Prop := ToLower k = k.

Definition metaKey (k : string) : string := CanonicalHeaderKey ("x-amz-meta-" +:+ k).

Lemma metaKey_lower k : ToLower (metaKey k) = "x-amz-meta-" +:+ ToLower k.
Proof. unfold metaKey. rewrite ToLower_canonical, ToLower_app. done. Qed.

Lemma metaKey_inj k k' : lowerKey k -> lowerKey k' -> metaKey k = metaKey k' -> k = k'.
Proof.
  intros Hk Hk' E. apply (f_equal ToLower) in E. rewrite !metaKey_lower, Hk, Hk' in E. by apply (inj (String.append "x-amz-meta-")) in E.
Qed.

Lemma metaKey_not s k : HasPrefix (ToLower s) "x-amz-meta-" = false -> metaKey k <> s.
Proof.
  intros Hs E. apply (f_equal ToLower) in E. rewrite metaKey_lower in E. rewrite <- E in Hs.
  by rewrite (proj2 (HasPrefix_spec _ _)) in Hs by eauto.
Qed.

Lemma userMetadata_lower h k : is_Some (userMetadata h !! k) -> lowerKey k.
Proof.
  intros [v Hv%elem_of_list_to_map_2]. apply list_elem_of_omap in Hv as ([n vs] & _ & E). unfold metaHeader in E. cbn [fst snd] in E.
  destruct (CutPrefix _ _) as [suffix|] eqn:Ec; [|done]. destruct vs as [|v' vs]; [done|]. injection E as -> ->.
  apply CutPrefix_spec in Ec. pose proof (ToLower_idem n) as Hi. rewrite Ec, ToLower_app in Hi.
  change (ToLower "x-amz-meta-") with "x-amz-meta-" in Hi. by apply (inj (String.append "x-amz-meta-")) in Hi.
Qed.

(** ** Object metadata *)

Lemma etag_not_user : HasPrefix etagMetaKey userMetaPrefix = false.
Proof. reflexivity. Qed.

Lemma build_user etag m k : buildObjectMeta etag m !! (userMetaPrefix +:+ k) = m !! k.
Proof.
  unfold buildObjectMeta. rewrite lookup_union, prefixed_lookup. case_decide; [by rewrite lookup_empty, right_id_L by apply _|].
  rewrite lookup_singleton_ne; [by rewrite right_id_L by apply _|]. intros E. pose proof etag_not_user as Hn. rewrite E in Hn.
  by rewrite (proj2 (HasPrefix_spec _ _)) in Hn by eauto.
Qed.

Lemma build_etag etag m : etag <> "" -> buildObjectMeta etag m !! etagMetaKey = Some etag.
Proof.
  intros He. unfold buildObjectMeta. rewrite decide_False by done. rewrite lookup_union_r; [apply lookup_singleton_eq|].
  apply not_elem_of_list_to_map_1. intros ([k v] & Hk & Hin)%list_elem_of_fmap. apply list_elem_of_fmap in Hin as ([k' v'] & [= -> ->] & _).
  cbn in Hk. pose proof etag_not_user as Hn. rewrite Hk in Hn. by rewrite (proj2 (HasPrefix_spec _ _)) in Hn by eauto.
Qed.

Lemma userMeta_lookup t k : userMetaFromMeta t !! k = t !! (userMetaPrefix +:+ k).
Proof. apply stripped_lookup. Qed.

(** The metadata of an object, stored and read back: empty values are lost. *)
Lemma meta_kept etag m : etag <> "" ->
  let t := filter (fun kv => kv.2 <> "") (buildObjectMeta etag m) in
  etagFromMeta t = etag /\ userMetaFromMeta t = filter (fun kv => kv.2 <> "") m.
Proof.
  intros He t. split.
  - unfold etagFromMeta, t. by rewrite (map_lookup_filter_Some_2 _ _ _ etag); [|apply build_etag|].
  - apply map_eq. intros k. rewrite userMeta_lookup. unfold t. rewrite !map_lookup_filter, build_user. by destruct (m !! k).
Qed.

Lemma meta_built etag m : etag <> "" ->
  etagFromMeta (buildObjectMeta etag m) = etag /\ userMetaFromMeta (buildObjectMeta etag m) = m.
Proof.
  intros He. split; [unfold etagFromMeta; by rewrite build_etag|]. apply map_eq. intros k. by rewrite userMeta_lookup, build_user.
Qed.

(** ** Object headers *)

Lemma setMetas_other (l : list (string * string)) (h : header) s : HasPrefix (ToLower s) "x-amz-meta-" = false ->
  foldl (fun h kv => setHeader ("x-amz-meta-" +:+ kv.1) kv.2 h) h l !! s = h !! s.
Proof.
  intros Hs. revert h; induction l as [|[k v] l IH]; intros h; [done|]. cbn [foldl fst snd]. rewrite IH. unfold setHeader.
  apply lookup_insert_ne. by apply (metaKey_not s k).
Qed.

Lemma setMetas_in (l : list (string * string)) (h : header) k v :
  NoDup l.*1 -> Forall lowerKey l.*1 -> (k, v) ∈ l ->
  foldl (fun h kv => setHeader ("x-amz-meta-" +:+ kv.1) kv.2 h) h l !! metaKey k = Some v.
Proof.
  intros Hnd Hlow Hin. induction l as [|[k' v'] l IH] using rev_ind; [by apply elem_of_nil in Hin|].
  rewrite foldl_snoc. cbn [fst snd].
  match goal with |- setHeader _ _ ?h' !! _ = _ => change (<[metaKey k' := v']> h' !! metaKey k = Some v) end. rewrite fmap_app in Hnd, Hlow.
  apply NoDup_app in Hnd as (Hnd & Hdis & _). apply Forall_app in Hlow as [Hlow Hk'].
  apply Forall_cons in Hk' as [Hk' _]. cbn in Hk'. apply elem_of_app in Hin as [Hin|[[= -> ->]|[]%elem_of_nil]%elem_of_cons].
  - assert (Hk : k ∈ l.*1) by (apply list_elem_of_fmap; by exists (k, v)).
    etrans; [apply lookup_insert_ne|by apply IH]. intros E. rewrite Forall_forall in Hlow.
    apply metaKey_inj in E as ->; [|done|by apply Hlow]. apply (Hdis _ Hk). cbn. apply elem_of_cons. by left.
  - apply lookup_insert_eq.
Qed.

Definition objectType (ct : string) : string := if decide (ct = "") then "application/octet-stream" else ct.

Lemma objectType_idem ct : objectType (objectType ct) = objectType ct.
Proof. unfold objectType. repeat case_decide; done. Qed.

Lemma object_headers info etag m :
  etagFromMeta (UserMeta info) = etag -> etag <> "" -> userMetaFromMeta (UserMeta info) = m ->
  (forall k, is_Some (m !! k) -> lowerKey k) ->
  writeObjectHeaders info !! "Etag" = Some (quoted etag) /\
  writeObjectHeaders info !! "Content-Type" = Some (objectType (ContentType info)) /\
  (forall k v, m !! k = Some v -> writeObjectHeaders info !! metaKey k = Some v).
Proof.
  intros He Hne Hm Hlow. unfold writeObjectHeaders. rewrite He, Hm, decide_False by done. rewrite !setMetas_other by done. split_and!.
  - apply lookup_insert_eq.
  - done.
  - intros k v Hk. apply setMetas_in; [apply NoDup_fst_map_to_list| |by apply elem_of_map_to_list].
    apply Forall_forall. intros k' ([k2 v2] & -> & Hin)%list_elem_of_fmap. apply elem_of_map_to_list in Hin. apply Hlow. cbn. by rewrite Hin.
Qed.

(** ** Ranges *)

(** What a Range header can ask for, how it is written, and the half-open
    interval of an object of [size] bytes it means; [None] when there are no
    such bytes. *)
Inductive rangeReq := Whole | FromTo (a b : Z) | From (a : Z) | Suffix (n : Z).

Definition rangeHeader (q : rangeReq) : string :=
  match q with
  | Whole => ""
  | FromTo a b => "bytes=" +:+ FormatInt a +:+ "-" +:+ FormatInt b
  | From a => "bytes=" +:+ FormatInt a +:+ "-"
  | Suffix n => "bytes=-" +:+ FormatInt n
  end.

Definition rangeValid (q : rangeReq) : Prop :=
  match q with
  | Whole => True
  | FromTo a b => 0 <= a <= b /\ b < 2 ^ 63
  | From a => 0 <= a < 2 ^ 63
  | Suffix n => 0 <= n < 2 ^ 63
  end.

Definition rangeOf (q : rangeReq) (size : Z) : option (Z * Z) :=
  match q with
  | Whole => Some (0, size)
  | FromTo a b => if a <? size then Some (a, Z.min (b + 1) size) else None
  | From a => if a <? size then Some (a, size) else None
  | Suffix n => if (0 <? n) && (0 <? size) then Some (Z.max 0 (size - n), size) else None
  end.

Lemma rangeOf_bounds q size lo hi : rangeValid q -> 0 <= size -> rangeOf q size = Some (lo, hi) -> 0 <= lo <= hi /\ hi <= size.
Proof.
  destruct q as [|a b|a|n]; cbn; intros Hv Hz.
  - intros [= <- <-]. lia.
  - destruct (Z.ltb_spec a size); [|done]. intros [= <- <-]. lia.
  - destruct (Z.ltb_spec a size); [|done]. intros [= <- <-]. lia.
  - destruct (Z.ltb_spec 0 n), (Z.ltb_spec 0 size); try done. intros [= <- <-]. lia.
Qed.

(** The parser finds that interval. *)
Lemma parse_range_of q size : rangeValid q -> 0 <= size ->
  parseRange (rangeHeader q) size =
  match q, rangeOf q size with
  | Whole, _ => (noRange, false, true)
  | _, None => (noRange, true, false)
  | _, Some (lo, hi) => (MkRange lo (hi - 1), true, true)
  end.
Proof.
  destruct q as [|a b|a|n]; cbn [rangeHeader rangeOf rangeValid]; intros Hv Hz.
  - reflexivity.
  - rewrite parse_from_to by lia. destruct (Z.ltb_spec a size), (Z.leb_spec size a); try lia; [|done]. do 3 f_equal. lia.
  - rewrite parse_from by lia. destruct (Z.ltb_spec a size), (Z.leb_spec size a); try lia; done.
  - rewrite parse_suffix by lia. destruct (Z.eqb_spec n 0), (Z.eqb_spec size 0), (Z.ltb_spec 0 n), (Z.ltb_spec 0 size); try lia; done.
Qed.

(** ** Answers *)

(** Status 200 and no error document. *)
Definition granted (resp : response) : Prop :=
  match rsBody resp with ErrorDoc _ _ _ => False | _ => rsStatus resp = 200 end.

Lemma error_refused h res e : ~ granted (writeError h res e).
Proof. unfold writeError, granted. destruct e; cbn [rsBody]; tauto. Qed.

Section Client.
  Context {Clib : CodecLib} {Claws : CodecLaws} {Sto : Storage} {L : StorageLaws Sto} {Rel : StorageReliable Sto}
          {U : SnapshotStore} {SL : SnapshotStoreLaws U} {SR : SnapshotStoreReadable U}
          {D : DedupStore} {DL : DedupStoreLaws D} {A : PackAssocStore D}
          {Sp : Splitter} {Spl : SplitterLaws Sp} {J : ManifestCodec} {JL : ManifestCodecLaws}
          {T : TimeText} {R : RefStore} {RL : RefStoreLaws R} {RR : RefStoreReliable R} {G : StagingStore} {GL : StagingStoreLaws G}
          {X : CompleteXML}.

Lemma sendRange_spec s rd sz data lo hi : (forall i, 0 < sz i)%nat -> pending s rd data -> 0 <= lo <= hi -> hi <= len data ->
  sendRange s rd sz (MkRange lo (hi - 1)) = slice data lo hi.
Proof.
  intros Hsz Hp Hlo Hhi. unfold sendRange, rangeLength. cbn [rgStart rgEnd]. replace (hi - 1 - lo + 1) with (hi - lo) by lia.
  destruct (Z.ltb_spec 0 lo).
  - destruct (copyN_spec s rd sz data lo Hsz Hp) as (rd' & -> & Hp'); [lia|].
    destruct (copyN_spec s rd' sz _ (hi - lo) Hsz Hp') as (rd2 & -> & _); [rewrite slice_len by lia; lia|]. cbn [fst].
    rewrite slice_slice by lia. f_equal; lia.
  - assert (lo = 0) as -> by lia. destruct (copyN_spec s rd sz data (hi - 0) Hsz Hp) as (rd' & -> & _); [lia|]. cbn [fst]. f_equal; lia.
Qed.

(** What a reader of the server needs: room in its buffers, and framings that
    are those of the packs. *)
Definition env_ok (e : s3env) (st : gst) : Prop :=
  cache_ok (wBlobs (gsWorld st)) (eFramings e) /\ (forall i, 0 < eSizes e i)%nat.

(** C23: Range requests.  Of an object in the store, GetObject answers a request
    without a range with 200 and all its bytes; one of the three range forms with
    206, exactly the bytes asked for, clipped to the object, and the Content-Range
    and Content-Length that describe them; and one that asks for no byte of the
    object with 416 and its size. *)
Theorem get_object_ranges e g st objs r key o q :
  sim st objs -> env_ok e st -> objs !! (gwDomain g, key) = Some o -> obSize o = len (obData o) ->
  headerGet r "Range" = rangeHeader q -> rangeValid q ->
  let resp := getObject e g st r key true in
  let size := len (obData o) in
  match rangeOf q size with
  | None => rsStatus resp = 416 /\ rsHeader resp !! "Content-Range" = Some ("bytes */" +:+ FormatInt size) /\
            rsBody resp = ErrorDoc "InvalidRange" (errMessage "InvalidRange") (rPath r)
  | Some (lo, hi) =>
      rsBody resp = Data (slice (obData o) lo hi) /\ rsHeader resp !! "Content-Length" = Some (FormatInt (hi - lo)) /\
      (q = Whole -> rsStatus resp = 200) /\
      (q <> Whole -> rsStatus resp = 206 /\
         rsHeader resp !! "Content-Range" = Some ("bytes " +:+ FormatInt lo +:+ "-" +:+ FormatInt (hi - 1) +:+ "/" +:+ FormatInt size))
  end.
Proof.
  intros Hs [Hfc Hsz] Ho Hlen Hq Hv. cbv zeta. destruct (gateway_opens (eFramings e) g st objs key o Hs Hfc Ho) as (rd & info & Hg & _ & Hp & _ & Hi & _).
  unfold getObject. cbn [negb]. rewrite Hg, Hq, Hi, Hlen. pose proof (len_nonneg (obData o)) as Hn.
  rewrite (parse_range_of q _ Hv Hn). pose proof (rangeOf_bounds q (len (obData o))) as Hb.
  destruct q as [|a b|a|n].
  { cbn [rangeOf andb negb rsBody rsStatus rsHeader]. rewrite (copyAll_spec _ _ _ _ Hsz Hp), slice_all, Z.sub_0_r.
    split_and!; [done|apply lookup_insert_eq|done|done]. }
  all: destruct (rangeOf _ (len (obData o))) as [[lo hi]|]; [|done]; destruct (Hb lo hi Hv Hn eq_refl) as [Hlo Hhi];
    cbn [andb negb rsBody rsStatus rsHeader rgStart rgEnd]; rewrite sendRange_spec with (data := obData o) by done;
    unfold rangeLength; cbn [rgStart rgEnd]; replace (hi - 1 - lo + 1) with (hi - lo) by lia;
    (split; [done|]); (split; [etrans; [by apply lookup_insert_ne|apply lookup_insert_eq]|]); (split; [done|]);
    intros _; split; [done|apply lookup_insert_eq].
Qed.
(** ** Put, then get *)

(** An object as a client sees it: its bytes, its ETag, its type and its
    metadata. *)
Definition serves (resp : response) (data : bytes) (etag ct : string) (m : gmap string string) : Prop :=
  rsStatus resp = 200 /\ rsBody resp = Data data /\ rsHeader resp !! "Content-Length" = Some (FormatInt (len data)) /\
  rsHeader resp !! "Etag" = Some (quoted etag) /\ rsHeader resp !! "Content-Type" = Some ct /\
  forall k v, m !! k = Some v -> rsHeader resp !! metaKey k = Some v.

Lemma get_serves e g st objs r key o etag m :
  sim st objs -> env_ok e st -> objs !! (gwDomain g, key) = Some o -> obSize o = len (obData o) -> headerGet r "Range" = "" ->
  etagFromMeta (obMeta o) = etag -> etag <> "" -> userMetaFromMeta (obMeta o) = m -> (forall k, is_Some (m !! k) -> lowerKey k) ->
  serves (getObject e g st r key true) (obData o) etag (objectType (obType o)) m.
Proof.
  intros Hs [Hfc Hsz] Ho Hlen Hq He Hne Hm Hlow.
  destruct (gateway_opens (eFramings e) g st objs key o Hs Hfc Ho) as (rd & info & Hg & _ & Hp & _ & Hi & _ & Hct & Hum).
  unfold getObject, serves. cbn [negb]. rewrite Hg, Hq, Hi, Hlen. change (parseRange "" _) with (noRange, false, true).
  cbn [andb negb rsBody rsStatus rsHeader]. rewrite (copyAll_spec _ _ _ _ Hsz Hp).
  destruct (object_headers info etag m) as (H1 & H2 & H3); [by rewrite Hum|done|by rewrite Hum|done|].
  split_and!; [done..|apply lookup_insert_eq| | |].
  - etrans; [by apply lookup_insert_ne|done].
  - etrans; [by apply lookup_insert_ne|etrans; [exact H2|by rewrite Hct]].
  - intros k v Hk. etrans; [apply lookup_insert_ne, not_eq_sym; by apply metaKey_not|by apply H3].
Qed.

Lemma md5_etag b : hex_encode (md5 b) <> "".
Proof. intros E. apply (f_equal String.length) in E. rewrite hex_encode_length in E. pose proof (md5_len b). unfold len in *. cbn in E. lia. Qed.

Lemma put_input now g st ref ct m r st' info : gw_ok st -> put_conds g st ref ct m r ->
  PutWithMeta now g st ref ct m r = (st', Ok info) -> exists data, inputOf r = Ok data.
Proof.
  intros Hok Hc. unfold PutWithMeta. case_decide; [done|]. destruct (Put _ _ _ _ _) as [w' [sm|]] eqn:Hp; [|done]. intros _.
  destruct (put_effect g st ref ct m r w' _ (gsRefs st) (gsStage st) Hok Hc Hp) as (_ & _ & _ & _ & data & Hin & _). by exists data.
Qed.

(** What a PutObject is ready for: a put into the chunked store, and versions
    that grow. *)
Definition s3_put_ready (e : s3env) (g : Gateway) (st : gst) (r : request) (key : string) (body : rdStream) : Prop :=
  let ct := objectType (headerGet r "Content-Type") in
  put_conds g st key ct ∅ body /\ put_newest g st key ct ∅ body /\
  forall st1 info, gwPut (eNow e) g st key ct body = (st1, Ok info) ->
    meta_newest g st1 key (buildObjectMeta (hex_encode (md5 (drained body))) (userMetadata (rHeader r))).

Definition nonempty (m : gmap string string) : gmap string string := filter (fun kv => kv.2 <> "") m.

(** C5: What PutObject accepted, GetObject returns.  After a PutObject answered
    200, the ETag it gave is the MD5 of the bytes its body delivered; and in every
    state that still represents the object, a GetObject without a range answers
    200 with exactly those bytes, that ETag, the content type of the put and
    every metadata header of the put whose value is not empty. *)
Theorem s3_put_get maxObj e g st objs r key cred body st' resp :
  sim st objs -> objectBody maxObj r cred = Ok body -> s3_put_ready e g st r key body ->
  putObject maxObj e g st r key cred = (st', resp) -> granted resp ->
  exists data o, inputOf body = Ok data /\ sim st' (<[(gwDomain g, key) := o]> objs) /\ obData o = data /\
    rsHeader resp !! "Etag" = Some (quoted (hex_encode (md5 data))) /\
    forall e2 st2 objs2 r2, sim st2 objs2 -> env_ok e2 st2 -> objs2 !! (gwDomain g, key) = Some o -> headerGet r2 "Range" = "" ->
      serves (getObject e2 g st2 r2 key true) data (hex_encode (md5 data))
        (objectType (headerGet r "Content-Type")) (nonempty (userMetadata (rHeader r))).
Proof.
  intros Hs Hb (Hc & Hn & Hmn). unfold putObject. rewrite Hb. fold (objectType (headerGet r "Content-Type")).
  set (ct := objectType _) in *. destruct (gwPut _ _ _ _ _ _) as [st1 [info|err]] eqn:Hput; [|by intros [= <- <-] ?%error_refused].
  destruct (SetUserMeta _ _ _ _) as [st2 [[]|err]] eqn:Hset; [|by intros [= <- <-] ?%error_refused]. intros [= <- <-] _.
  destruct (put_input (eNow e) g st key ct ∅ body st1 info (proj1 Hs) Hc Hput) as [data Hin].
  pose proof (drained_input _ _ Hin) as Hd. rewrite Hd in *.
  pose proof (put_sim (eNow e) g st objs key ct ∅ body st1 info data Hs Hc Hn Hput Hin) as Hs1.
  destruct (meta_sim g st1 _ key _ st2 Hs1 (Hmn st1 info eq_refl) Hset) as (objs' & [_ ->] & Hs2).
  rewrite alter_insert_eq in Hs2. exists data. eexists. split; [done|]. split; [exact Hs2|]. split; [done|]. split; [apply lookup_insert_eq|].
  intros e2 st3 objs3 r2 Hs3 He3 Ho Hr. destruct (meta_kept (hex_encode (md5 data)) (userMetadata (rHeader r)) (md5_etag data)) as [Ke Km].
  pose proof (objectType_idem (headerGet r "Content-Type")) as Hid. fold ct in Hid. rewrite <- Hid.
  eapply (get_serves e2 g st3 objs3 r2 key _ _ _ Hs3 He3 Ho); [done|done|done|apply md5_etag|exact Km|].
  intros k [v [Hv _]%map_lookup_filter_Some]. apply (userMetadata_lower (rHeader r)). by rewrite Hv.
Qed.
(** ** Bodies that fail *)

Section Rejected.
  Context {Ctot : CodecTotal} {SRel : SnapshotStoreReliable U} {DRel : DedupStoreReliable D}.

End Rejected.

(** ** Assembling parts *)

Lemma openParts_spec e g st objs parts datas :
  sim st objs -> env_ok e st ->
  Forall2 (fun p data => exists o, objs !! (gwDomain g, upRef p) = Some o /\ obData o = data) parts datas ->
  exists rs, openParts e g st parts = Ok rs /\ Forall2 (pending (wBlobs (gsWorld st))) rs datas.
Proof.
  intros Hs [Hfc Hsz]. induction 1 as [|p d parts ds (o & Ho & <-) _ (rs & Hrs & IH)]; [by exists []|].
  destruct (gateway_opens (eFramings e) g st objs (upRef p) o Hs Hfc Ho) as (rd & info & Hg & _ & Hp & _). exists (rd :: rs).
  cbn [openParts]. rewrite Hg. cbn [mbind result_bind]. rewrite Hrs. split; [done|by constructor].
Qed.

(** Deleting parts touches no other object. *)
Lemma deleteParts_sim g st objs parts : sim st objs ->
  exists objs', sim (deleteParts g st parts) objs' /\
    forall d ref, d <> gwDomain g \/ ref ∉ upRef <$> parts -> objs' !! (d, ref) = objs !! (d, ref).
Proof.
  revert st objs. induction parts as [|p parts IH]; intros st objs Hs; [by exists objs|]. cbn [deleteParts foldl].
  assert (H1 : exists objs1, sim (gwDelete g st (upRef p)).1 objs1 /\
    forall d ref, d <> gwDomain g \/ ref <> upRef p -> objs1 !! (d, ref) = objs !! (d, ref)).
  { destruct (gwDelete g st (upRef p)) as [st1 [[]|err]] eqn:E.
    - eexists. split; [by eapply delete_sim|]. intros d ref Hd. apply lookup_delete_ne. intros [= <- <-]. by destruct Hd.
    - destruct (delete_torn g st objs (upRef p) st1 err Hs E) as (objs1 & [x ->] & Hs1). eexists. split; [exact Hs1|].
      intros d ref Hd. apply lookup_partial_alter_ne. intros [= <- <-]. by destruct Hd. }
  destruct H1 as (objs1 & Hs1 & H1). destruct (IH _ _ Hs1) as (objs2 & Hs2 & H2). exists objs2. split; [exact Hs2|].
  intros d ref Hd. rewrite fmap_cons, not_elem_of_cons in Hd. rewrite H2, H1; [done|tauto..].
Qed.
(** A part that is stored is an object of its own, recorded with its digest. *)
Lemma uploadPart_stores h v s r g id n cred up body :
  ssMpu s !! id = Some up -> 1 <= n <= maxPartNumber -> objectBody (hMaxObj h) r cred = Ok body ->
  let put := gwPut (eNow (svEnv v)) g (ssGw s) (mpuPartRef id n) "application/octet-stream" body in
  match put.2 with
  | Err _ => True
  | Ok info =>
      let p := MkPart n (md5 (drained body)) (hex_encode (md5 (drained body))) (mpuPartRef id n) (oSize info) in
      (uploadPart h v false s r g id n cred).1 =
      S3St put.1 (ssBuckets s) (<[id := setParts (<[n := p]> (muParts up)) up]> (ssMpu s))
  end.
Proof.
  intros Hup Hn Hb put. unfold uploadPart. destruct (Z.ltb_spec n 1); [lia|]. destruct (Z.ltb_spec maxPartNumber n); [lia|]. cbn [orb].
  rewrite Hup, Hb. fold put. destruct put as [st [info|e]]; [|done]. cbn [fst snd]. cbv zeta. cbn [ssMpu withMpu].
  unfold mpuPutPart. rewrite Hup. done.
Qed.

Definition partData (objs : gmap (string * string) object) (d : string) (p : uploadedPart) : bytes :=
  default [] (obData <$> objs !! (d, upRef p)).

Lemma parts_sorted l : sortParts l ≡ₚ l /\ StronglySorted byNumber (sortParts l).
Proof.
  split; [apply merge_sort_Permutation|]. apply StronglySorted_merge_sort; [|intros a b; unfold byNumber; lia].
  intros a b c. unfold byNumber. lia.
Qed.

(** The put of the assembled object is ready. *)
Definition s3_complete_ready (v : serveEnv) (s : s3st) (g : Gateway) (key : string) (up : mpuUpload) (parts : list uploadedPart) : Prop :=
  forall readers, openParts (svEnv v) g (ssGw s) (sortParts parts) = Ok readers ->
    let m := buildObjectMeta (multipartETag (sortParts parts)) (muMeta up) in
    let r := multiReader (wBlobs (gsWorld (ssGw s))) readers (eSizes (svEnv v)) in
    put_conds g (ssGw s) key (muType up) m r /\ put_newest g (ssGw s) key (muType up) m r.

Lemma multipart_etag parts : multipartETag parts <> "".
Proof.
  intros E. apply (f_equal chars) in E. unfold multipartETag in E. rewrite !chars_app in E. apply app_eq_nil in E as [E _].
  apply (md5_etag (concat (upMD5 <$> parts))). by apply chars_inj.
Qed.

Lemma complete_inv h v s r g key id objs up want parts s' resp :
  sim (ssGw s) objs -> env_ok (svEnv v) (ssGw s) -> ssMpu s !! id = Some up ->
  decodeComplete (drained (rBody r)) = Some want -> resolveParts up want = Ok parts ->
  Forall (fun p => is_Some (objs !! (gwDomain g, upRef p))) parts ->
  completeMultipartUpload h v s r g key id = (s', resp) -> granted resp ->
  exists readers st info, openParts (svEnv v) g (ssGw s) (sortParts parts) = Ok readers /\
    let r := multiReader (wBlobs (gsWorld (ssGw s))) readers (eSizes (svEnv v)) in
    inputOf r = Ok (concat (partData objs (gwDomain g) <$> sortParts parts)) /\
    PutWithMeta (eNow (svEnv v)) g (ssGw s) key (muType up)
      (buildObjectMeta (multipartETag (sortParts parts)) (muMeta up)) r = (st, Ok info) /\
    s' = withMpu (withGw s (deleteParts g st (sortParts parts))) (delete id (ssMpu s)).
Proof.
  intros Hs He Hup Hdec Hres Hparts. unfold completeMultipartUpload. rewrite Hup, Hdec.
  destruct want as [|x want]; [by intros [= <- <-] ?%error_refused|]. rewrite Hres.
  destruct (_ && _); [by intros [= <- <-] ?%error_refused|]. cbv zeta.
  destruct (openParts_spec (svEnv v) g (ssGw s) objs (sortParts parts) (partData objs (gwDomain g) <$> sortParts parts) Hs He) as (rs & Hrs & Hpend).
  { apply Forall2_fmap_r, Forall_Forall2_diag. rewrite (proj1 (parts_sorted parts)). eapply Forall_impl; [exact Hparts|].
    intros p [o Ho]. exists o. cbn. unfold partData. by rewrite Ho. }
  rewrite Hrs. destruct (PutWithMeta _ _ _ _ _ _ _) as [st [info|err]] eqn:Hput; [|by intros [= <- <-] ?%error_refused].
  intros [= <- <-] _. exists rs, st, info. split; [done|]. split; [|done]. by apply multiReader_spec; [apply He|].
Qed.

(** C7: Completing an upload assembles its parts.  When CompleteMultipartUpload
    answers 200, the object under the key is the concatenation of the listed
    parts in the order of their numbers, under the ETag that S3 gives to such
    objects and with the type and metadata the upload began with; the upload is
    gone; and no object but the key's and the listed parts' has changed. *)
Theorem multipart_assembles h v s r g key id objs up want parts s' resp :
  sim (ssGw s) objs -> env_ok (svEnv v) (ssGw s) -> ssMpu s !! id = Some up ->
  decodeComplete (drained (rBody r)) = Some want -> resolveParts up want = Ok parts ->
  Forall (fun p => is_Some (objs !! (gwDomain g, upRef p))) parts -> key ∉ upRef <$> parts ->
  (forall k, is_Some (muMeta up !! k) -> lowerKey k) -> s3_complete_ready v s g key up parts ->
  completeMultipartUpload h v s r g key id = (s', resp) -> granted resp ->
  exists sorted objs', sorted ≡ₚ parts /\ StronglySorted byNumber sorted /\ sim (ssGw s') objs' /\ ssMpu s' = delete id (ssMpu s) /\
    (forall d ref, d <> gwDomain g \/ (ref ∉ key :: (upRef <$> parts)) -> objs' !! (d, ref) = objs !! (d, ref)) /\
    forall e2 r2, env_ok e2 (ssGw s') -> headerGet r2 "Range" = "" ->
      serves (getObject e2 g (ssGw s') r2 key true) (concat (partData objs (gwDomain g) <$> sorted))
        (hex_encode (md5 (concat (upMD5 <$> sorted))) +:+ "-" +:+ FormatInt (len sorted)) (objectType (muType up)) (muMeta up).
Proof.
  intros Hs He Hup Hdec Hres Hparts Hkey Hlow Hready Hc Hacc.
  destruct (complete_inv h v s r g key id objs up want parts s' resp) as (rs & st & info & Hrs & Hin & Hput & ->); [done..|].
  destruct (Hready rs Hrs) as [Hpc Hpn]. pose proof (put_sim _ _ _ _ _ _ _ _ _ _ _ Hs Hpc Hpn Hput Hin) as Hs1.
  destruct (parts_sorted parts) as [Hperm Hsorted]. exists (sortParts parts).
  destruct (deleteParts_sim g st _ (sortParts parts) Hs1) as (objs' & Hs2 & Hsame). exists objs'. cbn [ssGw ssMpu withGw withMpu].
  split_and!; [done..| |].
  - intros d ref Hd. rewrite not_elem_of_cons, <- Hperm in Hd. rewrite Hsame by tauto. apply lookup_insert_ne. intros [= <- <-]. by destruct Hd as [|[? _]].
  - intros e2 r2 He2 Hr2. destruct (meta_built (multipartETag (sortParts parts)) (muMeta up) (multipart_etag _)) as [Ke Km].
    pose proof (Hsame (gwDomain g) key ltac:(right; by rewrite Hperm)) as Ho. rewrite lookup_insert_eq in Ho.
    exact (get_serves e2 g _ objs' r2 key _ _ _ Hs2 He2 Ho eq_refl Hr2 Ke (multipart_etag _) Km Hlow).
Qed.
(** ** Confinement *)

(** From [st] to [st'], nothing changed but rows and snapshots of the domain,
    and no blob is gone. *)
Record confined (d : string) (st st' : gst) : Prop := {
  cf_valid : rvalid (gsRefs st');
  cf_blobs : blobs (wBlobs (gsWorld st)) ⊆ blobs (wBlobs (gsWorld st'));
  cf_rows : forall d' ref, d' <> d -> rrows (gsRefs st') !! (d', ref) = rrows (gsRefs st) !! (d', ref);
  cf_snaps : forall k v, (forall ref, k <> dkey d ref) -> snaps (wUps (gsWorld st')) !! (k, v) = snaps (wUps (gsWorld st)) !! (k, v);
  cf_stage : gsStage st' = gsStage st;
}.

Lemma confined_refl d st : rvalid (gsRefs st) -> confined d st st.
Proof. by split. Qed.

Lemma confined_trans d st1 st2 st3 : confined d st1 st2 -> confined d st2 st3 -> confined d st1 st3.
Proof.
  intros [? ? Hr1 Hs1 Hg1] [? ? Hr2 Hs2 Hg2]. split; [done|by etrans|intros; by rewrite Hr2, Hr1|intros; by rewrite Hs2, Hs1|by rewrite Hg2].
Qed.

Lemma within_confined d ref st st' : within d ref st st' -> gsStage st' = gsStage st -> confined d st st'.
Proof.
  intros [Hv Hb Hr Hs] Hg. split; [done|done| | |done]; [intros d' r' Hd; apply Hr; congruence|]. intros k v Hk. apply Hs, Hk.
Qed.

Lemma put_confined now g st ref ct m r st' res : rvalid (gsRefs st) ->
  PutWithMeta now g st ref ct m r = (st', res) -> confined (gwDomain g) st st'.
Proof.
  intros Hv Hp. eapply within_confined; [by eapply put_within|]. revert Hp. unfold PutWithMeta. case_decide; [by intros [= <- _]|].
  destruct (Put _ _ _ _ _) as [w' [sm|e]]; [|by intros [= <- _]]. destruct (rPut _ _) as [refs' [t|e]]; by intros [= <- _].
Qed.

Lemma meta_confined g st ref m st' res : rvalid (gsRefs st) -> SetUserMeta g st ref m = (st', res) -> confined (gwDomain g) st st'.
Proof.
  intros Hv Hm. eapply within_confined; [by eapply meta_within|]. revert Hm. unfold SetUserMeta. destruct (lookupRef g st ref); [|by intros [= <- _]].
  destruct (sGetLatestMetadata _ _); [|by intros [= <- _]]. destruct (UpdateLatestMeta _ _ _) as [u [md'|e]]; by intros [= <- _].
Qed.

Lemma delete_confined g st ref : rvalid (gsRefs st) -> confined (gwDomain g) st (gwDelete g st ref).1.
Proof.
  intros Hv. eapply within_confined; [by apply delete_within|]. unfold gwDelete.
  destruct (match sList _ _ with Err ErrNoSnapshot => Ok [] | r => r end); [|done]. by destruct (deleteVersions _ _ _) as [u [t|e]].
Qed.

Lemma deleteParts_confined g st parts : rvalid (gsRefs st) -> confined (gwDomain g) st (deleteParts g st parts).
Proof.
  revert st. induction parts as [|p parts IH]; intros st Hv; [by apply confined_refl|]. cbn [deleteParts foldl].
  pose proof (delete_confined g st (upRef p) Hv) as Hc. eapply confined_trans; [exact Hc|]. apply IH, Hc.
Qed.

Definition bucketsOf (s : s3st) : gmap string bucketRecord := default ∅ (ssBuckets s).

(** A request on a bucket of the domain, with these upload ids. *)
Record touches (d bucket : string) (ids : list string) (s s' : s3st) : Prop := {
  to_gw : confined d (ssGw s) (ssGw s');
  to_buckets : forall b, b <> bucket -> bucketsOf s' !! b = bucketsOf s !! b;
  to_mpu : forall id, id ∉ ids -> ssMpu s' !! id = ssMpu s !! id;
}.

Lemma touches_refl d bucket ids s : rvalid (gsRefs (ssGw s)) -> touches d bucket ids s s.
Proof. intros Hv. split; [by apply confined_refl|done..]. Qed.

Lemma touches_gw d bucket ids s st : confined d (ssGw s) st -> touches d bucket ids s (withGw s st).
Proof. by split. Qed.

Lemma touches_both d bucket ids s st m : confined d (ssGw s) st -> (forall id, id ∉ ids -> m !! id = ssMpu s !! id) ->
  touches d bucket ids s (withMpu (withGw s st) m).
Proof. by split. Qed.

#[local] Create HintDb s3.
#[local] Hint Resolve touches_refl touches_gw touches_both confined_refl delete_confined deleteParts_confined : s3.

Lemma putObject_confined maxObj e g st r key cred : rvalid (gsRefs st) ->
  confined (gwDomain g) st (putObject maxObj e g st r key cred).1.
Proof.
  intros Hv. unfold putObject. destruct (objectBody _ _ _) as [body|]; [|by apply confined_refl].
  destruct (gwPut _ _ _ _ _ _) as [st1 [info|]] eqn:Hp; apply put_confined in Hp as Hc; try done.
  destruct (SetUserMeta _ _ _ _) as [st2 res] eqn:Hm. apply meta_confined in Hm; [|apply Hc].
  destruct res; by eapply confined_trans.
Qed.

Lemma deleteObject_confined g st r key : rvalid (gsRefs st) -> confined (gwDomain g) st (deleteObject g st r key).1.
Proof.
  intros Hv. pose proof (delete_confined g st key Hv) as Hc. unfold deleteObject. by destruct (gwDelete g st key) as [st' [[]|]].
Qed.

Lemma uploadPart_touches h v gone s r g bucket id n cred : rvalid (gsRefs (ssGw s)) ->
  touches (gwDomain g) bucket [id] s (uploadPart h v gone s r g id n cred).1.
Proof.
  intros Hv. unfold uploadPart. destruct (_ || _); [by eauto with s3|]. destruct (ssMpu s !! id) as [up|]; [|by eauto with s3].
  destruct (objectBody _ _ _) as [body|]; [|by eauto with s3].
  destruct (gwPut _ _ _ _ _ _) as [st [info|]] eqn:Hp; apply put_confined in Hp as Hc; try done.
  cbv zeta. unfold mpuPutPart. cbn [ssMpu withMpu]. set (m := if gone then _ else _).
  assert (Hm : forall i, i ∉ [id] -> m !! i = ssMpu s !! i).
  { intros i Hi. rewrite not_elem_of_cons in Hi. unfold m. destruct gone; [|done]. apply lookup_delete_ne. naive_solver. }
  destruct (m !! id) as [u|]; split; cbn; try done.
  - intros i Hi. etrans; [apply lookup_insert_ne; rewrite not_elem_of_cons in Hi; naive_solver|by apply Hm].
  - eapply confined_trans; [exact Hc|]. apply delete_confined, Hc.
Qed.

Lemma without_id (m : mpuStore) id i : i ∉ [id] -> delete id m !! i = m !! i.
Proof. intros Hi. rewrite not_elem_of_cons in Hi. apply lookup_delete_ne. naive_solver. Qed.

Lemma complete_touches h v s r g bucket key id : rvalid (gsRefs (ssGw s)) ->
  touches (gwDomain g) bucket [id] s (completeMultipartUpload h v s r g key id).1.
Proof.
  intros Hv. unfold completeMultipartUpload. destruct (ssMpu s !! id) as [up|]; [|by eauto with s3].
  destruct (decodeComplete _) as [[|w want]|]; [by eauto with s3| |by eauto with s3].
  destruct (resolveParts _ _) as [parts|]; [|by eauto with s3]. destruct (_ && _); [by eauto with s3|]. cbv zeta.
  destruct (openParts _ _ _ _) as [rs|]; [|by eauto with s3].
  destruct (PutWithMeta _ _ _ _ _ _ _) as [st [info|]] eqn:Hp; apply put_confined in Hp as Hc; try done.
  apply touches_both; [|intros i; apply without_id]. eapply confined_trans; [exact Hc|]. apply deleteParts_confined, Hc.
Qed.

Lemma abort_touches s r g bucket id : rvalid (gsRefs (ssGw s)) -> touches (gwDomain g) bucket [id] s (abortMultipartUpload s r g id).1.
Proof.
  intros Hv. unfold abortMultipartUpload. destruct (ssMpu s !! id) as [up|]; [|by eauto with s3].
  apply touches_both; [by apply deleteParts_confined|intros i; apply without_id].
Qed.

Lemma touches_more d bucket ids ids' s s' : ids ⊆ ids' -> touches d bucket ids s s' -> touches d bucket ids' s s'.
Proof. intros Hi [H1 H2 H3]. split; [done..|]. intros id Hid. apply H3. set_solver. Qed.

(** The uploads a request can name. *)
Definition requestIds (v : serveEnv) (r : request) : list string := [queryGet r "uploadId"; newUploadID (svIdNow v) (svIdBuf v)].

Lemma serveObject_touches h v gone s r g bucket key cred : rvalid (gsRefs (ssGw s)) ->
  touches (gwDomain g) bucket (requestIds v r) s (serveObject h v gone s r g (gwDomain g) bucket key cred).1.
Proof.
  intros Hv. unfold serveObject. set (id := queryGet r "uploadId").
  assert (Hid : [id] ⊆ requestIds v r) by (unfold requestIds; set_solver).
  case_decide; [|case_decide; [|case_decide; [|case_decide; [by eauto with s3|case_decide; [|by eauto with s3]]]]].
  - destruct (rQuery r !! "uploads"); [|case_decide; [by eauto with s3|eapply touches_more, complete_touches; done]].
    split; cbn; [by apply confined_refl|done|]. intros i Hi. unfold requestIds in Hi. rewrite !not_elem_of_cons in Hi. apply lookup_insert_ne. naive_solver.
  - case_decide; [apply touches_gw; by apply putObject_confined|]. destruct (Atoi _); [|by eauto with s3].
    by eapply touches_more, uploadPart_touches.
  - case_decide; by eauto with s3.
  - case_decide; [apply touches_gw; by apply deleteObject_confined|]. by eapply touches_more, abort_touches.
Qed.

Lemma serveBucket_touches h v s r g bucket : rvalid (gsRefs (ssGw s)) ->
  touches (gwDomain g) bucket (requestIds v r) s (serveBucket h v s r g (gwDomain g) bucket).1.
Proof.
  intros Hv. unfold serveBucket. case_decide; [destruct (rQuery r !! "uploads"); by eauto with s3|].
  case_decide; [|case_decide; [by eauto with s3|case_decide; [|by eauto with s3]]].
  - unfold createBucket. destruct (ssBuckets s) as [m|] eqn:E; [|by eauto with s3]. destruct (m !! bucket); [by eauto with s3|].
    split; [by apply confined_refl| |done]. intros b Hb. unfold bucketsOf. rewrite E. by apply lookup_insert_ne.
  - unfold deleteBucket. destruct (ssBuckets s) as [m|] eqn:E; [|by eauto with s3]. destruct (m !! bucket); [|by eauto with s3].
    destruct (gwList _ _ _ _) as [infos|]; [|by eauto with s3]. destruct (forallb _ _); [|by eauto with s3].
    split; [by apply confined_refl| |done]. intros b' Hb. unfold bucketsOf. rewrite E. by apply lookup_delete_ne.
Qed.

(** C6: A request is confined.  A request that does not authenticate, or whose
    domain has no gateway, changes nothing at all.  Any other, whatever it does
    and however it fails, leaves the objects of every domain but the one its
    credential and bucket resolve to as they were, deletes no blob, and touches
    no bucket record but its own and no upload but the one it names. *)
Theorem s3_confined h v gone s r s' resp :
  (forall d g, hRouter h d = Some g -> gwDomain g = d) -> rvalid (gsRefs (ssGw s)) ->
  ServeHTTP h v gone s r = (s', resp) ->
  s' = s \/
  exists bucket key cred d, splitPath (rPath r) = (bucket, key) /\
    authenticate (hCreds h) (resolver h (ssBuckets s)) (svNow v) r bucket = Ok (cred, d) /\
    is_Some (hRouter h d) /\ touches d bucket (requestIds v r) s s'.
Proof.
  intros Hrt Hv. unfold ServeHTTP. destruct (splitPath _) as [bucket key] eqn:Esp. case_decide.
  { case_decide; [|by intros [= <- _]; left]. destruct (authenticateService _ _ _); by intros [= <- _]; left. }
  destruct (authenticate _ _ _ _ _) as [[cred d]|] eqn:Ea; [|by intros [= <- _]; left].
  destruct (hRouter h d) as [g|] eqn:Eg; [|by intros [= <- _]; left]. pose proof (Hrt d g Eg) as Hd. rewrite <- Hd in *. intros E.
  assert (Hgo : s' = s \/ touches (gwDomain g) bucket (requestIds v r) s s').
  { case_decide; [right; pose proof (serveBucket_touches h v s r g bucket Hv) as Ht; by rewrite E in Ht|].
    pose proof (serveObject_touches h v gone s r g bucket key cred Hv) as Ht.
    destruct (ssBuckets s) as [m|]; [destruct (m !! bucket)|].
    - right. by rewrite E in Ht.
    - left. congruence.
    - right. by rewrite E in Ht. }
  destruct Hgo as [?|Ht]; [by left|]. right. exists bucket, key, cred, (gwDomain g). rewrite Eg. split_and!; done.
Qed.
End Client.
