(* ===== verification/S3Scenarios.v ===== *)
(** S3 runs on the in-memory stores: the witnesses of S3List and S3Spec, and two
    runs that go wrong.

    [list_delimiter_loops]: with a delimiter and pages of one key the
    continuation token never gets past the first common prefix, so a client never
    sees the rest.  [registry_crosses_tenants]: the bucket registry gives a
    credential the domain of whoever created the bucket. *)

From stdpp Require Import sorting.
From S2P Require Import Prelude GoStrings Decimal Sha256 PackFormat BlobStore Manifest SnapStore DedupIndex Reclaim ChunkedRead ChunkedWrite StreamCopy PutSpec PutGet BatchSpec GC GCSpec MetaOps Lifecycle GoText RefStore Gateway GatewaySpec Scenarios GatewayScenarios S3Crypto S3Auth S3Stream S3Objects S3Range S3List S3Multi S3Spec.

#[local] Abbreviation memGst := (@gst mem_storage mem_snaps mem_dedup mem_refs mem_stage).

(** ** Puts without packing *)

Definition sx_cfg : ChunkedStore := MkStore packingDisabled "" GlobalIndex (fun _ => CompressNone) PackCompressPerChunk.
Definition sx_gw : Gateway := MkGateway sx_cfg "t" true true.
Definition sx_env : s3env := MkEnv 5 (fun _ => 8%nat) ∅.

Definition chunk_agreesb (st : memGst) (x : bytes) : bool :=
  match memBlobs (wBlobs (gsWorld st)) !! chunkBlobID "t" (sha256_hex x) with
  | Some (stored, _) => match decompressPackBlob stored with Ok y => bool_decide (y = x) | Err _ => false end
  | None => true
  end.

Definition put_readyb (st : memGst) (all : list bytes) : bool :=
  forallb (chunk_agreesb st) all &&
  forallb (fun x => forallb (fun y => negb (bool_decide (sha256_hex x = sha256_hex y)) || bool_decide (x = y)) all) all.

Definition put_newestb (st : memGst) (ref ct : string) (m : gmap string string) (r : rdStream) : bool :=
  match (Put (Sp := ex_sp) sx_cfg (gsWorld st) (gwKey sx_gw ref) (userSnap ct m) r).2 with
  | Ok sm => forallb (fun v' => str_ltb v' (Version sm)) (versionsOf (wUps (gsWorld st)) (gwKey sx_gw ref))
  | Err _ => true
  end.

Lemma put_conds_check (st : memGst) ref ct m r :
  put_readyb st (chunksOf (Sp := ex_sp) r) = true -> put_conds (Sp := ex_sp) sx_gw st ref ct m r.
Proof.
  unfold put_readyb. rewrite andb_true_iff, !forallb_forall. intros [Ha Hh]. split; [|split; [exact I|vm_compute; discriminate]].
  change (chunks_agree "t" (wBlobs (gsWorld st)) (chunksOf (Sp := ex_sp) r) /\ hashes_agree (chunksOf (Sp := ex_sp) r)). split.
  - intros x stored ts Hx%list_elem_of_In%Ha Hb. unfold chunk_agreesb in Hx.
    change (memBlobs (wBlobs (gsWorld st)) !! chunkBlobID "t" (sha256_hex x) = Some (stored, ts)) in Hb. rewrite Hb in Hx.
    destruct (decompressPackBlob stored) as [y|]; [|done]. apply bool_decide_eq_true in Hx. by subst y.
  - intros x y Hx%list_elem_of_In%Hh Hy%list_elem_of_In E. rewrite forallb_forall in Hx. apply Hx in Hy.
    rewrite orb_true_iff, negb_true_iff, bool_decide_eq_false, bool_decide_eq_true in Hy. tauto.
Qed.

Lemma put_newest_check (st : memGst) ref ct m r : put_newestb st ref ct m r = true -> put_newest (Sp := ex_sp) sx_gw st ref ct m r.
Proof. unfold put_newestb. intros H w' sm E. change (gwStore sx_gw) with sx_cfg in E. rewrite E in H. by apply newest_check. Qed.

Lemma sx_env_ok (st : memGst) : env_ok sx_env st.
Proof. split; [apply cache_ok_empty|]. intros i. cbn. lia. Qed.

(** ** Put and get *)

Definition sx_cred : Credential := MkCred "AK" "secret" "t".

Definition sx_auth : string :=
  "AWS4-HMAC-SHA256 Credential=AK/20240101/us-east-1/s3/aws4_request, SignedHeaders=host, Signature=0123456789abcdef".

Definition sx_headers (sha : string) : gmap string (list string) := list_to_map [
  ("Authorization", [sx_auth]); ("X-Amz-Content-Sha256", [sha]); ("Content-Type", ["text/plain"]);
  ("X-Amz-Meta-Color", ["blue"]); ("X-Amz-Meta-Empty", [""])].

Definition sx_put_req : request := MkReq "PUT" "/b/o" ∅ (sx_headers unsignedPayload) "host" ex_in.
Definition sx_get_req (range : string) : request := MkReq "GET" "/b/o" ∅ (<["Range" := [range]]> ∅) "host" [].

#[local] Abbreviation sx_put := (putObject (Sp := ex_sp) 0 sx_env sx_gw gx_st0 sx_put_req "o" sx_cred).
#[local] Abbreviation sx_st1 := (sx_put.1).

Definition sx_meta : gmap string string := buildObjectMeta (hex_encode (md5 (drained ex_in))) (userMetadata (rHeader sx_put_req)).

Lemma sx_put_ready : s3_put_ready (Sp := ex_sp) sx_env sx_gw gx_st0 sx_put_req "o" ex_in.
Proof.
  split; [apply put_conds_check; vm_compute; reflexivity|]. split; [apply put_newest_check; vm_compute; reflexivity|].
  intros st1 info E. apply (f_equal fst) in E. cbn [fst] in E. rewrite <- E. apply meta_newest_check. vm_compute. reflexivity.
Qed.

Lemma s3_put_get_witness :
  serves (getObject sx_env sx_gw sx_st1 (sx_get_req "") "o" true) ex_data (hex_encode (md5 ex_data)) "text/plain" {["color" := "blue"]}.
Proof.
  destruct (s3_put_get (Sp := ex_sp) 0 sx_env sx_gw gx_st0 ∅ sx_put_req "o" sx_cred ex_in sx_st1 sx_put.2 gx_sim0) as (data & o & Hin & Hs & _ & _ & Hget).
  - vm_compute. reflexivity.
  - apply sx_put_ready.
  - apply surjective_pairing.
  - vm_compute. reflexivity.
  - rewrite gx_input in Hin. injection Hin as <-.
    exact (Hget sx_env sx_st1 _ (sx_get_req "") Hs (sx_env_ok _) (lookup_insert_eq _ _ _) eq_refl).
Defined.

Lemma get_object_ranges_witness :
  let resp := getObject sx_env gx_gw (PutWithMeta (Sp := ex_sp) 5 gx_gw gx_st0 "o" "text/plain" gx_meta ex_in).1 (sx_get_req "bytes=5-12") "o" true in
  rsBody resp = Data (slice ex_data 5 13) /\ rsHeader resp !! "Content-Length" = Some (FormatInt 8) /\
  (FromTo 5 12 = Whole -> rsStatus resp = 200) /\
  (FromTo 5 12 <> Whole -> rsStatus resp = 206 /\
     rsHeader resp !! "Content-Range" = Some ("bytes " +:+ FormatInt 5 +:+ "-" +:+ FormatInt 12 +:+ "/" +:+ FormatInt 25)).
Proof.
  apply (get_object_ranges sx_env gx_gw _ (<[("t", "o") := gx_obj]> ∅) (sx_get_req "bytes=5-12") "o" gx_obj (FromTo 5 12) gx_sim1 (sx_env_ok _)).
  - reflexivity.
  - reflexivity.
  - vm_compute. reflexivity.
  - cbn. lia.
Defined.

(** The declared digest is not that of the body. *)
Definition sx_bad_req : request := MkReq "PUT" "/b/o" ∅ (sx_headers (sha256_hex [])) "host" ex_in.
#[local] Abbreviation sx_bad := (putObject (Sp := ex_sp) 0 sx_env sx_gw gx_st0 sx_bad_req "o" sx_cred).


(** ** Multipart *)

(** A document of fixed-width records stands in for the XML: a part number of
    one byte, then the 32 digits of the ETag. *)
Fixpoint decodeRecords (fuel : nat) (b : bytes) : option (list (Z * string)) :=
  match fuel, b with
  | _, [] => Some []
  | S fuel, n :: b => (fun l => (byte_Z n, bstring (slice b 0 32)) :: l) <$> decodeRecords fuel (slice b 32 (len b))
  | O, _ => None
  end.

#[local] Instance recordsXML : CompleteXML := {| decodeComplete := fun b => decodeRecords (length b) b |}.

Definition sx_handler : handler := MkHandler (fun d => if decide (d = "t") then Some sx_gw else None) {["AK" := sx_cred]} None 0.
Definition sx_serve : serveEnv := MkServe 7 7 [Byte.x01] sx_env.
Definition sx_id : string := newUploadID 7 [Byte.x01].

Definition sx_part_req (data : bytes) : request := MkReq "PUT" "/b/k" ∅ (sx_headers unsignedPayload) "host" [(data, RdEOF)].
Definition sx_part1 : bytes := sbytes "first ".
Definition sx_part2 : bytes := sbytes "second".

Definition sx_done_req : request :=
  MkReq "POST" "/b/k" ∅ ∅ "host"
    [(Byte.x02 :: sbytes (hex_encode (md5 sx_part2)) ++ Byte.x01 :: sbytes (hex_encode (md5 sx_part1)), RdEOF)].

(** The upload begins, part 2 arrives, then part 1. *)
Definition sx_s0 : s3st := S3St gx_st0 None ∅.
#[local] Abbreviation sx_s1 := ((createMultipartUpload sx_serve sx_s0 sx_put_req "t" "b" "k").1).
#[local] Abbreviation sx_s2 := ((uploadPart (Sp := ex_sp) sx_handler sx_serve false sx_s1 (sx_part_req sx_part2) sx_gw sx_id 2 sx_cred).1).
#[local] Abbreviation sx_s3 := ((uploadPart (Sp := ex_sp) sx_handler sx_serve false sx_s2 (sx_part_req sx_part1) sx_gw sx_id 1 sx_cred).1).
#[local] Abbreviation sx_done := (completeMultipartUpload (Sp := ex_sp) sx_handler sx_serve sx_s3 sx_done_req sx_gw "k" sx_id).

Definition sx_p1 : uploadedPart := MkPart 1 (md5 sx_part1) (hex_encode (md5 sx_part1)) (mpuPartRef sx_id 1) 6.
Definition sx_p2 : uploadedPart := MkPart 2 (md5 sx_part2) (hex_encode (md5 sx_part2)) (mpuPartRef sx_id 2) 6.
Definition sx_up : mpuUpload :=
  MkMpu sx_id "b" "t" "k" "text/plain" (userMetadata (rHeader sx_put_req)) 7 (<[1 := sx_p1]> (<[2 := sx_p2]> ∅)).

Definition sx_obj (data : bytes) : object := MkObj data ∅ "application/octet-stream" (len data) (sha256_hex data).

(** A part that is stored is an object. *)
Lemma part_sim (st : memGst) objs ref data :
  sim st objs -> put_readyb st (chunksOf (Sp := ex_sp) [(data, RdEOF)]) = true ->
  put_newestb st ref "application/octet-stream" ∅ [(data, RdEOF)] = true ->
  is_ok (gwPut (Sp := ex_sp) 5 sx_gw st ref "application/octet-stream" [(data, RdEOF)]).2 = true ->
  sim (gwPut (Sp := ex_sp) 5 sx_gw st ref "application/octet-stream" [(data, RdEOF)]).1 (<[("t", ref) := sx_obj data]> objs).
Proof.
  intros Hs Hr Hn Hok. eapply (put_sim (Sp := ex_sp) 5 sx_gw st objs ref "application/octet-stream" ∅ [(data, RdEOF)]).
  - done.
  - by apply put_conds_check.
  - by apply put_newest_check.
  - apply ok_pair with (d := MkInfo "" "" "" 0 "" 0 "" ∅ false "" "" 0). exact Hok.
  - done.
Qed.

Definition sx_objs : gmap (string * string) object :=
  <[("t", mpuPartRef sx_id 1) := sx_obj sx_part1]> (<[("t", mpuPartRef sx_id 2) := sx_obj sx_part2]> ∅).

(** The part goes to the upload of the state. *)
Lemma part_step s objs up n data :
  sim (ssGw s) objs -> ssMpu s !! sx_id = Some up -> 1 <= n <= maxPartNumber ->
  put_readyb (ssGw s) (chunksOf (Sp := ex_sp) [(data, RdEOF)]) = true ->
  put_newestb (ssGw s) (mpuPartRef sx_id n) "application/octet-stream" ∅ [(data, RdEOF)] = true ->
  is_ok (gwPut (Sp := ex_sp) 5 sx_gw (ssGw s) (mpuPartRef sx_id n) "application/octet-stream" [(data, RdEOF)]).2 = true ->
  sim (ssGw (uploadPart (Sp := ex_sp) sx_handler sx_serve false s (sx_part_req data) sx_gw sx_id n sx_cred).1)
    (<[("t", mpuPartRef sx_id n) := sx_obj data]> objs).
Proof.
  intros Hs Hup Hn Hr Hnew Hok. pose proof (part_sim _ _ _ _ Hs Hr Hnew Hok) as Hp.
  pose proof (uploadPart_stores (Sp := ex_sp) sx_handler sx_serve s (sx_part_req data) sx_gw sx_id n sx_cred up [(data, RdEOF)] Hup Hn eq_refl) as Hst.
  cbv zeta in Hst. change (eNow (svEnv sx_serve)) with 5 in Hst. destruct (gwPut _ _ _ _ _ _) as [st [info|e]]; [|done]. cbn [fst snd] in *. by rewrite Hst.
Qed.

Lemma sx_sim3 : sim (ssGw sx_s3) sx_objs.
Proof.
  apply (part_step sx_s2 _ (ok_or sx_up (from_option Ok (Err ErrNotFound) (ssMpu sx_s2 !! sx_id)))).
  - apply (part_step sx_s1 ∅ (MkMpu sx_id "b" "t" "k" "text/plain" (userMetadata (rHeader sx_put_req)) 7 ∅)).
    + apply gx_sim0.
    + vm_compute. reflexivity.
    + vm_compute. split; congruence.
    + vm_compute. reflexivity.
    + vm_compute. reflexivity.
    + vm_compute. reflexivity.
  - vm_compute. reflexivity.
  - vm_compute. split; congruence.
  - vm_compute. reflexivity.
  - vm_compute. reflexivity.
  - vm_compute. reflexivity.
Qed.

Definition sx_complete_readyb (s : s3st) (up : mpuUpload) (parts : list uploadedPart) : bool :=
  match openParts sx_env sx_gw (ssGw s) (sortParts parts) with
  | Ok readers =>
      let m := buildObjectMeta (multipartETag (sortParts parts)) (muMeta up) in
      let r := multiReader (wBlobs (gsWorld (ssGw s))) readers (eSizes sx_env) in
      put_readyb (ssGw s) (chunksOf (Sp := ex_sp) r) && put_newestb (ssGw s) "k" (muType up) m r
  | Err _ => true
  end.

Lemma complete_ready_check s up parts : sx_complete_readyb s up parts = true -> s3_complete_ready (Sp := ex_sp) sx_serve s sx_gw "k" up parts.
Proof.
  unfold sx_complete_readyb. intros H readers E. change (svEnv sx_serve) with sx_env in *. rewrite E in H. apply andb_true_iff in H as [H1 H2].
  split; [by apply put_conds_check|by apply put_newest_check].
Qed.

Lemma multipart_assembles_witness :
  serves (getObject sx_env sx_gw (ssGw sx_done.1) (sx_get_req "") "k" true) (sx_part1 ++ sx_part2)
    (hex_encode (md5 (md5 sx_part1 ++ md5 sx_part2)) +:+ "-2") "text/plain" (userMetadata (rHeader sx_put_req)).
Proof.
  destruct (multipart_assembles (Sp := ex_sp) sx_handler sx_serve sx_s3 sx_done_req sx_gw "k" sx_id sx_objs sx_up
    [(2, hex_encode (md5 sx_part2)); (1, hex_encode (md5 sx_part1))] [sx_p2; sx_p1] sx_done.1 sx_done.2 sx_sim3 (sx_env_ok _))
    as (sorted & objs' & Hperm & Hsort & Hs & _ & _ & Hget).
  - vm_compute. reflexivity.
  - vm_compute. reflexivity.
  - vm_compute. reflexivity.
  - constructor; [exists (sx_obj sx_part2); vm_compute; reflexivity|].
    constructor; [exists (sx_obj sx_part1); vm_compute; reflexivity|constructor].
  - apply (bool_decide_unpack _). vm_compute. exact I.
  - intros k. apply userMetadata_lower.
  - apply complete_ready_check. vm_compute. reflexivity.
  - apply surjective_pairing.
  - vm_compute. reflexivity.
  - symmetry in Hperm. apply Permutation_length_2_inv in Hperm as [-> | ->].
    + exfalso. apply StronglySorted_inv in Hsort as [_ Hf]. apply Forall_cons in Hf as [Hf _]. revert Hf. vm_compute. congruence.
    + exact (Hget sx_env (sx_get_req "") (sx_env_ok _) eq_refl).
Defined.

(** ** One server *)

Definition sx_srv : s3st := S3St gx_st0 (Some {["b" := MkBucket "t" 0]}) ∅.

Lemma sx_router d g : hRouter sx_handler d = Some g -> gwDomain g = d.
Proof. cbn. case_decide; [|done]. intros [= <-]. done. Qed.

#[local] Abbreviation sx_served := (ServeHTTP (Sp := ex_sp) sx_handler sx_serve false sx_srv sx_put_req).

Lemma s3_confined_witness :
  sx_served.1 = sx_srv \/
  exists bucket key cred d, splitPath "/b/o" = (bucket, key) /\
    authenticate (hCreds sx_handler) (resolver sx_handler (ssBuckets sx_srv)) 7 sx_put_req bucket = Ok (cred, d) /\
    is_Some (hRouter sx_handler d) /\ touches d bucket (requestIds sx_serve sx_put_req) sx_srv sx_served.1.
Proof.
  apply (s3_confined (Sp := ex_sp) sx_handler sx_serve false sx_srv sx_put_req sx_served.1 sx_served.2 sx_router).
  - apply gx_sim0.
  - apply surjective_pairing.
Defined.

(** ** Listings *)

Definition sx_row (ref : string) (size : Z) : ObjectInfo := MkInfo ref "t" "" size "" 0 "v" ∅ false "" "" 0.

(** The rows of the refs; a part of an upload is among them. *)
Definition sx_rows (refs : list string) : @rstore mem_refs :=
  foldl (fun s ref => (rPut s (sx_row ref (strlen ref))).1) (MemRefs ∅ : @rstore mem_refs) refs.

Definition sx_listed : memGst := GS ex_w0 (sx_rows ["b/2"; "a/1"; mpuPartRef "u" 1; "c"]) (MemStage ∅ 0 : @stage mem_stage).

Lemma sx_rows_valid refs : rvalid (sx_rows refs).
Proof.
  unfold sx_rows. assert (H : rvalid (MemRefs ∅ : @rstore mem_refs)) by apply gx_sim0.
  revert H. generalize (MemRefs ∅ : @rstore mem_refs). induction refs as [|ref refs IH]; intros s Hs; [done|]. cbn [foldl]. apply IH.
  eapply rput_valid; [apply surjective_pairing|done].
Qed.

Lemma list_pages_cover_witness :
  exists es, listAll 5 sx_gw sx_listed "b" "" 2 "" = Some es /\
    StronglySorted (fun a b => str_ltb (leKey a) (leKey b) = true) es /\
    forall k z, (exists e, e ∈ es /\ leKey e = k /\ leSize e = z) <->
      HasPrefix k "" = true /\ HasPrefix k mpuPartPrefix = false /\
      exists i, rrows (gsRefs sx_listed) !! ("t", k) = Some i /\ oSize i = z.
Proof.
  apply (list_pages_cover sx_gw sx_listed "b" "" 2 (ok_or [] (gwList sx_gw sx_listed "" 0)) 5 (sx_rows_valid _)).
  - vm_compute. reflexivity.
  - vm_compute. reflexivity.
  - split; [lia|reflexivity].
  - vm_compute. lia.
Defined.

Example listed_keys : option_map (fun es => leKey <$> es) (listAll 5 sx_gw sx_listed "b" "" 2 "") = Some ["a/1"; "b/2"; "c"].
Proof. vm_compute. reflexivity. Qed.

Definition sx_params : listParams := MkParams "" "/" 10 "" false "" "" true.
Definition sx_infos : list ObjectInfo := [sx_row "a/1" 3; sx_row "a/2" 3; sx_row "b/2" 3; sx_row "c" 1].

Lemma list_rollup_witness :
  lrContents (buildListResult sx_gw sx_listed "b" sx_params sx_infos) =
    entryOf sx_gw sx_listed sx_params <$> filter (fun i => rollup sx_params (Ref i) = None) (shown sx_params sx_infos) /\
  exists cps, lrPrefixes (buildListResult sx_gw sx_listed "b" sx_params sx_infos) = (fun k => encodeKey k false) <$> cps /\ NoDup cps /\
    forall cp, cp ∈ cps <-> exists i, i ∈ shown sx_params sx_infos /\ rollup sx_params (Ref i) = Some cp.
Proof. apply (list_rollup sx_gw sx_listed "b" sx_params sx_infos). vm_compute. reflexivity. Defined.

Example rolled_up :
  lrPrefixes (buildListResult sx_gw sx_listed "b" sx_params sx_infos) = ["a/"; "b/"] /\
  (leKey <$> lrContents (buildListResult sx_gw sx_listed "b" sx_params sx_infos)) = ["c"].
Proof. vm_compute. split; reflexivity. Qed.

(** A client that lists folders one by one. *)
Definition folderRequest (tok : string) : request :=
  MkReq "GET" "/b" (list_to_map [("list-type", ["2"]); ("delimiter", ["/"]); ("max-keys", ["1"]); ("continuation-token", [tok])]) ∅ "" [].

Definition noList : listBucketResult := MkList "" "" "" 0 "" 0 false "" "" "" "" "" [] [].

Definition folderPage (tok : string) : listBucketResult :=
  match rsBody (listObjects sx_gw sx_listed (folderRequest tok) "b") with ListDoc d => d | _ => noList end.

Fixpoint folderToken (n : nat) : string :=
  match n with O => "" | S n => lrNextToken (folderPage (folderToken n)) end.

(** Listing folders in pages of one never ends.  In a bucket with the keys
    a/1, b/2 and c, every page of a client that follows the continuation tokens
    shows the common prefix a/ and says that there is more: the token is the
    prefix itself, which is below the key it stands for, so the next page starts
    with that key again.  The prefix b/ and the key c are never shown. *)
Theorem list_delimiter_loops n :
  let d := folderPage (folderToken n) in lrPrefixes d = ["a/"] /\ lrContents d = [] /\ lrTruncated d = true.
Proof.
  assert (Ht : folderToken n = "" \/ folderToken n = lrNextToken (folderPage "")).
  { induction n as [|n [IH|IH]]; [by left| |]; right; cbn [folderToken]; rewrite IH; [done|]. vm_compute. reflexivity. }
  destruct Ht as [-> | ->]; vm_compute; auto.
Qed.

(** ** Buckets of others *)

(** A credential of domain m addresses a bucket that domain t created and gets
    the domain t. *)
Example registry_crosses_tenants :
  resolveBucket (Some {["b" := MkBucket "t" 0]}) (MkCred "M" "secret" "m") "b" = Some "t".
Proof. reflexivity. Qed.
