(* ===== verification/EdgeCap.v ===== *)
(** Capability tokens of the edge (blobgw-edge/capability/capability.go).

    A capability is a set of claims, signed with Ed25519 and written as two
    base64url parts.  Ed25519 and [encoding/json] on the claims are classes with
    their documented laws: what was signed verifies, and what was marshalled is
    unmarshalled.  [verify_minted]: a minted token verifies, within its window,
    to the claims it was minted with.  [verify_inv] says what an accepted token
    has passed. *)

From S2P Require Import Prelude GoStrings Decimal Sha256 Manifest SnapStore GoText S3Crypto.
From Stdlib Require Import Ascii.

(** ** Claims *)

Definition capVersion : Z := 1.

Definition OpPut : string := "PUT".
Definition OpGet : string := "GET".
Definition OpHead : string := "HEAD".
Definition OpDelete : string := "DELETE".
Definition OpStage : string := "STAGE".
Definition OpFinalize : string := "FINALIZE".

Record Claims := MkClaims {
  cVer : Z; cKeyID : string; cTenant : string; cSubject : string; cOp : string; cRef : string; cMaxSize : Z;
  cContentType : string; cContentHash : string; cNotBefore : Z; cExpiry : Z; cJTI : string; cAudience : string;
  cRequireAuth : bool; cMatchMode : string }.

Definition ErrMalformed : err := EOther "capability: malformed token".
Definition ErrVersion : err := EOther "capability: unsupported version".
Definition ErrUnknownKey : err := EOther "capability: unknown key id".
Definition ErrBadSignature : err := EOther "capability: bad signature".
Definition ErrExpired : err := EOther "capability: token expired".
Definition ErrNotYetValid : err := EOther "capability: token not yet valid".
Definition ErrBadAudience : err := EOther "capability: wrong audience".

(** [crypto/ed25519]: keys, signing and verification. *)
Class Ed25519 := {
  edPriv : Type; edPub : Type;
  edPublic : edPriv -> edPub;
  edSign : edPriv -> bytes -> bytes;
  edVerify : edPub -> bytes -> bytes -> bool }.

Class Ed25519Laws (E : Ed25519) := {
  ed_verifies : forall k m, edVerify (edPublic k) m (edSign k m) = true;
  ed_length : forall k m, length (edSign k m) = 64%nat }.

(** [encoding/json] on [Claims]; strings that are not UTF-8 do not survive it. *)
Class ClaimsCodec := {
  claimsMarshal : Claims -> bytes;
  claimsUnmarshal : bytes -> option Claims }.

Definition claimTexts (c : Claims) : list string :=
  [cKeyID c; cTenant c; cSubject c; cOp c; cRef c; cContentType c; cContentHash c; cJTI c; cAudience c; cMatchMode c].

Definition claimNumbers (c : Claims) : list Z := [cVer c; cMaxSize c; cNotBefore c; cExpiry c].

Class ClaimsCodecLaws (C : ClaimsCodec) := {
  text_safe : string -> Prop;
  text_safe_ascii : forall s, ascii_only s = true -> text_safe s;
  claims_round : forall c, Forall text_safe (claimTexts c) -> Forall (fun z => - 2 ^ 63 <= z < 2 ^ 63) (claimNumbers c) ->
    claimsUnmarshal (claimsMarshal c) = Some c;
  claims_object : forall c, claimsMarshal c <> [] }.

Definition b64 (b : bytes) : string := of_chars (EncodeToString RawURLEncoding (chars (bstring b))).
Definition unb64 (s : string) : option bytes := (fun l => sbytes (of_chars l)) <$> DecodeString RawURLEncoding (chars s).

(** Instants and durations are in nanoseconds; [Time.Unix]. *)
Definition unix (t : Z) : Z := t / 1000000000.

Section Capability.
  Context {E : Ed25519} {C : ClaimsCodec}.

Record Minter := MkMinter { mnKid : string; mnPriv : edPriv; mnAudience : string }.
Record Verifier := MkVerifier { vfKeys : gmap string edPub; vfAudience : string }.

Definition AddKey (v : Verifier) (kid : string) (pub : edPub) : Verifier := MkVerifier (<[kid := pub]> (vfKeys v)) (vfAudience v).

(** The protocol fields; twelve random bytes name a token that has no name. *)
Definition stampClaims (m : Minter) (now : Z) (buf : bytes) (c : Claims) (ttl : Z) : Claims :=
  MkClaims capVersion (mnKid m) (cTenant c) (cSubject c) (cOp c) (cRef c) (cMaxSize c) (cContentType c) (cContentHash c)
    (if cNotBefore c =? 0 then unix (now - 30 * 1000000000) else cNotBefore c) (unix (now + ttl))
    (if decide (cJTI c = "") then hex_encode buf else cJTI c) (mnAudience m) (cRequireAuth c) (cMatchMode c).

Definition Mint (m : Minter) (now : Z) (buf : bytes) (c : Claims) (ttl : Z) : string * Claims :=
  let c := stampClaims m now buf c ttl in
  let payload := claimsMarshal c in
  (b64 payload +:+ "." +:+ b64 (edSign (mnPriv m) payload), c).

Definition capVerify (v : Verifier) (now : Z) (token : string) : result Claims :=
  match Cut token "." with
  | None => Err ErrMalformed
  | Some (a, b) =>
      if decide (a = "" \/ b = "") then Err ErrMalformed
      else match unb64 a, unb64 b with
           | Some payload, Some sig =>
               match claimsUnmarshal payload with
               | None => Err ErrMalformed
               | Some c =>
                   if negb (cVer c =? capVersion) then Err ErrVersion
                   else match vfKeys v !! cKeyID c with
                        | None => Err ErrUnknownKey
                        | Some pub =>
                            if negb (edVerify pub payload sig) then Err ErrBadSignature
                            else if negb (bool_decide (cAudience c = vfAudience v)) then Err ErrBadAudience
                            else if unix now <? cNotBefore c then Err ErrNotYetValid
                            else if cExpiry c <=? unix now then Err ErrExpired
                            else Ok c
                        end
               end
           | _, _ => Err ErrMalformed
           end
  end.

(** ** What verification means *)

(** The token carries these signed bytes. *)
Definition carries (token : string) (payload sig : bytes) : Prop :=
  exists a b, Cut token "." = Some (a, b) /\ unb64 a = Some payload /\ unb64 b = Some sig.

Lemma verify_inv v now token c : capVerify v now token = Ok c ->
  exists payload sig pub, carries token payload sig /\ claimsUnmarshal payload = Some c /\ vfKeys v !! cKeyID c = Some pub /\
    edVerify pub payload sig = true /\ cVer c = capVersion /\ cAudience c = vfAudience v /\ cNotBefore c <= unix now < cExpiry c.
Proof.
  unfold capVerify, carries. destruct (Cut token ".") as [[a b]|] eqn:Ec; [|done]. case_decide; [done|].
  destruct (unb64 a) as [payload|] eqn:Ea; [|done]. destruct (unb64 b) as [sig|] eqn:Eb; [|done].
  destruct (claimsUnmarshal payload) as [c'|] eqn:Eu; [|done]. destruct (Z.eqb_spec (cVer c') capVersion); [|done]. cbn [negb].
  destruct (vfKeys v !! cKeyID c') as [pub|] eqn:Ek; [|done]. destruct (edVerify pub payload sig) eqn:Ev; [|done]. cbn [negb].
  case_bool_decide; [|done]. cbn [negb]. destruct (Z.ltb_spec (unix now) (cNotBefore c')); [done|].
  destruct (Z.leb_spec (cExpiry c') (unix now)); [done|]. intros [= <-]. exists payload, sig, pub. split_and!; try done; try lia. by exists a, b.
Qed.

Lemma b64_round b : unb64 (b64 b) = Some b.
Proof. unfold unb64, b64. rewrite chars_of, base64_round by apply url_alphabet. cbn. by rewrite of_chars_of, sbytes_of. Qed.

Lemma b64_nonempty b : b <> [] -> b64 b <> "".
Proof. intros Hb E1. apply Hb. pose proof (b64_round b) as Hr. rewrite E1 in Hr. cbn in Hr. by injection Hr. Qed.

Lemma b64_no_dot b : "."%char ∉ chars (b64 b).
Proof.
  unfold b64. rewrite chars_of. generalize (chars (bstring b)). intros l. assert (Hd : forall v, 0 <= v < 64 -> enc64 RawURLEncoding v <> "."%char).
  { intros v Hv E1. assert (Hx : forallb (fun v => negb (bool_decide (enc64 RawURLEncoding v = "."%char))) (seqZ 0 64) = true) by (vm_compute; reflexivity).
    rewrite forallb_forall in Hx. specialize (Hx v ltac:(apply list_elem_of_In, elem_of_seqZ; lia)). by rewrite E1, bool_decide_true in Hx. }
  induction l as [l IH] using (induction_ltof1 _ (@length ascii)); unfold ltof in IH.
  destruct l as [|a [|c [|d l]]]; cbn [EncodeToString padded RawURLEncoding app]; [by intros ?%elem_of_nil|..]; pose proof (octet_range a);
    try pose proof (octet_range c); try pose proof (octet_range d); rewrite ?not_elem_of_cons; repeat split; try (apply not_eq_sym, Hd; div_solve);
    try (by intros ?%elem_of_nil).
  apply IH. cbn. lia.
Qed.

Context {EL : Ed25519Laws E} {CL : ClaimsCodecLaws C}.

Definition claims_safe (c : Claims) : Prop :=
  Forall text_safe (claimTexts c) /\ Forall (fun z => - 2 ^ 63 <= z < 2 ^ 63) (claimNumbers c).

(** A minted token verifies within its window, to the claims it was minted
    with. *)
Lemma verify_minted m v now buf c ttl t :
  vfKeys v !! mnKid m = Some (edPublic (mnPriv m)) -> vfAudience v = mnAudience m ->
  claims_safe (Mint m now buf c ttl).2 -> cNotBefore (Mint m now buf c ttl).2 <= unix t < cExpiry (Mint m now buf c ttl).2 ->
  capVerify v t (Mint m now buf c ttl).1 = Ok (Mint m now buf c ttl).2.
Proof.
  intros Hk Ha [Ht Hz] Hw. unfold Mint in *. cbn [fst snd] in *. set (c' := stampClaims m now buf c ttl) in *.
  unfold capVerify. pose proof (cut_first (b64 (claimsMarshal c')) (b64 (edSign (mnPriv m) (claimsMarshal c'))) "."%char (b64_no_dot _)) as Hc.
  change (String.String "." "") with "." in Hc. rewrite Hc.
  assert (Hsig : edSign (mnPriv m) (claimsMarshal c') <> []) by (intros E1; pose proof (ed_length (mnPriv m) (claimsMarshal c')) as Hl; by rewrite E1 in Hl).
  pose proof (b64_nonempty _ (claims_object c')) as N1. pose proof (b64_nonempty _ Hsig) as N2. rewrite decide_False by tauto.
  rewrite !b64_round, claims_round by done. change (cVer c') with capVersion. cbn [negb Z.eqb capVersion]. change (cKeyID c') with (mnKid m).
  rewrite Hk, ed_verifies. cbn [negb]. change (cAudience c') with (mnAudience m). rewrite bool_decide_true by done. cbn [negb].
  destruct (Z.ltb_spec (unix t) (cNotBefore c')); [lia|]. destruct (Z.leb_spec (cExpiry c') (unix t)); [lia|]. done.
Qed.
End Capability.
