(* ===== verification/Edge.v ===== *)
(** The edge server (blobgw-edge/edge/edge.go and policy.go, blobgw/httpx).

    The edge mints capabilities for an authenticated principal and serves objects
    to whoever presents one: [verifyRequest] is the gate in front of every object
    operation, the handlers call the gateway of the capability's tenant.  Identity
    headers, quotas and the revocation list are as in policy.go; the rate limiter
    is an interface.  What net/http makes of a path is the [route] of a request:
    its pattern and the ref it matched.  Metrics, spans and log lines are left
    out. *)

From S2P Require Import Prelude GoStrings Decimal Sha256 PackFormat BlobStore Manifest SnapStore DedupIndex ChunkedRead ChunkedWrite StreamCopy GoText RefStore Gateway S3Crypto S3Auth S3Objects EdgeCap.
From Stdlib Require Import Ascii.

(** Conversion to [int64]. *)
Definition int64 (z : Z) : Z := (z + 2 ^ 63) mod 2 ^ 64 - 2 ^ 63.

(** ** Identity *)

Record HeaderIdentityProvider := MkHdrId { TenantHeader : string; SubjectHeader : string }.

Definition Identify (h : HeaderIdentityProvider) (r : request) : option (string * string) :=
  let th := if decide (TenantHeader h = "") then "X-Auth-Tenant-ID" else TenantHeader h in
  let sh := if decide (SubjectHeader h = "") then "X-Scitrera-User" else SubjectHeader h in
  let tenant := headerGet r th in
  let subject := headerGet r sh in
  if decide (tenant = "" \/ subject = "") then None else Some (tenant, subject).

(** ** Quotas *)

Record MemoryQuotaStore := MkQuota { MaxBytes : Z; MaxObjects : Z; qBytes : gmap string Z; qCount : gmap string Z }.

Definition tenantBytes (q : MemoryQuotaStore) (tenant : string) : Z := default 0 (qBytes q !! tenant).
Definition tenantObjects (q : MemoryQuotaStore) (tenant : string) : Z := default 0 (qCount q !! tenant).

Definition Authorize (q : MemoryQuotaStore) (tenant : string) (addBytes : Z) : bool :=
  if (0 <? MaxObjects q) && (MaxObjects q <? int64 (tenantObjects q tenant + 1)) then false
  else if (0 <? MaxBytes q) && (MaxBytes q <? int64 (tenantBytes q tenant + addBytes)) then false
  else true.

Definition RecordPut (q : MemoryQuotaStore) (tenant : string) (bytes : Z) : MemoryQuotaStore :=
  MkQuota (MaxBytes q) (MaxObjects q) (<[tenant := int64 (tenantBytes q tenant + bytes)]> (qBytes q))
    (<[tenant := int64 (tenantObjects q tenant + 1)]> (qCount q)).

Definition RecordDelete (q : MemoryQuotaStore) (tenant : string) (bytes : Z) : MemoryQuotaStore :=
  let b := int64 (tenantBytes q tenant - bytes) in
  MkQuota (MaxBytes q) (MaxObjects q) (<[tenant := if b <? 0 then 0 else b]> (qBytes q))
    (if 0 <? tenantObjects q tenant then <[tenant := tenantObjects q tenant - 1]> (qCount q) else qCount q).

(** The tenants the collector sweeps, each once. *)
Definition Tenants (q : MemoryQuotaStore) : gset string :=
  dom (filter (fun kv => 0 < kv.2) (qBytes q)) ∪ dom (filter (fun kv => 0 < kv.2) (qCount q)).

(** ** Revocation *)

(** [None] is the zero time: the entry never ends. *)
Definition MemoryRevocation := gmap string (option Z).

Definition IsRevoked (m : MemoryRevocation) (now : Z) (jti : string) : bool :=
  match m !! jti with
  | None => false
  | Some None => true
  | Some (Some expiry) => now <? expiry
  end.

(** ** Rates *)

Class RateLimiter := { rlimit : Type; Allow : rlimit -> string -> rlimit * bool }.

(** [NewTokenBucketLimiter(0, 0)], the default. *)
Definition noLimit : RateLimiter := {| rlimit := unit; Allow := fun u _ => (u, true) |}.

(** ** Requests and responses *)

Record AuditEvent := MkAudit {
  aKind : string; aTenant : string; aSubject : string; aLiveSubject : string; aOp : string; aRef : string; aJTI : string;
  aAllowed : bool; aReason : string; aSize : Z }.

Record mintRequest := MkMintReq {
  mrOp : string; mrRef : string; mrMaxSize : Z; mrContentType : string; mrContentHash : string; mrTTLSeconds : Z;
  mrRequireAuth : option bool; mrMatchMode : string }.

Record revokeRequest := MkRevoke { rvJTI : string; rvExpiresAt : Z }.

(** [encoding/json] on the bodies of requests. *)
Class EdgeJSON := {
  decodeMint : bytes -> option mintRequest;
  decodeRevoke : bytes -> option revokeRequest }.

Inductive edgeBody :=
| EbNone
| EbError (msg : string)
| EbData (b : bytes)
| EbInfo (info : ObjectInfo)
| EbUpload (up : StagedUpload)
| EbMint (token url op ref tenant : string) (expires : Z).

Record edgeResp := MkEResp { erStatus : Z; erHeader : header; erBody : edgeBody }.

Definition WriteJSON (h : header) (status : Z) (b : edgeBody) : edgeResp :=
  MkEResp status (setHeader "Content-Type" "application/json" h) b.

Definition writeErr (status : Z) (msg : string) : edgeResp := WriteJSON ∅ status (EbError msg).

Definition SetObjectHeaders (h : header) (info : ObjectInfo) : header :=
  let h := if decide (ContentType info = "") then h else setHeader "Content-Type" (ContentType info) h in
  let h := setHeader "Content-Length" (FormatInt (oSize info)) h in
  if decide (ContentHash info = "") then h else setHeader "ETag" (quoted (ContentHash info)) h.

Definition ModeTrusted : string := "trusted".
Definition ModeConfidential : string := "confidential".

Definition second : Z := 1000000000.

Record edgeConfig := MkEdgeConfig {
  MaxObjectSize : Z; AllowedContentTypes : list string; DefaultTTL : Z; ExistenceMode : string; DefaultRequireAuth : bool;
  ShareableMaxTTL : Z; AuthBoundMaxTTL : Z }.

(** The defaults [New] fills in. *)
Definition edgeDefaults (c : edgeConfig) : edgeConfig :=
  MkEdgeConfig (MaxObjectSize c) (AllowedContentTypes c) (if DefaultTTL c <=? 0 then 15 * 60 * second else DefaultTTL c)
    (if decide (ExistenceMode c = "") then ModeTrusted else ExistenceMode c) (DefaultRequireAuth c)
    (if ShareableMaxTTL c <=? 0 then 5 * 60 * second else ShareableMaxTTL c)
    (if AuthBoundMaxTTL c <=? 0 then 60 * 60 * second else AuthBoundMaxTTL c).

Definition contentTypeAllowed (c : edgeConfig) (ct : string) : bool :=
  bool_decide (AllowedContentTypes c = []) || bool_decide (ct ∈ AllowedContentTypes c).

(** The tighter of the capability's and the edge's limit. *)
Definition ceilingOf (c : edgeConfig) (maxSize : Z) : Z :=
  if (0 <? MaxObjectSize c) && ((maxSize =? 0) || (MaxObjectSize c <? maxSize)) then MaxObjectSize c else maxSize.

(** [http.MaxBytesReader] and its error. *)
Definition errMaxBytes : err := EOther "http: request body too large".

Fixpoint maxBytesReader (n : Z) (r : rdStream) : rdStream :=
  match r with
  | [] => []
  | (b, s) :: r => if len b <=? n then (b, s) :: match s with RdMore => maxBytesReader (n - len b) r | _ => [] end
                   else [(slice b 0 n, RdErr errMaxBytes)]
  end.

Definition escapeRefPath (ref : string) : string := Join (PathEscape <$> Split ref "/"%char) "/".

Definition capabilityURL (op ref token : string) : string :=
  (if decide (op = OpStage) then "/staged/" else if decide (op = OpFinalize) then "/finalize/" else "/blob/") +:+
  escapeRefPath ref +:+ "?cap=" +:+ token.

(** ** The server *)

Inductive route := RMint | RRevoke | RBlob (ref : string) | RStaged (ref : string) | RFinalize (ref : string).

(** The clocks of verifier, gateway and revocation list, random bytes for names,
    the room of reads and the framings known. *)
Record edgeEnv := MkEEnv {
  evNow : Z; evRevNow : Z; evGwNow : Z; evIdNow : Z; evBuf1 : bytes; evBuf2 : bytes; evSizes : nat -> nat; evFramings : gmap string packFraming }.

Section Server.
  Context {Clib : CodecLib} {Sto : Storage} {U : SnapshotStore} {D : DedupStore} {Sp : Splitter} {J : ManifestCodec}
          {T : TimeText} {R : RefStore} {G : StagingStore} {E : Ed25519} {C : ClaimsCodec} {RT : RateLimiter} {EJ : EdgeJSON}.

Record edgeServer := MkEdge {
  esRouter : string -> option Gateway; esMinter : Minter; esVerifier : Verifier; esIdentity : HeaderIdentityProvider;
  esCfg : edgeConfig }.

Record edgeSt := EdgeSt {
  etGw : gst; etQuota : MemoryQuotaStore; etRate : rlimit; etRevoked : MemoryRevocation; etAudit : list AuditEvent }.

Definition setGw (st : edgeSt) (g : gst) : edgeSt := EdgeSt g (etQuota st) (etRate st) (etRevoked st) (etAudit st).
Definition setQuota (st : edgeSt) (q : MemoryQuotaStore) : edgeSt := EdgeSt (etGw st) q (etRate st) (etRevoked st) (etAudit st).
Definition setRate (st : edgeSt) (l : rlimit) : edgeSt := EdgeSt (etGw st) (etQuota st) l (etRevoked st) (etAudit st).
Definition setRevoked (st : edgeSt) (m : MemoryRevocation) : edgeSt := EdgeSt (etGw st) (etQuota st) (etRate st) m (etAudit st).
Definition record (st : edgeSt) (ev : AuditEvent) : edgeSt :=
  EdgeSt (etGw st) (etQuota st) (etRate st) (etRevoked st) (etAudit st ++ [ev]).

(** *** Minting *)

Definition knownOp (op : string) : bool := bool_decide (op ∈ [OpPut; OpGet; OpHead; OpDelete; OpStage; OpFinalize]).

(** The binding of a token: whether it needs its owner, and how they match. *)
Definition bindingOf (cfg : edgeConfig) (req : mintRequest) : string + bool * string :=
  let ra := default (DefaultRequireAuth cfg) (mrRequireAuth req) in
  if negb ra then inr (ra, "")
  else
    let mm := if decide (mrMatchMode req = "") then "exact" else mrMatchMode req in
    if decide (mm = "exact" \/ mm = "same-tenant") then inr (ra, mm)
    else if decide (mm = "group") then inl "match_mode 'group' not yet supported"
    else inl "invalid match_mode".

(** A TTL in seconds overflows as a duration does; bearer tokens are clamped to
    the shorter limit. *)
Definition ttlOf (cfg : edgeConfig) (ra : bool) (req : mintRequest) : Z :=
  let ttl := if 0 <? mrTTLSeconds req then int64 (mrTTLSeconds req * second) else DefaultTTL cfg in
  let ttl := if negb ra && (0 <? ShareableMaxTTL cfg) && (ShareableMaxTTL cfg <? ttl) then ShareableMaxTTL cfg else ttl in
  if ra && (0 <? AuthBoundMaxTTL cfg) && (AuthBoundMaxTTL cfg <? ttl) then AuthBoundMaxTTL cfg else ttl.

Definition mint (s : edgeServer) (v : edgeEnv) (st : edgeSt) (r : request) : edgeSt * edgeResp :=
  let cfg := esCfg s in
  match Identify (esIdentity s) r with
  | None => (st, writeErr 401 "unauthenticated")
  | Some (tenant, subject) =>
      let '(l, ok) := Allow (etRate st) tenant in
      let st := setRate st l in
      if negb ok then (st, writeErr 429 "rate limited")
      else match decodeMint (drained (rBody r)) with
      | None => (st, writeErr 400 "invalid JSON body")
      | Some req =>
          let op := mrOp req in
          let uploads := bool_decide (op = OpPut \/ op = OpStage) in
          if negb (knownOp op) then (st, writeErr 400 "invalid op")
          else if decide (mrRef req = "") then (st, writeErr 400 "ref required")
          else if decide (op = OpHead /\ ExistenceMode cfg = ModeConfidential) then
            (st, writeErr 403 "existence checks disabled (confidential tenant)")
          else if uploads && negb (bool_decide (mrContentType req = "")) && negb (contentTypeAllowed cfg (mrContentType req)) then
            (st, writeErr 403 "content type not allowed")
          else if uploads && (0 <? MaxObjectSize cfg) && (MaxObjectSize cfg <? mrMaxSize req) then
            (st, writeErr 403 "max_size exceeds edge limit")
          else match bindingOf cfg req with
          | inl msg => (st, writeErr 400 msg)
          | inr (ra, mm) =>
              let claims := MkClaims 0 "" tenant subject op (mrRef req) (mrMaxSize req) (mrContentType req) (mrContentHash req)
                              0 0 "" "" ra mm in
              let '(token, final) := Mint (esMinter s) (evNow v) (evBuf1 v) claims (ttlOf cfg ra req) in
              (record st (MkAudit "mint" tenant subject "" op (mrRef req) (cJTI final) true "" 0),
               WriteJSON ∅ 200 (EbMint token (capabilityURL op (mrRef req) token) op (mrRef req) tenant (cExpiry final)))
          end
      end
  end.

(** *** The gate *)

Record verified := MkVerified { vdGw : Gateway; vdClaims : Claims; vdRef : string; vdLive : string }.

Definition tokenOf (r : request) : string :=
  let token := queryGet r "cap" in
  if decide (token = "") then
    let auth := headerGet r "Authorization" in
    if (7 <? strlen auth) && bool_decide (str_slice auth 0 7 = "Bearer ") then str_slice auth 7 (strlen auth) else ""
  else token.

Definition accessEvent (c : Claims) (live op ref : string) (allowed : bool) (reason : string) (size : Z) : AuditEvent :=
  MkAudit "access" (cTenant c) (cSubject c) live op ref (cJTI c) allowed reason size.

(** The live principal satisfies the binding. *)
Definition matches (c : Claims) (live : string * string) : bool :=
  if decide (cMatchMode c = "" \/ cMatchMode c = "exact") then bool_decide (live.1 = cTenant c /\ live.2 = cSubject c)
  else if decide (cMatchMode c = "same-tenant") then bool_decide (live.1 = cTenant c)
  else false.

Definition verifyRequest (s : edgeServer) (v : edgeEnv) (st : edgeSt) (r : request) (ref requiredOp : string)
  : edgeSt * (edgeResp + verified) :=
  let token := tokenOf r in
  if decide (token = "") then (st, inl (writeErr 401 "missing capability"))
  else match capVerify (esVerifier s) (evNow v) token with
  | Err _ => (st, inl (writeErr 401 "invalid capability"))
  | Ok c =>
      let deny st status reason := (record st (accessEvent c "" requiredOp ref false reason 0), inl (writeErr status reason)) in
      if IsRevoked (etRevoked st) (evRevNow v) (cJTI c) then deny st 403 "capability revoked"
      else if negb (bool_decide (cOp c = requiredOp)) then deny st 403 "operation not permitted by capability"
      else if negb (bool_decide (cRef c = ref)) then deny st 403 "ref not permitted by capability"
      else if decide (requiredOp = OpHead /\ ExistenceMode (esCfg s) = ModeConfidential) then deny st 404 "not found"
      else
        let '(l, ok) := Allow (etRate st) (cTenant c +:+ ":" +:+ cSubject c) in
        let st := setRate st l in
        if negb ok then deny st 429 "rate limited"
        else match esRouter s (cTenant c) with
        | None => deny st 500 "tenant routing failed"
        | Some g =>
            if cRequireAuth c then
              match Identify (esIdentity s) r with
              | None => deny st 403 "capability requires authenticated principal"
              | Some live => if matches c live then (st, inr (MkVerified g c ref live.2)) else deny st 403 "capability principal mismatch"
              end
            else (st, inr (MkVerified g c ref ""))
        end
  end.

(** *** Object operations *)

Definition audited (st : edgeSt) (r : request) (d : verified) (allowed : bool) (reason : string) (size : Z) : edgeSt :=
  record st (accessEvent (vdClaims d) (vdLive d) (rMethod r) (vdRef d) allowed reason size).

Definition denied (st : edgeSt) (r : request) (d : verified) (status : Z) (reason : string) : edgeSt * edgeResp :=
  (audited st r d false reason 0, writeErr status reason).

(** The closure of the gate records the operation instead of the method. *)
Definition deniedOp (op : string) (st : edgeSt) (d : verified) (status : Z) (reason : string) : edgeSt * edgeResp :=
  (record st (accessEvent (vdClaims d) (vdLive d) op (vdRef d) false reason 0), writeErr status reason).

Definition gatewayErr (st : edgeSt) (r : request) (d : verified) (e : err) : edgeSt * edgeResp :=
  match Classify e with
  | KindNotFound => denied st r d 404 "not found"
  | KindInvalidRef => denied st r d 400 "invalid ref"
  | KindNotStaged => denied st r d 409 "no pending staged upload"
  | KindIntegrity => denied st r d 409 "staged content failed integrity check"
  | KindInternal => denied st r d 500 "internal error"
  end.

Definition objectHeaders (c : Claims) (info : ObjectInfo) : header :=
  SetObjectHeaders (if decide (cContentHash c = "") then ∅ else setHeader "Cache-Control" "private, no-store" ∅) info.

(** The claim names a content hash and this is not it. *)
Definition hashDiffers (c : Claims) (info : ObjectInfo) : bool :=
  negb (bool_decide (cContentHash c = "")) && negb (bool_decide (ContentHash info = cContentHash c)).

Definition handleGet (v : edgeEnv) (st : edgeSt) (r : request) (d : verified) : edgeSt * edgeResp :=
  match gwGet (evFramings v) (vdGw d) (etGw st) (vdRef d) with
  | Err e => gatewayErr st r d e
  | Ok (rd, info) =>
      if hashDiffers (vdClaims d) info then denied st r d 412 "content changed"
      else (audited st r d true "" (oSize info),
            MkEResp 200 (objectHeaders (vdClaims d) info) (EbData (copyAll (wBlobs (gsWorld (etGw st))) rd (evSizes v))))
  end.

Definition handleHead (st : edgeSt) (r : request) (d : verified) : edgeSt * edgeResp :=
  match gwHead (vdGw d) (etGw st) (vdRef d) with
  | Err e => gatewayErr st r d e
  | Ok info =>
      if hashDiffers (vdClaims d) info then denied st r d 412 "content changed"
      else (audited st r d true "" 0, MkEResp 200 (objectHeaders (vdClaims d) info) EbNone)
  end.

Definition handlePut (cfg : edgeConfig) (v : edgeEnv) (st : edgeSt) (r : request) (d : verified) : edgeSt * edgeResp :=
  let c := vdClaims d in
  let ct := headerGet r "Content-Type" in
  let ct := if decide (ct = "") then "application/octet-stream" else ct in
  if negb (bool_decide (cContentType c = "")) && negb (bool_decide (ct = cContentType c)) then
    denied st r d 403 "content type does not match capability"
  else if negb (contentTypeAllowed cfg ct) then denied st r d 403 "content type not allowed"
  else
    let ceiling := ceilingOf cfg (cMaxSize c) in
    if negb (Authorize (etQuota st) (cTenant c) ceiling) then denied st r d 507 "quota exceeded"
    else
      let body := if 0 <? ceiling then maxBytesReader ceiling (rBody r) else rBody r in
      match gwPut (evGwNow v) (vdGw d) (etGw st) (vdRef d) ct body with
      | (g, Err e) => if decide (e = errMaxBytes) then denied (setGw st g) r d 413 "object exceeds size limit"
                      else gatewayErr (setGw st g) r d e
      | (g, Ok info) =>
          if hashDiffers c info then
            denied (setGw st (gwDelete (vdGw d) g (vdRef d)).1) r d 403 "content hash does not match capability"
          else
            (audited (setQuota (setGw st g) (RecordPut (etQuota st) (cTenant c) (oSize info))) r d true "" (oSize info),
             WriteJSON ∅ 201 (EbInfo info))
      end.

Definition handleDelete (st : edgeSt) (r : request) (d : verified) : edgeSt * edgeResp :=
  let size := match gwHead (vdGw d) (etGw st) (vdRef d) with Ok info => oSize info | Err _ => 0 end in
  match gwDelete (vdGw d) (etGw st) (vdRef d) with
  | (g, Err e) => gatewayErr (setGw st g) r d e
  | (g, Ok _) =>
      (audited (setQuota (setGw st g) (RecordDelete (etQuota st) (cTenant (vdClaims d)) size)) r d true "" 0, MkEResp 204 ∅ EbNone)
  end.

Definition dataPath (s : edgeServer) (v : edgeEnv) (st : edgeSt) (r : request) (ref : string) : edgeSt * edgeResp :=
  match verifyRequest s v st r ref (rMethod r) with
  | (st, inl resp) => (st, resp)
  | (st, inr d) =>
      if decide (rMethod r = "GET") then handleGet v st r d
      else if decide (rMethod r = "HEAD") then handleHead st r d
      else if decide (rMethod r = "PUT") then handlePut (esCfg s) v st r d
      else if decide (rMethod r = "DELETE") then handleDelete st r d
      else deniedOp (rMethod r) st d 405 "method not allowed"
  end.

(** *** Stage and finalize *)

Definition stage_ (s : edgeServer) (v : edgeEnv) (st : edgeSt) (r : request) (ref : string) : edgeSt * edgeResp :=
  match verifyRequest s v st r ref OpStage with
  | (st, inl resp) => (st, resp)
  | (st, inr d) =>
      let c := vdClaims d in
      if negb (bool_decide (cContentType c = "")) && negb (contentTypeAllowed (esCfg s) (cContentType c)) then
        deniedOp OpStage st d 403 "content type not allowed"
      else
        let ceiling := ceilingOf (esCfg s) (cMaxSize c) in
        if negb (Authorize (etQuota st) (cTenant c) ceiling) then deniedOp OpStage st d 507 "quota exceeded"
        else
          match MintRefWithOptions (evGwNow v) (evIdNow v) (evBuf1 v) (evBuf2 v) (vdGw d) (etGw st) (vdRef d)
                  (MkMint (cContentType c) ∅ ceiling (DefaultTTL (esCfg s)) (cContentHash c) 0) with
          | (g, Err e) => gatewayErr (setGw st g) r d e
          | (g, Ok up) => (audited (setGw st g) r d true "" 0, WriteJSON ∅ 200 (EbUpload up))
          end
  end.

Definition finalize (s : edgeServer) (v : edgeEnv) (st : edgeSt) (r : request) (ref : string) : edgeSt * edgeResp :=
  match verifyRequest s v st r ref OpFinalize with
  | (st, inl resp) => (st, resp)
  | (st, inr d) =>
      let c := vdClaims d in
      match Finalize (evGwNow v) (vdGw d) (etGw st) (vdRef d) with
      | (g, Err e) => gatewayErr (setGw st g) r d e
      | (g, Ok info) =>
          if hashDiffers c info then
            deniedOp OpFinalize (setGw st (gwDelete (vdGw d) g (vdRef d)).1) d 403 "content hash does not match capability"
          else
            (audited (setQuota (setGw st g) (RecordPut (etQuota st) (cTenant c) (oSize info))) r d true "" (oSize info),
             WriteJSON ∅ 200 (EbInfo info))
      end
  end.

Definition revoke (s : edgeServer) (st : edgeSt) (r : request) : edgeSt * edgeResp :=
  match Identify (esIdentity s) r with
  | None => (st, writeErr 401 "unauthenticated")
  | Some _ =>
      match decodeRevoke (drained (rBody r)) with
      | None => (st, writeErr 400 "jti required")
      | Some req =>
          if decide (rvJTI req = "") then (st, writeErr 400 "jti required")
          else
            let expiry := if 0 <? rvExpiresAt req then Some (rvExpiresAt req * second) else None in
            (setRevoked st (<[rvJTI req := expiry]> (etRevoked st)), MkEResp 204 ∅ EbNone)
      end
  end.

(** [Handler]. *)
Definition edgeServe (s : edgeServer) (v : edgeEnv) (st : edgeSt) (r : request) (rt : route) : edgeSt * edgeResp :=
  match rt with
  | RMint => mint s v st r
  | RRevoke => revoke s st r
  | RBlob ref => dataPath s v st r ref
  | RStaged ref => stage_ s v st r ref
  | RFinalize ref => finalize s v st r ref
  end.
End Server.
