(* ===== verification/EdgeSpec.v ===== *)
(** What the edge guarantees.

    [edge_authorized]: an object request that the gate does not refuse carries a
    signed, current, unrevoked capability for exactly its operation and ref, its
    owner's if the capability is bound to one; and whatever the operation does, it
    stays within that one ref of the capability's tenant.  [minted_opens]: a
    minted token passes the gate, for its operation and ref only and for its
    lifetime, which is limited by its kind.  [edge_serves]: what a GET returns is
    the object, and the one whose hash the capability names if it names one.
    [quota_kept]: with sizes limited, uploads keep every tenant within its
    quota. *)

From S2P Require Import Prelude GoStrings Decimal Sha256 PackFormat BlobStore Manifest SnapStore DedupIndex Reclaim ChunkedRead ChunkedWrite StreamCopy PutSpec PutGet BatchSpec GC GCSpec MetaOps Lifecycle GoText RefStore Gateway GatewaySpec GatewayWithin S3Crypto S3Auth S3Objects EdgeCap Edge.

Lemma int64_id z : - 2 ^ 63 <= z < 2 ^ 63 -> int64 z = z.
Proof. intros Hz. unfold int64. rewrite Z.mod_small by lia. lia. Qed.

Section Spec.
  Context {Clib : CodecLib} {Claws : CodecLaws} {Sto : Storage} {L : StorageLaws Sto}
          {U : SnapshotStore} {SL : SnapshotStoreLaws U}
          {D : DedupStore} {DL : DedupStoreLaws D} {A : PackAssocStore D}
          {Sp : Splitter} {Spl : SplitterLaws Sp} {J : ManifestCodec} {JL : ManifestCodecLaws}
          {T : TimeText} {R : RefStore} {RL : RefStoreLaws R} {G : StagingStore} {GL : StagingStoreLaws G}
          {E : Ed25519} {C : ClaimsCodec} {RT : RateLimiter} {EJ : EdgeJSON}.

(** ** The gate *)

(** A capability for the operation, and its principal if it has one. *)
Record admits (s : edgeServer) (v : edgeEnv) (st : edgeSt) (r : request) (ref op : string) (d : verified) : Prop := {
  ad_token : capVerify (esVerifier s) (evNow v) (tokenOf r) = Ok (vdClaims d);
  ad_live : IsRevoked (etRevoked st) (evRevNow v) (cJTI (vdClaims d)) = false;
  ad_op : cOp (vdClaims d) = op;
  ad_ref : cRef (vdClaims d) = ref;
  ad_same : vdRef d = ref;
  ad_mode : ~ (op = OpHead /\ ExistenceMode (esCfg s) = ModeConfidential);
  ad_route : esRouter s (cTenant (vdClaims d)) = Some (vdGw d);
  ad_owner : cRequireAuth (vdClaims d) = true ->
    exists live, Identify (esIdentity s) r = Some live /\ matches (vdClaims d) live = true /\ vdLive d = live.2;
}.

(** The states agree on all but rates and the audit trail. *)
Definition same_state (st st' : edgeSt) : Prop :=
  etGw st' = etGw st /\ etQuota st' = etQuota st /\ etRevoked st' = etRevoked st.

Lemma gate_inv s v st r ref op st1 x : verifyRequest s v st r ref op = (st1, x) ->
  same_state st st1 /\ match x with inl resp => 400 <= erStatus resp | inr d => admits s v st r ref op d end.
Proof.
  unfold verifyRequest. case_decide; [by intros [= <- <-]|]. destruct (capVerify _ _ _) as [c|] eqn:Hc; [|by intros [= <- <-]]. cbv zeta.
  destruct (IsRevoked _ _ _) eqn:Hr; [by intros [= <- <-]|]. case_bool_decide as Hop; [|by intros [= <- <-]]. cbn [negb].
  case_bool_decide as Href; [|by intros [= <- <-]]. cbn [negb]. case_decide as Hm; [by intros [= <- <-]|].
  destruct (Allow _ _) as [l ok]. destruct ok; [|by intros [= <- <-]]. cbn [negb].
  destruct (esRouter s (cTenant c)) as [g|] eqn:Hg; [|by intros [= <- <-]].
  destruct (cRequireAuth c) eqn:Ha.
  - destruct (Identify _ _) as [live|] eqn:Hid; [|by intros [= <- <-]]. destruct (matches c live) eqn:Hma; [|by intros [= <- <-]].
    intros [= <- <-]. split; [done|]. split; cbn; try done. intros _. by exists live.
  - intros [= <- <-]. split; [done|]. split; cbn; try done. congruence.
Qed.

Lemma gate_opens s v st r ref op d l :
  tokenOf r <> "" -> admits s v st r ref op d -> Allow (etRate st) (cTenant (vdClaims d) +:+ ":" +:+ cSubject (vdClaims d)) = (l, true) ->
  (cRequireAuth (vdClaims d) = false -> vdLive d = "") ->
  verifyRequest s v st r ref op = (setRate st l, inr d).
Proof.
  intros Ht [H1 H2 H3 H4 H5 H6 H7 H8] Hl Hs. unfold verifyRequest. rewrite decide_False, H1 by done. cbv zeta. rewrite H2, H3, H4.
  rewrite !bool_decide_true by done. cbn [negb]. rewrite decide_False, Hl, H7 by done. cbn [negb].
  destruct (cRequireAuth (vdClaims d)).
  - destruct (H8 eq_refl) as (live & -> & -> & Hlive). rewrite <- Hlive. by destruct d as [g c ref' lv]; cbn in *; subst.
  - specialize (Hs eq_refl). by destruct d as [g c ref' lv]; cbn in *; subst.
Qed.

(** ** Confinement *)

(** The operation and the ref of an object request, and the ref it touches. *)
Definition routeOp (r : request) (rt : route) : option (string * string) :=
  match rt with
  | RBlob ref => Some (rMethod r, ref)
  | RStaged ref => Some (OpStage, ref)
  | RFinalize ref => Some (OpFinalize, ref)
  | _ => None
  end.

Definition routeRef (v : edgeEnv) (rt : route) : string :=
  match rt with
  | RBlob ref | RFinalize ref => ref
  | RStaged ref => mintedRef (evIdNow v) (evBuf1 v) ref
  | _ => ""
  end.

(** Only this ref of this tenant, and the tenant's account. *)
Record stays (tenant ref : string) (st st' : edgeSt) : Prop := {
  sy_gw : within tenant ref (etGw st) (etGw st');
  sy_quota : forall t, t <> tenant -> tenantBytes (etQuota st') t = tenantBytes (etQuota st) t /\ tenantObjects (etQuota st') t = tenantObjects (etQuota st) t;
  sy_revoked : etRevoked st' = etRevoked st;
}.

Lemma stays_gw tenant ref st st' : within tenant ref (etGw st) (etGw st') -> etQuota st' = etQuota st -> etRevoked st' = etRevoked st ->
  stays tenant ref st st'.
Proof. intros Hw Hq Hr. split; [done| |done]. intros t _. by rewrite Hq. Qed.

Lemma put_account q tenant z t : t <> tenant -> tenantBytes (RecordPut q tenant z) t = tenantBytes q t /\ tenantObjects (RecordPut q tenant z) t = tenantObjects q t.
Proof. intros Ht. unfold tenantBytes, tenantObjects, RecordPut. cbn. by rewrite !lookup_insert_ne. Qed.

Lemma delete_account q tenant z t : t <> tenant ->
  tenantBytes (RecordDelete q tenant z) t = tenantBytes q t /\ tenantObjects (RecordDelete q tenant z) t = tenantObjects q t.
Proof. intros Ht. unfold tenantBytes, tenantObjects, RecordDelete. cbn. rewrite lookup_insert_ne by done. destruct (_ <? _); [|done]. by rewrite lookup_insert_ne. Qed.

Lemma err_stays tenant ref st st2 r d e : stays tenant ref st st2 -> stays tenant ref st (gatewayErr st2 r d e).1.
Proof. intros [? ? ?]. unfold gatewayErr. by destruct (Classify e). Qed.

Lemma stays_refl tenant ref st : rvalid (gsRefs (etGw st)) -> stays tenant ref st st.
Proof. intros Hv. apply stays_gw; [by apply within_refl|done..]. Qed.

Lemma stays_record tenant ref st st2 ev : stays tenant ref st st2 -> stays tenant ref st (record st2 ev).
Proof. by intros [? ? ?]. Qed.

#[local] Create HintDb edge.
#[local] Hint Resolve err_stays stays_refl stays_record : edge.

Lemma stays_put tenant ref st g z : within tenant ref (etGw st) g -> stays tenant ref st (setQuota (setGw st g) (RecordPut (etQuota st) tenant z)).
Proof. intros Hw. split; [done| |done]. intros t. apply put_account. Qed.

Lemma handleGet_stays v st r d tenant : rvalid (gsRefs (etGw st)) -> stays tenant (vdRef d) st (handleGet v st r d).1.
Proof.
  intros Hv. unfold handleGet. destruct (gwGet _ _ _ _) as [[rd info]|]; [|by auto with edge].
  destruct (hashDiffers _ _); unfold denied, audited; by auto with edge.
Qed.

Lemma handleHead_stays st r d tenant : rvalid (gsRefs (etGw st)) -> stays tenant (vdRef d) st (handleHead st r d).1.
Proof.
  intros Hv. unfold handleHead. destruct (gwHead _ _ _) as [info|]; [|by auto with edge].
  destruct (hashDiffers _ _); unfold denied, audited; by auto with edge.
Qed.

Lemma handlePut_stays cfg v st r d : rvalid (gsRefs (etGw st)) -> gwDomain (vdGw d) = cTenant (vdClaims d) ->
  stays (cTenant (vdClaims d)) (vdRef d) st (handlePut cfg v st r d).1.
Proof.
  intros Hv Hd. unfold handlePut, denied, audited. destruct (_ && _); [by auto with edge|]. destruct (negb _); [by auto with edge|].
  cbv zeta. destruct (negb _); [by auto with edge|].
  destruct (gwPut _ _ _ _ _ _) as [g [info|e]] eqn:Hp; apply put_within in Hp as Hw; try done; rewrite Hd in Hw.
  - destruct (hashDiffers _ _); apply stays_record; [|by apply stays_put]. apply stays_gw; [|done..]. cbn.
    eapply within_trans; [exact Hw|]. rewrite <- Hd. apply delete_within, Hw.
  - assert (stays (cTenant (vdClaims d)) (vdRef d) st (setGw st g)) by (by apply stays_gw). destruct (decide (e = errMaxBytes)); [by apply stays_record|by apply err_stays].
Qed.

Lemma handleDelete_stays st r d : rvalid (gsRefs (etGw st)) -> gwDomain (vdGw d) = cTenant (vdClaims d) ->
  stays (cTenant (vdClaims d)) (vdRef d) st (handleDelete st r d).1.
Proof.
  intros Hv Hd. unfold handleDelete. pose proof (delete_within (vdGw d) (etGw st) (vdRef d) Hv) as Hw. rewrite Hd in Hw.
  destruct (gwDelete _ _ _) as [g [u|e]]; [|by apply err_stays, stays_gw]. apply stays_record. split; [done| |done]. intros t. apply delete_account.
Qed.

Lemma dataPath_stays s v st r ref st1 d : verifyRequest s v st r ref (rMethod r) = (st1, inr d) ->
  rvalid (gsRefs (etGw st)) -> gwDomain (vdGw d) = cTenant (vdClaims d) -> stays (cTenant (vdClaims d)) (vdRef d) st1 (dataPath s v st r ref).1.
Proof.
  intros Hg Hv Hd. unfold dataPath. rewrite Hg. destruct (gate_inv _ _ _ _ _ _ _ _ Hg) as [(Hs & _) _]. rewrite <- Hs in Hv.
  repeat case_decide; [by apply handleGet_stays|by apply handleHead_stays|by apply handlePut_stays|by apply handleDelete_stays|].
  unfold deniedOp. by auto with edge.
Qed.

Lemma stage_stays s v st r ref st1 d : verifyRequest s v st r ref OpStage = (st1, inr d) ->
  rvalid (gsRefs (etGw st)) -> gwDomain (vdGw d) = cTenant (vdClaims d) ->
  stays (cTenant (vdClaims d)) (mintedRef (evIdNow v) (evBuf1 v) (vdRef d)) st1 (stage_ s v st r ref).1.
Proof.
  intros Hg Hv Hd. unfold stage_. rewrite Hg. destruct (gate_inv _ _ _ _ _ _ _ _ Hg) as [(Hs & _) _]. rewrite <- Hs in Hv.
  unfold deniedOp, audited. destruct (_ && _); [by auto with edge|]. cbv zeta. destruct (negb _); [by auto with edge|].
  destruct (MintRefWithOptions _ _ _ _ _ _ _ _) as [g [up|e]] eqn:Hm; apply mint_within in Hm; try done; rewrite Hd in Hm;
    [by apply stays_record, stays_gw|by apply err_stays, stays_gw].
Qed.

Lemma finalize_stays s v st r ref st1 d : verifyRequest s v st r ref OpFinalize = (st1, inr d) ->
  rvalid (gsRefs (etGw st)) -> gwDomain (vdGw d) = cTenant (vdClaims d) -> stays (cTenant (vdClaims d)) (vdRef d) st1 (finalize s v st r ref).1.
Proof.
  intros Hg Hv Hd. unfold finalize. rewrite Hg. destruct (gate_inv _ _ _ _ _ _ _ _ Hg) as [(Hs & _) _]. rewrite <- Hs in Hv. cbv zeta.
  destruct (Finalize _ _ _ _) as [g [info|e]] eqn:Hf; apply finalize_within in Hf; try done; rewrite Hd in Hf; [|by apply err_stays, stays_gw].
  destruct (hashDiffers _ _); apply stays_record; [|by apply stays_put]. apply stays_gw; [|done..]. cbn.
  eapply within_trans; [exact Hf|]. rewrite <- Hd. apply delete_within, Hf.
Qed.

(** An object request is the gate, then its operation. *)
Lemma serve_gate s v st r rt op ref st1 x : routeOp r rt = Some (op, ref) -> verifyRequest s v st r ref op = (st1, x) ->
  match x with
  | inl resp => edgeServe s v st r rt = (st1, resp)
  | inr d => rvalid (gsRefs (etGw st)) -> gwDomain (vdGw d) = cTenant (vdClaims d) -> vdRef d = ref ->
      stays (cTenant (vdClaims d)) (routeRef v rt) st1 (edgeServe s v st r rt).1
  end.
Proof.
  intros Hop Hg. destruct rt as [| |ref'|ref'|ref']; cbn in Hop; try done; injection Hop as <- <-; cbn [edgeServe routeRef];
    (destruct x as [resp|d]; [|intros Hv Hd Hr]).
  - unfold dataPath. by rewrite Hg.
  - rewrite <- Hr. apply dataPath_stays; [by rewrite Hr|done..].
  - unfold stage_. by rewrite Hg.
  - rewrite <- Hr. apply stage_stays; [by rewrite Hr|done..].
  - unfold finalize. by rewrite Hg.
  - rewrite <- Hr. apply finalize_stays; [by rewrite Hr|done..].
Qed.

(** C8: Object requests are authorized and confined.  An object request either
    is refused by the gate, with an error status and without touching objects,
    accounts or the revocation list; or it carries a token whose payload is
    signed under a registered key, meant for this edge and within its lifetime,
    whose claims are not revoked and name exactly the operation and the ref of
    the request, and whose owner, if it is bound to one, is the principal of the
    request.  Then, however the operation ends, it changes no row and no snapshot
    but those of that ref in the tenant of the claims, deletes no blob, and
    changes no account but the tenant's. *)
Theorem edge_authorized s v st r rt op ref st' resp :
  (forall d g, esRouter s d = Some g -> gwDomain g = d) -> rvalid (gsRefs (etGw st)) ->
  routeOp r rt = Some (op, ref) -> edgeServe s v st r rt = (st', resp) ->
  (same_state st st' /\ 400 <= erStatus resp) \/
  exists payload sig pub c, carries (tokenOf r) payload sig /\ claimsUnmarshal payload = Some c /\
    vfKeys (esVerifier s) !! cKeyID c = Some pub /\ edVerify pub payload sig = true /\
    cAudience c = vfAudience (esVerifier s) /\ cNotBefore c <= unix (evNow v) < cExpiry c /\
    IsRevoked (etRevoked st) (evRevNow v) (cJTI c) = false /\ cOp c = op /\ cRef c = ref /\
    (cRequireAuth c = true -> exists live, Identify (esIdentity s) r = Some live /\ matches c live = true) /\
    stays (cTenant c) (routeRef v rt) st st'.
Proof.
  intros Hrt Hv Hop Hs.
  destruct (verifyRequest s v st r ref op) as [st1 x] eqn:Hg. pose proof (serve_gate s v st r rt op ref st1 x Hop Hg) as Hx. rewrite Hs in Hx. cbn [fst] in Hx.
  destruct (gate_inv _ _ _ _ _ _ _ _ Hg) as [Hsame Hadm]. destruct x as [resp1|d]; [left; by injection Hx as -> ->|].
  right. destruct Hadm as [H1 H2 H3 H4 H5 H6 H7 H8]. destruct (verify_inv _ _ _ _ H1) as (payload & sig & pub & Hc & Hu & Hk & Hver & _ & Haud & Hwin).
  exists payload, sig, pub, (vdClaims d). split_and!; try done; try lia.
  - intros Ha. destruct (H8 Ha) as (live & Hid & Hm & _). by exists live.
  - destruct (Hx Hv (Hrt _ _ H7) H5) as [[Wv Wb Wr Ws] Hq Hrev]. destruct Hsame as (E1 & E2 & E3). rewrite E1 in *. rewrite E2 in Hq. split; [by split|done|by rewrite Hrev].
Qed.
(** ** Minting *)

Lemma binding_mode cfg req ra mm : bindingOf cfg req = inr (ra, mm) -> mm ∈ [""; "exact"; "same-tenant"].
Proof.
  unfold bindingOf. destruct (negb _); [intros [= _ <-]; apply elem_of_cons; by left|]. cbv zeta.
  generalize (if decide (mrMatchMode req = "") then "exact" else mrMatchMode req). intros m. case_decide as Hm; [|by case_decide].
  intros [= _ <-]. rewrite !elem_of_cons. tauto.
Qed.

Lemma mint_inv s v st r st' resp token url op ref tenant exp :
  mint s v st r = (st', resp) -> erBody resp = EbMint token url op ref tenant exp ->
  exists subject req ra mm, Identify (esIdentity s) r = Some (tenant, subject) /\ ref <> "" /\
    let c := MkClaims 0 "" tenant subject op ref (mrMaxSize req) (mrContentType req) (mrContentHash req) 0 0 "" "" ra mm in
    let ttl := ttlOf (esCfg s) ra req in
    (token, exp) = ((Mint (esMinter s) (evNow v) (evBuf1 v) c ttl).1, cExpiry (Mint (esMinter s) (evNow v) (evBuf1 v) c ttl).2) /\
    ~ (op = OpHead /\ ExistenceMode (esCfg s) = ModeConfidential) /\ mm ∈ [""; "exact"; "same-tenant"].
Proof.
  unfold mint. destruct (Identify _ _) as [[t subject]|] eqn:Hid; [|by intros [= _ <-]]. destruct (Allow _ _) as [l ok]. destruct ok; [|by intros [= _ <-]].
  cbn [negb]. destruct (decodeMint _) as [req|]; [|by intros [= _ <-]]. cbv zeta. destruct (negb (knownOp _)); [by intros [= _ <-]|].
  case_decide as Hr; [by intros [= _ <-]|]. case_decide as Hm; [by intros [= _ <-]|]. destruct (_ && _); [by intros [= _ <-]|].
  destruct (_ && _); [by intros [= _ <-]|]. destruct (bindingOf _ _) as [msg|[ra mm]] eqn:Hbi; [by intros [= _ <-]|].
  apply binding_mode in Hbi. intros [= _ <-]. intros [= <- <- <- <- <- <-]. by exists subject, req, ra, mm.
Qed.

Lemma owner_matches c : cMatchMode c ∈ [""; "exact"; "same-tenant"] -> matches c (cTenant c, cSubject c) = true.
Proof.
  rewrite !elem_of_cons. intros Hm. unfold matches. case_decide; [by rewrite bool_decide_true|]. case_decide; [by rewrite bool_decide_true|].
  destruct Hm as [|[|[|?%elem_of_nil]]]; tauto.
Qed.

(** The lifetime of a token by its kind. *)
Definition ttlLimit (cfg : edgeConfig) (ra : bool) : Z := if ra then AuthBoundMaxTTL cfg else ShareableMaxTTL cfg.

Lemma ttl_bound cfg ra req : 0 < ShareableMaxTTL cfg -> 0 < AuthBoundMaxTTL cfg -> ttlOf cfg ra req <= ttlLimit cfg ra.
Proof.
  intros H1 H2. unfold ttlOf, ttlLimit. cbv zeta. set (t := if _ <? _ then _ else _). apply Z.ltb_lt in H1, H2. rewrite H1, H2.
  destruct ra; cbn [negb andb]; [destruct (Z.ltb_spec (AuthBoundMaxTTL cfg) t)|destruct (Z.ltb_spec (ShareableMaxTTL cfg) t)]; lia.
Qed.

Lemma unix_mono a b : a <= b -> unix a <= unix b.
Proof. intros H. unfold unix. by apply Z.div_le_mono. Qed.

Section Minted.
  Context {EL : Ed25519Laws E} {CL : ClaimsCodecLaws C}.

(** C9: A minted token opens what it was minted for, and nothing else.  The token
    is for the tenant and the subject of the request that minted it, and it ends
    at most one bearer or one bound lifetime later.  Until then, from half a
    minute before it was minted on, a request with the token, for its operation
    and its ref, not revoked, within the rate and, for a bound token, by its
    owner, passes the gate to the tenant's gateway; with any other operation or
    ref it is refused. *)
Theorem minted_opens s v st r st' resp token url op ref tenant exp :
  vfKeys (esVerifier s) !! mnKid (esMinter s) = Some (edPublic (mnPriv (esMinter s))) ->
  vfAudience (esVerifier s) = mnAudience (esMinter s) -> 0 < ShareableMaxTTL (esCfg s) -> 0 < AuthBoundMaxTTL (esCfg s) ->
  mint s v st r = (st', resp) -> erBody resp = EbMint token url op ref tenant exp ->
  exists subject c, Identify (esIdentity s) r = Some (tenant, subject) /\ cTenant c = tenant /\ cSubject c = subject /\
    cOp c = op /\ cRef c = ref /\ exp = cExpiry c /\ exp <= unix (evNow v + ttlLimit (esCfg s) (cRequireAuth c)) /\
    (claims_safe c -> forall v2 st2 r2, tokenOf r2 = token -> unix (evNow v - 30 * second) <= unix (evNow v2) < exp ->
      (forall g l, IsRevoked (etRevoked st2) (evRevNow v2) (cJTI c) = false -> esRouter s tenant = Some g ->
         Allow (etRate st2) (tenant +:+ ":" +:+ subject) = (l, true) ->
         (cRequireAuth c = true -> Identify (esIdentity s) r2 = Some (tenant, subject)) ->
         exists d, verifyRequest s v2 st2 r2 ref op = (setRate st2 l, inr d) /\ vdClaims d = c /\ vdGw d = g /\ vdRef d = ref) /\
      (forall op2 ref2, (op2, ref2) <> (op, ref) -> exists st3 resp2, verifyRequest s v2 st2 r2 ref2 op2 = (st3, inl resp2) /\ 400 <= erStatus resp2)).
Proof.
  intros Hk Ha Hs1 Hs2 Hm Hb. destruct (mint_inv _ _ _ _ _ _ _ _ _ _ _ _ Hm Hb) as (subject & req & ra & mm & Hid & Hne & [= -> ->] & Hmode & Hmm).
  set (c0 := MkClaims _ _ _ _ _ _ _ _ _ _ _ _ _ _ _) in *. set (ttl := ttlOf _ _ _) in *.
  set (c := (Mint (esMinter s) (evNow v) (evBuf1 v) c0 ttl).2). exists subject, c.
  split_and!; [done..|apply unix_mono; pose proof (ttl_bound (esCfg s) ra req Hs1 Hs2); unfold ttl; cbn; lia|].
  intros Hsafe v2 st2 r2 Ht Hw. assert (Hv : capVerify (esVerifier s) (evNow v2) (tokenOf r2) = Ok c).
  { rewrite Ht. apply (verify_minted (esMinter s) (esVerifier s) (evNow v) (evBuf1 v) c0 ttl (evNow v2) Hk Ha Hsafe). exact Hw. }
  assert (Hn : tokenOf r2 <> "") by (intros E1; rewrite E1 in Hv; done). split.
  - intros g l Hrev Hg Hl Hown. exists (MkVerified g c ref (if cRequireAuth c then subject else "")). split; [|done].
    apply gate_opens; [done| |done|by cbn; intros ->]. split; try done. cbn [vdClaims vdLive]. intros Hra. exists (tenant, subject).
    rewrite Hra. split; [by apply Hown|]. split; [|done]. by apply owner_matches.
  - intros op2 ref2 Hne2. destruct (verifyRequest s v2 st2 r2 ref2 op2) as [st3 [resp2|d]] eqn:Eg; [exists st3, resp2; split; [done|by apply gate_inv in Eg as [_ ?]]|].
    apply gate_inv in Eg as [_ [H1 _ H3 H4 _ _ _ _]]. rewrite Hv in H1. injection H1 as E1. rewrite <- E1 in H3, H4. by destruct Hne2; rewrite <- H3, <- H4.
Qed.
End Minted.
(** ** Serving *)

(** C10: A GET returns the object.  Past the gate, a GET of a ref without an
    object is 404; of one whose hash is not the one the capability names, 412
    without a byte of it; and otherwise 200 with exactly the bytes of the object,
    its length and its hash.  Nothing changes but the audit trail. *)
Theorem edge_serves {Rel : StorageReliable Sto} {SR : SnapshotStoreReadable U} {RR : RefStoreReliable R} v st r d objs :
  sim (etGw st) objs -> cache_ok (wBlobs (gsWorld (etGw st))) (evFramings v) -> (forall i, 0 < evSizes v i)%nat ->
  let '(st', resp) := handleGet v st r d in
  same_state st st' /\
  match objs !! (gwDomain (vdGw d), vdRef d) with
  | None => erStatus resp = 404
  | Some o =>
      if decide (cContentHash (vdClaims d) = "" \/ obHash o = cContentHash (vdClaims d)) then
        erStatus resp = 200 /\ erBody resp = EbData (obData o) /\
        erHeader resp !! "Content-Length" = Some (FormatInt (obSize o)) /\
        (obHash o <> "" -> erHeader resp !! "Etag" = Some (quoted (obHash o)))
      else erStatus resp = 412 /\ erBody resp = EbError "content changed"
  end.
Proof.
  intros Hs Hfc Hsz. unfold handleGet. destruct (objs !! _) as [o|] eqn:Ho.
  2:{ destruct (gateway_misses (evFramings v) (vdGw d) (etGw st) objs (vdRef d) Hs Ho) as [-> _]. done. }
  destruct (gateway_opens (evFramings v) (vdGw d) (etGw st) objs (vdRef d) o Hs Hfc Ho) as (rd & info & -> & _ & Hp & _ & Hz & Hh & _).
  unfold hashDiffers. rewrite Hh. destruct (decide _) as [Hd|Hd].
  - assert (negb (bool_decide (cContentHash (vdClaims d) = "")) && negb (bool_decide (obHash o = cContentHash (vdClaims d))) = false) as ->
      by (destruct Hd; repeat case_bool_decide; done).
    split; [done|]. cbn [erStatus erBody erHeader]. rewrite (copyAll_spec _ _ _ _ Hsz Hp). unfold objectHeaders, SetObjectHeaders. rewrite Hz, Hh.
    split_and!; [done|done| |].
    + destruct (decide (obHash o = "")); [apply lookup_insert_eq|]. etrans; [by apply lookup_insert_ne|apply lookup_insert_eq].
    + intros Hn. rewrite decide_False by done. apply lookup_insert_eq.
  - rewrite !bool_decide_false by tauto. done.
Qed.

(** ** Quotas *)

Lemma maxBytes_len n r : 0 <= n -> len (drained (maxBytesReader n r)) <= n.
Proof.
  revert n; induction r as [|[b s] r IH]; intros n Hn; [done|]. cbn [maxBytesReader]. destruct (Z.leb_spec (len b) n).
  - destruct s; cbn [drained]; [|lia..]. rewrite len_app. specialize (IH (n - len b) ltac:(lia)). lia.
  - cbn [drained]. rewrite slice_len by lia. lia.
Qed.

Definition quota_limits (q : MemoryQuotaStore) : Prop := 0 < MaxBytes q < 2 ^ 62 /\ 0 < MaxObjects q < 2 ^ 62.

Definition quota_ok (q : MemoryQuotaStore) : Prop :=
  forall t, 0 <= tenantBytes q t <= MaxBytes q /\ 0 <= tenantObjects q t <= MaxObjects q.

Lemma put_own q tenant z :
  tenantBytes (RecordPut q tenant z) tenant = int64 (tenantBytes q tenant + z) /\ tenantObjects (RecordPut q tenant z) tenant = int64 (tenantObjects q tenant + 1).
Proof. unfold RecordPut. split; [unfold tenantBytes at 1|unfold tenantObjects at 1]; cbn [qBytes qCount]; by rewrite lookup_insert_eq. Qed.

Lemma delete_own q tenant z :
  tenantBytes (RecordDelete q tenant z) tenant = (if int64 (tenantBytes q tenant - z) <? 0 then 0 else int64 (tenantBytes q tenant - z)) /\
  tenantObjects (RecordDelete q tenant z) tenant = (if 0 <? tenantObjects q tenant then tenantObjects q tenant - 1 else tenantObjects q tenant).
Proof.
  unfold RecordDelete. cbv zeta. split; [unfold tenantBytes at 1; cbn [qBytes]; by rewrite lookup_insert_eq|]. unfold tenantObjects at 1. cbn [qCount].
  destruct (0 <? tenantObjects q tenant); [by rewrite lookup_insert_eq|done].
Qed.

Lemma quota_put q tenant ceiling z :
  quota_limits q -> quota_ok q -> 0 < ceiling < 2 ^ 62 -> Authorize q tenant ceiling = true -> 0 <= z <= ceiling -> quota_ok (RecordPut q tenant z).
Proof.
  intros [Hb Hc] Hq Hce Ha Hz t. specialize (Hq t) as [H1 H2]. destruct (decide (t = tenant)) as [->|Hne].
  2:{ unfold tenantBytes, tenantObjects, RecordPut. cbn. rewrite !lookup_insert_ne by done. done. }
  unfold Authorize in Ha. rewrite !int64_id in Ha by lia. destruct (Z.ltb_spec 0 (MaxObjects q)); [|lia].
  destruct (Z.ltb_spec 0 (MaxBytes q)); [|lia]. cbn [andb] in Ha. destruct (Z.ltb_spec (MaxObjects q) (tenantObjects q tenant + 1)); [done|].
  destruct (Z.ltb_spec (MaxBytes q) (tenantBytes q tenant + ceiling)); [done|].
  destruct (put_own q tenant z) as [-> ->]. cbn [MaxBytes MaxObjects RecordPut]. rewrite !int64_id by lia. lia.
Qed.

Lemma quota_delete q tenant z : quota_limits q -> quota_ok q -> 0 <= z < 2 ^ 63 -> quota_ok (RecordDelete q tenant z).
Proof.
  intros [Hb Hc] Hq Hz t. pose proof (Hq tenant) as [H1 H2]. specialize (Hq t) as [H3 H4]. destruct (decide (t = tenant)) as [->|Hne].
  - destruct (delete_own q tenant z) as [-> ->]. cbn [MaxBytes MaxObjects RecordDelete]. rewrite int64_id by lia.
    destruct (Z.ltb_spec (tenantBytes q tenant - z) 0), (Z.ltb_spec 0 (tenantObjects q tenant)); lia.
  - destruct (delete_account q tenant z t Hne) as [-> ->]. done.
Qed.

Lemma put_size now g st ref ct r st' info : gwPut now g st ref ct r = (st', Ok info) -> oSize info = len (drained r).
Proof.
  unfold gwPut, PutWithMeta. case_decide; [done|]. destruct (Put _ _ _ _ _) as [w [sm|]]; [|done]. destruct (rPut _ _) as [refs [u|]]; [|done]. by intros [= _ <-].
Qed.

Lemma err_quota st r d e : etQuota (gatewayErr st r d e).1 = etQuota st.
Proof. unfold gatewayErr. by destruct (Classify e). Qed.

Lemma handlePut_quota cfg v st r d :
  quota_limits (etQuota st) -> quota_ok (etQuota st) -> 0 < ceilingOf cfg (cMaxSize (vdClaims d)) < 2 ^ 62 -> quota_ok (etQuota (handlePut cfg v st r d).1).
Proof.
  intros Hl Hq Hce. unfold handlePut. destruct (_ && _); [done|]. destruct (negb _); [done|]. cbv zeta.
  destruct (Authorize _ _ _) eqn:Ha; [|done]. cbn [negb]. destruct (Z.ltb_spec 0 (ceilingOf cfg (cMaxSize (vdClaims d)))); [|lia].
  destruct (gwPut _ _ _ _ _ _) as [g [info|e]] eqn:Hp; [|destruct (decide (e = errMaxBytes)); [done|by rewrite err_quota]].
  destruct (hashDiffers _ _); [done|]. cbn [fst etQuota audited record setQuota]. eapply quota_put; [done|done|exact Hce|done|].
  rewrite (put_size _ _ _ _ _ _ _ _ Hp). pose proof (len_nonneg (drained (maxBytesReader (ceilingOf cfg (cMaxSize (vdClaims d))) (rBody r)))).
  split; [done|]. apply maxBytes_len. lia.
Qed.

Lemma gate_quota s v st r ref op st1 x : verifyRequest s v st r ref op = (st1, x) -> etQuota st1 = etQuota st.
Proof. intros Hg. by apply gate_inv in Hg as [(_ & ? & _) _]. Qed.

Lemma mint_quota s v st r : etQuota (mint s v st r).1 = etQuota st.
Proof.
  unfold mint. destruct (Identify _ _) as [[t subject]|]; [|done]. destruct (Allow _ _) as [l ok]. destruct (negb ok); [done|].
  destruct (decodeMint _) as [req|]; [|done]. cbv zeta. destruct (negb (knownOp _)); [done|]. case_decide; [done|]. case_decide; [done|].
  destruct (_ && _); [done|]. destruct (_ && _); [done|]. by destruct (bindingOf _ _) as [msg|[ra mm]].
Qed.

(** C37: Uploads keep every tenant within its quota.  Where both limits are set,
    every token the verifier accepts has a positive ceiling and stored sizes are
    sizes, every request but a finalize leaves the bytes and the objects of every
    tenant between zero and the limits. *)
Theorem quota_kept s v st r rt st' resp :
  quota_limits (etQuota st) -> quota_ok (etQuota st) ->
  (forall c, capVerify (esVerifier s) (evNow v) (tokenOf r) = Ok c -> 0 < ceilingOf (esCfg s) (cMaxSize c) < 2 ^ 62) ->
  (forall k i, rrows (gsRefs (etGw st)) !! k = Some i -> 0 <= oSize i < 2 ^ 63) ->
  (forall ref, rt <> RFinalize ref) -> edgeServe s v st r rt = (st', resp) -> quota_ok (etQuota st').
Proof.
  intros Hl Hq Hce Hz Hrt. destruct rt as [| |ref|ref|ref]; cbn; [| | | |by destruct (Hrt ref)].
  - intros Eq. apply (f_equal (fun x => etQuota x.1)) in Eq. cbn in Eq. by rewrite <- Eq, mint_quota.
  - unfold revoke. destruct (Identify _ _); [|by intros [= <- _]]. destruct (decodeRevoke _); [|by intros [= <- _]]. case_decide; by intros [= <- _].
  - unfold dataPath. destruct (verifyRequest _ _ _ _ _ _) as [st1 [resp1|d]] eqn:Hg; pose proof (gate_quota _ _ _ _ _ _ _ _ Hg) as Eq; [intros [= <- _]; by rewrite Eq|].
    apply gate_inv in Hg as [(Eg & _ & _) Ha]. destruct Ha as [Hv _ _ _ _ _ _ _]. rewrite <- Eq in Hl, Hq. rewrite <- Eg in Hz.
    assert (Hst : forall x : edgeSt * edgeResp, quota_ok (etQuota x.1) -> x = (st', resp) -> quota_ok (etQuota st')) by (by intros x Hx ->).
    repeat case_decide; apply Hst.
    + unfold handleGet. destruct (gwGet _ _ _ _) as [[rd info]|]; [by destruct (hashDiffers _ _)|by rewrite err_quota].
    + unfold handleHead. destruct (gwHead _ _ _) as [info|]; [by destruct (hashDiffers _ _)|by rewrite err_quota].
    + apply handlePut_quota; [done|done|by apply Hce].
    + unfold handleDelete. destruct (gwDelete _ _ _) as [g [u|e]]; [|by rewrite err_quota]. cbn [fst etQuota audited record setQuota]. apply quota_delete; [done|done|].
      unfold gwHead. destruct (lookupRef _ _ _) as [i|] eqn:Hi; [|cbn; lia]. apply lookupRef_ok in Hi as [Hi _]. cbn [mbind result_bind].
      destruct (sGetLatestMetadata _ _); [|lia]. by apply (Hz _ _ Hi).
    + done.
  - unfold stage_. destruct (verifyRequest _ _ _ _ _ _) as [st1 [resp1|d]] eqn:Hg; pose proof (gate_quota _ _ _ _ _ _ _ _ Hg) as Eq; [intros [= <- _]; by rewrite Eq|].
    rewrite <- Eq in Hq. unfold deniedOp. destruct (_ && _); [by intros [= <- _]|]. cbv zeta. destruct (negb _); [by intros [= <- _]|].
    destruct (MintRefWithOptions _ _ _ _ _ _ _ _) as [g [up|e]]; [by intros [= <- _]|]. intros Eq2. apply (f_equal (fun x => etQuota x.1)) in Eq2. cbn in Eq2. by rewrite <- Eq2, err_quota.
Qed.
End Spec.
