(* ===== verification/EdgeScenarios.v ===== *)
(** Edge runs on the in-memory stores: the witnesses of EdgeSpec, and runs in
    which the edge does not keep what it says.

    [negative_size_unbounded]: a capability with a negative size limit escapes the
    edge's own limit.  [mismatch_destroys]: an upload whose bytes are not those
    the capability names deletes the object that was there.  [delete_uncounts] and
    [finalize_recounts]: deleting what is not there and finalizing again move the
    object count away from the objects.  [stranger_revokes]: a principal of one
    tenant revokes a token of another. *)

From S2P Require Import Prelude GoStrings Decimal Sha256 PackFormat BlobStore Manifest SnapStore DedupIndex Reclaim ChunkedRead ChunkedWrite StreamCopy PutSpec PutGet BatchSpec GC GCSpec MetaOps Lifecycle GoText RefStore Gateway GatewaySpec GatewayWithin Scenarios GatewayScenarios S3Crypto S3Auth S3Objects S3Scenarios EdgeCap Edge EdgeSpec.

(** ** Instances for evaluation *)

(** The key and a checksum for a signature. *)
Definition toySign (k m : bytes) : bytes :=
  take 63 (k ++ replicate 63 Byte.x00) ++ [Z_byte (foldl (fun a b => (a * 31 + byte_Z b) mod 256) 7 m)].

#[export] Instance toy_ed : Ed25519 := {|
  edPriv := bytes; edPub := bytes; edPublic := fun k => k; edSign := toySign; edVerify := fun k m s => bool_decide (s = toySign k m);
|}.

#[export] Instance toy_ed_laws : Ed25519Laws toy_ed.
Proof.
  split; [intros; by apply bool_decide_true|]. intros k m. cbn. unfold toySign. rewrite length_app, length_take, length_app, length_replicate. cbn [length]. lia.
Qed.

Definition enc_bool (b : bool) : bytes := enc_Z (if b then 1 else 0).

#[export] Instance ref_claims : ClaimsCodec := {|
  claimsMarshal := fun c =>
    enc_Z (cVer c) ++ enc_str (cKeyID c) ++ enc_str (cTenant c) ++ enc_str (cSubject c) ++ enc_str (cOp c) ++ enc_str (cRef c) ++
    enc_Z (cMaxSize c) ++ enc_str (cContentType c) ++ enc_str (cContentHash c) ++ enc_Z (cNotBefore c) ++ enc_Z (cExpiry c) ++
    enc_str (cJTI c) ++ enc_str (cAudience c) ++ enc_bool (cRequireAuth c) ++ enc_str (cMatchMode c);
  claimsUnmarshal := fun b =>
    '(ver, b) ← dec_Z b; '(kid, b) ← dec_str b; '(ten, b) ← dec_str b; '(sub, b) ← dec_str b; '(op, b) ← dec_str b; '(ref, b) ← dec_str b;
    '(mx, b) ← dec_Z b; '(ct, b) ← dec_str b; '(ch, b) ← dec_str b; '(nbf, b) ← dec_Z b; '(exp, b) ← dec_Z b;
    '(jti, b) ← dec_str b; '(aud, b) ← dec_str b; '(ra, b) ← dec_Z b; '(mm, b) ← dec_str b;
    Some (MkClaims ver kid ten sub op ref mx ct ch nbf exp jti aud (ra =? 1) mm);
|}.

#[export] Instance ref_claims_laws : ClaimsCodecLaws ref_claims.
Proof.
  refine {| text_safe := fun _ => True |}; [done| |].
  - intros c _ _. unfold claimsMarshal, claimsUnmarshal, ref_claims, enc_bool.
    rewrite <- (app_nil_r (enc_str (cMatchMode c))).
    repeat first [rewrite dec_Z_enc; cbn [mbind option_bind]|rewrite dec_str_enc; cbn [mbind option_bind]]. by destruct c as [? ? ? ? ? ? ? ? ? ? ? ? ? [] ?].
  - intros c. cbn. destruct (cVer c); done.
Defined.

#[export] Instance ref_edge_json : EdgeJSON := {|
  decodeMint := fun b =>
    '(op, b) ← dec_str b; '(ref, b) ← dec_str b; '(mx, b) ← dec_Z b; '(ct, b) ← dec_str b; '(ch, b) ← dec_str b; '(ttl, b) ← dec_Z b;
    '(ra, b) ← dec_Z b; '(mm, b) ← dec_str b;
    Some (MkMintReq op ref mx ct ch ttl (if ra =? 0 then None else Some (ra =? 2)) mm);
  decodeRevoke := fun b => '(jti, b) ← dec_str b; '(exp, b) ← dec_Z b; Some (MkRevoke jti exp);
|}.

#[export] Existing Instance noLimit.

(** ** A server *)

Definition ed_key : bytes := sbytes "key".
Definition ed_cfg : edgeConfig := edgeDefaults (MkEdgeConfig 10 [] 0 "" false 0 0).

Definition ed_server : edgeServer :=
  MkEdge (fun d => if decide (d = "t") then Some sx_gw else None) (MkMinter "k1" ed_key "edge")
    (AddKey (MkVerifier ∅ "edge") "k1" ed_key) (MkHdrId "" "") ed_cfg.

Definition ed_now : Z := 1700000000 * second.
Definition ed_env : edgeEnv := MkEEnv ed_now ed_now ed_now ed_now [Byte.x0a] [Byte.x0b] (fun _ => 8%nat) ∅.

Definition ed_st0 : @edgeSt mem_storage mem_snaps mem_dedup mem_refs mem_stage noLimit := EdgeSt gx_st0 (MkQuota 1000 5 ∅ ∅) tt ∅ [].

Definition ed_headers (tenant user : string) : gmap string (list string) :=
  list_to_map [(CanonicalHeaderKey "X-Auth-Tenant-ID", [tenant]); (CanonicalHeaderKey "X-Scitrera-User", [user])].

Definition ed_mint_req (op ref : string) (mx : Z) (hash : string) : request :=
  MkReq "POST" "/capabilities" ∅ (ed_headers "t" "ann") "" [(enc_str op ++ enc_str ref ++ enc_Z mx ++ enc_str "" ++ enc_str hash ++ enc_Z 0 ++ enc_Z 0 ++ enc_str "", RdEOF)].

(** The token of a mint. *)
Definition ed_token (op ref : string) (mx : Z) (hash : string) : string :=
  match erBody (mint ed_server ed_env ed_st0 (ed_mint_req op ref mx hash)).2 with EbMint token _ _ _ _ _ => token | _ => "" end.

(** A request with a token. *)
Definition ed_use (method token : string) (body : bytes) : request :=
  MkReq method "" (list_to_map [("cap", [token])]) ∅ "" [(body, RdEOF)].

#[local] Abbreviation ed_do st r rt := (edgeServe (Sp := ex_sp) ed_server ed_env st r rt).

Definition ed_put (st : edgeSt) (mx : Z) (hash : string) (body : bytes) : edgeSt * edgeResp :=
  ed_do st (ed_use "PUT" (ed_token "PUT" "o" mx hash) body) (RBlob "o").

Definition ed_get (st : edgeSt) : edgeResp := (ed_do st (ed_use "GET" (ed_token "GET" "o" 0 "") []) (RBlob "o")).2.

Definition ed_short : bytes := sbytes "hello".
Definition ed_long : bytes := sbytes "hello, hello, hello".

(** ** Runs *)

Example put_get :
  let st1 := (ed_put ed_st0 0 "" ed_short).1 in
  erStatus (ed_put ed_st0 0 "" ed_short).2 = 201 /\ erStatus (ed_get st1) = 200 /\ erBody (ed_get st1) = EbData ed_short /\
  tenantBytes (etQuota st1) "t" = 5 /\ tenantObjects (etQuota st1) "t" = 1 /\
  erStatus (ed_do st1 (ed_use "DELETE" (ed_token "GET" "o" 0 "") []) (RBlob "o")).2 = 403.
Proof. vm_compute. repeat split. Qed.

(** The edge's limit is 10 bytes: an upload of 19 is refused under a capability
    without a limit of its own and accepted under one whose limit is -1, which
    the edge mints on request. *)
Theorem negative_size_unbounded :
  MaxObjectSize ed_cfg = 10 /\ len ed_long = 19 /\
  erStatus (mint ed_server ed_env ed_st0 (ed_mint_req "PUT" "o" (-1) "")).2 = 200 /\
  erStatus (ed_put ed_st0 0 "" ed_long).2 = 413 /\ erStatus (ed_put ed_st0 (-1) "" ed_long).2 = 201 /\
  erBody (ed_get (ed_put ed_st0 (-1) "" ed_long).1) = EbData ed_long.
Proof. vm_compute. repeat split. Qed.

(** An upload that does not match its capability is refused and has deleted the
    object that was there; the account still counts it. *)
Theorem mismatch_destroys :
  let st1 := (ed_put ed_st0 0 "" ed_short).1 in
  let bad := ed_put st1 0 (sha256_hex ed_short) (sbytes "other") in
  erBody (ed_get st1) = EbData ed_short /\ erStatus bad.2 = 403 /\ erStatus (ed_get bad.1) = 404 /\
  tenantBytes (etQuota bad.1) "t" = 5 /\ tenantObjects (etQuota bad.1) "t" = 1.
Proof. vm_compute. repeat split. Qed.

(** Deleting a ref that does not exist takes another object off the count. *)
Theorem delete_uncounts :
  let st1 := (ed_put ed_st0 0 "" ed_short).1 in
  let gone := ed_do st1 (ed_use "DELETE" (ed_token "DELETE" "absent" 0 "") []) (RBlob "absent") in
  erStatus gone.2 = 204 /\ erBody (ed_get gone.1) = EbData ed_short /\ tenantObjects (etQuota gone.1) "t" = 0.
Proof. vm_compute. repeat split. Qed.

(** Finalizing an object that is there counts it again. *)
Theorem finalize_recounts :
  let st1 := (ed_put ed_st0 0 "" ed_short).1 in
  let again := ed_do st1 (ed_use "POST" (ed_token "FINALIZE" "o" 0 "") []) (RFinalize "o") in
  erStatus again.2 = 200 /\ tenantBytes (etQuota again.1) "t" = 10 /\ tenantObjects (etQuota again.1) "t" = 2.
Proof. vm_compute. repeat split. Qed.

(** A principal of another tenant names the token and it is revoked. *)
Theorem stranger_revokes :
  let r := MkReq "POST" "/revoke" ∅ (ed_headers "m" "mallory") "" [(enc_str (hex_encode [Byte.x0a]) ++ enc_Z 0, RdEOF)] in
  let st1 := (ed_put ed_st0 0 "" ed_short).1 in
  let out := ed_do st1 r RRevoke in
  erStatus (ed_get st1) = 200 /\ erStatus out.2 = 204 /\ erStatus (ed_get out.1) = 403.
Proof. vm_compute. repeat split. Qed.

(** ** Witnesses *)

Lemma ed_router d g : esRouter ed_server d = Some g -> gwDomain g = d.
Proof. cbn. case_decide; [|done]. intros [= <-]. done. Qed.

Definition ed_put_req : request := ed_use "PUT" (ed_token "PUT" "o" 0 "") ed_short.
#[local] Abbreviation ed_out := (ed_do ed_st0 ed_put_req (RBlob "o")).

Lemma edge_authorized_witness :
  (same_state ed_st0 ed_out.1 /\ 400 <= erStatus ed_out.2) \/
  exists payload sig pub c, carries (tokenOf ed_put_req) payload sig /\ claimsUnmarshal payload = Some c /\
    vfKeys (esVerifier ed_server) !! cKeyID c = Some pub /\ edVerify pub payload sig = true /\
    cAudience c = "edge" /\ cNotBefore c <= unix ed_now < cExpiry c /\
    IsRevoked (etRevoked ed_st0) ed_now (cJTI c) = false /\ cOp c = "PUT" /\ cRef c = "o" /\
    (cRequireAuth c = true -> exists live, Identify (esIdentity ed_server) ed_put_req = Some live /\ matches c live = true) /\
    stays (cTenant c) "o" ed_st0 ed_out.1.
Proof.
  apply (edge_authorized (Sp := ex_sp) ed_server ed_env ed_st0 ed_put_req (RBlob "o") "PUT" "o" ed_out.1 ed_out.2 ed_router).
  - apply gx_sim0.
  - reflexivity.
  - apply surjective_pairing.
Defined.

#[local] Abbreviation ed_minted := (mint ed_server ed_env ed_st0 (ed_mint_req "GET" "o" 0 "")).

Lemma minted_opens_witness :
  exists subject c, Identify (esIdentity ed_server) (ed_mint_req "GET" "o" 0 "") = Some ("t", subject) /\ cTenant c = "t" /\ cSubject c = subject /\
    cOp c = "GET" /\ cRef c = "o" /\ unix (ed_now + 300 * second) = cExpiry c.
Proof.
  destruct (minted_opens ed_server ed_env ed_st0 (ed_mint_req "GET" "o" 0 "") ed_minted.1 ed_minted.2 (ed_token "GET" "o" 0 "")
    (capabilityURL "GET" "o" (ed_token "GET" "o" 0 "")) "GET" "o" "t" (unix (ed_now + 300 * second))) as (subject & c & H).
  - reflexivity.
  - reflexivity.
  - reflexivity.
  - reflexivity.
  - apply surjective_pairing.
  - vm_compute. reflexivity.
  - exists subject, c. tauto.
Defined.

Definition ed_claims : Claims := MkClaims 1 "k1" "t" "ann" "GET" "o" 0 "" (sha256_hex ex_data) 0 0 "" "edge" false "".
Definition ed_held : edgeSt := EdgeSt (PutWithMeta (Sp := ex_sp) 5 gx_gw gx_st0 "o" "text/plain" gx_meta ex_in).1 (MkQuota 1000 5 ∅ ∅) tt ∅ [].

Lemma edge_serves_witness :
  let out := handleGet ed_env ed_held (ed_use "GET" "" []) (MkVerified gx_gw ed_claims "o" "") in
  same_state ed_held out.1 /\ erStatus out.2 = 200 /\ erBody out.2 = EbData ex_data.
Proof.
  pose proof (edge_serves ed_env ed_held (ed_use "GET" "" []) (MkVerified gx_gw ed_claims "o" "") (<[("t", "o") := gx_obj]> ∅) gx_sim1) as H.
  cbv zeta. destruct (handleGet _ _ _ _) as [st' resp]. specialize (H (cache_ok_empty _)). change (vdRef (MkVerified gx_gw ed_claims "o" "")) with "o" in H.
  change (gwDomain (vdGw (MkVerified gx_gw ed_claims "o" ""))) with "t" in H. rewrite lookup_insert_eq in H. rewrite decide_True in H by (right; reflexivity).
  destruct H as (H1 & H2 & H3 & _); [intros i; cbn; lia|]. done.
Defined.

Lemma quota_kept_witness : quota_ok (etQuota ed_out.1).
Proof.
  apply (quota_kept (Sp := ex_sp) ed_server ed_env ed_st0 ed_put_req (RBlob "o") ed_out.1 ed_out.2).
  - vm_compute. done.
  - intros t. unfold tenantBytes, tenantObjects. cbn. rewrite !lookup_empty. cbn. lia.
  - intros c. assert (Hc : match capVerify (esVerifier ed_server) (evNow ed_env) (tokenOf ed_put_req) with
      Ok c => (0 <? ceilingOf ed_cfg (cMaxSize c)) && (ceilingOf ed_cfg (cMaxSize c) <? 2 ^ 62) | Err _ => true end = true) by (vm_compute; reflexivity).
    intros Ec. rewrite Ec in Hc. apply andb_true_iff in Hc as [H1%Z.ltb_lt H2%Z.ltb_lt]. by split.
  - intros [d ref] i Hi. change (memRowsView (MemRefs ∅) !! (d, ref) = Some i) in Hi. by rewrite memView_lookup in Hi.
  - discriminate.
  - apply surjective_pairing.
Defined.
